(* ===== verification/_CoqProject ===== *)
-Q . S2P
Prelude.v
Containers.v
Encoding.v
Entities.v
Values.v
Watermarks.v
StateStorage.v
Messages.v
SystemCatalog.v
SnapshotProtocol.v
Resolver.v
TransactionTracker.v
ReplicationContext.v
ReplicationHandler.v
ReplicationChannel.v
TaskManager.v
Replicator.v
TableFilter.v
Sinks.v
Emitter.v
SchemaBuilder.v
Converters.v
CoreTypes.v
TypeManager.v
Codecs.v
ArrayCodecs.v
Versions.v
Waiting.v
Lifecycle.v
SqlIndex.v
SideChannel.v
Queries.v
Initialize.v
ChunkSnapshots.v
TableSnapshots.v
Configuration.v
Logging.v
Wiring.v
Startup.v
SinkClients.v
EventFilters.v
ServerSession.v
Pipeline.v
WindowedPipeline.v
Delivery.v
EventSettings.v
CatalogLock.v
Services.v
Selection.v
TestHarness.v
