(* ===== verification/Prelude.v ===== *)
(** * timescaledb-event-streamer: a verified model

    timescaledb-event-streamer reads the logical replication stream of a
    TimescaleDB database, keeps a copy of TimescaleDB's catalog, and sends every
    row change of the selected tables, with a consistent initial snapshot, to a
    sink.  This library models the core of the program in Rocq and proves what
    makes it correct; where the code does not do what it means to, a theorem
    states what it does instead.

    ** The program and the files

    A run is put together in internal/replication/replicator.go.  The replication
    channel opens the replication slot and starts the replication handler, which
    receives log entries, decodes them and puts a task for each into the task
    manager's queue.  The dispatcher goroutine runs the tasks: each notifies the
    handlers of one kind.  The transaction tracker is such a handler; it looks for
    chunk compressions and hands the messages on to the resolver, which turns them
    into events on tables, again as tasks.  Events on TimescaleDB's own tables go
    to the catalog's event handler, events on user tables to the event emitter.
    The snapshotter reads tables in batches; the positions it has reached
    (watermarks) and the position in the log (the offset) are kept in the state
    storage, which a later run resumes from.

    - Prelude.v: the ways a Go computation ends, the monad [G] of stateful
      computations that return, fail or crash, its laws, machine integers, and
      shared lemmas and tactics.
    - Containers.v: internal/containers (relation cache, queue, CAS cache,
      unbounded channel).
    - Encoding.v: spi/encoding/buffers.go, the binary buffers all formats use.
    - Entities.v: spi/systemcatalog (names, columns, indexes, tables, chunks).
    - Values.v: values of a dynamic type and internal/typemanager/marshallers.go.
    - Watermarks.v: spi/watermark/watermarks.go.
    - StateStorage.v: spi/statestorage (offset, file storage, in-memory storage,
      state manager).  The class [Storage] is the interface between the storages
      and their users.
    - Messages.v: the messages of the stream, their decoding, the tasks.
    - SystemCatalog.v: internal/systemcatalog/systemcatalog.go and
      catalogeventhandler.go.
    - SnapshotProtocol.v: the snapshotting event handler of systemcatalog.go with
      the snapshotter's workers (snapshotting/snapshotter.go).
    - Resolver.v and TransactionTracker.v:
      internal/replication/logicalreplicationresolver.
    - ReplicationContext.v: internal/replication/replicationcontext.
    - ReplicationHandler.v and ReplicationChannel.v:
      internal/replication/replicationchannel and replicationconnection.
    - TaskManager.v: internal/taskmanager/taskmanager.go.
    - Replicator.v: internal/replication/replicator.go.
    - TableFilter.v: internal/systemcatalog/tablefiltering.
    - Sinks.v: the sink manager and its context (internal/eventing/sink).
    - Emitter.v: internal/eventing/eventemitting and eventfiltering, spi/stream
      and the event structs of spi/schema/eventschema.go.
    - SchemaBuilder.v: spi/schema (schema builder, schema model and the schemas of
      events) with the schemas of columns and tables.
    - Converters.v, CoreTypes.v and TypeManager.v: internal/typemanager, from the
      conversion of a value over the table of core types to the resolution of
      types and the decoders of tuples and rows.
    - Codecs.v: the codecs of spi/pgtypes (timetz, ltree, xml, PostGIS, arrays).
    - Versions.v: spi/version, internal/eventing/namingstrategy,
      spi/schema/namegenerator.go, the registries and the replica identities.
    - Waiting.v: internal/waiting and internal/containers/ringbuffer.go.
    - Lifecycle.v: start and stop of replicator.go, with the services as arguments
      and the file storage of StateStorage.v.
    - SqlIndex.v and SideChannel.v: spi/systemcatalog/index.go and
      internal/sidechannel.  The class [Server] is the interface to the database;
      a query is indexed by the type of its rows.
    - Queries.v: internal/sidechannel/queries.go, the texts of the queries, with a
      lexer for what they select and for their placeholders.
    - Initialize.v: initializeSystemCatalog, on the side channel and the catalog.
    - ChunkSnapshots.v: the partitions, the queues (of all partitions, for requests of
      chunks and of tables) and the chunk snapshots of
      internal/systemcatalog/snapshotting/snapshotter.go.
    - TableSnapshots.v: the worker of a partition and its snapshots of whole tables,
      on the side channel and the stored watermarks.
    - Configuration.v: spi/config, the structures, the properties and GetOrDefault,
      with every call of it as data.
    - Logging.v: internal/logging, against the library slog as the class [Slog].
    - Wiring.v: spi/wiring and internal/replication/wiremodules.go, against the
      injector as the class [Injector].
    - Startup.v: cmd/timescaledb-event-streamer/main.go, internal/streamer.go and
      spi/plugins; from the start of the streamer on, the main goroutine and the one
      that waits for signals are a step relation.
    - SinkClients.v: the packages of internal/eventing/sink, one per sink, against
      the client libraries as the record [clients].
    - EventFilters.v: internal/eventing/eventfiltering, the filters of the
      configuration.
    - ServerSession.v: the construction of internal/replication/replicationcontext
      against the side channel and its place in the container (spi/wiring), with the
      load of the catalog and the checks of the replicator behind it,
      internal/publicationmanager, and the connections of
      internal/replication/replicationconnection.
    - CatalogLock.v: the lock of internal/systemcatalog/systemcatalog.go, with the
      goroutines that use it.
    - Pipeline.v: the catalog's handlers, the resolver and the emitter on the queue of
      the task manager;
      WindowedPipeline.v puts the transaction tracker in front of them, Delivery.v
      the replication handler, and follows the stored position across a restart.
    - EventSettings.v: the construction of the resolver from the configuration, and
      what its methods then do with a log.
    - Services.v: the creation of the state file and internal/stats.
    - Selection.v: NewSystemCatalog, from the patterns of the configuration to the
      tables of the catalog.
    - ArrayCodecs.v: the array codecs of spi/pgtypes, against the type map of the driver.
    - TestHarness.v: testsupport and tests/integration/support.go, what the integration
      tests rely on.

    ** How the code is modelled

    A method is one definition of its name.  A method that changes state is a
    computation of type [G W A] on the state [W] of its component: it ends in
    [Ret] with a result, in [Err] with an error value, or in [Crash] with a
    [crash] (a panic of the Go runtime, a logger.Fatalf, a channel operation that
    blocks for ever).  Errors are strings; panics and blocked goroutines are
    outcomes like any other, so a theorem that a computation ends in [Ret] also
    says that it does not panic and does not block.  Integers are [Z] with the
    conversions of the code written out where a width matters.  Where goroutines
    meet (the unbounded channel, the CAS cache, the dispatcher, the snapshot
    workers, the replication channel's shutdown) the component is a step relation
    and the theorems are about all its runs; a component that a mutex protects
    takes one step per method.  Slices that share their backing array keep it
    (TaskManager.v), objects that are changed in place are changed in place
    (StateStorage.v, ReplicationContext.v).

    Arguments stand for what is not in the repository or not determined by the
    code: the answers of the database, the messages parsed by pglogrepl, the JSON
    encoding, the order in which a map is visited, the clock (whether a deadline
    has passed), the tuple decoder, the answers of the sink, the Unicode tables
    above ASCII.  What a theorem needs of
    them is a hypothesis of it, and it comes with a concrete instance for which
    they hold.

    ** What the theorems show

    - Containers: the relation cache is a finite map; the CAS cache is
      linearizable; the unbounded channel and the dispatcher deliver in order,
      without loss, and the channel drains when it is closed.
    - Persistence: key values, watermarks, the snapshot context and the state
      file are read back as they were written, for every order of the maps, if the
      writer's Close succeeded, whose error the code drops; a truncated file is
      never taken for a state; a snapshot transaction is stored completely or not at
      all.
    - Catalog: after any admissible sequence of catalog events every entity is
      found by id and by name; schema changes are detected exactly; the snapshot
      index is the right one; a new chunk is snapshotted exactly when it should
      be; what a catalog update loses; its lock keeps any number of goroutines apart
      as long as no lookup is nested, and nested ones can block for ever; after the start the catalog holds exactly
      the tables that the patterns of the configuration choose, with their columns and
      chunks.
    - Snapshot: a fresh snapshot finishes when a worker's copy of the context is
      written back in time and no call fails, and a failing call ends the process; if
      the copy is late the process ends as well; a resumed snapshot never finishes; a
      worker sends every row of a table once and in order, however
      many batches it takes, but an empty table and a key of several columns end the
      process; the snapshot of a chunk sends its rows and then its end; the
      snapshots of all partitions finish as long as no partition has more than 129
      outstanding requests of chunks and tables (128 while its worker puts the next
      batch of a table into its own queue), with more the dispatcher and the worker
      can wait for each other for ever.
    - Stream: what the database logs reaches the sink, in order and in every
      interleaving of arrival and work, with and without the transaction window, and
      across a restart at any point nothing is lost but the rest of an entry that was
      in work (a tombstone, tables of a truncate), where every event ends as the sink,
      the filters and the converters demand; events are routed to the right table or chunk; the hand-over from a
      chunk's snapshot to its stream is exact; the transaction window is
      transparent but for the begin, and cuts out decompressions, with two ways in which it loses or
      blocks events.
    - Positions: acknowledging never moves back, the restart position is the
      highest one known, a restart is exact on a stream in log order, and it
      loses rows of interleaved transactions.
    - Selection and output: the event settings of the configuration decide which changes
      become events, but those for reads and messages do not; the table filter decides as its patterns say, and the
      filters of the configuration as their conditions say, on every table they do
      not exclude; the
      emitter sends every event that passes the filters once, in order, to the
      topic of its table, and acknowledges it only then; an event whose retries
      are used up is lost; a restarted sink manager restores its attributes and
      does not start the sink; every sink asks its client once per event, with the
      text, topic and key of the event, and SQS crashes for events without a
      transaction.
    - Start and stop: on which servers the program starts, with which settings, and
      with which exit code it does not; two ways to leak a connection; the start sequence of the channel, why no replication
      starts after an initial snapshot, the publication after a restart, the
      check of the replica identities; a stop undoes a start however far it came,
      in reverse order, and the known tables survive it if the state file was
      replaced; the shutdown of one and of many workers ends unless a snapshot hangs,
      and of two callers of a stop one never returns.
    - Configuration and start: every lookup of the program names an element of the
      configuration and reads it at the right type; the environment can only define
      strings, for everything else it makes the program panic; the wiring has every
      service that a constructor needs, without a cycle, and an override wins; a
      streamer only runs with a connection, a publication and a prefix and is
      stopped once, twice if its start fails while a signal is handled; a fatal message ends the process unless the level is panic.
    - Types and schemas: every converter of the core types gives values of its
      schema's type; a type that is resolved has the oid that was asked for; a
      decoded row is the tuple that was sent; schemas are built in finitely many
      steps and do not depend on the order of a map; days since 1970 are exact up to
      106,751 days on either side and stay at that day beyond, times with a zone do not stay in a day.
    - Tests: the collecting sink keeps what its filter lets through, in order; a table of
      a test is created completely or not at all; a test stops its streamer however it
      ends, unless a tear-down function fails.
    - Queries: no operation of the side channel leaks a connection; every query whose rows
      are scanned, that of the types included, has an argument for each placeholder and
      a variable for each column; a batch
      passes on what its statement selects and moves the watermark to the last row; a text in a watermark is
      a correct literal exactly if it has no quote.

    ** Bounds

    Loops over lists are structural.  The window's drain and the held-back events
    of a chunk are loops on a queue with fuel one more than the queue's length;
    [OutOfFuel] marks a fuel that was too small, and the theorems about these
    loops show that they end in [Ret].  The bounds that the code itself has are
    in the theorems: 1,000,000 queued events per chunk, the window of the
    transaction, 32-bit oids, one byte for the length of a snapshot name.  The
    snapshot is shown to end by a measure on its states.  The receive loop, which
    has no end, is a function of the list of what the environment does in each
    round.  The scan of a filter pattern has fuel one more than its length, the
    retries of the emitter are counted down from the code's limit of eight.
    Building a schema has the depth of its fields as fuel, converting a value the
    depth of its type; types are loaded lazily at most three levels deep (a type,
    its element and its base).  The fetch loop of a cursor needs more fuel than
    there are full batches, and the batches of a table at most as many rounds as it
    has rows; the theorems show that this is enough.  The runs of a shutdown and
    of the queues of the snapshots are finite by a measure, but for what arrives from
    outside.

    ** What is not modelled

    Client libraries (of the database, the sinks, the wiring and the metrics) are
    arguments, and so are the encoders of JSON and EWKB.  The texts of the
    catalog queries are modelled up to their columns and placeholders; what they mean is
    up to the database.
    Texts that are only logged (the String methods) are left out, and so are the
    containers of the integration tests, which are calls of a library. *)

From Stdlib Require Import ZArith Lia.
From Stdlib Require Import Strings.Byte.
From stdpp Require Import base tactics option list numbers strings gmap relations.

(** The byte notations of [Strings.Byte] are not needed; the numbers of the
    development are [Z] unless a scope says otherwise. *)

Declare Scope go_scope.
Delimit Scope go_scope with go.

(** ** The ways a Go computation ends *)

(** A computation that never returns to its caller.  [FatalExit] is
    [logger.Fatalf], which ends the process; [Deadlock] is a channel operation
    that blocks with no goroutine left that could serve it.  [OutOfFuel] is no
    outcome of the code: it marks a loop bound of the model that was too small,
    and the theorems about a loop show that it does not occur. *)
Inductive crash : Set :=
| PanicIndexOutOfRange
| PanicNilDereference
| PanicTypeAssertion
| PanicNilMap
| PanicClosedChannel
| PanicUncomparable
| PanicExplicit
| FatalExit
| Deadlock
| OutOfFuel.

#[export] Instance crash_eq_dec : EqDecision crash.
Proof. solve_decision. Defined.

(** A Go [error] value, by its message. *)
Abbreviation error := string (only parsing).

(** What running a stateful Go function gives: a value, an [error] value (the
    state keeps the changes made before the error, as the code's does), or a
    crash. *)
Inductive outcome (S A : Type) : Type :=
| Ret (a : A) (s : S)
| Err (e : string) (s : S)
| Crash (c : crash).

Arguments Ret {S A} a s.
Arguments Err {S A} e s.
Arguments Crash {S A} c.

(** Go functions over a state [S]: the development's effect monad. *)
Definition G (S A : Type) : Type := S -> outcome S A.

#[export] Instance G_ret S : MRet (G S) := fun A a s => Ret a s.
#[export] Instance G_bind S : MBind (G S) := fun A B k m s =>
  match m s with
  | Ret a s' => k a s'
  | Err e s' => Err e s'
  | Crash c => Crash c
  end.

(** State-free code that may crash. *)
#[export] Instance pure_ret : MRet (sum crash) := fun A a => inr a.
#[export] Instance pure_bind : MBind (sum crash) := fun A B k m =>
  match m with inl c => inl c | inr a => k a end.

Definition fail {S A} (e : string) : G S A := fun s => Err e s.
Definition panic {S A} (c : crash) : G S A := fun _ => Crash c.
Definition get {S} : G S S := fun s => Ret s s.
Definition gets {S A} (f : S -> A) : G S A := fun s => Ret (f s) s.
Definition put {S} (s : S) : G S unit := fun _ => Ret tt s.
Definition modify {S} (f : S -> S) : G S unit := fun s => Ret tt (f s).

(** A value that Go code uses without a check: absent means a crash. *)
Definition must {S A} (c : crash) (o : option A) : G S A :=
  match o with Some a => mret a | None => panic c end.

(** A state-free computation that may crash, run as a stateful one. *)
Definition lift {S A} (r : crash + A) : G S A :=
  match r with inr a => mret a | inl c => panic c end.

(** [for _, x := range l { ... }] whose body may return early with an error. *)
Fixpoint forM {S A} (l : list A) (body : A -> G S unit) : G S unit :=
  match l with
  | [] => mret tt
  | x :: l' => body x ;; forM l' body
  end.

(** Running a computation on a component of the state. *)
Definition zoom {S T A} (proj : S -> T) (upd : T -> S -> S) (m : G T A) : G S A :=
  fun s =>
    match m (proj s) with
    | Ret a t => Ret a (upd t s)
    | Err e t => Err e (upd t s)
    | Crash c => Crash c
    end.

(** The error a Go caller tests with [err != nil] and does not return: the
    computation goes on with the error as a value. *)
Definition catch {S A} (m : G S A) : G S (string + A) := fun s =>
  match m s with
  | Ret a s' => Ret (inr a) s'
  | Err e s' => Ret (inl e) s'
  | Crash c => Crash c
  end.

(** Equations of the monad, as the proofs use them. *)
Section MonadEquations.
Context {S A B : Type}.

Lemma bind_ret (a : A) (k : A -> G S B) s : (mret a ≫= k) s = k a s.
Proof. reflexivity. Qed.

Lemma bind_run (m : G S A) (k : A -> G S B) s a s' :
  m s = Ret a s' -> (m ≫= k) s = k a s'.
Proof. intros H. unfold mbind, G_bind. by rewrite H. Qed.

Lemma bind_err (m : G S A) (k : A -> G S B) s e s' :
  m s = Err e s' -> (m ≫= k) s = Err e s'.
Proof. intros H. unfold mbind, G_bind. by rewrite H. Qed.

Lemma bind_crash (m : G S A) (k : A -> G S B) s c :
  m s = Crash c -> (m ≫= k) s = Crash c.
Proof. intros H. unfold mbind, G_bind. by rewrite H. Qed.

(** A successful run of a sequence splits at every [;]. *)
Lemma bind_ret_inv (m : G S A) (k : A -> G S B) s b s'' :
  (m ≫= k) s = Ret b s'' -> exists a s', m s = Ret a s' /\ k a s' = Ret b s''.
Proof.
  unfold mbind, G_bind. destruct (m s) as [a s'| |] eqn:E; intros H; simplify_eq; eauto.
Qed.

End MonadEquations.

(** A step of state-free code that does not crash. *)
Lemma pure_run {A B} (m : crash + A) (k : A -> crash + B) a : m = inr a -> (m ≫= k) = k a.
Proof. by intros ->. Qed.

(** Code that touches no state leaves it as it is. *)
Lemma lift_ret {S A} (r : crash + A) (s s' : S) a : lift r s = Ret a s' -> r = inr a /\ s' = s.
Proof. destruct r; intros [=]; by subst. Qed.

Lemma forM_app {S A} (l1 l2 : list A) (body : A -> G S unit) s :
  forM (l1 ++ l2) body s = (forM l1 body ;; forM l2 body) s.
Proof.
  revert s; induction l1 as [|x l1 IH]; intros s; [reflexivity|].
  cbn. unfold mbind, G_bind.
  destruct (body x s) as [[] s'| |]; [|reflexivity|reflexivity].
  rewrite IH. reflexivity.
Qed.

(** A loop whose every round succeeds is a fold over the list. *)
Lemma forM_fold {S A} (step : A -> S -> S) (body : A -> G S unit) (l : list A) :
  (forall x s, x ∈ l -> body x s = Ret tt (step x s)) ->
  forall s, forM l body s = Ret tt (fold_left (fun s x => step x s) l s).
Proof.
  induction l as [|x l IH]; intros Hbody s; [reflexivity|]. cbn.
  rewrite (bind_run _ _ _ _ _ (Hbody x s ltac:(set_solver))).
  apply IH. intros y s' Hy. apply Hbody. set_solver.
Qed.

(** ** Machine integers: a w-bit integer is a [Z], the wrap-around is explicit *)

Definition wrapu (w : Z) (z : Z) : Z := (z mod 2 ^ w)%Z.
Definition wraps (w : Z) (z : Z) : Z :=
  let u := (z mod 2 ^ w)%Z in if (u <? 2 ^ (w - 1))%Z then u else (u - 2 ^ w)%Z.

Abbreviation u8 := (wrapu 8).
Abbreviation u16 := (wrapu 16).
Abbreviation u32 := (wrapu 32).
Abbreviation u64 := (wrapu 64).
Abbreviation i8 := (wraps 8).
Abbreviation i16 := (wraps 16).
Abbreviation i32 := (wraps 32).
Abbreviation i64 := (wraps 64).

Definition in_u (w z : Z) : Prop := (0 <= z < 2 ^ w)%Z.
Definition in_s (w z : Z) : Prop := (- 2 ^ (w - 1) <= z < 2 ^ (w - 1))%Z.

Section MachineIntegers.
Local Open Scope Z_scope.

Lemma wrapu_small w z : in_u w z -> wrapu w z = z.
Proof. unfold in_u, wrapu. intros. by apply Z.mod_small. Qed.

Lemma wrapu_in w z : 0 <= w -> in_u w (wrapu w z).
Proof. intros. unfold in_u, wrapu. apply Z.mod_pos_bound, Z.pow_pos_nonneg; lia. Qed.

Lemma wraps_wrapu w z : 0 <= w -> wraps w (wrapu w z) = wraps w z.
Proof.
  intros. unfold wraps, wrapu. rewrite Z.mod_mod; [done|].
  pose proof (Z.pow_pos_nonneg 2 w). lia.
Qed.

Lemma wraps_small w z : 0 < w -> in_s w z -> wraps w z = z.
Proof.
  intros Hw [Hl Hu]. unfold wraps.
  assert (Hp : 2 ^ w = 2 * 2 ^ (w - 1)) by (rewrite <- Z.pow_succ_r by lia; f_equal; lia).
  pose proof (Z.pow_pos_nonneg 2 (w - 1)) as Hpos.
  destruct (Z.ltb_spec z 0).
  - assert (z mod 2 ^ w = z + 2 ^ w) as ->.
    { rewrite <- (Z.mod_small (z + 2 ^ w) (2 ^ w)) by lia.
      replace (z + 2 ^ w) with (z + 1 * 2 ^ w) by lia. by rewrite Z.mod_add by lia. }
    destruct (Z.ltb_spec (z + 2 ^ w) (2 ^ (w - 1))); lia.
  - rewrite Z.mod_small by lia. destruct (Z.ltb_spec z (2 ^ (w - 1))); lia.
Qed.

(** Storing a signed value in its unsigned representation and reading it back. *)
Lemma wraps_roundtrip w z : 0 < w -> in_s w z -> wraps w (wrapu w z) = z.
Proof. intros. rewrite wraps_wrapu by lia. by apply wraps_small. Qed.

End MachineIntegers.

(** ** Bytes and big-endian integers ([encoding/binary].[BigEndian]) *)

#[export] Instance byte_eq_dec : EqDecision byte := Byte.byte_eq_dec.

Definition Z_of_byte (b : byte) : Z := Z.of_N (Byte.to_N b).

Definition byte_of_Z (z : Z) : byte :=
  match Byte.of_N (Z.to_N (z mod 256)%Z) with
  | Some b => b
  | None => Byte.x00
  end.

(** [binary.BigEndian.PutUint<8n>]: the low [8n] bits, most significant first. *)
Fixpoint be_put (n : nat) (z : Z) : list byte :=
  match n with
  | O => []
  | S n' => be_put n' (z / 256)%Z ++ [byte_of_Z z]
  end.

(** [binary.BigEndian.Uint<8n>] of [n] bytes. *)
Definition be_get (bs : list byte) : Z :=
  fold_left (fun acc b => (acc * 256 + Z_of_byte b)%Z) bs 0%Z.

Section BigEndian.
Local Open Scope Z_scope.

Lemma Z_of_byte_bound b : 0 <= Z_of_byte b < 256.
Proof. unfold Z_of_byte. pose proof (Byte.to_N_bounded b). lia. Qed.

Lemma Z_of_byte_of_Z z : Z_of_byte (byte_of_Z z) = z mod 256.
Proof.
  unfold Z_of_byte, byte_of_Z. pose proof (Z.mod_pos_bound z 256).
  destruct (Byte.of_N _) eqn:E.
  - apply Byte.to_of_N in E. rewrite E. lia.
  - apply Byte.of_N_None_iff in E. lia.
Qed.

Lemma byte_of_Z_of_byte b : byte_of_Z (Z_of_byte b) = b.
Proof.
  unfold byte_of_Z. rewrite Z.mod_small by apply Z_of_byte_bound.
  unfold Z_of_byte. by rewrite N2Z.id, Byte.of_to_N.
Qed.

Lemma length_be_put n z : length (be_put n z) = n.
Proof. revert z; induction n; intros; cbn; rewrite ?length_app, ?IHn; cbn; lia. Qed.

Lemma be_get_snoc bs b : be_get (bs ++ [b]) = be_get bs * 256 + Z_of_byte b.
Proof. unfold be_get. by rewrite fold_left_app. Qed.

Lemma be_get_put n z : be_get (be_put n z) = wrapu (8 * Z.of_nat n) z.
Proof.
  unfold wrapu. revert z; induction n as [|n IH]; intros z.
  - cbn. by rewrite Z.mod_1_r.
  - cbn [be_put]. rewrite be_get_snoc, IH, Z_of_byte_of_Z.
    replace (8 * Z.of_nat (S n)) with (8 + 8 * Z.of_nat n) by lia.
    rewrite Z.pow_add_r by lia. change (2 ^ 8) with 256.
    pose proof (Z.pow_pos_nonneg 2 (8 * Z.of_nat n)).
    rewrite Z.rem_mul_r by lia. lia.
Qed.

Lemma be_get_bound bs : 0 <= be_get bs < 2 ^ (8 * Z.of_nat (length bs)).
Proof.
  induction bs as [|b bs IH] using rev_ind; [cbn; lia|].
  rewrite be_get_snoc, length_app. pose proof (Z_of_byte_bound b). cbn.
  replace (8 * Z.of_nat (length bs + 1)) with (8 + 8 * Z.of_nat (length bs)) by lia.
  rewrite Z.pow_add_r by lia. change (2 ^ 8) with 256. nia.
Qed.

Lemma be_put_get bs : be_put (length bs) (be_get bs) = bs.
Proof.
  induction bs as [|b bs IH] using rev_ind; [reflexivity|].
  rewrite length_app. cbn. rewrite Nat.add_1_r. cbn [be_put].
  rewrite be_get_snoc. pose proof (Z_of_byte_bound b).
  rewrite Z.div_add_l, (Z.div_small (Z_of_byte b)) by lia.
  rewrite Z.add_0_r, IH. f_equal. f_equal.
  unfold byte_of_Z. rewrite Z.add_comm, Z.mod_add by lia.
  change (byte_of_Z (Z_of_byte b) = b). apply byte_of_Z_of_byte.
Qed.

Lemma be_put_wrapu n z : be_put n (wrapu (8 * Z.of_nat n) z) = be_put n z.
Proof.
  rewrite <- be_get_put. rewrite <- (length_be_put n z) at 1. apply be_put_get.
Qed.

Lemma be_get_put_small n z : in_u (8 * Z.of_nat n) z -> be_get (be_put n z) = z.
Proof. intros. rewrite be_get_put. by apply wrapu_small. Qed.

End BigEndian.

(** ** Maps filled entry by entry *)

Section MapEntries.
Context {K : Type} `{Countable K} {V : Type}.
Implicit Types (l : list (K * V)) (m : gmap K V).

(** Inserting the entries of [m], in any order, overrides with [m]. *)
Lemma insert_entries_into l m acc :
  l ≡ₚ map_to_list m -> fold_left (fun m e => <[ fst e := snd e ]> m) l acc = m ∪ acc.
Proof.
  intros Hl. assert (NoDup l.*1) as Hnd.
  { rewrite Hl. apply NoDup_fst_map_to_list. }
  rewrite <- (list_to_map_to_list m), <- (list_to_map_proper _ _ Hnd Hl). clear Hl.
  revert acc. induction l as [|[k v] l IH]; intros acc; cbn; [by rewrite (left_id_L ∅ (∪))|].
  apply NoDup_cons in Hnd as [Hk Hnd]. rewrite IH by done.
  rewrite <- insert_union_r, insert_union_l; [done|]. by apply not_elem_of_list_to_map_1.
Qed.

Lemma insert_entries l m :
  l ≡ₚ map_to_list m -> fold_left (fun m e => <[ fst e := snd e ]> m) l ∅ = m.
Proof. intros Hl. rewrite (insert_entries_into _ _ _ Hl). apply (right_id_L ∅ (∪)). Qed.

Lemma length_visit l m : l ≡ₚ map_to_list m -> length l = size m.
Proof. intros ->. apply length_map_to_list. Qed.
End MapEntries.

(** ** Step relations *)

(** An invariant that every step keeps holds in every reachable state. *)
Lemma rtc_invariant {A} (R : relation A) (P : A -> Prop) x y :
  P x -> (forall a b, P a -> R a b -> P b) -> rtc R x y -> P y.
Proof. intros Hx Hstep Hr. induction Hr; eauto. Qed.

(** ** Automation *)

Create HintDb go.
Create Rewrite HintDb go_rw.

#[export] Hint Resolve wrapu_in wrapu_small wraps_roundtrip be_get_bound length_be_put : go.
#[export] Hint Rewrite @length_app @length_insert @length_replicate length_be_put
  @length_take @length_drop be_put_wrapu : go_rw.

(** One round of symbolic execution: the monad and its primitive operations. *)
Ltac go_unfold :=
  unfold mbind, mret, G_bind, G_ret, get, gets, put, modify, must, lift, fail, panic, catch, zoom in *.

(** Split on the first match of the goal that is stuck. *)
Ltac go_case :=
  match goal with
  | |- context [match ?x with _ => _ end] =>
      lazymatch x with
      | context [match _ with _ => _ end] => fail
      | _ => let E := fresh "E" in destruct x eqn:E
      end
  end.

(** Split on the first match of hypothesis [H] that is stuck. *)
Ltac go_case_in H :=
  match type of H with
  | context [match ?x with _ => _ end] =>
      lazymatch x with
      | context [match _ with _ => _ end] => fail
      | _ => let E := fresh "E" in destruct x eqn:E
      end
  end.

(** Boolean tests of the code to the propositions they decide. *)
Ltac go_bool :=
  repeat match goal with
  | H : andb _ _ = true |- _ => apply andb_true_iff in H as [? ?]
  | H : andb _ _ = false |- _ => apply andb_false_iff in H
  | H : orb _ _ = true |- _ => apply orb_true_iff in H
  | H : orb _ _ = false |- _ => apply orb_false_iff in H as [? ?]
  | H : negb _ = true |- _ => apply negb_true_iff in H
  | H : negb _ = false |- _ => apply negb_false_iff in H
  | H : Z.eqb _ _ = true |- _ => apply Z.eqb_eq in H
  | H : Z.eqb _ _ = false |- _ => apply Z.eqb_neq in H
  | H : Z.ltb _ _ = true |- _ => apply Z.ltb_lt in H
  | H : Z.ltb _ _ = false |- _ => apply Z.ltb_ge in H
  | H : Z.leb _ _ = true |- _ => apply Z.leb_le in H
  | H : Z.leb _ _ = false |- _ => apply Z.leb_gt in H
  | H : String.eqb _ _ = true |- _ => apply String.eqb_eq in H
  | H : String.eqb _ _ = false |- _ => apply String.eqb_neq in H
  | H : bool_decide _ = true |- _ => apply bool_decide_eq_true in H
  | H : bool_decide _ = false |- _ => apply bool_decide_eq_false in H
  end.
