(* ===== verification/Containers.v ===== *)
(** * Containers: the data structures of internal/containers

    - [RelationCache]: the growable array indexed by relation oid
      (relationcache.go), with a refinement to a finite map.
    - [Queue]: the bounded channel with a lock flag (queue.go).
    - [CasCache]: the copy-on-write map behind an atomic pointer
      (cascache.go), sequentially and under interleaving.
    - [UnboundedChannel]: the goroutine that buffers between two unbuffered
      channels (unboundedchannel.go), as a step relation. *)

From Stdlib Require Import ZArith Lia.
From stdpp Require Import base tactics option list numbers strings gmap relations.
From S2P Require Import Prelude.

Module RelationCache.
Local Open Scope Z_scope.

(** [cache] is a slice of pointers: [None] is the nil pointer.  The [empty]
    field only holds the zero value that [Get] returns next to [false]. *)
Record RelationCache (V : Type) : Type := mkRelationCache {
  cache : list (option V);
  lowerBound : Z;
  upperBound : Z;
}.
Arguments mkRelationCache {V} _ _ _.
Arguments cache {V} _.
Arguments lowerBound {V} _.
Arguments upperBound {V} _.

Definition NewRelationCache {V} : RelationCache V := mkRelationCache [] 0 0.

Definition location (oid lowerBound : Z) : Z := u32 (oid - lowerBound).

(** [(value, present)] is an option. *)
Definition Get {V} (oid : Z) : G (RelationCache V) (option V) :=
  rc ← get;
  if oid >? upperBound rc then mret None
  else if oid <? lowerBound rc then mret None
  else if (length (cache rc) =? 0)%nat then mret None
  else must PanicIndexOutOfRange (cache rc !! Z.to_nat (location oid (lowerBound rc))).

(** [uint32(float64(n) * 1.5)]: the product of a 32-bit integer and 1.5 is
    exact in a float64, and the conversion back truncates. *)
Definition newCacheSize (lowerBound upperBound : Z) : Z :=
  u32 (u32 (upperBound - lowerBound + 1) * 3 / 2).

(** [copy(dst[off:], src)]: as many elements as fit. *)
Definition copy_at {A} (off : nat) (src dst : list A) : list A :=
  let n := Nat.min (length src) (length dst - off) in
  take off dst ++ take n src ++ drop (off + n) dst.

(** The slice after the resize, or a panic of [target[diff:]]. *)
Definition resize {V} (rc : RelationCache V) (oldLowerBound : Z) : G (RelationCache V) (list (option V)) :=
  let newCache := replicate (Z.to_nat (newCacheSize (lowerBound rc) (upperBound rc))) None in
  let diff := if oldLowerBound >? lowerBound rc
              then Z.to_nat (u32 (oldLowerBound - lowerBound rc)) else 0%nat in
  if (length newCache <? diff)%nat then panic PanicIndexOutOfRange
  else mret (copy_at diff (cache rc) newCache).

Definition Set_ {V} (oid : Z) (value : V) : G (RelationCache V) unit :=
  rc0 ← get;
  let oldLowerBound := lowerBound rc0 in
  let grow_low := (lowerBound rc0 =? 0) || (lowerBound rc0 >? oid) in
  let rc1 := if grow_low then mkRelationCache (cache rc0) oid (upperBound rc0) else rc0 in
  let grow_high := upperBound rc1 <? oid in
  let rc2 := if grow_high then mkRelationCache (cache rc1) (lowerBound rc1) oid else rc1 in
  cache' ← (if grow_low || grow_high then resize rc2 oldLowerBound else mret (cache rc2));
  let at_ := Z.to_nat (location oid (lowerBound rc2)) in
  if (at_ <? length cache')%nat
  then put (mkRelationCache (<[at_ := Some value]> cache') (lowerBound rc2) (upperBound rc2))
  else panic PanicIndexOutOfRange.

(** The oids of a run lie in a window that the 32-bit arithmetic of the resize
    can represent.  PostgreSQL oids are positive. *)
Definition window (lo hi : Z) : Prop :=
  0 < lo /\ lo <= hi /\ hi < 2 ^ 32 /\ (hi - lo + 1) * 3 / 2 < 2 ^ 32.

(** [Rep lo hi rc m]: the array represents the finite map [m]. *)
Record Rep {V} (lo hi : Z) (rc : RelationCache V) (m : gmap Z V) : Prop := {
  rep_window : lo <= lowerBound rc /\ lowerBound rc <= upperBound rc /\ upperBound rc <= hi;
  rep_len : upperBound rc - lowerBound rc + 1 <= Z.of_nat (length (cache rc));
  rep_slot : forall i : nat, (i < length (cache rc))%nat ->
    cache rc !! i = Some (m !! (lowerBound rc + Z.of_nat i));
  rep_dom : forall oid v, m !! oid = Some v -> lowerBound rc <= oid <= upperBound rc;
}.

(** The array before the first [Set] represents the empty map. *)
Definition Repr {V} (lo hi : Z) (rc : RelationCache V) (m : gmap Z V) : Prop :=
  (rc = NewRelationCache /\ m = ∅) \/ Rep lo hi rc m.

Section Refinement.
Context {V : Type} (lo hi : Z) (Hwin : window lo hi).
Implicit Types (rc : RelationCache V) (m : gmap Z V).

Lemma rep_outside rc m oid :
  Rep lo hi rc m -> ~ (lowerBound rc <= oid <= upperBound rc) -> m !! oid = None.
Proof. intros [_ _ _ Hdom] Hout. destruct (m !! oid) eqn:E; [by apply Hdom in E|done]. Qed.

Lemma newCacheSize_window lb ub :
  lo <= lb -> lb <= ub -> ub <= hi ->
  newCacheSize lb ub = (ub - lb + 1) * 3 / 2 /\ ub - lb + 1 <= newCacheSize lb ub.
Proof.
  intros. destruct Hwin as (?&?&?&?). unfold newCacheSize.
  rewrite (wrapu_small 32 (ub - lb + 1)) by (unfold in_u; lia).
  assert ((ub - lb + 1) * 3 / 2 <= (hi - lo + 1) * 3 / 2) by (apply Z.div_le_mono; lia).
  assert (ub - lb + 1 <= (ub - lb + 1) * 3 / 2) by (apply Z.div_le_lower_bound; lia).
  rewrite wrapu_small by (unfold in_u; lia). split; [done|lia].
Qed.

Lemma copy_at_none_lookup (off N i : nat) (src : list (option V)) :
  (off <= N)%nat -> (i < N)%nat ->
  copy_at off src (replicate N None) !! i =
    if decide (off <= i < off + length src)%nat then src !! (i - off)%nat else Some None.
Proof.
  intros Hoff Hi. unfold copy_at. rewrite length_replicate.
  case_decide as Hin.
  - rewrite lookup_app_r by (rewrite length_take, length_replicate; lia).
    rewrite length_take, length_replicate.
    rewrite lookup_app_l by (rewrite length_take; lia).
    rewrite lookup_take by lia. rewrite decide_True by lia. f_equal. lia.
  - destruct (decide (i < off)%nat).
    + rewrite lookup_app_l by (rewrite length_take, length_replicate; lia).
      rewrite lookup_take by lia. rewrite decide_True by lia. by apply lookup_replicate_2.
    + rewrite lookup_app_r by (rewrite length_take, length_replicate; lia).
      rewrite length_take, length_replicate.
      rewrite lookup_app_r by (rewrite length_take; lia).
      rewrite length_take, lookup_drop. apply lookup_replicate_2. lia.
Qed.

Lemma length_copy_at_none (off N : nat) (src : list (option V)) :
  (off <= N)%nat -> length (copy_at off src (replicate N None)) = N.
Proof.
  intros. unfold copy_at.
  rewrite !length_app, !length_take, length_drop, length_replicate. lia.
Qed.

(** The resized array shows the same map from the new lower bound on. *)
Lemma resize_spec rc m lb' ub' s :
  Rep lo hi rc m -> lo <= lb' <= lowerBound rc -> upperBound rc <= ub' <= hi ->
  exists c', resize (mkRelationCache (cache rc) lb' ub') (lowerBound rc) s = Ret c' s /\
    ub' - lb' + 1 <= Z.of_nat (length c') /\
    forall i : nat, (i < length c')%nat -> c' !! i = Some (m !! (lb' + Z.of_nat i)).
Proof.
  intros HR Hl Hu. pose proof HR as [(Hw1&Hw2&Hw3) Hlen Hslot Hdom].
  destruct (newCacheSize_window lb' ub') as [HN HNr]; [lia..|].
  unfold resize. cbn [cache lowerBound upperBound].
  set (N := Z.to_nat (newCacheSize lb' ub')) in *.
  assert (HNZ : Z.of_nat N = newCacheSize lb' ub') by lia.
  set (diff := if lowerBound rc >? lb' then _ else _).
  assert (Hdiff : Z.of_nat diff = lowerBound rc - lb').
  { unfold diff. destruct Hwin as (?&?&?&?). rewrite Z.gtb_ltb.
    destruct (Z.ltb_spec lb' (lowerBound rc)); [|lia].
    rewrite wrapu_small by (unfold in_u; lia). lia. }
  rewrite length_replicate.
  destruct (Nat.ltb_spec N diff); [lia|].
  exists (copy_at diff (cache rc) (replicate N None)). split; [done|].
  rewrite length_copy_at_none by lia. split; [lia|]. intros i Hi.
  rewrite copy_at_none_lookup by lia. case_decide as Hin.
  - rewrite Hslot by lia. do 2 f_equal. lia.
  - f_equal. symmetry. apply (rep_outside rc); [done|]. lia.
Qed.

(** Writing a slot of a represented array is an insertion in the map. *)
Lemma write_slot c' lb ub m oid v :
  0 < lb -> lo <= lb -> ub <= hi -> lb <= oid <= ub -> ub - lb + 1 <= Z.of_nat (length c') ->
  (forall i : nat, (i < length c')%nat -> c' !! i = Some (m !! (lb + Z.of_nat i))) ->
  (forall o w, m !! o = Some w -> lb <= o <= ub) ->
  exists rc', (if (Z.to_nat (location oid lb) <? length c')%nat
    then put (mkRelationCache (<[Z.to_nat (location oid lb) := Some v]> c') lb ub)
    else panic PanicIndexOutOfRange : G (RelationCache V) unit) = put rc'
    /\ Rep lo hi rc' (<[oid := v]> m).
Proof.
  intros Hpos Hlo Hhi Hin Hlen Hslot Hdom. destruct Hwin as (?&?&?&?).
  unfold location. rewrite wrapu_small by (unfold in_u; lia).
  destruct (Nat.ltb_spec (Z.to_nat (oid - lb)) (length c')); [|lia].
  eexists. split; [done|]. split; cbn; rewrite ?length_insert; [lia|lia| |].
  - intros i Hi. destruct (decide (i = Z.to_nat (oid - lb))) as [->|Hne].
    + rewrite list_lookup_insert_eq by lia.
      replace (lb + Z.of_nat (Z.to_nat (oid - lb))) with oid by lia.
      by rewrite lookup_insert_eq.
    + rewrite list_lookup_insert_ne by done. rewrite Hslot by done.
      rewrite lookup_insert_ne by lia. done.
  - intros o w. destruct (decide (o = oid)) as [->|]; [lia|].
    rewrite lookup_insert_ne by done. apply Hdom.
Qed.

Lemma Set_refines rc m oid v :
  Repr lo hi rc m -> lo <= oid <= hi ->
  exists rc', Set_ oid v rc = Ret tt rc' /\ Rep lo hi rc' (<[oid := v]> m).
Proof.
  intros HR Hoid. pose proof Hwin as (?&?&?&?).
  assert (Hcase : exists c' lb ub, lo <= lb /\ ub <= hi /\ lb <= oid <= ub /\
    ub - lb + 1 <= Z.of_nat (length c') /\
    (forall i : nat, (i < length c')%nat -> c' !! i = Some (m !! (lb + Z.of_nat i))) /\
    (forall o w, m !! o = Some w -> lb <= o <= ub) /\
    Set_ oid v rc = (if (Z.to_nat (location oid lb) <? length c')%nat
      then put (mkRelationCache (<[Z.to_nat (location oid lb) := Some v]> c') lb ub)
      else panic PanicIndexOutOfRange : G (RelationCache V) unit) rc).
  { destruct HR as [[-> ->]|HR].
    - exists [None], oid, oid. split_and!; cbn [length]; [lia..| | |].
      + intros [|i] Hi; cbn in *; [by rewrite lookup_empty|lia].
      + intros o w. by rewrite lookup_empty.
      + unfold Set_, NewRelationCache. go_unfold. cbn. destruct (Z.ltb_spec 0 oid); [|lia].
        cbn. unfold resize, newCacheSize. cbn.
        replace (oid - oid + 1) with 1 by lia. rewrite Z.gtb_ltb.
        destruct (Z.ltb_spec oid 0); [lia|]. reflexivity.
    - pose proof HR as [(?&?&?) Hlen Hslot Hdom].
      set (lb' := Z.min oid (lowerBound rc)). set (ub' := Z.max oid (upperBound rc)).
      destruct (resize_spec rc m lb' ub' rc) as (c'&Hr&Hcl&Hcs); [done|lia|lia|].
      assert (Hl0 : (lowerBound rc =? 0) = false) by lia.
      unfold Set_. go_unfold. rewrite Hl0, Z.gtb_ltb. cbn [orb].
      destruct (Z.ltb_spec oid (lowerBound rc)); cbn [cache lowerBound upperBound orb].
      + replace (upperBound rc <? oid) with false by lia. cbn [cache lowerBound upperBound orb].
        replace lb' with oid in * by lia. replace ub' with (upperBound rc) in * by lia.
        rewrite Hr. exists c', oid, (upperBound rc). split_and!; try lia; eauto.
        intros ? ? Hm%Hdom. lia.
      + replace lb' with (lowerBound rc) in * by lia.
        destruct (Z.ltb_spec (upperBound rc) oid); cbn [cache lowerBound upperBound orb].
        * replace ub' with oid in * by lia. rewrite Hr.
          exists c', (lowerBound rc), oid. split_and!; try lia; eauto.
          intros ? ? Hm%Hdom. lia.
        * exists (cache rc), (lowerBound rc), (upperBound rc).
          split_and!; try lia; eauto. }
  destruct Hcase as (c'&lb&ub&?&?&?&?&Hs&Hd&->).
  destruct (write_slot c' lb ub m oid v) as (rc'&->&?); [lia..|done|done|].
  by exists rc'.
Qed.

Lemma Get_refines rc m oid :
  Repr lo hi rc m -> Get oid rc = Ret (m !! oid) rc.
Proof.
  intros HR. pose proof Hwin as (?&?&?&?). unfold Get. go_unfold. rewrite Z.gtb_ltb.
  destruct HR as [[-> ->]|HR].
  - cbn. rewrite lookup_empty. by repeat go_case.
  - pose proof HR as [(?&?&?) Hlen Hslot Hdom].
    destruct (Z.ltb_spec (upperBound rc) oid);
      [by rewrite (rep_outside rc) by (done || lia)|].
    destruct (Z.ltb_spec oid (lowerBound rc));
      [by rewrite (rep_outside rc) by (done || lia)|].
    destruct (Nat.eqb_spec (length (cache rc)) 0); [lia|].
    unfold location. rewrite wrapu_small by (unfold in_u; lia).
    rewrite Hslot by lia. do 2 f_equal. lia.
Qed.

End Refinement.

(** A history of [Set] calls, and the finite map it denotes. *)
Definition set_all {V} (ops : list (Z * V)) : G (RelationCache V) unit :=
  forM ops (fun '(oid, v) => Set_ oid v).

Definition spec_all {V} (ops : list (Z * V)) : gmap Z V :=
  fold_left (fun m '(oid, v) => <[oid := v]> m) ops ∅.

Lemma set_all_refines {V} lo hi (ops : list (Z * V)) rc (m : gmap Z V) :
  window lo hi -> Forall (fun op => lo <= op.1 <= hi) ops -> Repr lo hi rc m ->
  exists rc', set_all ops rc = Ret tt rc' /\
    Repr lo hi rc' (fold_left (fun m '(oid, v) => <[oid := v]> m) ops m).
Proof.
  intros Hwin Hops. revert rc m. induction Hops as [|[oid v] ops Hop Hops IH]; intros rc m HR.
  - by exists rc.
  - cbn. destruct (Set_refines lo hi Hwin rc m oid v) as (rc1&H1&HR1); [done|done|].
    unfold set_all. cbn. rewrite (bind_run _ _ _ _ _ H1). apply IH. by right.
Qed.

(** C14. Any history of [Set] calls with positive oids, in a window whose resize
    stays within 32 bits, runs without a panic, and afterwards [Get] answers
    for every oid what the finite map built by the same history holds: the
    growing, re-based array is a map from oids to values. *)
Theorem relation_cache_refines_map {V} lo hi (ops : list (Z * V)) :
  window lo hi -> Forall (fun op => lo <= op.1 <= hi) ops ->
  exists rc, set_all ops NewRelationCache = Ret tt rc /\
    forall oid, Get oid rc = Ret (spec_all ops !! oid) rc.
Proof.
  intros Hwin Hops.
  destruct (set_all_refines lo hi ops NewRelationCache ∅) as (rc&Hrun&HR); [done|done|by left|].
  exists rc. split; [done|]. intros oid. by apply (Get_refines lo hi).
Qed.

Lemma relation_cache_refines_map_witness :
  exists rc, set_all [(16500, "b"%string); (16384, "a"%string); (16390, "c"%string)]
    NewRelationCache = Ret tt rc /\
    forall oid, Get oid rc = Ret (spec_all [(16500, "b"%string); (16384, "a"%string);
      (16390, "c"%string)] !! oid) rc.
Proof.
  apply (relation_cache_refines_map 16384 16500).
  - unfold window. vm_compute. intuition congruence.
  - repeat constructor; cbn; lia.
Defined.

End RelationCache.

(** ** Queue *)

Module Queue.

(** The buffered channel of capacity [cap], in arrival order, and the flag. *)
Record Queue (E : Type) : Type := mkQueue {
  queueChan : list E;
  cap : nat;
  locked : bool;
  closed : bool;
}.
Arguments mkQueue {E} _ _ _ _.
Arguments queueChan {E} _.
Arguments cap {E} _.
Arguments locked {E} _.
Arguments closed {E} _.

Definition NewQueue {E} (maxSize : nat) : Queue E := mkQueue [] maxSize false false.

(** A send on a full channel blocks: the goroutine that would receive is the
    one that is sending, see the header. *)
Definition Push {E} (v : E) : G (Queue E) bool :=
  rq ← get;
  if locked rq then mret false
  else if closed rq then panic PanicClosedChannel
  else if (length (queueChan rq) <? cap rq)%nat
       then put (mkQueue (queueChan rq ++ [v]) (cap rq) (locked rq) (closed rq)) ;; mret true
       else panic Deadlock.

(** The zero value of [E] is [None]: the queues hold pointers and functions. *)
Definition Pop {E} : G (Queue E) (option E) :=
  rq ← get;
  match queueChan rq with
  | v :: rest => put (mkQueue rest (cap rq) (locked rq) (closed rq)) ;; mret (Some v)
  | [] => mret None
  end.

Definition Close {E} : G (Queue E) unit :=
  rq ← get;
  if closed rq then panic PanicClosedChannel
  else put (mkQueue (queueChan rq) (cap rq) (locked rq) true).

Definition Lock {E} : G (Queue E) unit :=
  rq ← get;
  put (mkQueue (queueChan rq) (cap rq) true (closed rq)).

(** [for { v := q.Pop(); if v == nil { break } ... }] over a body that does not
    touch the queue itself; [n] rounds are enough when [n] exceeds the number
    of queued elements. *)
Fixpoint drain {S E} (pop : G S (option E)) (body : E -> G S unit) (n : nat) : G S unit :=
  match n with
  | O => panic OutOfFuel
  | S n' =>
      v ← pop;
      match v with
      | None => mret tt
      | Some e => body e ;; drain pop body n'
      end
  end.

End Queue.

(** ** CasCache *)

Module CasCache.

(** The map behind the atomic pointer, [None] for the nil pointer. *)
Section Operations.
Context {K V : Type} `{Countable K}.
Abbreviation cas := (option (gmap K V)).

Definition NewCasCache : cas := None.

Definition Get (key : K) (mapPtr : cas) : option V := mapPtr ≫= lookup key.

(** [n := <new entries>; for k, v := range *o { n[k] = v }]: the entries that
    were there before are written last. *)
Definition copy_over (o : cas) (n : gmap K V) : gmap K V :=
  match o with
  | None => n
  | Some m => m ∪ n
  end.

(** What one round of an operation's loop does with the map it loaded: return
    at once, or try to exchange the pointer and return when that succeeds.
    A result is an error, or the value returned if the operation has one. *)
Inductive round : Type :=
| Return (r : string + option V)
| Exchange (n : gmap K V) (r : string + option V).

(** The operations that write.  [GetOrCompute] is here after its producer has
    returned the value; a producer error is returned before the loop. *)
Inductive op : Type :=
| GetOrCompute (key : K) (produced : V)
| Set_ (key : K) (value : V)
| SetAll (m : gmap K V)
| TransformSetAndGet (key : K) (transformer : V -> string + V).

Definition attempt (o : op) (m : cas) : round :=
  match o with
  | GetOrCompute key v =>
      match Get key m with
      | Some v' => Return (inr (Some v'))
      | None => Exchange (copy_over m {[ key := v ]}) (inr (Some v))
      end
  | Set_ key value => Exchange (copy_over m {[ key := value ]}) (inr None)
  | SetAll mm => Exchange (copy_over m mm) (inr None)
  | TransformSetAndGet key f =>
      match m with
      | None => Return (inl "CasCache not initialized yet")
      | Some mm =>
          match mm !! key with
          | None => Return (inl "Key not present")
          | Some v =>
              match f v with
              | inl e => Return (inl e)
              | inr vnew => Exchange (<[ key := vnew ]> mm) (inr (Some vnew))
              end
          end
      end
  end.

(** [GetOrCompute] from its entry: the fast path, then the producer. *)
Definition GetOrCompute_entry (key : K) (producer : string + V) (m : cas) : round :=
  match Get key m with
  | Some v => Return (inr (Some v))
  | None =>
      match producer with
      | inl e => Return (inl e)
      | inr v => attempt (GetOrCompute key v) m
      end
  end.

Definition Length (m : cas) : nat :=
  match m with None => 0 | Some mm => size mm end.

(** An operation that runs alone: its first exchange succeeds. *)
Definition apply (o : op) (m : cas) : cas * (string + option V) :=
  match attempt o m with
  | Return r => (m, r)
  | Exchange n r => (Some n, r)
  end.

(** After a failed exchange the loop starts again; [SetAll] has meanwhile
    copied the entries it had loaded into its own argument. *)
Definition retry (o : op) (loaded : cas) : op :=
  match o with
  | SetAll mm => SetAll (copy_over loaded mm)
  | _ => o
  end.

End Operations.

Arguments op : clear implicits.
Arguments op K V {_ _}.
Arguments round : clear implicits.
Arguments round K V {_ _}.

(** *** Interleavings *)

(** Maps are never changed after they were published, so all that a thread
    does between two accesses of the pointer is local: a step is a load with
    the local work that follows it, or a compare-and-swap.  Pointers are
    numbered in order of publication. *)
Section Interleaving.
Context {K V : Type} `{Countable K}.

Inductive thread : Type :=
| Running (o : op K V)
| Loaded (o : op K V) (ptr : nat) (m : option (gmap K V)) (n : gmap K V) (r : string + option V)
| Finished (r : string + option V).

Record config : Type := mkConfig {
  pointer : nat;
  current : option (gmap K V);
  threads : gmap nat thread;
  history : list (nat * (string + option V));
}.

Inductive step : config -> config -> Prop :=
| step_load_return p c ts h i o r :
    ts !! i = Some (Running o) -> attempt o c = Return r ->
    step (mkConfig p c ts h) (mkConfig p c (<[i := Finished r]> ts) (h ++ [(i, r)]))
| step_load p c ts h i o n r :
    ts !! i = Some (Running o) -> attempt o c = Exchange n r ->
    step (mkConfig p c ts h) (mkConfig p c (<[i := Loaded o p c n r]> ts) h)
| step_cas_success p c ts h i o m n r :
    ts !! i = Some (Loaded o p m n r) ->
    step (mkConfig p c ts h)
      (mkConfig (S p) (Some n) (<[i := Finished r]> ts) (h ++ [(i, r)]))
| step_cas_failure p c ts h i o p' m n r :
    ts !! i = Some (Loaded o p' m n r) -> p' <> p ->
    step (mkConfig p c ts h) (mkConfig p c (<[i := Running (retry o m)]> ts) h).

Definition start (m : option (gmap K V)) (ops : gmap nat (op K V)) : config :=
  mkConfig 0 m (Running <$> ops) [].

(** Running the operations of a history one after the other. *)
Fixpoint sequential (ops : gmap nat (op K V)) (h : list nat) (m : option (gmap K V))
  : option (gmap K V) * list (nat * (string + option V)) :=
  match h with
  | [] => (m, [])
  | i :: h' =>
      match ops !! i with
      | None => (m, [])
      | Some o =>
          let '(m', r) := apply o m in
          let '(m'', rs) := sequential ops h' m' in (m'', (i, r) :: rs)
      end
  end.

(** *** The invariant behind linearizability *)

(** Keys only ever appear. *)
Definition grows (m m' : option (gmap K V)) : Prop :=
  forall k, Get k m' = None -> Get k m = None.

Lemma attempt_grows o m n r : attempt o m = Exchange n r -> grows m (Some n).
Proof.
  intros Ha k Hk. destruct m as [m|]; [|done]. cbn in *.
  destruct o as [key v|key v|mm|key f]; cbn in Ha.
  1: destruct (m !! key); simplify_eq.
  4: destruct (m !! key) eqn:E; simplify_eq; destruct (f v); simplify_eq;
     apply lookup_insert_None in Hk; tauto.
  all: simplify_eq; apply lookup_union_None in Hk; tauto.
Qed.

(** The operation a thread is retrying does what the submitted one would do
    on any map with at least the keys of [m]. *)
Definition same_effect (m : option (gmap K V)) (o o0 : op K V) : Prop :=
  o = o0 \/ exists mm mm0, o = SetAll mm /\ o0 = SetAll mm0 /\
    forall k, Get k m = None -> mm !! k = mm0 !! k.

Lemma same_effect_grows m m' o o0 :
  grows m m' -> same_effect m o o0 -> same_effect m' o o0.
Proof. intros Hg [->|(mm&mm0&->&->&Hk)]; [by left|right; eauto 10]. Qed.

Lemma copy_over_same (m : option (gmap K V)) (mm mm0 : gmap K V) :
  (forall k, Get k m = None -> mm !! k = mm0 !! k) -> copy_over m mm = copy_over m mm0.
Proof.
  intros Hk. destruct m as [m|]; cbn in *.
  - apply map_eq. intros k. rewrite !lookup_union.
    destruct (m !! k) eqn:E; cbn; rewrite ?(Hk k E); [by destruct (mm !! k), (mm0 !! k)|done].
  - apply map_eq. intros k. by apply Hk.
Qed.

Lemma same_effect_attempt m o o0 : same_effect m o o0 -> attempt o m = attempt o0 m.
Proof.
  intros [->|(mm&mm0&->&->&Hk)]; [done|]. cbn. by rewrite (copy_over_same _ _ _ Hk).
Qed.

Lemma same_effect_retry m m' o o0 :
  grows m m' -> same_effect m o o0 -> same_effect m' (retry o m) o0.
Proof.
  intros Hg [->|(mm&mm0&->&->&Hk)].
  - destruct o0; cbn; try by left.
    right. do 2 eexists. split_and!; [done|done|]. intros k Hm'. apply Hg in Hm'.
    destruct m as [m|]; cbn in *; [|done]. by rewrite lookup_union, Hm', left_id_L by apply _.
  - right. cbn. do 2 eexists. split_and!; [done|done|]. intros k Hm'. apply Hg in Hm'.
    rewrite <- Hk by done. destruct m as [m|]; cbn in *; [|done].
    by rewrite lookup_union, Hm', left_id_L by apply _.
Qed.

Definition thread_ok (ops : gmap nat (op K V)) (c : config) (i : nat) (t : thread) : Prop :=
  match t with
  | Running o => exists o0, ops !! i = Some o0 /\ same_effect (current c) o o0
  | Loaded o p m n r =>
      exists o0, ops !! i = Some o0 /\ same_effect m o o0 /\ attempt o m = Exchange n r /\
        p <= pointer c /\ (p = pointer c -> m = current c) /\ grows m (current c)
  | Finished r => (i, r) ∈ history c
  end.

Record Inv (m0 : option (gmap K V)) (ops : gmap nat (op K V)) (c : config) : Prop := {
  inv_seq : sequential ops (history c).*1 m0 = (current c, history c);
  inv_threads : forall i t, threads c !! i = Some t -> thread_ok ops c i t;
  inv_history : forall i r, (i, r) ∈ history c -> threads c !! i = Some (Finished r);
  inv_nodup : NoDup (history c).*1;
}.

Lemma sequential_snoc ops h m0 c hr i o c' r :
  sequential ops h m0 = (c, hr) -> length hr = length h -> ops !! i = Some o ->
  apply o c = (c', r) -> sequential ops (h ++ [i]) m0 = (c', hr ++ [(i, r)]).
Proof.
  revert m0 hr. induction h as [|j h IH]; intros m0 hr Hs Hlen Hi Ha; cbn in *.
  - simplify_eq. by rewrite Hi, Ha.
  - destruct (ops !! j) as [oj|]; [|by simplify_eq].
    destruct (apply oj m0) as [m1 rj]. destruct (sequential ops h m1) as [m2 rs] eqn:E.
    simplify_eq. by rewrite (IH m1 rs) by (cbn in *; auto with lia).
Qed.

(** Extending the history by a finished thread keeps its part of the invariant. *)
Lemma inv_finish m0 ops p c ts h i o r c' p' :
  Inv m0 ops (mkConfig p c ts h) -> ops !! i = Some o -> apply o c = (c', r) ->
  (forall r', ts !! i <> Some (Finished r')) -> p <= p' -> grows c c' -> is_Some (ts !! i) ->
  (p' = p -> c' = c) ->
  Inv m0 ops (mkConfig p' c' (<[i := Finished r]> ts) (h ++ [(i, r)])).
Proof.
  intros [Hseq Hts Hh Hnd] Hi Ha Hnf Hp Hg Hsome Hpc. cbn in *.
  assert (Hfresh : i ∉ h.*1).
  { intros [[j r'] [-> Hin]]%list_elem_of_fmap. by apply Hh, Hnf in Hin. }
  split; cbn.
  - rewrite fmap_app. cbn. eapply sequential_snoc; eauto. by rewrite length_fmap.
  - intros j t Hj. destruct (decide (j = i)) as [->|Hne].
    { rewrite lookup_insert_eq in Hj. simplify_eq. cbn. set_solver. }
    rewrite lookup_insert_ne in Hj by done. apply Hts in Hj.
    destruct t as [oj|oj pj mj nj rj|rj]; cbn in *.
    + destruct Hj as (o0&?&?). eauto using same_effect_grows.
    + destruct Hj as (o0&?&?&?&?&Hcur&?). exists o0. split_and!; auto with lia.
      * intros ->. assert (p' = p) as -> by lia. rewrite Hpc by done. auto.
      * intros k Hk. auto.
    + set_solver.
  - intros j r' [Hin|Hin]%elem_of_app.
    + rewrite lookup_insert_ne; [by apply Hh|]. intros ->. by apply Hh, Hnf in Hin.
    + apply list_elem_of_singleton in Hin. simplify_eq. by rewrite lookup_insert_eq.
  - rewrite fmap_app, NoDup_app. split_and!; [done| |apply NoDup_singleton].
    cbn. intros j Hj ->%list_elem_of_singleton. by apply Hfresh.
Qed.

(** A step that only changes the local state of one unfinished thread. *)
Lemma inv_local m0 ops p c ts h i t :
  Inv m0 ops (mkConfig p c ts h) -> (forall r', ts !! i <> Some (Finished r')) ->
  thread_ok ops (mkConfig p c (<[i := t]> ts) h) i t ->
  Inv m0 ops (mkConfig p c (<[i := t]> ts) h).
Proof.
  intros [Hseq Hts Hh Hnd] Hnf Ht. split; cbn in *; [done| | |done].
  - intros j t' Hj. destruct (decide (j = i)) as [->|Hne].
    + rewrite lookup_insert_eq in Hj. by simplify_eq.
    + rewrite lookup_insert_ne in Hj by done. by apply Hts in Hj.
  - intros j r' Hin. rewrite lookup_insert_ne; [by apply Hh|]. intros ->. by apply Hh, Hnf in Hin.
Qed.

Lemma inv_step m0 ops c1 c2 : Inv m0 ops c1 -> step c1 c2 -> Inv m0 ops c2.
Proof.
  intros HI Hstep. destruct Hstep as [p c ts h i o r Hi Ha|p c ts h i o n r Hi Ha
    |p c ts h i o m n r Hi|p c ts h i o p' m n r Hi Hne];
    pose proof (inv_threads _ _ _ HI _ _ Hi) as Hok; cbn in Hok.
  - destruct Hok as (o0&Ho0&Hse). apply (inv_finish m0 ops p c ts h i o0); auto; try congruence; eauto.
    unfold apply. by rewrite <- (same_effect_attempt _ _ _ Hse), Ha.
  - destruct Hok as (o0&Ho0&Hse). apply inv_local; [done|congruence|].
    cbn. exists o0. split_and!; auto with lia. by intros k.
  - destruct Hok as (o0&Ho0&Hse&Ha&_&Hcur&_). rewrite Hcur in * by done.
    apply (inv_finish m0 ops p c ts h i o0); auto with lia; try congruence;
      eauto using attempt_grows; try lia.
    unfold apply. by rewrite <- (same_effect_attempt _ _ _ Hse), Ha.
  - destruct Hok as (o0&Ho0&Hse&Ha&_&Hcur&Hg). apply inv_local; [done|congruence|].
    cbn. exists o0. split; [done|]. by eapply same_effect_retry.
Qed.

Lemma inv_start m0 ops : Inv m0 ops (start m0 ops).
Proof.
  split; cbn; [done| | |constructor].
  - intros i t. rewrite lookup_fmap. destruct (ops !! i) as [o|] eqn:E; intros Hi; simplify_eq/=.
    exists o. split; [done|by left].
  - intros i r Hin. set_solver.
Qed.

Lemma inv_reachable m0 ops c : rtc step (start m0 ops) c -> Inv m0 ops c.
Proof.
  apply rtc_invariant; [apply inv_start|]. intros c1 c2. apply inv_step.
Qed.

(** C16. In every interleaving of [GetOrCompute], [Set], [SetAll] and
    [TransformSetAndGet] calls on one cache, the map behind the pointer and
    the results the finished calls have returned are those of running the
    finished calls one after the other, in the order in which they took
    effect, and no call takes effect twice. *)
Theorem cas_cache_linearizable m0 ops c :
  rtc step (start m0 ops) c ->
  sequential ops (history c).*1 m0 = (current c, history c) /\
  NoDup (history c).*1 /\
  forall i r, threads c !! i = Some (Finished r) <-> (i, r) ∈ history c.
Proof.
  intros Hr%inv_reachable. pose proof Hr as [Hseq Hts Hh Hnd].
  split_and!; [done|done|]. intros i r. split; [|apply Hh]. intros Hi. by apply Hts in Hi.
Qed.

End Interleaving.

(** Two threads: a [Set] loads the pointer, a [GetOrCompute] publishes first,
    the exchange of the [Set] fails and its second round succeeds. *)
Definition two_writers : gmap nat (op nat nat) :=
  {[ 0 := Set_ 1 10; 1 := GetOrCompute 1 20 ]}.

Definition two_writers_end : config (K:=nat) (V:=nat) :=
  mkConfig 2 (Some {[ 1 := 20 ]})
    {[ 0 := Finished (inr None); 1 := Finished (inr (Some 20)) ]}
    [(1, inr (Some 20)); (0, inr None)].

Lemma two_writers_run : rtc step (start None two_writers) two_writers_end.
Proof.
  eapply rtc_l; [apply (step_load 0 None _ [] 0 (Set_ 1 10) {[ 1 := 10 ]} (inr None)); reflexivity|].
  eapply rtc_l; [apply (step_load 0 None _ [] 1 (GetOrCompute 1 20) {[ 1 := 20 ]} (inr (Some 20)));
    reflexivity|].
  eapply rtc_l; [eapply (step_cas_success 0 None _ [] 1); reflexivity|].
  eapply rtc_l; [eapply (step_cas_failure 1 _ _ _ 0 _ 0); [reflexivity|done]|].
  eapply rtc_l; [apply (step_load 1 (Some {[ 1 := 20 ]}) _ _ 0 (Set_ 1 10) {[ 1 := 20 ]} (inr None));
    reflexivity|].
  eapply rtc_l; [eapply (step_cas_success 1 _ _ _ 0); reflexivity|].
  match goal with |- rtc _ ?c _ => replace c with two_writers_end by (vm_compute; reflexivity) end.
  apply rtc_refl.
Qed.

Lemma cas_cache_linearizable_witness :
  sequential two_writers [1; 0] None = (Some {[ 1 := 20 ]}, [(1, inr (Some 20)); (0, inr None)]).
Proof. exact (proj1 (cas_cache_linearizable None two_writers two_writers_end two_writers_run)). Defined.

(** [Set] on a key that the cache already holds does not change the cache:
    the copy of the existing entries, written after the new one, restores the
    old value.  A value is only ever replaced through [TransformSetAndGet]. *)
Theorem cas_set_keeps_existing {K V} `{Countable K} (m : gmap K V) key (old new : V) :
  m !! key = Some old -> apply (Set_ key new) (Some m) = (Some m, inr None).
Proof.
  intros Hold. unfold apply. cbn. do 2 f_equal. apply map_eq. intros k.
  rewrite lookup_union. destruct (decide (k = key)) as [->|Hne].
  - by rewrite Hold, lookup_singleton_eq.
  - rewrite lookup_singleton_ne by done. by destruct (m !! k).
Qed.

Lemma cas_set_keeps_existing_witness :
  apply (Set_ 7 99) (Some ({[ 7 := 1 ]} : gmap nat nat)) = (Some {[ 7 := 1 ]}, inr None).
Proof. apply (cas_set_keeps_existing {[ 7 := 1 ]} 7 1 99). reflexivity. Defined.

End CasCache.

(** ** UnboundedChannel *)

Module UnboundedChannel.
Section Channel.
Context {T : Type}.

(** The local state of the goroutine ([inQueue]; [in] non-nil), the [closed]
    flag of the channel object, whether the two channels are closed, the items of
    the calls of [Send] that found the flag unset and have not been accepted, and, as
    history, the items the goroutine accepted from senders, those that receivers
    got, and how many zero values receivers got after the end.  A goroutine that
    panics ends the process. *)
Record channel : Type := mkChannel {
  inQueue : list T;
  inOpen : bool;
  closed : bool;
  inClosed : bool;
  outClosed : bool;
  sending : list T;
  sent : list T;
  received : list T;
  zeros : nat;
  panicked : bool;
}.

Definition MakeUnboundedChannel : channel := mkChannel [] true false false false [] [] [] 0 false.

Inductive step : channel -> channel -> Prop :=
(** [Send] finds the flag unset; otherwise it returns *)
| step_send q b ic oc w s r z v :
    step (mkChannel q b false ic oc w s r z false) (mkChannel q b false ic oc (w ++ [v]) s r z false)
(** its [uc.in <- item] meets [case v, ok := <-in] *)
| step_accept q cl oc w1 w2 s r z v :
    step (mkChannel q true cl false oc (w1 ++ v :: w2) s r z false)
         (mkChannel (q ++ [v]) true cl false oc (w1 ++ w2) (s ++ [v]) r z false)
(** its [uc.in <- item] finds the channel closed in between *)
| step_send_panics q b cl oc w1 w2 s r z v :
    step (mkChannel q b cl true oc (w1 ++ v :: w2) s r z false) (mkChannel q b cl true oc (w1 ++ w2) s r z true)
(** [Close]: first the flag, then the channel; a second [Close] panics *)
| step_close q b cl ic oc w s r z :
    step (mkChannel q b cl ic oc w s r z false) (mkChannel q b true ic oc w s r z false)
| step_close_in q b oc w s r z :
    step (mkChannel q b true false oc w s r z false) (mkChannel q b true true oc w s r z false)
| step_close_panics q b oc w s r z :
    step (mkChannel q b true true oc w s r z false) (mkChannel q b true true oc w s r z true)
(** [case v, ok := <-in] on the closed channel: [in = nil] *)
| step_drained q cl oc w s r z :
    step (mkChannel q true cl true oc w s r z false) (mkChannel q false cl true oc w s r z false)
(** [case outChannel() <- currentValue()] meets [Receive] *)
| step_deliver v q b cl ic w s r z :
    step (mkChannel (v :: q) b cl ic false w s r z false) (mkChannel q b cl ic false w s (r ++ [v]) z false)
(** the loop condition fails: [close(out)] *)
| step_finish cl ic w s r z :
    step (mkChannel [] false cl ic false w s r z false) (mkChannel [] false cl ic true w s r z false)
(** [Receive] on the closed channel gives a zero value *)
| step_receive_zero q b cl ic w s r z :
    step (mkChannel q b cl ic true w s r z false) (mkChannel q b cl ic true w s r (S z) false).

Definition Fifo (c : channel) : Prop :=
  sent c = received c ++ inQueue c /\ (outClosed c = true -> inQueue c = [] /\ inOpen c = false) /\
  (inOpen c = false -> inClosed c = true) /\ (inClosed c = true -> closed c = true) /\
  ((0 < zeros c)%nat -> outClosed c = true).

Lemma fifo_step c1 c2 : Fifo c1 -> step c1 c2 -> Fifo c2.
Proof.
  intros (Hs&Ho&Hc&Hf&Hz) Hstep. unfold Fifo.
  destruct Hstep; cbn in *; subst; rewrite <- ?app_assoc; cbn; naive_solver.
Qed.

Lemma fifo_reachable c : rtc step MakeUnboundedChannel c -> Fifo c.
Proof. apply rtc_invariant; [unfold Fifo; cbn; split_and!; (done || lia)|]. intros c1 c2. apply fifo_step. Qed.

(** C17. At every moment receivers have got a prefix of the accepted items, in
    order and without loss or duplication, and the rest is queued; when the
    output side is closed, everything that was accepted has been received.  Zero
    values that stand for no item come only after that. *)
Theorem unbounded_channel_fifo c :
  rtc step MakeUnboundedChannel c ->
  sent c = received c ++ inQueue c /\ (outClosed c = true -> received c = sent c) /\
  ((0 < zeros c)%nat -> received c = sent c).
Proof.
  intros (Hs&Ho&_&_&Hz)%fifo_reachable. assert (Hall : outClosed c = true -> received c = sent c).
  { intros [H _]%Ho. by rewrite Hs, H, app_nil_r. }
  split_and!; [done|done|]. intros H. by apply Hall, Hz.
Qed.

Lemma deliver_all q b cl ic w s r z :
  rtc step (mkChannel q b cl ic false w s r z false) (mkChannel [] b cl ic false w s (r ++ q) z false).
Proof.
  revert r. induction q as [|v q IH]; intros r; [by rewrite app_nil_r|].
  eapply rtc_l; [apply step_deliver|]. rewrite (cons_middle v r q), app_assoc. apply IH.
Qed.

(** A closed channel is not lost: as long as somebody receives, the
    goroutine delivers all the accepted items and then closes its output. *)
Theorem unbounded_channel_close_drains c :
  rtc step MakeUnboundedChannel c -> inClosed c = true -> outClosed c = false -> panicked c = false ->
  exists c', rtc step c c' /\ outClosed c' = true /\ received c' = sent c /\ sent c' = sent c.
Proof.
  intros (Hs&_&_&_&_)%fifo_reachable Hcl Hout Hp. destruct c as [q b cl ic oc w s r z k]; cbn in *; subst.
  exists (mkChannel [] false cl true true w (r ++ q) (r ++ q) z false). split; [|done].
  etrans; [apply deliver_all|]. destruct b.
  - eapply rtc_l; [apply step_drained|]. eapply rtc_l; [apply step_finish|]. done.
  - eapply rtc_l; [apply step_finish|]. done.
Qed.

(** A sender that has looked at the flag before it was set panics. *)
Lemma late_send_panics (v : T) : exists c, rtc step MakeUnboundedChannel c /\ panicked c = true.
Proof.
  eexists. split.
  - eapply rtc_l; [apply (step_send _ _ _ _ _ _ _ _ v)|]. eapply rtc_l; [apply step_close|].
    eapply rtc_l; [apply step_close_in|]. apply rtc_once. apply (step_send_panics _ _ _ _ [] []).
  - done.
Qed.

End Channel.

Definition closed_with_two : channel (T:=nat) := mkChannel [2] true true true false [] [1; 2] [1] 0 false.

Lemma closed_with_two_run : rtc step MakeUnboundedChannel closed_with_two.
Proof.
  eapply rtc_l; [apply (step_send [] true false false [] [] [] 0 1)|].
  eapply rtc_l; [apply (step_accept [] false false [] [] [] [] 0 1)|].
  eapply rtc_l; [apply (step_send [1] true false false [] [1] [] 0 2)|].
  eapply rtc_l; [apply (step_accept [1] false false [] [] [1] [] 0 2)|].
  eapply rtc_l; [apply (step_deliver 1 [2])|]. eapply rtc_l; [apply step_close|]. eapply rtc_l; [apply step_close_in|]. done.
Qed.

Lemma unbounded_channel_fifo_witness : sent closed_with_two = [1] ++ [2].
Proof. exact (proj1 (unbounded_channel_fifo closed_with_two closed_with_two_run)). Defined.

Lemma unbounded_channel_close_drains_witness :
  exists c', rtc step closed_with_two c' /\ outClosed c' = true /\ received c' = [1; 2] /\
    sent c' = [1; 2].
Proof.
  exact (unbounded_channel_close_drains closed_with_two closed_with_two_run eq_refl eq_refl eq_refl).
Defined.

End UnboundedChannel.
