(* ===== verification/Encoding.v ===== *)
(** * Encoding: the binary buffers of spi/encoding/buffers.go

    A write buffer is the list of bytes written so far, a read buffer the list
    of bytes not yet read.  [WriteByte] and [Write] of a bytes.Buffer always
    return a nil error, so the error branches behind them cannot be taken;
    [Read] is modelled with its short reads.  The laws [writes] and [reads]
    compose along the code's sequences of calls: every format that is built
    from the buffers gets its round trip from them.  Slice expressions, which
    the formats use that do not go through the buffers, are here too. *)

From Stdlib Require Import ZArith Lia String.
From Stdlib Require Import Strings.Byte.
From stdpp Require Import base tactics option list numbers strings sets gmap.
From S2P Require Import Prelude.

Local Open Scope Z_scope.

Abbreviation bytes := (list byte).

Definition EOF : string := "EOF".

(** [[]byte(s)] and [string(b)]. *)
Abbreviation bytes_of := String.list_byte_of_string.
Abbreviation string_of := String.string_of_list_byte.

(** ** The write buffer *)

Definition buffer_Write (d : bytes) : G bytes unit := modify (fun b => b ++ d)%list.

Definition bool_byte (val : bool) : byte := if val then Byte.x01 else Byte.x00.

Definition PutBit (val : bool) : G bytes unit := buffer_Write [bool_byte val].
Definition PutBool (val : bool) : G bytes unit := buffer_Write [bool_byte val].
Definition PutUint8 (val : Z) : G bytes unit := buffer_Write [byte_of_Z val].
Definition PutUint16 (val : Z) : G bytes unit := buffer_Write (be_put 2 val).
Definition PutUint32 (val : Z) : G bytes unit := buffer_Write (be_put 4 val).
Definition PutUint64 (val : Z) : G bytes unit := buffer_Write (be_put 8 val).
Definition PutInt8 (val : Z) : G bytes unit := PutUint8 (u8 val).
Definition PutInt16 (val : Z) : G bytes unit := PutUint16 (u16 val).
Definition PutInt32 (val : Z) : G bytes unit := PutUint32 (u32 val).
Definition PutInt64 (val : Z) : G bytes unit := PutUint64 (u64 val).

(** A float is its IEEE 754 bit pattern: [math.Float32bits] and
    [math.Float64bits] are the identity. *)
Definition PutFloat32 (bits : Z) : G bytes unit := PutUint32 bits.
Definition PutFloat64 (bits : Z) : G bytes unit := PutUint64 bits.

Definition PutString (val : string) : G bytes unit :=
  let d := bytes_of val in
  PutUint32 (u32 (Z.of_nat (length d))) ;; buffer_Write d.

Definition PutBytes (val : bytes) : G bytes unit :=
  PutUint32 (u32 (Z.of_nat (length val))) ;; buffer_Write val.

Definition Length (b : bytes) : Z := Z.of_nat (length b).

(** ** The read buffer *)

Definition buffer_ReadByte : G bytes byte :=
  b ← get;
  match b with
  | [] => fail EOF
  | c :: rest => put rest ;; mret c
  end.

(** [d := make([]byte, n); buffer.Read(d)]: an empty buffer is an error unless
    nothing was asked for; a short one fills [d] as far as it goes. *)
Definition buffer_Read (n : nat) : G bytes bytes :=
  b ← get;
  match b with
  | [] => if (n =? 0)%nat then mret [] else fail EOF
  | _ => put (drop n b) ;; mret (take n b ++ replicate (n - length b) Byte.x00)%list
  end.

Definition ReadBool : G bytes bool :=
  b ← buffer_ReadByte;
  mret (Z_of_byte b =? 1).
Definition ReadBit : G bytes bool := ReadBool.
Definition ReadUint8 : G bytes Z := b ← buffer_ReadByte; mret (Z_of_byte b).
Definition ReadUint16 : G bytes Z := d ← buffer_Read 2; mret (be_get d).
Definition ReadUint32 : G bytes Z := d ← buffer_Read 4; mret (be_get d).
Definition ReadUint64 : G bytes Z := d ← buffer_Read 8; mret (be_get d).
Definition ReadInt8 : G bytes Z := v ← ReadUint8; mret (i8 v).
Definition ReadInt16 : G bytes Z := v ← ReadUint16; mret (i16 v).
Definition ReadInt32 : G bytes Z := v ← ReadUint32; mret (i32 v).
Definition ReadInt64 : G bytes Z := v ← ReadUint64; mret (i64 v).
Definition ReadFloat32 : G bytes Z := ReadUint32.
Definition ReadFloat64 : G bytes Z := ReadUint64.

Definition ReadBytes : G bytes bytes :=
  length ← ReadUint32;
  buffer_Read (Z.to_nat length).

Definition ReadString : G bytes string :=
  length ← ReadUint32;
  d ← buffer_Read (Z.to_nat length);
  mret (string_of d).

(** ** Laws of writing and reading *)

(** [w] appends exactly [enc]. *)
Definition writes (w : G bytes unit) (enc : bytes) : Prop :=
  forall pre, w pre = Ret tt (pre ++ enc)%list.

(** [r] consumes exactly [enc] and returns [a], whatever follows. *)
Definition reads {A} (r : G bytes A) (enc : bytes) (a : A) : Prop :=
  forall rest, r (enc ++ rest)%list = Ret a rest.

(** A writer and a reader that fit together on [a]. *)
Definition fits {A} (w : A -> G bytes unit) (r : G bytes A) (a : A) : Prop :=
  exists enc, writes (w a) enc /\ reads r enc a.

(** Running on an empty write buffer, and on a read buffer with nothing more. *)
Lemma writes_run w enc : writes w enc -> w [] = Ret tt enc.
Proof. intros H. apply H. Qed.

Lemma reads_run {A} (r : G bytes A) enc a : reads r enc a -> r enc = Ret a [].
Proof. intros H. specialize (H []). by rewrite app_nil_r in H. Qed.

Lemma writes_write d : writes (buffer_Write d) d.
Proof. done. Qed.

Lemma writes_ret : writes (mret tt) [].
Proof. intros pre. by rewrite app_nil_r. Qed.

Lemma writes_seq w1 w2 e1 e2 :
  writes w1 e1 -> writes w2 e2 -> writes (w1 ;; w2) (e1 ++ e2)%list.
Proof. intros H1 H2 pre. rewrite (bind_run _ _ _ _ _ (H1 pre)), H2, app_assoc. done. Qed.

Lemma writes_forM {A} (l : list A) (w : A -> G bytes unit) (enc : A -> bytes) :
  (forall x, x ∈ l -> writes (w x) (enc x)) -> writes (forM l w) (concat (enc <$> l)).
Proof.
  induction l as [|x l IH]; intros Hl; cbn; [apply writes_ret|].
  apply writes_seq; [apply Hl; set_solver|]. apply IH. intros; apply Hl; set_solver.
Qed.

Lemma reads_ret {A} (a : A) : reads (mret a) [] a.
Proof. done. Qed.

Lemma reads_bind {A B} (r : G bytes A) (k : A -> G bytes B) e1 e2 a b :
  reads r e1 a -> reads (k a) e2 b -> reads (r ≫= k) (e1 ++ e2)%list b.
Proof. intros H1 H2 rest. rewrite <- app_assoc, (bind_run _ _ _ _ _ (H1 _)). apply H2. Qed.

Lemma reads_fmap {A B} (r : G bytes A) (f : A -> B) enc a :
  reads r enc a -> reads (x ← r; mret (f x)) enc (f a).
Proof. intros H rest. by rewrite (bind_run _ _ _ _ _ (H rest)). Qed.

Lemma reads_buffer d : reads (buffer_Read (length d)) d d.
Proof.
  intros rest. unfold buffer_Read. go_unfold.
  destruct (d ++ rest)%list as [|x l] eqn:E.
  - apply app_eq_nil in E as [-> ->]. done.
  - rewrite <- E, length_app, take_app_length, drop_app_length.
    replace (length d - (length d + length rest))%nat with O by lia. by rewrite app_nil_r.
Qed.

(** A fixed-width integer of [n > 0] bytes. *)
Lemma reads_be n z :
  reads (d ← buffer_Read n; mret (be_get d)) (be_put n z) (wrapu (8 * Z.of_nat n) z).
Proof.
  rewrite <- be_get_put. apply (reads_fmap _ be_get).
  rewrite <- (length_be_put n z) at 1. apply reads_buffer.
Qed.

Lemma reads_bool b : reads ReadBool [bool_byte b] b.
Proof. intros rest. by destruct b. Qed.

Lemma reads_uint8 z : reads ReadUint8 [byte_of_Z z] (u8 z).
Proof.
  intros rest. unfold ReadUint8, buffer_ReadByte. go_unfold. cbn [app].
  by rewrite Z_of_byte_of_Z.
Qed.

Lemma reads_uint16 z : reads ReadUint16 (be_put 2 z) (u16 z).
Proof. apply (reads_be 2). Qed.

Lemma reads_uint32 z : reads ReadUint32 (be_put 4 z) (u32 z).
Proof. apply (reads_be 4). Qed.

Lemma reads_uint64 z : reads ReadUint64 (be_put 8 z) (u64 z).
Proof. apply (reads_be 8). Qed.

Lemma reads_uint32_small z : in_u 32 z -> reads ReadUint32 (be_put 4 z) z.
Proof. intros Hz. rewrite <- (wrapu_small 32 z Hz) at 2. apply reads_uint32. Qed.

(** The length prefix of strings and byte slices is a uint32. *)
Definition encodable (n : nat) : Prop := Z.of_nat n < 2 ^ 32.

Definition enc_bytes (d : bytes) : bytes := (be_put 4 (Z.of_nat (length d)) ++ d)%list.

Lemma writes_bytes d : writes (PutBytes d) (enc_bytes d).
Proof.
  unfold PutBytes, enc_bytes. rewrite <- (be_put_wrapu 4 (Z.of_nat (length d))).
  apply writes_seq; apply writes_write.
Qed.

Lemma reads_length (d : bytes) :
  encodable (length d) -> reads ReadUint32 (be_put 4 (Z.of_nat (length d))) (Z.of_nat (length d)).
Proof. unfold encodable. intros. apply reads_uint32_small. unfold in_u. lia. Qed.

Lemma reads_bytes d : encodable (length d) -> reads ReadBytes (enc_bytes d) d.
Proof.
  intros. eapply reads_bind; [by apply reads_length|]. rewrite Nat2Z.id. apply reads_buffer.
Qed.

Definition enc_string (s : string) : bytes := enc_bytes (bytes_of s).

Lemma writes_string s : writes (PutString s) (enc_string s).
Proof. apply writes_bytes. Qed.

Lemma reads_string s : encodable (length (bytes_of s)) -> reads ReadString (enc_string s) s.
Proof.
  intros. unfold ReadString, enc_string, enc_bytes.
  eapply reads_bind; [by apply reads_length|]. rewrite Nat2Z.id.
  rewrite <- (String.string_of_list_byte_of_string s) at 3.
  apply (reads_fmap _ string_of), reads_buffer.
Qed.

(** ** Maps: an entry per round *)

(** [for o := uint32(0); o < n; o++ { ... }] that adds an entry to a map. *)
Fixpoint readEntries {V} (n : nat) (readEntry : G bytes (string * V)) (m : gmap string V) :
    G bytes (gmap string V) :=
  match n with
  | O => mret m
  | S n' => e ← readEntry; readEntries n' readEntry (<[ fst e := snd e ]> m)
  end.

Lemma reads_entries {V} (r : G bytes (string * V)) (enc : string * V -> bytes) l m :
  (forall e, e ∈ l -> reads r (enc e) e) ->
  reads (readEntries (length l) r m) (concat (enc <$> l))
    (fold_left (fun m e => <[ fst e := snd e ]> m) l m).
Proof.
  revert m. induction l as [|e l IH]; intros m Hl; cbn; [apply reads_ret|].
  eapply reads_bind; [apply Hl; set_solver|]. apply IH. set_solver.
Qed.

(** ** Slices *)

(** [data[i]] *)
Definition index (data : bytes) (i : nat) : crash + byte :=
  match data !! i with Some b => inr b | None => inl PanicIndexOutOfRange end.

(** [data[lo:hi]]: the upper bound may reach into the slice's capacity, which
    holds [spare] behind the slice's own bytes. *)
Definition slice (data spare : bytes) (lo hi : nat) : crash + bytes :=
  if (lo <=? hi)%nat && (hi <=? length data + length spare)%nat
  then inr (take (hi - lo) (drop lo (data ++ spare)))%list
  else inl PanicIndexOutOfRange.

(** [data[lo:]] *)
Definition from (data : bytes) (lo : nat) : crash + bytes :=
  if (lo <=? length data)%nat then inr (drop lo data) else inl PanicIndexOutOfRange.

(** [binary.BigEndian.Uint<8n>(data)] *)
Definition BigEndian_Uint (n : nat) (data : bytes) : crash + Z :=
  if (n <=? length data)%nat then inr (be_get (take n data)) else inl PanicIndexOutOfRange.

(** [copy(data[off:], src)] *)
Definition copy_to (off : nat) (src data : bytes) : bytes :=
  (take off data ++ take (length data - off) src ++ drop (off + length src) data)%list.

Section Slices.
Implicit Types pre mid post data spare : bytes.

Lemma index_at pre b post data i :
  data = (pre ++ b :: post)%list -> i = length pre -> index data i = inr b.
Proof. intros -> ->. unfold index. by rewrite list_lookup_middle. Qed.

Lemma slice_at pre mid post data spare lo hi :
  data = (pre ++ mid ++ post)%list -> lo = length pre -> hi = (lo + length mid)%nat ->
  slice data spare lo hi = inr mid.
Proof.
  intros -> -> ->. unfold slice. rewrite !length_app.
  destruct (Nat.leb_spec (length pre) (length pre + length mid)); [|lia].
  destruct (Nat.leb_spec (length pre + length mid)
    (length pre + (length mid + length post) + length spare)); [|lia]. cbn [andb].
  rewrite <- !app_assoc, drop_app_length.
  replace (length pre + length mid - length pre)%nat with (length mid) by lia.
  by rewrite take_app_length.
Qed.

Lemma from_at pre post data lo :
  data = (pre ++ post)%list -> lo = length pre -> from data lo = inr post.
Proof.
  intros -> ->. unfold from. rewrite length_app.
  destruct (Nat.leb_spec (length pre) (length pre + length post)); [|lia].
  by rewrite drop_app_length.
Qed.

Lemma Uint_put n z post :
  in_u (8 * Z.of_nat n) z -> BigEndian_Uint n (be_put n z ++ post) = inr z.
Proof.
  intros Hz. unfold BigEndian_Uint. rewrite length_app, length_be_put.
  destruct (Nat.leb_spec n (n + length post)); [|lia].
  rewrite take_app_length' by (by rewrite length_be_put). by rewrite be_get_put_small.
Qed.

Lemma copy_to_at off src pre mid post data :
  data = (pre ++ mid ++ post)%list -> off = length pre -> length mid = length src ->
  copy_to off src data = (pre ++ src ++ post)%list.
Proof.
  intros -> -> Hlen. unfold copy_to. rewrite take_app_length, !length_app.
  rewrite take_ge by lia. f_equal. f_equal.
  rewrite app_assoc, drop_app_length'; [done|]. rewrite length_app. lia.
Qed.
End Slices.

#[export] Hint Resolve writes_write writes_ret writes_seq writes_bytes writes_string writes_forM
  reads_ret reads_bool reads_uint8 reads_uint16 reads_uint32 reads_uint64 reads_bytes reads_string
  : go.

(** ** The buffers' round trips *)

(** A value of one of the buffer's types. *)
Inductive item : Type :=
| IBit (b : bool) | IBool (b : bool)
| IInt8 (z : Z) | IInt16 (z : Z) | IInt32 (z : Z) | IInt64 (z : Z)
| IUint8 (z : Z) | IUint16 (z : Z) | IUint32 (z : Z) | IUint64 (z : Z)
| IFloat32 (bits : Z) | IFloat64 (bits : Z)
| IString (s : string) | IBytes (d : bytes).

Definition item_ok (i : item) : Prop :=
  match i with
  | IBit _ | IBool _ => True
  | IInt8 z => in_s 8 z | IInt16 z => in_s 16 z | IInt32 z => in_s 32 z | IInt64 z => in_s 64 z
  | IUint8 z => in_u 8 z | IUint16 z => in_u 16 z
  | IUint32 z | IFloat32 z => in_u 32 z
  | IUint64 z | IFloat64 z => in_u 64 z
  | IString s => encodable (length (bytes_of s))
  | IBytes d => encodable (length d)
  end.

Definition Put (i : item) : G bytes unit :=
  match i with
  | IBit b => PutBit b | IBool b => PutBool b
  | IInt8 z => PutInt8 z | IInt16 z => PutInt16 z | IInt32 z => PutInt32 z | IInt64 z => PutInt64 z
  | IUint8 z => PutUint8 z | IUint16 z => PutUint16 z
  | IUint32 z => PutUint32 z | IUint64 z => PutUint64 z
  | IFloat32 z => PutFloat32 z | IFloat64 z => PutFloat64 z
  | IString s => PutString s | IBytes d => PutBytes d
  end.

(** Reading a value of the same type as [i]. *)
Definition Read (i : item) : G bytes item :=
  match i with
  | IBit _ => v ← ReadBit; mret (IBit v) | IBool _ => v ← ReadBool; mret (IBool v)
  | IInt8 _ => v ← ReadInt8; mret (IInt8 v) | IInt16 _ => v ← ReadInt16; mret (IInt16 v)
  | IInt32 _ => v ← ReadInt32; mret (IInt32 v) | IInt64 _ => v ← ReadInt64; mret (IInt64 v)
  | IUint8 _ => v ← ReadUint8; mret (IUint8 v) | IUint16 _ => v ← ReadUint16; mret (IUint16 v)
  | IUint32 _ => v ← ReadUint32; mret (IUint32 v) | IUint64 _ => v ← ReadUint64; mret (IUint64 v)
  | IFloat32 _ => v ← ReadFloat32; mret (IFloat32 v)
  | IFloat64 _ => v ← ReadFloat64; mret (IFloat64 v)
  | IString _ => v ← ReadString; mret (IString v) | IBytes _ => v ← ReadBytes; mret (IBytes v)
  end.

(** A signed integer is written as its unsigned representation. *)
Lemma fits_signed n (c : Z -> item) (r : G bytes Z) z :
  (0 < n)%nat -> in_s (8 * Z.of_nat n) z ->
  reads r (be_put n z) (wrapu (8 * Z.of_nat n) z) ->
  reads (v ← (v ← r; mret (wraps (8 * Z.of_nat n) v)); mret (c v)) (be_put n z) (c z).
Proof.
  intros Hn Hz Hr. apply (reads_fmap _ c).
  rewrite <- (wraps_roundtrip (8 * Z.of_nat n) z) at 2 by (done || lia).
  by apply (reads_fmap _ (wraps _)).
Qed.

Lemma writes_signed n z :
  writes (buffer_Write (be_put n (wrapu (8 * Z.of_nat n) z))) (be_put n z).
Proof. rewrite be_put_wrapu. apply writes_write. Qed.

Lemma item_fits i : item_ok i -> exists enc, writes (Put i) enc /\ reads (Read i) enc i.
Proof.
  destruct i as [b|b|z|z|z|z|z|z|z|z|z|z|s|d]; cbn [item_ok Put Read]; intros Hok.
  - exists [bool_byte b]. split; [done|]. apply (reads_fmap _ IBit), reads_bool.
  - exists [bool_byte b]. split; [done|]. apply (reads_fmap _ IBool), reads_bool.
  - exists (be_put 1 z). split; [apply (writes_signed 1)|].
    apply (fits_signed 1 IInt8); [lia|done|]. apply reads_uint8.
  - exists (be_put 2 z). split; [apply (writes_signed 2)|].
    apply (fits_signed 2 IInt16); [lia|done|]. apply reads_uint16.
  - exists (be_put 4 z). split; [apply (writes_signed 4)|].
    apply (fits_signed 4 IInt32); [lia|done|]. apply reads_uint32.
  - exists (be_put 8 z). split; [apply (writes_signed 8)|].
    apply (fits_signed 8 IInt64); [lia|done|]. apply reads_uint64.
  - exists [byte_of_Z z]. split; [done|]. rewrite <- (wrapu_small _ _ Hok) at 2.
    apply (reads_fmap _ IUint8), reads_uint8.
  - exists (be_put 2 z). split; [done|]. rewrite <- (wrapu_small _ _ Hok) at 2.
    apply (reads_fmap _ IUint16), reads_uint16.
  - exists (be_put 4 z). split; [done|]. rewrite <- (wrapu_small _ _ Hok) at 2.
    apply (reads_fmap _ IUint32), reads_uint32.
  - exists (be_put 8 z). split; [done|]. rewrite <- (wrapu_small _ _ Hok) at 2.
    apply (reads_fmap _ IUint64), reads_uint64.
  - exists (be_put 4 z). split; [done|]. rewrite <- (wrapu_small _ _ Hok) at 2.
    apply (reads_fmap _ IFloat32), reads_uint32.
  - exists (be_put 8 z). split; [done|]. rewrite <- (wrapu_small _ _ Hok) at 2.
    apply (reads_fmap _ IFloat64), reads_uint64.
  - exists (enc_string s). split; [apply writes_string|]. by apply (reads_fmap _ IString), reads_string.
  - exists (enc_bytes d). split; [apply writes_bytes|]. by apply (reads_fmap _ IBytes), reads_bytes.
Qed.

(** Reading back, one after the other, values of the types that were written. *)
Fixpoint ReadItems (l : list item) : G bytes (list item) :=
  match l with
  | [] => mret []
  | i :: l' => v ← Read i; vs ← ReadItems l'; mret (v :: vs)
  end.

(** Whatever is written to a write buffer -- any sequence of bits, bools,
    signed and unsigned integers of every width, floats, strings and byte
    slices, each in the range of its Go type -- is read back unchanged and in
    order by the matching [Read] calls, which leave what follows untouched. *)
Theorem buffers_roundtrip (l : list item) :
  Forall item_ok l ->
  exists enc, writes (forM l Put) enc /\ reads (ReadItems l) enc l.
Proof.
  induction 1 as [|i l Hi Hl (enc&Hw&Hr)].
  - exists []. split; [apply writes_ret|apply reads_ret].
  - destruct (item_fits i Hi) as (e&Hwi&Hri). exists (e ++ enc)%list. split.
    + by apply writes_seq.
    + cbn. eapply reads_bind; [done|]. by apply (reads_fmap _ (cons i)).
Qed.

Lemma buffers_roundtrip_witness :
  exists enc, writes (forM [IInt16 (-2); IString "chunk"; IBytes []; IBool true] Put) enc /\
    reads (ReadItems [IInt16 (-2); IString "chunk"; IBytes []; IBool true]) enc
      [IInt16 (-2); IString "chunk"; IBytes []; IBool true].
Proof.
  apply buffers_roundtrip. repeat constructor; cbn; unfold in_s, encodable; cbn; lia.
Defined.

(** A buffer that ends inside a fixed-width integer gives no error: the
    integer is read with its missing low-order bytes zero, and the buffer is
    empty afterwards.  Only a buffer that is already empty is an error. *)
Theorem short_read_zero_fills (d : bytes) :
  (0 < length d < 4)%nat ->
  ReadUint32 d = Ret (be_get d * 256 ^ (4 - Z.of_nat (length d))) [].
Proof.
  intros Hd. unfold ReadUint32, buffer_Read.
  destruct d as [|a [|b [|c [|x d]]]]; cbn in *; try lia;
    go_unfold; cbn; unfold be_get; cbn; f_equal; change (Z_of_byte "000") with 0; lia.
Qed.

Lemma short_read_zero_fills_witness : ReadUint32 [Byte.x01; Byte.x02] = Ret 16908288 [].
Proof. apply (short_read_zero_fills [Byte.x01; Byte.x02]). cbn. lia. Defined.
