(* ===== verification/Entities.v ===== *)
(** * Entities: the catalog entities of spi/systemcatalog

    Column and the index a collection of columns yields (column.go, index.go),
    the entities' canonical names (canonicalnames.go, systementity.go), the
    relation predicates (support.go), and the tables: baseTable, Hypertable,
    PgTable and Chunk with their [ApplyChanges] and [ApplyTableSchema].
    A pointer to a value is an [option]; [%d], [%t] and [%s] are printed by
    [show_int], [show_bool] and the identity. *)

From Stdlib Require Import ZArith Lia Sorting.Sorted Sorting.Permutation.
From stdpp Require Import base tactics option list numbers strings pretty gmap sets sorting.
From S2P Require Import Prelude.

Local Open Scope string_scope.

Definition show_int (z : Z) : string := pretty z.
Definition show_bool (b : bool) : string := if b then "true" else "false".

(** ** Names (canonicalnames.go, systementity.go, support.go) *)

Definition quote : string := String (Ascii.ascii_of_nat 34) EmptyString.

Definition MakeRelationKey (schemaName tableName : string) : string :=
  quote ++ schemaName ++ quote ++ "." ++ quote ++ tableName ++ quote.

(** [NewSystemEntity] and the accessors of [baseSystemEntity]. *)
Record SystemEntity : Type := NewSystemEntity {
  SchemaName : string;
  TableName : string;
}.

#[export] Instance SystemEntity_eq_dec : EqDecision SystemEntity.
Proof. solve_decision. Defined.

(** The canonical name is computed once and kept; the names it is made of never
    change. *)
Definition CanonicalName (e : SystemEntity) : string :=
  MakeRelationKey (SchemaName e) (TableName e).

(** The part of a pglogrepl.RelationMessage that the streamer looks at. *)
Record RelationMessage : Type := mkRelationMessage {
  RelationID : Z;
  Namespace : string;
  RelationName : string;
  Columns : list (string * Z);
}.

#[export] Instance RelationMessage_eq_dec : EqDecision RelationMessage.
Proof. solve_decision. Defined.

Definition IsHypertableEvent (relation : RelationMessage) : bool :=
  (Namespace relation =? "_timescaledb_catalog") && (RelationName relation =? "hypertable").

Definition IsChunkEvent (relation : RelationMessage) : bool :=
  (Namespace relation =? "_timescaledb_catalog") && (RelationName relation =? "chunk").

Definition IsVanillaTable (relation : RelationMessage) : bool :=
  negb (Namespace relation =? "_timescaledb_catalog") &&
  negb (Namespace relation =? "_timescaledb_internal").

Definition IsContinuousAggregateHypertable (hypertableName : string) : bool :=
  String.prefix "_materialized_" hypertableName.

Definition isContinuousAggregate (hypertableName : string) (viewSchema viewName : option string) : bool :=
  IsContinuousAggregateHypertable hypertableName &&
  bool_decide (is_Some viewSchema) && bool_decide (is_Some viewName).

(** A relation is at most one of the three kinds the resolver tells apart. *)
Lemma relation_kinds_disjoint r :
  (IsHypertableEvent r = true -> IsChunkEvent r = false /\ IsVanillaTable r = false) /\
  (IsChunkEvent r = true -> IsVanillaTable r = false).
Proof.
  unfold IsHypertableEvent, IsChunkEvent, IsVanillaTable.
  split; intros H; go_bool; repeat match goal with E : _ = _ :> string |- _ => rewrite E end; done.
Qed.

Definition quote_free (s : string) : Prop :=
  Ascii.ascii_of_nat 34 ∉ String.list_ascii_of_string s.

Lemma list_ascii_app s1 s2 :
  String.list_ascii_of_string (s1 ++ s2) =
  (String.list_ascii_of_string s1 ++ String.list_ascii_of_string s2)%list.
Proof.
  induction s1 as [|a s1 IH]; [reflexivity|].
  change (String a s1 ++ s2) with (String a (s1 ++ s2)). cbn. by rewrite IH.
Qed.

Lemma list_ascii_inj s1 s2 :
  String.list_ascii_of_string s1 = String.list_ascii_of_string s2 -> s1 = s2.
Proof.
  intros H. rewrite <- (String.string_of_list_ascii_of_string s1),
    <- (String.string_of_list_ascii_of_string s2). by f_equal.
Qed.

(** Two lists that agree up to the first [x] agree before it. *)
Lemma split_at_first {A} (x : A) l1 l2 r1 r2 :
  x ∉ l1 -> x ∉ l2 -> (l1 ++ x :: r1 = l2 ++ x :: r2)%list -> l1 = l2 /\ r1 = r2.
Proof.
  revert l2. induction l1 as [|a l1 IH]; intros [|b l2] H1 H2 Heq; cbn in *; simplify_eq.
  - done.
  - by destruct (H2 (list_elem_of_here _ _)).
  - by destruct (H1 (list_elem_of_here _ _)).
  - apply not_elem_of_cons in H1 as [_ H1]. apply not_elem_of_cons in H2 as [_ H2].
    edestruct IH; eauto. by subst.
Qed.

Lemma MakeRelationKey_inj s1 t1 s2 t2 :
  quote_free s1 -> quote_free s2 -> quote_free t1 -> quote_free t2 ->
  MakeRelationKey s1 t1 = MakeRelationKey s2 t2 -> s1 = s2 /\ t1 = t2.
Proof.
  intros Hs1 Hs2 Ht1 Ht2 H. apply (f_equal String.list_ascii_of_string) in H.
  unfold MakeRelationKey, quote in H. rewrite !list_ascii_app in H. cbn in H. injection H as H.
  apply split_at_first in H as [Hs H]; [|done|done]. injection H as H.
  apply split_at_first in H as [Ht _]; [|done|done].
  split; by apply list_ascii_inj.
Qed.

(** ** Columns (column.go) *)

(** The attributes of a PgType that [pgType.Equal] compares
    (internal/typemanager/pgtype.go). *)
Record PgType : Type := mkPgType {
  pt_namespace : string;
  pt_name : string;
  pt_kind : string;
  pt_oid : Z;
  pt_category : string;
  pt_arrayType : bool;
  pt_recordType : bool;
  pt_oidArray : Z;
  pt_oidElement : Z;
  pt_oidBase : Z;
  pt_modifiers : Z;
  pt_enumValues : list string;
  pt_delimiter : string;
  pt_schemaType : string;
}.

#[export] Instance PgType_eq_dec : EqDecision PgType.
Proof. solve_decision. Defined.

Definition PgType_Equal (t other : PgType) : bool :=
  (pt_namespace t =? pt_namespace other) &&
  (pt_name t =? pt_name other) &&
  (pt_kind t =? pt_kind other) &&
  (pt_oid t =? pt_oid other)%Z &&
  (pt_category t =? pt_category other) &&
  Bool.eqb (pt_arrayType t) (pt_arrayType other) &&
  (pt_oidArray t =? pt_oidArray other)%Z &&
  (pt_oidElement t =? pt_oidElement other)%Z &&
  Bool.eqb (pt_recordType t) (pt_recordType other) &&
  (pt_oidBase t =? pt_oidBase other)%Z &&
  (pt_modifiers t =? pt_modifiers other)%Z &&
  (pt_delimiter t =? pt_delimiter other) &&
  (pt_schemaType t =? pt_schemaType other) &&
  bool_decide (pt_enumValues t = pt_enumValues other).

Module Col.

Record Column : Type := NewIndexColumn {
  name : string;
  dataType : Z;
  modifiers : Z;
  pgType : PgType;
  nullable : bool;
  primaryKey : bool;
  keySeq : option Z;
  defaultValue : option string;
  replicaIdent : bool;
  indexName : option string;
  sortOrder : string;
  nullsOrder : string;
  dimension : bool;
  dimAligned : bool;
  dimType : option string;
  dimSeq : option Z;
  maxCharLength : option Z;
}.

#[global] Instance Column_eq_dec : EqDecision Column.
Proof. solve_decision. Defined.

Definition NewColumn (name : string) (dataType modifiers : Z) (pgType : PgType)
    (nullable : bool) (defaultValue : option string) : Column :=
  NewIndexColumn name dataType modifiers pgType nullable false None defaultValue false None
    "ASC" "NULLS LAST" false false None None None.

(** [(a == nil && b == nil) || (a != nil && b != nil && *a == *b)] *)
Definition ptr_eqb {A} (eqb : A -> A -> bool) (a b : option A) : bool :=
  match a, b with
  | None, None => true
  | Some x, Some y => eqb x y
  | _, _ => false
  end.

Definition equalsExceptName (c other : Column) : bool :=
  PgType_Equal (pgType c) (pgType other) &&
  (dataType c =? dataType other)%Z &&
  (modifiers c =? modifiers other)%Z &&
  Bool.eqb (nullable c) (nullable other) &&
  Bool.eqb (primaryKey c) (primaryKey other) &&
  Bool.eqb (replicaIdent c) (replicaIdent other) &&
  ptr_eqb Z.eqb (keySeq c) (keySeq other) &&
  ptr_eqb String.eqb (defaultValue c) (defaultValue other) &&
  ptr_eqb String.eqb (indexName c) (indexName other) &&
  Bool.eqb (dimension c) (dimension other) &&
  Bool.eqb (dimAligned c) (dimAligned other) &&
  ptr_eqb String.eqb (dimType c) (dimType other) &&
  ptr_eqb Z.eqb (dimSeq c) (dimSeq other) &&
  ptr_eqb Z.eqb (maxCharLength c) (maxCharLength other).

Definition equals (c other : Column) : bool :=
  (name c =? name other) &&
  PgType_Equal (pgType c) (pgType other) &&
  (dataType c =? dataType other)%Z &&
  (modifiers c =? modifiers other)%Z &&
  Bool.eqb (nullable c) (nullable other) &&
  Bool.eqb (primaryKey c) (primaryKey other) &&
  Bool.eqb (replicaIdent c) (replicaIdent other) &&
  ptr_eqb Z.eqb (keySeq c) (keySeq other) &&
  ptr_eqb String.eqb (defaultValue c) (defaultValue other) &&
  ptr_eqb String.eqb (indexName c) (indexName other) &&
  Bool.eqb (dimension c) (dimension other) &&
  Bool.eqb (dimAligned c) (dimAligned other) &&
  ptr_eqb String.eqb (dimType c) (dimType other) &&
  ptr_eqb Z.eqb (dimSeq c) (dimSeq other) &&
  ptr_eqb Z.eqb (maxCharLength c) (maxCharLength other).

(** [if test { differences[key] = text }] *)
Definition note (test : bool) (key text : string) (d : gmap string string) : gmap string string :=
  if test then <[ key := text ]> d else d.

Definition arrow (o n : string) : string := o ++ "=>" ++ n.

Definition nil_or (show : string) (p : option string) : string := default show p.

(** Exactly one of the two pointers is nil. *)
Definition one_nil {A} (a b : option A) : bool :=
  (bool_decide (a = None) && bool_decide (is_Some b)) ||
  (bool_decide (is_Some a) && bool_decide (b = None)).

Definition show_ptr_int (p : option Z) : string := nil_or "<nil>" (show_int <$> p).
Definition show_ptr_str (p : option string) : string := nil_or "<nil>" p.

(** The blocks for [dimSeq] and [maxCharLength] assign the new value to the
    variable of the old one and leave the new side at "<nil>". *)
Definition show_overwritten (o n : option Z) : string :=
  arrow (match n with Some v => show_int v | None => show_ptr_int o end) "<nil>".

Definition differences (c new : Column) : gmap string string :=
  note (one_nil (maxCharLength c) (maxCharLength new)) "maxCharLength"
    (show_overwritten (maxCharLength c) (maxCharLength new)) (
  note (one_nil (dimSeq c) (dimSeq new)) "dimSeq"
    (show_overwritten (dimSeq c) (dimSeq new)) (
  note (one_nil (dimType c) (dimType new)) "dimType"
    (arrow (show_ptr_str (dimType c)) (show_ptr_str (dimType new))) (
  note (negb (Bool.eqb (dimAligned c) (dimAligned new))) "dimAligned"
    (arrow (show_bool (dimAligned c)) (show_bool (dimAligned new))) (
  note (negb (Bool.eqb (dimension c) (dimension new))) "dimension"
    (arrow (show_bool (dimension c)) (show_bool (dimension new))) (
  note (one_nil (defaultValue c) (defaultValue new)) "defaultValue"
    (arrow (show_ptr_str (defaultValue c)) (show_ptr_str (defaultValue new))) (
  note (negb (Bool.eqb (replicaIdent c) (replicaIdent new))) "replicaIdent"
    (arrow (show_bool (replicaIdent c)) (show_bool (replicaIdent new))) (
  note (one_nil (indexName c) (indexName new)) "indexName"
    (arrow (show_ptr_str (indexName c)) (show_ptr_str (indexName new))) (
  note (one_nil (keySeq c) (keySeq new)) "keySeq"
    (arrow (show_ptr_int (keySeq c)) (show_ptr_int (keySeq new))) (
  note (negb (Bool.eqb (primaryKey c) (primaryKey new))) "primaryKey"
    (arrow (show_bool (primaryKey c)) (show_bool (primaryKey new))) (
  note (negb (Bool.eqb (nullable c) (nullable new))) "nullable"
    (arrow (show_bool (nullable c)) (show_bool (nullable new))) (
  note (negb (PgType_Equal (pgType c) (pgType new))) "pgType"
    (arrow (pt_name (pgType c)) (pt_name (pgType new))) (
  note (negb (modifiers c =? modifiers new)%Z) "modifiers"
    (arrow (show_int (modifiers c)) (show_int (modifiers new))) (
  note (negb (dataType c =? dataType new)%Z) "dataType"
    (arrow (show_int (dataType c)) (show_int (dataType new))) (
  note (negb (name c =? name new)) "name"
    (arrow (name c) (name new)) ∅)))))))))))))).

(** [Column.String], which [%+v] prints. *)
Definition String_ (c : Column) : string :=
  "{name:" ++ name c ++ " dataType:" ++ show_int (dataType c) ++
  " modifiers:" ++ show_int (modifiers c) ++ " pgType:" ++ pt_name (pgType c) ++
  " nullable:" ++ show_bool (nullable c) ++ " primaryKey:" ++ show_bool (primaryKey c) ++
  " keySeq:" ++ show_ptr_int (keySeq c) ++ " indexName:" ++ show_ptr_str (indexName c) ++
  " replicaIdent:" ++ show_bool (replicaIdent c) ++
  " defaultValue:" ++ show_ptr_str (defaultValue c) ++
  " dimension:" ++ show_bool (dimension c) ++ " dimAligned:" ++ show_bool (dimAligned c) ++
  " dimType:" ++ show_ptr_str (dimType c) ++ " dimSeq:" ++ show_ptr_int (dimSeq c) ++
  "maxCharLength:" ++ show_ptr_int (maxCharLength c) ++ "}".

(** What [equals] does not look at. *)
Definition forget_order (c : Column) : Column :=
  NewIndexColumn (name c) (dataType c) (modifiers c) (pgType c) (nullable c) (primaryKey c)
    (keySeq c) (defaultValue c) (replicaIdent c) (indexName c) "ASC" "NULLS LAST"
    (dimension c) (dimAligned c) (dimType c) (dimSeq c) (maxCharLength c).

Lemma PgType_Equal_iff t u : PgType_Equal t u = true <-> t = u.
Proof.
  unfold PgType_Equal. split.
  - intros H. destruct t, u; cbn in *. go_bool.
    rewrite !Bool.eqb_true_iff in *. by subst.
  - intros ->. rewrite !String.eqb_refl, !Z.eqb_refl, !Bool.eqb_reflx.
    rewrite bool_decide_true; done.
Qed.

Lemma ptr_eqb_iff {A} (eqb : A -> A -> bool) (Heqb : forall x y, eqb x y = true <-> x = y) a b :
  ptr_eqb eqb a b = true <-> a = b.
Proof.
  destruct a, b; cbn; [rewrite Heqb|..]; split; try congruence.
Qed.

Ltac to_props :=
  rewrite ?andb_true_iff, ?String.eqb_eq, ?Z.eqb_eq, ?Bool.eqb_true_iff, ?PgType_Equal_iff,
    ?(ptr_eqb_iff _ Z.eqb_eq), ?(ptr_eqb_iff _ String.eqb_eq) in *.

Lemma equals_iff c d : equals c d = true <-> forget_order c = forget_order d.
Proof.
  unfold equals, forget_order. to_props. split.
  - intros H. destruct_and!. f_equal; assumption.
  - intros H. injection H. intros. repeat split; assumption.
Qed.

Lemma equals_refl c : equals c c = true.
Proof. by apply equals_iff. Qed.

Lemma equalsExceptName_iff c d :
  equals c d = true <-> name c = name d /\ equalsExceptName c d = true.
Proof. unfold equals, equalsExceptName. to_props. tauto. Qed.

End Col.

Abbreviation Column := Col.Column.

(** ** Indexes over columns (column.go, index.go) *)

Record Index : Type := newIndex {
  idx_name : string;
  idx_columns : list Column;
  idx_primaryKey : bool;
  idx_replicaIdentity : bool;
}.

Section StableSort.
Context {A : Type} (key : A -> Z).

Fixpoint insert_by (x : A) (l : list A) : list A :=
  match l with
  | [] => [x]
  | y :: l' => if (key x <=? key y)%Z then x :: l else y :: insert_by x l'
  end.

(** A stable sort is determined by its input: the sorted permutation in which
    elements with equal keys keep their order. *)
Definition sort_by (l : list A) : list A := foldr insert_by [] l.

Definition key_le (x y : A) : Prop := (key x <= key y)%Z.

Lemma insert_by_perm x l : insert_by x l ≡ₚ x :: l.
Proof.
  induction l as [|y l IH]; cbn; [done|]. case_match; [done|].
  rewrite IH. apply Permutation_swap.
Qed.

Lemma sort_by_perm l : sort_by l ≡ₚ l.
Proof. induction l as [|x l IH]; cbn; [done|]. by rewrite insert_by_perm, IH. Qed.

Lemma insert_by_sorted x l : StronglySorted key_le l -> StronglySorted key_le (insert_by x l).
Proof.
  induction 1 as [|y l Hl IH Hy]; cbn; [repeat constructor|]. unfold key_le in *.
  destruct (Z.leb_spec (key x) (key y)).
  - constructor; [by constructor|]. constructor; [lia|].
    eapply Forall_impl; [exact Hy|]. cbn. lia.
  - constructor; [done|]. rewrite insert_by_perm. constructor; [lia|done].
Qed.

Lemma sort_by_sorted l : StronglySorted key_le (sort_by l).
Proof. induction l; cbn; [constructor|]. by apply insert_by_sorted. Qed.

Lemma insert_by_stable x l k :
  StronglySorted key_le l ->
  filter (fun y => key y = k) (insert_by x l) = filter (fun y => key y = k) (x :: l).
Proof.
  induction 1 as [|y l Hl IH Hy]; cbn [insert_by]; [done|].
  destruct (Z.leb_spec (key x) (key y)); [done|].
  rewrite filter_cons, IH, !filter_cons.
  repeat case_decide; try done. lia.
Qed.

Lemma sort_by_stable l k :
  filter (fun y => key y = k) (sort_by l) = filter (fun y => key y = k) l.
Proof.
  induction l as [|x l IH]; [done|]. cbn [sort_by foldr].
  rewrite insert_by_stable by apply sort_by_sorted. rewrite !filter_cons. by rewrite <- IH.
Qed.
End StableSort.

Module Cols.

(** [slices.SortStableFunc] by a sequence number behind a pointer: with two or
    more columns every column is compared, and a nil pointer panics. *)
Definition sort_by_seq (seq : Column -> option Z) (cols : list Column) : crash + list Column :=
  if (1 <? length cols)%nat && existsb (fun c => bool_decide (seq c = None)) cols
  then inl PanicNilDereference
  else inr (sort_by (fun c => default 0%Z (seq c)) cols).

Definition HasPrimaryKey (c : list Column) : bool := existsb Col.primaryKey c.

Definition HasReplicaIdentity (c : list Column) : bool := existsb Col.replicaIdent c.

(** The index made of the selected columns; its name is the [indexName] of the
    first one. *)
Definition key_index (sel : Column -> bool) (isPk isReplicaIdent : bool) (c : list Column) :
    crash + option Index :=
  match sort_by_seq Col.keySeq (List.filter sel c) with
  | inl e => inl e
  | inr [] => inl PanicIndexOutOfRange
  | inr ((first :: _) as sorted) =>
      match Col.indexName first with
      | None => inl PanicNilDereference
      | Some n => inr (Some (newIndex n sorted isPk isReplicaIdent))
      end
  end.

Definition PrimaryKeyIndex (c : list Column) : crash + option Index :=
  if negb (HasPrimaryKey c) then inr None
  else key_index Col.primaryKey true false c.

Definition ReplicaIdentityIndex (c : list Column) : crash + option Index :=
  if negb (HasReplicaIdentity c) then inr None
  else key_index Col.replicaIdent false true c.

Definition SnapshotIndex (c : list Column) : crash + option Index :=
  match PrimaryKeyIndex c with
  | inl e => inl e
  | inr (Some index) => inr (Some index)
  | inr None =>
      let dimensionColumns := List.filter Col.dimension c in
      if (length dimensionColumns =? 0)%nat then inr None
      else match sort_by_seq Col.dimSeq dimensionColumns with
           | inl e => inl e
           | inr sorted => inr (Some (newIndex "dimensions" sorted false false))
           end
  end.

(** Columns as the catalog query delivers them: key columns carry a sequence
    number and an index name, dimension columns a sequence number. *)
Definition described (c : Column) : Prop :=
  (Col.primaryKey c = true -> is_Some (Col.keySeq c) /\ is_Some (Col.indexName c)) /\
  (Col.dimension c = true -> is_Some (Col.dimSeq c)).

(** [sorted] lists the columns that [sel] selects, ordered by [seq], columns of
    the same sequence number in table order. *)
Definition ordered_selection (sel : Column -> bool) (seq : Column -> option Z)
    (cols sorted : list Column) : Prop :=
  sorted ≡ₚ List.filter sel cols /\
  StronglySorted (key_le (fun c => default 0%Z (seq c))) sorted /\
  forall k, filter (fun c => default 0%Z (seq c) = k) sorted =
       filter (fun c => default 0%Z (seq c) = k) (List.filter sel cols).

Lemma sort_by_seq_spec (sel : Column -> bool) seq cols :
  (forall c, c ∈ cols -> sel c = true -> is_Some (seq c)) ->
  exists sorted, sort_by_seq seq (List.filter sel cols) = inr sorted /\
    ordered_selection sel seq cols sorted.
Proof.
  intros Hseq. unfold sort_by_seq, ordered_selection.
  assert (existsb (fun c => bool_decide (seq c = None)) (List.filter sel cols) = false) as ->.
  { apply not_true_iff_false. intros Hex. apply existsb_exists in Hex as (c & Hin & Hb).
    apply filter_In in Hin as [Hin Hsel]. go_bool.
    destruct (Hseq c) as [z Hz]; [by apply list_elem_of_In|done|]. congruence. }
  rewrite andb_false_r. eexists. split; [done|].
  split; [apply sort_by_perm|]. split; [apply sort_by_sorted|intros; apply sort_by_stable].
Qed.

Lemma key_index_spec sel isPk isRi cols :
  existsb sel cols = true ->
  (forall c, c ∈ cols -> sel c = true -> is_Some (Col.keySeq c) /\ is_Some (Col.indexName c)) ->
  exists n sorted, key_index sel isPk isRi cols = inr (Some (newIndex n sorted isPk isRi)) /\
    ordered_selection sel Col.keySeq cols sorted.
Proof.
  intros Hex Hd. unfold key_index.
  destruct (sort_by_seq_spec sel Col.keySeq cols) as (sorted & -> & Hsort).
  { intros c Hc Hsel. by destruct (Hd c Hc Hsel). }
  apply existsb_exists in Hex as (c & Hin & Hsel). pose proof Hsort as (Hperm & _ & _).
  destruct sorted as [|first rest].
  { apply Permutation_nil in Hperm. exfalso.
    assert (In c (List.filter sel cols)) as Hf by (apply filter_In; auto).
    rewrite Hperm in Hf. done. }
  assert (In first (List.filter sel cols)) as Hf.
  { apply (Permutation_in _ Hperm). by left. }
  apply filter_In in Hf as [Hf1 Hf2]. apply list_elem_of_In in Hf1.
  destruct (Hd _ Hf1 Hf2) as [_ [n Hn]]. rewrite Hn. eauto.
Qed.

Lemma existsb_filter_length {A} (f : A -> bool) l :
  (length (List.filter f l) =? 0)%nat = negb (existsb f l).
Proof. induction l as [|x l IH]; cbn; [done|]. by destruct (f x). Qed.

(** The snapshot index of a table whose columns are described as the catalog
    query does: it never crashes, it is the primary key when there is one (the
    key columns in key order), otherwise the hypertable's dimensions in
    dimension order, and it is absent exactly when the table has neither. *)
Theorem snapshot_index_spec (cols : list Column) :
  (forall c, c ∈ cols -> described c) ->
  if HasPrimaryKey cols
  then exists n sorted, SnapshotIndex cols = inr (Some (newIndex n sorted true false)) /\
       ordered_selection Col.primaryKey Col.keySeq cols sorted
  else if existsb Col.dimension cols
  then exists sorted, SnapshotIndex cols = inr (Some (newIndex "dimensions" sorted false false)) /\
       ordered_selection Col.dimension Col.dimSeq cols sorted
  else SnapshotIndex cols = inr None.
Proof.
  intros Hd. unfold SnapshotIndex, PrimaryKeyIndex.
  destruct (HasPrimaryKey cols) eqn:Hpk; cbn [negb].
  - destruct (key_index_spec Col.primaryKey true false cols) as (n & sorted & -> & ?);
      [done| |eauto]. intros c Hc. by apply Hd.
  - rewrite existsb_filter_length. destruct (existsb Col.dimension cols) eqn:Hdim; cbn [negb]; [|done].
    destruct (sort_by_seq_spec Col.dimension Col.dimSeq cols) as (sorted & -> & ?); [|eauto].
    intros c Hc. by apply Hd.
Qed.

Definition int4 : PgType :=
  mkPgType "pg_catalog" "int4" "b" 23 "N" false false 1007 0 0 (-1) [] "," "INT32".

Definition key_column (n : string) (seq : Z) : Column :=
  Col.NewIndexColumn n 23 (-1) int4 false true (Some seq) None false (Some "pk") "ASC" "NULLS LAST"
    false false None None None.

Lemma snapshot_index_spec_witness :
  let cols := [key_column "b" 2; Col.NewColumn "v" 23 (-1) int4 true None; key_column "a" 1] in
  HasPrimaryKey cols = true /\
  exists n sorted, SnapshotIndex cols = inr (Some (newIndex n sorted true false)) /\
    ordered_selection Col.primaryKey Col.keySeq cols sorted.
Proof.
  intros cols. split; [reflexivity|].
  apply (snapshot_index_spec cols). intros c Hc.
  repeat (apply elem_of_cons in Hc as [->|Hc];
    [split; intros H; try discriminate H; repeat split; eexists; reflexivity|]).
  by apply not_elem_of_nil in Hc.
Defined.

End Cols.

(** ** Tables (basetable.go) *)

Module BaseTable.

Record baseTable : Type := mkBaseTable {
  entity : SystemEntity;
  tableColumns : list Column;
  replicaIdentity : string;
  columns : list Column;
}.

#[global] Instance baseTable_eq_dec : EqDecision baseTable.
Proof. solve_decision. Defined.

Definition newBaseTable (schemaName tableName replicaIdentity : string) : baseTable :=
  mkBaseTable (NewSystemEntity schemaName tableName) [] replicaIdentity [].

Definition ApplyChanges (bt : baseTable) (schemaName tableName replicaIdentity : string) : baseTable :=
  mkBaseTable (NewSystemEntity schemaName tableName) (tableColumns bt) replicaIdentity (columns bt).

(** [fmt.Sprintf("%+v", m)] of a map: the entries in key order. *)
Definition key_order (p q : string * string) : Prop := String.leb (fst p) (fst q) = true.

#[export] Instance key_order_dec : forall p q, Decision (key_order p q).
Proof. intros p q. unfold key_order. solve_decision. Defined.

Definition show_map (m : gmap string string) : string :=
  "map[" ++ String.concat " " (map (fun kv => fst kv ++ ":" ++ snd kv)
                                (merge_sort key_order (map_to_list m))) ++ "]".

(** The look-ahead: some later pair of columns at the same position agrees. *)
Definition look_ahead (old new : list Column) (i : nat) : bool :=
  existsb (fun p => Col.equals (fst p) (snd p)) (zip (drop i old) (drop i new)).

Definition renamed (c1 c2 : Column) : string := "name:" ++ Col.arrow (Col.name c1) (Col.name c2).
Definition dropped (c : Column) : string := "dropped: " ++ Col.String_ c.
Definition added (c : Column) : string := "added: " ++ Col.String_ c.

(** The rounds of [for i, c1 := range oldColumns] over the columns left. *)
Fixpoint compare_columns (old new : list Column) (i : nat) (rest : list Column) (newIdx : nat)
    (differences : gmap string string) : nat * gmap string string :=
  match rest with
  | [] => (newIdx, differences)
  | c1 :: rest' =>
      match new !! newIdx with
      | None => compare_columns old new (S i) rest' newIdx
                  (<[ Col.name c1 := dropped c1 ]> differences)
      | Some c2 =>
          if Col.equals c1 c2
          then compare_columns old new (S i) rest' (S newIdx) differences
          else
            let '(handled, newIdx, differences) :=
              if Col.equalsExceptName c1 c2 then
                if (S newIdx =? length new)%nat
                then (true, if (i <? length new)%nat then S newIdx else newIdx,
                      <[ Col.name c1 := renamed c1 c2 ]> differences)
                else if look_ahead old new i
                then (true, S newIdx, <[ Col.name c2 := renamed c1 c2 ]> differences)
                else (false, newIdx, differences)
              else (false, newIdx, differences) in
            let '(handled, differences) :=
              match old !! S i with
              | Some next =>
                  if Col.equals next c2 then (true, <[ Col.name c1 := dropped c1 ]> differences)
                  else (handled, differences)
              | None => (handled, differences)
              end in
            if (handled : bool)
            then compare_columns old new (S i) rest' newIdx differences
            else compare_columns old new (S i) rest' (S newIdx)
                   (<[ Col.name c1 := show_map (Col.differences c1 c2) ]> differences)
      end
  end.

Definition ApplyTableSchema (bt : baseTable) (newColumns : list Column) :
    baseTable * gmap string string :=
  let oldColumns := columns bt in
  let '(newIdx, differences) := compare_columns oldColumns newColumns 0 oldColumns 0 ∅ in
  (mkBaseTable (entity bt) newColumns (replicaIdentity bt) newColumns,
   fold_left (fun d c => <[ Col.name c := added c ]> d) (drop newIdx newColumns) differences).

Lemma insert_all_nonempty (l : list Column) (d : gmap string string) :
  fold_left (fun d c => <[ Col.name c := added c ]> d) l d = ∅ -> l = [] /\ d = ∅.
Proof.
  revert d. induction l as [|c l IH]; intros d H; cbn in *; [done|].
  apply IH in H as [_ H]. by apply insert_non_empty in H.
Qed.

(** Differences already found are never lost. *)
Lemma compare_columns_keeps old new i rest newIdx d :
  d <> ∅ -> snd (compare_columns old new i rest newIdx d) <> ∅.
Proof.
  revert i newIdx d. induction rest as [|c1 rest IH]; intros i newIdx d Hd; [done|].
  cbn [compare_columns]. repeat case_match; simplify_eq; apply IH;
    first [assumption | apply insert_non_empty].
Qed.

Lemma compare_columns_none old new i rest newIdx newIdx' :
  compare_columns old new i rest newIdx ∅ = (newIdx', ∅) ->
  newIdx' = newIdx + length rest /\
  Forall2 (fun c1 c2 => Col.equals c1 c2 = true) rest (take (length rest) (drop newIdx new)).
Proof.
  revert i newIdx. induction rest as [|c1 rest IH]; intros i newIdx H.
  { cbn in *. simplify_eq. rewrite Nat.add_0_r, take_0. by split. }
  assert (forall i d n, d <> ∅ -> compare_columns old new i rest n d <> (newIdx', ∅)) as Hno.
  { intros i' d n Hd Heq. apply (compare_columns_keeps old new i' rest n) in Hd. by rewrite Heq in Hd. }
  cbn [compare_columns] in H. destruct (new !! newIdx) as [c2|] eqn:Hnew.
  - destruct (Col.equals c1 c2) eqn:He.
    + apply IH in H as [-> Hall]. split; [cbn; lia|].
      rewrite (drop_S _ _ _ Hnew). cbn. by constructor.
    + exfalso. repeat case_match; simplify_eq;
        eapply Hno; try exact H; apply insert_non_empty.
  - exfalso. eapply Hno; [|exact H]. apply insert_non_empty.
Qed.

Lemma compare_columns_same old new i pre rest :
  Forall2 (fun c1 c2 => Col.equals c1 c2 = true) rest (drop pre new) ->
  compare_columns old new i rest pre ∅ = (pre + length rest, ∅).
Proof.
  revert i pre. induction rest as [|c1 rest IH]; intros i pre H; cbn [compare_columns].
  - by rewrite Nat.add_0_r.
  - destruct (drop pre new) as [|c2 rest2] eqn:Hd; inversion H as [|? ? ? ? Heq Hrest]; subst.
    assert (new !! pre = Some c2) as Hl.
    { rewrite <- (Nat.add_0_r pre), <- lookup_drop, Hd. done. }
    rewrite Hl, Heq, IH; [f_equal; cbn; lia|].
    rewrite (drop_S _ _ _ Hl) in Hd. by simplify_eq.
Qed.

Lemma equals_all l1 l2 :
  Forall2 (fun c1 c2 => Col.equals c1 c2 = true) l1 l2 <->
  map Col.forget_order l1 = map Col.forget_order l2.
Proof.
  rewrite list_eq_Forall2, Forall2_fmap.
  split; intros H; apply (Forall2_impl _ _ _ _ H); intros c d; apply Col.equals_iff.
Qed.

(** Schema change detection is exact: applying a table schema installs it
    and keeps the table's identity, and it reports no change precisely when the
    new columns are, one by one and in order, equal to the known ones in
    everything but sort and nulls order. *)
Theorem apply_table_schema_exact (bt : baseTable) (newColumns : list Column) :
  let '(bt', changes) := ApplyTableSchema bt newColumns in
  columns bt' = newColumns /\ tableColumns bt' = newColumns /\ entity bt' = entity bt /\
  replicaIdentity bt' = replicaIdentity bt /\
  (changes = ∅ <->
   map Col.forget_order (columns bt) = map Col.forget_order newColumns).
Proof.
  unfold ApplyTableSchema.
  destruct (compare_columns _ _ _ _ _ _) as [newIdx d] eqn:E. cbn.
  split; [done|]. split; [done|]. split; [done|]. split; [done|]. rewrite <- equals_all. split.
  - intros H. apply insert_all_nonempty in H as [Hd ->].
    apply compare_columns_none in E as [-> E]. rewrite drop_0 in E. cbn in Hd.
    pose proof (f_equal length Hd) as Hlen. rewrite length_drop in Hlen. cbn in Hlen.
    rewrite take_ge in E by lia. done.
  - intros H. rewrite compare_columns_same in E by done. simplify_eq.
    cbn. rewrite (Forall2_length _ _ _ H), drop_all. done.
Qed.

End BaseTable.

Abbreviation baseTable := BaseTable.baseTable.

(** ** Hypertables (hypertable.go) *)

Module Hyper.

Record Hypertable : Type := mkHypertable {
  table : baseTable;
  id : Z;
  associatedSchemaName : string;
  associatedTablePrefix : string;
  compressedHypertableId : option Z;
  compressionState : Z;
  continuousAggregate : bool;
  viewSchema : option string;
  viewName : option string;
}.

#[global] Instance Hypertable_eq_dec : EqDecision Hypertable.
Proof. solve_decision. Defined.

Definition NewHypertable (id : Z) (schemaName tableName associatedSchemaName associatedTablePrefix : string)
    (compressedHypertableId : option Z) (compressionState : Z) (viewSchema viewName : option string)
    (replicaIdentity : string) : Hypertable :=
  mkHypertable (BaseTable.newBaseTable schemaName tableName replicaIdentity) id
    associatedSchemaName associatedTablePrefix compressedHypertableId compressionState
    (isContinuousAggregate tableName viewSchema viewName) viewSchema viewName.

Definition entity (h : Hypertable) : SystemEntity := BaseTable.entity (table h).
Definition schemaName (h : Hypertable) : string := SchemaName (entity h).
Definition tableName (h : Hypertable) : string := TableName (entity h).
Definition canonicalName (h : Hypertable) : string := CanonicalName (entity h).

Definition IsCompressionEnabled (h : Hypertable) : bool := (compressionState h =? 1)%Z.
Definition IsCompressedTable (h : Hypertable) : bool := (compressionState h =? 2)%Z.
Definition IsContinuousAggregate (h : Hypertable) : bool := continuousAggregate h.

(** Both names are dereferenced without a check. *)
Definition CanonicalContinuousAggregateName (h : Hypertable) : crash + string :=
  match viewSchema h, viewName h with
  | Some s, Some n => inr (MakeRelationKey s n)
  | _, _ => inl PanicNilDereference
  end.

(** [nil] and the empty slice are both the empty list. *)
Definition KeyIndexColumns (h : Hypertable) : crash + list Column :=
  match Cols.SnapshotIndex (BaseTable.columns (table h)) with
  | inl e => inl e
  | inr None => inr []
  | inr (Some index) => inr (idx_columns index)
  end.

Definition differences (h new : Hypertable) : gmap string string :=
  Col.note (negb (BaseTable.replicaIdentity (table h) =? BaseTable.replicaIdentity (table new)))
    "replicaIdentity"
    (Col.arrow (BaseTable.replicaIdentity (table h)) (BaseTable.replicaIdentity (table new))) (
  Col.note (negb (compressionState h =? compressionState new)%Z) "compressionState"
    (Col.arrow (show_int (compressionState h)) (show_int (compressionState new))) (
  Col.note (Col.one_nil (compressedHypertableId h) (compressedHypertableId new)) "compressedHypertableId"
    (Col.arrow (Col.show_ptr_int (compressedHypertableId h)) (Col.show_ptr_int (compressedHypertableId new))) (
  Col.note (negb (associatedTablePrefix h =? associatedTablePrefix new)) "associatedTablePrefix"
    (Col.arrow (associatedTablePrefix h) (associatedTablePrefix new)) (
  Col.note (negb (associatedSchemaName h =? associatedSchemaName new)) "associatedSchemaName"
    (Col.arrow (associatedSchemaName h) (associatedSchemaName new)) (
  Col.note (negb (tableName h =? tableName new)) "hypertableName"
    (Col.arrow (tableName h) (tableName new)) (
  Col.note (negb (schemaName h =? schemaName new)) "schemaName"
    (Col.arrow (schemaName h) (schemaName new)) (
  Col.note (negb (id h =? id new)%Z) "id" (Col.arrow (show_int (id h)) (show_int (id new))) ∅))))))).

(** The copy leaves [continuousAggregate], [viewSchema] and [viewName] at their
    zero values. *)
Definition ApplyChanges (h : Hypertable) (schemaName tableName associatedSchemaName associatedTablePrefix : string)
    (compressedHypertableId : option Z) (compressionState : Z) (replicaIdentity : string) :
    Hypertable * gmap string string :=
  let h2 := mkHypertable (BaseTable.ApplyChanges (table h) schemaName tableName replicaIdentity)
              (id h) associatedSchemaName associatedTablePrefix compressedHypertableId
              compressionState false None None in
  (h2, differences h h2).

(** [h.ApplyTableSchema(columns)], which the embedded base table provides. *)
Definition ApplyTableSchema (h : Hypertable) (newColumns : list Column) : Hypertable * gmap string string :=
  let '(bt, changes) := BaseTable.ApplyTableSchema (table h) newColumns in
  (mkHypertable bt (id h) (associatedSchemaName h) (associatedTablePrefix h) (compressedHypertableId h)
     (compressionState h) (continuousAggregate h) (viewSchema h) (viewName h), changes).

End Hyper.

Abbreviation Hypertable := Hyper.Hypertable.

(** ** Vanilla tables (pgtable.go) *)

Module Vanilla.

Record PgTable : Type := mkPgTable {
  table : baseTable;
  relId : Z;
}.

#[global] Instance PgTable_eq_dec : EqDecision PgTable.
Proof. solve_decision. Defined.

Definition NewPgTable (relId : Z) (schemaName tableName replicaIdentity : string) : PgTable :=
  mkPgTable (BaseTable.newBaseTable schemaName tableName replicaIdentity) relId.

Definition entity (t : PgTable) : SystemEntity := BaseTable.entity (table t).
Definition canonicalName (t : PgTable) : string := CanonicalName (entity t).

Definition KeyIndexColumns (t : PgTable) : crash + list Column :=
  match Cols.PrimaryKeyIndex (BaseTable.columns (table t)) with
  | inl e => inl e
  | inr None => inr []
  | inr (Some index) => inr (idx_columns index)
  end.

Definition differences (t new : PgTable) : gmap string string :=
  Col.note (negb (BaseTable.replicaIdentity (table t) =? BaseTable.replicaIdentity (table new)))
    "replicaIdentity"
    (Col.arrow (BaseTable.replicaIdentity (table t)) (BaseTable.replicaIdentity (table new))) (
  Col.note (negb (TableName (entity t) =? TableName (entity new))) "hypertableName"
    (Col.arrow (TableName (entity t)) (TableName (entity new))) (
  Col.note (negb (SchemaName (entity t) =? SchemaName (entity new))) "schemaName"
    (Col.arrow (SchemaName (entity t)) (SchemaName (entity new))) (
  Col.note (negb (relId t =? relId new)%Z) "relId"
    (Col.arrow (show_int (relId t)) (show_int (relId new))) ∅))).

Definition ApplyChanges (t : PgTable) (schemaName tableName replicaIdentity : string) :
    PgTable * gmap string string :=
  let t2 := mkPgTable (BaseTable.ApplyChanges (table t) schemaName tableName replicaIdentity) (relId t) in
  (t2, differences t t2).

Definition ApplyTableSchema (t : PgTable) (newColumns : list Column) : PgTable * gmap string string :=
  let '(bt, changes) := BaseTable.ApplyTableSchema (table t) newColumns in
  (mkPgTable bt (relId t), changes).

End Vanilla.

Abbreviation PgTable := Vanilla.PgTable.

(** ** Chunks (chunk.go) *)

Module Chnk.

Record Chunk : Type := mkChunk {
  entity : SystemEntity;
  id : Z;
  hypertableId : Z;
  compressedChunkId : option Z;
  dropped : bool;
  status : Z;
  compressed : bool;
}.

#[global] Instance Chunk_eq_dec : EqDecision Chunk.
Proof. solve_decision. Defined.

Definition NewChunk (id hypertableId : Z) (schemaName tableName : string) (dropped : bool) (status : Z)
    (compressedChunkId : option Z) : Chunk :=
  mkChunk (NewSystemEntity schemaName tableName) id hypertableId compressedChunkId dropped status
    (String.prefix "compress_" tableName).

Definition canonicalName (c : Chunk) : string := CanonicalName (entity c).

Definition IsPartiallyCompressed (c : Chunk) : bool := (Z.land (status c) 8 =? 8)%Z.
Definition IsCompressed (c : Chunk) : bool := compressed c.

Definition differences (c new : Chunk) : gmap string string :=
  Col.note (negb (status c =? status new)%Z) "status"
    (Col.arrow (show_int (status c)) (show_int (status new))) (
  Col.note (negb (Bool.eqb (dropped c) (dropped new))) "dropped"
    (Col.arrow (show_bool (dropped c)) (show_bool (dropped new))) (
  Col.note (Col.one_nil (compressedChunkId c) (compressedChunkId new)) "compressedChunkId"
    (Col.arrow (Col.show_ptr_int (compressedChunkId c)) (Col.show_ptr_int (compressedChunkId new))) (
  Col.note (negb (TableName (entity c) =? TableName (entity new))) "tableName"
    (Col.arrow (TableName (entity c)) (TableName (entity new))) (
  Col.note (negb (SchemaName (entity c) =? SchemaName (entity new))) "schemaName"
    (Col.arrow (SchemaName (entity c)) (SchemaName (entity new))) (
  Col.note (negb (hypertableId c =? hypertableId new)%Z) "hypertableId"
    (Col.arrow (show_int (hypertableId c)) (show_int (hypertableId new))) (
  Col.note (negb (id c =? id new)%Z) "id" (Col.arrow (show_int (id c)) (show_int (id new))) ∅)))))).

(** The copy leaves [compressed] at its zero value. *)
Definition ApplyChanges (c : Chunk) (schemaName tableName : string) (dropped : bool) (status : Z)
    (compressedChunkId : option Z) : Chunk * gmap string string :=
  let c2 := mkChunk (NewSystemEntity schemaName tableName) (id c) (hypertableId c) compressedChunkId
              dropped status false in
  (c2, differences c c2).

End Chnk.

Abbreviation Chunk := Chnk.Chunk.

Lemma note_empty test key text d : Col.note test key text d = ∅ <-> test = false /\ d = ∅.
Proof.
  unfold Col.note. destruct test; split; [|by intros [? ?]|done|by intros [? ?]].
  intros H. by apply insert_non_empty in H.
Qed.

Lemma one_nil_false {A} (a b : option A) :
  Col.one_nil a b = false <-> (is_Some a <-> is_Some b).
Proof.
  unfold Col.one_nil. destruct a as [x|], b as [y|]; cbn; split; try done.
  - intros [H _]. by destruct (is_Some_None (H (mk_is_Some _ _ eq_refl))).
  - intros [_ H]. by destruct (is_Some_None (H (mk_is_Some _ _ eq_refl))).
Qed.

(** What an update of a chunk's catalog row does to the known chunk, against
    the chunk a fresh load of the same row gives: identity and hypertable are
    kept and every other attribute is the new one, except that the chunk is no
    longer marked compressed; and an empty change set means that nothing but
    the id of the compressed chunk can have changed. *)
Theorem chunk_apply_changes (c : Chunk) schemaName tableName dropped status compressedChunkId :
  let '(c', changes) := Chnk.ApplyChanges c schemaName tableName dropped status compressedChunkId in
  let fresh := Chnk.NewChunk (Chnk.id c) (Chnk.hypertableId c) schemaName tableName dropped status
                 compressedChunkId in
  (Chnk.IsCompressed c' = false /\
   (c' = fresh <-> String.prefix "compress_" tableName = false)) /\
  (changes = ∅ <->
   Chnk.entity c' = Chnk.entity c /\ Chnk.dropped c' = Chnk.dropped c /\
   Chnk.status c' = Chnk.status c /\
   (is_Some (Chnk.compressedChunkId c) <-> is_Some (Chnk.compressedChunkId c'))).
Proof.
  cbn. split; [split; [done|]|].
  - unfold Chnk.NewChunk. split; [|by intros ->]. intros H. injection H. congruence.
  - unfold Chnk.differences. rewrite !note_empty, one_nil_false. cbn.
    rewrite !negb_false_iff, !Z.eqb_eq, Bool.eqb_true_iff, !String.eqb_eq.
    destruct (Chnk.entity c) as [s t]; cbn. split.
    + intros (Hst & Hd & Hcc & Ht & Hs & _). by subst.
    + intros (Heq & -> & -> & H). by simplify_eq.
Qed.

(** What an update of a hypertable's catalog row does to the known
    hypertable: the columns and the identity are kept and the row's attributes
    are the new ones, but a hypertable that backs a continuous aggregate is no
    longer known as one, and its canonical view name is no longer defined. *)
Theorem hypertable_apply_changes (h : Hypertable) schemaName tableName associatedSchemaName
    associatedTablePrefix compressedHypertableId compressionState replicaIdentity :
  let '(h', changes) := Hyper.ApplyChanges h schemaName tableName associatedSchemaName
    associatedTablePrefix compressedHypertableId compressionState replicaIdentity in
  Hyper.id h' = Hyper.id h /\
  BaseTable.columns (Hyper.table h') = BaseTable.columns (Hyper.table h) /\
  Hyper.canonicalName h' = MakeRelationKey schemaName tableName /\
  (Hyper.compressionState h', Hyper.compressedHypertableId h') =
    (compressionState, compressedHypertableId) /\
  Hyper.IsContinuousAggregate h' = false /\
  Hyper.CanonicalContinuousAggregateName h' = inl PanicNilDereference /\
  (changes = ∅ <->
   Hyper.entity h' = Hyper.entity h /\
   BaseTable.replicaIdentity (Hyper.table h') = BaseTable.replicaIdentity (Hyper.table h) /\
   Hyper.associatedSchemaName h' = Hyper.associatedSchemaName h /\
   Hyper.associatedTablePrefix h' = Hyper.associatedTablePrefix h /\
   Hyper.compressionState h' = Hyper.compressionState h /\
   (is_Some (Hyper.compressedHypertableId h) <-> is_Some (Hyper.compressedHypertableId h'))).
Proof.
  cbn. split_and!; try done.
  unfold Hyper.differences, Hyper.tableName, Hyper.schemaName, Hyper.entity.
  rewrite !note_empty, one_nil_false. cbn.
  rewrite !negb_false_iff, !Z.eqb_eq, !String.eqb_eq.
  destruct (BaseTable.entity (Hyper.table h)) as [s t]; cbn. split.
  - intros (Hr & Hcs & Hc & Hp & Hs & Ht & Hsn & _). by subst.
  - intros (Heq & -> & -> & -> & -> & H). by simplify_eq.
Qed.
