(* ===== verification/Values.v ===== *)
(** * Values: dynamically typed values and their binary form

    A Go [any] as the streamer passes it around ([value]), with [==] on
    interfaces, and internal/typemanager/marshallers.go, which writes and reads
    such a value by the OID of its PostgreSQL type.  A switch on the dynamic
    type is a match on the constructors. *)

From Stdlib Require Import ZArith Lia.
From Stdlib Require Import Strings.Byte.
From stdpp Require Import base tactics option list numbers strings gmap.
From S2P Require Import Prelude Encoding.

Local Open Scope Z_scope.

(** A [time.Time]: seconds since January 1, year 1 UTC, nanoseconds, and the
    zone's offset east of UTC in seconds ([None] is UTC itself).  The identity
    of the [*time.Location] is not modelled. *)
Record Time : Type := mkTime {
  t_sec : Z;
  t_nsec : Z;
  t_off : option Z;
}.

#[export] Instance Time_eq_dec : EqDecision Time.
Proof. solve_decision. Defined.

(** [Time.MarshalBinary] of package time. *)
Definition Time_MarshalBinary (t : Time) : string + bytes :=
  let body v offsetMin := ([byte_of_Z v] ++ be_put 8 (t_sec t) ++ be_put 4 (t_nsec t) ++
                           be_put 2 offsetMin)%list in
  match t_off t with
  | None => inr (body 1 (-1))
  | Some off =>
      let offsetMin := Z.quot off 60 in
      let offsetSec := Z.rem off 60 in
      if (offsetMin <? -32768) || (offsetMin =? -1) || (32767 <? offsetMin)
      then inl "Time.MarshalBinary: unexpected zone offset"%string
      else if offsetSec =? 0 then inr (body 1 offsetMin)
      else inr (body 2 offsetMin ++ [byte_of_Z offsetSec])%list
  end.

(** [Time.UnmarshalBinary] of package time. *)
Definition Time_UnmarshalBinary (data : bytes) : string + Time :=
  match data with
  | [] => inl "Time.UnmarshalBinary: no data"%string
  | version :: buf =>
      let v := Z_of_byte version in
      if negb ((v =? 1) || (v =? 2)) then inl "Time.UnmarshalBinary: unsupported version"%string
      else if negb (Z.of_nat (length data) =? (if v =? 2 then 16 else 15))
      then inl "Time.UnmarshalBinary: invalid length"%string
      else
        let sec := i64 (be_get (take 8 buf)) in
        let nsec := i32 (be_get (take 4 (drop 8 buf))) in
        let offset := i16 (be_get (take 2 (drop 12 buf))) * 60 +
                      (if v =? 2 then be_get (drop 14 buf) else 0) in
        inr (mkTime sec nsec (if offset =? -60 then None else Some offset))
  end.

Definition Time_ok (t : Time) : Prop :=
  in_s 64 (t_sec t) /\ 0 <= t_nsec t < 1000000000 /\
  match t_off t with
  | None => True
  | Some off => exists m, off = m * 60 /\ in_s 16 m /\ m <> -1
  end.

Lemma Time_body_decode v sec nsec offsetMin :
  in_s 64 sec -> in_s 32 nsec -> in_s 16 offsetMin -> v = 1 ->
  Time_UnmarshalBinary ([byte_of_Z v] ++ be_put 8 sec ++ be_put 4 nsec ++ be_put 2 offsetMin)%list =
  inr (mkTime sec nsec (if offsetMin * 60 =? -60 then None else Some (offsetMin * 60))).
Proof.
  intros Hs Hn Ho ->.
  unfold Time_UnmarshalBinary. cbn [app]. change (Z_of_byte (byte_of_Z 1)) with 1. cbn [negb orb Z.eqb Pos.eqb].
  rewrite length_cons, !length_app, !length_be_put. cbn [negb Z.eqb Nat.add Z.of_nat Pos.of_succ_nat Pos.succ Pos.eqb].
  rewrite take_app_length', drop_app_length' by (by rewrite length_be_put).
  rewrite take_app_length' by (by rewrite length_be_put).
  assert (drop 12 (be_put 8 sec ++ be_put 4 nsec ++ be_put 2 offsetMin) = be_put 2 offsetMin) as ->.
  { rewrite app_assoc. apply drop_app_length'. by rewrite length_app, !length_be_put. }
  rewrite take_ge by by rewrite length_be_put.
  rewrite !be_get_put, !wraps_roundtrip by (done || lia). by rewrite Z.add_0_r.
Qed.

Lemma Time_roundtrip t :
  Time_ok t -> exists d, Time_MarshalBinary t = inr d /\ length d = 15%nat /\ Time_UnmarshalBinary d = inr t.
Proof.
  destruct t as [sec nsec off]. intros (Hs & Hn & Ho). cbn in *.
  assert (in_s 32 nsec) by (unfold in_s; lia).
  unfold Time_MarshalBinary. cbn [t_off t_sec t_nsec]. destruct off as [off|].
  - destruct Ho as (m & -> & Hm & Hm1).
    assert (Z.quot (m * 60) 60 = m) as -> by (apply Z.quot_mul; lia).
    assert (Z.rem (m * 60) 60 = 0) as -> by (apply Z.rem_mul; lia).
    destruct (Z.ltb_spec m (-32768)); [unfold in_s in Hm; lia|].
    destruct (Z.ltb_spec 32767 m); [unfold in_s in Hm; lia|].
    destruct (Z.eqb_spec m (-1)); [lia|]. cbn [orb Z.eqb].
    eexists; split; [done|]. split; [by rewrite !length_app, !length_be_put|].
    rewrite Time_body_decode by done. destruct (Z.eqb_spec (m * 60) (-60)); [lia|done].
  - eexists; split; [done|]. split; [by rewrite !length_app, !length_be_put|].
    rewrite Time_body_decode; [done|done|done| |done]. unfold in_s. lia.
Qed.

(** ** Values *)

(** Floats are IEEE 754 bit patterns.  A pointer is its address and the value it
    points to; the address of a nil pointer is 0, and the value tells its type. *)
Inductive value : Type :=
| VNil
| VBool (b : bool)
| VInt8 (z : Z) | VInt16 (z : Z) | VInt32 (z : Z) | VInt64 (z : Z)
| VFloat32 (bits : Z) | VFloat64 (bits : Z)
| VString (s : string)
| VBytes (d : bytes)
| VTime (t : Time)
| VDuration (ns : Z)
| VMap (entries : list (string * value))
| VUUID (d : bytes) (valid : bool)
| VPtr (address : Z) (target : value).

(** Equality of floats: NaN is unequal to itself, the two zeros are equal. *)
Definition float_eqb (exponent mantissa : Z) (a b : Z) : bool :=
  let nan x := (Z.land (Z.shiftr x mantissa) (2 ^ exponent - 1) =? 2 ^ exponent - 1) &&
               negb (Z.land x (2 ^ mantissa - 1) =? 0) in
  let zero x := Z.land x (2 ^ (exponent + mantissa) - 1) =? 0 in
  negb (nan a) && negb (nan b) && ((a =? b) || (zero a && zero b)).

(** Two values of the same dynamic type. *)
Fixpoint same_type (a b : value) : bool :=
  match a, b with
  | VNil, VNil | VBool _, VBool _ | VInt8 _, VInt8 _ | VInt16 _, VInt16 _ | VInt32 _, VInt32 _
  | VInt64 _, VInt64 _ | VFloat32 _, VFloat32 _ | VFloat64 _, VFloat64 _ | VString _, VString _
  | VBytes _, VBytes _ | VTime _, VTime _ | VDuration _, VDuration _ | VMap _, VMap _
  | VUUID _ _, VUUID _ _ => true
  | VPtr _ x, VPtr _ y => same_type x y
  | _, _ => false
  end.

(** [a == b] on interface values: different dynamic types are unequal, values of
    a type that has no equality panic. *)
Definition any_eqb (a b : value) : crash + bool :=
  match a, b with
  | VNil, VNil => inr true
  | VBool x, VBool y => inr (Bool.eqb x y)
  | VInt8 x, VInt8 y | VInt16 x, VInt16 y | VInt32 x, VInt32 y | VInt64 x, VInt64 y
  | VDuration x, VDuration y => inr (x =? y)
  | VFloat32 x, VFloat32 y => inr (float_eqb 8 23 x y)
  | VFloat64 x, VFloat64 y => inr (float_eqb 11 52 x y)
  | VString x, VString y => inr (String.eqb x y)
  | VTime x, VTime y => inr (bool_decide (x = y))
  | VUUID x vx, VUUID y vy => inr (bool_decide (x = y) && Bool.eqb vx vy)
  | VPtr x tx, VPtr y ty => inr (same_type tx ty && (x =? y))
  | VBytes _, VBytes _ | VMap _, VMap _ => inl PanicUncomparable
  | _, _ => inr false
  end.

(** ** Object identifiers of the PostgreSQL types (pgx's pgtype constants) *)

Definition BoolOID := 16.
Definition BitOID := 1560.
Definition BitArrayOID := 1561.
Definition Int2OID := 21.
Definition Int4OID := 23.
Definition Int8OID := 20.
Definition Float4OID := 700.
Definition Float8OID := 701.
Definition QCharOID := 18.
Definition VarcharOID := 1043.
Definition TextOID := 25.
Definition TimestampOID := 1114.
Definition TimestamptzOID := 1184.
Definition IntervalOID := 1186.
Definition ByteaArrayOID := 1001.
Definition JSONOID := 114.
Definition JSONBOID := 3802.
Definition UUIDOID := 2950.
Definition PointOID := 600.
Definition NumericOID := 1700.

Definition errIllegalValue : string := "illegal value for data type conversion".

(** The outcome of reading or writing part of the value with code that returns
    an [error]. *)
Definition or_fail {S A} (r : string + A) : G S A :=
  match r with inl e => fail e | inr a => mret a end.

Lemma or_fail_ret {S A} (r : string + A) (s s' : S) a : or_fail r s = Ret a s' -> r = inr a /\ s' = s.
Proof. destruct r; intros [=]; by subst. Qed.

(** [*v] of a pointer to one of the types the switch lists. *)
Definition deref {S A} (address : Z) (k : G S A) : G S A :=
  if address =? 0 then panic PanicNilDereference else k.

Module Marshal.

(** encoding/json on [map[string]any]. *)
Class Json := {
  json_Marshal : list (string * value) -> string + bytes;
  json_Unmarshal : bytes -> string + list (string * value);
}.

Definition boolMarshaller (v : value) : G bytes unit :=
  match v with
  | VBool b => PutBool b
  | VPtr a (VBool b) => deref a (PutBool b)
  | _ => fail errIllegalValue
  end.

Definition bitArrayMarshaller (v : value) : G bytes unit :=
  match v with VBytes d => PutBytes d | _ => fail errIllegalValue end.

Definition intMarshaller (v : value) : G bytes unit :=
  match v with
  | VInt8 z => PutInt8 z
  | VPtr a (VInt8 z) => deref a (PutInt8 z)
  | VInt16 z => PutInt16 z
  | VPtr a (VInt16 z) => deref a (PutInt16 z)
  | VInt32 z => PutInt32 z
  | VPtr a (VInt32 z) => deref a (PutInt32 z)
  | VInt64 z => PutInt64 z
  | VPtr a (VInt64 z) => deref a (PutInt64 z)
  | _ => fail errIllegalValue
  end.

Definition floatMarshaller (v : value) : G bytes unit :=
  match v with
  | VFloat32 z => PutFloat32 z
  | VPtr a (VFloat32 z) => deref a (PutFloat32 z)
  | VFloat64 z => PutFloat64 z
  | VPtr a (VFloat64 z) => deref a (PutFloat64 z)
  | _ => fail errIllegalValue
  end.

Definition stringMarshaller (v : value) : G bytes unit :=
  match v with VString s => PutString s | _ => fail errIllegalValue end.

Definition timestampMarshaller (v : value) : G bytes unit :=
  match v with
  | VTime t => data ← or_fail (Time_MarshalBinary t); PutBytes data
  | _ => fail errIllegalValue
  end.

Definition intervalMarshaller (v : value) : G bytes unit :=
  match v with VDuration d => PutInt64 d | _ => fail errIllegalValue end.

Definition byteArrayMarshaller (v : value) : G bytes unit :=
  match v with VBytes d => PutBytes d | _ => fail errIllegalValue end.

Definition uuidMarshaller (v : value) : G bytes unit :=
  match v with VUUID d _ => PutBytes d | _ => fail errIllegalValue end.

Definition intUnmarshaller (oid : Z) : G bytes value :=
  if oid =? Int2OID then v ← ReadInt16; mret (VInt16 v)
  else if oid =? Int4OID then v ← ReadInt32; mret (VInt32 v)
  else if oid =? Int8OID then v ← ReadInt64; mret (VInt64 v)
  else fail errIllegalValue.

Definition floatUnmarshaller (oid : Z) : G bytes value :=
  if oid =? Float4OID then v ← ReadFloat32; mret (VFloat32 v)
  else if oid =? Float8OID then v ← ReadFloat64; mret (VFloat64 v)
  else fail errIllegalValue.

Definition boolUnmarshaller : G bytes value := v ← ReadBool; mret (VBool v).
Definition bitArrayUnmarshaller : G bytes value := v ← ReadBytes; mret (VBytes v).
Definition stringUnmarshaller : G bytes value := v ← ReadString; mret (VString v).
Definition byteArrayUnmarshaller : G bytes value := v ← ReadBytes; mret (VBytes v).

Definition timestampUnmarshaller : G bytes value :=
  data ← ReadBytes; t ← or_fail (Time_UnmarshalBinary data); mret (VTime t).

Definition intervalUnmarshaller : G bytes value := d ← ReadInt64; mret (VDuration d).

(** [copy(v.Bytes[:], d)] into a fresh [16]byte array. *)
Definition uuidUnmarshaller : G bytes value :=
  d ← ReadBytes; mret (VUUID (take 16 d ++ replicate (16 - length d) Byte.x00)%list true).

Section WithJson.
Context `{J : Json}.

Definition jsonMarshaller (v : value) : G bytes unit :=
  match v with
  | VMap m => d ← or_fail (json_Marshal m); PutBytes d
  | _ => fail errIllegalValue
  end.

Definition jsonUnmarshaller : G bytes value :=
  d ← ReadBytes; m ← or_fail (json_Unmarshal d); mret (VMap m).

(** The two tables; an entry of [None] is one whose function is nil. *)
Definition marshallers (oid : Z) : option (option (value -> G bytes unit)) :=
  if (oid =? BoolOID) || (oid =? BitOID) then Some (Some boolMarshaller)
  else if oid =? BitArrayOID then Some (Some bitArrayMarshaller)
  else if (oid =? Int2OID) || (oid =? Int4OID) || (oid =? Int8OID) then Some (Some intMarshaller)
  else if (oid =? Float4OID) || (oid =? Float8OID) then Some (Some floatMarshaller)
  else if (oid =? QCharOID) || (oid =? VarcharOID) || (oid =? TextOID) then Some (Some stringMarshaller)
  else if (oid =? TimestampOID) || (oid =? TimestamptzOID) then Some (Some timestampMarshaller)
  else if oid =? IntervalOID then Some (Some intervalMarshaller)
  else if oid =? ByteaArrayOID then Some (Some byteArrayMarshaller)
  else if (oid =? JSONOID) || (oid =? JSONBOID) then Some (Some jsonMarshaller)
  else if oid =? UUIDOID then Some (Some uuidMarshaller)
  else if (oid =? PointOID) || (oid =? NumericOID) || (oid =? 514836) || (oid =? 516272) then Some None
  else None.

Definition unmarshallers (oid : Z) : option (option (G bytes value)) :=
  if (oid =? BoolOID) || (oid =? BitOID) then Some (Some boolUnmarshaller)
  else if oid =? BitArrayOID then Some (Some bitArrayUnmarshaller)
  else if (oid =? Int2OID) || (oid =? Int4OID) || (oid =? Int8OID) then Some (Some (intUnmarshaller oid))
  else if (oid =? Float4OID) || (oid =? Float8OID) then Some (Some (floatUnmarshaller oid))
  else if (oid =? QCharOID) || (oid =? VarcharOID) || (oid =? TextOID) then Some (Some stringUnmarshaller)
  else if (oid =? TimestampOID) || (oid =? TimestamptzOID) then Some (Some timestampUnmarshaller)
  else if oid =? IntervalOID then Some (Some intervalUnmarshaller)
  else if oid =? ByteaArrayOID then Some (Some byteArrayUnmarshaller)
  else if (oid =? JSONOID) || (oid =? JSONBOID) then Some (Some jsonUnmarshaller)
  else if oid =? UUIDOID then Some (Some uuidUnmarshaller)
  else if (oid =? PointOID) || (oid =? NumericOID) || (oid =? 514836) || (oid =? 516272) then Some None
  else None.

Definition BinaryMarshall (oid : Z) (v : value) : G bytes unit :=
  match marshallers oid with
  | Some (Some marshaller) => marshaller v
  | Some None => panic PanicNilDereference
  | None => fail errIllegalValue
  end.

Definition BinaryUnmarshall (oid : Z) : G bytes value :=
  match unmarshallers oid with
  | Some (Some unmarshaller) => unmarshaller
  | Some None => panic PanicNilDereference
  | None => fail errIllegalValue
  end.

(** [v] is a value that the decoder of [oid] produces. *)
Definition typed (oid : Z) (v : value) : Prop :=
  match v with
  | VBool _ => oid = BoolOID \/ oid = BitOID
  | VInt16 z => oid = Int2OID /\ in_s 16 z
  | VInt32 z => oid = Int4OID /\ in_s 32 z
  | VInt64 z => oid = Int8OID /\ in_s 64 z
  | VFloat32 z => oid = Float4OID /\ in_u 32 z
  | VFloat64 z => oid = Float8OID /\ in_u 64 z
  | VString s => (oid = QCharOID \/ oid = VarcharOID \/ oid = TextOID) /\ encodable (length (bytes_of s))
  | VBytes d => (oid = BitArrayOID \/ oid = ByteaArrayOID) /\ encodable (length d)
  | VTime t => (oid = TimestampOID \/ oid = TimestamptzOID) /\ Time_ok t
  | VDuration z => oid = IntervalOID /\ in_s 64 z
  | VUUID d valid => oid = UUIDOID /\ length d = 16%nat /\ valid = true
  | VMap m => (oid = JSONOID \/ oid = JSONBOID) /\
      exists d, json_Marshal m = inr d /\ json_Unmarshal d = inr m /\ encodable (length d)
  | _ => False
  end.

Lemma writes_or_fail {A} (a : A) (w : A -> G bytes unit) r enc :
  r = inr a -> writes (w a) enc -> writes (x ← or_fail r; w x) enc.
Proof. intros -> H pre. apply H. Qed.

Lemma reads_or_fail {A B} (a : A) (k : A -> G bytes B) r enc b :
  r = inr a -> reads (k a) enc b -> reads (x ← or_fail r; k x) enc b.
Proof. intros -> H rest. apply H. Qed.

(** A length-prefixed value whose bytes [dec] decodes. *)
Lemma reads_decoded (d : bytes) (dec : bytes -> G bytes value) v :
  encodable (length d) -> reads (dec d) [] v -> reads (x ← ReadBytes; dec x) (enc_bytes d) v.
Proof.
  intros Hd Hv. rewrite <- (app_nil_r (enc_bytes d)). eapply reads_bind; [by apply reads_bytes|done].
Qed.

Lemma reads_signed n (c : Z -> value) (r : G bytes Z) z :
  (0 < n)%nat -> in_s (8 * Z.of_nat n) z ->
  reads r (be_put n z) (wrapu (8 * Z.of_nat n) z) ->
  reads (v ← (v ← r; mret (wraps (8 * Z.of_nat n) v)); mret (c v)) (be_put n z) (c z).
Proof.
  intros Hn Hz Hr. apply (reads_fmap _ c).
  rewrite <- (wraps_roundtrip (8 * Z.of_nat n) z) at 2 by (done || lia).
  by apply (reads_fmap _ (wraps _)).
Qed.

Lemma BinaryMarshall_fits oid v :
  typed oid v -> exists enc, writes (BinaryMarshall oid v) enc /\ reads (BinaryUnmarshall oid) enc v.
Proof.
  destruct v as [|b|z|z|z|z|z|z|s|d|t|z|m|d valid|a t]; cbn [typed]; intros Hv; try done.
  - exists [bool_byte b].
    destruct Hv as [-> | ->]; (split; [done|]; apply (reads_fmap _ VBool), reads_bool).
  - destruct Hv as [-> Hz]. exists (be_put 2 z).
    split; [apply (writes_signed 2)|]. apply (reads_signed 2 VInt16); [lia|done|apply reads_uint16].
  - destruct Hv as [-> Hz]. exists (be_put 4 z).
    split; [apply (writes_signed 4)|]. apply (reads_signed 4 VInt32); [lia|done|apply reads_uint32].
  - destruct Hv as [-> Hz]. exists (be_put 8 z).
    split; [apply (writes_signed 8)|]. apply (reads_signed 8 VInt64); [lia|done|apply reads_uint64].
  - destruct Hv as [-> Hz]. exists (be_put 4 z). split; [done|].
    rewrite <- (wrapu_small _ _ Hz) at 2. apply (reads_fmap _ VFloat32), reads_uint32.
  - destruct Hv as [-> Hz]. exists (be_put 8 z). split; [done|].
    rewrite <- (wrapu_small _ _ Hz) at 2. apply (reads_fmap _ VFloat64), reads_uint64.
  - exists (enc_string s). destruct Hv as [[-> | [-> | ->]] Hs];
      (split; [apply writes_string|]; by apply (reads_fmap _ VString), reads_string).
  - exists (enc_bytes d). destruct Hv as [[-> | ->] Hs];
      (split; [apply writes_bytes|]; by apply (reads_fmap _ VBytes), reads_bytes).
  - destruct Hv as [Hoid Ht]. destruct (Time_roundtrip t Ht) as (d & Hm & Hlen & Hu).
    exists (enc_bytes d). destruct Hoid as [-> | ->];
      (split; [by apply (writes_or_fail d PutBytes), writes_bytes|];
       apply (reads_decoded d (fun d => t ← or_fail (Time_UnmarshalBinary d); mret (VTime t)));
       [rewrite Hlen; unfold encodable; lia|by apply (reads_or_fail t)]).
  - destruct Hv as [-> Hz]. exists (be_put 8 z).
    split; [apply (writes_signed 8)|]. apply (reads_signed 8 VDuration); [lia|done|apply reads_uint64].
  - destruct Hv as [Hoid (d & Hm & Hu & Hlen)].
    exists (enc_bytes d). destruct Hoid as [-> | ->];
      (split; [by apply (writes_or_fail d PutBytes), writes_bytes|];
       apply (reads_decoded d (fun d => m ← or_fail (json_Unmarshal d); mret (VMap m)));
       [done|by apply (reads_or_fail m)]).
  - destruct Hv as [-> [Hlen ->]]. exists (enc_bytes d). split; [apply writes_bytes|].
    assert (encodable (length d)) by (rewrite Hlen; unfold encodable; lia).
    apply (reads_decoded d (fun d => mret (VUUID (take 16 d ++ replicate (16 - length d) Byte.x00)%list true)));
      [done|]. rewrite take_ge, Hlen, app_nil_r by lia. apply reads_ret.
Qed.

(** A key value that has the Go type its column's decoder produces is
    stored in the watermark format and read back unchanged, for every
    supported OID; what follows it in the buffer is left alone. *)
Theorem binary_value_roundtrip (oid : Z) (v : value) (pre rest : bytes) :
  typed oid v ->
  exists enc, BinaryMarshall oid v pre = Ret tt (pre ++ enc)%list /\
    BinaryUnmarshall oid (enc ++ rest)%list = Ret v rest.
Proof. intros Hv. destruct (BinaryMarshall_fits oid v Hv) as (enc & Hw & Hr). eauto. Qed.

End WithJson.

(** A codec for the empty document only. *)
Definition empty_document_json : Json := {|
  json_Marshal m := match m with [] => inr (bytes_of "{}") | _ => inl "unsupported"%string end;
  json_Unmarshal d := if bool_decide (d = bytes_of "{}") then inr [] else inl "unsupported"%string;
|}.

Lemma binary_value_roundtrip_witness :
  exists enc, @BinaryMarshall empty_document_json TimestamptzOID
      (VTime (mkTime 63838886400 5 (Some 3600))) [] = Ret tt enc /\
    @BinaryUnmarshall empty_document_json TimestamptzOID (enc ++ [Byte.x07]) =
      Ret (VTime (mkTime 63838886400 5 (Some 3600))) [Byte.x07].
Proof.
  apply (@binary_value_roundtrip empty_document_json TimestamptzOID _ [] [Byte.x07]).
  cbn. split; [by right|]. unfold Time_ok, in_s. cbn. split; [lia|]. split; [lia|].
  exists 60. lia.
Defined.

(** The four types whose table entry has no function (point, numeric,
    geometry, ltree) are neither stored nor refused: both directions crash. *)
Theorem binary_value_nil_entries `{Json} (oid : Z) (v : value) (b : bytes) :
  oid = PointOID \/ oid = NumericOID \/ oid = 514836 \/ oid = 516272 ->
  BinaryMarshall oid v b = Crash PanicNilDereference /\
  BinaryUnmarshall oid b = Crash PanicNilDereference.
Proof. intros [-> | [-> | [-> | ->]]]; done. Qed.

Lemma binary_value_nil_entries_witness :
  @BinaryMarshall empty_document_json NumericOID (VInt64 1) [] = Crash PanicNilDereference /\
  @BinaryUnmarshall empty_document_json NumericOID [] = Crash PanicNilDereference.
Proof. apply (@binary_value_nil_entries empty_document_json). by right; left. Defined.

End Marshal.
