(* ===== verification/Watermarks.v ===== *)
(** * Watermarks: the resumable snapshot state of spi/watermark/watermarks.go

    [SnapshotContext] keeps a [Watermark] per table; its binary form is what the
    state storage persists between runs.  A Go map is a [gmap]; the order in
    which [range] visits a map is a value of its own ([iteration]), so that the
    theorems hold for every order.  A nil map is told apart from an empty one
    only where the code writes to it ([watermarks]). *)

From Stdlib Require Import ZArith Lia.
From Stdlib Require Import Strings.Byte.
From stdpp Require Import base tactics option list numbers strings gmap fin_maps.
From S2P Require Import Prelude Encoding Entities Values.

Local Open Scope Z_scope.

Record Watermark : Type := mkWatermark {
  complete : bool;
  dataTypes : gmap string Z;
  high : gmap string value;
  low : gmap string value;
}.

Record SnapshotContext : Type := mkSnapshotContext {
  snapshotName : string;
  sc_complete : bool;
  watermarks : option (gmap string Watermark);
}.

(** The zero value [&SnapshotContext{}]. *)
Definition zeroSnapshotContext : SnapshotContext := mkSnapshotContext "" false None.

Definition NewSnapshotContext (snapshotName : string) : SnapshotContext :=
  mkSnapshotContext snapshotName false (Some ∅).

(** Reading a nil map is reading an empty one. *)
Definition marks (sc : SnapshotContext) : gmap string Watermark := default ∅ (watermarks sc).

(** ** Operations *)

Definition newWatermark (columns : list Column) : crash + Watermark :=
  match Cols.SnapshotIndex columns with
  | inl e => inl e
  | inr None => inr (mkWatermark false ∅ ∅ ∅)
  | inr (Some index) =>
      inr (mkWatermark false
        (fold_left (fun m c => <[ Col.name c := Col.dataType c ]> m) (idx_columns index) ∅) ∅ ∅)
  end.

Definition GetWatermark (table : baseTable) (sc : SnapshotContext) : option Watermark :=
  marks sc !! CanonicalName (BaseTable.entity table).

(** Returns the watermark and whether it was created. *)
Definition GetOrCreateWatermark (table : baseTable) : G SnapshotContext (Watermark * bool) :=
  let key := CanonicalName (BaseTable.entity table) in
  sc ← get;
  match marks sc !! key with
  | Some w => mret (w, false)
  | None =>
      w ← lift (newWatermark (BaseTable.columns table));
      match watermarks sc with
      | None => panic PanicNilMap
      | Some m =>
          put (mkSnapshotContext (snapshotName sc) (sc_complete sc) (Some (<[ key := w ]> m))) ;;
          mret (w, true)
      end
  end.

Definition Complete (w : Watermark) : bool := complete w.
Definition MarkComplete (w : Watermark) : Watermark := mkWatermark true (dataTypes w) (high w) (low w).
Definition MarkIncomplete (w : Watermark) : Watermark := mkWatermark false (dataTypes w) (high w) (low w).
Definition SetHighWatermark (values : gmap string value) (w : Watermark) : Watermark :=
  mkWatermark (complete w) (dataTypes w) values (low w).
Definition HasValidLowWatermark (w : Watermark) : bool := (0 <? size (low w))%nat.

(** The loop of [checkComplete] over the entries of [high], in some order. *)
Fixpoint all_reached (low : gmap string value) (entries : list (string * value)) : crash + bool :=
  match entries with
  | [] => inr true
  | (key, v) :: rest =>
      match low !! key with
      | None => inr false
      | Some v2 =>
          match any_eqb v v2 with
          | inl e => inl e
          | inr false => inr false
          | inr true => all_reached low rest
          end
      end
  end.

Definition checkComplete (order : list (string * value)) (w : Watermark) : crash + Watermark :=
  match all_reached (low w) order with
  | inl e => inl e
  | inr c => inr (mkWatermark c (dataTypes w) (high w) (low w))
  end.

Definition SetLowWatermark (order : list (string * value)) (values : gmap string value) (w : Watermark) :
    crash + Watermark :=
  checkComplete order (mkWatermark (complete w) (dataTypes w) (high w) values).

(** ** The binary form *)

(** The order in which one marshalling visits a watermark's maps. *)
Record visit : Type := mkVisit {
  v_table : string;
  v_mark : Watermark;
  v_types : list (string * Z);
  v_high : list (string * value);
  v_low : list (string * value);
}.

Definition visits (v : visit) : Prop :=
  v_types v ≡ₚ map_to_list (dataTypes (v_mark v)) /\
  v_high v ≡ₚ map_to_list (high (v_mark v)) /\
  v_low v ≡ₚ map_to_list (low (v_mark v)).

(** [vs] is a way to visit all the maps of [sc]. *)
Definition iteration (sc : SnapshotContext) (vs : list visit) : Prop :=
  map (fun v => (v_table v, v_mark v)) vs ≡ₚ map_to_list (marks sc) /\ Forall visits vs.

Section Binary.
Context `{J : Marshal.Json}.

Definition no_data_type (column : string) : string :=
  ("cannot find dataType (oid) for columns " ++ column)%string.

(** One round of [for column, value := range watermark.high] (and [low]). *)
Definition putValue (types : gmap string Z) (entry : string * value) : G bytes unit :=
  PutString (fst entry) ;;
  match types !! fst entry with
  | Some dataType => Marshal.BinaryMarshall dataType (snd entry)
  | None => fail (no_data_type (fst entry))
  end.

Definition putType (entry : string * Z) : G bytes unit :=
  PutString (fst entry) ;; PutUint32 (snd entry).

Definition putWatermark (v : visit) : G bytes unit :=
  let w := v_mark v in
  PutString (v_table v) ;;
  PutBool (complete w) ;;
  PutUint32 (u32 (Z.of_nat (size (dataTypes w)))) ;;
  forM (v_types v) putType ;;
  forM (v_high v) (putValue (dataTypes w)) ;;
  PutBool (HasValidLowWatermark w) ;;
  if HasValidLowWatermark w then forM (v_low v) (putValue (dataTypes w)) else mret tt.

Definition MarshalBinary (sc : SnapshotContext) (vs : list visit) : G bytes unit :=
  PutString (snapshotName sc) ;;
  PutBool (sc_complete sc) ;;
  PutUint32 (u32 (Z.of_nat (size (marks sc)))) ;;
  forM vs putWatermark.

Definition readType : G bytes (string * Z) :=
  column ← ReadString; oid ← ReadUint32; mret (column, oid).

Definition readValue (types : gmap string Z) : G bytes (string * value) :=
  column ← ReadString;
  match types !! column with
  | Some oid => v ← Marshal.BinaryUnmarshall oid; mret (column, v)
  | None => fail (no_data_type column)
  end.

Definition readWatermark : G bytes (string * Watermark) :=
  tableName ← ReadString;
  complete ← ReadBool;
  numOfDataTypes ← ReadUint32;
  let n := Z.to_nat numOfDataTypes in
  types ← readEntries n readType ∅;
  high ← readEntries n (readValue types) ∅;
  lowWatermarkAvailable ← ReadBool;
  low ← (if (lowWatermarkAvailable : bool) then readEntries n (readValue types) ∅ else mret ∅);
  mret (tableName, mkWatermark complete types high low).

(** The watermarks map is created with its first entry. *)
Fixpoint readWatermarks (n : nat) (m : option (gmap string Watermark)) :
    G bytes (option (gmap string Watermark)) :=
  match n with
  | O => mret m
  | S n' => e ← readWatermark; readWatermarks n' (Some (<[ fst e := snd e ]> (default ∅ m)))
  end.

Definition UnmarshalBinary (sc : SnapshotContext) : G bytes SnapshotContext :=
  snapshotName ← ReadString;
  complete ← ReadBool;
  numOfWatermarks ← ReadUint32;
  m ← readWatermarks (Z.to_nat numOfWatermarks) (watermarks sc);
  mret (mkSnapshotContext snapshotName complete m).

(** ** Contexts that survive the binary form *)

Definition name_ok (s : string) : Prop := encodable (length (bytes_of s)).

Record watermark_ok (w : Watermark) : Prop := {
  wm_size : encodable (size (dataTypes w));
  wm_types : map_Forall (fun c oid => name_ok c /\ in_u 32 oid) (dataTypes w);
  wm_high : dom (high w) = dom (dataTypes w);
  wm_low : low w = ∅ \/ dom (low w) = dom (dataTypes w);
  wm_high_typed : map_Forall (fun c v => exists oid, dataTypes w !! c = Some oid /\ Marshal.typed oid v) (high w);
  wm_low_typed : map_Forall (fun c v => exists oid, dataTypes w !! c = Some oid /\ Marshal.typed oid v) (low w);
}.

Record context_ok (sc : SnapshotContext) : Prop := {
  sc_name : name_ok (snapshotName sc);
  sc_size : encodable (size (marks sc));
  sc_marks : map_Forall (fun t w => name_ok t /\ watermark_ok w) (marks sc);
}.

(** The map is nil after decoding when there is no watermark. *)
Definition decoded (sc : SnapshotContext) : SnapshotContext :=
  mkSnapshotContext (snapshotName sc) (sc_complete sc)
    (if bool_decide (marks sc = ∅) then None else Some (marks sc)).

(** *** Lemmas *)

Lemma size_dom_eq {A B} (m1 : gmap string A) (m2 : gmap string B) :
  dom m1 = dom m2 -> size m1 = size m2.
Proof. intros H. by rewrite <- !size_dom, H. Qed.

(** The entries of a map of values, as they are written and read back. *)
Lemma values_fit types (m : gmap string value) (l : list (string * value)) :
  l ≡ₚ map_to_list m ->
  map_Forall (fun c _ => name_ok c) types ->
  map_Forall (fun c v => exists oid, types !! c = Some oid /\ Marshal.typed oid v) m ->
  exists enc, writes (forM l (putValue types)) enc /\ reads (readEntries (size m) (readValue types) ∅) enc m.
Proof.
  intros Hl Hnames Htyped.
  assert (forall e, e ∈ l -> exists enc, writes (putValue types e) enc /\ reads (readValue types) enc e) as Hfit.
  { intros [c v] He. rewrite Hl in He. apply elem_of_map_to_list in He.
    destruct (Htyped _ _ He) as (oid & Hoid & Hv).
    destruct (Marshal.BinaryMarshall_fits oid v Hv) as (enc & Hw & Hr).
    exists (enc_string c ++ enc)%list. unfold putValue, readValue. cbn [fst snd]. rewrite Hoid. split.
    - apply writes_seq; [apply writes_string|done].
    - eapply reads_bind; [apply reads_string; exact (Hnames _ _ Hoid)|]. cbn. rewrite Hoid.
      by apply (reads_fmap _ (pair c)). }
  assert (exists enc, writes (forM l (putValue types)) enc /\
    forall acc, reads (readEntries (length l) (readValue types) acc) enc
      (fold_left (fun m e => <[ fst e := snd e ]> m) l acc)) as (enc & Hw & Hr).
  { clear Hl. induction l as [|e l IH]; [exists []; split; [apply writes_ret|intros; apply reads_ret]|].
    destruct (Hfit e) as (e1 & Hw1 & Hr1); [set_solver|].
    destruct IH as (e2 & Hw2 & Hr2); [set_solver|].
    exists (e1 ++ e2)%list. split; [by apply writes_seq|]. intros acc. cbn.
    by eapply reads_bind. }
  exists enc. split; [done|]. rewrite <- (length_visit _ _ Hl), <- (insert_entries _ _ Hl) at 1. apply Hr.
Qed.

Definition enc_type (e : string * Z) : bytes := (enc_string (fst e) ++ be_put 4 (snd e))%list.

Lemma types_fit (m : gmap string Z) (l : list (string * Z)) :
  l ≡ₚ map_to_list m ->
  map_Forall (fun c oid => name_ok c /\ in_u 32 oid) m ->
  writes (forM l putType) (concat (enc_type <$> l)) /\
  reads (readEntries (size m) readType ∅) (concat (enc_type <$> l)) m.
Proof.
  intros Hl Hok. split.
  - apply writes_forM. intros e _. apply writes_seq; [apply writes_string|apply writes_write].
  - rewrite <- (length_visit _ _ Hl), <- (insert_entries _ _ Hl) at 1.
    apply reads_entries. intros [c oid] He. rewrite Hl in He. apply elem_of_map_to_list in He.
    destruct (Hok _ _ He) as [Hc Hoid].
    eapply reads_bind; [by apply reads_string|].
    apply (reads_fmap _ (pair c)). by apply reads_uint32_small.
Qed.

Lemma size_fits n : encodable n ->
  writes (PutUint32 (u32 (Z.of_nat n))) (be_put 4 (Z.of_nat n)) /\
  reads ReadUint32 (be_put 4 (Z.of_nat n)) (Z.of_nat n).
Proof.
  intros Hn. split.
  - unfold PutUint32. rewrite (be_put_wrapu 4). apply writes_write.
  - apply reads_uint32_small. unfold in_u, encodable in *. lia.
Qed.

Lemma low_fits w l : watermark_ok w -> l ≡ₚ map_to_list (low w) ->
  exists enc,
    writes (PutBool (HasValidLowWatermark w) ;;
            if HasValidLowWatermark w then forM l (putValue (dataTypes w)) else mret tt) enc /\
    forall k (b : string * Watermark) e,
      reads (k (low w)) e b ->
      reads (avail ← ReadBool;
             low ← (if (avail : bool) then readEntries (size (dataTypes w)) (readValue (dataTypes w)) ∅
                    else mret ∅); k low) (enc ++ e)%list b.
Proof.
  intros [_ Htypes _ Hlow _ Htyped] Hl.
  unfold HasValidLowWatermark. destruct (Nat.ltb_spec 0 (size (low w))) as [Hpos|Hzero].
  - assert (dom (low w) = dom (dataTypes w)) as Hdom.
    { destruct Hlow as [Hlow|?]; [|done]. rewrite Hlow, map_size_empty in Hpos. lia. }
    destruct (values_fit (dataTypes w) (low w) l) as (enc & Hw & Hr); [done| |done|].
    { eapply map_Forall_impl; [done|]. by intros ?? []. }
    exists ([bool_byte true] ++ enc)%list. split; [by apply writes_seq|]. intros k b e Hk.
    rewrite <- (size_dom_eq _ _ Hdom). rewrite <- app_assoc.
    eapply reads_bind; [apply reads_bool|]. by eapply reads_bind.
  - assert (low w = ∅) as Hempty by (apply map_size_empty_inv; lia).
    exists ([bool_byte false] ++ [])%list. split; [apply writes_seq; [done|apply writes_ret]|].
    intros k b e Hk. rewrite <- app_assoc. eapply reads_bind; [apply reads_bool|].
    eapply reads_bind; [apply reads_ret|]. by rewrite <- Hempty.
Qed.

Lemma watermark_fits v :
  name_ok (v_table v) -> watermark_ok (v_mark v) -> visits v ->
  exists enc, writes (putWatermark v) enc /\ reads readWatermark enc (v_table v, v_mark v).
Proof.
  intros Hname Hok (Htypes & Hhigh & Hlow).
  destruct v as [t w lt lh ll]; cbn [v_table v_mark v_types v_high v_low] in *.
  pose proof Hok as [Hsize Hts Hdom _ Htyped _].
  destruct (types_fit _ _ Htypes Hts) as [Hwt Hrt].
  destruct (values_fit (dataTypes w) (high w) lh) as (eh & Hwh & Hrh); [done| |done|].
  { eapply map_Forall_impl; [done|]. by intros ?? []. }
  destruct (low_fits w ll Hok Hlow) as (el & Hwl & Hrl).
  destruct (size_fits _ Hsize) as [Hws Hrs].
  eexists. split.
  - apply writes_seq; [apply writes_string|]. apply writes_seq; [apply writes_write|].
    apply writes_seq; [exact Hws|]. apply writes_seq; [exact Hwt|]. apply writes_seq; [exact Hwh|]. exact Hwl.
  - eapply reads_bind; [by apply reads_string|]. eapply reads_bind; [apply reads_bool|].
    eapply reads_bind; [exact Hrs|]. cbn zeta. rewrite Nat2Z.id.
    eapply reads_bind; [exact Hrt|]. rewrite <- (size_dom_eq _ _ Hdom) at 1.
    eapply reads_bind; [exact Hrh|]. rewrite <- (app_nil_r el).
    apply (Hrl (fun low => mret (t, mkWatermark (complete w) (dataTypes w) (high w) low))).
    destruct w; apply reads_ret.
Qed.

(** The map after the visited watermarks were read into [m]. *)
Definition installed (vs : list visit) (m : option (gmap string Watermark)) : option (gmap string Watermark) :=
  match vs with
  | [] => m
  | _ => Some (fold_left (fun m e => <[ fst e := snd e ]> m)
                 (map (fun v => (v_table v, v_mark v)) vs) (default ∅ m))
  end.

Lemma watermarks_fit vs :
  Forall (fun v => name_ok (v_table v) /\ watermark_ok (v_mark v) /\ visits v) vs ->
  exists enc, writes (forM vs putWatermark) enc /\
    forall m, reads (readWatermarks (length vs) m) enc (installed vs m).
Proof.
  induction 1 as [|v vs (Hn & Hw & Hv) _ (enc & Hws & Hrs)].
  - exists []. split; [apply writes_ret|intros; apply reads_ret].
  - destruct (watermark_fits v Hn Hw Hv) as (e & Hwe & Hre).
    exists (e ++ enc)%list. split; [by apply writes_seq|]. intros m.
    cbn [length readWatermarks]. eapply reads_bind; [done|].
    specialize (Hrs (Some (<[ v_table v := v_mark v ]> (default ∅ m)))). by destruct vs.
Qed.

Lemma context_fits (sc : SnapshotContext) (vs : list visit) :
  context_ok sc -> iteration sc vs ->
  exists enc, MarshalBinary sc vs [] = Ret tt enc /\
    UnmarshalBinary zeroSnapshotContext enc = Ret (decoded sc) [].
Proof.
  intros [Hname Hsize Hmarks] [Hperm Hvis].
  destruct (watermarks_fit vs) as (enc & Hw & Hr).
  { rewrite Forall_forall in *. intros v Hv. specialize (Hvis v Hv).
    assert ((v_table v, v_mark v) ∈ map_to_list (marks sc)) as He.
    { rewrite <- Hperm. apply list_elem_of_fmap. by exists v. }
    apply elem_of_map_to_list in He. destruct (Hmarks _ _ He). done. }
  destruct (size_fits _ Hsize) as [Hws Hrs].
  assert (length vs = size (marks sc)) as Hlen.
  { rewrite <- length_map_to_list, <- Hperm. by rewrite length_map. }
  eexists. split.
  - apply writes_run. apply writes_seq; [apply writes_string|].
    apply writes_seq; [apply writes_write|]. by apply writes_seq.
  - apply reads_run. eapply reads_bind; [by apply reads_string|]. eapply reads_bind; [apply reads_bool|].
    eapply reads_bind; [exact Hrs|]. rewrite Nat2Z.id, <- Hlen. cbn [watermarks zeroSnapshotContext].
    assert (installed vs None = if bool_decide (marks sc = ∅) then None else Some (marks sc)) as Hinst.
    { unfold installed. cbn. rewrite (insert_entries _ _ Hperm). case_bool_decide as Hm.
      - rewrite Hm, map_size_empty in Hlen. by destruct vs.
      - destruct vs; [|done]. destruct Hm. apply map_size_empty_inv. by rewrite <- Hlen. }
    unfold decoded. rewrite <- Hinst.
    apply (reads_fmap _ (mkSnapshotContext (snapshotName sc) (sc_complete sc))), Hr.
Qed.

(** C8. The snapshot state survives a restart: a context whose watermarks have a
    value (of the column's type) for every key column in the high mark, and for
    none or every one in the low mark, is read back exactly, whatever order the
    maps are visited in when it is written. *)
Theorem snapshot_context_roundtrip (sc : SnapshotContext) (vs : list visit) :
  context_ok sc -> iteration sc vs ->
  exists enc, MarshalBinary sc vs [] = Ret tt enc /\
    UnmarshalBinary zeroSnapshotContext enc = Ret (decoded sc) [].
Proof. apply context_fits. Qed.

(** A context that is stored before it has a watermark comes back with no
    watermarks map at all: the first request for a table's watermark after the
    restart crashes instead of creating one. *)
Theorem restored_empty_context_panics (snapshot : string) (table : baseTable) (w : Watermark) :
  name_ok snapshot -> newWatermark (BaseTable.columns table) = inr w ->
  exists enc sc, MarshalBinary (NewSnapshotContext snapshot) [] [] = Ret tt enc /\
    UnmarshalBinary zeroSnapshotContext enc = Ret sc [] /\
    GetOrCreateWatermark table sc = Crash PanicNilMap /\
    GetOrCreateWatermark table (NewSnapshotContext snapshot) =
      Ret (w, true) (mkSnapshotContext snapshot false
                       (Some {[ CanonicalName (BaseTable.entity table) := w ]})).
Proof.
  intros Hname Hw.
  exists (enc_string snapshot ++ [bool_byte false] ++ be_put 4 0 ++ [])%list.
  exists (mkSnapshotContext snapshot false None). split_and!.
  - apply writes_run. apply writes_seq; [apply writes_string|].
    apply writes_seq; [apply writes_write|]. apply writes_seq; [apply writes_write|apply writes_ret].
  - apply reads_run. eapply reads_bind; [by apply reads_string|].
    eapply reads_bind; [apply reads_bool|].
    eapply reads_bind; [apply reads_uint32_small; unfold in_u; lia|]. apply reads_ret.
  - unfold GetOrCreateWatermark, marks. go_unfold. cbn. rewrite lookup_empty, Hw. done.
  - unfold GetOrCreateWatermark, marks. go_unfold. cbn. rewrite lookup_empty, Hw. done.
Qed.

(** The column names of a watermark are never empty. *)
Definition named (w : Watermark) : Prop := dataTypes w !! ""%string = None.

(** A watermark without high values (the one of an empty table) is stored
    but cannot be read back: the reader expects one high value per key column,
    and the stored context is refused. *)
Theorem watermark_without_high_unreadable (sc : SnapshotContext) (table : string) (w : Watermark)
    (types : list (string * Z)) :
  name_ok (snapshotName sc) -> name_ok table -> marks sc = {[ table := w ]} ->
  encodable (size (dataTypes w)) ->
  map_Forall (fun c oid => name_ok c /\ in_u 32 oid) (dataTypes w) ->
  dataTypes w <> ∅ -> named w -> high w = ∅ -> low w = ∅ ->
  types ≡ₚ map_to_list (dataTypes w) ->
  exists enc, MarshalBinary sc [mkVisit table w types [] []] [] = Ret tt enc /\
    UnmarshalBinary zeroSnapshotContext enc = Err (no_data_type "") [].
Proof.
  intros Hname Htable Hmarks Hsize Htypes Hne Hnamed Hhigh Hlow Hperm.
  destruct (types_fit _ _ Hperm Htypes) as [Hwt Hrt]. destruct (size_fits _ Hsize) as [Hws Hrs].
  assert (0 < size (dataTypes w))%nat as Hpos.
  { destruct (size (dataTypes w)) eqn:E; [|lia]. by apply map_size_empty_inv in E. }
  exists (enc_string (snapshotName sc) ++ [bool_byte (sc_complete sc)] ++ be_put 4 1 ++
    enc_string table ++ [bool_byte (complete w)] ++ be_put 4 (Z.of_nat (size (dataTypes w))) ++
    concat (enc_type <$> types) ++ [bool_byte false])%list. split.
  - apply writes_run. apply writes_seq; [apply writes_string|].
    apply writes_seq; [apply writes_write|].
    apply writes_seq; [rewrite Hmarks, map_size_singleton; apply writes_write|].
    assert (forall a b c d e : bytes, (a ++ b ++ c ++ d ++ e)%list = ((a ++ b ++ c ++ d ++ [] ++ e ++ []) ++ [])%list)
      as -> by (intros; by rewrite !app_nil_r).
    apply writes_seq; [|apply writes_ret]. unfold putWatermark, HasValidLowWatermark. cbn [v_mark].
    rewrite Hlow, map_size_empty. cbn [Nat.ltb Nat.leb v_table v_types v_high forM].
    apply writes_seq; [apply writes_string|]. apply writes_seq; [apply writes_write|].
    apply writes_seq; [exact Hws|]. apply writes_seq; [exact Hwt|].
    apply writes_seq; [apply writes_ret|]. apply writes_seq; [apply writes_write|apply writes_ret].
  - unfold UnmarshalBinary.
    rewrite (bind_run _ _ _ _ _ (reads_string _ Hname _)).
    rewrite (bind_run _ _ _ _ _ (reads_bool _ _)).
    rewrite (bind_run _ _ _ _ _ (reads_uint32_small 1 ltac:(unfold in_u; lia) _)).
    apply bind_err. change (Z.to_nat 1) with 1%nat. cbn [readWatermarks]. apply bind_err.
    unfold readWatermark.
    rewrite (bind_run _ _ _ _ _ (reads_string _ Htable _)).
    rewrite (bind_run _ _ _ _ _ (reads_bool _ _)).
    rewrite (bind_run _ _ _ _ _ (Hrs _)). rewrite Nat2Z.id.
    rewrite (bind_run _ _ _ _ _ (Hrt _)).
    apply bind_err. destruct (size (dataTypes w)) as [|n]; [lia|]. cbn [readEntries]. apply bind_err.
    unfold readValue.
    rewrite (bind_run ReadString _ [bool_byte false] ""%string [] eq_refl). unfold named in Hnamed. rewrite Hnamed. done.
Qed.

End Binary.

(** Setting a table's low watermark marks its snapshot complete exactly when
    every key column has reached its high value, whatever order the loop visits
    the columns in, as long as the values can be compared. *)
Theorem set_low_watermark_complete (w : Watermark) (values : gmap string value)
    (order : list (string * value)) :
  order ≡ₚ map_to_list (high w) ->
  (forall k v v2, high w !! k = Some v -> values !! k = Some v2 -> exists b, any_eqb v v2 = inr b) ->
  exists w', SetLowWatermark order values w = inr w' /\
    low w' = values /\ high w' = high w /\ dataTypes w' = dataTypes w /\
    (complete w' = true <->
     forall k v, high w !! k = Some v -> exists v2, values !! k = Some v2 /\ any_eqb v v2 = inr true).
Proof.
  intros Hperm Hcmp. unfold SetLowWatermark, checkComplete. cbn [low].
  assert (forall l, (forall k v, (k, v) ∈ l -> high w !! k = Some v) ->
    exists b, all_reached values l = inr b /\
      (b = true <-> forall k v, (k, v) ∈ l -> exists v2, values !! k = Some v2 /\ any_eqb v v2 = inr true))
    as Hloop.
  { induction l as [|[k v] l IH]; intros Hin.
    { exists true. split; [done|]. split; [|done]. intros _ k v Hkv. by apply not_elem_of_nil in Hkv. }
    destruct IH as (b & Hb & Hiff); [intros; apply Hin; by right|].
    cbn [all_reached]. destruct (values !! k) as [v2|] eqn:Hk.
    - destruct (Hcmp k v v2) as (c & Hc); [apply Hin; by left|done|]. rewrite Hc. destruct c.
      + exists b. split; [done|]. rewrite Hiff. split; intros H k' v' Hin'; [|apply H; by right].
        apply elem_of_cons in Hin' as [Heq|Hin']; [|by apply H]. simplify_eq. eauto.
      + exists false. split; [done|]. split; [done|]. intros H.
        destruct (H k v) as (? & ? & ?); [by left|]. congruence.
    - exists false. split; [done|]. split; [done|]. intros H.
      destruct (H k v) as (? & ? & ?); [by left|]. congruence. }
  destruct (Hloop order) as (b & -> & Hiff).
  { intros k v. rewrite Hperm. apply elem_of_map_to_list. }
  eexists. split; [done|]. cbn. split_and!; [done..|]. rewrite Hiff.
  setoid_rewrite Hperm. by setoid_rewrite elem_of_map_to_list.
Qed.

(** *** Concrete inputs *)

Definition sample_mark : Watermark :=
  mkWatermark false {[ "id" := 23 ]} {[ "id" := VInt32 7 ]} ∅.
Definition sample_context : SnapshotContext :=
  mkSnapshotContext "snap" false (Some {[ "t" := sample_mark ]}).

Lemma sample_context_ok `{Marshal.Json} : context_ok sample_context.
Proof.
  constructor; cbn; [done|unfold encodable; rewrite map_size_singleton; lia|].
  apply map_Forall_singleton. split; [done|]. constructor; cbn.
  - rewrite map_size_singleton. done.
  - apply map_Forall_singleton. by split.
  - by rewrite !dom_singleton_L.
  - by left.
  - apply map_Forall_singleton. exists 23. rewrite lookup_singleton_eq. split; [done|].
    cbn. split; [done|]. unfold in_s. lia.
  - apply map_Forall_empty.
Qed.

Lemma snapshot_context_roundtrip_witness :
  exists enc, @MarshalBinary Marshal.empty_document_json sample_context
      [mkVisit "t" sample_mark [("id", 23)] [("id", VInt32 7)] []]%string [] = Ret tt enc /\
    @UnmarshalBinary Marshal.empty_document_json zeroSnapshotContext enc = Ret (decoded sample_context) [].
Proof.
  apply (@snapshot_context_roundtrip Marshal.empty_document_json); [apply sample_context_ok|].
  split; [reflexivity|]. apply Forall_singleton. split_and!; reflexivity.
Defined.

Lemma restored_empty_context_panics_witness :
  exists enc sc, @MarshalBinary Marshal.empty_document_json (NewSnapshotContext "s") [] [] = Ret tt enc /\
    @UnmarshalBinary Marshal.empty_document_json zeroSnapshotContext enc = Ret sc [] /\
    GetOrCreateWatermark (BaseTable.newBaseTable "public" "t" "d") sc = Crash PanicNilMap /\
    GetOrCreateWatermark (BaseTable.newBaseTable "public" "t" "d") (NewSnapshotContext "s") =
      Ret (mkWatermark false ∅ ∅ ∅, true)
        (mkSnapshotContext "s" false (Some {[ MakeRelationKey "public" "t" := mkWatermark false ∅ ∅ ∅ ]})).
Proof.
  apply (@restored_empty_context_panics Marshal.empty_document_json "s"
           (BaseTable.newBaseTable "public" "t" "d")); reflexivity.
Defined.

Lemma watermark_without_high_unreadable_witness :
  let w := mkWatermark false {[ "id" := 23 ]}%string ∅ ∅ in
  let sc := mkSnapshotContext "s" false (Some {[ "t"%string := w ]}) in
  exists enc, @MarshalBinary Marshal.empty_document_json sc
      [mkVisit "t" w [("id", 23)]%string [] []] [] = Ret tt enc /\
    @UnmarshalBinary Marshal.empty_document_json zeroSnapshotContext enc = Err (no_data_type "") [].
Proof.
  intros w sc.
  apply (@watermark_without_high_unreadable Marshal.empty_document_json sc "t" w [("id", 23)]%string);
    try reflexivity.
  - apply map_Forall_singleton. split; [done|]. unfold in_u. lia.
  - apply map_non_empty_singleton.
Defined.

Lemma set_low_watermark_complete_witness :
  exists w', SetLowWatermark [("id", VInt32 7)]%string {[ "id" := VInt32 7 ]}%string sample_mark = inr w' /\
    low w' = {[ "id" := VInt32 7 ]}%string /\ high w' = high sample_mark /\
    dataTypes w' = dataTypes sample_mark /\
    (complete w' = true <->
     forall k v, high sample_mark !! k = Some v ->
       exists v2, ({[ "id" := VInt32 7 ]} : gmap string value)%string !! k = Some v2 /\ any_eqb v v2 = inr true).
Proof.
  apply set_low_watermark_complete; cbn.
  - reflexivity.
  - intros k v v2 Hv Hv2. apply lookup_singleton_Some in Hv as [_ <-].
    apply lookup_singleton_Some in Hv2 as [_ <-]. by eexists.
Defined.
