(* ===== verification/StateStorage.v ===== *)
(** * StateStorage: persistent state (spi/statestorage)

    [Offset] with its binary form (offset.go), the file state storage with its
    file format (filestatestorage.go), the in-memory storage (dummy.go), the
    interface both implement ([Storage]), and the state manager with its
    snapshot-context transaction (statemanager.go), which is proved against the
    interface.  The mutex of the storages serialises whole operations, so each
    operation is one step of the state. *)

From Stdlib Require Import ZArith Lia.
From Stdlib Require Import Strings.Byte.
From stdpp Require Import base tactics option list numbers strings gmap fin_maps.
From S2P Require Import Prelude Encoding Entities Values Watermarks.

Local Open Scope Z_scope.

(** ** Offsets (offset.go) *)

Module Offs.

(** The timestamp is the nanoseconds since the Unix epoch (an int64), the keyset
    [None] when nil. *)
Record Offset : Type := mkOffset {
  Timestamp : Z;
  Snapshot : bool;
  SnapshotDone : bool;
  SnapshotName : option string;
  SnapshotOffset : Z;
  SnapshotKeyset : option bytes;
  LSN : Z;
}.

#[global] Instance Offset_eq_dec : EqDecision Offset.
Proof. solve_decision. Defined.

(** The zero value [&Offset{}]. *)
Definition zeroOffset : Offset := mkOffset 0 false false None 0 None 0.

(** The optional name behind its flag, and the index behind it. *)
Definition unmarshalName (data spare : bytes) (o : Offset) (hasSnapshotName : bool) :
    crash + (option string * nat) :=
  if hasSnapshotName
  then len ← index data 22;
       let n := Z.to_nat (Z_of_byte len) in
       if (0 <? n)%nat
       then s ← slice data spare 23 (23 + n); mret (Some (string_of s), 23 + n)%nat
       else mret (SnapshotName o, 23%nat)
  else mret (SnapshotName o, 22%nat).

(** The keyset that starts at [offset], if the data goes on. *)
Definition unmarshalKeyset (data : bytes) (o : Offset) (offset : nat) : crash + option bytes :=
  if (offset + 1 <=? length data)%nat
  then d ← from data offset;
       len ← BigEndian_Uint 4 d;
       rest ← from data (offset + 4);
       let n := Z.to_nat len in
       mret (Some (take n rest ++ replicate (n - length rest) Byte.x00)%list)
  else mret (SnapshotKeyset o).

Definition UnmarshalBinary (data spare : bytes) (o : Offset) : crash + Offset :=
  ts ← slice data spare 0 8;
  snapshot ← index data 8;
  d9 ← from data 9;
  snapshotOffset ← BigEndian_Uint 4 d9;
  d13 ← from data 13;
  lsn ← BigEndian_Uint 8 d13;
  hasSnapshotName ← index data 21;
  p ← unmarshalName data spare o (Z_of_byte hasSnapshotName =? 1);
  done ← index data (snd p);
  keyset ← unmarshalKeyset data o (snd p + 1);
  mret (mkOffset (i64 (be_get ts)) (Z_of_byte snapshot =? 1) (Z_of_byte done =? 1) (fst p)
          snapshotOffset keyset lsn).

Definition keyset_bytes (o : Offset) : bytes := default [] (SnapshotKeyset o).

Definition size_of (o : Offset) : nat :=
  23 + match SnapshotName o with Some n => 1 + length (bytes_of n) | None => 0 end +
  (if (0 <? length (keyset_bytes o))%nat then 4 + length (keyset_bytes o) else 0).

Definition MarshalBinary (o : Offset) : bytes :=
  let data := replicate (size_of o) Byte.x00 in
  let data := copy_to 0 (be_put 8 (u64 (Timestamp o))) data in
  let data := copy_to 8 [bool_byte (Snapshot o)] data in
  let data := copy_to 9 (be_put 4 (u32 (SnapshotOffset o))) data in
  let data := copy_to 13 (be_put 8 (LSN o)) data in
  let data := copy_to 21 [bool_byte (bool_decide (is_Some (SnapshotName o)))] data in
  let '(data, offset) :=
    match SnapshotName o with
    | None => (data, 22%nat)
    | Some name =>
        let n := bytes_of name in
        let data := copy_to 22 [byte_of_Z (Z.of_nat (length n))] data in
        (copy_to 23 n data, 23 + length n)%nat
    end in
  let data := copy_to offset [bool_byte (SnapshotDone o)] data in
  let offset := S offset in
  if (0 <? length (keyset_bytes o))%nat
  then let data := copy_to offset (be_put 4 (u32 (Z.of_nat (length (keyset_bytes o))))) data in
       copy_to (offset + 4) (keyset_bytes o) data
  else data.

Definition Equal (o other : Offset) : bool :=
  if negb (Timestamp o =? Timestamp other) then false
  else if negb (Bool.eqb (Snapshot o) (Snapshot other)) then false
  else if negb (Bool.eqb (SnapshotDone o) (SnapshotDone other)) then false
  else if negb (SnapshotOffset o =? SnapshotOffset other) then false
  else if match SnapshotName o, SnapshotName other with
          | None, None => false
          | Some a, Some b => negb (String.eqb a b)
          | _, _ => true
          end then false
  else if match SnapshotKeyset o, SnapshotKeyset other with
          | None, None => false
          | Some a, Some b => negb (length a =? length b)%nat || negb (bool_decide (a = b))
          | _, _ => true
          end then false
  else LSN o =? LSN other.

(** The bytes [MarshalBinary] produces, part by part. *)
Definition header (o : Offset) : bytes :=
  (be_put 8 (Timestamp o) ++ [bool_byte (Snapshot o)] ++ be_put 4 (SnapshotOffset o) ++
   be_put 8 (LSN o) ++ [bool_byte (bool_decide (is_Some (SnapshotName o)))])%list.

Definition name_part (o : Offset) : bytes :=
  match SnapshotName o with
  | None => []
  | Some n => byte_of_Z (Z.of_nat (length (bytes_of n))) :: bytes_of n
  end.

Definition keyset_part (o : Offset) : bytes :=
  if (0 <? length (keyset_bytes o))%nat then enc_bytes (keyset_bytes o) else [].

Definition layout (o : Offset) : bytes :=
  (header o ++ name_part o ++ [bool_byte (SnapshotDone o)] ++ keyset_part o)%list.

Lemma length_header o : length (header o) = 22%nat.
Proof. unfold header. by rewrite !length_app, !length_be_put. Qed.

Lemma copy_to_header o (post : bytes) :
  copy_to 21 [bool_byte (bool_decide (is_Some (SnapshotName o)))]
    (copy_to 13 (be_put 8 (LSN o)) (copy_to 9 (be_put 4 (u32 (SnapshotOffset o)))
      (copy_to 8 [bool_byte (Snapshot o)] (copy_to 0 (be_put 8 (u64 (Timestamp o)))
        (replicate 22 Byte.x00 ++ post))))) = (header o ++ post)%list.
Proof.
  rewrite (be_put_wrapu 8), (be_put_wrapu 4).
  rewrite (copy_to_at 0 _ [] (replicate 8 Byte.x00) (replicate 14 Byte.x00 ++ post));
    [|done|done|by rewrite length_be_put].
  rewrite (copy_to_at 8 _ (be_put 8 (Timestamp o)) [Byte.x00] (replicate 13 Byte.x00 ++ post));
    [|done|by rewrite length_be_put|done].
  rewrite (copy_to_at 9 _ (be_put 8 (Timestamp o) ++ [bool_byte (Snapshot o)]) (replicate 4 Byte.x00)
    (replicate 9 Byte.x00 ++ post));
    [|by rewrite <- app_assoc|by rewrite length_app, length_be_put|by rewrite length_be_put].
  rewrite (copy_to_at 13 _ (be_put 8 (Timestamp o) ++ [bool_byte (Snapshot o)] ++ be_put 4 (SnapshotOffset o))
    (replicate 8 Byte.x00) (Byte.x00 :: post));
    [|by rewrite <- !app_assoc|by rewrite !length_app, !length_be_put|by rewrite length_be_put].
  rewrite (copy_to_at 21 _ (be_put 8 (Timestamp o) ++ [bool_byte (Snapshot o)] ++
    be_put 4 (SnapshotOffset o) ++ be_put 8 (LSN o)) [Byte.x00] post);
    [|by rewrite <- !app_assoc|by rewrite !length_app, !length_be_put|done].
  unfold header. by rewrite <- !app_assoc.
Qed.

Lemma length_keyset_part o : length (keyset_part o) =
  (if (0 <? length (keyset_bytes o))%nat then 4 + length (keyset_bytes o) else 0)%nat.
Proof.
  unfold keyset_part, enc_bytes. case_match; [|done]. by rewrite length_app, length_be_put.
Qed.

(** The last writes: the done flag and the keyset. *)
Lemma copy_to_tail o (pre : bytes) :
  (let data := copy_to (length pre) [bool_byte (SnapshotDone o)]
     (pre ++ replicate (1 + length (keyset_part o)) Byte.x00) in
   if (0 <? length (keyset_bytes o))%nat
   then copy_to (S (length pre) + 4) (keyset_bytes o)
          (copy_to (S (length pre)) (be_put 4 (u32 (Z.of_nat (length (keyset_bytes o))))) data)
   else data) = (pre ++ [bool_byte (SnapshotDone o)] ++ keyset_part o)%list.
Proof.
  cbn zeta. rewrite length_keyset_part.
  rewrite (copy_to_at (length pre) _ pre [Byte.x00]
    (replicate (if (0 <? length (keyset_bytes o))%nat then 4 + length (keyset_bytes o) else 0) Byte.x00))
    by done.
  unfold keyset_part. destruct (0 <? length (keyset_bytes o))%nat; [|done].
  rewrite (be_put_wrapu 4), replicate_add.
  rewrite (copy_to_at (S (length pre)) _ (pre ++ [bool_byte (SnapshotDone o)]) (replicate 4 Byte.x00)
    (replicate (length (keyset_bytes o)) Byte.x00));
    [|by rewrite <- app_assoc|rewrite length_app; cbn; lia|by rewrite length_be_put].
  rewrite (copy_to_at _ _ ((pre ++ [bool_byte (SnapshotDone o)]) ++ be_put 4 (Z.of_nat (length (keyset_bytes o))))
    (replicate (length (keyset_bytes o)) Byte.x00) []).
  - unfold enc_bytes. by rewrite <- !app_assoc, app_nil_r.
  - by rewrite app_nil_r, <- !app_assoc.
  - rewrite !length_app, length_be_put. cbn. lia.
  - apply length_replicate.
Qed.

Lemma MarshalBinary_layout o : MarshalBinary o = layout o.
Proof.
  unfold MarshalBinary, layout, name_part.
  assert (forall k, size_of o = 22 + k -> replicate (size_of o) Byte.x00 =
            (replicate 22 Byte.x00 ++ replicate k Byte.x00)%list)%nat as Hsplit.
  { intros k ->. apply replicate_add. }
  assert (length (header o) = 22)%nat as Hh by apply length_header.
  destruct (SnapshotName o) as [n|] eqn:Hn.
  - rewrite (Hsplit (1 + length (bytes_of n) + (1 + length (keyset_part o)))%nat)
      by (unfold size_of; rewrite Hn, length_keyset_part; lia).
    rewrite <- Hn, copy_to_header.
    rewrite (copy_to_at 22 _ (header o) [Byte.x00]
      (replicate (length (bytes_of n) + (1 + length (keyset_part o))) Byte.x00)) by done.
    rewrite replicate_add.
    rewrite (copy_to_at 23 _ (header o ++ [byte_of_Z (Z.of_nat (length (bytes_of n)))])
      (replicate (length (bytes_of n)) Byte.x00) (replicate (1 + length (keyset_part o)) Byte.x00));
      [|by rewrite <- app_assoc|by rewrite length_app, Hh|apply length_replicate].
    assert (23 + length (bytes_of n) =
      length (header o ++ [byte_of_Z (Z.of_nat (length (bytes_of n)))] ++ bytes_of n))%nat as ->
      by (rewrite !length_app, Hh; cbn; lia).
    rewrite (app_assoc _ (bytes_of n)), <- (app_assoc (header o) [_]).
    etransitivity; [apply copy_to_tail|]. by rewrite <- !app_assoc.
  - rewrite (Hsplit (1 + length (keyset_part o))%nat)
      by (unfold size_of; rewrite Hn, length_keyset_part; lia).
    rewrite <- Hn, copy_to_header, <- Hh. apply copy_to_tail.
Qed.
(** Offsets that fit the format: the name's length is one byte. *)
Record storable (o : Offset) : Prop := {
  st_time : in_s 64 (Timestamp o);
  st_offset : in_u 32 (SnapshotOffset o);
  st_lsn : in_u 64 (LSN o);
  st_name : match SnapshotName o with Some n => (length (bytes_of n) <= 255)%nat | None => True end;
  st_keyset : encodable (length (keyset_bytes o));
}.

(** An empty name and an empty keyset come back as nil. *)
Definition normal (o : Offset) : Offset :=
  mkOffset (Timestamp o) (Snapshot o) (SnapshotDone o)
    (match SnapshotName o with Some EmptyString => None | n => n end)
    (SnapshotOffset o)
    (match SnapshotKeyset o with Some [] => None | k => k end) (LSN o).

(** Reading the part that starts with the done flag. *)
Lemma read_tail o (pre : bytes) :
  encodable (length (keyset_bytes o)) ->
  let data := (pre ++ [bool_byte (SnapshotDone o)] ++ keyset_part o)%list in
  index data (length pre) = inr (bool_byte (SnapshotDone o)) /\
  unmarshalKeyset data zeroOffset (length pre + 1) = inr (SnapshotKeyset (normal o)).
Proof.
  intros Hlen data. split; [by apply (index_at pre _ (keyset_part o))|].
  unfold unmarshalKeyset. subst data. rewrite !length_app, length_keyset_part.
  cbn [normal SnapshotKeyset zeroOffset]. unfold keyset_part, keyset_bytes in *.
  destruct (SnapshotKeyset o) as [[|b k]|]; cbn [default length Nat.ltb Nat.leb] in *.
  - destruct (length pre + 1 + 1 <=? _)%nat eqn:E; [apply Nat.leb_le in E; cbn in E; lia|done].
  - destruct (length pre + 1 + 1 <=? _)%nat eqn:E; [|apply Nat.leb_gt in E; cbn in E; lia].
    unfold enc_bytes.
    rewrite (pure_run _ _ _ (from_at (pre ++ [bool_byte (SnapshotDone o)])
      (be_put 4 (Z.of_nat (length (b :: k))) ++ b :: k) _ (length pre + 1)
      ltac:(by rewrite <- app_assoc) ltac:(by rewrite length_app))).
    rewrite (pure_run _ _ _ (Uint_put 4 (Z.of_nat (length (b :: k))) (b :: k)
      (conj (Zle_0_nat _) Hlen))).
    rewrite (pure_run _ _ _ (from_at (pre ++ [bool_byte (SnapshotDone o)] ++
      be_put 4 (Z.of_nat (length (b :: k)))) (b :: k) _ (length pre + 1 + 4)
      ltac:(by rewrite <- !app_assoc) ltac:(rewrite !length_app, length_be_put; cbn; lia))).
    rewrite Nat2Z.id, take_ge, Nat.sub_diag, app_nil_r by lia. done.
  - destruct (length pre + 1 + 1 <=? _)%nat eqn:E; [apply Nat.leb_le in E; cbn in E; lia|done].
Qed.

Lemma bool_byte_test b : (Z_of_byte (bool_byte b) =? 1) = b.
Proof. by destruct b. Qed.

(** Reading the optional name, and where it ends. *)
Lemma read_name o (spare : bytes) :
  (match SnapshotName o with Some n => (length (bytes_of n) <= 255)%nat | None => True end) ->
  unmarshalName (layout o) spare zeroOffset (bool_decide (is_Some (SnapshotName o))) =
  inr (SnapshotName (normal o), length (header o ++ name_part o)).
Proof.
  intros Hname. unfold unmarshalName, layout. rewrite length_app, length_header.
  unfold name_part. cbn [normal SnapshotName zeroOffset].
  destruct (SnapshotName o) as [n|]; [|done].
  rewrite bool_decide_true by done.
  rewrite (pure_run _ _ _ (index_at (header o) (byte_of_Z (Z.of_nat (length (bytes_of n))))
    (bytes_of n ++ [bool_byte (SnapshotDone o)] ++ keyset_part o) _ 22 eq_refl
    ltac:(by rewrite length_header))).
  rewrite Z_of_byte_of_Z, Z.mod_small, Nat2Z.id by lia. cbn zeta.
  destruct n as [|a n]; [done|].
  destruct (Nat.ltb_spec 0 (length (bytes_of (String a n)))); [|cbn in *; lia].
  rewrite (pure_run _ _ _ (slice_at (header o ++ [byte_of_Z (Z.of_nat (length (bytes_of (String a n))))])
    (bytes_of (String a n)) ([bool_byte (SnapshotDone o)] ++ keyset_part o) _ spare 23 _
    ltac:(by rewrite <- app_assoc) ltac:(by rewrite length_app, length_header) eq_refl)).
  by rewrite String.string_of_list_byte_of_string.
Qed.

(** What is left to read behind the fixed part. *)
Lemma read_header o (spare : bytes) :
  in_s 64 (Timestamp o) -> in_u 32 (SnapshotOffset o) -> in_u 64 (LSN o) ->
  UnmarshalBinary (MarshalBinary o) spare zeroOffset =
    (p ← unmarshalName (layout o) spare zeroOffset (bool_decide (is_Some (SnapshotName o)));
     done ← index (layout o) (snd p);
     keyset ← unmarshalKeyset (layout o) zeroOffset (snd p + 1);
     mret (mkOffset (Timestamp o) (Snapshot o) (Z_of_byte done =? 1) (fst p)
             (SnapshotOffset o) keyset (LSN o))).
Proof.
  intros Ht Ho Hl. rewrite MarshalBinary_layout. unfold UnmarshalBinary.
  set (tail := (name_part o ++ [bool_byte (SnapshotDone o)] ++ keyset_part o)%list).
  set (t := be_put 8 (Timestamp o)). set (so := be_put 4 (SnapshotOffset o)). set (l := be_put 8 (LSN o)).
  set (f := [bool_byte (bool_decide (is_Some (SnapshotName o)))]).
  set (b := [bool_byte (Snapshot o)]).
  assert (layout o = (t ++ b ++ so ++ l ++ f ++ tail)%list) as Hdata.
  { unfold layout, header. by rewrite <- !app_assoc. }
  assert (length t = 8 /\ length so = 4 /\ length l = 8)%nat as (Lt & Lso & Ll).
  { unfold t, so, l. by rewrite !length_be_put. }
  rewrite (pure_run _ _ _ (slice_at [] t (b ++ so ++ l ++ f ++ tail) (layout o) spare 0 8
    Hdata eq_refl (eq_sym Lt))).
  rewrite (pure_run _ _ _ (index_at t (bool_byte (Snapshot o)) (so ++ l ++ f ++ tail) (layout o) 8
    Hdata (eq_sym Lt))).
  rewrite (pure_run _ _ _ (from_at (t ++ b) (so ++ l ++ f ++ tail) (layout o) 9
    ltac:(by rewrite Hdata, <- app_assoc) ltac:(by rewrite length_app, Lt))).
  unfold so at 1. rewrite (pure_run _ _ _ (Uint_put 4 _ _ Ho)).
  rewrite (pure_run _ _ _ (from_at (t ++ b ++ so) (l ++ f ++ tail) (layout o) 13
    ltac:(by rewrite Hdata, <- !app_assoc) ltac:(by rewrite !length_app, Lt, Lso))).
  unfold l at 1. rewrite (pure_run _ _ _ (Uint_put 8 _ _ Hl)).
  rewrite (pure_run _ _ _ (index_at (t ++ b ++ so ++ l) (bool_byte (bool_decide (is_Some (SnapshotName o))))
    tail (layout o) 21
    ltac:(by rewrite Hdata, <- !app_assoc) ltac:(by rewrite !length_app, Lt, Lso, Ll))).
  unfold t.
  rewrite !bool_byte_test, be_get_put, wraps_roundtrip by (done || lia). done.
Qed.

Lemma unmarshal_marshal (o : Offset) (spare : bytes) :
  storable o -> UnmarshalBinary (MarshalBinary o) spare zeroOffset = inr (normal o).
Proof.
  intros [Ht Ho Hl Hn Hk]. rewrite read_header, (pure_run _ _ _ (read_name o spare Hn)) by done.
  destruct (read_tail o (header o ++ name_part o) Hk) as [Hdone Hkeys].
  rewrite <- app_assoc in Hdone, Hkeys.
  rewrite (pure_run _ _ _ Hdone), (pure_run _ _ _ Hkeys), bool_byte_test. done.
Qed.

(** A stored replication offset is the one that was saved: every field of an
    offset is restored from its binary form, with a timestamp in int64
    nanoseconds, a snapshot offset in uint32 and a name of at most 255 bytes; the
    only values that are not restored as they were are an empty name and an
    empty keyset, which come back as nil. *)
Theorem offset_roundtrip (o : Offset) (spare : bytes) :
  storable o -> UnmarshalBinary (MarshalBinary o) spare zeroOffset = inr (normal o).
Proof. apply unmarshal_marshal. Qed.

Definition sample_offset : Offset :=
  mkOffset (-5) true false (Some "snapshot") 77 (Some [Byte.x01; Byte.x02]) 4886718345.

Lemma offset_roundtrip_witness :
  UnmarshalBinary (MarshalBinary sample_offset) [] zeroOffset = inr sample_offset.
Proof.
  apply (offset_roundtrip sample_offset []). constructor; unfold in_s, in_u, encodable; cbn; lia.
Defined.

Lemma index_inside (data : bytes) i : (i < length data)%nat -> exists b, index data i = inr b.
Proof. intros Hi. unfold index. destruct (lookup_lt_is_Some_2 data i Hi) as [b ->]. eauto. Qed.

Lemma unmarshalKeyset_inside (data : bytes) o i :
  (i + 4 <= length data)%nat -> exists k, unmarshalKeyset data o i = inr k.
Proof.
  intros Hi. unfold unmarshalKeyset, from, BigEndian_Uint. case_match; [|eauto].
  rewrite (proj2 (Nat.leb_le i (length data))) by lia. cbn [mbind pure_bind].
  rewrite length_drop, (proj2 (Nat.leb_le 4 (length data - i))) by lia. cbn [mbind pure_bind].
  rewrite (proj2 (Nat.leb_le (i + 4) (length data))) by lia. cbn. eauto.
Qed.

(** A snapshot name of 256 bytes is not restored: its length is stored
    modulo 256, so the offset is read back, without an error, with no name at
    all (and with a done flag and a keyset made from the name's bytes). *)
Theorem offset_long_name_lost (o : Offset) (n : string) (spare : bytes) :
  in_s 64 (Timestamp o) -> in_u 32 (SnapshotOffset o) -> in_u 64 (LSN o) ->
  SnapshotName o = Some n -> length (bytes_of n) = 256%nat ->
  exists o', UnmarshalBinary (MarshalBinary o) spare zeroOffset = inr o' /\ SnapshotName o' = None.
Proof.
  intros Ht Ho Hl Hname Hlen. rewrite read_header by done.
  assert (index (layout o) 22 = inr Byte.x00) as Hlenbyte.
  { apply (index_at (header o) _ (bytes_of n ++ [bool_byte (SnapshotDone o)] ++ keyset_part o)).
    - unfold layout, name_part. rewrite Hname, Hlen. reflexivity.
    - by rewrite length_header. }
  assert (256 < length (layout o))%nat as Hlong.
  { unfold layout, name_part. rewrite Hname, !length_app, length_header. cbn. lia. }
  rewrite (pure_run _ _ (None, 23%nat)).
  2: { rewrite Hname, bool_decide_true by done. unfold unmarshalName. by rewrite (pure_run _ _ _ Hlenbyte). }
  destruct (index_inside (layout o) 23) as [b Hb]; [lia|].
  destruct (unmarshalKeyset_inside (layout o) zeroOffset (23 + 1)) as [k Hk]; [lia|].
  cbn [snd fst]. rewrite (pure_run _ _ _ Hb), (pure_run _ _ _ Hk). eexists. split; [done|]. done.
Qed.

Definition long_name : string := string_of (replicate 256 Byte.x61).

Lemma offset_long_name_lost_witness :
  exists o', UnmarshalBinary (MarshalBinary (mkOffset 0 false true (Some long_name) 0 None 1)) [] zeroOffset =
    inr o' /\ SnapshotName o' = None.
Proof.
  eapply offset_long_name_lost; [..|reflexivity|reflexivity]; unfold in_s, in_u; cbn; lia.
Defined.

End Offs.

Abbreviation Offset := Offs.Offset.

(** ** The file format and the file storage (filestatestorage.go) *)

(** What [os.Stat] and [os.Open] find at the storage's path. *)
Inductive file : Type :=
| NoFile
| Directory
| StatError (e : string)
| File (data : bytes).

(** github.com/moby/sys/atomicwriter: [New] opens a temporary file beside the
    path, [Write] writes to it, and [Close] syncs it and renames it to the path,
    unless a write failed.  Each of them can report an error; only [Close] touches
    the file at the path, which it replaces as a whole or leaves alone. *)
Class AtomicWriter := {
  aw_new : file -> option string;
  aw_write : bytes -> file -> option string;
  aw_close : bytes -> file -> option string * file;
  aw_close_success : forall d f f', aw_close d f = (None, f') -> f' = File d;
  aw_close_failure : forall d f e f', aw_close d f = (Some e, f') -> f' = f;
}.

(** The result of calling a marshaller or an unmarshaller: a crash, an [error]
    or a value. *)
Definition result (A : Type) : Type := crash + (string + A).

Definition run_result {S A} (r : result A) : G S A :=
  match r with
  | inl c => panic c
  | inr (inl e) => fail e
  | inr (inr a) => mret a
  end.

Module FileStorage.

(** The storage's maps, and the file at its path. *)
Record fileStateStorage : Type := mkStorage {
  offsets : gmap string Offset;
  encodedStates : gmap string bytes;
  disk : file;
}.

Definition NewFileStateStorage (disk : file) : fileStateStorage := mkStorage ∅ ∅ disk.

Definition append_entry (key value : bytes) : bytes := (enc_bytes key ++ enc_bytes value)%list.

(** The data [Save] writes; [lo] and [le] are the orders in which the two loops
    visit the maps. *)
Definition image (lo : list (string * Offset)) (le : list (string * bytes)) (f : fileStateStorage) : bytes :=
  (be_put 4 (u32 (Z.of_nat (size (offsets f)))) ++
   concat ((fun e => append_entry (bytes_of (fst e)) (Offs.MarshalBinary (snd e))) <$> lo) ++
   be_put 4 (u32 (Z.of_nat (size (encodedStates f)))) ++
   concat ((fun e => append_entry (bytes_of (fst e)) (snd e)) <$> le))%list.

Definition set_disk (d : file) (f : fileStateStorage) : fileStateStorage :=
  mkStorage (offsets f) (encodedStates f) d.

(** [writer.Close()] is deferred: it runs after the result of [Write] was taken,
    and its own error is dropped.  After a failed [Write] it leaves the file alone. *)
Definition Save `{AtomicWriter} (lo : list (string * Offset)) (le : list (string * bytes)) :
    G fileStateStorage unit := fun f =>
  match aw_new (disk f) with
  | Some e => Err e f
  | None =>
      let data := image lo le f in
      match aw_write data (disk f) with
      | Some e => Err e f
      | None => Ret tt (set_disk (snd (aw_close data (disk f))) f)
      end
  end.

(** [buffer[readerOffset : readerOffset+n]]; the buffer's capacity is its
    length. *)
Definition next (n : nat) : G bytes bytes := fun b =>
  if (n <=? length b)%nat then Ret (take n b) (drop n b) else Crash PanicIndexOutOfRange.

Definition readUint32 : G bytes Z := d ← next 4; mret (be_get d).

Definition readString : G bytes string :=
  length ← readUint32; d ← next (Z.to_nat length); mret (string_of d).

(** The slice handed to [UnmarshalBinary] has the rest of the buffer as its
    spare capacity. *)
Definition readOffset : G bytes Offset :=
  length ← readUint32;
  d ← next (Z.to_nat length);
  spare ← get;
  lift (Offs.UnmarshalBinary d spare Offs.zeroOffset).

Definition readEncodedState : G bytes bytes := length ← readUint32; next (Z.to_nat length).

Definition readOffsetEntry : G bytes (string * Offset) :=
  key ← readString; value ← readOffset; mret (key, value).

Definition readStateEntry : G bytes (string * bytes) :=
  name ← readString; encodedState ← readEncodedState; mret (name, encodedState).

(** The file's contents are added to what the storage already holds. *)
Definition parse (f : fileStateStorage) : G bytes (gmap string Offset * gmap string bytes) :=
  numOfOffsets ← readUint32;
  offsets ← readEntries (Z.to_nat numOfOffsets) readOffsetEntry (offsets f);
  numOfEncodedStates ← readUint32;
  states ← readEntries (Z.to_nat numOfEncodedStates) readStateEntry (encodedStates f);
  mret (offsets, states).

Definition Load : G fileStateStorage unit := fun f =>
  match disk f with
  | StatError e => Err e f
  | NoFile | File [] => Ret tt (mkStorage ∅ (encodedStates f) (disk f))
  | Directory => Err "path exists already but is not a file" f
  | File data =>
      match parse f data with
      | Ret (o, s) _ => Ret tt (mkStorage o s (disk f))
      | Err e _ => Err e f
      | Crash c => Crash c
      end
  end.

Definition Get (f : fileStateStorage) : gmap string Offset := offsets f.

Definition Set_ (key : string) (value : Offset) (f : fileStateStorage) : fileStateStorage :=
  mkStorage (<[ key := value ]> (offsets f)) (encodedStates f) (disk f).

Definition EncodedState (key : string) (f : fileStateStorage) : option bytes := encodedStates f !! key.

Definition SetEncodedState (key : string) (encodedState : bytes) (f : fileStateStorage) : fileStateStorage :=
  mkStorage (offsets f) (<[ key := encodedState ]> (encodedStates f)) (disk f).

Definition StateEncoder (name : string) (encoder : result bytes) : G fileStateStorage unit :=
  data ← run_result encoder;
  modify (SetEncodedState name data).

Definition StateDecoder {A} (name : string) (decoder : bytes -> result A) : G fileStateStorage (option A) :=
  f ← get;
  match EncodedState name f with
  | Some data => a ← run_result (decoder data); mret (Some a)
  | None => mret None
  end.

(** [Start] loads the file; the ticker it starts calls [Save] from time to time.
    [Stop] waits for the ticker's goroutine and saves. *)
Definition Start : G fileStateStorage unit := Load.
Definition Stop `{AtomicWriter} := Save.

(** *** The format's laws *)

(** [r] crashes on every proper prefix of [enc]. *)
Definition demands {A} (r : G bytes A) (enc : bytes) : Prop :=
  forall p q, enc = (p ++ q)%list -> q <> [] -> r p = Crash PanicIndexOutOfRange.

(** [r] reads exactly [enc], and needs all of it. *)
Definition exactly {A} (r : G bytes A) (enc : bytes) (a : A) : Prop := reads r enc a /\ demands r enc.

Lemma exactly_ret {A} (a : A) : exactly (mret a) [] a.
Proof. split; [apply reads_ret|]. intros p q H Hq. symmetry in H. by apply app_eq_nil in H as [_ ->]. Qed.

Lemma exactly_bind {A B} (r : G bytes A) (k : A -> G bytes B) e1 e2 a b :
  exactly r e1 a -> exactly (k a) e2 b -> exactly (r ≫= k) (e1 ++ e2)%list b.
Proof.
  intros [Hr1 Hd1] [Hr2 Hd2]. split; [by eapply reads_bind|].
  intros p q Heq Hq. symmetry in Heq. apply app_eq_app in Heq as (l & [[-> ->]|[-> ->]]).
  - destruct l as [|x l].
    + rewrite app_nil_r. rewrite (bind_run _ _ _ _ _ (reads_run _ _ _ Hr1)). by eapply (Hd2 [] q).
    + by rewrite (bind_run _ _ _ _ _ (Hr1 _)), (Hd2 (x :: l) q).
  - destruct l as [|x l].
    + rewrite app_nil_r in *. rewrite (bind_run _ _ _ _ _ (reads_run _ _ _ Hr1)). by eapply (Hd2 [] e2).
    + by apply bind_crash, (Hd1 p (x :: l)).
Qed.

Lemma exactly_fmap {A B} (r : G bytes A) (f : A -> B) enc a :
  exactly r enc a -> exactly (x ← r; mret (f x)) enc (f a).
Proof.
  intros H. rewrite <- (app_nil_r enc). eapply exactly_bind; [exact H|apply exactly_ret].
Qed.

Lemma exactly_next d : exactly (next (length d)) d d.
Proof.
  split.
  - intros rest. unfold next. rewrite length_app, take_app_length, drop_app_length.
    by destruct (Nat.leb_spec (length d) (length d + length rest)); [|lia].
  - intros p q -> Hq. unfold next. rewrite length_app.
    destruct (Nat.leb_spec (length p + length q) (length p)); [|done].
    destruct q; [done|cbn in *; lia].
Qed.

Lemma exactly_uint32 n :
  encodable n -> exactly readUint32 (be_put 4 (Z.of_nat n)) (Z.of_nat n).
Proof.
  intros Hn. rewrite <- (be_get_put_small 4 (Z.of_nat n)) at 2 by (split; [lia|exact Hn]).
  apply (exactly_fmap _ be_get). rewrite <- (length_be_put 4 (Z.of_nat n)) at 1. apply exactly_next.
Qed.

Lemma exactly_state d : encodable (length d) -> exactly readEncodedState (enc_bytes d) d.
Proof.
  intros Hd. eapply exactly_bind; [by apply exactly_uint32|]. rewrite Nat2Z.id. apply exactly_next.
Qed.

Lemma exactly_string s : name_ok s -> exactly readString (enc_bytes (bytes_of s)) s.
Proof.
  intros Hs. eapply exactly_bind; [by apply exactly_uint32|]. rewrite Nat2Z.id.
  rewrite <- (String.string_of_list_byte_of_string s) at 3. apply (exactly_fmap _ string_of), exactly_next.
Qed.

Lemma exactly_offset o :
  Offs.storable o -> encodable (length (Offs.MarshalBinary o)) ->
  exactly readOffset (enc_bytes (Offs.MarshalBinary o)) (Offs.normal o).
Proof.
  intros Ho Hlen. eapply exactly_bind; [by apply exactly_uint32|]. rewrite Nat2Z.id.
  rewrite <- (app_nil_r (Offs.MarshalBinary o)) at 2. eapply exactly_bind; [apply exactly_next|].
  assert (forall spare, Offs.UnmarshalBinary (Offs.MarshalBinary o) spare Offs.zeroOffset =
            inr (Offs.normal o)) as Hu by (intros; by apply Offs.unmarshal_marshal).
  split.
  - intros rest. unfold lift. go_unfold. by rewrite Hu.
  - intros p q H Hq. symmetry in H. by apply app_eq_nil in H as [_ ->].
Qed.

Lemma exactly_entries {V W} (r : G bytes (string * V)) (enc : string * W -> bytes) (dec : W -> V) l m :
  (forall e, e ∈ l -> exactly r (enc e) (fst e, dec (snd e))) ->
  exactly (readEntries (length l) r m) (concat (enc <$> l))
    (fold_left (fun m e => <[ fst e := snd e ]> m) (prod_map id dec <$> l) m).
Proof.
  revert m. induction l as [|e l IH]; intros m Hl; cbn; [apply exactly_ret|].
  eapply exactly_bind; [apply Hl; set_solver|]. apply IH. set_solver.
Qed.

(** What the file format can hold. *)
Record savable (f : fileStateStorage) : Prop := {
  sv_offsets_size : encodable (size (offsets f));
  sv_states_size : encodable (size (encodedStates f));
  sv_offsets : map_Forall (fun k o => name_ok k /\ Offs.storable o /\
                 encodable (length (Offs.MarshalBinary o))) (offsets f);
  sv_states : map_Forall (fun k d => name_ok k /\ encodable (length d)) (encodedStates f);
}.

Lemma exactly_parse f g lo le :
  savable f -> lo ≡ₚ map_to_list (offsets f) -> le ≡ₚ map_to_list (encodedStates f) ->
  exactly (parse g) (image lo le f)
    ((Offs.normal <$> offsets f) ∪ offsets g, encodedStates f ∪ encodedStates g).
Proof.
  intros [Hso Hss Ho Hs] Hlo Hle. unfold image, parse.
  rewrite !(be_put_wrapu 4).
  eapply exactly_bind; [by apply exactly_uint32|].
  rewrite Nat2Z.id, <- (length_visit _ _ Hlo).
  eapply exactly_bind.
  { apply (exactly_entries _ _ Offs.normal). intros [k o] He. cbn [fst snd].
    rewrite Hlo in He. apply elem_of_map_to_list in He. destruct (Ho _ _ He) as (Hk & Hst & Hlen).
    eapply exactly_bind; [by apply exactly_string|]. by apply (exactly_fmap _ (pair k)), exactly_offset. }
  eapply exactly_bind; [by apply exactly_uint32|].
  rewrite Nat2Z.id, <- (length_visit _ _ Hle).
  rewrite (insert_entries_into _ (Offs.normal <$> offsets f)).
  2: { rewrite map_to_list_fmap. by rewrite Hlo. }
  apply (exactly_fmap _ (pair _)).
  rewrite <- (insert_entries_into _ _ _ Hle). rewrite <- (list_fmap_id le) at 3.
  erewrite <- (list_fmap_ext (prod_map id id) id le); [|by intros i [? ?]].
  apply (exactly_entries _ _ id). intros [k d] He. rewrite Hle in He. apply elem_of_map_to_list in He.
  destruct (Hs _ _ He) as [Hk Hd].
  eapply exactly_bind; [by apply exactly_string|]. by apply (exactly_fmap _ (pair k)), exactly_state.
Qed.

Lemma image_nonempty lo le f : image lo le f <> [].
Proof. intros H. apply (f_equal length) in H. unfold image in H. rewrite length_app, length_be_put in H. done. Qed.

Lemma Load_file g data o s :
  disk g = File data -> data <> [] -> exactly (parse g) data (o, s) -> Load g = Ret tt (mkStorage o s (disk g)).
Proof.
  intros Hd Hne [Hr _]. unfold Load. rewrite Hd. destruct data as [|b data]; [done|].
  by rewrite (reads_run _ _ _ Hr).
Qed.

(** What the deferred [Close] leaves on the disk. *)
Lemma aw_close_cases `{AtomicWriter} d f :
  (fst (aw_close d f) = None /\ snd (aw_close d f) = File d) \/
  ((exists e, fst (aw_close d f) = Some e) /\ snd (aw_close d f) = f).
Proof.
  destruct (aw_close d f) as [[e|] f'] eqn:E.
  - right. split; [by exists e|]. by apply aw_close_failure in E.
  - left. split; [done|]. by apply aw_close_success in E.
Qed.

(** C6. What saving the storage promises, for every order in which its maps are
    visited.  An error (of opening or of writing the temporary file) leaves
    everything as it was.  A success leaves the maps as they were and does not by
    itself mean that the file was replaced, because the error of the writer's
    deferred Close is dropped: if that Close succeeded, a storage opened on the
    file loads exactly the saved offsets and states, on top of what it already
    holds; if it failed, the file is the old one.  The claim is for storages that
    the format can hold: the numbers of entries and the lengths of names, offsets
    and states are below 2^32, the numbers of an offset fit their fields, and a
    snapshot name has at most 255 bytes; an empty snapshot name or keyset comes
    back as a missing one. *)
Theorem file_storage_save_load `{AtomicWriter} (f g : fileStateStorage)
    (lo : list (string * Offset)) (le : list (string * bytes)) :
  savable f -> lo ≡ₚ map_to_list (offsets f) -> le ≡ₚ map_to_list (encodedStates f) ->
  match Save lo le f with
  | Ret _ f' =>
      aw_new (disk f) = None /\ aw_write (image lo le f) (disk f) = None /\
      offsets f' = offsets f /\ encodedStates f' = encodedStates f /\
      match fst (aw_close (image lo le f) (disk f)) with
      | None =>
          Load (mkStorage (offsets g) (encodedStates g) (disk f')) =
            Ret tt (mkStorage ((Offs.normal <$> offsets f) ∪ offsets g)
                              (encodedStates f ∪ encodedStates g) (disk f'))
      | Some _ => disk f' = disk f
      end
  | Err e f' => f' = f /\ (aw_new (disk f) = Some e \/ aw_write (image lo le f) (disk f) = Some e)
  | Crash _ => False
  end.
Proof.
  intros Hf Hlo Hle. unfold Save. destruct (aw_new (disk f)) as [e|] eqn:En; [by eauto|]. cbn zeta.
  destruct (aw_write (image lo le f) (disk f)) as [e|] eqn:Ew; [by eauto|]. cbn [offsets encodedStates disk set_disk].
  do 4 (split; [done|]).
  destruct (aw_close_cases (image lo le f) (disk f)) as [[-> ->]|[[e ->] ->]]; [|done].
  apply (Load_file (mkStorage (offsets g) (encodedStates g) _) (image lo le f));
    [done|apply image_nonempty|].
  by apply (exactly_parse f (mkStorage (offsets g) (encodedStates g) _)).
Qed.

(** A state file that was cut short, wherever the cut is, is not taken for a
    valid state: loading it crashes (and does not return an error). *)
Theorem file_storage_torn_file (f g : fileStateStorage) (lo : list (string * Offset))
    (le : list (string * bytes)) (torn lost : bytes) :
  savable f -> lo ≡ₚ map_to_list (offsets f) -> le ≡ₚ map_to_list (encodedStates f) ->
  image lo le f = (torn ++ lost)%list -> torn <> [] -> lost <> [] -> disk g = File torn ->
  Load g = Crash PanicIndexOutOfRange.
Proof.
  intros Hf Hlo Hle Himg Ht Hl Hdisk. unfold Load. rewrite Hdisk. destruct torn as [|b torn]; [done|].
  destruct (exactly_parse f g lo le Hf Hlo Hle) as [_ Hd]. by rewrite (Hd _ _ Himg Hl).
Qed.

(** *** Concrete inputs *)

(** A disk on which everything succeeds. *)
Definition reliable_disk : AtomicWriter.
Proof.
  by refine {| aw_new _ := None; aw_write _ _ := None; aw_close d f := (None, File d) |}; intros; simplify_eq.
Defined.

(** A disk on which the rename fails: saving succeeds and nothing was saved. *)
Definition full_disk : AtomicWriter.
Proof.
  by refine {| aw_new _ := None; aw_write _ _ := None;
               aw_close d f := (Some "no space left on device"%string, f) |}; intros; simplify_eq.
Defined.

Definition sample_storage : fileStateStorage :=
  mkStorage {[ "slot"%string := Offs.sample_offset ]} {[ "sink"%string := [Byte.x05] ]} NoFile.

Lemma sample_savable : savable sample_storage.
Proof.
  constructor; cbn; [by rewrite map_size_singleton..| |].
  - apply map_Forall_singleton. split_and!; [done| |done].
    constructor; unfold in_s, in_u, encodable; cbn; lia.
  - by apply map_Forall_singleton.
Qed.

Lemma file_storage_save_load_witness :
  let lo := [("slot"%string, Offs.sample_offset)] in
  let le := [("sink"%string, [Byte.x05])] in
  (exists f', @Save reliable_disk lo le sample_storage = Ret tt f' /\
     Load (mkStorage ∅ ∅ (disk f')) =
       Ret tt (mkStorage ((Offs.normal <$> offsets sample_storage) ∪ ∅)
                         (encodedStates sample_storage ∪ ∅) (disk f'))) /\
  (exists f', @Save full_disk lo le sample_storage = Ret tt f' /\ disk f' = NoFile).
Proof.
  intros lo le. split.
  - eexists. split; [reflexivity|].
    apply (@file_storage_save_load reliable_disk sample_storage (NewFileStateStorage NoFile) lo le);
      [apply sample_savable|reflexivity|reflexivity].
  - eexists. split; [reflexivity|].
    apply (@file_storage_save_load full_disk sample_storage (NewFileStateStorage NoFile) lo le);
      [apply sample_savable|reflexivity|reflexivity].
Defined.

Lemma file_storage_torn_file_witness :
  Load (NewFileStateStorage (File (take 30 (image [("slot"%string, Offs.sample_offset)]
    [("sink"%string, [Byte.x05])] sample_storage)))) = Crash PanicIndexOutOfRange.
Proof.
  eapply (file_storage_torn_file sample_storage _ [("slot"%string, Offs.sample_offset)]
    [("sink"%string, [Byte.x05])] _ (drop 30 (image [("slot"%string, Offs.sample_offset)]
    [("sink"%string, [Byte.x05])] sample_storage)));
    [apply sample_savable|reflexivity|reflexivity|by rewrite take_drop|discriminate|discriminate|reflexivity].
Defined.

End FileStorage.

(** ** The in-memory storage (dummy.go) *)

Module DummyStorage.

Record dummyStateStorage : Type := mkStorage {
  offsets : gmap string Offset;
  encodedStates : gmap string bytes;
}.

Definition NewDummyStateStorage : dummyStateStorage := mkStorage ∅ ∅.

Definition Get (d : dummyStateStorage) : gmap string Offset := offsets d.

Definition Set_ (key : string) (value : Offset) (d : dummyStateStorage) : dummyStateStorage :=
  mkStorage (<[ key := value ]> (offsets d)) (encodedStates d).

Definition EncodedState (key : string) (d : dummyStateStorage) : option bytes := encodedStates d !! key.

Definition SetEncodedState (key : string) (encodedState : bytes) (d : dummyStateStorage) : dummyStateStorage :=
  mkStorage (offsets d) (<[ key := encodedState ]> (encodedStates d)).

Definition StateEncoder (name : string) (encoder : result bytes) : G dummyStateStorage unit :=
  data ← run_result encoder;
  modify (fun d => mkStorage (offsets d) (<[ name := data ]> (encodedStates d))).

Definition StateDecoder {A} (name : string) (decoder : bytes -> result A) : G dummyStateStorage (option A) :=
  d ← get;
  match encodedStates d !! name with
  | Some data => a ← run_result (decoder data); mret (Some a)
  | None => mret None
  end.

End DummyStorage.

(** ** The interface of a storage (statestorage.go) *)

Class Storage (S : Type) := {
  st_Get : S -> gmap string Offset;
  st_Set : string -> Offset -> S -> S;
  st_EncodedState : string -> S -> option bytes;
  st_SetEncodedState : string -> bytes -> S -> S;
  st_StateEncoder : string -> result bytes -> G S unit;
  st_StateDecoder : forall A, string -> (bytes -> result A) -> G S (option A);
}.

(** What the clients of a storage rely on: offsets and states are two maps that
    do not disturb each other, and the codec operations act on the states. *)
Class StorageLaws (S : Type) `{Storage S} := {
  st_get_set : forall k v s, st_Get (st_Set k v s) = <[ k := v ]> (st_Get s);
  st_get_setState : forall k d s, st_Get (st_SetEncodedState k d s) = st_Get s;
  st_state_set : forall k v n s, st_EncodedState n (st_Set k v s) = st_EncodedState n s;
  st_state_setState : forall k d n s, st_EncodedState n (st_SetEncodedState k d s) =
    if decide (n = k) then Some d else st_EncodedState n s;
  st_encode : forall n (r : result bytes) s, st_StateEncoder n r s =
    (d ← run_result r; modify (st_SetEncodedState n d)) s;
  st_decode : forall A n (dec : bytes -> result A) s, st_StateDecoder A n dec s =
    match st_EncodedState n s with
    | Some d => (a ← run_result (dec d); mret (Some a)) s
    | None => Ret None s
    end;
}.

#[export] Instance FileStorage_Storage : Storage FileStorage.fileStateStorage := {|
  st_Get := FileStorage.Get; st_Set := FileStorage.Set_;
  st_EncodedState := FileStorage.EncodedState; st_SetEncodedState := FileStorage.SetEncodedState;
  st_StateEncoder := FileStorage.StateEncoder; st_StateDecoder := @FileStorage.StateDecoder;
|}.

#[export] Instance DummyStorage_Storage : Storage DummyStorage.dummyStateStorage := {|
  st_Get := DummyStorage.Get; st_Set := DummyStorage.Set_;
  st_EncodedState := DummyStorage.EncodedState; st_SetEncodedState := DummyStorage.SetEncodedState;
  st_StateEncoder := DummyStorage.StateEncoder; st_StateDecoder := @DummyStorage.StateDecoder;
|}.

Lemma lookup_insert_if {V} (m : gmap string V) k n v :
  <[ k := v ]> m !! n = if decide (n = k) then Some v else m !! n.
Proof. destruct (decide (n = k)) as [->|]; [apply lookup_insert_eq|by apply lookup_insert_ne]. Qed.

#[export] Instance FileStorage_laws : StorageLaws FileStorage.fileStateStorage.
Proof.
  constructor; try reflexivity; intros; [apply lookup_insert_if|].
  cbn. unfold FileStorage.StateDecoder. go_unfold. by destruct (FileStorage.EncodedState n s).
Qed.

#[export] Instance DummyStorage_laws : StorageLaws DummyStorage.dummyStateStorage.
Proof.
  constructor; try reflexivity; intros; [apply lookup_insert_if|].
  cbn. unfold DummyStorage.StateDecoder, DummyStorage.EncodedState. go_unfold.
  by destruct (DummyStorage.encodedStates s !! n).
Qed.

(** ** The state manager (statemanager.go) *)

Module StateManager.
Section WithStorage.
Context {S : Type} `{StorageLaws S} `{Marshal.Json}.

Definition stateContextName : string := "snapshotContext".

(** [snapshotContext.MarshalBinary()]; [order] is the order in which this call
    visits the maps. *)
Definition encodeContext (order : SnapshotContext -> list visit) (sc : SnapshotContext) : result bytes :=
  match MarshalBinary sc (order sc) [] with
  | Ret _ data => inr (inr data)
  | Err e _ => inr (inl e)
  | Crash c => inl c
  end.

(** [snapshotContext.UnmarshalBinary(data)] into a zero context. *)
Definition decodeContext (data : bytes) : result SnapshotContext :=
  match UnmarshalBinary zeroSnapshotContext data with
  | Ret sc _ => inr (inr sc)
  | Err e _ => inr (inl e)
  | Crash c => inl c
  end.

Definition SnapshotContext_ : G S (option SnapshotContext) :=
  st_StateDecoder _ stateContextName decodeContext.

Definition setSnapshotContext (order : SnapshotContext -> list visit) (sc : SnapshotContext) : G S unit :=
  st_StateEncoder stateContextName (encodeContext order sc).

Definition getOrCreateSnapshotContext (order : SnapshotContext -> list visit) (snapshotName : string) :
    G S SnapshotContext :=
  present ← SnapshotContext_;
  match present with
  | Some sc => mret sc
  | None =>
      let sc := NewSnapshotContext snapshotName in
      setSnapshotContext order sc ;; mret sc
  end.

(** [transaction] is given the context, may act on the rest of the state, and
    returns the context as it left it. *)
Definition SnapshotContextTransaction (order order' : SnapshotContext -> list visit)
    (snapshotName : string) (createIfNotExists : bool)
    (transaction : SnapshotContext -> G S SnapshotContext) : G S unit :=
  snapshotContext ← (if createIfNotExists
                     then sc ← getOrCreateSnapshotContext order snapshotName; mret (Some sc)
                     else SnapshotContext_);
  match snapshotContext with
  | None => fail "No such snapshot context found"
  | Some sc =>
      sc' ← transaction sc;
      setSnapshotContext order' sc'
  end.

(** Any way to visit the maps, on contexts that survive the binary form. *)
Definition fair (order : SnapshotContext -> list visit) : Prop :=
  forall sc, iteration sc (order sc).

Lemma encode_ok order sc :
  fair order -> context_ok sc ->
  exists d, encodeContext order sc = inr (inr d) /\ decodeContext d = inr (inr (decoded sc)).
Proof.
  intros Ho Hok. destruct (context_fits sc (order sc) Hok (Ho sc)) as (d & Hm & Hu).
  exists d. unfold encodeContext, decodeContext. by rewrite Hm, Hu.
Qed.

Lemma setSnapshotContext_ok order sc s :
  fair order -> context_ok sc ->
  exists d, setSnapshotContext order sc s = Ret tt (st_SetEncodedState stateContextName d s) /\
    decodeContext d = inr (inr (decoded sc)).
Proof.
  intros Ho Hok. destruct (encode_ok order sc Ho Hok) as (d & He & Hd). exists d. split; [|done].
  unfold setSnapshotContext. rewrite st_encode, He. done.
Qed.

Lemma SnapshotContext_stored d sc s :
  decodeContext d = inr (inr sc) ->
  SnapshotContext_ (st_SetEncodedState stateContextName d s) =
    Ret (Some sc) (st_SetEncodedState stateContextName d s).
Proof.
  intros Hd. unfold SnapshotContext_. rewrite st_decode, st_state_setState.
  rewrite decide_True by done. by rewrite Hd.
Qed.

(** A snapshot transaction, on any storage that keeps the interface's laws:
    without a stored context it refuses, unless asked to create one; otherwise
    the transaction runs on the stored (or new) context; if it fails, nothing it
    did to the context is stored; if it succeeds with a storable context, that
    context is what the next read returns, and no offset and no other state
    changes with it. *)
Theorem snapshot_transaction (order order' : SnapshotContext -> list visit) (snapshotName : string)
    (create : bool) (transaction : SnapshotContext -> G S SnapshotContext) (s s0 : S)
    (sc : option SnapshotContext) :
  fair order -> fair order' -> name_ok snapshotName ->
  SnapshotContext_ s = Ret sc s0 ->
  (sc = None -> create = false ->
   SnapshotContextTransaction order order' snapshotName create transaction s =
     Err "No such snapshot context found" s0) /\
  (is_Some sc \/ create = true ->
   exists s1, (s1 = s0 \/ (sc = None /\ exists d, s1 = st_SetEncodedState stateContextName d s0)) /\
   match transaction (default (NewSnapshotContext snapshotName) sc) s1 with
   | Err e s2 =>
       SnapshotContextTransaction order order' snapshotName create transaction s = Err e s2
   | Crash c =>
       SnapshotContextTransaction order order' snapshotName create transaction s = Crash c
   | Ret sc' s2 =>
       context_ok sc' ->
       exists s3, SnapshotContextTransaction order order' snapshotName create transaction s = Ret tt s3 /\
         SnapshotContext_ s3 = Ret (Some (decoded sc')) s3 /\
         st_Get s3 = st_Get s2 /\
         forall n, n <> stateContextName -> st_EncodedState n s3 = st_EncodedState n s2
   end).
Proof.
  intros Ho Ho' Hname Hread. unfold SnapshotContextTransaction.
  assert (forall sc' s2, context_ok sc' -> exists s3, setSnapshotContext order' sc' s2 = Ret tt s3 /\
    SnapshotContext_ s3 = Ret (Some (decoded sc')) s3 /\ st_Get s3 = st_Get s2 /\
    forall n, n <> stateContextName -> st_EncodedState n s3 = st_EncodedState n s2) as Hset.
  { intros sc' s2 Hok. destruct (setSnapshotContext_ok order' sc' s2 Ho' Hok) as (d & -> & Hd).
    eexists. split; [done|]. split; [by apply SnapshotContext_stored|].
    split; [apply st_get_setState|]. intros n Hn. rewrite st_state_setState. by rewrite decide_False. }
  split.
  - intros -> ->. by rewrite (bind_run _ _ _ _ _ Hread).
  - intros Hcase.
    assert (exists s1, (s1 = s0 \/ (sc = None /\ exists d, s1 = st_SetEncodedState stateContextName d s0)) /\
      (if create then sc ← getOrCreateSnapshotContext order snapshotName; mret (Some sc)
       else SnapshotContext_) s = Ret (Some (default (NewSnapshotContext snapshotName) sc)) s1)
      as (s1 & Hs1 & Hrun).
    { destruct sc as [sc|]; cbn [default].
      - exists s0. split; [by left|]. destruct create; [|done].
        unfold getOrCreateSnapshotContext. go_unfold. by rewrite Hread.
      - destruct Hcase as [Hs| ->]; [by destruct Hs|].
        assert (context_ok (NewSnapshotContext snapshotName)) as Hnew.
        { constructor; [done|by unfold encodable; cbn|]. intros t w Hw. cbn in Hw. by rewrite lookup_empty in Hw. }
        destruct (setSnapshotContext_ok order _ s0 Ho Hnew) as (d & Hd & _).
        exists (st_SetEncodedState stateContextName d s0). split; [right; eauto|].
        unfold getOrCreateSnapshotContext. go_unfold. rewrite Hread. by rewrite Hd. }
    exists s1. split; [done|]. rewrite (bind_run _ _ _ _ _ Hrun). clear Hrun.
    destruct (transaction _ s1) as [sc' s2|e s2|c] eqn:E.
    + intros Hok. rewrite (bind_run _ _ _ _ _ E). by apply Hset.
    + by apply bind_err.
    + by apply bind_crash.
Qed.

End WithStorage.

(** Visiting the maps in the order of their representation. *)
Definition natural_order (sc : SnapshotContext) : list visit :=
  map (fun e => mkVisit (fst e) (snd e) (map_to_list (dataTypes (snd e))) (map_to_list (high (snd e)))
                  (map_to_list (low (snd e)))) (map_to_list (marks sc)).

Lemma natural_order_fair : fair natural_order.
Proof.
  intros sc. split.
  - unfold natural_order. rewrite map_map. cbn. rewrite (map_ext _ id); [by rewrite map_id|].
    by intros [? ?].
  - apply Forall_fmap, Forall_forall. by intros [? ?] _.
Qed.

Lemma snapshot_transaction_witness :
  let s := DummyStorage.NewDummyStateStorage in
  let run := @SnapshotContextTransaction DummyStorage.dummyStateStorage _ Marshal.empty_document_json
               natural_order natural_order "snap" false (fun sc => mret sc) s in
  run = Err "No such snapshot context found"%string s.
Proof.
  refine (proj1 (@snapshot_transaction DummyStorage.dummyStateStorage _ _ Marshal.empty_document_json
    natural_order natural_order "snap" false (fun sc => mret sc) _ _ None
    natural_order_fair natural_order_fair _ _) _ _); reflexivity.
Defined.

End StateManager.
