(* ===== verification/Messages.v ===== *)
(** * Messages: what the replication stream carries, and what it becomes

    The messages of the logical replication stream (spi/pgtypes), the decoding
    of logical decoding messages (xlogdecoder.go, logicalreplicationmessage.go,
    basemessage.go), and the tasks that the components hand to the task
    manager.  A task is a function in the code; every one of them notifies one
    kind of handler of one event, so it is that event here.  The messages that
    github.com/jackc/pglogrepl parses are parameters of the parser. *)

From Stdlib Require Import ZArith Lia.
From Stdlib Require Import Strings.Byte.
From stdpp Require Import base tactics option list numbers strings gmap.
From S2P Require Import Prelude Encoding Entities Values.

Local Open Scope Z_scope.

(** ** Stream messages *)

Abbreviation values := (gmap string value).

(** pgtypes.XLogData: the entry's position and payload with the context of the
    current log row. *)
Record XLogData : Type := mkXLogData {
  WALStart : Z;
  ServerWALEnd : Z;
  ServerTime : Z;
  WALData : bytes;
  DatabaseName : string;
  LastBegin : Z;
  LastCommit : Z;
  Xid : Z;
}.

Record BeginMessage : Type := mkBegin {
  FinalLSN : Z;
  CommitTime : Z;
  BeginXid : Z;
}.

Record CommitMessage : Type := mkCommit {
  CommitLSN : Z;
  TransactionEndLSN : Z;
  CommitMessageTime : Z;
}.

(** pgtypes.LogicalReplicationMessage *)
Record LogicalReplicationMessage : Type := mkLogical {
  Flags : Z;
  MessageXid : option Z;
  MessageLSN : Z;
  Prefix : string;
  Content : bytes;
}.

Definition IsTransactional (m : LogicalReplicationMessage) : bool := Flags m =? 1.

(** The messages of the stream; tuples are decoded to values by column name. *)
Inductive Message : Type :=
| MRelation (m : RelationMessage)
| MBegin (m : BeginMessage)
| MCommit (m : CommitMessage)
| MInsert (relationId : Z) (newValues : values)
| MUpdate (relationId : Z) (oldValues newValues : values)
| MDelete (relationId : Z) (oldValues : values)
| MTruncate (relationNum : Z) (relationIds : list Z)
| MType
| MOrigin
| MLogical (m : LogicalReplicationMessage).

(** ** Decoding logical decoding messages *)

(** [decodeString]: the bytes before the first NUL and the number of bytes
    used, or no string. *)
Fixpoint decodeString (src : bytes) : option (bytes * nat) :=
  match src with
  | [] => None
  | b :: rest =>
      if bool_decide (b = Byte.x00) then Some ([], 1%nat)
      else match decodeString rest with
           | Some (s, used) => Some (b :: s, S used)
           | None => None
           end
  end.

Definition decodeStringError (name field : string) : string :=
  (name ++ "." ++ field ++ " decode string error")%string.

Definition decodeLSN (src : bytes) : crash + Z := BigEndian_Uint 8 src.

(** [Decode] of the bytes behind the message type; [spare] is what the slice's
    capacity holds behind them. *)
Definition Decode (src spare : bytes) : crash + (string + LogicalReplicationMessage) :=
  flags ← index src 0;
  d ← from src 1;
  lsn ← decodeLSN d;
  d ← from src 9;
  match decodeString d with
  | None => mret (inl (decodeStringError "LogicalReplicationMessage" "Prefix"))
  | Some (prefix, used) =>
      let low := (9 + used)%nat in
      d ← from src low;
      contentLength ← BigEndian_Uint 4 d;
      let low := (low + 4)%nat in
      content ← slice src spare low (low + Z.to_nat contentLength);
      mret (inr (mkLogical (Z_of_byte flags) None lsn (string_of prefix) content))
  end.

(** [M] *)
Definition MessageTypeLogicalDecodingMessage : byte := Byte.x4d.

(** [parse] is pglogrepl.Parse; the last transaction id is dereferenced for a
    transactional message. *)
Definition ParseXlogData {Raw} (inject : LogicalReplicationMessage -> Raw)
    (parse : bytes -> string + Raw) (data spare : bytes) (lastTransactionId : option Z) : crash + (string + Raw) :=
  msgType ← index data 0;
  if bool_decide (msgType = MessageTypeLogicalDecodingMessage) then
    src ← from data 1;
    r ← Decode src spare;
    match r with
    | inl e => mret (inl e)
    | inr m =>
        if IsTransactional m then
          match lastTransactionId with
          | None => inl PanicNilDereference
          | Some xid =>
              mret (inr (inject (mkLogical (Flags m) (Some xid) (MessageLSN m) (Prefix m) (Content m))))
          end
        else mret (inr (inject m))
    end
  else mret (parse data).

(** The wire format of a logical decoding message, as PostgreSQL sends it. *)
Definition encode_logical (m : LogicalReplicationMessage) : bytes :=
  (MessageTypeLogicalDecodingMessage :: byte_of_Z (Flags m) :: be_put 8 (MessageLSN m) ++
   bytes_of (Prefix m) ++ [Byte.x00] ++ enc_bytes (Content m))%list.

Lemma decodeString_app s rest :
  Byte.x00 ∉ s -> decodeString (s ++ Byte.x00 :: rest) = Some (s, S (length s)).
Proof.
  induction s as [|b s IH]; intros Hs; cbn; [done|].
  rewrite not_elem_of_cons in Hs. destruct Hs as [Hb Hs].
  rewrite bool_decide_false by congruence. by rewrite IH.
Qed.

Lemma Decode_encode m spare :
  in_u 8 (Flags m) -> in_u 64 (MessageLSN m) -> Byte.x00 ∉ bytes_of (Prefix m) ->
  encodable (length (Content m)) ->
  Decode (drop 1 (encode_logical m)) spare =
    inr (inr (mkLogical (Flags m) None (MessageLSN m) (Prefix m) (Content m))).
Proof.
  intros Hf Hl Hp Hc. unfold encode_logical. cbn [drop]. unfold Decode.
  set (f := byte_of_Z (Flags m)). set (l := be_put 8 (MessageLSN m)).
  assert (length l = 8%nat) as Ll by apply length_be_put.
  set (p := bytes_of (Prefix m)). fold p in Hp.
  set (n := be_put 4 (Z.of_nat (length (Content m)))).
  set (src := f :: l ++ p ++ [Byte.x00] ++ enc_bytes (Content m)).
  assert (src = [f] ++ l ++ p ++ [Byte.x00] ++ n ++ Content m)%list as Hsrc by done.
  rewrite (pure_run _ _ _ (index_at [] f (l ++ p ++ [Byte.x00] ++ n ++ Content m) src 0 Hsrc eq_refl)).
  rewrite (pure_run _ _ _ (from_at [f] (l ++ p ++ [Byte.x00] ++ n ++ Content m) src 1 Hsrc eq_refl)).
  unfold decodeLSN, l at 1. rewrite (pure_run _ _ _ (Uint_put 8 _ _ Hl)).
  rewrite (pure_run _ _ _ (from_at ([f] ++ l) (p ++ Byte.x00 :: n ++ Content m) src 9
    ltac:(by rewrite Hsrc, <- app_assoc) ltac:(by rewrite length_app, Ll))).
  rewrite decodeString_app by done.
  rewrite (pure_run _ _ _ (from_at ([f] ++ l ++ p ++ [Byte.x00]) (n ++ Content m) src (9 + S (length p))
    ltac:(by rewrite Hsrc, <- !app_assoc) ltac:(rewrite !length_app, Ll; cbn; lia))).
  unfold n at 1. rewrite (pure_run _ _ _ (Uint_put 4 _ _ (conj (Zle_0_nat _) Hc))).
  rewrite (pure_run _ _ _ (slice_at ([f] ++ l ++ p ++ [Byte.x00] ++ n) (Content m) [] src spare
    (9 + S (length p) + 4) (9 + S (length p) + 4 + Z.to_nat (Z.of_nat (length (Content m))))
    ltac:(by rewrite Hsrc, <- !app_assoc, app_nil_r)
    ltac:(rewrite !length_app, Ll; unfold n; rewrite length_be_put; cbn; lia)
    ltac:(by rewrite Nat2Z.id))).
  unfold f, p. rewrite Z_of_byte_of_Z, String.string_of_list_byte_of_string.
  rewrite Z.mod_small by (exact Hf). done.
Qed.

(** A logical decoding message is decoded to what the server sent (flags,
    LSN, prefix and content of any length); if it is transactional, it carries
    the transaction id of the running transaction, and when no transaction is
    running, decoding it crashes. *)
Theorem parse_logical_message {Raw} (inject : LogicalReplicationMessage -> Raw)
    (parse : bytes -> string + Raw) (m : LogicalReplicationMessage) (spare : bytes) (xid : option Z) :
  in_u 8 (Flags m) -> in_u 64 (MessageLSN m) -> Byte.x00 ∉ bytes_of (Prefix m) ->
  encodable (length (Content m)) ->
  ParseXlogData inject parse (encode_logical m) spare xid =
    if IsTransactional m then
      match xid with
      | None => inl PanicNilDereference
      | Some _ => inr (inr (inject (mkLogical (Flags m) xid (MessageLSN m) (Prefix m) (Content m))))
      end
    else inr (inr (inject (mkLogical (Flags m) None (MessageLSN m) (Prefix m) (Content m)))).
Proof.
  intros Hf Hl Hp Hc. unfold ParseXlogData.
  rewrite (pure_run _ _ MessageTypeLogicalDecodingMessage) by done.
  rewrite bool_decide_true by done.
  rewrite (pure_run _ _ (drop 1 (encode_logical m))) by done.
  rewrite (pure_run _ _ _ (Decode_encode m spare Hf Hl Hp Hc)). unfold IsTransactional. cbn.
  destruct (Flags m =? 1); [|done]. by destruct xid.
Qed.

Lemma parse_logical_message_witness :
  ParseXlogData id (fun _ => inl "unused"%string)
    (encode_logical (mkLogical 1 None 77 "prefix" [Byte.x0a])) [] (Some 9) =
    inr (inr (mkLogical 1 (Some 9) 77 "prefix" [Byte.x0a])).
Proof.
  apply (parse_logical_message id (fun _ => inl "unused"%string) (mkLogical 1 None 77 "prefix" [Byte.x0a])
           [] (Some 9)); [unfold in_u; cbn; lia..| |unfold encodable; cbn; lia].
  cbn. repeat (apply not_elem_of_cons; split; [discriminate|]). apply not_elem_of_nil.
Defined.

(** ** Tasks *)

(** schema.TableAlike as the resolver uses it. *)
Inductive table : Type :=
| THyper (h : Hypertable)
| TVanilla (t : PgTable).

Definition table_name (t : table) : string :=
  match t with
  | THyper h => Hyper.canonicalName h
  | TVanilla t => Vanilla.canonicalName t
  end.

(** Calls of a RecordReplicationEventHandler. *)
Inductive record_event : Type :=
| OnRead (lsn : Z) (t : table) (chunk : option Chunk) (newValues : values)
| OnInsert (xld : XLogData) (t : table) (chunk : option Chunk) (newValues : values)
| OnUpdate (xld : XLogData) (t : table) (chunk : option Chunk) (oldValues newValues : values)
| OnDelete (xld : XLogData) (t : table) (chunk : option Chunk) (oldValues : values) (tombstone : bool)
| OnTruncate (xld : XLogData) (t : table)
| OnMessage (xld : XLogData) (m : LogicalReplicationMessage)
| OnTransactionFinished (xld : XLogData) (m : CommitMessage).

(** Calls of a SystemCatalogReplicationEventHandler. *)
Inductive catalog_event : Type :=
| HypertableAdded (xld : XLogData) (relationId : Z) (newValues : values)
| HypertableUpdated (xld : XLogData) (relationId : Z) (oldValues newValues : values)
| HypertableDeleted (xld : XLogData) (relationId : Z) (oldValues : values)
| ChunkAdded (xld : XLogData) (relationId : Z) (newValues : values)
| ChunkUpdated (xld : XLogData) (relationId : Z) (oldValues newValues : values)
| ChunkDeleted (xld : XLogData) (relationId : Z) (oldValues : values).

(** Calls of a CompressionReplicationEventHandler. *)
Inductive compression_event : Type :=
| ChunkCompressed (xld : XLogData) (h : Hypertable) (chunk : Chunk)
| ChunkDecompressed (xld : XLogData) (h : Hypertable) (chunk : Chunk).

(** Which kind of handler a task notifies, and of what. *)
Inductive task : Type :=
| NotifyBase (xld : XLogData) (m : RelationMessage)
| NotifyLogical (xld : XLogData) (m : Message)
| NotifyRecord (e : record_event)
| NotifyCatalog (e : catalog_event)
| NotifyCompression (e : compression_event).
