(* ===== verification/SystemCatalog.v ===== *)
(** * SystemCatalog: the catalog of internal/systemcatalog

    [Catalog]: the maps and indexes of systemcatalog.go with their lookup and
    registration operations.  [CatalogEvents]: the handler of the replication
    events on TimescaleDB's own catalog tables (catalogeventhandler.go).
    The snapshotting event handler at the end of systemcatalog.go is in
    SnapshotProtocol.v.  The read-write lock serialises the operations, so each
    is one step.

    The database behind the side channel, the publication and the table filter
    are parameters: functions from what is asked to what is answered. *)

From Stdlib Require Import ZArith Lia.
From stdpp Require Import base tactics option list numbers strings gmap fin_maps relations.
From S2P Require Import Prelude Encoding Entities Values Messages.

Local Open Scope Z_scope.

Module Catalog.

Record systemCatalog : Type := mkCatalog {
  vanillaTables : gmap Z PgTable;
  hypertables : gmap Z Hypertable;
  chunks : gmap Z Chunk;
  vanillaTableNameIndex : gmap string Z;
  hypertableNameIndex : gmap string Z;
  chunkNameIndex : gmap string Z;
  chunk2Hypertable : gmap Z Z;
  hypertable2chunks : gmap Z (list Z);
  hypertable2compressed : gmap Z Z;
  compressed2hypertable : gmap Z Z;
}.

Definition NewSystemCatalog : systemCatalog := mkCatalog ∅ ∅ ∅ ∅ ∅ ∅ ∅ ∅ ∅ ∅.

(** ** Lookups *)

Definition FindVanillaTableById (relId : Z) (sc : systemCatalog) : option PgTable :=
  vanillaTables sc !! relId.

Definition FindVanillaTableByName (schema name : string) (sc : systemCatalog) : option PgTable :=
  relId ← vanillaTableNameIndex sc !! MakeRelationKey schema name;
  FindVanillaTableById relId sc.

Definition FindHypertableById (hypertableId : Z) (sc : systemCatalog) : option Hypertable :=
  hypertables sc !! hypertableId.

Definition FindHypertableByName (schema name : string) (sc : systemCatalog) : option Hypertable :=
  hypertableId ← hypertableNameIndex sc !! MakeRelationKey schema name;
  FindHypertableById hypertableId sc.

Definition FindHypertableByChunkId (chunkId : Z) (sc : systemCatalog) : option Hypertable :=
  hypertableId ← chunk2Hypertable sc !! chunkId;
  FindHypertableById hypertableId sc.

Definition FindHypertableByCompressedHypertableId (compressedHypertableId : Z) (sc : systemCatalog) :
    option Hypertable :=
  hypertableId ← compressed2hypertable sc !! compressedHypertableId;
  FindHypertableById hypertableId sc.

Definition FindCompressedHypertableByHypertableId (hypertableId : Z) (sc : systemCatalog) :
    option Hypertable :=
  compressedHypertableId ← hypertable2compressed sc !! hypertableId;
  FindHypertableById compressedHypertableId sc.

Definition FindChunkById (id : Z) (sc : systemCatalog) : option Chunk := chunks sc !! id.

Definition FindChunkByName (schemaName tableName : string) (sc : systemCatalog) : option Chunk :=
  chunkId ← chunkNameIndex sc !! MakeRelationKey schemaName tableName;
  FindChunkById chunkId sc.

(** The uncompressed and, if the lookup went through one, the compressed
    hypertable; [present] of the code is that the first is there. *)
Definition ResolveUncompressedHypertable (hypertableId : Z) (sc : systemCatalog) :
    option (Hypertable * option Hypertable) :=
  match FindHypertableById hypertableId sc with
  | Some h =>
      if negb (Hyper.IsCompressedTable h) then Some (h, None)
      else match FindHypertableByCompressedHypertableId hypertableId sc with
           | Some u => Some (u, Some h)
           | None => None
           end
  | None => None
  end.

Definition ResolveOriginHypertable (chunk : Chunk) (sc : systemCatalog) : option Hypertable :=
  fst <$> ResolveUncompressedHypertable (Chnk.hypertableId chunk) sc.

(** [enabled] is the hypertable replication filter. *)
Definition IsHypertableSelectedForReplication (enabled : Hypertable -> bool) (hypertableId : Z)
    (sc : systemCatalog) : bool :=
  match ResolveUncompressedHypertable hypertableId sc with
  | Some (u, _) => enabled u
  | None => false
  end.

(** ** Registration *)

Definition RegisterVanillaTable (table : PgTable) (sc : systemCatalog) : systemCatalog :=
  mkCatalog (<[ Vanilla.relId table := table ]> (vanillaTables sc)) (hypertables sc) (chunks sc)
    (<[ Vanilla.canonicalName table := Vanilla.relId table ]> (vanillaTableNameIndex sc))
    (hypertableNameIndex sc) (chunkNameIndex sc) (chunk2Hypertable sc) (hypertable2chunks sc)
    (hypertable2compressed sc) (compressed2hypertable sc).

Definition RegisterHypertable (h : Hypertable) (sc : systemCatalog) : systemCatalog :=
  mkCatalog (vanillaTables sc) (<[ Hyper.id h := h ]> (hypertables sc)) (chunks sc)
    (vanillaTableNameIndex sc)
    (<[ Hyper.canonicalName h := Hyper.id h ]> (hypertableNameIndex sc))
    (chunkNameIndex sc) (chunk2Hypertable sc)
    (<[ Hyper.id h := [] ]> (hypertable2chunks sc))
    (match Hyper.compressedHypertableId h with
     | Some c => <[ Hyper.id h := c ]> (hypertable2compressed sc)
     | None => hypertable2compressed sc
     end)
    (match Hyper.compressedHypertableId h with
     | Some c => <[ c := Hyper.id h ]> (compressed2hypertable sc)
     | None => compressed2hypertable sc
     end).

Definition UnregisterHypertable (h : Hypertable) (sc : systemCatalog) : systemCatalog :=
  mkCatalog (vanillaTables sc) (delete (Hyper.id h) (hypertables sc)) (chunks sc)
    (vanillaTableNameIndex sc)
    (delete (Hyper.canonicalName h) (hypertableNameIndex sc))
    (chunkNameIndex sc) (chunk2Hypertable sc)
    (delete (Hyper.id h) (hypertable2chunks sc))
    (delete (Hyper.id h) (hypertable2compressed sc))
    (delete (Hyper.id h) (compressed2hypertable sc)).

(** A chunk of an unknown hypertable is ignored. *)
Definition RegisterChunk (chunk : Chunk) (sc : systemCatalog) : systemCatalog :=
  match FindHypertableById (Chnk.hypertableId chunk) sc with
  | Some h =>
      mkCatalog (vanillaTables sc) (hypertables sc) (<[ Chnk.id chunk := chunk ]> (chunks sc))
        (vanillaTableNameIndex sc) (hypertableNameIndex sc)
        (<[ Chnk.canonicalName chunk := Chnk.id chunk ]> (chunkNameIndex sc))
        (<[ Chnk.id chunk := Chnk.hypertableId chunk ]> (chunk2Hypertable sc))
        (<[ Hyper.id h := (default [] (hypertable2chunks sc !! Hyper.id h) ++ [Chnk.id chunk])%list ]>
           (hypertable2chunks sc))
        (hypertable2compressed sc) (compressed2hypertable sc)
  | None => sc
  end.

(** The first occurrence of [id] is taken out of the slice. *)
Fixpoint remove_first (id : Z) (l : list Z) : list Z :=
  match l with
  | [] => []
  | x :: l' => if x =? id then l' else x :: remove_first id l'
  end.

Definition UnregisterChunk (chunk : Chunk) (sc : systemCatalog) : systemCatalog :=
  mkCatalog (vanillaTables sc) (hypertables sc) (delete (Chnk.id chunk) (chunks sc))
    (vanillaTableNameIndex sc) (hypertableNameIndex sc)
    (delete (Chnk.canonicalName chunk) (chunkNameIndex sc))
    (delete (Chnk.id chunk) (chunk2Hypertable sc))
    (match FindHypertableByChunkId (Chnk.id chunk) sc with
     | Some h =>
         match hypertable2chunks sc !! Hyper.id h with
         | Some l => <[ Hyper.id h := remove_first (Chnk.id chunk) l ]> (hypertable2chunks sc)
         | None => hypertable2chunks sc
         end
     | None => hypertable2chunks sc
     end)
    (hypertable2compressed sc) (compressed2hypertable sc).

(** [ApplySchemaUpdate] on the object that the catalog holds for a hypertable:
    its columns are replaced in place and every new column's type is registered
    with the type manager. *)
Definition ApplySchemaUpdate (registerColumnType : Column -> option string) (h : Hypertable)
    (columns : list Column) : G systemCatalog unit :=
  modify (fun sc =>
    mkCatalog (vanillaTables sc)
      (<[ Hyper.id h := fst (Hyper.ApplyTableSchema h columns) ]> (hypertables sc)) (chunks sc)
      (vanillaTableNameIndex sc) (hypertableNameIndex sc) (chunkNameIndex sc) (chunk2Hypertable sc)
      (hypertable2chunks sc) (hypertable2compressed sc) (compressed2hypertable sc)) ;;
  forM columns (fun c => match registerColumnType c with Some e => fail e | None => mret tt end).

(** The loop of [GetAllChunks] over the chunks in some order. *)
Definition GetAllChunks (enabled : Hypertable -> bool) (order : list (Z * Chunk)) (sc : systemCatalog) :
    list Chunk :=
  List.filter (fun c => IsHypertableSelectedForReplication enabled (Chnk.hypertableId c) sc &&
                        negb (Chnk.dropped c)) (snd <$> order).

(** ** Invariant *)

(** Every entity is found under its id, its current name and its links. *)
Record Inv (sc : systemCatalog) : Prop := {
  hypertable_ids : forall i h, hypertables sc !! i = Some h -> Hyper.id h = i;
  hypertable_names : forall i h, hypertables sc !! i = Some h ->
    hypertableNameIndex sc !! Hyper.canonicalName h = Some i;
  hypertable_links : forall i h c, hypertables sc !! i = Some h -> Hyper.compressedHypertableId h = Some c ->
    hypertable2compressed sc !! i = Some c /\ compressed2hypertable sc !! c = Some i;
  chunk_ids : forall i c, chunks sc !! i = Some c -> Chnk.id c = i;
  chunk_names : forall i c, chunks sc !! i = Some c -> chunkNameIndex sc !! Chnk.canonicalName c = Some i;
  chunk_links : forall i c, chunks sc !! i = Some c -> chunk2Hypertable sc !! i = Some (Chnk.hypertableId c);
}.

(** What the constraints on TimescaleDB's catalog tables give: names are unique,
    no two hypertables share a compressed hypertable, and a hypertable that is
    dropped is no longer another's compressed hypertable. *)
Definition name_free (h : Hypertable) (sc : systemCatalog) : Prop :=
  forall i h', hypertables sc !! i = Some h' -> i <> Hyper.id h ->
    Hyper.canonicalName h' <> Hyper.canonicalName h /\
    (forall c, Hyper.compressedHypertableId h = Some c -> Hyper.compressedHypertableId h' <> Some c).

Definition unreferenced (h : Hypertable) (sc : systemCatalog) : Prop :=
  forall i h', hypertables sc !! i = Some h' -> i <> Hyper.id h ->
    Hyper.canonicalName h' <> Hyper.canonicalName h /\
    Hyper.compressedHypertableId h' <> Some (Hyper.id h).

Definition chunk_name_free (c : Chunk) (sc : systemCatalog) : Prop :=
  forall i c', chunks sc !! i = Some c' -> i <> Chnk.id c -> Chnk.canonicalName c' <> Chnk.canonicalName c.

Lemma Inv_empty : Inv NewSystemCatalog.
Proof. constructor; intros *; cbn; rewrite lookup_empty; done. Qed.

Lemma RegisterHypertable_Inv h sc : Inv sc -> name_free h sc -> Inv (RegisterHypertable h sc).
Proof.
  intros [H1 H2 H3 H4 H5 H6] Hfree. constructor; cbn; try done.
  - intros i h'. rewrite lookup_insert_Some. intros [[<- <-]|[_ Hi]]; eauto.
  - intros i h'. rewrite !lookup_insert_Some. intros [[<- <-]|[Hne Hi]]; [by left|right].
    split; [|by apply H2]. destruct (Hfree i h' Hi (not_eq_sym Hne)) as [Hn _]. done.
  - intros i h' c. rewrite lookup_insert_Some. intros [[<- <-]|[Hne Hi]] Hc.
    + rewrite Hc. by rewrite !lookup_insert_eq.
    + destruct (H3 i h' c Hi Hc) as [Ha Hb]. destruct (Hyper.compressedHypertableId h) as [d|] eqn:Hd; [|done].
      destruct (Hfree i h' Hi (not_eq_sym Hne)) as [_ Hshare].
      rewrite !lookup_insert_ne; [done| |done]. intros ->. by apply (Hshare c).
Qed.

Lemma UnregisterHypertable_Inv h sc : Inv sc -> unreferenced h sc -> Inv (UnregisterHypertable h sc).
Proof.
  intros [H1 H2 H3 H4 H5 H6] Hfree. constructor; cbn; try done.
  - intros i h'. rewrite lookup_delete_Some. intros [_ Hi]; eauto.
  - intros i h'. rewrite !lookup_delete_Some. intros [Hne Hi]. split; [|by apply H2].
    destruct (Hfree i h' Hi (not_eq_sym Hne)) as [Hn _]. done.
  - intros i h' c. rewrite !lookup_delete_Some. intros [Hne Hi] Hc.
    destruct (H3 i h' c Hi Hc) as [Ha Hb]. destruct (Hfree i h' Hi (not_eq_sym Hne)) as [_ Hr].
    split_and!; [done|done| |done]. intros <-. done.
Qed.

Lemma RegisterChunk_Inv c sc : Inv sc -> chunk_name_free c sc -> Inv (RegisterChunk c sc).
Proof.
  intros Hinv Hfree. unfold RegisterChunk. case_match; [|done].
  destruct Hinv as [H1 H2 H3 H4 H5 H6]. constructor; cbn; try done.
  - intros i c'. rewrite lookup_insert_Some. intros [[<- <-]|[_ Hi]]; eauto.
  - intros i c'. rewrite !lookup_insert_Some. intros [[<- <-]|[Hne Hi]]; [by left|right].
    split; [|by apply H5]. apply not_eq_sym, (Hfree i c' Hi (not_eq_sym Hne)).
  - intros i c'. rewrite !lookup_insert_Some. intros [[<- <-]|[Hne Hi]]; [by left|right]. eauto.
Qed.

Lemma UnregisterChunk_Inv c sc : Inv sc -> chunk_name_free c sc -> Inv (UnregisterChunk c sc).
Proof.
  intros [H1 H2 H3 H4 H5 H6] Hfree. constructor; cbn; try done.
  - intros i c'. rewrite lookup_delete_Some. intros [_ Hi]; eauto.
  - intros i c'. rewrite !lookup_delete_Some. intros [Hne Hi]. split; [|by apply H5].
    apply not_eq_sym, (Hfree i c' Hi (not_eq_sym Hne)).
  - intros i c'. rewrite !lookup_delete_Some. intros [Hne Hi]. split; [done|by apply H6].
Qed.

(** Replacing a hypertable by one with the same id, name and link. *)
Lemma update_columns_Inv h sc cols :
  Inv sc -> hypertables sc !! Hyper.id h = Some h ->
  Inv (mkCatalog (vanillaTables sc)
         (<[ Hyper.id h := fst (Hyper.ApplyTableSchema h cols) ]> (hypertables sc)) (chunks sc)
         (vanillaTableNameIndex sc) (hypertableNameIndex sc) (chunkNameIndex sc) (chunk2Hypertable sc)
         (hypertable2chunks sc) (hypertable2compressed sc) (compressed2hypertable sc)).
Proof.
  intros [H1 H2 H3 H4 H5 H6] Hh.
  assert (Hyper.id (fst (Hyper.ApplyTableSchema h cols)) = Hyper.id h /\
    Hyper.canonicalName (fst (Hyper.ApplyTableSchema h cols)) = Hyper.canonicalName h /\
    Hyper.compressedHypertableId (fst (Hyper.ApplyTableSchema h cols)) = Hyper.compressedHypertableId h)
    as (Eid & Ename & Elink).
  { unfold Hyper.ApplyTableSchema, BaseTable.ApplyTableSchema, Hyper.canonicalName, Hyper.entity.
    by destruct (BaseTable.compare_columns _ _ _ _ _ _). }
  constructor; cbn; try done.
  - intros i h'. rewrite lookup_insert_Some. intros [[<- <-]|[_ Hi]]; eauto.
  - intros i h'. rewrite lookup_insert_Some. intros [[<- <-]|[_ Hi]]; [rewrite Ename|]; eauto.
  - intros i h' c. rewrite lookup_insert_Some. intros [[<- <-]|[_ Hi]]; [rewrite Elink|]; eauto.
Qed.

Lemma FindHypertableByName_Inv sc i h :
  Inv sc -> hypertables sc !! i = Some h ->
  FindHypertableByName (Hyper.schemaName h) (Hyper.tableName h) sc = Some h.
Proof.
  intros Hinv Hi. unfold FindHypertableByName.
  change (MakeRelationKey (Hyper.schemaName h) (Hyper.tableName h)) with (Hyper.canonicalName h).
  by rewrite (hypertable_names _ Hinv _ _ Hi).
Qed.

Lemma FindChunkByName_Inv sc i c :
  Inv sc -> chunks sc !! i = Some c ->
  FindChunkByName (SchemaName (Chnk.entity c)) (TableName (Chnk.entity c)) sc = Some c.
Proof.
  intros Hinv Hi. unfold FindChunkByName.
  change (MakeRelationKey (SchemaName (Chnk.entity c)) (TableName (Chnk.entity c)))
    with (Chnk.canonicalName c).
  by rewrite (chunk_names _ Hinv _ _ Hi).
Qed.

End Catalog.

(** ** The answers of the database *)

Class Database := {
  ReadContinuousAggregate : Z -> string + option (string * string);
  ReadReplicaIdentity : string -> string -> string + string;
  readHypertableSchema0 : Hypertable -> string + list Column;
  registerColumnType : Column -> option string;
  ExistsTableInPublication : Chunk -> string + bool;
}.

(** ** The catalog's event handler (catalogeventhandler.go) *)

Module CatalogEvents.
Import Catalog.

(** The catalog, and the chunk snapshots requested so far: the hypertable, the
    chunk and the log entry that announced it. *)
Record state : Type := mkState {
  catalog : systemCatalog;
  snapshots : list (Hypertable * Chunk * XLogData);
}.

Definition on_catalog {A} (m : G systemCatalog A) : G state A :=
  zoom catalog (fun c s => mkState c (snapshots s)) m.

(** [values[key].(T)] without the second result. *)
Definition as_int32 (vs : values) (key : string) : crash + Z :=
  match vs !! key with Some (VInt32 z) => inr z | _ => inl PanicTypeAssertion end.
Definition as_int16 (vs : values) (key : string) : crash + Z :=
  match vs !! key with Some (VInt16 z) => inr z | _ => inl PanicTypeAssertion end.
Definition as_string (vs : values) (key : string) : crash + string :=
  match vs !! key with Some (VString s) => inr s | _ => inl PanicTypeAssertion end.
Definition as_bool (vs : values) (key : string) : crash + bool :=
  match vs !! key with Some (VBool b) => inr b | _ => inl PanicTypeAssertion end.

(** [if v, ok := values[key].(int32); ok { p = &v }] *)
Definition maybe_int32 (vs : values) (key : string) : option Z :=
  match vs !! key with Some (VInt32 z) => Some z | _ => None end.

Record hypertable_row : Type := mkHypertableRow {
  hr_id : Z;
  hr_schemaName : string;
  hr_hypertableName : string;
  hr_associatedSchemaName : string;
  hr_associatedTablePrefix : string;
  hr_compressedHypertableId : option Z;
  hr_compressionState : Z;
}.

Definition decomposeHypertable (vs : values) : crash + hypertable_row :=
  id ← as_int32 vs "id";
  schemaName ← as_string vs "schema_name";
  hypertableName ← as_string vs "table_name";
  associatedSchemaName ← as_string vs "associated_schema_name";
  associatedTablePrefix ← as_string vs "associated_table_prefix";
  compressionState ← as_int16 vs "compression_state";
  mret (mkHypertableRow id schemaName hypertableName associatedSchemaName associatedTablePrefix
          (maybe_int32 vs "compressed_hypertable_id") compressionState).

Record chunk_row : Type := mkChunkRow {
  cr_id : Z;
  cr_hypertableId : Z;
  cr_schemaName : string;
  cr_tableName : string;
  cr_dropped : bool;
  cr_status : Z;
  cr_compressedChunkId : option Z;
}.

Definition decomposeChunk (vs : values) : crash + chunk_row :=
  id ← as_int32 vs "id";
  hypertableId ← as_int32 vs "hypertable_id";
  schemaName ← as_string vs "schema_name";
  tableName ← as_string vs "table_name";
  dropped ← as_bool vs "dropped";
  status ← as_int32 vs "status";
  mret (mkChunkRow id hypertableId schemaName tableName dropped status
          (maybe_int32 vs "compressed_chunk_id")).

Section Handler.
Context `{Database} (enabled : Hypertable -> bool).

(** [sideChannel.ReadHypertableSchema] for one hypertable, with
    [ApplySchemaUpdate] as its callback. *)
Definition ReadHypertableSchema (h : Hypertable) : G state unit :=
  if (negb (Hyper.IsContinuousAggregate h) && (Hyper.schemaName h =? "_timescaledb_internal")%string) ||
     (Hyper.schemaName h =? "_timescaledb_catalog")%string
  then mret tt
  else columns ← or_fail (readHypertableSchema0 h);
       on_catalog (ApplySchemaUpdate registerColumnType h columns).

Definition OnRelationEvent (msg : RelationMessage) : G state unit :=
  if (Namespace msg =? "_timescaledb_catalog")%string then mret tt
  else
    s ← get;
    match FindHypertableByName (Namespace msg) (RelationName msg) (catalog s) with
    | Some h =>
        if negb (Hyper.IsContinuousAggregate h) && negb (Namespace msg =? "_timescaledb_internal")%string
        then mret tt
        else ReadHypertableSchema h
    | None => mret tt
    end.

Definition OnHypertableAddedEvent (newValues : values) : G state unit :=
  r ← lift (decomposeHypertable newValues);
  view ← (if IsContinuousAggregateHypertable (hr_hypertableName r)
          then match ReadContinuousAggregate (hr_id r) with
               | inl e => fail ("failed reading continuous aggregate information: " ++ e)%string
               | inr v => mret v
               end
          else mret None);
  replicaIdentity ← or_fail (ReadReplicaIdentity (hr_schemaName r) (hr_hypertableName r));
  let h := Hyper.NewHypertable (hr_id r) (hr_schemaName r) (hr_hypertableName r)
             (hr_associatedSchemaName r) (hr_associatedTablePrefix r) (hr_compressedHypertableId r)
             (hr_compressionState r) (fst <$> view) (snd <$> view) replicaIdentity in
  on_catalog (modify (RegisterHypertable h)) ;;
  ReadHypertableSchema h.

Definition OnHypertableUpdatedEvent (newValues : values) : G state unit :=
  r ← lift (decomposeHypertable newValues);
  s ← get;
  match FindHypertableById (hr_id r) (catalog s) with
  | Some hypertable =>
      replicaIdentity ← or_fail (ReadReplicaIdentity (Hyper.schemaName hypertable) (Hyper.tableName hypertable));
      let h := fst (Hyper.ApplyChanges hypertable (hr_schemaName r) (hr_hypertableName r)
                 (hr_associatedSchemaName r) (hr_associatedTablePrefix r) (hr_compressedHypertableId r)
                 (hr_compressionState r) replicaIdentity) in
      on_catalog (modify (RegisterHypertable h))
  | None => mret tt
  end.

Definition OnHypertableDeletedEvent (oldValues : values) : G state unit :=
  hypertableId ← lift (as_int32 oldValues "id");
  s ← get;
  match FindHypertableById hypertableId (catalog s) with
  | Some h => on_catalog (modify (UnregisterHypertable h))
  | None => mret tt
  end.

(** [snapshotChunkWithXld]: the request that the snapshotter is handed. *)
Definition snapshotChunkWithXld (xld : XLogData) (chunk : Chunk) : G state unit :=
  s ← get;
  match FindHypertableById (Chnk.hypertableId chunk) (catalog s) with
  | Some h => put (mkState (catalog s) (snapshots s ++ [(h, chunk, xld)])%list)
  | None => mret tt
  end.

Definition OnChunkAddedEvent (xld : XLogData) (newValues : values) : G state unit :=
  r ← lift (decomposeChunk newValues);
  let c := Chnk.NewChunk (cr_id r) (cr_hypertableId r) (cr_schemaName r) (cr_tableName r) (cr_dropped r)
             (cr_status r) (cr_compressedChunkId r) in
  on_catalog (modify (RegisterChunk c)) ;;
  s ← get;
  match FindHypertableById (cr_hypertableId r) (catalog s) with
  | Some h =>
      if negb (Chnk.IsCompressed c) &&
         IsHypertableSelectedForReplication enabled (cr_hypertableId r) (catalog s)
      then _ ← or_fail (ExistsTableInPublication c);
           snapshotChunkWithXld xld c
      else mret tt
  | None => mret tt
  end.

Definition OnChunkUpdatedEvent (newValues : values) : G state unit :=
  r ← lift (decomposeChunk newValues);
  s ← get;
  match FindChunkById (cr_id r) (catalog s) with
  | Some chunk =>
      let c := fst (Chnk.ApplyChanges chunk (cr_schemaName r) (cr_tableName r) (cr_dropped r) (cr_status r)
                      (cr_compressedChunkId r)) in
      on_catalog (modify (RegisterChunk c))
  | None => mret tt
  end.

Definition OnChunkDeletedEvent (oldValues : values) : G state unit :=
  chunkId ← lift (as_int32 oldValues "id");
  s ← get;
  match FindChunkById chunkId (catalog s) with
  | Some chunk => on_catalog (modify (UnregisterChunk chunk))
  | None => mret tt
  end.

Definition handle (e : catalog_event) : G state unit :=
  match e with
  | HypertableAdded _ _ newValues => OnHypertableAddedEvent newValues
  | HypertableUpdated _ _ _ newValues => OnHypertableUpdatedEvent newValues
  | HypertableDeleted _ _ oldValues => OnHypertableDeletedEvent oldValues
  | ChunkAdded xld _ newValues => OnChunkAddedEvent xld newValues
  | ChunkUpdated _ _ _ newValues => OnChunkUpdatedEvent newValues
  | ChunkDeleted _ _ oldValues => OnChunkDeletedEvent oldValues
  end.

(** *** Events that respect the constraints of TimescaleDB's catalog *)

Definition row_free (r : hypertable_row) (sc : systemCatalog) : Prop :=
  forall i h', hypertables sc !! i = Some h' -> i <> hr_id r ->
    Hyper.canonicalName h' <> MakeRelationKey (hr_schemaName r) (hr_hypertableName r) /\
    (forall c, hr_compressedHypertableId r = Some c -> Hyper.compressedHypertableId h' <> Some c).

Definition chunk_row_free (r : chunk_row) (sc : systemCatalog) : Prop :=
  forall i c', chunks sc !! i = Some c' -> i <> cr_id r ->
    Chnk.canonicalName c' <> MakeRelationKey (cr_schemaName r) (cr_tableName r).

(** Table names are unique, a compressed hypertable has one origin, and a
    hypertable is dropped after the reference to it. *)
Definition consistent (e : catalog_event) (sc : systemCatalog) : Prop :=
  match e with
  | HypertableAdded _ _ vs | HypertableUpdated _ _ _ vs =>
      forall r, decomposeHypertable vs = inr r -> row_free r sc
  | HypertableDeleted _ _ vs =>
      forall id, as_int32 vs "id" = inr id ->
        forall i h', hypertables sc !! i = Some h' -> Hyper.compressedHypertableId h' <> Some id
  | ChunkAdded _ _ vs | ChunkUpdated _ _ _ vs =>
      forall r, decomposeChunk vs = inr r -> chunk_row_free r sc
  | ChunkDeleted _ _ _ => True
  end.

(** The final catalog of a run, after an error as well. *)
Definition leaves {A} (P : state -> Prop) (o : outcome state A) : Prop :=
  match o with Ret _ s | Err _ s => P s | Crash _ => True end.

Lemma leaves_bind {A B} (P : state -> Prop) (m : G state A) (k : A -> G state B) s :
  leaves P (m s) -> (forall a s', m s = Ret a s' -> leaves P (k a s')) -> leaves P ((m ≫= k) s).
Proof.
  intros Hm Hk. unfold mbind, G_bind. destruct (m s) as [a s'|e s'|c] eqn:E; [by apply Hk|done|done].
Qed.

Definition ok (s : state) : Prop := Inv (catalog s).

Lemma leaves_lift {A} (P : state -> Prop) (r : crash + A) s : P s -> leaves P (lift r s).
Proof. by destruct r. Qed.

Lemma leaves_or_fail {A} (P : state -> Prop) (r : string + A) s : P s -> leaves P (or_fail r s).
Proof. by destruct r. Qed.

Lemma forM_fail_state {A} (f : A -> option string) (l : list A) (sc : systemCatalog) :
  match forM l (fun c => match f c with Some e => fail e | None => mret tt end) sc with
  | Ret _ sc' | Err _ sc' => sc' = sc
  | Crash _ => False
  end.
Proof.
  induction l as [|c l IH]; cbn; [done|]. unfold mbind, G_bind. by destruct (f c).
Qed.

Lemma ReadHypertableSchema_ok h s :
  ok s -> hypertables (catalog s) !! Hyper.id h = Some h -> leaves ok (ReadHypertableSchema h s).
Proof.
  intros Hok Hh. unfold ReadHypertableSchema. case_match; [done|].
  apply leaves_bind; [by apply leaves_or_fail|]. intros cols s' Hr.
  apply or_fail_ret in Hr as [_ ->].
  unfold on_catalog, zoom, ApplySchemaUpdate.
  pose proof (update_columns_Inv h (catalog s) cols Hok Hh) as Hinv.
  unfold mbind, G_bind, modify. match goal with |- context [forM cols ?body ?sc] =>
    pose proof (forM_fail_state registerColumnType cols sc) as Hf; destruct (forM cols body sc) end;
    cbn; [by subst|by subst|done].
Qed.

Lemma name_free_row h r sc :
  Hyper.id h = hr_id r -> Hyper.canonicalName h = MakeRelationKey (hr_schemaName r) (hr_hypertableName r) ->
  Hyper.compressedHypertableId h = hr_compressedHypertableId r ->
  row_free r sc -> name_free h sc.
Proof.
  intros Hid Hn Hc Hfree i h' Hi Hne. rewrite Hid in Hne. rewrite Hn, Hc. exact (Hfree i h' Hi Hne).
Qed.

Lemma OnHypertableAdded_ok vs s :
  ok s -> (forall r, decomposeHypertable vs = inr r -> row_free r (catalog s)) ->
  leaves ok (OnHypertableAddedEvent vs s).
Proof.
  intros Hok Hfree. unfold OnHypertableAddedEvent.
  apply leaves_bind; [by apply leaves_lift|]. intros r s' Hr.
  apply lift_ret in Hr as [Hd ->].
  apply leaves_bind; [by repeat case_match|]. intros view s0 Hv.
  assert (s0 = s) as -> by (revert Hv; repeat case_match; intros [=]; congruence).
  apply leaves_bind; [by apply leaves_or_fail|]. intros ri s1 Hri.
  apply or_fail_ret in Hri as [_ ->].
  set (h := Hyper.NewHypertable _ _ _ _ _ _ _ _ _ _).
  assert (Inv (RegisterHypertable h (catalog s))) as Hreg.
  { apply RegisterHypertable_Inv; [done|]. by apply (name_free_row h r); [..|apply Hfree]. }
  apply leaves_bind; [done|]. intros [] s2 Hs2. cbn in Hs2. simplify_eq.
  apply ReadHypertableSchema_ok; [done|]. cbn. apply lookup_insert_eq.
Qed.

Lemma OnHypertableUpdated_ok vs s :
  ok s -> (forall r, decomposeHypertable vs = inr r -> row_free r (catalog s)) ->
  leaves ok (OnHypertableUpdatedEvent vs s).
Proof.
  intros Hok Hfree. unfold OnHypertableUpdatedEvent.
  apply leaves_bind; [by apply leaves_lift|]. intros r s' Hr.
  apply lift_ret in Hr as [Hd ->].
  apply leaves_bind; [done|]. intros ? ? [= <- <-].
  destruct (FindHypertableById (hr_id r) (catalog s)) as [h|] eqn:Hh; [|done].
  apply leaves_bind; [by apply leaves_or_fail|]. intros ri s1 Hri.
  apply or_fail_ret in Hri as [_ ->].
  cbn. unfold ok. cbn. apply RegisterHypertable_Inv; [done|].
  apply (name_free_row _ r); [|done|done|by apply Hfree].
  cbn. by apply (hypertable_ids _ Hok).
Qed.

Lemma OnHypertableDeleted_ok vs s :
  ok s ->
  (forall id, as_int32 vs "id" = inr id -> forall i h', hypertables (catalog s) !! i = Some h' ->
     Hyper.compressedHypertableId h' <> Some id) ->
  leaves ok (OnHypertableDeletedEvent vs s).
Proof.
  intros Hok Hfree. unfold OnHypertableDeletedEvent.
  apply leaves_bind; [by apply leaves_lift|]. intros id s' Hr.
  apply lift_ret in Hr as [Hd ->].
  apply leaves_bind; [done|]. intros ? ? [= <- <-].
  destruct (FindHypertableById id (catalog s)) as [h|] eqn:Hh; [|done].
  cbn. unfold ok. cbn. apply UnregisterHypertable_Inv; [done|].
  intros i h' Hi Hne. rewrite (hypertable_ids _ Hok _ _ Hh) in *. split; [|by eapply Hfree].
  intros Heq. pose proof (hypertable_names _ Hok _ _ Hi) as H1. pose proof (hypertable_names _ Hok _ _ Hh) as H2.
  rewrite Heq in H1. congruence.
Qed.

Lemma chunk_free_row c r sc :
  Chnk.id c = cr_id r -> Chnk.canonicalName c = MakeRelationKey (cr_schemaName r) (cr_tableName r) ->
  chunk_row_free r sc -> chunk_name_free c sc.
Proof. intros Hid Hn Hfree i c' Hi Hne. rewrite Hid in Hne. rewrite Hn. by apply (Hfree i). Qed.

Lemma OnChunkAdded_ok xld vs s :
  ok s -> (forall r, decomposeChunk vs = inr r -> chunk_row_free r (catalog s)) ->
  leaves ok (OnChunkAddedEvent xld vs s).
Proof.
  intros Hok Hfree. unfold OnChunkAddedEvent.
  apply leaves_bind; [by apply leaves_lift|]. intros r s' Hr.
  apply lift_ret in Hr as [Hd ->].
  set (c := Chnk.NewChunk _ _ _ _ _ _ _).
  assert (Inv (RegisterChunk c (catalog s))) as Hreg.
  { apply RegisterChunk_Inv; [done|]. by apply (chunk_free_row c r); [..|apply Hfree]. }
  apply leaves_bind; [done|]. intros [] s2 Hs2. cbn in Hs2. simplify_eq.
  apply leaves_bind; [done|]. intros ? ? [= <- <-].
  destruct (FindHypertableById _ _); [|done]. case_match; [|done].
  apply leaves_bind; [by apply leaves_or_fail|]. intros b s3 Hb.
  apply or_fail_ret in Hb as [_ ->].
  unfold snapshotChunkWithXld. apply leaves_bind; [done|]. intros ? ? [= <- <-].
  by destruct (FindHypertableById _ _).
Qed.

Lemma OnChunkUpdated_ok vs s :
  ok s -> (forall r, decomposeChunk vs = inr r -> chunk_row_free r (catalog s)) ->
  leaves ok (OnChunkUpdatedEvent vs s).
Proof.
  intros Hok Hfree. unfold OnChunkUpdatedEvent.
  apply leaves_bind; [by apply leaves_lift|]. intros r s' Hr.
  apply lift_ret in Hr as [Hd ->].
  apply leaves_bind; [done|]. intros ? ? [= <- <-].
  destruct (FindChunkById (cr_id r) (catalog s)) as [c|] eqn:Hc; [|done].
  cbn. unfold ok. cbn. apply RegisterChunk_Inv; [done|].
  apply (chunk_free_row _ r); [|done|by apply Hfree]. cbn. by apply (chunk_ids _ Hok).
Qed.

Lemma OnChunkDeleted_ok vs s : ok s -> leaves ok (OnChunkDeletedEvent vs s).
Proof.
  intros Hok. unfold OnChunkDeletedEvent.
  apply leaves_bind; [by apply leaves_lift|]. intros id s' Hr.
  apply lift_ret in Hr as [Hd ->].
  apply leaves_bind; [done|]. intros ? ? [= <- <-].
  destruct (FindChunkById id (catalog s)) as [c|] eqn:Hc; [|done].
  cbn. unfold ok. cbn. apply UnregisterChunk_Inv; [done|].
  intros i c' Hi Hne. rewrite (chunk_ids _ Hok _ _ Hc) in *. intros Heq.
  pose proof (chunk_names _ Hok _ _ Hi) as H1. pose proof (chunk_names _ Hok _ _ Hc) as H2.
  rewrite Heq in H1. congruence.
Qed.

Lemma handle_ok e s : ok s -> consistent e (catalog s) -> leaves ok (handle e s).
Proof.
  intros Hok Hc. destruct e; cbn in *; auto using OnHypertableAdded_ok, OnHypertableUpdated_ok,
    OnHypertableDeleted_ok, OnChunkAdded_ok, OnChunkUpdated_ok, OnChunkDeleted_ok.
Qed.

(** One event of the stream, handled; an error is logged and the stream goes on. *)
Definition event_step (s s' : state) : Prop :=
  exists e, consistent e (catalog s) /\
    (handle e s = Ret tt s' \/ exists msg, handle e s = Err msg s').

Definition started : state := mkState NewSystemCatalog [].

Lemma reachable_ok s : rtc event_step started s -> ok s.
Proof.
  apply rtc_invariant; [apply Inv_empty|].
  intros a b Ha (e & Hc & Hrun). pose proof (handle_ok e a Ha Hc) as Hl.
  destruct Hrun as [Hr|[msg Hr]]; by rewrite Hr in Hl.
Qed.

(** C9. The catalog's indexes never lose an entity: after any sequence of catalog
    events that respects the constraints of TimescaleDB's catalog tables, with
    errors of the side channel in between, every registered hypertable is found
    by its id and its current name and through the id of its compressed
    hypertable, and every registered chunk is found by its id and its current
    name and leads to its hypertable. *)
Theorem catalog_lookups_complete (s : state) :
  rtc event_step started s ->
  let sc := catalog s in
  (forall i h, hypertables sc !! i = Some h ->
     FindHypertableById (Hyper.id h) sc = Some h /\
     FindHypertableByName (Hyper.schemaName h) (Hyper.tableName h) sc = Some h /\
     (forall c, Hyper.compressedHypertableId h = Some c ->
        FindHypertableByCompressedHypertableId c sc = Some h /\
        FindCompressedHypertableByHypertableId i sc = FindHypertableById c sc)) /\
  (forall i c, chunks sc !! i = Some c ->
     FindChunkById (Chnk.id c) sc = Some c /\
     FindChunkByName (SchemaName (Chnk.entity c)) (TableName (Chnk.entity c)) sc = Some c /\
     FindHypertableByChunkId (Chnk.id c) sc = FindHypertableById (Chnk.hypertableId c) sc).
Proof.
  intros Hreach sc. pose proof (reachable_ok s Hreach) as Hinv. split.
  - intros i h Hi. pose proof (hypertable_ids _ Hinv _ _ Hi) as Hid. split; [by rewrite Hid|].
    split; [by eapply FindHypertableByName_Inv|]. intros c Hc.
    destruct (hypertable_links _ Hinv _ _ _ Hi Hc) as [H1 H2].
    unfold FindHypertableByCompressedHypertableId, FindCompressedHypertableByHypertableId, sc.
    by rewrite H1, H2.
  - intros i c Hi. pose proof (chunk_ids _ Hinv _ _ Hi) as Hid. split; [by rewrite Hid|].
    split; [by eapply FindChunkByName_Inv|]. unfold FindHypertableByChunkId, sc.
    by rewrite Hid, (chunk_links _ Hinv _ _ Hi).
Qed.

Lemma RegisterChunk_hypertables c i sc :
  FindHypertableById i (RegisterChunk c sc) = FindHypertableById i sc.
Proof. unfold RegisterChunk. by case_match. Qed.

Lemma RegisterChunk_selected c i sc :
  IsHypertableSelectedForReplication enabled i (RegisterChunk c sc) =
  IsHypertableSelectedForReplication enabled i sc.
Proof. unfold RegisterChunk. by case_match. Qed.

(** A chunk of a known hypertable that appears in the catalog is registered,
    and a snapshot of it is requested -- exactly once, with the log entry that
    announced it -- precisely when the chunk is not a compressed one and its
    (origin) hypertable is selected for replication. *)
Theorem chunk_added_snapshots (xld : XLogData) (vs : values) (s : state) (r : chunk_row) (h : Hypertable) (b : bool) :
  decomposeChunk vs = inr r -> hypertables (catalog s) !! cr_hypertableId r = Some h ->
  Hyper.id h = cr_hypertableId r ->
  let c := Chnk.NewChunk (cr_id r) (cr_hypertableId r) (cr_schemaName r) (cr_tableName r) (cr_dropped r)
             (cr_status r) (cr_compressedChunkId r) in
  ExistsTableInPublication c = inr b ->
  exists s', OnChunkAddedEvent xld vs s = Ret tt s' /\
    FindChunkById (cr_id r) (catalog s') = Some c /\
    FindHypertableByChunkId (cr_id r) (catalog s') = Some h /\
    snapshots s' =
      if negb (String.prefix "compress_" (cr_tableName r)) &&
         IsHypertableSelectedForReplication enabled (cr_hypertableId r) (catalog s)
      then (snapshots s ++ [(h, c, xld)])%list else snapshots s.
Proof.
  intros Hd Hh Hid c Hpub. unfold OnChunkAddedEvent. rewrite Hd.
  rewrite (bind_run (lift (inr r)) _ s r s eq_refl). fold c.
  set (s1 := mkState (RegisterChunk c (catalog s)) (snapshots s)).
  rewrite (bind_run (on_catalog (modify (RegisterChunk c))) _ s tt s1 eq_refl).
  rewrite (bind_run get _ s1 s1 s1 eq_refl).
  assert (FindHypertableById (cr_hypertableId r) (catalog s1) = Some h) as Hh1
    by (cbn [s1 catalog]; by rewrite RegisterChunk_hypertables).
  assert (FindChunkById (cr_id r) (catalog s1) = Some c /\
    FindHypertableByChunkId (cr_id r) (catalog s1) = Some h) as [Hc1 Hhc1].
  { cbn. unfold RegisterChunk, FindHypertableById, c. cbn [Chnk.hypertableId Chnk.NewChunk]. rewrite Hh.
    unfold FindChunkById, FindHypertableByChunkId, FindHypertableById. cbn. rewrite !lookup_insert_eq. done. }
  rewrite Hh1. change (catalog s1) with (RegisterChunk c (catalog s)). rewrite RegisterChunk_selected.
  change (Chnk.IsCompressed c) with (String.prefix "compress_" (cr_tableName r)).
  destruct (negb _ && _).
  - rewrite Hpub, (bind_run (or_fail (inr b)) _ s1 b s1 eq_refl). unfold snapshotChunkWithXld.
    rewrite (bind_run get _ s1 s1 s1 eq_refl).
    change (Chnk.hypertableId c) with (cr_hypertableId r). rewrite Hh1. eexists. split; [done|]. done.
  - exists s1. done.
Qed.

(** A renamed hypertable is also found under its old name: the update adds
    the new name to the index and leaves the old one in place. *)
Theorem renamed_hypertable_found_by_old_name (vs : values) (s : state) (r : hypertable_row) (h : Hypertable)
    (replicaIdentity : string) :
  ok s -> decomposeHypertable vs = inr r -> hypertables (catalog s) !! hr_id r = Some h ->
  ReadReplicaIdentity (Hyper.schemaName h) (Hyper.tableName h) = inr replicaIdentity ->
  Hyper.canonicalName h <> MakeRelationKey (hr_schemaName r) (hr_hypertableName r) ->
  exists s' h', OnHypertableUpdatedEvent vs s = Ret tt s' /\
    FindHypertableByName (hr_schemaName r) (hr_hypertableName r) (catalog s') = Some h' /\
    FindHypertableByName (Hyper.schemaName h) (Hyper.tableName h) (catalog s') = Some h' /\
    Hyper.canonicalName h' <> Hyper.canonicalName h.
Proof.
  intros Hok Hd Hh Hri Hne. unfold OnHypertableUpdatedEvent. rewrite Hd.
  rewrite (bind_run (lift (inr r)) _ s r s eq_refl), (bind_run get _ s s s eq_refl).
  unfold FindHypertableById at 1. rewrite Hh, Hri, (bind_run (or_fail (inr replicaIdentity)) _ s _ s eq_refl).
  pose proof (hypertable_ids _ Hok _ _ Hh) as Hid.
  eexists _, _. split; [done|]. cbn [catalog]. unfold FindHypertableByName, FindHypertableById.
  cbn [RegisterHypertable hypertableNameIndex hypertables Hyper.ApplyChanges fst Hyper.id].
  change (MakeRelationKey (Hyper.schemaName h) (Hyper.tableName h)) with (Hyper.canonicalName h).
  match goal with |- context [Hyper.canonicalName ?x] =>
    change (Hyper.canonicalName x) with (MakeRelationKey (hr_schemaName r) (hr_hypertableName r)) end.
  rewrite lookup_insert_eq, lookup_insert_ne by done.
  rewrite (hypertable_names _ Hok _ _ Hh), Hid. cbn [mbind option_bind].
  rewrite lookup_insert_eq. done.
Qed.

End Handler.

(** *** Concrete inputs *)

Definition quiet_database : Database := {|
  ReadContinuousAggregate _ := inr None;
  ReadReplicaIdentity _ _ := inr "d"%string;
  readHypertableSchema0 _ := inr [];
  registerColumnType _ := None;
  ExistsTableInPublication _ := inr false;
|}.

Definition sample_xld : XLogData := mkXLogData 100 200 0 [] "db" 0 0 7.

Definition hypertable_values (id : Z) (name : string) : values :=
  list_to_map [("id", VInt32 id); ("schema_name", VString "public"); ("table_name", VString name);
    ("associated_schema_name", VString "_timescaledb_internal");
    ("associated_table_prefix", VString "_hyper_1"); ("compression_state", VInt16 0)]%string.

Definition chunk_values (id hypertableId : Z) (name : string) : values :=
  list_to_map [("id", VInt32 id); ("hypertable_id", VInt32 hypertableId);
    ("schema_name", VString "_timescaledb_internal"); ("table_name", VString name);
    ("dropped", VBool false); ("status", VInt32 0)]%string.

Definition after_event (e : catalog_event) (s : state) : state :=
  match @handle quiet_database (fun _ => true) e s with Ret _ s' | Err _ s' => s' | Crash _ => s end.

Definition with_hypertable : state :=
  after_event (HypertableAdded sample_xld 1 (hypertable_values 1 "metrics")) started.
Definition with_chunk : state :=
  after_event (ChunkAdded sample_xld 2 (chunk_values 10 1 "_hyper_1_10_chunk")) with_hypertable.

Lemma with_hypertable_reachable : rtc (@event_step quiet_database (fun _ => true)) started with_hypertable.
Proof.
  eapply rtc_once. exists (HypertableAdded sample_xld 1 (hypertable_values 1 "metrics")).
  split; [|left; vm_compute; reflexivity]. intros r _ i h' Hi. cbn in Hi. by rewrite lookup_empty in Hi.
Qed.

Lemma catalog_lookups_complete_witness :
  let sc := catalog with_chunk in
  (forall i h, hypertables sc !! i = Some h ->
     FindHypertableById (Hyper.id h) sc = Some h /\
     FindHypertableByName (Hyper.schemaName h) (Hyper.tableName h) sc = Some h /\
     (forall c, Hyper.compressedHypertableId h = Some c ->
        FindHypertableByCompressedHypertableId c sc = Some h /\
        FindCompressedHypertableByHypertableId i sc = FindHypertableById c sc)) /\
  (forall i c, chunks sc !! i = Some c ->
     FindChunkById (Chnk.id c) sc = Some c /\
     FindChunkByName (SchemaName (Chnk.entity c)) (TableName (Chnk.entity c)) sc = Some c /\
     FindHypertableByChunkId (Chnk.id c) sc = FindHypertableById (Chnk.hypertableId c) sc).
Proof.
  apply (@catalog_lookups_complete quiet_database (fun _ => true) with_chunk).
  eapply rtc_r; [apply with_hypertable_reachable|].
  exists (ChunkAdded sample_xld 2 (chunk_values 10 1 "_hyper_1_10_chunk")).
  split; [|left; vm_compute; reflexivity].
  intros r _ i c' Hi. vm_compute in Hi. discriminate.
Defined.

Lemma chunk_added_snapshots_witness :
  let c := Chnk.NewChunk 10 1 "_timescaledb_internal" "_hyper_1_10_chunk" false 0 None in
  exists s' h, @OnChunkAddedEvent quiet_database (fun _ => true) sample_xld
      (chunk_values 10 1 "_hyper_1_10_chunk") with_hypertable = Ret tt s' /\
    hypertables (catalog with_hypertable) !! 1 = Some h /\
    FindChunkById 10 (catalog s') = Some c /\
    snapshots s' = [(h, c, sample_xld)].
Proof.
  intros c. destruct (hypertables (catalog with_hypertable) !! 1) as [h|] eqn:Hh; [|vm_compute in Hh; discriminate].
  destruct (@chunk_added_snapshots quiet_database (fun _ => true) sample_xld
    (chunk_values 10 1 "_hyper_1_10_chunk") with_hypertable
    (mkChunkRow 10 1 "_timescaledb_internal" "_hyper_1_10_chunk" false 0 None) h false)
    as (s' & Hrun & Hc & _ & Hs).
  - vm_compute. reflexivity.
  - exact Hh.
  - vm_compute in Hh. by simplify_eq.
  - reflexivity.
  - exists s', h. split; [exact Hrun|]. split; [done|]. split; [exact Hc|].
    etransitivity; [exact Hs|]. reflexivity.
Defined.

Lemma renamed_hypertable_found_by_old_name_witness :
  exists s' h', @OnHypertableUpdatedEvent quiet_database (hypertable_values 1 "renamed") with_hypertable = Ret tt s' /\
    FindHypertableByName "public" "renamed" (catalog s') = Some h' /\
    FindHypertableByName "public" "metrics" (catalog s') = Some h' /\
    Hyper.canonicalName h' <> MakeRelationKey "public" "metrics".
Proof.
  destruct (hypertables (catalog with_hypertable) !! 1) as [h|] eqn:Hh; [|vm_compute in Hh; discriminate].
  destruct (@renamed_hypertable_found_by_old_name quiet_database (hypertable_values 1 "renamed") with_hypertable
    (mkHypertableRow 1 "public" "renamed" "_timescaledb_internal" "_hyper_1" None 0) h "d")
    as (s' & h' & Hrun & Hnew & Hold & Hne).
  - eapply (@reachable_ok quiet_database (fun _ => true)), with_hypertable_reachable.
  - vm_compute. reflexivity.
  - exact Hh.
  - reflexivity.
  - vm_compute in Hh. simplify_eq. vm_compute. discriminate.
  - vm_compute in Hh. simplify_eq. exists s', h'. done.
Defined.

End CatalogEvents.
