(* ===== verification/SnapshotProtocol.v ===== *)
(** * SnapshotProtocol: the initial snapshot, table by table

    The snapshotting event handler of internal/systemcatalog/systemcatalog.go
    together with the task queue and the workers of
    internal/systemcatalog/snapshotting/snapshotter.go that it drives: one table
    is announced, snapshotted batch by batch and finished after the other, until
    none is left.  The stored snapshot context is kept as the state manager's
    contract (StateStorage.v) has it: a read gives what the last write left.  A
    transaction on it reads a copy, runs its body and writes the copy back; the
    one transaction whose body waits for another goroutine is split into its read
    and its write.

    The handler is modelled operation by operation; [step] interleaves it with
    the dispatcher, which takes events off the task queue, and with the workers.
    Which table the handler picks next depends on the order in which it visits
    the catalog's maps: it is a parameter of every call. *)

From Stdlib Require Import ZArith Lia.
From stdpp Require Import base tactics option list numbers strings gmap sets relations.
From S2P Require Import Prelude Encoding Entities Values Messages Watermarks SystemCatalog.

Local Open Scope Z_scope.

Definition base_of (t : table) : baseTable :=
  match t with
  | THyper h => Hyper.table h
  | TVanilla t => Vanilla.table t
  end.

(** Calls of a SnapshottingEventHandler that the handler enqueues. *)
Inductive snapshot_event : Type :=
| TableSnapshotStarted (snapshotName : string) (t : table)
| TableSnapshotFinished (snapshotName : string) (t : table)
| SnapshottingFinished.

(** A task of the snapshotter for a whole table. *)
Record SnapshotTask : Type := mkTask {
  task_name : string;
  task_table : table;
  nextSnapshotFetch : bool;
}.

(** Where a worker is with its task: after its first transaction, after a batch
    was fetched, or inside its last transaction, waiting for the handler with
    the copy of the context that it will write back. *)
Inductive worker : Type :=
| Begun (t : SnapshotTask)
| Fetched (t : SnapshotTask)
| Waiting (t : SnapshotTask) (copy : SnapshotContext).

Record state : Type := mkState {
  handledTables : gmap string bool;
  context : option SnapshotContext;
  taskQueue : list snapshot_event;
  requests : list SnapshotTask;
  workers : list worker;
  fatal : option string;
}.

Definition set_context (c : option SnapshotContext) (s : state) : state :=
  mkState (handledTables s) c (taskQueue s) (requests s) (workers s) (fatal s).
Definition set_taskQueue (q : list snapshot_event) (s : state) : state :=
  mkState (handledTables s) (context s) q (requests s) (workers s) (fatal s).
Definition set_requests (r : list SnapshotTask) (s : state) : state :=
  mkState (handledTables s) (context s) (taskQueue s) r (workers s) (fatal s).
Definition set_workers (w : list worker) (s : state) : state :=
  mkState (handledTables s) (context s) (taskQueue s) (requests s) w (fatal s).
Definition set_handled (k : string) (s : state) : state :=
  mkState (<[ k := true ]> (handledTables s)) (context s) (taskQueue s) (requests s) (workers s) (fatal s).
Definition die (e : string) (s : state) : state :=
  mkState (handledTables s) (context s) (taskQueue s) (requests s) (workers s) (Some e).

Definition enqueue (e : snapshot_event) : G state unit :=
  modify (fun s => set_taskQueue (taskQueue s ++ [e])%list s).

(** [EnqueueSnapshot] of a whole table: the task goes to its partition. *)
Definition EnqueueSnapshot (t : SnapshotTask) (s : state) : state :=
  set_requests (requests s ++ [t])%list s.

(** The order in which one call visits the catalog: the hypertables, then the
    vanilla tables. *)
Definition visiting_order (sc : Catalog.systemCatalog) (order : list table) : Prop :=
  exists ho vo, order = ((THyper <$> ho) ++ (TVanilla <$> vo))%list /\
    ho ≡ₚ (map_to_list (Catalog.hypertables sc)).*2 /\
    vo ≡ₚ (map_to_list (Catalog.vanillaTables sc)).*2.

Definition handled (t : table) (s : state) : bool :=
  match handledTables s !! table_name t with Some true => true | _ => false end.

Definition nextSnapshotTable (order : list table) (s : state) : option table :=
  List.find (fun t => negb (handled t s)) order.

Definition scheduleNextSnapshotHypertableOrFinish (order : list table) (snapshotName : string) : G state unit :=
  s ← get;
  match nextSnapshotTable order s with
  | Some nextTable => enqueue (TableSnapshotStarted snapshotName nextTable)
  | None => enqueue SnapshottingFinished
  end.

(** [snapshotBaseTable]: the request handed to the snapshotter. *)
Definition snapshotBaseTable (snapshotName : string) (t : table) : G state unit :=
  modify (EnqueueSnapshot (mkTask snapshotName t false)).

Definition OnTableSnapshotStartedEvent (order : list table) (snapshotName : string) (t : table) : G state unit :=
  s ← get;
  match context s ≫= GetWatermark (base_of t) with
  | Some tableWatermark =>
      if Complete tableWatermark then scheduleNextSnapshotHypertableOrFinish order snapshotName
      else snapshotBaseTable snapshotName t
  | None => snapshotBaseTable snapshotName t
  end.

(** The transaction of [OnTableSnapshotFinishedEvent] on the stored context. *)
Definition markTableComplete (t : table) (sc : SnapshotContext) : outcome SnapshotContext unit :=
  (w ← GetOrCreateWatermark (base_of t);
   modify (fun sc => mkSnapshotContext (snapshotName sc) (sc_complete sc)
     (Some (<[ CanonicalName (BaseTable.entity (base_of t)) := MarkComplete (fst w) ]> (marks sc))))) sc.

Definition OnTableSnapshotFinishedEvent (order : list table) (snapshotName : string) (t : table) : G state unit :=
  s ← get;
  match context s with
  | None => fail "illegal snapshot context state after snapshotting hypertable"
  | Some sc =>
      modify (set_handled (table_name t)) ;;
      match markTableComplete t sc with
      | Ret _ sc' =>
          modify (set_context (Some sc')) ;;
          scheduleNextSnapshotHypertableOrFinish order snapshotName
      | Err e _ => fail e
      | Crash c => panic c
      end
  end.

Definition OnSnapshottingStartedEvent (order : list table) (snapshotName : string) : G state unit :=
  match order with
  | [] => enqueue SnapshottingFinished
  | t :: _ => enqueue (TableSnapshotStarted snapshotName t)
  end.

Definition dispatch (order : list table) (e : snapshot_event) : G state unit :=
  match e with
  | TableSnapshotStarted n t => OnTableSnapshotStartedEvent order n t
  | TableSnapshotFinished n t => OnTableSnapshotFinishedEvent order n t
  | SnapshottingFinished => mret tt
  end.

(** ** Dispatcher and workers *)

Definition mark_of (t : table) (c : option SnapshotContext) : option Watermark :=
  c ≫= GetWatermark (base_of t).
Arguments mark_of : simpl never.

(** The first transaction of a worker: the table has a watermark, with the high
    watermark [high] if it is new or the task continues another. *)
Definition beginTable (high : gmap string value) (t : SnapshotTask) (c : option SnapshotContext) :
  outcome SnapshotContext unit :=
  (r ← GetOrCreateWatermark (base_of (task_table t));
   let '(tableWatermark, created) := r in
   if created || nextSnapshotFetch t then
     modify (fun sc => mkSnapshotContext (snapshotName sc) (sc_complete sc)
       (Some (<[ table_name (task_table t) := SetHighWatermark high tableWatermark ]> (marks sc))))
   else mret tt) (default (NewSnapshotContext (task_name t)) c).

(** A batch: the rows move the table's watermark by [fetch]. *)
Definition fetchBatch (fetch : table -> Watermark -> Watermark) (t : table) (c : option SnapshotContext) :
  string + SnapshotContext :=
  match c with
  | None => inl "illegal snapshot context state"
  | Some sc =>
      match GetWatermark (base_of t) sc with
      | None => inl "illegal watermark state for table"
      | Some w => inr (mkSnapshotContext (snapshotName sc) (sc_complete sc)
          (Some (<[ table_name t := fetch t w ]> (marks sc))))
      end
  end.

(** The last transaction up to the point where it waits or ends. *)
Definition checkTable (t : SnapshotTask) (ws : list worker) (s : state) : state :=
  match context s with
  | None => die "illegal snapshot context state" (set_workers ws s)
  | Some sc =>
      match GetWatermark (base_of (task_table t)) sc with
      | None => die "illegal watermark state for hypertable" (set_workers ws s)
      | Some w =>
          if Complete w then
            set_taskQueue (taskQueue s ++ [TableSnapshotFinished (task_name t) (task_table t)])%list
              (set_workers (Waiting t sc :: ws) s)
          else EnqueueSnapshot (mkTask (task_name t) (task_table t) true) (set_workers ws s)
      end
  end.

Section Protocol.
Context (sc : Catalog.systemCatalog).
(** The rows of the exported snapshot: the high watermark of a table, and where
    a batch moves its watermark to. *)
Context (highWatermark : table -> gmap string value) (fetch : table -> Watermark -> Watermark).
(** The errors that the calls of a worker can report: of the publication, of
    ReadSnapshotHighWatermark and FetchTableSnapshotBatch, of storing the context
    and of enqueueing a task.  Each of them ends the process (Fatalf). *)
Context (failure : string -> Prop).

(** [prompt] restricts the interleavings: a worker does not begin a table while
    another one still has its copy of the context to write back. *)
Definition may_begin (prompt : bool) (s : state) : Prop := prompt = true -> workers s = [].

Inductive step (prompt : bool) : state -> state -> Prop :=
| step_dispatch order e q s s' :
    fatal s = None -> visiting_order sc order -> taskQueue s = e :: q ->
    dispatch order e (set_taskQueue q s) = Ret tt s' -> step prompt s s'
| step_dispatch_error order e q s err s' :
    fatal s = None -> visiting_order sc order -> taskQueue s = e :: q ->
    dispatch order e (set_taskQueue q s) = Err err s' -> step prompt s s'
| step_begin t l1 l2 c' s :
    fatal s = None -> requests s = (l1 ++ t :: l2)%list -> may_begin prompt s ->
    beginTable (highWatermark (task_table t)) t (context s) = Ret tt c' ->
    step prompt s (set_workers (Begun t :: workers s) (set_requests (l1 ++ l2)%list (set_context (Some c') s)))
| step_fetch t l1 l2 c' s :
    fatal s = None -> workers s = (l1 ++ Begun t :: l2)%list ->
    fetchBatch fetch (task_table t) (context s) = inr c' ->
    step prompt s (set_workers (l1 ++ Fetched t :: l2)%list (set_context (Some c') s))
| step_fetch_error t l1 l2 e s :
    fatal s = None -> workers s = (l1 ++ Begun t :: l2)%list ->
    fetchBatch fetch (task_table t) (context s) = inl e ->
    step prompt s (die e (set_workers (l1 ++ l2)%list s))
| step_check t l1 l2 s :
    fatal s = None -> workers s = (l1 ++ Fetched t :: l2)%list ->
    step prompt s (checkTable t (l1 ++ l2)%list s)
| step_write_back t copy l1 l2 s :
    fatal s = None -> workers s = (l1 ++ Waiting t copy :: l2)%list ->
    TableSnapshotFinished (task_name t) (task_table t) ∉ taskQueue s ->
    step prompt s (set_workers (l1 ++ l2)%list (set_context (Some copy) s))
| step_begin_fails t l1 l2 e s :
    fatal s = None -> requests s = (l1 ++ t :: l2)%list -> failure e ->
    step prompt s (die e (set_requests (l1 ++ l2)%list s))
| step_worker_fails w l1 l2 e s :
    fatal s = None -> workers s = (l1 ++ w :: l2)%list -> failure e ->
    step prompt s (die e (set_workers (l1 ++ l2)%list s)).

(** *** Lemmas *)

Lemma table_name_base t : table_name t = CanonicalName (BaseTable.entity (base_of t)).
Proof. by destruct t. Qed.

Lemma mark_of_same t u c : table_name t = table_name u -> mark_of t c = mark_of u c.
Proof. intros Heq. unfold mark_of, GetWatermark. by rewrite <- !table_name_base, Heq. Qed.

(** A context whose mark of [t] is [w]. *)
Lemma mark_of_insert t u w n b m :
  mark_of u (Some (mkSnapshotContext n b (Some (<[ table_name t := w ]> m)))) =
  if decide (table_name u = table_name t) then Some w else m !! table_name u.
Proof.
  unfold mark_of, GetWatermark, marks. cbn. rewrite <- table_name_base. case_decide as H.
  - by rewrite H, lookup_insert_eq.
  - by rewrite lookup_insert_ne.
Qed.

Lemma mark_of_marks u c : mark_of u (Some c) = marks c !! table_name u.
Proof. by rewrite table_name_base. Qed.

(** How the transactions change the marks: only that of their table. *)
Lemma mark_of_complete t u c c' :
  markTableComplete t c = Ret tt c' ->
  (table_name u = table_name t -> exists w, mark_of u (Some c') = Some w /\ Complete w = true) /\
  (table_name u <> table_name t -> mark_of u (Some c') = mark_of u (Some c)).
Proof.
  unfold markTableComplete, GetOrCreateWatermark. rewrite <- !table_name_base. go_unfold.
  destruct (marks c !! table_name t) as [w|] eqn:Hw; [|destruct (newWatermark _) as [|w]; [done|];
    destruct (watermarks c) as [m|] eqn:Hm; [|done]]; intros [= <-]; cbn;
    rewrite mark_of_insert, mark_of_marks.
  - split; intros H; case_decide; by eauto.
  - split; intros H; case_decide; try done; eauto. unfold marks. cbn. by rewrite Hm, lookup_insert_ne.
Qed.

Lemma mark_of_begin high t u c c' :
  beginTable high t c = Ret tt c' -> is_Some (watermarks (default (NewSnapshotContext (task_name t)) c)) ->
  is_Some (watermarks c') /\
  (table_name u = table_name (task_table t) -> exists w, mark_of u (Some c') = Some w /\
     match mark_of u c with
     | Some w0 => Complete w = Complete w0 /\ low w = low w0
     | None => Complete w = false /\ low w = ∅
     end) /\
  (table_name u <> table_name (task_table t) -> mark_of u (Some c') = mark_of u c).
Proof.
  unfold beginTable. remember (default (NewSnapshotContext (task_name t)) c) as c0 eqn:Hc0.
  intros Hrun [m Hm]. assert (marks c0 = m) as Hmarks by (unfold marks; by rewrite Hm).
  assert (mark_of u c = m !! table_name u) as ->.
  { rewrite <- Hmarks, table_name_base, Hc0. destruct c as [c|]; [done|].
    unfold marks. cbn. by rewrite lookup_empty. }
  revert Hrun. unfold GetOrCreateWatermark. rewrite <- table_name_base. go_unfold. rewrite Hmarks.
  destruct (m !! table_name (task_table t)) as [w|] eqn:Hw; cbn.
  - destruct (nextSnapshotFetch t); intros [= <-].
    + split; [cbn; eauto|]. rewrite mark_of_insert, Hmarks. split; intros H; case_decide; try done.
      rewrite H, Hw. eauto.
    + split; [by eauto|]. rewrite mark_of_marks, Hmarks. split; [|done]. intros ->. rewrite Hw. eauto.
  - destruct (newWatermark _) as [|w] eqn:Hn; [done|]. rewrite Hm. intros [= <-]. split; [cbn; eauto|].
    rewrite mark_of_insert. unfold marks. cbn. split; intros H; case_decide; try done; [|by rewrite lookup_insert_ne].
    eexists. split; [done|]. rewrite H, Hw. cbn. unfold newWatermark in Hn.
    destruct (Cols.SnapshotIndex _) as [|[?|]]; simplify_eq; done.
Qed.

Lemma mark_of_fetch t u c c' :
  fetchBatch fetch t c = inr c' ->
  is_Some (watermarks c') /\
  (table_name u = table_name t -> exists w, mark_of t c = Some w /\ mark_of u (Some c') = Some (fetch t w)) /\
  (table_name u <> table_name t -> mark_of u (Some c') = mark_of u c).
Proof.
  unfold fetchBatch. destruct c as [c|]; [|done].
  change (GetWatermark (base_of t) c) with (mark_of t (Some c)).
  destruct (mark_of t (Some c)) as [w|] eqn:Hw; [|done]. intros [= <-]. cbn. split; [eauto|].
  rewrite mark_of_insert, <- mark_of_marks. split; intros H; case_decide; by eauto.
Qed.

Lemma nextSnapshotTable_some order s t :
  t ∈ order -> handled t s = false -> exists u, nextSnapshotTable order s = Some u.
Proof.
  intros Hin Hh. unfold nextSnapshotTable. destruct (List.find _ order) eqn:E; [eauto|].
  apply list_elem_of_In in Hin. pose proof (find_none _ _ E _ Hin) as Hn. cbn in Hn. by rewrite Hh in Hn.
Qed.

Lemma handled_set u t s :
  handled u (set_handled (table_name t) s) = if decide (table_name u = table_name t) then true else handled u s.
Proof.
  unfold handled. cbn. destruct (decide (table_name u = table_name t)) as [->|Hne].
  - by rewrite lookup_insert_eq.
  - by rewrite lookup_insert_ne.
Qed.

(** ** A restart in the middle of the snapshot never finishes it *)

Definition complete_in (t : table) (c : option SnapshotContext) : Prop :=
  exists w, mark_of t c = Some w /\ Complete w = true.

Definition worker_task (w : worker) : SnapshotTask :=
  match w with Begun t | Fetched t | Waiting t _ => t end.

Definition away_from (t0 : table) (w : worker) : Prop :=
  table_name (task_table (worker_task w)) <> table_name t0 /\
  match w with Waiting _ copy => complete_in t0 (Some copy) | _ => True end.

(** [t0] was completed by an earlier run: its stored watermark says so, and the
    new process has not handled it. *)
Record completed_before (t0 : table) (s : state) : Prop := {
  cb_mark : complete_in t0 (context s);
  cb_handled : handled t0 s = false;
  cb_requests : Forall (fun t => table_name (task_table t) <> table_name t0) (requests s);
  cb_workers : Forall (away_from t0) (workers s);
  cb_queue : Forall (fun e => match e with
    | TableSnapshotStarted _ _ => True
    | TableSnapshotFinished _ t => table_name t <> table_name t0
    | SnapshottingFinished => False
    end) (taskQueue s);
}.

Definition in_catalog (t : table) : Prop := forall order, visiting_order sc order -> t ∈ order.

Lemma complete_in_some t c : complete_in t c -> exists c0, c = Some c0 /\ is_Some (watermarks c0).
Proof.
  intros (w & Hw & _). destruct c as [c|]; [|done]. exists c. split; [done|].
  rewrite mark_of_marks in Hw. unfold marks in Hw. destruct (watermarks c); [eauto|].
  cbn in Hw. by rewrite lookup_empty in Hw.
Qed.

Lemma complete_in_other t0 c c' :
  mark_of t0 c' = mark_of t0 c -> complete_in t0 c -> complete_in t0 c'.
Proof. unfold complete_in. by intros ->. Qed.

Lemma schedule_completed t0 order n s r :
  in_catalog t0 -> visiting_order sc order -> completed_before t0 s ->
  scheduleNextSnapshotHypertableOrFinish order n s = r -> exists s', r = Ret tt s' /\ completed_before t0 s'.
Proof.
  intros Hin Hord [Hw Hh Hreq Hws Hq] <-. unfold scheduleNextSnapshotHypertableOrFinish.
  destruct (nextSnapshotTable_some order s t0 (Hin _ Hord) Hh) as [u Hu].
  rewrite (bind_run get _ s s s eq_refl), Hu. eexists. split; [done|].
  split; try done. cbn. apply Forall_app. split; [done|]. by constructor.
Qed.

Lemma started_completed t0 order n t s :
  in_catalog t0 -> visiting_order sc order -> completed_before t0 s ->
  exists s', OnTableSnapshotStartedEvent order n t s = Ret tt s' /\ completed_before t0 s'.
Proof.
  intros Hin Hord Hinv. pose proof Hinv as [(w0 & Hw0 & Hc0) Hh Hreq Hws Hq].
  unfold OnTableSnapshotStartedEvent. rewrite (bind_run get _ _ _ _ eq_refl).
  change (context s ≫= GetWatermark (base_of t)) with (mark_of t (context s)).
  assert (table_name t <> table_name t0 -> completed_before t0 (EnqueueSnapshot (mkTask n t false) s)) as Hsnap.
  { intros Hne. split; try done; [by exists w0|]. cbn. apply Forall_app. split; [done|]. by constructor. }
  destruct (mark_of t (context s)) as [w|] eqn:Hm; [destruct (Complete w) eqn:Hc|].
  - by eapply schedule_completed.
  - eexists. split; [done|]. apply Hsnap. intros Heq. rewrite (mark_of_same _ _ _ Heq) in Hm. congruence.
  - eexists. split; [done|]. apply Hsnap. intros Heq. rewrite (mark_of_same _ _ _ Heq) in Hm. congruence.
Qed.

Lemma finished_completed t0 order n t s r :
  in_catalog t0 -> visiting_order sc order -> completed_before t0 s -> table_name t <> table_name t0 ->
  OnTableSnapshotFinishedEvent order n t s = r ->
  match r with Ret _ s' | Err _ s' => completed_before t0 s' | Crash _ => True end.
Proof.
  intros Hin Hord Hinv Hne. unfold OnTableSnapshotFinishedEvent. rewrite (bind_run get _ _ _ _ eq_refl).
  assert (completed_before t0 (set_handled (table_name t) s)) as Hset.
  { destruct Hinv. split; try done. rewrite handled_set. by case_decide. }
  destruct (context s) as [c|] eqn:Hc; [|by intros <-].
  rewrite (bind_run (modify _) _ _ _ _ eq_refl).
  destruct (markTableComplete t c) as [[] c1|e c1|cr] eqn:Hmark; [|by intros <-..].
  rewrite (bind_run (modify _) _ _ _ _ eq_refl). intros Hrun.
  eapply schedule_completed in Hrun as (s' & -> & Hinv'); [exact Hinv'|done|done|].
  destruct Hset. split; try done. cbn in *. eapply complete_in_other; [|exact cb_mark0].
  rewrite Hc. apply (mark_of_complete t t0 c c1 Hmark). by apply not_eq_sym.
Qed.

Lemma check_completed t0 t l1 l2 s :
  completed_before t0 s -> workers s = (l1 ++ Fetched t :: l2)%list ->
  completed_before t0 (checkTable t (l1 ++ l2)%list s).
Proof.
  intros [Hw Hh Hreq Hws Hq] Hwork. rewrite Hwork in Hws.
  apply Forall_app in Hws as [H1 H2]. apply Forall_cons in H2 as [[Hne _] H2].
  assert (Forall (away_from t0) (l1 ++ l2)) as Hws by (apply Forall_app; done).
  unfold checkTable. destruct (context s) as [c|] eqn:Hc; [|split; cbn; by rewrite ?Hc].
  destruct (GetWatermark _ c) as [w|]; [destruct (Complete w)|]; split; cbn in *; rewrite ?Hc; try done.
  - by constructor.
  - apply Forall_app. split; [done|]. by constructor.
  - apply Forall_app. split; [done|]. by constructor.
Qed.

Lemma step_completed prompt t0 s s' :
  in_catalog t0 -> completed_before t0 s -> step prompt s s' -> completed_before t0 s'.
Proof.
  intros Hin Hinv Hstep.
  assert (forall order e q r, taskQueue s = e :: q -> visiting_order sc order ->
    dispatch order e (set_taskQueue q s) = r ->
    match r with Ret _ s' | Err _ s' => completed_before t0 s' | Crash _ => True end) as Hdisp.
  { intros order e q r Hhd Hord Hrun.
    assert (completed_before t0 (set_taskQueue q s)) as Hinv0.
    { destruct Hinv as [?? ?? Hq]. split; try done. rewrite Hhd in Hq. by apply Forall_cons in Hq as []. }
    destruct Hinv as [_ _ _ _ Hq]. rewrite Hhd in Hq. apply Forall_cons in Hq as [He _].
    destruct e as [n t|n t|]; cbn [dispatch] in Hrun; [| |done].
    - destruct (started_completed t0 order n t _ Hin Hord Hinv0) as (s1 & Hs1 & Hi). rewrite Hs1 in Hrun. by subst r.
    - by eapply finished_completed. }
  pose proof Hinv as [Hw Hh Hreq Hws Hq].
  destruct Hstep as [order e q s s' _ Hord Hhd Hrun|order e q s err s' _ Hord Hhd Hrun|t l1 l2 c' s _ Hr _ Hb
    |t l1 l2 c' s _ Hwk Hb|t l1 l2 e s _ Hwk _|t l1 l2 s _ Hwk|t copy l1 l2 s _ Hwk _
    |t l1 l2 e s _ Hr _|w l1 l2 e s _ Hwk _].
  - exact (Hdisp _ _ _ _ Hhd Hord Hrun).
  - exact (Hdisp _ _ _ _ Hhd Hord Hrun).
  - rewrite Hr in Hreq. apply Forall_app in Hreq as [H1 H2]. apply Forall_cons in H2 as [Hne H2].
    destruct (complete_in_some _ _ Hw) as (c0 & Hc0 & Hsome).
    destruct (mark_of_begin _ t t0 (context s) c' Hb) as (_ & _ & Hother); [by rewrite Hc0|].
    split; cbn; [|done|by apply Forall_app| |done].
    + eapply complete_in_other; [|exact Hw]. apply Hother. by apply not_eq_sym.
    + by constructor.
  - rewrite Hwk in Hws. apply Forall_app in Hws as [H1 H2]. apply Forall_cons in H2 as [[Hne _] H2].
    destruct (mark_of_fetch (task_table t) t0 (context s) c' Hb) as (_ & _ & Hother).
    split; cbn; [|done|done| |done].
    + eapply complete_in_other; [|exact Hw]. apply Hother. by apply not_eq_sym.
    + apply Forall_app. split; [done|]. by constructor.
  - rewrite Hwk in Hws. apply Forall_app in Hws as [H1 H2]. apply Forall_cons in H2 as [_ H2].
    split; cbn; try done. by apply Forall_app.
  - by apply check_completed.
  - rewrite Hwk in Hws. apply Forall_app in Hws as [H1 H2]. apply Forall_cons in H2 as [[_ Hcopy] H2].
    split; cbn; try done. by apply Forall_app.
  - rewrite Hr in Hreq. apply Forall_app in Hreq as [H1 H2]. apply Forall_cons in H2 as [_ H2].
    split; cbn; try done. by apply Forall_app.
  - rewrite Hwk in Hws. apply Forall_app in Hws as [H1 H2]. apply Forall_cons in H2 as [_ H2].
    split; cbn; try done. by apply Forall_app.
Qed.

(** C15. A snapshot that is resumed never finishes: once a table was completed by
    an earlier run of the process, the handler of the new run skips it without
    marking it handled, so it is offered again and again and
    [OnSnapshottingFinishedEvent] is never enqueued, whatever the dispatcher, the
    workers, the rows and the errors of the database and the order of the maps do. *)
Theorem resumed_snapshot_never_finishes (prompt : bool) (t0 : table) (s s' : state) :
  in_catalog t0 -> completed_before t0 s -> rtc (step prompt) s s' -> SnapshottingFinished ∉ taskQueue s'.
Proof.
  intros Hin Hinv Hsteps.
  assert (completed_before t0 s') as [_ _ _ _ Hfin].
  { eapply rtc_invariant; [exact Hinv| |exact Hsteps]. intros a b. by apply step_completed. }
  rewrite Forall_forall in Hfin. intros Hx. by apply Hfin in Hx.
Qed.

(** ** A snapshot that starts from scratch finishes *)

Lemma visiting_order_perm order order' :
  visiting_order sc order -> visiting_order sc order' -> order ≡ₚ order'.
Proof.
  intros (h1 & v1 & -> & H1 & V1) (h2 & v2 & -> & H2 & V2). by rewrite H1, V1, H2, V2.
Qed.

Section Fresh.
Context (order0 : list table) (Horder0 : visiting_order sc order0).
Context (Hmarks : forall t, t ∈ order0 -> exists w, newWatermark (BaseTable.columns (base_of t)) = inr w).
(** A batch completes the table or leaves fewer rows above the low watermark. *)
Context (rows_left : table -> gmap string value -> nat).
Context (Hfetch : forall t w, Complete (fetch t w) = true \/ (rows_left t (low (fetch t w)) < rows_left t (low w))%nat).

Definition incomplete_unless_handled (s : state) (except : option table) : Prop :=
  forall u w, u ∈ order0 -> mark_of u (context s) = Some w -> Complete w = true ->
    handled u s = true \/ exists t, except = Some t /\ table_name u = table_name t.

(** At most one worker still has its copy to write back, for a handled table. *)
Definition settled (s : state) : Prop :=
  workers s = [] \/ exists t copy, workers s = [Waiting t copy] /\ is_Some (watermarks copy) /\
    handled (task_table t) s = true /\
    forall u, table_name u <> table_name (task_table t) -> mark_of u (Some copy) = mark_of u (context s).

Definition sound_context (s : state) : Prop := forall c, context s = Some c -> is_Some (watermarks c).

(** Where the one table in progress is. *)
Inductive phase : Type :=
| PAnnounced (t : table) | PRequested (t : SnapshotTask) | PBegun (t : SnapshotTask)
| PFetched (t : SnapshotTask) | PTaken (t : SnapshotTask) (copy : SnapshotContext) | PAllDone | PFinished.

Definition in_progress (t : table) (s : state) : Prop := t ∈ order0 /\ handled t s = false.

Definition phase_state (p : phase) (s : state) : Prop :=
  match p with
  | PAnnounced t => exists n, taskQueue s = [TableSnapshotStarted n t] /\ requests s = [] /\
      in_progress t s /\ incomplete_unless_handled s None /\ settled s
  | PRequested t => taskQueue s = [] /\ requests s = [t] /\
      in_progress (task_table t) s /\ incomplete_unless_handled s None /\ settled s
  | PBegun t => taskQueue s = [] /\ requests s = [] /\
      in_progress (task_table t) s /\ incomplete_unless_handled s None /\
      workers s = [Begun t] /\ is_Some (mark_of (task_table t) (context s))
  | PFetched t => taskQueue s = [] /\ requests s = [] /\
      in_progress (task_table t) s /\ incomplete_unless_handled s (Some (task_table t)) /\
      workers s = [Fetched t] /\ is_Some (mark_of (task_table t) (context s))
  | PTaken t copy => taskQueue s = [TableSnapshotFinished (task_name t) (task_table t)] /\ requests s = [] /\
      in_progress (task_table t) s /\ incomplete_unless_handled s (Some (task_table t)) /\
      workers s = [Waiting t copy] /\ context s = Some copy /\ is_Some (watermarks copy)
  | PAllDone => taskQueue s = [SnapshottingFinished] /\ requests s = [] /\
      (forall t, t ∈ order0 -> handled t s = true) /\ settled s
  | PFinished => taskQueue s = [] /\ requests s = [] /\
      (forall t, t ∈ order0 -> handled t s = true) /\ settled s
  end.

Definition in_phase (p : phase) (s : state) : Prop := fatal s = None /\ sound_context s /\ phase_state p s.

Definition unhandled (s : state) : nat := length (List.filter (fun t => negb (handled t s)) order0).
Definition left_of (t : table) (s : state) : nat :=
  rows_left t (match mark_of t (context s) with Some w => low w | None => ∅ end).

Definition work_left (p : phase) (s : state) : nat :=
  match p with
  | PAnnounced t => 2 * (3 * left_of t s + 4) + length (workers s)
  | PRequested t => 2 * (3 * left_of (task_table t) s + 3) + length (workers s)
  | PBegun t => 2 * (3 * left_of (task_table t) s + 2)
  | PFetched t =>
      match mark_of (task_table t) (context s) with
      | Some w => if Complete w then 2 else 2 * (3 * left_of (task_table t) s + 4)
      | None => 0
      end
  | PTaken _ _ => 1
  | PAllDone => 2 + length (workers s)
  | PFinished => length (workers s)
  end.

Definition less (m m' : nat * nat) : Prop :=
  (m.1 < m'.1)%nat \/ (m.1 = m'.1 /\ (m.2 < m'.2)%nat).

Lemma less_wf : well_founded less.
Proof.
  intros [a b]. revert b. induction a as [a IHa] using (well_founded_induction Nat.lt_wf_0).
  intros b. induction b as [b IHb] using (well_founded_induction Nat.lt_wf_0).
  constructor. intros [a' b'] [H|[H1 H2]]; cbn in *; [by apply IHa|]. subst a'. by apply IHb.
Qed.

Definition measure (p : phase) (s : state) : nat * nat := (unhandled s, work_left p s).

(** What a step has to give: the next phase, closer to the end. *)
Definition advances (p : phase) (s s' : state) : Prop :=
  exists p', in_phase p' s' /\ less (measure p' s') (measure p s).

Lemma unhandled_less t s s' :
  t ∈ order0 -> handled t s = false -> handled t s' = true ->
  (forall u, handled u s = true -> handled u s' = true) -> (unhandled s' < unhandled s)%nat.
Proof.
  intros Ht Hh Hh' Hmono. unfold unhandled. clear Hmarks Horder0.
  induction order0 as [|u l IH]; [by apply not_elem_of_nil in Ht|].
  assert (forall l : list table, length (List.filter (fun t => negb (handled t s')) l) <=
            length (List.filter (fun t => negb (handled t s)) l))%nat as Hle.
  { intros l'. induction l' as [|x l' IHl]; [done|]. cbn. destruct (handled x s) eqn:Hx.
    - rewrite (Hmono _ Hx). cbn. exact IHl.
    - destruct (handled x s'); cbn; lia. }
  cbn. apply elem_of_cons in Ht as [<-|Ht].
  - rewrite Hh, Hh'. cbn. specialize (Hle l). lia.
  - specialize (IH Ht). destruct (handled u s) eqn:Hu.
    + rewrite (Hmono _ Hu). cbn. exact IH.
    + destruct (handled u s'); cbn; lia.
Qed.

(** Scheduling from a state with nothing in flight. *)
Lemma schedule_phase n order s :
  visiting_order sc order -> fatal s = None -> sound_context s -> taskQueue s = [] -> requests s = [] ->
  incomplete_unless_handled s None -> settled s ->
  exists p s', scheduleNextSnapshotHypertableOrFinish order n s = Ret tt s' /\ in_phase p s' /\
    unhandled s' = unhandled s.
Proof.
  intros Hord Hf Hsc Hq Hr Hinc Hset. unfold scheduleNextSnapshotHypertableOrFinish.
  rewrite (bind_run get _ s s s eq_refl). unfold nextSnapshotTable.
  pose proof (visiting_order_perm _ _ Hord Horder0) as Hperm.
  destruct (List.find _ order) as [t|] eqn:E.
  - apply find_some in E as [Hin Hh]. apply negb_true_iff in Hh. apply list_elem_of_In in Hin.
    rewrite Hperm in Hin.
    exists (PAnnounced t). eexists. split; [done|]. split; [|done]. split_and!; [done..|].
    exists n. cbn. rewrite Hq. done.
  - exists PAllDone. eexists. split; [done|]. split; [|done]. split_and!; [done..|]. cbn. rewrite Hq.
    split_and!; try done.
    intros t Ht. rewrite <- Hperm in Ht. apply list_elem_of_In in Ht.
    pose proof (find_none _ _ E _ Ht) as Hn. by apply negb_false_iff in Hn.
Qed.

Lemma markTableComplete_ok t c :
  t ∈ order0 -> is_Some (watermarks c) ->
  exists c', markTableComplete t c = Ret tt c' /\ is_Some (watermarks c').
Proof.
  intros Ht [m Hm]. unfold markTableComplete, GetOrCreateWatermark. go_unfold.
  destruct (marks c !! _); [eauto|]. destruct (Hmarks t Ht) as [w ->]. rewrite Hm. eauto.
Qed.

Lemma finished_phase order t copy s :
  visiting_order sc order -> in_phase (PTaken t copy) s ->
  exists s', OnTableSnapshotFinishedEvent order (task_name t) (task_table t) (set_taskQueue [] s) = Ret tt s' /\
    advances (PTaken t copy) s s'.
Proof.
  intros Hord (Hf & Hsc & Hq & Hr & [Ht Hh] & Hinc & Hwk & Hc & Hsome).
  unfold OnTableSnapshotFinishedEvent. rewrite (bind_run get _ _ _ _ eq_refl). cbn [context set_taskQueue].
  rewrite Hc, (bind_run (modify _) _ _ _ _ eq_refl).
  destruct (markTableComplete_ok _ copy Ht Hsome) as (c1 & Hmark & Hsome1).
  rewrite Hmark, (bind_run (modify _) _ _ _ _ eq_refl).
  pose proof (fun u => proj2 (mark_of_complete _ u copy c1 Hmark)) as Hother.
  match goal with |- context [scheduleNextSnapshotHypertableOrFinish _ _ ?st] => set (s1 := st) end.
  assert (forall u, handled u s1 = if decide (table_name u = table_name (task_table t)) then true else handled u s)
    as Hhs by (intros u; exact (handled_set u (task_table t) s)).
  destruct (schedule_phase (task_name t) order s1) as (p' & s2 & Hrun2 & Hp' & Hsame); [done|done| |done|done| | |].
  - intros c [= <-]. done.
  - intros u w Hu Hw Hcw. left. rewrite Hhs. case_decide as Hne; [done|].
    cbn [context s1] in Hw. unfold s1 in Hw. cbn in Hw. rewrite (Hother u Hne), <- Hc in Hw.
    destruct (Hinc u w Hu Hw Hcw) as [?|(t' & [= <-] & ?)]; done.
  - right. exists t, copy. split_and!; [done|done|by rewrite Hhs, decide_True|].
    intros u Hne. symmetry. by apply Hother.
  - exists s2. split; [done|]. exists p'. split; [done|]. left. cbn [fst measure].
    enough (unhandled s1 < unhandled s)%nat by (cbn; lia).
    apply (unhandled_less (task_table t)); [done|done|by rewrite Hhs, decide_True|].
    intros u Hu. rewrite Hhs. by case_decide.
Qed.

Lemma dispatch_phase order p e q s :
  visiting_order sc order -> in_phase p s -> taskQueue s = e :: q ->
  exists s', dispatch order e (set_taskQueue q s) = Ret tt s' /\ advances p s s'.
Proof.
  intros Hord Hp Hhd. pose proof Hp as (Hf & Hsc & Hst).
  destruct p as [t|t|t|t|t copy| |]; cbn in Hst; [| | | | |destruct Hst as (Hq & Hr & Hall & Hset)|];
    try (destruct Hst as (Hq & _); by rewrite Hq in Hhd).
  - destruct Hst as (n & Hq & Hr & [Ht Hh] & Hinc & Hset). rewrite Hq in Hhd. injection Hhd as <- <-.
    cbn [dispatch]. unfold OnTableSnapshotStartedEvent. rewrite (bind_run get _ _ _ _ eq_refl).
    cbn [context set_taskQueue]. change (context s ≫= GetWatermark (base_of t)) with (mark_of t (context s)).
    assert (advances (PAnnounced t) s (EnqueueSnapshot (mkTask n t false) (set_taskQueue [] s))) as Hadv.
    { exists (PRequested (mkTask n t false)). split.
      - split_and!; [done..|]. cbn. rewrite Hr. done.
      - right. split; [done|]. cbn. unfold left_of. cbn. lia. }
    destruct (mark_of t (context s)) as [w|] eqn:Hm; [destruct (Complete w) eqn:Hc|].
    + destruct (Hinc t w Ht Hm Hc) as [Hx|(? & ? & _)]; [congruence|done].
    + eexists. split; [done|exact Hadv].
    + eexists. split; [done|exact Hadv].
  - destruct Hst as (Hq & _). rewrite Hq in Hhd. injection Hhd as <- <-. by apply finished_phase.
  - rewrite Hq in Hhd. injection Hhd as <- <-. eexists. split; [done|]. exists PFinished. split.
    + split_and!; [done..|]. cbn. done.
    + right. split; [done|]. cbn. lia.
Qed.

Lemma beginTable_ok high t s :
  task_table t ∈ order0 -> sound_context s -> exists c', beginTable high t (context s) = Ret tt c'.
Proof.
  intros Ht Hsc. unfold beginTable, GetOrCreateWatermark.
  assert (is_Some (watermarks (default (NewSnapshotContext (task_name t)) (context s)))) as [m Hm].
  { destruct (context s) as [c|] eqn:Hc; cbn; [by apply Hsc|eauto]. }
  go_unfold. destruct (marks _ !! _) as [w|]; [destruct (false || nextSnapshotFetch t); eauto|].
  destruct (Hmarks _ Ht) as [w ->]. rewrite Hm. cbn. eauto.
Qed.

Lemma begin_phase t c' s :
  in_phase (PRequested t) s -> workers s = [] -> beginTable (highWatermark (task_table t)) t (context s) = Ret tt c' ->
  advances (PRequested t) s (set_workers [Begun t] (set_requests [] (set_context (Some c') s))).
Proof.
  intros (Hf & Hsc & Hq & Hr & [Ht Hh] & Hinc & Hset) Hwk Hb.
  assert (is_Some (watermarks (default (NewSnapshotContext (task_name t)) (context s)))) as Hsome.
  { destruct (context s) as [c|] eqn:Hc; cbn; [by apply Hsc|eauto]. }
  destruct (mark_of_begin _ t (task_table t) _ _ Hb Hsome) as (Hw & Hsame & _).
  destruct (Hsame eq_refl) as (w & Hmw & Hrel). clear Hsame.
  exists (PBegun t). split.
  - split_and!; [done|by intros c [= <-]|]. cbn. split_and!; try done.
    + intros u wu Hu Hmu Hcu. cbn in Hmu. left.
      destruct (decide (table_name u = table_name (task_table t))) as [Heq|Hne].
      * rewrite (mark_of_same _ _ _ Heq), Hmw in Hmu. injection Hmu as <-.
        destruct (mark_of (task_table t) (context s)) as [w0|] eqn:Hm0.
        -- destruct Hrel as [Hc0 _]. rewrite Hc0 in Hcu.
           destruct (Hinc (task_table t) w0 Ht Hm0 Hcu) as [Hx|(? & ? & _)]; [congruence|done].
        -- destruct Hrel as [Hc0 _]. congruence.
      * destruct (mark_of_begin _ t u _ _ Hb Hsome) as (_ & _ & Hother). rewrite (Hother Hne) in Hmu.
        destruct (Hinc u wu Hu Hmu Hcu) as [?|(? & ? & _)]; done.
  - right. split; [done|]. cbn. rewrite Hwk. unfold left_of. cbn. rewrite Hmw. cbn.
    destruct (mark_of (task_table t) (context s)); destruct Hrel as [_ ->]; lia.
Qed.

Lemma fetch_phase t s :
  in_phase (PBegun t) s -> exists c', fetchBatch fetch (task_table t) (context s) = inr c' /\
    advances (PBegun t) s (set_workers [Fetched t] (set_context (Some c') s)).
Proof.
  intros (Hf & Hsc & Hq & Hr & [Ht Hh] & Hinc & Hwk & [w Hw]).
  destruct (fetchBatch fetch (task_table t) (context s)) as [e|c'] eqn:E.
  { exfalso. unfold fetchBatch in E. destruct (context s) as [c|]; [|done].
    change (GetWatermark (base_of (task_table t)) c) with (mark_of (task_table t) (Some c)) in E. by rewrite Hw in E. }
  destruct (mark_of_fetch (task_table t) (task_table t) _ _ E) as (Hsome & Hsame & _).
  destruct (Hsame eq_refl) as (w' & Hw' & Hmark). rewrite Hw in Hw'. injection Hw' as <-.
  exists c'. split; [done|]. exists (PFetched t). split.
  - split_and!; [done|by intros c [= <-]|]. cbn. split_and!; try done.
    intros u wu Hu Hmu Hcu. cbn in Hmu. destruct (decide (table_name u = table_name (task_table t))) as [Heq|Hne].
    + right. eauto.
    + left. destruct (mark_of_fetch (task_table t) u _ _ E) as (_ & _ & Hother). rewrite (Hother Hne) in Hmu.
      destruct (Hinc u wu Hu Hmu Hcu) as [?|(? & ? & _)]; done.
  - right. split; [done|]. cbn. unfold left_of. cbn. rewrite Hmark, Hw. cbn.
    destruct (Hfetch (task_table t) w) as [->|Hlt]; [lia|]. destruct (Complete _); lia.
Qed.

Lemma check_phase t s : in_phase (PFetched t) s -> advances (PFetched t) s (checkTable t [] s).
Proof.
  intros (Hf & Hsc & Hq & Hr & [Ht Hh] & Hinc & Hwk & [w Hw]). unfold checkTable.
  destruct (context s) as [c|] eqn:Hc; [|done].
  change (GetWatermark (base_of (task_table t)) c) with (mark_of (task_table t) (Some c)). rewrite Hw.
  destruct (Complete w) eqn:Hcw.
  - exists (PTaken t c). split.
    + split_and!; [done|by intros c0; cbn; apply Hsc|]. cbn. rewrite Hq. split_and!; try done. by apply Hsc.
    + right. split; [done|]. cbn. rewrite Hc, Hw, Hcw. lia.
  - exists (PRequested (mkTask (task_name t) (task_table t) true)). split.
    + split_and!; [done|by intros c0; cbn; apply Hsc|]. cbn. rewrite Hr. split_and!; try done; [|by left].
      intros u wu Hu Hmu Hcu. left. cbn in Hmu. rewrite Hc in Hmu.
      destruct (Hinc u wu Hu) as [Hx|(t' & [= <-] & Heq)]; [by rewrite Hc|done|done|].
      rewrite (mark_of_same _ _ _ Heq), Hw in Hmu. congruence.
    + right. split; [done|]. cbn. unfold left_of. cbn. rewrite Hc, Hw, Hcw. cbn. lia.
Qed.

(** A settled worker writes back: nothing in progress is touched. *)
Lemma write_back_phase p t copy l1 l2 s :
  in_phase p s -> workers s = (l1 ++ Waiting t copy :: l2)%list ->
  TableSnapshotFinished (task_name t) (task_table t) ∉ taskQueue s ->
  advances p s (set_workers (l1 ++ l2)%list (set_context (Some copy) s)).
Proof.
  intros Hp Hwk Hnot. pose proof Hp as (Hf & Hsc & Hst).
  assert (forall w, workers s = [w] -> w = Waiting t copy /\ l1 = [] /\ l2 = []) as Hone.
  { intros w Hw. rewrite Hw in Hwk. destruct l1 as [|? [|??]]; cbn in Hwk; by simplify_eq. }
  assert (settled s) as Hset.
  { destruct p; cbn in Hst.
    - by destruct Hst as (n & _ & _ & _ & _ & ?).
    - by destruct Hst as (_ & _ & _ & _ & ?).
    - destruct Hst as (_ & _ & _ & _ & Hw & _). by destruct (Hone _ Hw).
    - destruct Hst as (_ & _ & _ & _ & Hw & _). by destruct (Hone _ Hw).
    - destruct Hst as (Hq & _ & _ & _ & Hw & _). destruct (Hone _ Hw) as ([= -> ->] & _).
      exfalso. apply Hnot. rewrite Hq. by left.
    - by destruct Hst as (_ & _ & _ & ?).
    - by destruct Hst as (_ & _ & _ & ?). }
  destruct Hset as [Hnil|(t' & c' & Hwk1 & Hsome & Hht & Hsame)]; [rewrite Hnil in Hwk; by destruct l1|].
  destruct (Hone _ Hwk1) as ([= -> ->] & -> & ->). exists p.
  set (s' := set_workers [] (set_context (Some copy) s)).
  assert (sound_context s') as Hsc' by (by intros c [= <-]).
  assert (settled s') as Hset' by by left.
  assert (incomplete_unless_handled s None -> incomplete_unless_handled s' None) as Hinc'.
  { intros Hinc u w Hu Hm Hc. left. destruct (decide (table_name u = table_name (task_table t))) as [Heq|Hne].
    - unfold handled in *. cbn. by rewrite Heq.
    - cbn in Hm. rewrite (Hsame u Hne) in Hm. destruct (Hinc u w Hu Hm Hc) as [?|(? & ? & _)]; done. }
  assert (forall u, handled u s = false -> left_of u s' = left_of u s) as Hleft.
  { intros u Hu. unfold left_of. cbn. rewrite Hsame; [done|]. intros Heq. unfold handled in *. rewrite Heq in Hu.
    by rewrite Hht in Hu. }
  assert (forall u, in_progress u s -> left_of u s' = left_of u s) as Hleft' by (intros u []; auto).
  destruct p; cbn in Hst.
  - destruct Hst as (n & ? & ? & ? & ? & _). split; [split_and!; [done..|exists n; by eauto 8]|].
    right. split; [done|]. cbn. rewrite Hleft', Hwk1 by done. cbn. lia.
  - destruct Hst as (? & ? & ? & ? & _). split; [split_and!; [done..|by split_and!; auto]|].
    right. split; [done|]. cbn. rewrite Hleft', Hwk1 by done. cbn. lia.
  - destruct Hst as (_ & _ & _ & _ & Hw & _). by destruct (Hone _ Hw).
  - destruct Hst as (_ & _ & _ & _ & Hw & _). by destruct (Hone _ Hw).
  - destruct Hst as (Hq & _ & [_ Hh] & _ & Hw & _). destruct (Hone _ Hw) as ([= -> ->] & _). congruence.
  - destruct Hst as (? & ? & ? & _). split; [split_and!; [done..|by split_and!; auto]|].
    right. split; [done|]. cbn. rewrite Hwk1. cbn. lia.
  - destruct Hst as (? & ? & ? & _). split; [split_and!; [done..|by split_and!; auto]|].
    right. split; [done|]. cbn. rewrite Hwk1. cbn. lia.
Qed.

Lemma singleton_split {A} (x y : A) (l l1 l2 : list A) :
  l = [x] -> l = (l1 ++ y :: l2)%list -> y = x /\ l1 = [] /\ l2 = [].
Proof. intros -> H. destruct l1 as [|? [|??]]; cbn in H; by simplify_eq. Qed.

(** The phase tells what a busy worker does. *)
Lemma phase_worker p w l1 l2 s :
  in_phase p s -> workers s = (l1 ++ w :: l2)%list ->
  match w with
  | Begun t => p = PBegun t /\ l1 = [] /\ l2 = []
  | Fetched t => p = PFetched t /\ l1 = [] /\ l2 = []
  | Waiting _ _ => True
  end.
Proof.
  intros (_ & _ & Hst) Hwk.
  assert (settled s -> match w with Waiting _ _ => True | _ => False end) as Hset.
  { intros [Hnil|(t & c & Hw & _)]; [rewrite Hnil in Hwk; by destruct l1|].
    by destruct (singleton_split _ _ _ _ _ Hw Hwk) as (-> & _). }
  destruct p; cbn in Hst.
  - destruct Hst as (n & _ & _ & _ & _ & Hs). apply Hset in Hs. by destruct w.
  - destruct Hst as (_ & _ & _ & _ & Hs). apply Hset in Hs. by destruct w.
  - destruct Hst as (_ & _ & _ & _ & Hw & _). by destruct (singleton_split _ _ _ _ _ Hw Hwk) as (-> & -> & ->).
  - destruct Hst as (_ & _ & _ & _ & Hw & _). by destruct (singleton_split _ _ _ _ _ Hw Hwk) as (-> & -> & ->).
  - destruct Hst as (_ & _ & _ & _ & Hw & _). by destruct (singleton_split _ _ _ _ _ Hw Hwk) as (-> & -> & ->).
  - destruct Hst as (_ & _ & _ & Hs). apply Hset in Hs. by destruct w.
  - destruct Hst as (_ & _ & _ & Hs). apply Hset in Hs. by destruct w.
Qed.

Lemma phase_request p t l1 l2 s :
  in_phase p s -> requests s = (l1 ++ t :: l2)%list -> p = PRequested t /\ l1 = [] /\ l2 = [].
Proof.
  intros (_ & _ & Hst) Hr. destruct p; cbn in Hst;
    try (destruct Hst as (_ & Hnil & _); rewrite Hnil in Hr; by destruct l1).
  - destruct Hst as (? & _ & Hnil & _). rewrite Hnil in Hr. by destruct l1.
  - destruct Hst as (_ & Hw & _). by destruct (singleton_split _ _ _ _ _ Hw Hr) as (-> & -> & ->).
Qed.

(** A call of a worker failed and the process ended; the queue and the handled
    tables are those of a running state. *)
Definition failed (s : state) : Prop :=
  exists p s0 e, in_phase p s0 /\ failure e /\ fatal s = Some e /\
    taskQueue s = taskQueue s0 /\ handledTables s = handledTables s0.

(** Every step advances the one table in progress, or a call of a worker fails. *)
Lemma step_phase p s s' : in_phase p s -> step true s s' -> advances p s s' \/ failed s'.
Proof.
  intros Hp Hstep.
  destruct Hstep as [order e q s s' _ Hord Hhd Hrun|order e q s err s' _ Hord Hhd Hrun|t l1 l2 c' s _ Hr Hmay Hb
    |t l1 l2 c' s _ Hwk Hb|t l1 l2 e s _ Hwk Hb|t l1 l2 s _ Hwk|t copy l1 l2 s _ Hwk Hnot
    |t l1 l2 e s _ Hr He|w l1 l2 e s _ Hwk He].
  - left. destruct (dispatch_phase order p e q s Hord Hp Hhd) as (s1 & Hs1 & Hadv).
    rewrite Hs1 in Hrun. by injection Hrun as <-.
  - destruct (dispatch_phase order p e q s Hord Hp Hhd) as (s1 & Hs1 & Hadv). by rewrite Hs1 in Hrun.
  - left. destruct (phase_request _ _ _ _ _ Hp Hr) as (-> & -> & ->). 
    rewrite (Hmay eq_refl). exact (begin_phase t c' s Hp (Hmay eq_refl) Hb).
  - left. destruct (phase_worker _ _ _ _ _ Hp Hwk) as (-> & -> & ->).
    destruct (fetch_phase t s Hp) as (c1 & Hc1 & Hadv).
    rewrite Hc1 in Hb. by injection Hb as <-.
  - destruct (phase_worker _ _ _ _ _ Hp Hwk) as (-> & -> & ->).
    destruct (fetch_phase t s Hp) as (c1 & Hc1 & Hadv). by rewrite Hc1 in Hb.
  - left. destruct (phase_worker _ _ _ _ _ Hp Hwk) as (-> & -> & ->). by apply check_phase.
  - left. by eapply write_back_phase.
  - right. by exists p, s, e.
  - right. by exists p, s, e.
Qed.

Lemma phase_steps p s :
  in_phase p s -> (p = PFinished /\ workers s = []) \/ exists s', step true s s' /\ advances p s s'.
Proof.
  intros Hp. pose proof Hp as (Hf & Hsc & Hst).
  assert (forall e q, taskQueue s = e :: q -> exists s', step true s s' /\ advances p s s') as Hdisp.
  { intros e q Hq. destruct (dispatch_phase order0 p e q s Horder0 Hp Hq) as (s1 & Hs1 & ?).
    eauto using step_dispatch. }
  assert (settled s -> taskQueue s = [] -> workers s = [] \/ exists s', step true s s' /\ advances p s s') as Hback.
  { intros [?|(t & c & Hw & _)] Hq; [by left|]. right. eexists. 
    assert (TableSnapshotFinished (task_name t) (task_table t) ∉ taskQueue s) as Hnot
      by (rewrite Hq; apply not_elem_of_nil).
    split; [by apply (step_write_back true t c [] [] s Hf Hw)|by eapply write_back_phase]. }
  destruct p; cbn in Hst.
  - destruct Hst as (n & Hq & _). eauto.
  - destruct Hst as (Hq & Hr & [Ht _] & _ & Hs). right.
    destruct (Hback Hs Hq) as [Hnil|?]; [|done].
    destruct (beginTable_ok (highWatermark (task_table t)) t s Ht Hsc) as [c' Hc'].
    eexists. split; [exact (step_begin true t [] [] c' s Hf Hr (fun _ => Hnil) Hc')|].
    rewrite Hnil. by apply begin_phase.
  - destruct Hst as (_ & _ & _ & _ & Hw & _). right. destruct (fetch_phase t s Hp) as (c1 & Hc1 & ?).
    eexists. by split; [apply (step_fetch true t [] [] c1 s Hf Hw)|].
  - destruct Hst as (_ & _ & _ & _ & Hw & _). right. eexists.
    split; [by apply (step_check true t [] [] s Hf Hw)|by apply check_phase].
  - destruct Hst as (Hq & _). eauto.
  - destruct Hst as (Hq & _). eauto.
  - destruct Hst as (Hq & _ & _ & Hs). destruct (Hback Hs Hq); eauto.
Qed.

Lemma fatal_stuck prompt s s' e : fatal s = Some e -> step prompt s s' -> False.
Proof. intros Hf Hs. destruct Hs; congruence. Qed.

Lemma failed_sn s : failed s -> sn (step true) s.
Proof. intros (p & s0 & e & _ & _ & Hf & _). constructor. intros s' Hs. by destruct (fatal_stuck _ _ _ _ Hf Hs). Qed.

Lemma phase_sn p s : in_phase p s -> sn (step true) s.
Proof.
  remember (measure p s) as k eqn:Hk. revert p s Hk.
  induction k as [k IH] using (well_founded_induction less_wf). intros p s -> Hp.
  constructor. intros s' Hstep. destruct (step_phase p s s' Hp Hstep) as [(p' & Hp' & Hlt)|Hfail];
    [by eapply IH|by apply failed_sn].
Qed.

Lemma phase_finishes p s :
  in_phase p s -> exists s', rtc (step true) s s' /\ in_phase PFinished s' /\ workers s' = [].
Proof.
  remember (measure p s) as k eqn:Hk. revert p s Hk.
  induction k as [k IH] using (well_founded_induction less_wf). intros p s -> Hp.
  destruct (phase_steps p s Hp) as [[-> Hw]|(s1 & Hstep & p' & Hp' & Hlt)];
    [exists s; split; [apply rtc_refl|done]|].
  destruct (IH _ Hlt p' s1 eq_refl Hp') as (s2 & Hs2 & Hf). exists s2. split; [by eapply rtc_l|done].
Qed.

Lemma phase_reachable p s s' : in_phase p s -> rtc (step true) s s' -> (exists p', in_phase p' s') \/ failed s'.
Proof.
  intros Hp Hsteps. revert p Hp. induction Hsteps as [s|s s1 s2 Hs Hrest IH]; intros p Hp; [eauto|].
  destruct (step_phase p s s1 Hp Hs) as [(p' & Hp' & _)|Hfail]; [eauto|]. right.
  inversion Hrest as [|? s3 ? Hs3]; subst; [done|].
  destruct Hfail as (? & ? & e & _ & _ & Hf & _). by destruct (fatal_stuck _ _ _ _ Hf Hs3).
Qed.

(** The end is announced when every table was handled. *)
Lemma phase_announced p s :
  in_phase p s -> SnapshottingFinished ∈ taskQueue s -> forall t, t ∈ order0 -> handled t s = true.
Proof.
  intros (_ & _ & Hst) Hin t Ht.
  destruct p; cbn in Hst; [destruct Hst as (? & Hq' & Hst)|destruct Hst as (Hq' & Hst)..]; rewrite Hq' in Hin;
    try (apply list_elem_of_singleton in Hin; done); try (by apply not_elem_of_nil in Hin).
  by apply Hst.
Qed.

Lemma start_phase n order s0 s1 :
  visiting_order sc order -> handledTables s0 = ∅ -> taskQueue s0 = [] -> requests s0 = [] ->
  workers s0 = [] -> fatal s0 = None -> sound_context s0 ->
  (forall t w, t ∈ order0 -> mark_of t (context s0) = Some w -> Complete w = false) ->
  OnSnapshottingStartedEvent order n s0 = Ret tt s1 -> exists p, in_phase p s1.
Proof.
  intros Hord Hh Hq Hr Hw Hf Hsc Hinc Hstart. unfold OnSnapshottingStartedEvent in Hstart.
  pose proof (visiting_order_perm _ _ Hord Horder0) as Hperm.
  destruct order as [|t order']; injection Hstart as <-.
  - exists PAllDone. split_and!; [done..|]. cbn. rewrite Hq. split_and!; [done|done| |by left].
    intros t Ht. rewrite <- Hperm in Ht. by apply not_elem_of_nil in Ht.
  - exists (PAnnounced t). split_and!; [done..|]. exists n. cbn. rewrite Hq. split_and!; [done|done| | |by left].
    + split; [rewrite <- Hperm; by left|]. unfold handled. cbn. by rewrite Hh, lookup_empty.
    + intros u w Hu Hm Hc. by rewrite (Hinc u w Hu Hm) in Hc.
Qed.

(** C12. A snapshot that starts from scratch finishes, unless a call of a worker
    reports an error, which ends the process.  From the start (no table handled,
    no stored watermark complete) every run is finite; the process ends only with
    an error that one of the calls reported (the publication, reading the high
    watermark or a batch, storing the context, enqueueing the task), never because
    the protocol itself came to an illegal state; as long as it has not ended, the
    run can be completed to one in which every table of the catalog was handled
    and nothing is left to do; and the end is only announced when every table was
    handled.  It is assumed that every batch completes the table or leaves less
    of it to read, that the watermark of each table can be created, that no
    request comes from elsewhere, and that a worker writes its copy of the context
    back before the next table is begun (without the last, see
    late_write_back_is_fatal). *)
Theorem fresh_snapshot_finishes (n : string) (order : list table) (s0 s1 s : state) :
  visiting_order sc order -> handledTables s0 = ∅ -> taskQueue s0 = [] -> requests s0 = [] ->
  workers s0 = [] -> fatal s0 = None -> sound_context s0 ->
  (forall t w, t ∈ order0 -> mark_of t (context s0) = Some w -> Complete w = false) ->
  OnSnapshottingStartedEvent order n s0 = Ret tt s1 -> rtc (step true) s1 s ->
  sn (step true) s /\
  (forall e, fatal s = Some e -> failure e) /\
  (fatal s = None -> exists s', rtc (step true) s s' /\ fatal s' = None /\
     taskQueue s' = [] /\ requests s' = [] /\ workers s' = [] /\
     forall t, t ∈ order0 -> handled t s' = true) /\
  (SnapshottingFinished ∈ taskQueue s -> forall t, t ∈ order0 -> handled t s = true).
Proof.
  intros Hord Hh Hq Hr Hw Hf Hsc Hinc Hstart Hsteps.
  destruct (start_phase n order s0 s1) as [p1 Hp1]; [done..|].
  destruct (phase_reachable p1 s1 s Hp1 Hsteps) as [[p Hp]|Hfail].
  - pose proof Hp as (Hfs & _). split_and!; [by eapply phase_sn|congruence| |by eapply phase_announced].
    intros _. destruct (phase_finishes p s Hp) as (s' & Hs' & (? & _ & Hf1 & Hf2 & Hf3 & _) & Hf4). eauto 9.
  - split; [by apply failed_sn|]. destruct Hfail as (p & s2 & e & Hp & He & Hfs & Hqs & Hhs).
    split_and!; [congruence|congruence|]. rewrite Hqs. intros Hin t Ht.
    unfold handled. rewrite Hhs. by apply (phase_announced p s2 Hp Hin).
Qed.

End Fresh.

(** ** A late write-back *)

Lemma beginTable_new high t c m w :
  watermarks c = Some m -> mark_of (task_table t) (Some c) = None ->
  newWatermark (BaseTable.columns (base_of (task_table t))) = inr w ->
  exists c', beginTable high t (Some c) = Ret tt c'.
Proof.
  intros Hm Hnone Hw. unfold beginTable, GetOrCreateWatermark. change (default _ (Some c)) with c. go_unfold.
  rewrite mark_of_marks, table_name_base in Hnone. rewrite Hnone, Hw, Hm. cbn. eauto.
Qed.

(** A worker that finished a table holds its copy of the snapshot context
    while the handler announces the next table; if another worker begins that
    table before the copy is written back, its watermark is overwritten and the
    batch that follows ends the process with "illegal watermark state". *)
Theorem late_write_back_is_fatal (s : state) (order : list table) (t : SnapshotTask) (t2 : table)
    (copy : SnapshotContext) (w w2 : Watermark) :
  fatal s = None -> visiting_order sc order ->
  taskQueue s = [TableSnapshotFinished (task_name t) (task_table t)] -> requests s = [] ->
  workers s = [Waiting t copy] -> context s = Some copy ->
  mark_of (task_table t) (Some copy) = Some w ->
  nextSnapshotTable order (set_handled (table_name (task_table t)) s) = Some t2 ->
  mark_of t2 (Some copy) = None -> newWatermark (BaseTable.columns (base_of t2)) = inr w2 ->
  exists s', rtc (step false) s s' /\ fatal s' = Some "illegal watermark state for table"%string.
Proof.
  intros Hf Hord Hq Hr Hwk Hc Hw Hnext Hnone Hnew. set (n := task_name t). set (t1 := task_table t) in *.
  assert (exists c1, markTableComplete t1 copy = Ret tt c1 /\ is_Some (watermarks c1)) as (c1 & Hmark & [m1 Hm1]).
  { unfold markTableComplete, GetOrCreateWatermark. go_unfold. rewrite mark_of_marks, table_name_base in Hw.
    rewrite Hw. eauto. }
  assert (mark_of t2 (Some c1) = None) as Hnone1.
  { rewrite <- Hnone. apply (mark_of_complete t1 t2 copy c1 Hmark). intros Heq.
    rewrite (mark_of_same _ _ _ Heq) in Hnone. congruence. }
  destruct (beginTable_new (highWatermark t2) (mkTask n t2 false) c1 m1 w2 Hm1 Hnone1 Hnew) as [c2 Hbegin].
  set (s1 := set_taskQueue [TableSnapshotStarted n t2] (set_context (Some c1) (set_handled (table_name t1) s))).
  set (s2 := set_requests [mkTask n t2 false] (set_taskQueue [] s1)).
  set (s3 := set_workers [Begun (mkTask n t2 false); Waiting t copy] (set_requests [] (set_context (Some c2) s2))).
  set (s4 := set_workers [Begun (mkTask n t2 false)] (set_context (Some copy) s3)).
  exists (die "illegal watermark state for table" (set_workers [] s4)). split; [|done].
  eapply (rtc_l _ _ s1).
  { eapply (step_dispatch false order); [done|done|exact Hq|]. cbn [dispatch]. fold t1. fold n.
    unfold OnTableSnapshotFinishedEvent, scheduleNextSnapshotHypertableOrFinish.
    rewrite (bind_run get _ _ _ _ eq_refl). cbn [context set_taskQueue].
    rewrite Hc, (bind_run (modify _) _ _ _ _ eq_refl), Hmark, (bind_run (modify _) _ _ _ _ eq_refl),
      (bind_run get _ _ _ _ eq_refl).
    change (nextSnapshotTable order _) with (nextSnapshotTable order (set_handled (table_name t1) s)) at 1.
    rewrite Hnext. done. }
  eapply (rtc_l _ _ s2).
  { eapply (step_dispatch false order); [done|done|done|]. cbn [dispatch]. unfold OnTableSnapshotStartedEvent.
    rewrite (bind_run get _ _ _ _ eq_refl). cbn [context].
    change (_ ≫= GetWatermark (base_of t2)) with (mark_of t2 (Some c1)). rewrite Hnone1.
    unfold s2, s1, snapshotBaseTable, EnqueueSnapshot, set_requests. unfold modify. cbn. by rewrite Hr. }
  eapply (rtc_l _ _ s3).
  { pose proof (step_begin false (mkTask n t2 false) [] [] c2 s2 Hf eq_refl) as Hstep.
    cbn [workers s2 set_requests set_taskQueue s1 set_context set_handled] in Hstep.
    unfold s3. rewrite <- Hwk. apply Hstep; done. }
  eapply (rtc_l _ _ s4).
  { apply (step_write_back false t copy [Begun (mkTask n t2 false)] [] s3 Hf eq_refl). apply not_elem_of_nil. }
  apply rtc_once. apply (step_fetch_error false (mkTask n t2 false) [] [] _ s4 Hf eq_refl).
  cbn. unfold fetchBatch. change (GetWatermark (base_of t2) copy) with (mark_of t2 (Some copy)). by rewrite Hnone.
Qed.

End Protocol.

(** *** Concrete inputs *)

Definition metrics : Hypertable :=
  Hyper.NewHypertable 1 "public" "metrics" "_timescaledb_internal" "_hyper_1" None 0 None None "d".
Definition events : Hypertable :=
  Hyper.NewHypertable 2 "public" "events" "_timescaledb_internal" "_hyper_2" None 0 None None "d".

Definition two_tables : Catalog.systemCatalog :=
  Catalog.RegisterHypertable events (Catalog.RegisterHypertable metrics Catalog.NewSystemCatalog).

(** Every batch reads all rows. *)
Definition one_batch (_ : table) (w : Watermark) : Watermark := MarkComplete w.
Definition no_rows (_ : table) : gmap string value := ∅.
(** The one error the database reports. *)
Definition lost_connection (e : string) : Prop := e = "connection lost"%string.

Definition idle : state := mkState ∅ None [] [] [] None.
Definition sample_order : list table := [THyper metrics; THyper events].

Lemma sample_visiting_order : visiting_order two_tables sample_order.
Proof. exists [metrics; events], []. split_and!; [reflexivity|vm_compute; apply perm_swap|reflexivity]. Qed.

Lemma sample_in_catalog : in_catalog two_tables (THyper metrics).
Proof.
  intros order Hord. rewrite (visiting_order_perm two_tables _ _ Hord sample_visiting_order). by left.
Qed.

(** The stored context of a run that completed "metrics" and was stopped. *)
Definition interrupted : SnapshotContext :=
  mkSnapshotContext "s" false (Some {[ Hyper.canonicalName metrics := mkWatermark true ∅ ∅ ∅ ]}).

Definition restarted : state :=
  mkState ∅ (Some interrupted) [TableSnapshotStarted "s" (THyper metrics)] [] [] None.

Lemma resumed_snapshot_never_finishes_witness :
  OnSnapshottingStartedEvent sample_order "s" (mkState ∅ (Some interrupted) [] [] [] None) = Ret tt restarted /\
  forall s', rtc (step two_tables no_rows one_batch lost_connection false) restarted s' -> SnapshottingFinished ∉ taskQueue s'.
Proof.
  split; [reflexivity|]. intros s'.
  apply (resumed_snapshot_never_finishes two_tables no_rows one_batch lost_connection false (THyper metrics) restarted s').
  - exact sample_in_catalog.
  - constructor; [|reflexivity|constructor|constructor|repeat constructor].
    eexists. split; [vm_compute; reflexivity|reflexivity].
Defined.

Definition announced : state :=
  mkState ∅ None [TableSnapshotStarted "s" (THyper metrics)] [] [] None.

Lemma fresh_snapshot_finishes_witness :
  sn (step two_tables no_rows one_batch lost_connection true) announced /\
  exists s', rtc (step two_tables no_rows one_batch lost_connection true) announced s' /\ fatal s' = None /\
     taskQueue s' = [] /\ requests s' = [] /\ workers s' = [] /\ forall t, t ∈ sample_order -> handled t s' = true.
Proof.
  destruct (fresh_snapshot_finishes two_tables no_rows one_batch lost_connection sample_order sample_visiting_order) with
    (rows_left := fun (_ : table) (_ : gmap string value) => 0%nat) (n := "s"%string) (order := sample_order)
    (s0 := idle) (s1 := announced) (s := announced) as (Hsn & _ & Hfin & _); try reflexivity.
  - intros t Ht. apply elem_of_cons in Ht as [->|Ht]; [by eexists|].
    apply list_elem_of_singleton in Ht as ->. by eexists.
  - by left.
  - exact sample_visiting_order.
  - by intros c.
  - by intros t w _.
  - split; [exact Hsn|by apply Hfin].
Defined.

(** "metrics" is read and its worker waits for the handler. *)
Definition copy_of_metrics : SnapshotContext :=
  mkSnapshotContext "s" false (Some {[ Hyper.canonicalName metrics := mkWatermark true ∅ ∅ ∅ ]}).
Definition metrics_read : state :=
  mkState ∅ (Some copy_of_metrics) [TableSnapshotFinished "s" (THyper metrics)] []
    [Waiting (mkTask "s" (THyper metrics) false) copy_of_metrics] None.

Lemma late_write_back_is_fatal_witness :
  exists s', rtc (step two_tables no_rows one_batch lost_connection false) announced s' /\
    fatal s' = Some "illegal watermark state for table"%string.
Proof.
  destruct (late_write_back_is_fatal two_tables no_rows one_batch lost_connection metrics_read sample_order
    (mkTask "s" (THyper metrics) false) (THyper events) copy_of_metrics (mkWatermark true ∅ ∅ ∅)
    (mkWatermark false ∅ ∅ ∅)) as (s' & Hs' & Hf); try (vm_compute; reflexivity).
  { exact sample_visiting_order. }
  exists s'. split; [|exact Hf]. clear Hf. etrans; [|exact Hs'].
  eapply rtc_l.
  { eapply (step_dispatch _ _ _ _ false sample_order); [done|exact sample_visiting_order|done|]. vm_compute. reflexivity. }
  eapply rtc_l.
  { eapply (step_begin _ _ _ _ false (mkTask "s" (THyper metrics) false) [] []); [done|done|done|].
    vm_compute. reflexivity. }
  eapply rtc_l.
  { eapply (step_fetch _ _ _ _ false (mkTask "s" (THyper metrics) false) [] []); [done|done|]. vm_compute. reflexivity. }
  apply rtc_once. match goal with |- step _ _ _ _ _ _ ?b => replace b with
    (checkTable (mkTask "s" (THyper metrics) false) [] (set_workers [Fetched (mkTask "s" (THyper metrics) false)]
      (set_taskQueue [] (set_context (Some copy_of_metrics) idle)))) by (vm_compute; reflexivity) end.
  by apply (step_check _ _ _ _ false (mkTask "s" (THyper metrics) false) [] []).
Defined.
