(* ===== verification/Resolver.v ===== *)
(** * Resolver: from stream messages to tasks

    internal/replication/logicalreplicationresolver/replicationresolver.go: the
    handler that turns the messages of the replication stream into tasks for the
    record, catalog and compression handlers, and that holds the events of a
    chunk back while the chunk is snapshotted.

    All its methods run on the dispatcher goroutine, so each is one computation
    on the resolver's [world]: its own caches and queues, the catalog it looks
    tables up in, the replication context's positions, and the task queue it
    appends to.  The two relation caches are finite maps (Containers.v shows that
    the cache refines one).  A queued callback enqueues one task if its log entry
    is not older than the snapshot, so it is the pair of the two.  A task carries
    a table as it was when the task was made. *)

From Stdlib Require Import ZArith Lia.
From stdpp Require Import base tactics option list numbers strings gmap.
From S2P Require Import Prelude Containers Encoding Entities Values Messages SystemCatalog.

Local Open Scope Z_scope.

(** The switches the configuration sets. *)
Record config : Type := mkConfig {
  genDeleteTombstone : bool;
  genHypertableInsertEvent : bool;
  genHypertableUpdateEvent : bool;
  genHypertableDeleteEvent : bool;
  genHypertableTruncateEvent : bool;
  genHypertableCompressionEvent : bool;
  genHypertableDecompressionEvent : bool;
  genPostgresqlInsertEvent : bool;
  genPostgresqlUpdateEvent : bool;
  genPostgresqlDeleteEvent : bool;
  genPostgresqlTruncateEvent : bool;
  genMessageEvent : bool;
  decompressionMarkingEnabled : bool;
}.

Abbreviation callback := (XLogData * task)%type.

Record world : Type := mkWorld {
  relations : gmap Z RelationMessage;
  chunkIdLookup : gmap Z Z;
  eventQueues : gmap string (Queue.Queue callback);
  catalog : CatalogEvents.state;
  lastBeginLSN : Z;
  lastCommitLSN : Z;
  lastTransactionId : Z;
  taskQueue : list task;
  ran : list task;
  shutdownActive : bool;
}.

Definition set_relations (m : gmap Z RelationMessage) (w : world) : world :=
  mkWorld m (chunkIdLookup w) (eventQueues w) (catalog w) (lastBeginLSN w) (lastCommitLSN w)
    (lastTransactionId w) (taskQueue w) (ran w) (shutdownActive w).
Definition set_chunkIdLookup (m : gmap Z Z) (w : world) : world :=
  mkWorld (relations w) m (eventQueues w) (catalog w) (lastBeginLSN w) (lastCommitLSN w)
    (lastTransactionId w) (taskQueue w) (ran w) (shutdownActive w).
Definition set_eventQueues (m : gmap string (Queue.Queue callback)) (w : world) : world :=
  mkWorld (relations w) (chunkIdLookup w) m (catalog w) (lastBeginLSN w) (lastCommitLSN w)
    (lastTransactionId w) (taskQueue w) (ran w) (shutdownActive w).
Definition set_catalog (c : CatalogEvents.state) (w : world) : world :=
  mkWorld (relations w) (chunkIdLookup w) (eventQueues w) c (lastBeginLSN w) (lastCommitLSN w)
    (lastTransactionId w) (taskQueue w) (ran w) (shutdownActive w).
Definition set_positions (b c x : Z) (w : world) : world :=
  mkWorld (relations w) (chunkIdLookup w) (eventQueues w) (catalog w) b c x (taskQueue w) (ran w) (shutdownActive w).
Definition set_taskQueue (q : list task) (w : world) : world :=
  mkWorld (relations w) (chunkIdLookup w) (eventQueues w) (catalog w) (lastBeginLSN w) (lastCommitLSN w)
    (lastTransactionId w) q (ran w) (shutdownActive w).
Definition set_ran (r : list task) (w : world) : world :=
  mkWorld (relations w) (chunkIdLookup w) (eventQueues w) (catalog w) (lastBeginLSN w) (lastCommitLSN w)
    (lastTransactionId w) (taskQueue w) r (shutdownActive w).

Definition sysCatalog (w : world) : Catalog.systemCatalog := CatalogEvents.catalog (catalog w).

(** The task manager's [EnqueueTask]. *)
Definition EnqueueTask (t : task) : G world unit :=
  w ← get;
  if shutdownActive w then fail "shutdown active, draining only"
  else put (set_taskQueue (taskQueue w ++ [t])%list w).

Section Resolver.
Context (cfg : config) (GetOrPlanTupleDecoder : RelationMessage -> option string).
Context `{Database} (enabled : Hypertable -> bool).

(** [RunTask]: the handlers are notified before the call returns.  The catalog's
    handler changes the catalog; the others only see the event. *)
Definition RunTask (t : task) : G world unit :=
  w ← get;
  put (set_ran (ran w ++ [t])%list w) ;;
  match t with
  | NotifyCatalog e => zoom catalog set_catalog (CatalogEvents.handle enabled e)
  | _ => mret tt
  end.

(** ** Chunk snapshots *)

Definition chunk_name (c : Chunk) : string := CanonicalName (Chnk.entity c).

Definition OnChunkSnapshotStartedEvent (chunk : Chunk) : G world unit :=
  modify (fun w => set_eventQueues (<[ chunk_name chunk := Queue.NewQueue (Z.to_nat 1000000) ]> (eventQueues w)) w).

Definition isSnapshotting (chunk : option Chunk) (w : world) : bool :=
  match chunk with
  | None => false
  | Some c => bool_decide (is_Some (eventQueues w !! chunk_name c))
  end.

(** A method of the queue registered for [key]. *)
Definition on_queue {A} (key : string) (m : G (Queue.Queue callback) A) : G world A :=
  w ← get;
  match eventQueues w !! key with
  | None => panic PanicNilDereference
  | Some q => zoom (fun _ => q) (fun q' w => set_eventQueues (<[ key := q' ]> (eventQueues w)) w) m
  end.

(** A method of a queue that is no longer registered. *)
Definition on_local {A} (m : G (Queue.Queue callback) A) : G (Queue.Queue callback * world) A :=
  zoom fst (fun q s => (q, snd s)) m.
Definition on_world {A} (m : G world A) : G (Queue.Queue callback * world) A :=
  zoom snd (fun w s => (fst s, w)) m.
Definition with_local {A} (q : Queue.Queue callback) (m : G (Queue.Queue callback * world) A) : G world A :=
  fun w => match m (q, w) with
           | Ret a (_, w') => Ret a w'
           | Err e (_, w') => Err e w'
           | Crash c => Crash c
           end.

(** The callback pushed by [enqueueOrExecute]. *)
Definition run_callback (snapshot : Z) (cb : callback) : G world unit :=
  if ServerWALEnd (fst cb) <? snapshot then mret tt else EnqueueTask (snd cb).

Definition OnChunkSnapshotFinishedEvent (chunk : Chunk) (snapshot : Z) : G world unit :=
  let key := chunk_name chunk in
  w ← get;
  queue ← must PanicNilDereference (eventQueues w !! key);
  Queue.drain (on_queue key Queue.Pop) (run_callback snapshot) (S (length (Queue.queueChan queue))) ;;
  w ← get;
  queue ← must PanicNilDereference (eventQueues w !! key);
  modify (fun w => set_eventQueues (delete key (eventQueues w)) w) ;;
  with_local queue (
    on_local Queue.Lock ;;
    Queue.drain (on_local Queue.Pop) (fun cb => on_world (run_callback snapshot cb))
      (S (length (Queue.queueChan queue))) ;;
    on_local Queue.Close).

(** [fn] enqueues the task [t]. *)
Definition enqueueOrExecute (chunk : option Chunk) (xld : XLogData) (t : task) : G world unit :=
  w ← get;
  match chunk with
  | Some c =>
      if isSnapshotting chunk w then
        pushed ← on_queue (chunk_name c) (Queue.Push (xld, t));
        match pushed with true => mret tt | false => EnqueueTask t end
      else EnqueueTask t
  | None => EnqueueTask t
  end.

(** ** Stream events *)

Definition OnRelationEvent (msg : RelationMessage) : G world unit :=
  modify (fun w => set_relations (<[ RelationID msg := msg ]> (relations w)) w) ;;
  match GetOrPlanTupleDecoder msg with
  | Some e => fail e
  | None => mret tt
  end.

Definition OnBeginEvent (xld : XLogData) (msg : BeginMessage) : G world unit :=
  modify (fun w => set_positions (WALStart xld) (lastCommitLSN w) (BeginXid msg) w).

Definition OnCommitEvent (xld : XLogData) (msg : CommitMessage) : G world unit :=
  modify (fun w => set_positions (lastBeginLSN w) (TransactionEndLSN msg) (lastTransactionId w) w) ;;
  EnqueueTask (NotifyRecord (OnTransactionFinished xld msg)).

(** [relations.Get] with [Fatalf] on an unknown relation. *)
Definition relation (relId : Z) : G world RelationMessage :=
  w ← get;
  must FatalExit (relations w !! relId).

Definition resolveChunkAndHypertable (chunkOid : Z) (schemaName tableName : string) :
  G world (option (Chunk * Hypertable)) :=
  w ← get;
  chunk ←
    match chunkIdLookup w !! chunkOid with
    | Some chunkId => mret (Catalog.FindChunkById chunkId (sysCatalog w))
    | None =>
        match Catalog.FindChunkByName schemaName tableName (sysCatalog w) with
        | None => mret None
        | Some chunk =>
            put (set_chunkIdLookup (<[ chunkOid := Chnk.id chunk ]> (chunkIdLookup w)) w) ;;
            mret (Some chunk)
        end
    end;
  match chunk with
  | None => mret None
  | Some c =>
      match Catalog.FindHypertableById (Chnk.hypertableId c) (sysCatalog w) with
      | Some h => mret (Some (c, h))
      | None => mret None
      end
  end.

(** The table a record event is about, unless it is unknown or its events are
    switched off. *)
Definition resolveTable (genPostgresql genHypertable : bool) (rel : RelationMessage) :
  G world (option (table * option Chunk)) :=
  if IsVanillaTable rel then
    if negb genPostgresql then mret None
    else
      w ← get;
      match Catalog.FindVanillaTableById (RelationID rel) (sysCatalog w) with
      | Some t => mret (Some (TVanilla t, None))
      | None => mret None
      end
  else if negb genHypertable then mret None
  else
    r ← resolveChunkAndHypertable (RelationID rel) (Namespace rel) (RelationName rel);
    match r with
    | Some (c, h) => mret (Some (THyper h, Some c))
    | None => mret None
    end.

Definition onHypertableInsertEvent (xld : XLogData) (relId : Z) (newValues : values) : G world unit :=
  EnqueueTask (NotifyCatalog (HypertableAdded xld relId newValues)).
Definition onChunkInsertEvent (xld : XLogData) (relId : Z) (newValues : values) : G world unit :=
  EnqueueTask (NotifyCatalog (ChunkAdded xld relId newValues)).
Definition onHypertableUpdateEvent (xld : XLogData) (relId : Z) (oldValues newValues : values) : G world unit :=
  EnqueueTask (NotifyCatalog (HypertableUpdated xld relId oldValues newValues)).
Definition onChunkUpdateEvent (xld : XLogData) (relId : Z) (oldValues newValues : values) : G world unit :=
  RunTask (NotifyCatalog (ChunkUpdated xld relId oldValues newValues)).
Definition onHypertableDeleteEvent (xld : XLogData) (relId : Z) (oldValues : values) : G world unit :=
  EnqueueTask (NotifyCatalog (HypertableDeleted xld relId oldValues)).

Definition onChunkCompressionEvent (xld : XLogData) (chunk : Chunk) : G world unit :=
  w ← get;
  match Catalog.ResolveUncompressedHypertable (Chnk.hypertableId chunk) (sysCatalog w) with
  | Some (uncompressedHypertable, _) =>
      if negb (genHypertableCompressionEvent cfg) then mret tt
      else EnqueueTask (NotifyCompression (ChunkCompressed xld uncompressedHypertable chunk))
  | None => mret tt
  end.

Definition decompressionEventTaskOperation (t : task) : G world unit :=
  if decompressionMarkingEnabled cfg then RunTask t else EnqueueTask t.

Definition onChunkDecompressionEvent (xld : XLogData) (chunk : Chunk) : G world unit :=
  w ← get;
  match Catalog.ResolveUncompressedHypertable (Chnk.hypertableId chunk) (sysCatalog w) with
  | Some (uncompressedHypertable, _) =>
      if negb (genHypertableDecompressionEvent cfg) then mret tt
      else decompressionEventTaskOperation (NotifyCompression (ChunkDecompressed xld uncompressedHypertable chunk))
  | None => mret tt
  end.

Definition onChunkDeleteEvent (xld : XLogData) (relId : Z) (oldValues : values) : G world unit :=
  w ← get;
  match oldValues !! "id"%string with
  | Some (VInt32 id) =>
      match Catalog.FindChunkById id (sysCatalog w) with
      | Some chunk => if Chnk.IsCompressed chunk then onChunkDecompressionEvent xld chunk else mret tt
      | None => mret tt
      end
  | _ => mret tt
  end ;;
  EnqueueTask (NotifyCatalog (ChunkDeleted xld relId oldValues)).

Definition OnInsertEvent (xld : XLogData) (relId : Z) (newValues : values) : G world unit :=
  rel ← relation relId;
  if IsHypertableEvent rel then onHypertableInsertEvent xld relId newValues
  else if IsChunkEvent rel then onChunkInsertEvent xld relId newValues
  else
    r ← resolveTable (genPostgresqlInsertEvent cfg) (genHypertableInsertEvent cfg) rel;
    match r with
    | None => mret tt
    | Some (t, chunk) => enqueueOrExecute chunk xld (NotifyRecord (OnInsert xld t chunk newValues))
    end.

(** The compression check of a chunk's catalog row. *)
Definition chunkCompression (xld : XLogData) (newValues : values) : G world unit :=
  chunkId ← lift (CatalogEvents.as_int32 newValues "id");
  w ← get;
  match Catalog.FindChunkById chunkId (sysCatalog w) with
  | Some chunk =>
      if Chnk.status chunk =? 0 then
        status ← lift (CatalogEvents.as_int32 newValues "status");
        if status =? 1 then onChunkCompressionEvent xld chunk else mret tt
      else mret tt
  | None => mret tt
  end.

Definition OnUpdateEvent (xld : XLogData) (relId : Z) (oldValues newValues : values) : G world unit :=
  rel ← relation relId;
  if IsHypertableEvent rel then onHypertableUpdateEvent xld relId oldValues newValues
  else if IsChunkEvent rel then
    chunkCompression xld newValues ;;
    onChunkUpdateEvent xld relId oldValues newValues
  else
    r ← resolveTable (genPostgresqlUpdateEvent cfg) (genHypertableUpdateEvent cfg) rel;
    match r with
    | None => mret tt
    | Some (t, chunk) => enqueueOrExecute chunk xld (NotifyRecord (OnUpdate xld t chunk oldValues newValues))
    end.

Definition OnDeleteEvent (xld : XLogData) (relId : Z) (oldValues : values) : G world unit :=
  rel ← relation relId;
  if IsHypertableEvent rel then onHypertableDeleteEvent xld relId oldValues
  else if IsChunkEvent rel then onChunkDeleteEvent xld relId oldValues
  else
    r ← resolveTable (genPostgresqlDeleteEvent cfg) (genHypertableDeleteEvent cfg) rel;
    match r with
    | None => mret tt
    | Some (t, chunk) =>
        enqueueOrExecute chunk xld (NotifyRecord (OnDelete xld t chunk oldValues false)) ;;
        if genDeleteTombstone cfg
        then enqueueOrExecute chunk xld (NotifyRecord (OnDelete xld t chunk oldValues true))
        else mret tt
    end.

(** [lo.UniqBy]: the first element of every key. *)
Fixpoint uniqBy {A} (key : A -> string) (seen : list string) (l : list A) : list A :=
  match l with
  | [] => []
  | x :: l' => if bool_decide (key x ∈ seen) then uniqBy key seen l' else x :: uniqBy key (key x :: seen) l'
  end.

(** One round of the loop over the relation ids of a truncate message. *)
Definition truncatedTable (relId : Z) : G world (list table) :=
  rel ← relation relId;
  if negb (IsVanillaTable rel) then
    if negb (genHypertableTruncateEvent cfg) then mret []
    else if IsHypertableEvent rel || IsChunkEvent rel then mret []
    else
      r ← resolveChunkAndHypertable (RelationID rel) (Namespace rel) (RelationName rel);
      match r with Some (_, h) => mret [THyper h] | None => mret [] end
  else if negb (genPostgresqlTruncateEvent cfg) then mret []
  else
    w ← get;
    match Catalog.FindVanillaTableById relId (sysCatalog w) with
    | Some t => mret [TVanilla t]
    | None => mret []
    end.

Fixpoint truncatedTables (relIds : list Z) : G world (list table) :=
  match relIds with
  | [] => mret []
  | relId :: rest =>
      ts ← truncatedTable relId;
      ts' ← truncatedTables rest;
      mret (ts ++ ts')%list
  end.

Definition OnTruncateEvent (xld : XLogData) (relationNum : Z) (relationIds : list Z) : G world unit :=
  forM relationIds (fun relId => relation relId ;; mret tt) ;;
  (if (Z.of_nat (length relationIds) <? relationNum)
   then truncatedTables relationIds ;; panic PanicIndexOutOfRange
   else
     tables ← truncatedTables (take (Z.to_nat relationNum) relationIds);
     forM (uniqBy table_name [] tables) (fun t => EnqueueTask (NotifyRecord (OnTruncate xld t)))).

Definition OnMessageEvent (xld : XLogData) (m : LogicalReplicationMessage) : G world unit :=
  EnqueueTask (NotifyRecord (OnMessage xld m)).

(** The handler's method for a message of the stream. *)
Definition onMessage (xld : XLogData) (m : Message) : G world unit :=
  match m with
  | MRelation m => OnRelationEvent m
  | MBegin m => OnBeginEvent xld m
  | MCommit m => OnCommitEvent xld m
  | MInsert relId newValues => OnInsertEvent xld relId newValues
  | MUpdate relId oldValues newValues => OnUpdateEvent xld relId oldValues newValues
  | MDelete relId oldValues => OnDeleteEvent xld relId oldValues
  | MTruncate n relIds => OnTruncateEvent xld n relIds
  | MType | MOrigin => mret tt
  | MLogical m => OnMessageEvent xld m
  end.

(** ** The hand-over of a chunk's events *)

Lemma EnqueueTask_run t w :
  shutdownActive w = false -> EnqueueTask t w = Ret tt (set_taskQueue (taskQueue w ++ [t])%list w).
Proof. intros Hs. unfold EnqueueTask. go_unfold. by rewrite Hs. Qed.

(** An event for [enqueueOrExecute]. *)
Definition event : Type := (option Chunk * XLogData * task)%type.
Definition submit (e : event) : G world unit := enqueueOrExecute (fst (fst e)) (snd (fst e)) (snd e).

Definition is_of (key : string) (e : event) : bool :=
  match fst (fst e) with Some c => bool_decide (chunk_name c = key) | None => false end.
Definition of_chunk (key : string) (es : list event) : list event := List.filter (is_of key) es.
Definition others (key : string) (es : list event) : list event := List.filter (fun e => negb (is_of key e)) es.

(** The callbacks of events, and the tasks that a snapshot at [lsn] leaves. *)
Definition callbacks (es : list event) : list callback := map (fun e => (snd (fst e), snd e)) es.
Definition tasks (es : list event) : list task := map snd es.
Definition not_older (lsn : Z) (es : list event) : list event :=
  List.filter (fun e => lsn <=? ServerWALEnd (snd (fst e))) es.

(** What the callbacks enqueue for a snapshot at [lsn]. *)
Definition released (lsn : Z) (l : list callback) : list task :=
  map snd (List.filter (fun cb => lsn <=? ServerWALEnd (fst cb)) l).

Definition holding (key : string) (l : list callback) (n : nat) : Queue.Queue callback :=
  Queue.mkQueue l n false false.

(** The chunk of the event is being snapshotted. *)
Definition is_held (queues : gmap string (Queue.Queue callback)) (e : event) : bool :=
  match fst (fst e) with Some c => bool_decide (is_Some (queues !! chunk_name c)) | None => false end.

(** The events of no chunk that is being snapshotted. *)
Definition passed (queues : gmap string (Queue.Queue callback)) (es : list event) : list event :=
  List.filter (fun e => negb (is_held queues e)) es.

(** The queues with the events of their chunks. *)
Definition held (es : list event) (queues : gmap string (Queue.Queue callback)) : gmap string (Queue.Queue callback) :=
  map_imap (fun key q => Some (Queue.mkQueue (Queue.queueChan q ++ callbacks (of_chunk key es)) (Queue.cap q)
                                  (Queue.locked q) (Queue.closed q))) queues.

(** The queues are open and have room for the events of their chunks. *)
Definition roomy (es : list event) (queues : gmap string (Queue.Queue callback)) : Prop :=
  forall key q, queues !! key = Some q ->
    exists l n, q = holding key l n /\ (length l + length (of_chunk key es) <= n)%nat.

Lemma submit_passed w e :
  is_held (eventQueues w) e = false -> shutdownActive w = false ->
  submit e w = Ret tt (set_taskQueue (taskQueue w ++ [snd e])%list w).
Proof.
  intros Hh Hs. unfold submit, enqueueOrExecute. rewrite (bind_run get _ w w w eq_refl).
  destruct e as [[[c|] xld] t]; cbn in *; [|by apply EnqueueTask_run].
  rewrite Hh. by apply EnqueueTask_run.
Qed.

Lemma submit_held w c xld t l n :
  eventQueues w !! chunk_name c = Some (holding (chunk_name c) l n) -> (length l < n)%nat ->
  submit (Some c, xld, t) w =
    Ret tt (set_eventQueues (<[ chunk_name c := holding (chunk_name c) (l ++ [(xld, t)])%list n ]> (eventQueues w)) w).
Proof.
  intros Hq Hlen. unfold submit, enqueueOrExecute. rewrite (bind_run get _ w w w eq_refl). cbn.
  rewrite Hq, bool_decide_true by eauto. unfold on_queue, Queue.Push. go_unfold. rewrite Hq.
  cbn [holding Queue.locked Queue.closed Queue.queueChan Queue.cap].
  apply Nat.ltb_lt in Hlen as ->. done.
Qed.

Lemma held_none es queues : (forall key, is_Some (queues !! key) -> of_chunk key es = []) -> held es queues = queues.
Proof.
  intros Hnone. apply map_eq. intros key. unfold held. rewrite map_lookup_imap.
  destruct (queues !! key) as [q|] eqn:Hq; [|done]. cbn. rewrite (Hnone key) by by eexists. cbn. rewrite app_nil_r. by destruct q.
Qed.

Lemma held_cons e es queues : held (e :: es) queues = held es (held [e] queues).
Proof.
  apply map_eq. intros key. unfold held. rewrite !map_lookup_imap.
  destruct (queues !! key) as [q|]; [|done]. cbn. destruct (is_of key e); cbn; by rewrite <- ?app_assoc, ?app_nil_r.
Qed.

Lemma held_one c xld t l n queues :
  queues !! chunk_name c = Some (holding (chunk_name c) l n) ->
  held [(Some c, xld, t)] queues = <[ chunk_name c := holding (chunk_name c) (l ++ [(xld, t)])%list n ]> queues.
Proof.
  intros Hq. apply map_eq. intros key. unfold held. rewrite map_lookup_imap. unfold of_chunk, is_of. cbn.
  destruct (decide (chunk_name c = key)) as [<-|Hne].
  - rewrite lookup_insert_eq, Hq, bool_decide_true by done. done.
  - rewrite lookup_insert_ne, bool_decide_false by done. destruct (queues !! key) as [[]|]; [|done]. cbn. by rewrite app_nil_r.
Qed.

Lemma held_lookup es queues key : is_Some (held es queues !! key) <-> is_Some (queues !! key).
Proof. unfold held. rewrite map_lookup_imap. destruct (queues !! key); cbn; split; intros []; eauto; done. Qed.

Lemma passed_held e es queues : passed (held [e] queues) es = passed queues es.
Proof.
  unfold passed. induction es as [|[[[c|] xld] t] es IH]; cbn [List.filter]; [done| |by rewrite IH].
  assert (is_held (held [e] queues) (Some c, xld, t) = is_held queues (Some c, xld, t)) as -> by (apply bool_decide_ext, held_lookup).
  by rewrite IH.
Qed.

(** The events of the chunks that are being snapshotted are held, and the others pass. *)
Lemma submit_all es w :
  shutdownActive w = false -> roomy es (eventQueues w) ->
  forM es submit w = Ret tt
    (set_taskQueue (taskQueue w ++ tasks (passed (eventQueues w) es))%list (set_eventQueues (held es (eventQueues w)) w)).
Proof.
  revert w. induction es as [|e es IH]; intros w Hs Hroom; cbn [forM].
  { cbn. rewrite held_none, app_nil_r by done. by destruct w. }
  destruct (is_held (eventQueues w) e) eqn:Hh.
  - destruct e as [[[c|] xld] t]; [|done]. pose proof Hh as [q Hq]%bool_decide_eq_true.
    destruct (Hroom _ _ Hq) as (l & n & -> & Hlen). unfold of_chunk, is_of in Hlen. cbn in Hlen.
    rewrite bool_decide_true in Hlen by done. cbn in Hlen.
    rewrite (bind_run _ _ _ _ _ (submit_held w c xld t l n Hq ltac:(lia))), <- held_one with (t := t) by done.
    rewrite IH; [|exact Hs|].
    + cbn [taskQueue set_taskQueue eventQueues set_eventQueues]. rewrite <- held_cons, passed_held.
      unfold passed. cbn [List.filter]. by rewrite Hh.
    + cbn. intros key q. unfold held. rewrite map_lookup_imap. destruct (eventQueues w !! key) as [q0|] eqn:Hk; [|done].
      intros [= <-]. destruct (Hroom _ _ Hk) as (l0 & n0 & -> & Hl0). exists (l0 ++ callbacks (of_chunk key [(Some c, xld, t)]))%list, n0.
      split; [done|]. rewrite length_app. unfold callbacks. rewrite length_map. unfold of_chunk in *. cbn [List.filter] in Hl0 |- *.
      destruct (is_of key (Some c, xld, t)); cbn in *; lia.
  - rewrite (bind_run _ _ _ _ _ (submit_passed w e Hh Hs)). rewrite IH; [|exact Hs|].
    + cbn [taskQueue set_taskQueue eventQueues set_eventQueues].
      assert (held (e :: es) (eventQueues w) = held es (eventQueues w)) as ->.
      { rewrite held_cons, (held_none [e]); [done|]. intros key Hk. unfold of_chunk, is_of. cbn.
        destruct (fst (fst e)) as [c|] eqn:Hc; [|done]. destruct (bool_decide (chunk_name c = key)) eqn:Hn; [|done].
        apply bool_decide_eq_true in Hn as <-. unfold is_held in Hh. rewrite Hc in Hh. by apply bool_decide_eq_false in Hh. }
      unfold passed. cbn [List.filter]. rewrite Hh. cbn. by rewrite <- app_assoc.
    + cbn. intros key q Hq. destruct (Hroom _ _ Hq) as (l & n & -> & Hlen). exists l, n. split; [done|].
      unfold of_chunk in *. cbn [List.filter] in Hlen. destruct (is_of key e); cbn in Hlen; lia.
Qed.

(** Draining the registered queue runs its callbacks in order. *)
Lemma drain_callbacks key lsn l n fuel w :
  shutdownActive w = false -> eventQueues w !! key = Some (holding key l n) -> (length l < fuel)%nat ->
  Queue.drain (on_queue key Queue.Pop) (run_callback lsn) fuel w = Ret tt
    (set_taskQueue (taskQueue w ++ released lsn l)%list
      (set_eventQueues (<[ key := holding key [] n ]> (eventQueues w)) w)).
Proof.
  revert w fuel. induction l as [|[xld t] l IH]; intros w [|fuel] Hs Hq Hfuel; cbn in Hfuel; try lia; cbn [Queue.drain].
  - unfold on_queue, Queue.Pop. go_unfold. rewrite Hq. cbn. rewrite app_nil_r, insert_id by done. by destruct w.
  - set (w1 := set_eventQueues (<[ key := holding key l n ]> (eventQueues w)) w).
    assert (on_queue key Queue.Pop w = Ret (Some (xld, t)) w1) as Hpop.
    { unfold on_queue, Queue.Pop. go_unfold. by rewrite Hq. }
    rewrite (bind_run _ _ _ _ _ Hpop). unfold run_callback, released. cbn [fst snd List.filter map].
    fold (released lsn l).
    destruct (Z.ltb_spec (ServerWALEnd xld) lsn) as [Hlt|Hge].
    + rewrite (bind_run (mret tt) _ _ _ _ eq_refl), (IH w1); [|done|cbn; by rewrite lookup_insert_eq|lia].
      assert ((lsn <=? ServerWALEnd xld) = false) as -> by (apply Z.leb_gt; lia). unfold w1. cbn.
      by rewrite insert_insert_eq.
    + rewrite (bind_run _ _ _ _ _ (EnqueueTask_run t w1 Hs)), (IH _); [|done|cbn; by rewrite lookup_insert_eq|lia].
      assert ((lsn <=? ServerWALEnd xld) = true) as -> by (apply Z.leb_le; lia). unfold w1. cbn.
      by rewrite insert_insert_eq, <- app_assoc.
Qed.

Lemma filter_callbacks lsn es :
  released lsn (callbacks es) = tasks (not_older lsn es).
Proof.
  unfold released, callbacks, tasks, not_older. induction es as [|[[c xld] t] es IH]; [done|]. cbn.
  destruct (lsn <=? ServerWALEnd xld); cbn; by rewrite IH.
Qed.

Lemma finish_snapshot chunk lsn l n w :
  shutdownActive w = false -> eventQueues w !! chunk_name chunk = Some (holding (chunk_name chunk) l n) ->
  OnChunkSnapshotFinishedEvent chunk lsn w = Ret tt
    (set_taskQueue (taskQueue w ++ released lsn l)%list
      (set_eventQueues (delete (chunk_name chunk) (eventQueues w)) w)).
Proof.
  intros Hs Hq. unfold OnChunkSnapshotFinishedEvent. set (key := chunk_name chunk) in *.
  rewrite (bind_run get _ _ _ _ eq_refl), Hq, (bind_run (must _ (Some _)) _ _ _ _ eq_refl).
  rewrite (bind_run _ _ _ _ _ (drain_callbacks key lsn l n (S (length l)) w Hs Hq ltac:(lia))).
  rewrite (bind_run get _ _ _ _ eq_refl). cbn [eventQueues set_taskQueue set_eventQueues].
  rewrite lookup_insert_eq, (bind_run (must _ (Some _)) _ _ _ _ eq_refl), (bind_run (modify _) _ _ _ _ eq_refl).
  unfold with_local. cbn. unfold on_local, Queue.Lock, Queue.Close. go_unfold. cbn.
  by rewrite delete_insert_eq.
Qed.

Lemma roomy_insert key es queues :
  roomy es queues -> Z.of_nat (length (of_chunk key es)) <= 1000000 ->
  roomy es (<[ key := holding key [] (Z.to_nat 1000000) ]> queues).
Proof.
  intros Hroom Hlen k q [[<- <-]|[_ Hq]]%lookup_insert_Some; [|by apply Hroom].
  exists [], (Z.to_nat 1000000). split; [done|]. cbn [length]. lia.
Qed.

Lemma passed_insert key q es queues : passed (<[ key := q ]> queues) es = passed queues (others key es).
Proof.
  unfold passed, others. induction es as [|[[[c|] xld] t] es IH]; cbn; [done| |by rewrite IH]. rewrite IH.
  unfold is_of, is_held. cbn. destruct (decide (chunk_name c = key)) as [<-|Hne].
  - rewrite lookup_insert_eq, !bool_decide_true; [done|done|by eexists].
  - rewrite lookup_insert_ne by done. rewrite (bool_decide_false (chunk_name c = key)) by done. done.
Qed.

Lemma held_delete es key queues : delete key (held es queues) = held es (delete key queues).
Proof.
  apply map_eq. intros k. unfold held. destruct (decide (key = k)) as [<-|Hne].
  - by rewrite lookup_delete_eq, map_lookup_imap, lookup_delete_eq.
  - by rewrite lookup_delete_ne, !map_lookup_imap, lookup_delete_ne.
Qed.

(** C4. The hand-over of a chunk's events is exact, while the task manager is up.  When
    the snapshot of a chunk starts, its events (at most 1,000,000) are held back; those
    of other chunks whose snapshots are running are held for them, as far as their
    queues have room; all others are passed on in order.  When the snapshot finishes at [lsn],
    exactly the held events of the chunk whose log position is not below [lsn] follow, in
    their order, and the chunk's queue is gone; nothing else of the resolver's state
    changes. *)
Theorem snapshot_handover (chunk : Chunk) (lsn : Z) (es : list event) (w : world) :
  let key := chunk_name chunk in
  let running := delete key (eventQueues w) in
  shutdownActive w = false -> roomy es running -> Z.of_nat (length (of_chunk key es)) <= 1000000 ->
  (OnChunkSnapshotStartedEvent chunk ;; forM es submit ;; OnChunkSnapshotFinishedEvent chunk lsn) w =
  Ret tt (set_taskQueue (taskQueue w ++ tasks (passed running (others key es)) ++ tasks (not_older lsn (of_chunk key es)))%list
           (set_eventQueues (held es running) w)).
Proof.
  intros key running Hs Hroom Hlen. rewrite (bind_run (OnChunkSnapshotStartedEvent chunk) _ _ _ _ eq_refl). fold key.
  set (w1 := set_eventQueues _ w).
  assert (eventQueues w1 = <[ key := holding key [] (Z.to_nat 1000000) ]> running) as Hw1
    by (unfold running; by rewrite insert_delete_eq).
  rewrite (bind_run (forM es submit) _ _ _ _ (submit_all es w1 Hs ltac:(rewrite Hw1; by apply roomy_insert))).
  erewrite finish_snapshot; [|exact Hs|cbn [eventQueues set_taskQueue set_eventQueues]; rewrite Hw1; unfold held; by rewrite map_lookup_imap, lookup_insert_eq].
  cbn [Queue.queueChan holding app]. rewrite filter_callbacks. cbn [taskQueue set_taskQueue eventQueues set_eventQueues].
  rewrite Hw1, passed_insert, held_delete, delete_insert_id by (unfold running; apply lookup_delete_eq). by rewrite <- app_assoc.
Qed.

(** ** Which table an event is about *)

(** The answer without the cache of chunk ids: vanilla tables by their id,
    chunks by their name in the catalog. *)
Definition target (genPostgresql genHypertable : bool) (rel : RelationMessage) (sc : Catalog.systemCatalog) :
  option (table * option Chunk) :=
  if IsVanillaTable rel then
    if genPostgresql then
      t ← Catalog.FindVanillaTableById (RelationID rel) sc;
      Some (TVanilla t, None)
    else None
  else if genHypertable then
    c ← Catalog.FindChunkByName (Namespace rel) (RelationName rel) sc;
    h ← Catalog.FindHypertableById (Chnk.hypertableId c) sc;
    Some (THyper h, Some c)
  else None.

(** The cache of chunk ids agrees with the names of the relations. *)
Definition cache_ok (w : world) : Prop :=
  forall oid id rel, chunkIdLookup w !! oid = Some id -> relations w !! oid = Some rel ->
    Catalog.FindChunkById id (sysCatalog w) =
    Catalog.FindChunkByName (Namespace rel) (RelationName rel) (sysCatalog w).

(** [w'] is [w] but for the cache, which still agrees and has new entries for known
    relations only. *)
Definition same_but_cache (w w' : world) : Prop :=
  (exists m, w' = set_chunkIdLookup m w /\ dom m ⊆ dom (chunkIdLookup w) ∪ dom (relations w)) /\ cache_ok w'.

Lemma find_chunk_by_name_id ns name sc c :
  Catalog.Inv sc -> Catalog.FindChunkByName ns name sc = Some c -> Catalog.FindChunkById (Chnk.id c) sc = Some c.
Proof.
  intros Hinv. unfold Catalog.FindChunkByName, Catalog.FindChunkById.
  destruct (Catalog.chunkNameIndex sc !! _) as [i|]; [|done]. cbn. intros Hi.
  by rewrite (Catalog.chunk_ids _ Hinv _ _ Hi).
Qed.

Lemma same_but_cache_refl w : cache_ok w -> same_but_cache w w.
Proof. intros Hc. split; [exists (chunkIdLookup w); split; [by destruct w|apply union_subseteq_l]|done]. Qed.

Lemma resolve_chunk rel w :
  Catalog.Inv (sysCatalog w) -> cache_ok w -> relations w !! RelationID rel = Some rel ->
  exists w', same_but_cache w w' /\
    resolveChunkAndHypertable (RelationID rel) (Namespace rel) (RelationName rel) w =
    Ret (c ← Catalog.FindChunkByName (Namespace rel) (RelationName rel) (sysCatalog w);
         h ← Catalog.FindHypertableById (Chnk.hypertableId c) (sysCatalog w);
         Some (c, h)) w'.
Proof.
  intros Hinv Hok Hrel. unfold resolveChunkAndHypertable. rewrite (bind_run get _ _ _ _ eq_refl).
  destruct (chunkIdLookup w !! RelationID rel) as [id|] eqn:Hid.
  - exists w. split; [by apply same_but_cache_refl|].
    rewrite (bind_run (mret _) _ _ _ _ eq_refl), (Hok _ _ _ Hid Hrel).
    destruct (Catalog.FindChunkByName _ _ _) as [c|]; [|done]. cbn.
    by destruct (Catalog.FindHypertableById _ _).
  - destruct (Catalog.FindChunkByName _ _ _) as [c|] eqn:Hc.
    + exists (set_chunkIdLookup (<[ RelationID rel := Chnk.id c ]> (chunkIdLookup w)) w). split.
      * split.
        { eexists. split; [done|]. rewrite dom_insert. apply union_least; [|apply union_subseteq_l].
          apply singleton_subseteq_l, elem_of_union. right. by eapply elem_of_dom_2. }
        intros oid id rel' Hl Hr. cbn in Hl, Hr.
        destruct (decide (oid = RelationID rel)) as [->|Hne].
        -- rewrite lookup_insert_eq in Hl. injection Hl as <-. rewrite Hrel in Hr. injection Hr as <-.
           change (sysCatalog (set_chunkIdLookup _ w)) with (sysCatalog w). rewrite Hc.
           by eapply find_chunk_by_name_id.
        -- rewrite lookup_insert_ne in Hl by done. by apply (Hok oid).
      * cbn. go_unfold. by destruct (Catalog.FindHypertableById _ _).
    + exists w. split; [by apply same_but_cache_refl|]. done.
Qed.

Lemma resolve_table genP genH rel w :
  Catalog.Inv (sysCatalog w) -> cache_ok w -> relations w !! RelationID rel = Some rel ->
  exists w', same_but_cache w w' /\ resolveTable genP genH rel w = Ret (target genP genH rel (sysCatalog w)) w'.
Proof.
  intros Hinv Hok Hrel. unfold resolveTable, target.
  destruct (IsVanillaTable rel).
  - exists w. split; [by apply same_but_cache_refl|]. destruct genP; [|done]. cbn.
    rewrite (bind_run get _ _ _ _ eq_refl). by destruct (Catalog.FindVanillaTableById _ _).
  - destruct genH; [|exists w; split; [by apply same_but_cache_refl|done]].
    destruct (resolve_chunk rel w Hinv Hok Hrel) as (w' & Hw' & Hrun). exists w'. split; [done|].
    cbn [negb]. rewrite (bind_run _ _ _ _ _ Hrun). destruct (Catalog.FindChunkByName _ _ _) as [c|]; [|done]. cbn.
    by destruct (Catalog.FindHypertableById _ _).
Qed.

(** Routing of row events: an insert, update or delete on a relation that is
    not a catalog table goes to the vanilla table with the relation's id or to
    the chunk with the relation's name and that chunk's hypertable (the cache of
    chunk ids never changes the answer), unless events of that kind are switched
    off or the table is unknown, in which case nothing is enqueued; a delete is
    followed by its tombstone if those are switched on. *)
Theorem row_events_routed (xld : XLogData) (relId : Z) (rel : RelationMessage) (oldValues newValues : values)
    (w : world) :
  relations w !! relId = Some rel -> RelationID rel = relId ->
  IsHypertableEvent rel = false -> IsChunkEvent rel = false ->
  Catalog.Inv (sysCatalog w) -> cache_ok w ->
  exists wi wu wd, same_but_cache w wi /\ same_but_cache w wu /\ same_but_cache w wd /\
    OnInsertEvent xld relId newValues w =
      match target (genPostgresqlInsertEvent cfg) (genHypertableInsertEvent cfg) rel (sysCatalog w) with
      | Some (t, c) => submit (c, xld, NotifyRecord (OnInsert xld t c newValues)) wi
      | None => Ret tt wi
      end /\
    OnUpdateEvent xld relId oldValues newValues w =
      match target (genPostgresqlUpdateEvent cfg) (genHypertableUpdateEvent cfg) rel (sysCatalog w) with
      | Some (t, c) => submit (c, xld, NotifyRecord (OnUpdate xld t c oldValues newValues)) wu
      | None => Ret tt wu
      end /\
    OnDeleteEvent xld relId oldValues w =
      match target (genPostgresqlDeleteEvent cfg) (genHypertableDeleteEvent cfg) rel (sysCatalog w) with
      | Some (t, c) =>
          forM ((c, xld, NotifyRecord (OnDelete xld t c oldValues false)) ::
            (if genDeleteTombstone cfg then [(c, xld, NotifyRecord (OnDelete xld t c oldValues true))] else [])) submit wd
      | None => Ret tt wd
      end.
Proof.
  intros Hrel <- Hh Hc Hinv Hok.
  assert (relation (RelationID rel) w = Ret rel w) as Hget.
  { unfold relation. go_unfold. by rewrite Hrel. }
  destruct (resolve_table (genPostgresqlInsertEvent cfg) (genHypertableInsertEvent cfg) rel w Hinv Hok Hrel)
    as (wi & Hwi & Hi).
  destruct (resolve_table (genPostgresqlUpdateEvent cfg) (genHypertableUpdateEvent cfg) rel w Hinv Hok Hrel)
    as (wu & Hwu & Hu).
  destruct (resolve_table (genPostgresqlDeleteEvent cfg) (genHypertableDeleteEvent cfg) rel w Hinv Hok Hrel)
    as (wd & Hwd & Hd).
  exists wi, wu, wd. split_and!; [done..| | |].
  - unfold OnInsertEvent. rewrite (bind_run _ _ _ _ _ Hget), Hh, Hc, (bind_run _ _ _ _ _ Hi).
    clear Hu Hd. by destruct (target _ _ _ _) as [[t c]|].
  - unfold OnUpdateEvent. rewrite (bind_run _ _ _ _ _ Hget), Hh, Hc, (bind_run _ _ _ _ _ Hu).
    clear Hi Hd. by destruct (target _ _ _ _) as [[t c]|].
  - unfold OnDeleteEvent. rewrite (bind_run _ _ _ _ _ Hget), Hh, Hc, (bind_run _ _ _ _ _ Hd).
    clear Hi Hu. destruct (target _ _ _ _) as [[t c]|]; [|done]. destruct (genDeleteTombstone cfg); [|done].
    cbn [forM]. unfold mbind, G_bind. unfold submit at 1. cbn [fst snd].
    destruct (enqueueOrExecute _ _ _ wd) as [[] ?| |]; [|done|done]. unfold submit. cbn.
    by destruct (enqueueOrExecute _ _ _ _) as [[] ?| |].
Qed.

(** ** Truncate *)

Lemma uniqBy_spec {A} (key : A -> string) (l : list A) seen :
  NoDup (map key (uniqBy key seen l)) /\
  (forall k, k ∈ map key (uniqBy key seen l) <-> k ∈ map key l /\ k ∉ seen) /\
  (forall x, x ∈ uniqBy key seen l -> x ∈ l).
Proof.
  revert seen. induction l as [|x l IH]; intros seen; cbn.
  - split_and!; [constructor| |done]. intros k. split; [intros Hk|intros [Hk _]]; by apply not_elem_of_nil in Hk.
  - case_bool_decide as Hin.
    + destruct (IH seen) as (Hnd & Hk & Hx). split_and!; [done| |intros y Hy; right; auto].
      intros k. rewrite Hk, elem_of_cons. split; [tauto|]. intros [[->|?] ?]; [done|tauto].
    + destruct (IH (key x :: seen)) as (Hnd & Hk & Hx). cbn. split_and!.
      * constructor; [|done]. rewrite Hk, elem_of_cons. tauto.
      * intros k. rewrite !elem_of_cons, Hk, elem_of_cons. destruct (decide (k = key x)) as [->|]; tauto.
      * intros y. rewrite !elem_of_cons. intros [->|Hy]; [by left|right; auto].
Qed.

(** The table one relation id of a truncate message stands for. *)
Definition truncated (rel : RelationMessage) (sc : Catalog.systemCatalog) : option table :=
  if IsHypertableEvent rel || IsChunkEvent rel then None
  else fst <$> target (genPostgresqlTruncateEvent cfg) (genHypertableTruncateEvent cfg) rel sc.

Lemma truncatedTable_run relId rel w :
  relations w !! relId = Some rel -> RelationID rel = relId -> Catalog.Inv (sysCatalog w) -> cache_ok w ->
  exists w', same_but_cache w w' /\
    truncatedTable relId w = Ret (option_list (truncated rel (sysCatalog w))) w'.
Proof.
  intros Hrel <- Hinv Hok. unfold truncatedTable.
  assert (relation (RelationID rel) w = Ret rel w) as Hget by (unfold relation; go_unfold; by rewrite Hrel).
  rewrite (bind_run _ _ _ _ _ Hget). unfold truncated, target.
  assert (IsVanillaTable rel = true -> IsHypertableEvent rel || IsChunkEvent rel = false) as Hcat.
  { unfold IsVanillaTable, IsHypertableEvent, IsChunkEvent. destruct (Namespace rel =? "_timescaledb_catalog")%string; done. }
  destruct (IsVanillaTable rel) eqn:Hv; cbn [negb].
  - rewrite (Hcat eq_refl). exists w. split; [by apply same_but_cache_refl|].
    destruct (genPostgresqlTruncateEvent cfg); [|done]. cbn. rewrite (bind_run get _ _ _ _ eq_refl).
    by destruct (Catalog.FindVanillaTableById _ _).
  - destruct (genHypertableTruncateEvent cfg); cbn [negb].
    + destruct (_ || _); [exists w; split; [by apply same_but_cache_refl|done]|].
      destruct (resolve_chunk rel w Hinv Hok Hrel) as (w' & Hw' & Hrun). exists w'. split; [done|].
      rewrite (bind_run _ _ _ _ _ Hrun). destruct (Catalog.FindChunkByName _ _ _) as [c|]; [|done]. cbn.
      by destruct (Catalog.FindHypertableById _ _).
    + exists w. split; [by apply same_but_cache_refl|]. by destruct (_ || _).
Qed.

(** The relations of a message are known under their own id. *)
Definition known (w : world) (relId : Z) : Prop :=
  exists rel, relations w !! relId = Some rel /\ RelationID rel = relId.

Definition truncated_of (w : world) (relIds : list Z) : list table :=
  omap (fun relId => rel ← relations w !! relId; truncated rel (sysCatalog w)) relIds.

(** The tables that a truncate is told for: none twice. *)
Definition truncated_tables (w : world) (relIds : list Z) : list table := uniqBy table_name [] (truncated_of w relIds).

Lemma same_but_cache_trans w1 w2 w3 : same_but_cache w1 w2 -> same_but_cache w2 w3 -> same_but_cache w1 w3.
Proof.
  intros [(m1 & -> & H1) _] [(m2 & -> & H2) Hok]. split; [exists m2; split; [done|]|done].
  etrans; [exact H2|]. apply union_least; [exact H1|apply union_subseteq_r].
Qed.

Lemma truncatedTables_run relIds w :
  Forall (known w) relIds -> Catalog.Inv (sysCatalog w) -> cache_ok w ->
  exists w', same_but_cache w w' /\ truncatedTables relIds w = Ret (truncated_of w relIds) w'.
Proof.
  revert w. induction relIds as [|relId relIds IH]; intros w Hk Hinv Hok.
  - exists w. split; [by apply same_but_cache_refl|done].
  - apply Forall_cons in Hk as [(rel & Hrel & Hid) Hk].
    destruct (truncatedTable_run relId rel w Hrel Hid Hinv Hok) as (w1 & Hw1 & Hrun1).
    pose proof Hw1 as [(m & -> & _) Hok1].
    destruct (IH (set_chunkIdLookup m w) Hk Hinv Hok1) as (w2 & Hw2 & Hrun2).
    exists w2. split; [exact (same_but_cache_trans _ _ _ Hw1 Hw2)|]. cbn [truncatedTables].
    rewrite (bind_run _ _ _ _ _ Hrun1), (bind_run _ _ _ _ _ Hrun2).
    change (truncated_of (set_chunkIdLookup m w) relIds) with (truncated_of w relIds).
    assert (truncated_of w (relId :: relIds) =
      (option_list (truncated rel (sysCatalog w)) ++ truncated_of w relIds)%list) as ->; [|done].
    unfold truncated_of. cbn. rewrite Hrel. cbn. by destruct (truncated rel (sysCatalog w)).
Qed.

Lemma enqueue_all (ts : list task) w :
  shutdownActive w = false -> forM ts EnqueueTask w = Ret tt (set_taskQueue (taskQueue w ++ ts)%list w).
Proof.
  revert w. induction ts as [|t ts IH]; intros w Hs; cbn [forM].
  - rewrite app_nil_r. by destruct w.
  - rewrite (bind_run _ _ _ _ _ (EnqueueTask_run t w Hs)), IH by done. cbn. by rewrite <- app_assoc.
Qed.

Lemma forM_map {S A B} (f : A -> B) (body : B -> G S unit) l s :
  forM l (fun x => body (f x)) s = forM (map f l) body s.
Proof.
  revert s. induction l as [|x l IH]; intros s; [done|]. cbn [forM map]. unfold mbind, G_bind.
  destruct (body (f x) s) as [[] s'| |]; [apply IH|done|done].
Qed.

Lemma forM_known relIds w :
  Forall (known w) relIds -> forM relIds (fun relId => relation relId ;; mret tt) w = Ret tt w.
Proof.
  induction 1 as [|relId relIds (rel & Hrel & _) _ IH]; [done|]. cbn [forM].
  erewrite bind_run; [exact IH|]. unfold relation. go_unfold. by rewrite Hrel.
Qed.

Lemma truncate_enqueues xld relIds w :
  Forall (known w) relIds -> Catalog.Inv (sysCatalog w) -> cache_ok w -> shutdownActive w = false ->
  exists w0, same_but_cache w w0 /\
    OnTruncateEvent xld (Z.of_nat (length relIds)) relIds w =
      Ret tt (set_taskQueue (taskQueue w ++ map (fun t => NotifyRecord (OnTruncate xld t)) (truncated_tables w relIds))%list w0).
Proof.
  intros Hk Hinv Hok Hs. destruct (truncatedTables_run relIds w Hk Hinv Hok) as (w0 & Hw0 & Hrun).
  exists w0. split; [done|]. unfold OnTruncateEvent. rewrite (bind_run _ _ _ _ _ (forM_known relIds w Hk)).
  rewrite Z.ltb_irrefl, Nat2Z.id, firstn_all, (bind_run _ _ _ _ _ Hrun).
  rewrite (forM_map (fun t => NotifyRecord (OnTruncate xld t)) EnqueueTask).
  destruct Hw0 as [(m & -> & _) _]. by rewrite enqueue_all.
Qed.

(** A truncate message of known relations gives one truncate event for every
    table behind them, no table twice: the vanilla tables, and for chunks their
    hypertables; catalog tables, unknown tables and tables whose events are
    switched off give none. *)
Theorem truncate_events (xld : XLogData) (relIds : list Z) (w : world) :
  Forall (known w) relIds -> Catalog.Inv (sysCatalog w) -> cache_ok w -> shutdownActive w = false ->
  exists w0 ts, same_but_cache w w0 /\
    OnTruncateEvent xld (Z.of_nat (length relIds)) relIds w =
      Ret tt (set_taskQueue (taskQueue w ++ map (fun t => NotifyRecord (OnTruncate xld t)) ts)%list w0) /\
    NoDup (map table_name ts) /\
    (forall t, t ∈ ts -> exists relId rel, relId ∈ relIds /\ relations w !! relId = Some rel /\
       truncated rel (sysCatalog w) = Some t) /\
    (forall relId rel t, relId ∈ relIds -> relations w !! relId = Some rel ->
       truncated rel (sysCatalog w) = Some t -> table_name t ∈ map table_name ts).
Proof.
  intros Hk Hinv Hok Hs. destruct (truncate_enqueues xld relIds w Hk Hinv Hok Hs) as (w0 & Hw0 & Hrun).
  destruct (uniqBy_spec table_name (truncated_of w relIds) []) as (Hnd & Hnames & Hsub).
  exists w0, (truncated_tables w relIds). split_and!; [done|done|done| |].
  - intros t Ht. apply Hsub in Ht. unfold truncated_of in Ht. apply list_elem_of_omap in Ht as (relId & Hin & Ht).
    destruct (relations w !! relId) as [rel|] eqn:Hrel; [|done]. eauto.
  - intros relId rel t Hin Hrel Ht. apply Hnames. split; [|apply not_elem_of_nil].
    apply list_elem_of_fmap. exists t. split; [done|]. apply list_elem_of_omap. exists relId. by rewrite Hrel.
Qed.
End Resolver.

(** *** Concrete inputs *)

Definition all_events : config :=
  mkConfig true true true true true true true true true true true true false.

Definition sample_world : world :=
  mkWorld {[ 5 := mkRelationMessage 5 "_timescaledb_internal" "_hyper_1_10_chunk" [] ]} ∅ ∅
    CatalogEvents.with_chunk 0 0 0 [] [] false.

Definition entry (lsn : Z) : XLogData := mkXLogData lsn lsn 0 [] "db" 0 0 7.

Lemma sample_catalog_inv : Catalog.Inv (sysCatalog sample_world).
Proof.
  eapply (@CatalogEvents.reachable_ok CatalogEvents.quiet_database (fun _ => true)).
  eapply rtc_r; [apply CatalogEvents.with_hypertable_reachable|].
  exists (ChunkAdded CatalogEvents.sample_xld 2 (CatalogEvents.chunk_values 10 1 "_hyper_1_10_chunk")).
  split; [|left; vm_compute; reflexivity].
  intros r _ i c' Hi. vm_compute in Hi. discriminate.
Qed.

Lemma sample_cache_ok : cache_ok sample_world.
Proof. intros oid id rel Hid. cbn in Hid. by rewrite lookup_empty in Hid. Qed.

Definition sample_chunk : Chunk := Chnk.NewChunk 10 1 "_timescaledb_internal" "_hyper_1_10_chunk" false 0 None.
Definition message_task (n : Z) : task := NotifyRecord (OnMessage (entry n) (mkLogical 0 None n "p" [])).

(** Two events of the chunk, one below and one above the snapshot, around an
    event without a chunk. *)
Definition other_chunk : Chunk := Chnk.NewChunk 11 1 "_timescaledb_internal" "_hyper_1_11_chunk" false 0 None.

(** The snapshot of another chunk is running as well. *)
Lemma snapshot_handover_witness :
  let queues l := {[ chunk_name other_chunk := holding (chunk_name other_chunk) l 5 ]} in
  (OnChunkSnapshotStartedEvent sample_chunk ;;
   forM [(Some sample_chunk, entry 10, message_task 1); (None, entry 11, message_task 2);
         (Some other_chunk, entry 12, message_task 4); (Some sample_chunk, entry 30, message_task 3)] submit ;;
   OnChunkSnapshotFinishedEvent sample_chunk 20) (set_eventQueues (queues []) sample_world) =
  Ret tt (set_taskQueue [message_task 2; message_task 3] (set_eventQueues (queues [(entry 12, message_task 4)]) sample_world)).
Proof.
  intros queues. rewrite (snapshot_handover sample_chunk 20); [reflexivity|reflexivity| |vm_compute; discriminate].
  intros key q Hq. assert (key = chunk_name other_chunk /\ q = holding (chunk_name other_chunk) [] 5) as [-> ->].
  { apply lookup_delete_Some in Hq as [_ Hq]. cbn in Hq. by apply lookup_singleton_Some in Hq as [-> ->]. }
  exists [], 5%nat. split; [reflexivity|]. vm_compute. lia.
Defined.

Lemma row_events_routed_witness :
  exists w h c, same_but_cache sample_world w /\
    OnInsertEvent all_events (entry 1) 5 ∅ sample_world =
      submit (Some c, entry 1, NotifyRecord (OnInsert (entry 1) (THyper h) (Some c) ∅)) w /\
    Hyper.id h = 1 /\ Chnk.id c = 10.
Proof.
  destruct (@row_events_routed all_events CatalogEvents.quiet_database (fun _ => true) (entry 1) 5
    (mkRelationMessage 5 "_timescaledb_internal" "_hyper_1_10_chunk" []) ∅ ∅ sample_world)
    as (wi & wu & wd & Hwi & _ & _ & Hi & _ & _);
    [reflexivity..|exact sample_catalog_inv|exact sample_cache_ok|].
  match type of Hi with _ = match ?t with _ => _ end => destruct t as [[[h|t'] [c|]]|] eqn:E end;
    vm_compute in E; try discriminate E. injection E as <- <-.
  eexists wi, _, _. split; [exact Hwi|]. split; [exact Hi|]. split; reflexivity.
Defined.

Lemma truncate_events_witness :
  exists w ts, same_but_cache sample_world w /\
    OnTruncateEvent all_events (entry 1) 2 [5; 5] sample_world =
      Ret tt (set_taskQueue (map (fun t => NotifyRecord (OnTruncate (entry 1) t)) ts) w) /\
    NoDup (map table_name ts).
Proof.
  destruct (truncate_events all_events (entry 1) [5; 5] sample_world) as (w & ts & Hw & Hrun & Hnd & _).
  - repeat constructor; eexists; split; reflexivity.
  - exact sample_catalog_inv.
  - exact sample_cache_ok.
  - reflexivity.
  - exists w, ts. split; [exact Hw|]. split; [exact Hrun|exact Hnd].
Defined.
