(* ===== verification/TransactionTracker.v ===== *)
(** * TransactionTracker: a window over the running transaction

    internal/replication/logicalreplicationresolver/transactiontracker.go: sits
    in front of the resolver (Resolver.v) and recognises the compression and
    decompression of chunks, by the markers of newer TimescaleDB versions or by
    collecting the transaction and looking at the updates of the chunk catalog.

    Its state is the tracker's own with the resolver's [world] inside.  Whether
    the deadline of the transaction has passed is an argument ([late]) of the
    calls that look at the clock. *)

From Stdlib Require Import ZArith Lia.
From stdpp Require Import base tactics option list numbers strings gmap.
From S2P Require Import Prelude Containers Encoding Entities Values Messages SystemCatalog Resolver.

Local Open Scope Z_scope.

Definition decompressionMarkerStartId : string := "::timescaledb-decompression-start".
Definition decompressionMarkerEndId : string := "::timescaledb-decompression-end".

(** transactionEntry *)
Abbreviation transactionEntry := (XLogData * Message)%type.

(** An update message kept as the transaction's (de)compression. *)
Record chunkUpdate : Type := mkChunkUpdate {
  cu_relationId : Z;
  cu_oldValues : values;
  cu_newValues : values;
}.

Record transaction : Type := mkTransaction {
  active : bool;
  maxSize : Z;
  xid : Z;
  commitTime : Z;
  finalLSN : Z;
  queue : Queue.Queue transactionEntry;
  queueLength : Z;
  compressionUpdate : option chunkUpdate;
  decompressionUpdate : option chunkUpdate;
  overflowed : bool;
  timedOut : bool;
  ongoingDecompression : bool;
}.

Record tracker : Type := mkTracker {
  tt_relations : gmap Z RelationMessage;
  activeTransaction : transaction;
  resolver : world;
}.

Definition set_txn (t : transaction) (tr : tracker) : tracker := mkTracker (tt_relations tr) t (resolver tr).
Definition on_txn (f : transaction -> transaction) : G tracker unit :=
  modify (fun tr => set_txn (f (activeTransaction tr)) tr).

Definition set_active (b : bool) (t : transaction) : transaction :=
  mkTransaction b (maxSize t) (xid t) (commitTime t) (finalLSN t) (queue t) (queueLength t)
    (compressionUpdate t) (decompressionUpdate t) (overflowed t) (timedOut t) (ongoingDecompression t).
Definition set_queue (q : Queue.Queue transactionEntry) (t : transaction) : transaction :=
  mkTransaction (active t) (maxSize t) (xid t) (commitTime t) (finalLSN t) q (queueLength t)
    (compressionUpdate t) (decompressionUpdate t) (overflowed t) (timedOut t) (ongoingDecompression t).
Definition set_queueLength (n : Z) (t : transaction) : transaction :=
  mkTransaction (active t) (maxSize t) (xid t) (commitTime t) (finalLSN t) (queue t) n
    (compressionUpdate t) (decompressionUpdate t) (overflowed t) (timedOut t) (ongoingDecompression t).
Definition set_limits (o l : bool) (t : transaction) : transaction :=
  mkTransaction (active t) (maxSize t) (xid t) (commitTime t) (finalLSN t) (queue t) (queueLength t)
    (compressionUpdate t) (decompressionUpdate t) o l (ongoingDecompression t).
Definition set_compressionUpdate (u : option chunkUpdate) (t : transaction) : transaction :=
  mkTransaction (active t) (maxSize t) (xid t) (commitTime t) (finalLSN t) (queue t) (queueLength t)
    u (decompressionUpdate t) (overflowed t) (timedOut t) (ongoingDecompression t).
Definition set_decompressionUpdate (u : option chunkUpdate) (t : transaction) : transaction :=
  mkTransaction (active t) (maxSize t) (xid t) (commitTime t) (finalLSN t) (queue t) (queueLength t)
    (compressionUpdate t) u (overflowed t) (timedOut t) (ongoingDecompression t).
Definition set_ongoingDecompression (b : bool) (t : transaction) : transaction :=
  mkTransaction (active t) (maxSize t) (xid t) (commitTime t) (finalLSN t) (queue t) (queueLength t)
    (compressionUpdate t) (decompressionUpdate t) (overflowed t) (timedOut t) b.

Definition on_queue {A} (m : G (Queue.Queue transactionEntry) A) : G tracker A :=
  zoom (fun tr => queue (activeTransaction tr)) (fun q tr => set_txn (set_queue q (activeTransaction tr)) tr) m.

Definition on_resolver {A} (m : G world A) : G tracker A :=
  zoom resolver (fun w tr => mkTracker (tt_relations tr) (activeTransaction tr) w) m.

(** The tracker of a configured window of [maxSize] events: the queue has room
    for one more, and the transaction's own [maxSize] is left at zero. *)
Definition newTransactionTracker (maxSize : Z) (w : world) : tracker :=
  mkTracker ∅ (mkTransaction false 0 0 0 0 (Queue.NewQueue (Z.to_nat (maxSize + 1))) 0 None None false false false) w.

Section Tracker.
Context (cfg : config) (GetOrPlanTupleDecoder : RelationMessage -> option string).
Context `{Database} (enabled : Hypertable -> bool).

Abbreviation resolve := (onMessage cfg GetOrPlanTupleDecoder enabled).
Abbreviation supportsDecompressionMarkers := (decompressionMarkingEnabled cfg).

(** ** The transaction *)

Definition drain : G tracker unit :=
  tr ← get;
  Queue.drain (on_queue Queue.Pop) (fun entry => on_resolver (resolve (fst entry) (snd entry)))
    (S (length (Queue.queueChan (queue (activeTransaction tr))))).

Definition pushTransactionEntry (late : bool) (entry : transactionEntry) : G tracker bool :=
  tr ← get;
  if timedOut (activeTransaction tr) || overflowed (activeTransaction tr) then mret false
  else
    on_queue (Queue.Push entry) ;;
    on_txn (fun t => set_queueLength (u64 (queueLength t + 1)) t) ;;
    on_txn (fun t => set_limits ((queueLength t =? maxSize t) || overflowed t) (late || timedOut t) t) ;;
    tr ← get;
    if timedOut (activeTransaction tr) || overflowed (activeTransaction tr)
    then drain ;; mret true
    else mret true.

Definition startTransaction (xid commitTime finalLSN : Z) : G tracker unit :=
  tr ← get;
  Queue.drain (on_queue Queue.Pop) (fun _ => mret tt)
    (S (length (Queue.queueChan (queue (activeTransaction tr))))) ;;
  on_txn (fun t => mkTransaction true (maxSize t) xid commitTime finalLSN (queue t) 0 None None false false false).

(** Collect the message into the active transaction; [false]: it is to be
    resolved now. *)
Definition collect (late : bool) (entry : transactionEntry) : G tracker bool :=
  tr ← get;
  if active (activeTransaction tr) then pushTransactionEntry late entry else mret false.

Definition collect_or_resolve (late : bool) (entry : transactionEntry) : G tracker unit :=
  handled ← collect late entry;
  match handled with
  | true => mret tt
  | false => on_resolver (resolve (fst entry) (snd entry))
  end.

(** ** Stream events *)

Definition OnRelationEvent (xld : XLogData) (msg : RelationMessage) : G tracker unit :=
  modify (fun tr => mkTracker (<[ RelationID msg := msg ]> (tt_relations tr)) (activeTransaction tr) (resolver tr)) ;;
  on_resolver (resolve xld (MRelation msg)).

Definition OnBeginEvent (xld : XLogData) (msg : BeginMessage) : G tracker unit :=
  startTransaction (BeginXid msg) (CommitTime msg) (FinalLSN msg) ;;
  if supportsDecompressionMarkers then on_resolver (resolve xld (MBegin msg)) else mret tt.

(** What a commit does for the chunk whose catalog row [u] updates: the event,
    then the catalog.  [false]: the chunk is not known. *)
Definition chunkEvent (event : Chunk -> G world unit) (xld : XLogData) (u : chunkUpdate) : G tracker bool :=
  chunkId ← lift (CatalogEvents.as_int32 (cu_newValues u) "id");
  tr ← get;
  match Catalog.FindChunkById chunkId (sysCatalog (resolver tr)) with
  | Some chunk =>
      on_resolver (event chunk) ;;
      on_resolver (onChunkUpdateEvent enabled xld (cu_relationId u) (cu_oldValues u) (cu_newValues u)) ;;
      mret true
  | None => mret false
  end.

Definition OnCommitEvent (xld : XLogData) (msg : CommitMessage) : G tracker unit :=
  tr ← get;
  let forward := on_resolver (resolve xld (MCommit msg)) in
  if negb (active (activeTransaction tr)) then forward
  else
    on_txn (set_active false) ;;
    if supportsDecompressionMarkers then forward
    else
      let finish := drain ;; forward in
      let decompress :=
        match decompressionUpdate (activeTransaction tr) with
        | Some u =>
            done ← chunkEvent (onChunkDecompressionEvent cfg enabled xld) xld u;
            match done with true => mret tt | false => finish end
        | None => finish
        end in
      match compressionUpdate (activeTransaction tr) with
      | Some u =>
          chunkEvent (onChunkCompressionEvent cfg xld) xld u ;;
          match decompressionUpdate (activeTransaction tr) with
          | None => mret tt
          | Some _ => decompress
          end
      | None => decompress
      end.

Definition isCatalogEvent (rel : RelationMessage) : bool := IsHypertableEvent rel || IsChunkEvent rel.

Definition OnInsertEvent (late : bool) (xld : XLogData) (relId : Z) (newValues : values) : G tracker unit :=
  tr ← get;
  let rel := tt_relations tr !! relId in
  let t := activeTransaction tr in
  if negb (genHypertableInsertEvent cfg) && match rel with Some r => negb (isCatalogEvent r) | None => false end
  then mret tt
  else if active t then
    discard ←
      (if (bool_decide (is_Some (decompressionUpdate t)) || ongoingDecompression t)
       then r ← must PanicNilDereference rel; mret (negb (isCatalogEvent r))
       else mret false);
    match discard with
    | true => mret tt
    | false =>
        if supportsDecompressionMarkers then on_resolver (resolve xld (MInsert relId newValues))
        else collect_or_resolve late (xld, MInsert relId newValues)
    end
  else on_resolver (resolve xld (MInsert relId newValues)).

(** The chunk-status bookkeeping of an update of the chunk catalog. *)
Definition noteChunkUpdate (relId : Z) (oldValues newValues : values) : G tracker unit :=
  let u := mkChunkUpdate relId oldValues newValues in
  chunkId ← lift (CatalogEvents.as_int32 newValues "id");
  tr ← get;
  match Catalog.FindChunkById chunkId (sysCatalog (resolver tr)) with
  | None => mret tt
  | Some chunk =>
      newStatus ← lift (CatalogEvents.as_int32 newValues "status");
      oldStatus ←
        (if (Chnk.status chunk =? 0) && negb (newStatus =? 0) then
           on_txn (set_compressionUpdate (Some u)) ;; mret (Chnk.status chunk)
         else
           match compressionUpdate (activeTransaction tr) with
           | Some c =>
               if cu_relationId c =? relId then lift (CatalogEvents.as_int32 (cu_newValues c) "status")
               else mret (Chnk.status chunk)
           | None => mret (Chnk.status chunk)
           end);
      if negb (oldStatus =? 0) && (newStatus =? 0) then on_txn (set_decompressionUpdate (Some u)) else mret tt
  end.

Definition OnUpdateEvent (late : bool) (xld : XLogData) (relId : Z) (oldValues newValues : values) : G tracker unit :=
  let entry := (xld, MUpdate relId oldValues newValues) in
  if supportsDecompressionMarkers then on_resolver (resolve xld (MUpdate relId oldValues newValues))
  else
    tr ← get;
    match tt_relations tr !! relId with
    | Some rel =>
        (if IsChunkEvent rel then noteChunkUpdate relId oldValues newValues else mret tt) ;;
        if negb (genHypertableUpdateEvent cfg) && negb (IsHypertableEvent rel) then mret tt
        else collect_or_resolve late entry
    | None => collect_or_resolve late entry
    end.

Definition OnDeleteEvent (late : bool) (xld : XLogData) (relId : Z) (oldValues : values) : G tracker unit :=
  if supportsDecompressionMarkers then on_resolver (resolve xld (MDelete relId oldValues))
  else
    tr ← get;
    if negb (genHypertableDeleteEvent cfg) &&
       match tt_relations tr !! relId with Some rel => negb (isCatalogEvent rel) | None => false end
    then mret tt
    else collect_or_resolve late (xld, MDelete relId oldValues).

Definition OnTruncateEvent (late : bool) (xld : XLogData) (relationNum : Z) (relationIds : list Z) : G tracker unit :=
  if negb (genHypertableTruncateEvent cfg) then mret tt
  else if supportsDecompressionMarkers then on_resolver (resolve xld (MTruncate relationNum relationIds))
  else collect_or_resolve late (xld, MTruncate relationNum relationIds).

Definition OnMessageEvent (late : bool) (xld : XLogData) (msg : LogicalReplicationMessage) : G tracker unit :=
  tr ← get;
  let t := activeTransaction tr in
  let forward := on_resolver (resolve xld (MLogical msg)) in
  if IsTransactional msg then
    if supportsDecompressionMarkers && String.eqb (Prefix msg) decompressionMarkerStartId
    then on_txn (set_ongoingDecompression true)
    else if supportsDecompressionMarkers && String.eqb (Prefix msg) decompressionMarkerEndId &&
            (active t && ongoingDecompression t)
    then on_txn (set_ongoingDecompression false)
    else if negb (genMessageEvent cfg) then mret tt
    else if supportsDecompressionMarkers then forward
    else collect_or_resolve late (xld, MLogical msg)
  else forward.

(** The handler's method for a message of the stream. *)
Definition track (late : bool) (xld : XLogData) (m : Message) : G tracker unit :=
  match m with
  | MRelation m => OnRelationEvent xld m
  | MBegin m => OnBeginEvent xld m
  | MCommit m => OnCommitEvent xld m
  | MInsert relId newValues => OnInsertEvent late xld relId newValues
  | MUpdate relId oldValues newValues => OnUpdateEvent late xld relId oldValues newValues
  | MDelete relId oldValues => OnDeleteEvent late xld relId oldValues
  | MTruncate n relIds => OnTruncateEvent late xld n relIds
  | MType | MOrigin => on_resolver (resolve xld m)
  | MLogical m => OnMessageEvent late xld m
  end.

(** ** What the resolver does not look at *)

(** The positions that the resolver notes at a begin: no other method reads them. *)
Definition set_begin (lsn xid : Z) (w : world) : world := set_positions lsn (lastCommitLSN w) xid w.

Definition moved {A} (lsn xid : Z) (o : outcome world A) : outcome world A :=
  match o with
  | Ret a w => Ret a (set_begin lsn xid w)
  | Err e w => Err e (set_begin lsn xid w)
  | Crash c => Crash c
  end.

Definition blind {A} (m : G world A) : Prop := forall lsn xid w, m (set_begin lsn xid w) = moved lsn xid (m w).

Lemma blind_ret {A} (a : A) : blind (mret a).
Proof. by intros lsn xid w. Qed.

Lemma blind_bind {A B} (m : G world A) (k : A -> G world B) : blind m -> (forall a, blind (k a)) -> blind (m ≫= k).
Proof.
  intros Hm Hk lsn xid w. unfold mbind, G_bind. rewrite (Hm lsn xid w). destruct (m w); [apply Hk|done|done].
Qed.

(** A read of the state whose continuation does not depend on the positions. *)
Lemma blind_get {B} (k : world -> G world B) :
  (forall w, blind (k w)) -> (forall lsn xid w, k (set_begin lsn xid w) = k w) -> blind (w ← get; k w).
Proof.
  intros Hk Heq lsn xid w. rewrite !(bind_run get _ _ _ _ eq_refl), Heq. apply Hk.
Qed.

Lemma blind_lift {A} (r : crash + A) : blind (lift r).
Proof. intros lsn xid w. by destruct r. Qed.

Lemma blind_forM {A} (l : list A) (body : A -> G world unit) : (forall a, blind (body a)) -> blind (forM l body).
Proof. intros Hb. induction l as [|a l IH]; cbn [forM]; [apply blind_ret|]. by apply blind_bind. Qed.

Lemma blind_EnqueueTask t : blind (EnqueueTask t).
Proof. intros lsn xid w. unfold EnqueueTask. go_unfold. cbn. by destruct (shutdownActive w). Qed.

Lemma blind_catalog {A} (m : G CatalogEvents.state A) : blind (zoom catalog set_catalog m).
Proof. intros lsn xid w. unfold zoom. cbn. by destruct (m (catalog w)). Qed.

Lemma blind_RunTask t : blind (RunTask enabled t).
Proof.
  intros lsn xid w. unfold RunTask. rewrite !(bind_run get _ _ _ _ eq_refl), !(bind_run (put _) _ _ _ _ eq_refl).
  destruct t; try done. apply (blind_catalog _ lsn xid (set_ran (ran w ++ _)%list w)).
Qed.

Lemma blind_relation relId : blind (relation relId).
Proof. intros lsn xid w. unfold relation. go_unfold. cbn. by destruct (relations w !! relId). Qed.

Lemma blind_resolveChunk oid s t : blind (resolveChunkAndHypertable oid s t).
Proof.
  intros lsn xid w. unfold resolveChunkAndHypertable. go_unfold. cbn. unfold sysCatalog. cbn.
  destruct (chunkIdLookup w !! oid) as [id|].
  - destruct (Catalog.FindChunkById id _) as [c|]; [|done]. by destruct (Catalog.FindHypertableById _ _).
  - destruct (Catalog.FindChunkByName s t _) as [c|]; [|done]. by destruct (Catalog.FindHypertableById _ _).
Qed.

Lemma blind_enqueueOrExecute chunk xld t : blind (enqueueOrExecute chunk xld t).
Proof.
  destruct chunk as [c|]; [|apply blind_EnqueueTask]. intros lsn xid w. unfold enqueueOrExecute.
  rewrite !(bind_run get _ _ _ _ eq_refl). change (isSnapshotting (Some c) (set_begin lsn xid w)) with (isSnapshotting (Some c) w).
  destruct (isSnapshotting (Some c) w); [|apply blind_EnqueueTask]. revert lsn xid w. apply blind_bind.
  - intros lsn xid w. unfold Resolver.on_queue, mbind, G_bind, get. change (eventQueues (set_begin lsn xid w)) with (eventQueues w).
    destruct (eventQueues w !! chunk_name c) as [q|]; [|done]. unfold zoom. by destruct (Queue.Push _ q).
  - intros []; [apply blind_ret|apply blind_EnqueueTask].
Qed.

Create HintDb blindness.
#[local] Hint Resolve blind_ret blind_lift blind_EnqueueTask blind_RunTask blind_relation
  blind_resolveChunk blind_enqueueOrExecute : blindness.

Ltac see_nothing :=
  repeat match goal with
  | |- blind (get ≫= _) => apply blind_get; [intros ?|reflexivity]
  | |- blind (_ ≫= _) => apply blind_bind; [|intros ?]
  | |- blind (match ?x with _ => _ end) => destruct x
  | |- blind (forM _ _) => apply blind_forM; intros ?
  | |- blind _ => solve [auto with blindness]
  end.

Lemma blind_resolveTable a b rel : blind (resolveTable a b rel).
Proof. unfold resolveTable. see_nothing. Qed.

Lemma blind_truncatedTables relIds : blind (truncatedTables cfg relIds).
Proof.
  induction relIds as [|r relIds IH]; cbn [truncatedTables]; [apply blind_ret|]. apply blind_bind; [|intros ts; see_nothing].
  unfold truncatedTable. see_nothing.
Qed.
#[local] Hint Resolve blind_resolveTable blind_truncatedTables : blindness.

Lemma blind_onMessage xld m :
  match m with MBegin _ | MRelation _ => False | _ => True end -> blind (resolve xld m).
Proof.
  intros Hm. destruct m as [| |cm|r v|r o v|r o|n ids| | |lm]; try done; cbn [onMessage]; try solve [auto with blindness].
  - apply blind_bind; [by intros lsn xid w|auto with blindness].
  - unfold Resolver.OnInsertEvent, onHypertableInsertEvent, onChunkInsertEvent. see_nothing.
  - unfold Resolver.OnUpdateEvent, onHypertableUpdateEvent, onChunkUpdateEvent, chunkCompression, onChunkCompressionEvent. see_nothing.
  - unfold Resolver.OnDeleteEvent, onHypertableDeleteEvent, onChunkDeleteEvent, onChunkDecompressionEvent, decompressionEventTaskOperation. see_nothing.
  - unfold Resolver.OnTruncateEvent. see_nothing. by intros lsn xid w.
  - apply blind_EnqueueTask.
Qed.

(** ** The window is transparent *)

Definition resolve_entry (e : transactionEntry) : G world unit := resolve (fst e) (snd e).

(** The queue of the window holding [l]. *)
Definition window (l : list transactionEntry) (cap : nat) : Queue.Queue transactionEntry :=
  Queue.mkQueue l cap false false.

(** [tr] with its queue emptied and the resolver at [w]. *)
Definition drained (cap : nat) (w : world) (tr : tracker) : tracker :=
  mkTracker (tt_relations tr) (set_queue (window [] cap) (activeTransaction tr)) w.

Lemma drain_run_from l cap fuel tr w' :
  queue (activeTransaction tr) = window l cap -> (length l < fuel)%nat ->
  forM l resolve_entry (resolver tr) = Ret tt w' ->
  Queue.drain (on_queue Queue.Pop) (fun entry => on_resolver (resolve (fst entry) (snd entry))) fuel tr =
  Ret tt (drained cap w' tr).
Proof.
  revert fuel tr. induction l as [|e l IH]; intros [|fuel] tr Hq Hfuel Hrun; cbn in Hfuel; try lia; cbn [Queue.drain].
  - injection Hrun as <-. unfold on_queue, Queue.Pop, drained. go_unfold. rewrite Hq. cbn. by rewrite <- Hq.
  - cbn [forM] in Hrun. apply bind_ret_inv in Hrun as ([] & w1 & Hw1 & Hrest).
    set (tr1 := mkTracker (tt_relations tr) (set_queue (window l cap) (activeTransaction tr)) (resolver tr)).
    assert (on_queue Queue.Pop tr = Ret (Some e) tr1) as Hpop.
    { unfold on_queue, Queue.Pop. go_unfold. by rewrite Hq. }
    rewrite (bind_run _ _ _ _ _ Hpop). cbv beta iota.
    rewrite (bind_run _ _ _ tt (mkTracker (tt_relations tr1) (activeTransaction tr1) w1)).
    + rewrite (IH fuel); [done|done|lia|exact Hrest].
    + unfold on_resolver, zoom. change (resolver tr1) with (resolver tr).
      change (resolve (fst e) (snd e) (resolver tr)) with (resolve_entry e (resolver tr)). by rewrite Hw1.
Qed.

Lemma drain_run l cap tr w' :
  queue (activeTransaction tr) = window l cap -> forM l resolve_entry (resolver tr) = Ret tt w' ->
  drain tr = Ret tt (drained cap w' tr).
Proof.
  intros Hq Hrun. unfold drain. rewrite (bind_run get _ _ _ _ eq_refl). rewrite Hq.
  apply (drain_run_from l); [done|cbn; lia|done].
Qed.

(** A message that the window collects as it is. *)
Definition plain (rels : gmap Z RelationMessage) (m : Message) : Prop :=
  match m with
  | MInsert _ _ | MDelete _ _ | MTruncate _ _ => True
  | MUpdate relId _ _ => forall rel, rels !! relId = Some rel -> IsChunkEvent rel = false
  | MLogical m => IsTransactional m = true
  | _ => False
  end.

Definition all_enabled : Prop :=
  genHypertableInsertEvent cfg = true /\ genHypertableUpdateEvent cfg = true /\
  genHypertableDeleteEvent cfg = true /\ genHypertableTruncateEvent cfg = true /\ genMessageEvent cfg = true.

Lemma track_plain late xld m tr :
  supportsDecompressionMarkers = false -> all_enabled -> plain (tt_relations tr) m ->
  active (activeTransaction tr) = true -> decompressionUpdate (activeTransaction tr) = None ->
  ongoingDecompression (activeTransaction tr) = false ->
  track late xld m tr = collect_or_resolve late (xld, m) tr.
Proof.
  intros Hsup (Hi & Hu & Hd & Ht & Hm) Hplain Hact Hdec Hong. destruct m; try done; cbn [track].
  - unfold OnInsertEvent. rewrite (bind_run get _ _ _ _ eq_refl), Hi, Hact, Hdec, Hong. cbn.
    rewrite (bind_run (mret false) _ _ _ _ eq_refl). by rewrite Hsup.
  - unfold OnUpdateEvent. rewrite Hsup, (bind_run get _ _ _ _ eq_refl).
    destruct (tt_relations tr !! relationId) as [rel|] eqn:Hrel; [|done].
    rewrite (Hplain rel Hrel), Hu. done.
  - unfold OnDeleteEvent. rewrite Hsup, (bind_run get _ _ _ _ eq_refl), Hd. done.
  - unfold OnTruncateEvent. by rewrite Ht, Hsup.
  - unfold OnMessageEvent. rewrite (bind_run get _ _ _ _ eq_refl). cbn in Hplain. by rewrite Hplain, Hsup, Hm.
Qed.

(** Within the transaction: what is still queued would take the resolver to
    [wv], where it would be without the window. *)
Record collecting (cap : nat) (tr : tracker) (wv : world) (l : list transactionEntry) : Prop := {
  c_active : active (activeTransaction tr) = true;
  c_queue : queue (activeTransaction tr) = window l cap;
  c_max : maxSize (activeTransaction tr) = 0;
  c_none : compressionUpdate (activeTransaction tr) = None /\ decompressionUpdate (activeTransaction tr) = None;
  c_ongoing : ongoingDecompression (activeTransaction tr) = false;
  c_overflowed : overflowed (activeTransaction tr) = false;
  c_length : timedOut (activeTransaction tr) = false -> queueLength (activeTransaction tr) = Z.of_nat (length l);
  c_late : timedOut (activeTransaction tr) = true -> l = [];
  c_world : forM l resolve_entry (resolver tr) = Ret tt wv;
}.

Lemma push_window late e l cap tr :
  timedOut (activeTransaction tr) = false -> overflowed (activeTransaction tr) = false ->
  queue (activeTransaction tr) = window l cap -> (length l < cap)%nat -> Z.of_nat cap < 2 ^ 64 ->
  queueLength (activeTransaction tr) = Z.of_nat (length l) -> maxSize (activeTransaction tr) = 0 ->
  let t := activeTransaction tr in
  pushTransactionEntry late e tr =
  (if late then drain ;; mret true else mret true)
    (set_txn (set_limits false late (set_queueLength (Z.of_nat (length l) + 1) (set_queue (window (l ++ [e])%list cap) t))) tr).
Proof.
  intros Ht Ho Hq Hlen Hcap Hn Hmax t. unfold pushTransactionEntry. rewrite (bind_run get _ _ _ _ eq_refl), Ht, Ho.
  cbn [orb]. set (tr1 := set_txn (set_queue (window (l ++ [e])%list cap) t) tr).
  assert (on_queue (Queue.Push e) tr = Ret true tr1) as Hpush.
  { unfold on_queue, Queue.Push. go_unfold. rewrite Hq.
    cbn [window Queue.locked Queue.closed Queue.queueChan Queue.cap]. apply Nat.ltb_lt in Hlen as ->. done. }
  rewrite (bind_run _ _ _ _ _ Hpush), (bind_run (on_txn _) _ _ _ _ eq_refl), (bind_run (on_txn _) _ _ _ _ eq_refl),
    (bind_run get _ _ _ _ eq_refl).
  cbn [activeTransaction set_txn tr1 set_queueLength set_queue queueLength maxSize overflowed timedOut set_limits t].
  unfold tr1. cbn [activeTransaction set_txn set_queueLength set_queue queueLength maxSize overflowed timedOut set_limits].
  unfold t. rewrite Hmax, Ho, Ht, Hn.
  assert (u64 (Z.of_nat (length l) + 1) = Z.of_nat (length l) + 1) as -> by (apply wrapu_small; unfold in_u; lia).
  assert ((Z.of_nat (length l) + 1 =? 0) = false) as -> by (apply Z.eqb_neq; lia).
  by destruct late.
Qed.

Lemma forM_snoc {S A} (l : list A) x (body : A -> G S unit) s s1 s2 :
  forM l body s = Ret tt s1 -> body x s1 = Ret tt s2 -> forM (l ++ [x])%list body s = Ret tt s2.
Proof.
  intros H1 H2. rewrite forM_app, (bind_run _ _ _ _ _ H1). cbn. by rewrite (bind_run _ _ _ _ _ H2).
Qed.

Section Window.
Context (Hsup : supportsDecompressionMarkers = false) (Hall : all_enabled).
Context (cap : nat) (Hcap : Z.of_nat cap < 2 ^ 64).

Lemma collect_step late xld m tr wv wv' l :
  plain (tt_relations tr) m -> collecting cap tr wv l -> (length l < cap)%nat ->
  resolve xld m wv = Ret tt wv' ->
  exists tr' l', track late xld m tr = Ret tt tr' /\ collecting cap tr' wv' l' /\
    tt_relations tr' = tt_relations tr /\ (length l' <= S (length l))%nat.
Proof.
  intros Hplain [Hact Hq Hmax [Hc Hd] Hong Hover Hlen Hlate Hworld] Hroom Hrun.
  rewrite track_plain by done. unfold collect_or_resolve, collect.
  destruct (timedOut (activeTransaction tr)) eqn:Htimed.
  - specialize (Hlate eq_refl) as ->. injection Hworld as <-.
    assert (collect late (xld, m) tr = Ret false tr) as Hcol.
    { unfold collect, pushTransactionEntry. go_unfold. by rewrite Hact, Htimed. }
    rewrite (bind_run _ _ _ _ _ Hcol). unfold on_resolver, zoom. cbn [fst snd]. rewrite Hrun.
    eexists _, []. split; [done|]. split; [split; try done; cbn; by rewrite ?Htimed|]. split; [done|cbn; lia].
  - set (tr1 := set_txn (set_limits false late (set_queueLength (Z.of_nat (length l) + 1)
      (set_queue (window (l ++ [(xld, m)])%list cap) (activeTransaction tr)))) tr).
    assert (forM (l ++ [(xld, m)])%list resolve_entry (resolver tr1) = Ret tt wv') as Hall'.
    { by eapply forM_snoc. }
    assert (collect late (xld, m) tr = (if late then drain ;; mret true else mret true) tr1) as Hcol.
    { unfold collect. rewrite (bind_run get _ _ _ _ eq_refl), Hact. apply push_window; auto. }
    unfold collect in Hcol. destruct late.
    + rewrite (bind_run drain _ _ _ _ (drain_run (l ++ [(xld, m)])%list cap tr1 wv' eq_refl Hall')) in Hcol.
      rewrite (bind_run _ _ _ _ _ Hcol). eexists _, []. split; [done|]. split; [by split|]. split; [done|cbn; lia].
    + rewrite (bind_run _ _ _ _ _ Hcol). eexists _, (l ++ [(xld, m)])%list. split; [done|].
      split; [|split; [done|rewrite length_app; cbn; lia]].
      split; try done. intros _. rewrite length_app. cbn. lia.
Qed.

(** The transaction's messages, each with whether the deadline had passed. *)
Abbreviation body := (list (bool * XLogData * Message)).
Definition track_body (b : body) : G tracker unit :=
  forM b (fun e => track (fst (fst e)) (snd (fst e)) (snd e)).
Definition resolve_body (b : body) : G world unit :=
  forM b (fun e => resolve (snd (fst e)) (snd e)).

Lemma collect_body b tr wv wv' l :
  Forall (fun e => plain (tt_relations tr) (snd e)) b -> collecting cap tr wv l ->
  (length l + length b <= cap)%nat -> resolve_body b wv = Ret tt wv' ->
  exists tr' l', track_body b tr = Ret tt tr' /\ collecting cap tr' wv' l' /\ tt_relations tr' = tt_relations tr.
Proof.
  revert tr wv l. induction b as [|[[late xld] m] b IH]; intros tr wv l Hp Hcol Hlen Hrun.
  - injection Hrun as <-. by exists tr, l.
  - apply Forall_cons in Hp as [Hm Hp]. cbn in Hlen. unfold resolve_body in Hrun. cbn [forM] in Hrun.
    apply bind_ret_inv in Hrun as ([] & w1 & Hw1 & Hrest).
    destruct (collect_step late xld m tr wv w1 l Hm Hcol ltac:(lia) Hw1) as (tr1 & l1 & Hrun1 & Hcol1 & Hrel1 & Hl1).
    destruct (IH tr1 w1 l1) as (tr2 & l2 & Hrun2 & Hcol2 & Hrel2); [by rewrite Hrel1|done|lia|exact Hrest|].
    exists tr2, l2. split; [|split; [done|congruence]]. unfold track_body. cbn [forM].
    rewrite (bind_run _ _ _ _ _ Hrun1). exact Hrun2.
Qed.

Lemma drop_all l fuel tr :
  queue (activeTransaction tr) = window l cap -> (length l < fuel)%nat ->
  Queue.drain (on_queue Queue.Pop) (fun _ => mret tt) fuel tr =
    Ret tt (set_txn (set_queue (window [] cap) (activeTransaction tr)) tr).
Proof.
  revert fuel tr. induction l as [|e l IH]; intros [|fuel] tr Hq Hfuel; cbn in Hfuel; try lia; cbn [Queue.drain].
  - unfold on_queue, Queue.Pop. go_unfold. rewrite Hq. cbn. by rewrite <- Hq.
  - assert (on_queue Queue.Pop tr = Ret (Some e) (set_txn (set_queue (window l cap) (activeTransaction tr)) tr)) as Hpop.
    { unfold on_queue, Queue.Pop. go_unfold. by rewrite Hq. }
    rewrite (bind_run _ _ _ _ _ Hpop). cbv beta iota. rewrite (bind_run (mret tt) _ _ _ _ eq_refl).
    by rewrite (IH fuel); [|done|lia].
Qed.

(** A transaction starts with an empty window, whatever was left in it. *)
Lemma begin_collecting xld msg l tr :
  queue (activeTransaction tr) = window l cap -> maxSize (activeTransaction tr) = 0 ->
  exists tr', OnBeginEvent xld msg tr = Ret tt tr' /\ collecting cap tr' (resolver tr) [] /\
    tt_relations tr' = tt_relations tr /\ resolver tr' = resolver tr.
Proof.
  intros Hq Hmax. unfold OnBeginEvent, startTransaction.
  eexists. split; [|split; [|split]].
  - erewrite bind_run; [by rewrite Hsup|]. rewrite (bind_run get _ _ _ _ eq_refl), Hq.
    rewrite (bind_run _ _ _ _ _ (drop_all l (S (length l)) tr Hq ltac:(lia))). done.
  - by split.
  - done.
  - done.
Qed.

Lemma blind_body rels b : Forall (fun e => plain rels (snd e)) b -> blind (resolve_body b).
Proof.
  unfold resolve_body. induction 1 as [|[[late xld] m] b Hm _ IH]; cbn [forM]; [apply blind_ret|].
  apply blind_bind; [|by intros _]. apply blind_onMessage. by destruct m.
Qed.

(** What the tracker makes of a transaction, against the resolver without the begin. *)
Lemma window_runs (xb xc : XLogData) (mb : BeginMessage) (mc : CommitMessage) (b : body)
    (l0 : list transactionEntry) (tr : tracker) (w' : world) :
  queue (activeTransaction tr) = window l0 cap -> maxSize (activeTransaction tr) = 0 ->
  Forall (fun e => plain (tt_relations tr) (snd e)) b -> (length b <= cap)%nat ->
  (resolve_body b ;; resolve xc (MCommit mc)) (resolver tr) = Ret tt w' ->
  exists tr', (OnBeginEvent xb mb ;; track_body b ;; OnCommitEvent xc mc) tr = Ret tt tr' /\
    resolver tr' = w' /\ active (activeTransaction tr') = false /\
    queue (activeTransaction tr') = window [] cap.
Proof.
  intros Hq Hmax Hplain Hlen Hrun. apply bind_ret_inv in Hrun as ([] & w1 & Hbody & Hcommit).
  destruct (begin_collecting xb mb l0 tr Hq Hmax) as (tr1 & Hrun1 & Hcol1 & Hrel1 & Hw1).
  destruct (collect_body b tr1 (resolver tr) w1 []) as (tr2 & l2 & Hrun2 & Hcol2 & Hrel2);
    [by rewrite Hrel1|done|cbn; lia|done|].
  destruct Hcol2 as [Hact Hq2 Hmax2 [Hc Hd] Hong Hover Hl Hlate Hworld].
  set (tr3 := set_txn (set_active false (activeTransaction tr2)) tr2).
  exists (mkTracker (tt_relations tr2) (set_queue (window [] cap) (activeTransaction tr3)) w').
  split; [|done]. rewrite (bind_run _ _ _ _ _ Hrun1), (bind_run _ _ _ _ _ Hrun2). unfold OnCommitEvent.
  rewrite (bind_run get _ _ _ _ eq_refl), Hact, Hc, Hd, Hsup. cbn [negb].
  rewrite (bind_run (on_txn _) _ _ _ _ eq_refl). fold tr3.
  rewrite (bind_run drain _ _ _ _ (drain_run l2 cap tr3 w1 Hq2 Hworld)).
  unfold on_resolver, zoom. cbn [resolver drained]. by rewrite Hcommit.
Qed.

Lemma set_begin_own w : set_begin (lastBeginLSN w) (lastTransactionId w) w = w.
Proof. by destruct w. Qed.

Lemma blind_keeps (m : G world unit) w w1 :
  blind m -> m w = Ret tt w1 -> lastBeginLSN w1 = lastBeginLSN w /\ lastTransactionId w1 = lastTransactionId w.
Proof.
  intros Hb Hm. pose proof (Hb (lastBeginLSN w) (lastTransactionId w) w) as He. rewrite set_begin_own, Hm in He.
  injection He as ->. done.
Qed.

(** C7. The transaction window is transparent but for the begin.  The server has no
    decompression markers, and the events of hypertables and messages are switched on.
    For a transaction without updates of the chunk catalog, whose messages belong to
    it and which has no more changes than the queue of the window has room for (its size
    and one), whatever an earlier transaction has left in the window and whenever the
    deadline passes: if the resolver alone gets through the begin, the changes and the
    commit, then so does the tracker, which leaves the resolver in the same state but for
    the position and the id of the transaction, which only the begin notes and the
    tracker does not pass on, and has no active transaction and an empty queue. *)
Theorem window_transparent (xb xc : XLogData) (mb : BeginMessage) (mc : CommitMessage) (b : body)
    (l0 : list transactionEntry) (tr : tracker) (w' : world) :
  queue (activeTransaction tr) = window l0 cap -> maxSize (activeTransaction tr) = 0 ->
  Forall (fun e => plain (tt_relations tr) (snd e)) b -> (length b <= cap)%nat ->
  (resolve xb (MBegin mb) ;; resolve_body b ;; resolve xc (MCommit mc)) (resolver tr) = Ret tt w' ->
  exists tr', (OnBeginEvent xb mb ;; track_body b ;; OnCommitEvent xc mc) tr = Ret tt tr' /\
    w' = set_begin (WALStart xb) (BeginXid mb) (resolver tr') /\
    lastBeginLSN (resolver tr') = lastBeginLSN (resolver tr) /\
    lastTransactionId (resolver tr') = lastTransactionId (resolver tr) /\
    active (activeTransaction tr') = false /\ queue (activeTransaction tr') = window [] cap.
Proof.
  intros Hq Hmax Hplain Hlen Hrun.
  assert (blind (resolve_body b ;; resolve xc (MCommit mc))) as Hblind.
  { apply blind_bind; [by eapply blind_body|intros _; by apply blind_onMessage]. }
  erewrite (bind_run (resolve xb (MBegin mb)) _ _ tt (set_begin (WALStart xb) (BeginXid mb) (resolver tr)) eq_refl), Hblind in Hrun.
  destruct ((resolve_body b ;; resolve xc (MCommit mc)) (resolver tr)) as [[] w1|?|?] eqn:Hw1; try done.
  injection Hrun as <-. destruct (blind_keeps _ _ _ Hblind Hw1) as [Hb Hx].
  destruct (window_runs xb xc mb mc b l0 tr w1 Hq Hmax Hplain Hlen Hw1) as (tr' & Hrun & <- & Hact & Hq').
  by exists tr'.
Qed.

(** ** A transaction that does not fit *)

(** Within the transaction, before the deadline: everything so far is queued. *)
Record gathering (tr : tracker) (l : list transactionEntry) : Prop := {
  g_active : active (activeTransaction tr) = true;
  g_queue : queue (activeTransaction tr) = window l cap;
  g_max : maxSize (activeTransaction tr) = 0;
  g_dec : decompressionUpdate (activeTransaction tr) = None;
  g_ongoing : ongoingDecompression (activeTransaction tr) = false;
  g_limits : overflowed (activeTransaction tr) = false /\ timedOut (activeTransaction tr) = false;
  g_length : queueLength (activeTransaction tr) = Z.of_nat (length l);
}.

Lemma gather_step xld m tr l :
  plain (tt_relations tr) m -> gathering tr l -> (length l < cap)%nat ->
  exists tr', track false xld m tr = Ret tt tr' /\ gathering tr' (l ++ [(xld, m)])%list /\
    tt_relations tr' = tt_relations tr.
Proof.
  intros Hplain [Hact Hq Hmax Hd Hong [Ho Ht] Hlen] Hroom. rewrite track_plain by done.
  unfold collect_or_resolve.
  assert (collect false (xld, m) tr = Ret true (set_txn (set_limits false false
    (set_queueLength (Z.of_nat (length l) + 1) (set_queue (window (l ++ [(xld, m)])%list cap) (activeTransaction tr)))) tr))
    as Hcol.
  { unfold collect. rewrite (bind_run get _ _ _ _ eq_refl), Hact. rewrite (push_window false _ l cap); auto. }
  rewrite (bind_run _ _ _ _ _ Hcol). eexists. split; [done|]. split; [|done].
  split; try done. cbn. rewrite length_app. cbn. lia.
Qed.

Lemma gather_full xld m tr l :
  plain (tt_relations tr) m -> gathering tr l -> length l = cap -> track false xld m tr = Crash Deadlock.
Proof.
  intros Hplain [Hact Hq Hmax Hd Hong [Ho Ht] Hlen] Hfull. rewrite track_plain by done.
  unfold collect_or_resolve. apply bind_crash. unfold collect.
  rewrite (bind_run get _ _ _ _ eq_refl), Hact. unfold pushTransactionEntry.
  rewrite (bind_run get _ _ _ _ eq_refl), Ho, Ht. cbn [orb]. apply bind_crash.
  unfold on_queue, Queue.Push. go_unfold. rewrite Hq. cbn [window Queue.locked Queue.closed Queue.queueChan Queue.cap].
  by rewrite Hfull, Nat.ltb_irrefl.
Qed.

Definition on_time (b : list (XLogData * Message)) : G tracker unit :=
  forM b (fun e => track false (fst e) (snd e)).

Lemma gather_overflow b tr l :
  Forall (fun e => plain (tt_relations tr) (snd e)) b -> gathering tr l -> (length l <= cap)%nat ->
  (cap < length l + length b)%nat -> on_time b tr = Crash Deadlock.
Proof.
  revert tr l. induction b as [|[xld m] b IH]; intros tr l Hp Hg Hroom Hlen; [cbn in Hlen; lia|].
  apply Forall_cons in Hp as [Hm Hp]. unfold on_time. cbn [forM fst snd].
  destruct (decide (length l = cap)) as [Hfull|Hne].
  - apply bind_crash. by eapply gather_full.
  - destruct (gather_step xld m tr l Hm Hg ltac:(lia)) as (tr1 & Hrun1 & Hg1 & Hrel1).
    rewrite (bind_run _ _ _ _ _ Hrun1). apply (IH tr1 (l ++ [(xld, m)])%list); [by rewrite Hrel1|done|..];
      rewrite length_app; cbn in *; lia.
Qed.
End Window.

(** The configured size of the window does not protect it: the transaction's
    own limit is never set, so a transaction of more than [size + 1] events that
    arrive before the deadline is not handed on but blocks the dispatcher on the
    full queue for good. *)
Theorem window_overflow_blocks (size : Z) (xb : XLogData) (mb : BeginMessage) (b : list (XLogData * Message)) (w : world) :
  supportsDecompressionMarkers = false -> all_enabled -> 0 < size < 2 ^ 63 ->
  Forall (fun e => plain ∅ (snd e)) b -> size + 1 < Z.of_nat (length b) ->
  (OnBeginEvent xb mb ;; on_time b) (newTransactionTracker size w) = Crash Deadlock.
Proof.
  intros Hsup Hall Hsize Hplain Hlen. set (cap := Z.to_nat (size + 1)).
  destruct (begin_collecting Hsup cap xb mb [] (newTransactionTracker size w) eq_refl eq_refl)
    as (tr1 & Hrun1 & [] & Hrel1 & _).
  rewrite (bind_run _ _ _ _ _ Hrun1).
  destruct (timedOut (activeTransaction tr1)) eqn:Ht.
  { exfalso. revert Hrun1 Ht. unfold OnBeginEvent, startTransaction. go_unfold. rewrite Hsup. cbn. intros [= <-]. done. }
  apply (gather_overflow Hsup Hall cap ltac:(unfold cap; lia) b tr1 []); [by rewrite Hrel1| |cbn; lia|cbn; unfold cap; lia].
  split; auto. by destruct c_none0.
Qed.

(** ** Decompression markers *)

Definition marker (prefix : string) (m : LogicalReplicationMessage) : Prop :=
  IsTransactional m = true /\ Prefix m = prefix.

(** An insert into a table that is not part of the catalog. *)
Definition row_insert (rels : gmap Z RelationMessage) (e : bool * XLogData * Z * values) : Prop :=
  exists rel, rels !! snd (fst e) = Some rel /\ isCatalogEvent rel = false.

Definition insert (e : bool * XLogData * Z * values) : G tracker unit :=
  OnInsertEvent (fst (fst (fst e))) (snd (fst (fst e))) (snd (fst e)) (snd e).

(** With decompression markers, the rows that TimescaleDB re-inserts between
    the start and the end marker of a decompression are dropped and nothing else
    is: the resolver's state is as before, and so is the tracker's. *)
Theorem decompression_inserts_dropped (l1 l2 : bool) (x1 x2 : XLogData) (m1 m2 : LogicalReplicationMessage)
    (es : list (bool * XLogData * Z * values)) (tr : tracker) :
  supportsDecompressionMarkers = true -> active (activeTransaction tr) = true ->
  marker decompressionMarkerStartId m1 -> marker decompressionMarkerEndId m2 ->
  Forall (row_insert (tt_relations tr)) es ->
  (OnMessageEvent l1 x1 m1 ;; forM es insert ;; OnMessageEvent l2 x2 m2) tr =
    Ret tt (set_txn (set_ongoingDecompression false (activeTransaction tr)) tr).
Proof.
  intros Hsup Hact [Ht1 Hp1] [Ht2 Hp2] Hes.
  set (tr1 := set_txn (set_ongoingDecompression true (activeTransaction tr)) tr).
  assert (OnMessageEvent l1 x1 m1 tr = Ret tt tr1) as Hstart.
  { unfold OnMessageEvent. rewrite (bind_run get _ _ _ _ eq_refl), Ht1, Hsup, Hp1. done. }
  assert (forM es insert tr1 = Ret tt tr1) as Hins.
  { clear Hstart. induction Hes as [|e es (rel & Hrel & Hcat) _ IH]; [done|]. cbn [forM].
    assert (insert e tr1 = Ret tt tr1) as He.
    { unfold insert, OnInsertEvent. rewrite (bind_run get _ _ _ _ eq_refl).
      change (tt_relations tr1) with (tt_relations tr). rewrite Hrel, Hcat.
      destruct (genHypertableInsertEvent cfg); [|done]. cbn -[bool_decide]. rewrite Hact, orb_true_r.
      go_unfold. by rewrite Hcat. }
    by rewrite (bind_run _ _ _ _ _ He). }
  rewrite (bind_run _ _ _ _ _ Hstart), (bind_run _ _ _ _ _ Hins).
  unfold OnMessageEvent. rewrite (bind_run get _ _ _ _ eq_refl), Ht2, Hsup, Hp2. cbn. rewrite Hact. done.
Qed.

(** ** Compression at commit *)

(** What happens to the resolver when a chunk's compression is noticed. *)
Lemma compression_effect xld chunk w r w1 :
  onChunkCompressionEvent cfg xld chunk w = Ret r w1 ->
  lastCommitLSN w1 = lastCommitLSN w /\
  exists k, taskQueue w1 = (taskQueue w ++ k)%list /\ forall e, NotifyRecord e ∉ k.
Proof.
  unfold onChunkCompressionEvent. rewrite (bind_run get _ _ _ _ eq_refl).
  assert (exists k, taskQueue w = (taskQueue w ++ k)%list /\ forall e, NotifyRecord e ∉ k) as Hnone.
  { exists []. rewrite app_nil_r. split; [done|]. intros e. apply not_elem_of_nil. }
  destruct (Catalog.ResolveUncompressedHypertable _ _) as [[h ?]|]; [|by intros [= <- <-]].
  destruct (genHypertableCompressionEvent cfg); [|by intros [= <- <-]]. cbn [negb].
  unfold EnqueueTask. go_unfold. destruct (shutdownActive w); [done|]. intros [= <- <-]. cbn. split; [done|].
  eexists. split; [done|]. intros e. rewrite list_elem_of_singleton. done.
Qed.

Lemma chunk_update_effect xld relId old new w r w1 :
  onChunkUpdateEvent enabled xld relId old new w = Ret r w1 ->
  lastCommitLSN w1 = lastCommitLSN w /\ taskQueue w1 = taskQueue w.
Proof.
  unfold onChunkUpdateEvent, RunTask. rewrite (bind_run get _ _ _ _ eq_refl), (bind_run (put _) _ _ _ _ eq_refl).
  unfold zoom. destruct (CatalogEvents.handle _ _ _) as [[] ?| |]; [|done|done]. by intros [= <- <-].
Qed.

Lemma chunkEvent_effect xld u tr r tr1 :
  chunkEvent (onChunkCompressionEvent cfg xld) xld u tr = Ret r tr1 ->
  activeTransaction tr1 = activeTransaction tr /\ tt_relations tr1 = tt_relations tr /\
  lastCommitLSN (resolver tr1) = lastCommitLSN (resolver tr) /\
  exists k, taskQueue (resolver tr1) = (taskQueue (resolver tr) ++ k)%list /\ forall e, NotifyRecord e ∉ k.
Proof.
  unfold chunkEvent. intros Hrun. apply bind_ret_inv in Hrun as (id & tr' & Hid & Hrun).
  apply lift_ret in Hid as [_ ->]. rewrite (bind_run get _ _ _ _ eq_refl) in Hrun.
  destruct (Catalog.FindChunkById _ _) as [chunk|].
  - apply bind_ret_inv in Hrun as ([] & tr2 & H2 & Hrun). apply bind_ret_inv in Hrun as ([] & tr3 & H3 & Hrun).
    injection Hrun as <- <-. unfold on_resolver, zoom in H2, H3.
    destruct (onChunkCompressionEvent cfg xld chunk (resolver tr)) as [[] w2|?|?] eqn:E2; [|done|done].
    injection H2 as <-. cbn in H3.
    destruct (onChunkUpdateEvent enabled xld _ _ _ w2) as [[] w3|?|?] eqn:E3; [|done|done]. injection H3 as <-. cbn.
    apply compression_effect in E2 as (Hc2 & k & Hk & Hn). apply chunk_update_effect in E3 as (Hc3 & Hk3).
    split_and!; [done|done|congruence|]. exists k. by rewrite Hk3.
  - injection Hrun as <- <-. split_and!; [done..|]. exists []. rewrite app_nil_r. split; [done|].
    intros e. apply not_elem_of_nil.
Qed.

(** A transaction that compresses a chunk loses its other events: on commit
    the queued events stay where they are, no event of a record handler is
    enqueued (not even that the transaction finished) and the commit position is
    not noted; the next transaction starts by throwing the queued events away. *)
Theorem compression_commit_loses_events (cap : nat) (xld xb : XLogData) (msg : CommitMessage) (mb : BeginMessage)
    (u : chunkUpdate) (l : list transactionEntry) (tr tr1 : tracker) (r : bool) :
  supportsDecompressionMarkers = false -> active (activeTransaction tr) = true ->
  maxSize (activeTransaction tr) = 0 -> queue (activeTransaction tr) = window l cap ->
  compressionUpdate (activeTransaction tr) = Some u -> decompressionUpdate (activeTransaction tr) = None ->
  chunkEvent (onChunkCompressionEvent cfg xld) xld u (set_txn (set_active false (activeTransaction tr)) tr) = Ret r tr1 ->
  OnCommitEvent xld msg tr = Ret tt tr1 /\
  queue (activeTransaction tr1) = window l cap /\
  lastCommitLSN (resolver tr1) = lastCommitLSN (resolver tr) /\
  (exists k, taskQueue (resolver tr1) = (taskQueue (resolver tr) ++ k)%list /\ forall e, NotifyRecord e ∉ k) /\
  exists tr2, OnBeginEvent xb mb tr1 = Ret tt tr2 /\
    queue (activeTransaction tr2) = window [] cap /\ resolver tr2 = resolver tr1.
Proof.
  intros Hsup Hact Hmax Hq Hc Hd Hrun. pose proof Hrun as Heff.
  apply chunkEvent_effect in Heff as (Htx & Hrel & Hlsn & Hk).
  assert (queue (activeTransaction tr1) = window l cap) as Hq1 by by rewrite Htx.
  split; [|split; [done|split; [done|split; [done|]]]].
  - unfold OnCommitEvent. rewrite (bind_run get _ _ _ _ eq_refl), Hact, Hc, Hd, Hsup. cbn [negb].
    rewrite (bind_run (on_txn _) _ _ _ _ eq_refl). by rewrite (bind_run _ _ _ _ _ Hrun).
  - destruct (begin_collecting Hsup cap xb mb l tr1 Hq1) as (tr2 & Hb & [] & _ & Hw); [by rewrite Htx|].
    by exists tr2.
Qed.
End Tracker.

(** *** Concrete inputs *)

(** An older TimescaleDB, without decompression markers. *)
Definition windowed : config := all_events.
Definition with_markers : config :=
  mkConfig true true true true true true true true true true true true true.

Definition no_plan (_ : RelationMessage) : option string := None.
Definition any (_ : Hypertable) : bool := true.
#[local] Instance quiet : Database := CatalogEvents.quiet_database.

Definition chunk_rows : RelationMessage := mkRelationMessage 5 "_timescaledb_internal" "_hyper_1_10_chunk" [].
Definition sample_tracker (size : Z) : tracker :=
  let tr := newTransactionTracker size sample_world in
  mkTracker {[ 5 := chunk_rows ]} (activeTransaction tr) (resolver tr).

Definition sample_begin : BeginMessage := mkBegin 100 0 7.
Definition sample_commit : CommitMessage := mkCommit 100 101 0.
Definition text (prefix : string) : LogicalReplicationMessage := mkLogical 1 (Some 7) 1 prefix [].

Lemma window_transparent_witness :
  let b := [(false, entry 1, MInsert 5 ∅); (true, entry 2, MDelete 5 ∅); (false, entry 3, MLogical (text "p"))] in
  exists tr' w', (OnBeginEvent windowed no_plan any (entry 1) sample_begin ;; track_body windowed no_plan any b ;;
      OnCommitEvent windowed no_plan any (entry 4) sample_commit) (sample_tracker 10) = Ret tt tr' /\
    (onMessage windowed no_plan any (entry 1) (MBegin sample_begin) ;; resolve_body windowed no_plan any b ;;
     onMessage windowed no_plan any (entry 4) (MCommit sample_commit)) sample_world = Ret tt w' /\
    w' = set_begin 1 7 (resolver tr') /\ length (taskQueue w') = 5%nat.
Proof.
  intros b.
  destruct ((onMessage windowed no_plan any (entry 1) (MBegin sample_begin) ;; resolve_body windowed no_plan any b ;;
     onMessage windowed no_plan any (entry 4) (MCommit sample_commit)) sample_world) as [[] w'|e w'|c] eqn:E;
    [|vm_compute in E; discriminate E..].
  destruct (window_transparent windowed no_plan any eq_refl ltac:(split_and!; reflexivity) 11 ltac:(vm_compute; reflexivity)
    (entry 1) (entry 4) sample_begin sample_commit b [] (sample_tracker 10) w') as (tr' & Hrun & Hw & _).
  - reflexivity.
  - reflexivity.
  - repeat constructor.
  - cbn. lia.
  - exact E.
  - exists tr', w'. split; [exact Hrun|]. split; [reflexivity|]. split; [exact Hw|].
    vm_compute in E. injection E as <-. reflexivity.
Defined.

Lemma window_overflow_blocks_witness :
  (OnBeginEvent windowed no_plan any (entry 1) sample_begin ;;
   on_time windowed no_plan any (repeat (entry 2, MLogical (text "p")) 4)) (newTransactionTracker 2 sample_world) = Crash Deadlock.
Proof.
  apply (window_overflow_blocks windowed no_plan any 2);
    [reflexivity|split_and!; reflexivity|lia|repeat constructor|cbn; lia].
Defined.

Lemma decompression_inserts_dropped_witness :
  let tr := set_txn (set_active true (activeTransaction (sample_tracker 10))) (sample_tracker 10) in
  (OnMessageEvent with_markers no_plan any false (entry 1) (text decompressionMarkerStartId) ;;
   forM [(false, entry 2, 5, ∅); (true, entry 3, 5, ∅)] (insert with_markers no_plan any) ;;
   OnMessageEvent with_markers no_plan any false (entry 4) (text decompressionMarkerEndId)) tr = Ret tt tr.
Proof.
  intros tr. rewrite (decompression_inserts_dropped with_markers no_plan any); try reflexivity.
  - split; reflexivity.
  - split; reflexivity.
  - repeat constructor; eexists; split; reflexivity.
Defined.

(** Chunk 10 becomes compressed while an insert is queued. *)
Definition compressing : tracker :=
  let tr := sample_tracker 10 in
  let t := activeTransaction tr in
  set_txn (set_compressionUpdate (Some (mkChunkUpdate 2 ∅
      (<[ "status"%string := VInt32 1 ]> (CatalogEvents.chunk_values 10 1 "_hyper_1_10_chunk"))))
    (set_active true (set_queue (window [(entry 1, MInsert 5 ∅)] 11) t))) tr.

Lemma compression_commit_loses_events_witness :
  exists tr1 tr2, OnCommitEvent windowed no_plan any (entry 4) sample_commit compressing = Ret tt tr1 /\
    queue (activeTransaction tr1) = window [(entry 1, MInsert 5 ∅)] 11 /\
    OnBeginEvent windowed no_plan any (entry 5) sample_begin tr1 = Ret tt tr2 /\
    queue (activeTransaction tr2) = window [] 11 /\ resolver tr2 = resolver tr1.
Proof.
  destruct (compressionUpdate (activeTransaction compressing)) as [u|] eqn:Hu; [|discriminate Hu].
  destruct (chunkEvent any (onChunkCompressionEvent windowed (entry 4)) (entry 4) u
    (set_txn (set_active false (activeTransaction compressing)) compressing)) as [r tr1|e w'|c] eqn:E;
    [|injection Hu as <-; vm_compute in E; discriminate E..].
  destruct (compression_commit_loses_events windowed no_plan any 11 (entry 4) (entry 5) sample_commit sample_begin u
    [(entry 1, MInsert 5 ∅)] compressing tr1 r) as (Hrun & Hq & _ & _ & tr2 & Hb & Hq2 & Hw); try reflexivity.
  - exact Hu.
  - exact E.
  - exists tr1, tr2. exact (conj Hrun (conj Hq (conj Hb (conj Hq2 Hw)))).
Defined.
