(* ===== verification/ReplicationContext.v ===== *)
(** * ReplicationContext: positions in the log

    internal/replication/replicationcontext/replicationcontext.go: the positions
    that the other components read and acknowledge, and the offset that survives
    a restart.  The offsets are kept in any storage that obeys the laws of the
    storage interface (StateStorage.v).  The mutex makes every method one step;
    positions are 64-bit.  The storage hands out its own offset object, which is
    changed in place before it is stored again under the same key. *)

From Stdlib Require Import ZArith Lia.
From stdpp Require Import base tactics option list numbers strings gmap.
From S2P Require Import Prelude Encoding Entities Values Messages StateStorage.

Local Open Scope Z_scope.

Import Offs.

Section Context_.
Context {S : Type} `{StorageLaws S}.

Record replicationContext : Type := mkContext {
  replicationSlotName : string;
  databaseName : string;
  lastBeginLSN : Z;
  lastCommitLSN : Z;
  lastReceivedLSN : Z;
  lastProcessedLSN : Z;
  lastTransactionId : Z;
  stateStorage : S;
}.

Definition Offset_ (rc : replicationContext) : option Offset :=
  st_Get (stateStorage rc) !! replicationSlotName rc.

Definition SetLastTransactionId (xid : Z) (rc : replicationContext) : replicationContext :=
  mkContext (replicationSlotName rc) (databaseName rc) (lastBeginLSN rc) (lastCommitLSN rc) (lastReceivedLSN rc)
    (lastProcessedLSN rc) xid (stateStorage rc).
Definition SetLastBeginLSN (lsn : Z) (rc : replicationContext) : replicationContext :=
  mkContext (replicationSlotName rc) (databaseName rc) lsn (lastCommitLSN rc) (lastReceivedLSN rc)
    (lastProcessedLSN rc) (lastTransactionId rc) (stateStorage rc).
Definition SetLastCommitLSN (lsn : Z) (rc : replicationContext) : replicationContext :=
  mkContext (replicationSlotName rc) (databaseName rc) (lastBeginLSN rc) lsn (lastReceivedLSN rc)
    (lastProcessedLSN rc) (lastTransactionId rc) (stateStorage rc).
Definition SetPositionLSNs (receivedLSN processedLSN : Z) (rc : replicationContext) : replicationContext :=
  mkContext (replicationSlotName rc) (databaseName rc) (lastBeginLSN rc) (lastCommitLSN rc) receivedLSN processedLSN
    (lastTransactionId rc) (stateStorage rc).

(** Where the log entry ends. *)
Definition entry_end (xld : XLogData) : Z := u64 (WALStart xld + Z.of_nat (length (WALData xld))).

Definition AcknowledgeReceived (xld : XLogData) (rc : replicationContext) : replicationContext :=
  mkContext (replicationSlotName rc) (databaseName rc) (lastBeginLSN rc) (lastCommitLSN rc) (entry_end xld)
    (lastProcessedLSN rc) (lastTransactionId rc) (stateStorage rc).

Definition zeroOffset : Offset := mkOffset 0 false false None 0 None 0.

Definition AcknowledgeProcessed (xld : XLogData) (processedLSN : option Z) (rc : replicationContext) :
  replicationContext :=
  let new := default (entry_end xld) processedLSN in
  let processed := if lastProcessedLSN rc <? new then new else lastProcessedLSN rc in
  let o := default zeroOffset (Offset_ rc) in
  let o' := mkOffset (ServerTime xld) (Snapshot o) (SnapshotDone o) (SnapshotName o) (SnapshotOffset o)
              (SnapshotKeyset o) processed in
  mkContext (replicationSlotName rc) (databaseName rc) (lastBeginLSN rc) (lastCommitLSN rc) (lastReceivedLSN rc)
    processed (lastTransactionId rc) (st_Set (replicationSlotName rc) o' (stateStorage rc)).

(** What the emitter acknowledges: an entry, and for the end of a transaction
    its position. *)
Abbreviation ack := (XLogData * option Z)%type.
Definition ack_position (a : ack) : Z := default (entry_end (fst a)) (snd a).

Definition acknowledge_all (acks : list ack) (rc : replicationContext) : replicationContext :=
  fold_left (fun rc a => AcknowledgeProcessed (fst a) (snd a) rc) acks rc.

Lemma acknowledge_processed_max a rc :
  lastProcessedLSN (AcknowledgeProcessed (fst a) (snd a) rc) = Z.max (lastProcessedLSN rc) (ack_position a).
Proof. cbn. unfold ack_position. destruct (Z.ltb_spec (lastProcessedLSN rc) (default (entry_end (fst a)) (snd a))); lia. Qed.

Lemma acknowledge_all_snoc acks a rc :
  acknowledge_all (acks ++ [a]) rc = AcknowledgeProcessed (fst a) (snd a) (acknowledge_all acks rc).
Proof. unfold acknowledge_all. by rewrite fold_left_app. Qed.

Lemma acknowledge_all_max acks rc :
  lastProcessedLSN (acknowledge_all acks rc) = foldr Z.max (lastProcessedLSN rc) (map ack_position acks).
Proof.
  induction acks as [|a acks IH] using rev_ind; [done|].
  rewrite acknowledge_all_snoc, acknowledge_processed_max, IH, map_app, foldr_app. cbn.
  clear IH. induction (map ack_position acks) as [|z l IH]; cbn; lia.
Qed.

Lemma acknowledge_all_slot acks rc :
  replicationSlotName (acknowledge_all acks rc) = replicationSlotName rc.
Proof.
  induction acks as [|a acks IH] using rev_ind; [done|]. by rewrite acknowledge_all_snoc.
Qed.

(** The stored offset is not ahead of the processed position. *)
Definition offset_behind (rc : replicationContext) : Prop :=
  forall o, Offset_ rc = Some o -> LSN o <= lastProcessedLSN rc.

Lemma acknowledge_all_behind acks rc : offset_behind rc -> offset_behind (acknowledge_all acks rc).
Proof.
  intros Hrc. induction acks as [|a acks IH] using rev_ind; [done|]. rewrite acknowledge_all_snoc.
  intros o. unfold Offset_. cbn. rewrite st_get_set, lookup_insert_eq. intros [= <-]. cbn. lia.
Qed.

(** Acknowledging entries in any order never moves the processed position
    back: it is the highest position acknowledged so far (or the initial one),
    the stored offset of the slot carries exactly that position with the time of
    the last acknowledged entry, the snapshot part of the offset is kept, and
    neither the offsets of other slots nor the encoded states change. *)
Theorem acknowledged_positions (acks : list ack) (a : ack) (rc : replicationContext) :
  let rc' := acknowledge_all (acks ++ [a]) rc in
  lastProcessedLSN rc' = foldr Z.max (lastProcessedLSN rc) (map ack_position (acks ++ [a])) /\
  (exists o, Offset_ rc' = Some o /\ LSN o = lastProcessedLSN rc' /\ Timestamp o = ServerTime (fst a) /\
     (forall o0, Offset_ rc = Some o0 -> Snapshot o = Snapshot o0 /\ SnapshotName o = SnapshotName o0 /\
        SnapshotOffset o = SnapshotOffset o0 /\ SnapshotKeyset o = SnapshotKeyset o0)) /\
  (forall slot, slot <> replicationSlotName rc ->
     st_Get (stateStorage rc') !! slot = st_Get (stateStorage rc) !! slot) /\
  (forall name, st_EncodedState name (stateStorage rc') = st_EncodedState name (stateStorage rc)).
Proof.
  intros rc'. split; [apply acknowledge_all_max|].
  assert (forall l, (forall o0, Offset_ rc = Some o0 -> exists o, Offset_ (acknowledge_all l rc) = Some o /\
      Snapshot o = Snapshot o0 /\ SnapshotName o = SnapshotName o0 /\
      SnapshotOffset o = SnapshotOffset o0 /\ SnapshotKeyset o = SnapshotKeyset o0) /\
    (forall slot, slot <> replicationSlotName rc ->
       st_Get (stateStorage (acknowledge_all l rc)) !! slot = st_Get (stateStorage rc) !! slot) /\
    (forall name, st_EncodedState name (stateStorage (acknowledge_all l rc)) = st_EncodedState name (stateStorage rc)))
    as Hkeep.
  { intros l. induction l as [|b l (IH1 & IH2 & IH3)] using rev_ind; [split_and!; eauto 8|].
    rewrite acknowledge_all_snoc. split_and!.
    - intros o0 Ho0. destruct (IH1 o0 Ho0) as (o & Ho & Hs). eexists. split.
      + unfold Offset_. cbn. rewrite st_get_set, lookup_insert_eq. done.
      + cbn. by rewrite Ho.
    - intros slot Hne. cbn. rewrite st_get_set, lookup_insert_ne by (by rewrite acknowledge_all_slot). auto.
    - intros name. cbn. rewrite st_state_set. auto. }
  split; [|split; apply (Hkeep (acks ++ [a])%list)].
  destruct (Hkeep acks) as (Hsnap & _ & _). unfold rc'. rewrite acknowledge_all_snoc. eexists. split_and!.
  - unfold Offset_. cbn. rewrite st_get_set, lookup_insert_eq. done.
  - done.
  - done.
  - intros o0 Ho0. destruct (Hsnap o0 Ho0) as (o & Ho & Hs). cbn. by rewrite Ho.
Qed.
End Context_.
Arguments replicationContext S : clear implicits.

(** *** Concrete inputs *)

Definition fresh_context : replicationContext DummyStorage.dummyStateStorage :=
  mkContext "slot" "db" 0 0 0 5 0 DummyStorage.NewDummyStateStorage.

Definition log_entry (lsn time : Z) : XLogData := mkXLogData lsn lsn time [] "db" 0 0 7.

(** The second entry is behind the first. *)
Lemma acknowledged_positions_witness :
  let rc' := acknowledge_all [(log_entry 30 1, None); (log_entry 20 2, Some 25)] fresh_context in
  lastProcessedLSN rc' = 30 /\ exists o, Offset_ rc' = Some o /\ LSN o = 30 /\ Timestamp o = 2.
Proof.
  destruct (acknowledged_positions (S := DummyStorage.dummyStateStorage)
    [(log_entry 30 1, None)] (log_entry 20 2, Some 25) fresh_context) as (Hp & (o & Ho & Hlsn & Ht & _) & _).
  split; [exact Hp|]. exists o. split; [exact Ho|]. split; [|exact Ht]. etransitivity; [exact Hlsn|]. exact Hp.
Defined.
