(* ===== verification/ReplicationHandler.v ===== *)
(** * ReplicationHandler: the receive loop

    internal/replication/replicationchannel/replicationhandler.go: receives the
    entries of the replication stream, skips those that were replicated before a
    restart, decodes the others and enqueues a task for each.

    A run of the loop is driven by what the environment does in each round: a
    shutdown request, the expiry of the status deadline, and what the connection
    receives.  The tuple decoder of the type manager and the parser of pglogrepl
    are parameters.  Statistics and log output are left out. *)

From Stdlib Require Import ZArith Lia.
From Stdlib Require Import Strings.Byte.
From stdpp Require Import base tactics option list numbers strings gmap sorting.
From S2P Require Import Prelude Encoding Entities Values Messages StateStorage ReplicationContext.

Local Open Scope Z_scope.

(** The messages as pglogrepl parses them, with encoded tuples. *)
Inductive raw_message (Tuple : Type) : Type :=
| RRelation (m : RelationMessage)
| RBegin (m : BeginMessage)
| RCommit (m : CommitMessage)
| RInsert (relationId : Z) (tuple : Tuple)
| RUpdate (relationId : Z) (oldTuple newTuple : Tuple)
| RDelete (relationId : Z) (oldTuple : Tuple)
| RTruncate (relationNum : Z) (relationIds : list Z)
| RType
| ROrigin
| RLogical (m : LogicalReplicationMessage)
| ROther.
Arguments RRelation {Tuple} m.
Arguments RBegin {Tuple} m.
Arguments RCommit {Tuple} m.
Arguments RInsert {Tuple} _ _.
Arguments RUpdate {Tuple} _ _ _.
Arguments RDelete {Tuple} _ _.
Arguments RTruncate {Tuple} _ _.
Arguments RType {Tuple}.
Arguments ROrigin {Tuple}.
Arguments RLogical {Tuple} m.
Arguments ROther {Tuple}.

(** pglogrepl.XLogData *)
Record xlog : Type := mkXlog {
  x_WALStart : Z;
  x_ServerWALEnd : Z;
  x_ServerTime : Z;
  x_WALData : bytes;
}.

(** What [ReceiveMessage] gives. *)
Inductive received : Type :=
| ReceiveFailed (e : string)
| NoMessage
| ErrorResponse
| UnexpectedMessage
| EmptyCopyData
| Keepalive (parsed : option bool)
| XLog (parsed : option xlog)
| OtherCopyData.

Record round : Type := mkRound {
  r_shutdown : bool;
  r_deadline : bool;
  r_statusSent : bool;
  r_received : received;
}.

Inductive loop_end : Type := Running | Stopped.

(** [M] of pglogrepl: relation messages start with R. *)
Definition MessageTypeRelation : byte := Byte.x52.

Section Handler.
Context {S : Type} `{StorageLaws S} {Tuple : Type}.
Context (parse : bytes -> string + raw_message Tuple).
Context (DecodeTuples : RelationMessage -> Tuple -> string + values).
(** What the receive buffer holds behind an entry. *)
Context (spare : bytes).

Record handler : Type := mkHandler {
  rc : replicationContext S;
  relations : gmap Z RelationMessage;
  clientXLogPos : Z;
  lastTransactionId : option Z;
  loopDead : bool;
  replyRequested : bool;
  statusUpdates : list Z;
  taskQueue : list task;
  shutdownActive : bool;
}.

Definition set_rc (c : replicationContext S) (h : handler) : handler :=
  mkHandler c (relations h) (clientXLogPos h) (lastTransactionId h) (loopDead h) (replyRequested h)
    (statusUpdates h) (taskQueue h) (shutdownActive h).
Definition set_relations (m : gmap Z RelationMessage) (h : handler) : handler :=
  mkHandler (rc h) m (clientXLogPos h) (lastTransactionId h) (loopDead h) (replyRequested h)
    (statusUpdates h) (taskQueue h) (shutdownActive h).
Definition set_clientXLogPos (p : Z) (h : handler) : handler :=
  mkHandler (rc h) (relations h) p (lastTransactionId h) (loopDead h) (replyRequested h)
    (statusUpdates h) (taskQueue h) (shutdownActive h).
Definition set_lastTransactionId (x : option Z) (h : handler) : handler :=
  mkHandler (rc h) (relations h) (clientXLogPos h) x (loopDead h) (replyRequested h)
    (statusUpdates h) (taskQueue h) (shutdownActive h).
Definition set_loopDead (h : handler) : handler :=
  mkHandler (rc h) (relations h) (clientXLogPos h) (lastTransactionId h) true (replyRequested h)
    (statusUpdates h) (taskQueue h) (shutdownActive h).
Definition set_replyRequested (b : bool) (h : handler) : handler :=
  mkHandler (rc h) (relations h) (clientXLogPos h) (lastTransactionId h) (loopDead h) b
    (statusUpdates h) (taskQueue h) (shutdownActive h).
Definition set_statusUpdates (l : list Z) (h : handler) : handler :=
  mkHandler (rc h) (relations h) (clientXLogPos h) (lastTransactionId h) (loopDead h) (replyRequested h)
    l (taskQueue h) (shutdownActive h).
Definition set_taskQueue (l : list task) (h : handler) : handler :=
  mkHandler (rc h) (relations h) (clientXLogPos h) (lastTransactionId h) (loopDead h) (replyRequested h)
    (statusUpdates h) l (shutdownActive h).

Definition EnqueueTask (t : task) : G handler unit :=
  h ← get;
  if shutdownActive h then fail "shutdown active, draining only"
  else put (set_taskQueue (taskQueue h ++ [t])%list h).

(** The relation of a row message; an unknown one ends the process. *)
Definition relation (relId : Z) : G handler RelationMessage :=
  h ← get;
  must FatalExit (relations h !! relId).

Definition decode (rel : RelationMessage) (t : Tuple) : G handler values := or_fail (DecodeTuples rel t).

Definition handleInsertMessage (xld : XLogData) (relId : Z) (tuple : Tuple) : G handler unit :=
  rel ← relation relId;
  newValues ← decode rel tuple;
  EnqueueTask (NotifyLogical xld (MInsert relId newValues)).

Definition handleUpdateMessage (xld : XLogData) (relId : Z) (oldTuple newTuple : Tuple) : G handler unit :=
  rel ← relation relId;
  oldValues ← decode rel oldTuple;
  newValues ← decode rel newTuple;
  EnqueueTask (NotifyLogical xld (MUpdate relId oldValues newValues)).

Definition handleDeleteMessage (xld : XLogData) (relId : Z) (oldTuple : Tuple) : G handler unit :=
  rel ← relation relId;
  oldValues ← decode rel oldTuple;
  EnqueueTask (NotifyLogical xld (MDelete relId oldValues)).

Definition with_xid (xid : Z) (xld : XLogData) : XLogData :=
  mkXLogData (WALStart xld) (ServerWALEnd xld) (ServerTime xld) (WALData xld) (DatabaseName xld)
    (LastBegin xld) (LastCommit xld) xid.

Definition handleReplicationEvents (xld : XLogData) (msg : raw_message Tuple) : G handler unit :=
  match msg with
  | RRelation m =>
      modify (fun h => set_relations (<[ RelationID m := m ]> (relations h)) h) ;;
      EnqueueTask (NotifyBase xld m)
  | RBegin m =>
      modify (fun h => set_lastTransactionId (Some (BeginXid m)) (set_rc (SetLastTransactionId (BeginXid m) (rc h)) h)) ;;
      EnqueueTask (NotifyLogical (with_xid (BeginXid m) xld) (MBegin m))
  | RCommit m =>
      modify (set_lastTransactionId None) ;;
      EnqueueTask (NotifyLogical xld (MCommit m))
  | RInsert relId tuple => handleInsertMessage xld relId tuple
  | RUpdate relId oldTuple newTuple => handleUpdateMessage xld relId oldTuple newTuple
  | RDelete relId oldTuple => handleDeleteMessage xld relId oldTuple
  | RTruncate n ids => EnqueueTask (NotifyLogical xld (MTruncate n ids))
  | RType => EnqueueTask (NotifyLogical xld MType)
  | ROrigin => EnqueueTask (NotifyLogical xld MOrigin)
  | RLogical m => EnqueueTask (NotifyLogical xld (MLogical m))
  | ROther => fail "unknown message type in pgoutput stream"
  end.

(** An error of the event handling is logged. *)
Definition handleXLogData (xld : XLogData) : G handler unit :=
  h ← get;
  r ← lift (ParseXlogData RLogical parse (WALData xld) spare (lastTransactionId h));
  match r with
  | inl e => fail ("parsing logical replication message: " ++ e)
  | inr msg =>
      catch (handleReplicationEvents xld msg) ;;
      modify (set_clientXLogPos (entry_end xld))
  end.

Definition SendStatusUpdate (sent : bool) : G handler unit :=
  if sent then
    modify (fun h => set_statusUpdates (statusUpdates h ++ [u64 (lastProcessedLSN (rc h) + 1)])%list h)
  else panic FatalExit.

(** The extended entry with the context of the current log row. *)
Definition extend (x : xlog) (h : handler) : XLogData :=
  mkXLogData (x_WALStart x) (x_ServerWALEnd x) (x_ServerTime x) (x_WALData x) (databaseName (rc h))
    (lastBeginLSN (rc h)) (lastCommitLSN (rc h)) (ReplicationContext.lastTransactionId (rc h)).

(** An error ends the loop and marks it dead. *)
Definition or_dead (m : G handler unit) : G handler unit := fun h =>
  match m h with
  | Err e h' => Err e (set_loopDead h')
  | r => r
  end.

Definition onXLog (restartLSN : Z) (x : xlog) : G handler unit :=
  h ← get;
  let extendedXld := extend x h in
  msgType ← lift (index (x_WALData x) 0);
  if negb (bool_decide (msgType = MessageTypeRelation)) && (x_WALStart x <? restartLSN) then mret tt
  else
    or_dead (handleXLogData extendedXld) ;;
    modify (fun h => set_rc (AcknowledgeReceived extendedXld (rc h)) h).

Definition onReceived (restartLSN : Z) (r : received) : G handler unit :=
  match r with
  | ReceiveFailed e => or_dead (fail e)
  | NoMessage | UnexpectedMessage | OtherCopyData => mret tt
  | ErrorResponse => panic FatalExit
  | EmptyCopyData => panic PanicIndexOutOfRange
  | Keepalive None | XLog None => panic FatalExit
  | Keepalive (Some reply) => if reply then modify (set_replyRequested true) else mret tt
  | XLog (Some x) => onXLog restartLSN x
  end.

Fixpoint startReplicationHandler (restartLSN : Z) (rounds : list round) : G handler loop_end :=
  match rounds with
  | [] => mret Running
  | r :: rounds' =>
      if r_shutdown r then mret Stopped
      else
        h ← get;
        (if r_deadline r || replyRequested h
         then SendStatusUpdate (r_statusSent r) ;; modify (set_replyRequested false)
         else mret tt) ;;
        onReceived restartLSN (r_received r) ;;
        startReplicationHandler restartLSN rounds'
  end.

(** ** Resuming after a restart *)

(** An entry that the restart position applies to. *)
Definition is_row (x : xlog) : bool :=
  match x_WALData x with
  | b :: _ => negb (bool_decide (b = MessageTypeRelation))
  | [] => false
  end.

Definition entry_of (r : round) : option xlog :=
  match r_received r with XLog (Some x) => Some x | _ => None end.

(** The round without its entry, unless that is a relation message. *)
Definition forget (r : round) : round :=
  match entry_of r with
  | Some x => if is_row x then mkRound (r_shutdown r) (r_deadline r) (r_statusSent r) NoMessage else r
  | None => r
  end.

Lemma onXLog_skip restartLSN x h :
  is_row x = true -> x_WALStart x < restartLSN -> onXLog restartLSN x h = Ret tt h.
Proof.
  unfold is_row, onXLog. destruct (x_WALData x) as [|b d]; [done|]. intros Hrow Hlt.
  rewrite (bind_run get _ _ _ _ eq_refl). cbn [index lift]. rewrite (bind_run _ _ _ b h eq_refl).
  apply Z.ltb_lt in Hlt. by rewrite Hrow, Hlt.
Qed.

Lemma onXLog_keep restartLSN x h :
  (is_row x = true -> restartLSN <= x_WALStart x) -> 0 <= x_WALStart x -> onXLog restartLSN x h = onXLog 0 x h.
Proof.
  unfold is_row, onXLog. intros Hkeep Hpos. destruct (x_WALData x) as [|b d]; [done|].
  rewrite !(bind_run get _ _ _ _ eq_refl). cbn [index lift]. rewrite !(bind_run _ _ _ b h eq_refl).
  destruct (bool_decide (b = MessageTypeRelation)); [done|]. cbn [negb andb] in *. specialize (Hkeep eq_refl).
  assert ((x_WALStart x <? restartLSN) = false) as -> by (apply Z.ltb_ge; lia).
  assert ((x_WALStart x <? 0) = false) as -> by (apply Z.ltb_ge; lia). done.
Qed.

(** A round is the same as another if what is received is handled the same. *)
Lemma round_congr restartLSN restartLSN' r r' rounds rounds' :
  r_shutdown r' = r_shutdown r -> r_deadline r' = r_deadline r -> r_statusSent r' = r_statusSent r ->
  (forall h, onReceived restartLSN (r_received r) h = onReceived restartLSN' (r_received r') h) ->
  (forall h, startReplicationHandler restartLSN rounds h = startReplicationHandler restartLSN' rounds' h) ->
  forall h, startReplicationHandler restartLSN (r :: rounds) h = startReplicationHandler restartLSN' (r' :: rounds') h.
Proof.
  intros Hs Hd Ht Hrec Hrest h. cbn [startReplicationHandler]. rewrite Hs, Hd, Ht.
  destruct (r_shutdown r); [done|]. rewrite !(bind_run get _ _ _ _ eq_refl). unfold mbind, G_bind.
  match goal with |- context [match ?m with Ret _ _ => _ | Err _ _ => _ | Crash _ => _ end] =>
    destruct m as [[] h1| |]; [|done|done] end.
  rewrite Hrec. destruct (onReceived _ _ h1) as [[] h2| |]; [|done|done]. apply Hrest.
Qed.

Lemma forget_same r : entry_of r = None -> forget r = r.
Proof. unfold forget. by intros ->. Qed.

Lemma skipped_round restartLSN r :
  (forall x, entry_of r = Some x -> is_row x = true -> x_WALStart x < restartLSN) ->
  forall h, onReceived restartLSN (r_received r) h = onReceived restartLSN (r_received (forget r)) h.
Proof.
  intros Hskip h. unfold forget. destruct (entry_of r) as [x|] eqn:Hx; [|done].
  destruct (is_row x) eqn:Hrow; [|done]. cbn. specialize (Hskip x eq_refl Hrow).
  unfold entry_of in Hx. destruct (r_received r) as [| | | | | |[x'|]|]; try done. injection Hx as ->.
  by apply onXLog_skip.
Qed.

Lemma kept_round restartLSN r :
  (forall x, entry_of r = Some x -> (is_row x = true -> restartLSN <= x_WALStart x) /\ 0 <= x_WALStart x) ->
  forall h, onReceived restartLSN (r_received r) h = onReceived 0 (r_received r) h.
Proof.
  intros Hkeep h. unfold entry_of in Hkeep. destruct (r_received r) as [| | | | | |[x|]|]; try done. cbn.
  destruct (Hkeep x eq_refl). by apply onXLog_keep.
Qed.

Definition entries (rs : list round) : list xlog := omap entry_of rs.

(** The log entries are non-empty and their ends do not wrap around. *)
Definition sane (x : xlog) : Prop :=
  0 <= x_WALStart x /\ x_WALData x <> [] /\ x_WALStart x + Z.of_nat (length (x_WALData x)) < 2 ^ 64.

Definition end_of (x : xlog) : Z := x_WALStart x + Z.of_nat (length (x_WALData x)).

(** The acknowledgements of entries that were processed one by one. *)
Definition acks (xs : list xlog) (h : handler) : list (XLogData * option Z) := map (fun x => (extend x h, None)) xs.

Lemma ack_position_end x h : sane x -> ack_position (extend x h, None) = end_of x.
Proof. intros (Hge & Hne & Hlt). unfold ack_position, entry_end, end_of. cbn. apply wrapu_small. unfold in_u. lia. Qed.

Lemma restart_bounds xs h (c : replicationContext S) :
  Forall sane xs ->
  (forall x, x ∈ xs -> x_WALStart x < lastProcessedLSN (acknowledge_all (acks xs h) c)) /\
  (forall b, lastProcessedLSN c <= b -> (forall x, x ∈ xs -> end_of x <= b) ->
     lastProcessedLSN (acknowledge_all (acks xs h) c) <= b).
Proof.
  intros Hs. rewrite acknowledge_all_max. unfold acks. rewrite map_map.
  induction Hs as [|x xs Hx Hs [IH1 IH2]]; cbn [map foldr].
  - split; [by intros x Hx%not_elem_of_nil|auto].
  - rewrite ack_position_end by done. split.
    + intros y. rewrite elem_of_cons. intros [->|Hy]; [|specialize (IH1 y Hy); lia].
      destruct Hx as (? & Hne & _). unfold end_of. destruct (x_WALData x); [done|cbn; lia].
    + intros b Hb Hall. specialize (IH2 b Hb). assert (end_of x <= b) by (apply Hall; by left).
      assert (foldr Z.max (lastProcessedLSN c) (map (fun x0 => ack_position (extend x0 h, None)) xs) <= b); [|lia].
      apply IH2. intros y Hy. apply Hall. by right.
Qed.

Lemma entries_forall (P : xlog -> Prop) rs r x :
  (forall y, y ∈ entries rs -> P y) -> r ∈ rs -> entry_of r = Some x -> P x.
Proof. intros Hall Hr Hx. apply Hall. apply list_elem_of_omap. eauto. Qed.

Lemma receive_split restartLSN rs1 rs2 :
  (forall x, x ∈ entries rs1 -> x_WALStart x < restartLSN) ->
  (forall x, x ∈ entries rs1 -> 0 <= x_WALStart x) ->
  (forall x, x ∈ entries rs2 -> restartLSN <= x_WALStart x /\ 0 <= x_WALStart x) ->
  forall h, startReplicationHandler restartLSN (rs1 ++ rs2) h = startReplicationHandler 0 (map forget rs1 ++ rs2) h.
Proof.
  intros H1 H1' H2. induction rs1 as [|r rs1 IH]; cbn [app map].
  - induction rs2 as [|r rs2 IH2]; [done|]. apply round_congr; [done..| |].
    + apply kept_round. intros x Hx. destruct (H2 x) as [? ?]; [apply list_elem_of_omap; exists r; split; [by left|done]|].
      split; [done|lia].
    + apply IH2. intros x Hx. apply H2. apply list_elem_of_omap in Hx as (r' & Hr' & Hx).
      apply list_elem_of_omap. exists r'. split; [by right|done].
  - assert (forall x, entry_of r = Some x -> x ∈ entries (r :: rs1)) as Hin.
    { intros x Hx. apply list_elem_of_omap. exists r. split; [by left|done]. }
    assert (forall x, x ∈ entries rs1 -> x ∈ entries (r :: rs1)) as Hmore.
    { intros x Hx. apply list_elem_of_omap in Hx as (r' & Hr' & Hx). apply list_elem_of_omap. exists r'.
      split; [by right|done]. }
    apply round_congr.
    1-3: unfold forget; destruct (entry_of r) as [x|]; [by destruct (is_row x)|done].
    + intros h. rewrite skipped_round by (intros x Hx _; apply H1; auto).
      apply kept_round. intros x. unfold forget. destruct (entry_of r) as [x'|] eqn:Hx'.
      * destruct (is_row x') eqn:Hrow; [done|]. rewrite Hx'. intros [= <-]. split; [congruence|]. apply H1'. auto.
      * rewrite Hx'. done.
    + apply IH; auto.
Qed.

(** C10. A restart is exact on a stream in log order: when the entries of [rs1]
    were processed and acknowledged and every later entry starts behind them,
    replaying the whole stream from the acknowledged position does precisely what
    receiving only the relation messages of [rs1] and then [rs2] would do: no
    processed row is repeated and no other is lost. *)
Theorem resume_exact (rs1 rs2 : list round) (c : replicationContext S) (h : handler) :
  let restartLSN := lastProcessedLSN (acknowledge_all (acks (entries rs1) h) c) in
  Forall sane (entries rs1) -> Forall sane (entries rs2) ->
  (forall x y, x ∈ entries rs1 -> y ∈ entries rs2 -> end_of x <= x_WALStart y) ->
  (forall y, y ∈ entries rs2 -> lastProcessedLSN c <= x_WALStart y) ->
  startReplicationHandler restartLSN (rs1 ++ rs2) h = startReplicationHandler 0 (map forget rs1 ++ rs2) h.
Proof.
  intros restartLSN Hs1 Hs2 Hord Hc. destruct (restart_bounds (entries rs1) h c Hs1) as [Hlow Hhigh].
  rewrite Forall_forall in Hs1, Hs2. apply receive_split.
  - exact Hlow.
  - intros x Hx. by destruct (Hs1 x Hx).
  - intros y Hy. split; [|by destruct (Hs2 y Hy)]. apply Hhigh; [by apply Hc|]. intros x Hx. by apply Hord.
Qed.

Lemma forgotten_round restartLSN rs1 r rs2 x :
  entry_of r = Some x -> is_row x = true -> x_WALStart x < restartLSN ->
  forall h, startReplicationHandler restartLSN (rs1 ++ r :: rs2) h =
    startReplicationHandler restartLSN (rs1 ++ forget r :: rs2) h.
Proof.
  intros Hr Hrow Hlt. induction rs1 as [|r1 rs1 IH]; cbn [app].
  - apply round_congr; [unfold forget; rewrite Hr, Hrow; done..| |done].
    apply skipped_round. intros x' Hx' _. rewrite Hr in Hx'. by injection Hx' as <-.
  - apply round_congr; [done..|]. exact IH.
Qed.

(** C18. A restart loses rows of interleaved transactions: PostgreSQL sends
    transactions in the order of their commits, so a transaction that follows the
    acknowledged entries [xs] may have rows that lie before them in the log; when
    the stream is replayed from the acknowledged position, such a row is as good
    as not received although it was never processed. *)
Theorem interleaved_rows_lost (xs : list xlog) (c : replicationContext S) (h : handler)
    (rs1 rs2 : list round) (r : round) (x a : xlog) :
  let restartLSN := lastProcessedLSN (acknowledge_all (acks xs h) c) in
  Forall sane xs -> a ∈ xs -> entry_of r = Some x -> is_row x = true -> x_WALStart x < x_WALStart a ->
  startReplicationHandler restartLSN (rs1 ++ r :: rs2) h =
    startReplicationHandler restartLSN (rs1 ++ forget r :: rs2) h /\ entry_of (forget r) = None.
Proof.
  intros restartLSN Hs Ha Hr Hrow Hlt. destruct (restart_bounds xs h c Hs) as [Hlow _].
  specialize (Hlow a Ha). split.
  - apply (forgotten_round _ _ _ _ x); [done|done|]. unfold restartLSN. lia.
  - unfold forget. by rewrite Hr, Hrow.
Qed.
End Handler.
Arguments handler S : clear implicits.

(** *** Concrete inputs *)

Definition plain_entry (lsn : Z) (kind : byte) : xlog := mkXlog lsn lsn 0 [kind; Byte.x00].
Definition quiet (x : xlog) : round := mkRound false false true (XLog (Some x)).

(** A parser for streams of relation, insert and truncate messages without
    payload. *)
Definition sample_parse (d : bytes) : string + raw_message unit :=
  match d with
  | b :: _ =>
      if bool_decide (b = MessageTypeRelation) then inr (RRelation (mkRelationMessage 5 "public" "t" []))
      else if bool_decide (b = Byte.x49) then inr (RInsert 5 tt)
      else inr (RTruncate 0 [])
  | [] => inl "empty"%string
  end.
Definition sample_decode (_ : RelationMessage) (_ : unit) : string + values := inr ∅.

Definition sample_handler : handler DummyStorage.dummyStateStorage :=
  mkHandler fresh_context ∅ 0 None false false [] [] false.

(** A relation message and an insert were processed, an insert follows. *)
Lemma resume_exact_witness :
  let rs1 := [quiet (plain_entry 10 MessageTypeRelation); quiet (plain_entry 20 Byte.x49)] in
  let rs2 := [quiet (plain_entry 30 Byte.x49)] in
  exists h', startReplicationHandler sample_parse sample_decode []
      (lastProcessedLSN (acknowledge_all (acks (entries rs1) sample_handler) fresh_context))
      (rs1 ++ rs2) sample_handler = Ret Running h' /\ length (taskQueue h') = 2%nat.
Proof.
  intros rs1 rs2.
  rewrite (resume_exact sample_parse sample_decode [] rs1 rs2 fresh_context sample_handler).
  - eexists. split; [vm_compute; reflexivity|reflexivity].
  - repeat constructor; done.
  - repeat constructor; done.
  - intros x y Hx Hy. cbn in Hx, Hy. rewrite !elem_of_cons in Hx. rewrite !elem_of_cons in Hy.
    destruct Hx as [->|[->|Hx%not_elem_of_nil]], Hy as [->|Hy%not_elem_of_nil]; try done; vm_compute; discriminate.
  - intros y Hy. cbn in Hy. rewrite !elem_of_cons in Hy. destruct Hy as [->|Hy%not_elem_of_nil]; [|done].
    vm_compute. discriminate.
Defined.

(** The transaction with the insert at 15 commits after the one with the insert
    at 20; after a restart the insert at 15 is gone. *)
Lemma interleaved_rows_lost_witness :
  let before := [quiet (plain_entry 10 MessageTypeRelation); quiet (plain_entry 20 Byte.x49)] in
  let restartLSN := lastProcessedLSN (acknowledge_all (acks (entries before) sample_handler) fresh_context) in
  let late := quiet (plain_entry 15 Byte.x49) in
  startReplicationHandler sample_parse sample_decode [] restartLSN (before ++ [late]) sample_handler =
    startReplicationHandler sample_parse sample_decode [] restartLSN (before ++ [forget late]) sample_handler.
Proof.
  intros before restartLSN late.
  destruct (interleaved_rows_lost sample_parse sample_decode [] (entries before) fresh_context sample_handler
    before [] late (plain_entry 15 Byte.x49) (plain_entry 20 Byte.x49)) as [Hrun _].
  - repeat constructor; done.
  - right. left.
  - reflexivity.
  - reflexivity.
  - reflexivity.
  - exact Hrun.
Defined.
