(* ===== verification/ReplicationChannel.v ===== *)
(** * ReplicationChannel: starting and stopping the replication

    [Connection]: the replication slot and the restart position of
    internal/replication/replicationconnection/replicationconnection.go.
    [Channel]: the start sequence of
    internal/replication/replicationchannel/replicationchannel.go, with the
    goroutine it leaves behind, the snapshotting handler it registers and the
    shutdown, as a step relation.

    What the database answers is an [environment].  Errors of the clean-up, which
    are only logged, do not change the state. *)

From Stdlib Require Import ZArith Lia.
From stdpp Require Import base tactics option list numbers strings gmap relations.
From S2P Require Import Prelude Encoding Entities Values Messages StateStorage.

Local Open Scope Z_scope.

Inductive InitialSnapshotMode : Type := Always | Never | InitialOnly.

(** A row of the replication slots: plugin, type, restart position, confirmed
    flush position. *)
Record slot_row : Type := mkSlotRow {
  pluginName : string;
  slotType : string;
  slotRestartLSN : Z;
  confirmedFlushLSN : Z;
}.

Record environment : Type := mkEnvironment {
  replicationSlotName : string;
  replicationSlotCreate : bool;
  replicationSlotAutoDrop : bool;
  publicationCreate : bool;
  publicationAutoDrop : bool;
  initialSnapshotMode : InitialSnapshotMode;
  connectError : option string;
  xLogPos : Z;
  offset : string + option Offs.Offset;
  existsPublication : string + bool;
  createPublication : bool * option string;
  existsReplicationSlot : string + bool;
  createReplicationSlot : string + string;
  attachTables : option string;
  readReplicationSlot : string + slot_row;
  startReplicationErrors : option string * option string * option string;
}.

(** ** The connection *)

Module Connection.

Section Env.
Context (env : environment).

(** The slot's name, the name of the exported snapshot, and whether the slot was
    created. *)
Definition CreateReplicationSlot : string + (string * string * bool) :=
  if negb (replicationSlotCreate env) then inr (""%string, ""%string, false)
  else
    match existsReplicationSlot env with
    | inl e => inl e
    | inr true => inr (replicationSlotName env, ""%string, false)
    | inr false =>
        match createReplicationSlot env with
        | inl e => inl e
        | inr snapshotName => inr (replicationSlotName env, snapshotName, true)
        end
    end.

Definition DropReplicationSlot (replicationSlotCreated : bool) : bool :=
  replicationSlotCreated && replicationSlotAutoDrop env.

Definition locateRestartLSN : string + Z :=
  match offset env with
  | inl e => inl e
  | inr o =>
      match readReplicationSlot env with
      | inl e => inl e
      | inr row =>
          let confirmed := confirmedFlushLSN row in
          if (0 <? confirmed) && negb (String.eqb (pluginName row) "pgoutput")
          then inl "illegal plugin name found for existing replication slot"%string
          else if (0 <? confirmed) && negb (String.eqb (slotType row) "logical")
          then inl "illegal slot type found for existing replication slot"%string
          else
            let restartLSN :=
              match o with
              | Some o => if confirmed <? Offs.LSN o then Offs.LSN o else confirmed
              | None => confirmed
              end in
            inr (if restartLSN =? 0 then xLogPos env else restartLSN)
      end
  end.

(** [StartReplication]: the position given to the replication context, and the
    result; a first failure leads to one reconnect and a second attempt. *)
Definition StartReplication : option Z * (string + Z) :=
  match locateRestartLSN with
  | inl e => (None, inl e)
  | inr restartLSN =>
      (Some restartLSN,
       match startReplicationErrors env with
       | (None, _, _) => inr restartLSN
       | (Some _, Some e, _) => inl e
       | (Some _, None, Some e) => inl e
       | (Some _, None, None) => inr restartLSN
       end)
  end.

(** The restart position: for a slot that can be used it is the higher of the
    slot's confirmed position and the stored offset, and only if neither is
    there the current end of the log; a slot of another plugin or type that was
    used before is refused. *)
Theorem restart_position (o : option Offs.Offset) (row : slot_row) :
  offset env = inr o -> readReplicationSlot env = inr row ->
  0 <= confirmedFlushLSN row -> (forall o', o = Some o' -> 0 <= Offs.LSN o') ->
  let stored := match o with Some o' => Offs.LSN o' | None => 0 end in
  let usable := confirmedFlushLSN row = 0 \/ (pluginName row = "pgoutput" /\ slotType row = "logical")%string in
  (usable -> locateRestartLSN =
     inr (if Z.max (confirmedFlushLSN row) stored =? 0 then xLogPos env else Z.max (confirmedFlushLSN row) stored)) /\
  (~ usable -> exists e, locateRestartLSN = inl e).
Proof.
  intros Ho Hrow Hc Hlsn stored usable. unfold locateRestartLSN. rewrite Ho, Hrow. split.
  - intros Huse. assert ((0 <? confirmedFlushLSN row) && negb (String.eqb (pluginName row) "pgoutput") = false) as ->.
    { destruct Huse as [-> |[-> _]]; [done|]. by rewrite andb_false_r. }
    assert ((0 <? confirmedFlushLSN row) && negb (String.eqb (slotType row) "logical") = false) as ->.
    { destruct Huse as [-> |[_ ->]]; [done|]. by rewrite andb_false_r. }
    destruct o as [o|]; unfold stored; [|by rewrite Z.max_l].
    destruct (Z.ltb_spec (confirmedFlushLSN row) (Offs.LSN o)); [by rewrite Z.max_r by lia|by rewrite Z.max_l by lia].
  - intros Hno. unfold usable in Hno. destruct (Z.ltb_spec 0 (confirmedFlushLSN row)); cbn [andb].
    + destruct (String.eqb_spec (pluginName row) "pgoutput"); cbn [negb]; [|eauto].
      destruct (String.eqb_spec (slotType row) "logical"); cbn [negb]; [|eauto]. tauto.
    + exfalso. apply Hno. left. lia.
Qed.
End Env.
End Connection.

(** ** The channel *)

Module Channel.

(** The goroutine at the end of [StartReplicationChannel]. *)
Inductive closer : Type := NotSpawned | Spawned | AwaitingShutdown | Closed.

Record channel : Type := mkChannel {
  shutdownRequested : bool;
  shutdownSignalled : bool;
  createdPublication : bool;
  replicationSlotCreated : bool;
  snapshotHandler : bool;
  snapshotting : option string;
  replicating : option Z;
  positionLSN : option Z;
  stopInstalled : bool;
  goroutine : closer;
  slotDropped : bool;
  publicationDropped : bool;
}.

Definition NewReplicationChannel : channel :=
  mkChannel false false false false false None None None false NotSpawned false false.

Definition set_shutdownRequested (c : channel) : channel :=
  mkChannel true (shutdownSignalled c) (createdPublication c) (replicationSlotCreated c) (snapshotHandler c)
    (snapshotting c) (replicating c) (positionLSN c) (stopInstalled c) (goroutine c) (slotDropped c) (publicationDropped c).
Definition set_created (pub slot : bool) (c : channel) : channel :=
  mkChannel (shutdownRequested c) (shutdownSignalled c) pub slot (snapshotHandler c)
    (snapshotting c) (replicating c) (positionLSN c) (stopInstalled c) (goroutine c) (slotDropped c) (publicationDropped c).
Definition set_snapshotting (name : string) (c : channel) : channel :=
  mkChannel (shutdownRequested c) (shutdownSignalled c) (createdPublication c) (replicationSlotCreated c) true
    (Some name) (replicating c) (positionLSN c) (stopInstalled c) (goroutine c) (slotDropped c) (publicationDropped c).
Definition set_replicating (lsn : Z) (c : channel) : channel :=
  mkChannel (shutdownRequested c) (shutdownSignalled c) (createdPublication c) (replicationSlotCreated c)
    (snapshotHandler c) (snapshotting c) (Some lsn) (positionLSN c) true (goroutine c) (slotDropped c) (publicationDropped c).
Definition set_goroutine (g : closer) (c : channel) : channel :=
  mkChannel (shutdownRequested c) (shutdownSignalled c) (createdPublication c) (replicationSlotCreated c)
    (snapshotHandler c) (snapshotting c) (replicating c) (positionLSN c) (stopInstalled c) g (slotDropped c) (publicationDropped c).
Definition set_position (p : option Z) (c : channel) : channel :=
  mkChannel (shutdownRequested c) (shutdownSignalled c) (createdPublication c) (replicationSlotCreated c)
    (snapshotHandler c) (snapshotting c) (replicating c) p (stopInstalled c) (goroutine c) (slotDropped c)
    (publicationDropped c).
Definition set_signalled (c : channel) : channel :=
  mkChannel true true (createdPublication c) (replicationSlotCreated c)
    (snapshotHandler c) (snapshotting c) (replicating c) (positionLSN c) (stopInstalled c) (goroutine c) (slotDropped c) (publicationDropped c).

Section Env.
Context (env : environment).

(** The closure [startReplication].  [meanwhile] says whether another goroutine requests
    the shutdown while the connection tries to start the replication; its failure is
    then expected and no error. *)
Definition startReplication (meanwhile : bool) : G channel unit :=
  c ← get;
  if shutdownRequested c then mret tt
  else
    let '(position, r) := Connection.StartReplication env in
    (if meanwhile then modify set_shutdownRequested else mret tt) ;;
    modify (set_position (match position with Some p => Some p | None => positionLSN c end)) ;;
    match r with
    | inl e =>
        c ← get;
        if shutdownRequested c then mret tt else fail ("StartReplication failed: " ++ e)%string
    | inr restartLSN => modify (set_replicating restartLSN)
    end.

Definition lift_error {A} (r : string + A) : G channel A :=
  match r with inl e => fail e | inr a => mret a end.

(** The publication is there or is created. *)
Definition ensurePublication : G channel unit :=
  found ← lift_error (existsPublication env);
  match found with
  | true => mret tt
  | false =>
      if negb (publicationCreate env) then fail "Publication missing but wasn't asked to create it either"
      else match createPublication env with
           | (true, _) => modify (fun c => set_created true (replicationSlotCreated c) c)
           | (false, Some e) => fail e
           | (false, None) => mret tt
           end
  end.

(** The snapshot to take, if any. *)
Definition chooseSnapshot (o : option Offs.Offset) (snapshotName : string) (createdReplicationSlot : bool) :
  string + string :=
  match initialSnapshotMode env with
  | Always =>
      if createdReplicationSlot then inr snapshotName
      else inl "Snapshot mode 'always' must create a replication slot!"%string
  | InitialOnly =>
      match o with
      | None => inr snapshotName
      | Some o =>
          if Offs.Snapshot o then
            match Offs.SnapshotName o with
            | Some name =>
                if createdReplicationSlot
                then inl "Snapshot mode 'initial_only' found an existing offset state with a newly created replication slot!"%string
                else inr name
            | None => inr ""%string
            end
          else inr ""%string
      end
  | Never => inr ""%string
  end.

Definition StartReplicationChannel (meanwhile : bool) (initialTables : list SystemEntity) : G channel unit :=
  match connectError env with Some e => fail e | None => mret tt end ;;
  ensurePublication ;;
  slot ← lift_error (Connection.CreateReplicationSlot env);
  let '(_, snapshotName, createdReplicationSlot) := slot in
  modify (fun c => set_created (createdPublication c) createdReplicationSlot c) ;;
  match initialTables, attachTables env with
  | _ :: _, Some e => fail e
  | _, _ => mret tt
  end ;;
  o ← lift_error (offset env);
  snapshotName ← lift_error (chooseSnapshot o snapshotName createdReplicationSlot);
  (if String.eqb snapshotName "" then startReplication meanwhile else modify (set_snapshotting snapshotName)) ;;
  modify (set_goroutine Spawned).

(** [OnSnapshottingFinishedEvent] of the channel's snapshotting handler. *)
Definition OnSnapshottingFinishedEvent (meanwhile : bool) : G channel unit := startReplication meanwhile.

Definition StopReplicationChannel (c : channel) : channel := set_signalled c.

(** What the goroutine does once the shutdown is signalled. *)
Definition close_channel (c : channel) : channel :=
  let c := if stopInstalled c then c else set_shutdownRequested c in
  mkChannel (shutdownRequested c) (shutdownSignalled c) (createdPublication c) (replicationSlotCreated c)
    (snapshotHandler c) (snapshotting c) None (positionLSN c) (stopInstalled c) Closed
    (Connection.DropReplicationSlot env (replicationSlotCreated c))
    (createdPublication c && publicationAutoDrop env).

Inductive step : channel -> channel -> Prop :=
| step_goroutine_starts c : goroutine c = Spawned ->
    step c (set_goroutine AwaitingShutdown (set_shutdownRequested c))
| step_snapshot_finished meanwhile c c' : snapshotHandler c = true ->
    (OnSnapshottingFinishedEvent meanwhile c = Ret tt c' \/ exists e, OnSnapshottingFinishedEvent meanwhile c = Err e c') ->
    step c c'
| step_stop c : step c (StopReplicationChannel c)
| step_close c : goroutine c = AwaitingShutdown -> shutdownSignalled c = true -> step c (close_channel c).

(** *** Lemmas *)

Definition off (c : channel) : Prop :=
  shutdownRequested c = true /\ replicating c = None /\ goroutine c <> Spawned /\ goroutine c <> NotSpawned.

Lemma step_off c c' : off c -> step c c' -> off c'.
Proof.
  intros (Hreq & Hrep & Hg & Hg') Hstep. destruct Hstep as [c Hs|meanwhile c c' Hh Hrun|c|c Hs Hsig].
  - congruence.
  - assert (OnSnapshottingFinishedEvent meanwhile c = Ret tt c) as Hno.
    { unfold OnSnapshottingFinishedEvent, startReplication. go_unfold. by rewrite Hreq. }
    rewrite Hno in Hrun. destruct Hrun as [[= <-]|(e & He)]; done.
  - done.
  - unfold close_channel. destruct (stopInstalled c); done.
Qed.

Lemma ensurePublication_keeps c u c' :
  ensurePublication c = Ret u c' -> replicating c' = replicating c /\ snapshotting c' = snapshotting c.
Proof.
  unfold ensurePublication. intros Hrun. apply bind_ret_inv in Hrun as (found & c1 & Hf & Hrun).
  unfold lift_error in Hf. destruct (existsPublication env); [done|]. injection Hf as -> <-.
  destruct found; [by injection Hrun as _ <-|]. destruct (publicationCreate env); [|done]. cbn in Hrun.
  destruct (createPublication env) as [[] [e|]]; try done; by injection Hrun as _ <-.
Qed.

(** A started channel that snapshots does not replicate yet. *)
Lemma started_snapshotting meanwhile tables u c :
  StartReplicationChannel meanwhile tables NewReplicationChannel = Ret u c ->
  goroutine c = Spawned /\ (snapshotting c <> None -> replicating c = None).
Proof.
  unfold StartReplicationChannel. intros Hrun.
  apply bind_ret_inv in Hrun as (? & c0 & Hconn & Hrun).
  assert (c0 = NewReplicationChannel) as -> by (destruct (connectError env); [done|by injection Hconn]).
  apply bind_ret_inv in Hrun as (? & c1 & Hens & Hrun). apply ensurePublication_keeps in Hens as [Hr1 Hs1].
  apply bind_ret_inv in Hrun as ([[slot sn] created] & c2 & Hslot & Hrun).
  assert (c2 = c1) as ->.
  { unfold lift_error in Hslot. destruct (Connection.CreateReplicationSlot env); [done|]. by injection Hslot. }
  rewrite (bind_run (modify _) _ _ _ _ eq_refl) in Hrun.
  apply bind_ret_inv in Hrun as (? & c3 & Htab & Hrun).
  assert (replicating c3 = None /\ snapshotting c3 = None) as [Hr3 Hs3].
  { assert (c3 = set_created (createdPublication c1) created c1) as ->; [|cbn; by rewrite Hr1, Hs1].
    destruct tables; [by injection Htab|]. destruct (attachTables env); [done|by injection Htab]. }
  apply bind_ret_inv in Hrun as (o & c4 & Ho & Hrun).
  assert (c4 = c3) as -> by (unfold lift_error in Ho; destruct (offset env); [done|by injection Ho]).
  apply bind_ret_inv in Hrun as (name & c5 & Hn & Hrun).
  assert (c5 = c3) as -> by (unfold lift_error in Hn; destruct (chooseSnapshot _ _ _); [done|by injection Hn]).
  apply bind_ret_inv in Hrun as (? & c6 & Hstart & Hrun). injection Hrun as _ <-. split; [done|]. cbn.
  destruct (String.eqb name "").
  - unfold startReplication in Hstart. rewrite (bind_run get _ _ _ _ eq_refl) in Hstart.
    destruct (shutdownRequested c3) eqn:Hsd; [injection Hstart as _ <-; by rewrite Hs3|].
    destruct (Connection.StartReplication env) as [q [e|z]], meanwhile; go_unfold; cbn in Hstart;
      rewrite ?Hsd in Hstart; try done; injection Hstart as _ <-; cbn; by rewrite Hs3.
  - injection Hstart as _ <-. done.
Qed.

(** C13. The replication never starts after an initial snapshot: the goroutine
    that waits for the shutdown marks the shutdown as requested as soon as it
    runs, and from then on the snapshotting handler's attempt to start the
    replication does nothing, for good. *)
Theorem no_replication_after_snapshot (meanwhile : bool) (initialTables : list SystemEntity) (c c' : channel) :
  StartReplicationChannel meanwhile initialTables NewReplicationChannel = Ret tt c -> snapshotting c <> None ->
  let awaiting := set_goroutine AwaitingShutdown (set_shutdownRequested c) in
  step c awaiting /\ (rtc step awaiting c' -> replicating c' = None).
Proof.
  intros Hstart Hs awaiting. destruct (started_snapshotting _ _ _ _ Hstart) as [Hg Hrep].
  split; [by apply step_goroutine_starts|]. intros Hsteps.
  assert (off c') as (_ & H & _); [|done].
  eapply (rtc_invariant step off); [|apply step_off|exact Hsteps]. split_and!; try done. by apply Hrep.
Qed.

(** The start sequence: with a usable environment the channel creates what is
    missing, and it starts the replication at the restart position at once if no
    snapshot is wanted, or else hands over to the snapshotting; in both cases the
    goroutine for the shutdown is left behind. *)
Theorem start_sequence (initialTables : list SystemEntity) (found : bool) (slot snapshot chosen : string)
    (created : bool) (o : option Offs.Offset) (lsn : Z) :
  connectError env = None -> existsPublication env = inr found ->
  (found = true \/ (publicationCreate env = true /\ fst (createPublication env) = true)) ->
  Connection.CreateReplicationSlot env = inr (slot, snapshot, created) ->
  (initialTables = [] \/ attachTables env = None) ->
  offset env = inr o -> chooseSnapshot o snapshot created = inr chosen ->
  Connection.StartReplication env = (Some lsn, inr lsn) ->
  exists c, StartReplicationChannel false initialTables NewReplicationChannel = Ret tt c /\
    createdPublication c = negb found /\ replicationSlotCreated c = created /\ goroutine c = Spawned /\
    shutdownRequested c = false /\
    (chosen = ""%string -> replicating c = Some lsn /\ positionLSN c = Some lsn /\ snapshotting c = None) /\
    (chosen <> ""%string -> replicating c = None /\ snapshotting c = Some chosen /\ snapshotHandler c = true).
Proof.
  intros Hcon Hex Hpub Hslot Htab Ho Hchoose Hstart. unfold StartReplicationChannel.
  set (c1 := set_created (negb found) false NewReplicationChannel).
  assert (ensurePublication NewReplicationChannel = Ret tt c1) as Hens.
  { unfold ensurePublication. rewrite Hex. go_unfold. destruct found; [done|].
    destruct Hpub as [?|[-> Hc]]; [done|]. cbn. destruct (createPublication env) as [[] ?]; done. }
  rewrite Hcon, (bind_run (mret tt) _ _ _ _ eq_refl), (bind_run _ _ _ _ _ Hens), Hslot, (bind_run (lift_error (inr _)) _ _ (slot, snapshot, created) _ eq_refl).
  cbv beta iota. rewrite (bind_run (modify _) _ _ _ _ eq_refl).
  set (c2 := set_created _ created c1).
  rewrite (bind_run _ _ c2 tt c2) by (destruct Htab as [->| ->]; [done|by destruct initialTables]).
  rewrite Ho, (bind_run (lift_error (inr _)) _ _ o _ eq_refl), Hchoose, (bind_run (lift_error (inr _)) _ _ chosen _ eq_refl).
  destruct (String.eqb_spec chosen "") as [->|Hne].
  - assert (startReplication false c2 = Ret tt (set_replicating lsn (set_position (Some lsn) c2))) as Hrun.
    { unfold startReplication. go_unfold. by rewrite Hstart. }
    rewrite (bind_run _ _ _ _ _ Hrun). eexists. split; [done|]. split_and!; done.
  - rewrite (bind_run (modify _) _ _ _ _ eq_refl). eexists. split; [done|]. split_and!; done.
Qed.
End Env.
End Channel.

(** *** Concrete inputs *)

(** A first start that takes an initial snapshot, and a restart that does not. *)
Definition first_start (mode : InitialSnapshotMode) (slotExists : bool) (o : option Offs.Offset) : environment :=
  mkEnvironment "slot" true true true true mode None 500 (inr o) (inr false) (true, None) (inr slotExists)
    (inr "snapshot-1"%string) None (inr (mkSlotRow "pgoutput" "logical" 90 100)) (None, None, None).

Definition stored_offset : Offs.Offset := Offs.mkOffset 0 false false None 0 None 120.

Lemma restart_position_witness :
  Connection.locateRestartLSN (first_start Never true (Some stored_offset)) = inr 120.
Proof.
  destruct (Connection.restart_position (first_start Never true (Some stored_offset)) (Some stored_offset)
    (mkSlotRow "pgoutput" "logical" 90 100)) as [Huse _].
  - reflexivity.
  - reflexivity.
  - cbn. lia.
  - intros o' [= <-]. cbn. lia.
  - rewrite Huse; [reflexivity|]. right. split; reflexivity.
Defined.

Definition snapshotting_channel : Channel.channel :=
  Channel.mkChannel false false true true true (Some "snapshot-1"%string) None None false Channel.Spawned false false.

Lemma no_replication_after_snapshot_witness :
  let env := first_start InitialOnly false None in
  let c1 := Channel.set_goroutine Channel.AwaitingShutdown (Channel.set_shutdownRequested snapshotting_channel) in
  Channel.StartReplicationChannel env false [] Channel.NewReplicationChannel = Ret tt snapshotting_channel /\
  forall c2, rtc (Channel.step env) c1 c2 -> Channel.replicating c2 = None.
Proof.
  intros env c1. split; [vm_compute; reflexivity|]. intros c2.
  apply (Channel.no_replication_after_snapshot env false [] snapshotting_channel c2); [vm_compute; reflexivity|discriminate].
Defined.

Lemma start_sequence_witness :
  exists c, Channel.StartReplicationChannel (first_start Never true (Some stored_offset)) false [] Channel.NewReplicationChannel
    = Ret tt c /\ Channel.replicating c = Some 120 /\ Channel.snapshotting c = None.
Proof.
  destruct (Channel.start_sequence (first_start Never true (Some stored_offset)) [] false "slot" "" "" false
    (Some stored_offset) 120) as (c & Hrun & _ & _ & _ & _ & Hrep & _); try reflexivity.
  - right. split; reflexivity.
  - left. reflexivity.
  - exists c. split; [exact Hrun|]. destruct (Hrep eq_refl) as (? & _ & ?). split; assumption.
Defined.
