(* ===== verification/TaskManager.v ===== *)
(** * TaskManager: handlers and the dispatcher

    internal/taskmanager/taskmanager.go.  A handler is a pointer; which handler
    interfaces the object behind it implements is a parameter; a task notifies one kind of handler.  The
    slices of handlers are kept as Go keeps them: a backing array and a length,
    because [UnregisterReplicationEventHandler] shifts the array it is ranging
    over.  The dispatcher goroutine is a step relation with the callers of
    [EnqueueTask] and [StopDispatcher]. *)

From Stdlib Require Import ZArith Lia.
From stdpp Require Import base tactics option list numbers strings gmap sets relations.
From S2P Require Import Prelude.

(** The optional handler interfaces. *)
Inductive kind : Set := Catalog | Compression | Record | Logical | Snapshotting.

#[export] Instance kind_eq_dec : EqDecision kind.
Proof. solve_decision. Defined.

(** A handler is its address. *)
Definition handler : Type := positive.

Definition same (a b : handler) : bool := Pos.eqb a b.

(** A slice: the backing array, and how much of it is in use.  [nil] entries are
    [None]. *)
Record slice : Type := mkSlice {
  array : list (option handler);
  len : nat;
}.

Definition in_use (s : slice) : list (option handler) := take (len s) (array s).
Definition handlers_of (s : slice) : list handler := omap (fun c => c) (in_use s).

Definition empty_slice : slice := mkSlice [] 0.

(** [append(s, h)]: in place when there is room, as a fresh array otherwise. *)
Definition append (s : slice) (h : handler) : slice :=
  mkSlice (take (len s) (array s) ++ [Some h] ++ drop (S (len s)) (array s))%list (S (len s)).

Record taskManager : Type := mkManager {
  baseHandlers : slice;
  kindHandlers : kind -> slice;
}.

Definition NewTaskManager : taskManager := mkManager empty_slice (fun _ => empty_slice).

Definition set_kind (k : kind) (s : slice) (m : taskManager) : taskManager :=
  mkManager (baseHandlers m) (fun k' => if decide (k' = k) then s else kindHandlers m k').

Definition contains (h : handler) (s : slice) : bool :=
  existsb (fun c => match c with Some c => same c h | None => false end) (in_use s).

(** The kinds in the order in which the code goes through them. *)
Definition kinds : list kind := [Catalog; Compression; Record; Logical; Snapshotting].

Section Manager.
Context (implements : handler -> kind -> bool).

(** One of the five type assertions; [None]: the function returns early. *)
Definition register_kind (h : handler) (k : kind) (m : taskManager) : option taskManager :=
  if implements h k then
    if contains h (kindHandlers m k) then None
    else Some (set_kind k (append (kindHandlers m k) h) m)
  else Some m.

Fixpoint register_kinds (h : handler) (ks : list kind) (m : taskManager) : taskManager :=
  match ks with
  | [] => m
  | k :: ks' =>
      match register_kind h k m with
      | None => m
      | Some m' => register_kinds h ks' m'
      end
  end.

Definition RegisterReplicationEventHandler (h : handler) (m : taskManager) : taskManager :=
  if contains h (baseHandlers m) then m
  else register_kinds h kinds (mkManager (append (baseHandlers m) h) (kindHandlers m)).

(** [s[index] = nil; s = append(s[:index], s[index+1:]...)]: the tail is moved
    one to the left within the array, whose last element in use stays behind. *)
Definition erase (index : nat) (s : slice) : option slice :=
  if (index <? len s)%nat then
    let nilled := <[ index := None ]> (array s) in
    Some (mkSlice (take index nilled ++ drop (S index) (take (len s) nilled) ++ drop (len s - 1) nilled)%list
                  (len s - 1))
  else None.

(** The loop ranges over the slice as it was: [n] elements of the shared array.
    [None]: an index out of range. *)
Fixpoint unregister_from (h : handler) (index n : nat) (s : slice) : option slice :=
  match n with
  | O => Some s
  | S n' =>
      match array s !! index with
      | Some (Some c) =>
          if same c h then
            match erase index s with
            | Some s' => unregister_from h (S index) n' s'
            | None => None
            end
          else unregister_from h (S index) n' s
      | _ => unregister_from h (S index) n' s
      end
  end.

Definition unregister (h : handler) (s : slice) : option slice := unregister_from h 0 (len s) s.

Fixpoint unregister_kinds (h : handler) (ks : list kind) (m : taskManager) : option taskManager :=
  match ks with
  | [] => Some m
  | k :: ks' =>
      if implements h k then
        s ← unregister h (kindHandlers m k);
        unregister_kinds h ks' (set_kind k s m)
      else unregister_kinds h ks' m
  end.

(** [None]: a panic. *)
Definition UnregisterReplicationEventHandler (h : handler) (m : taskManager) : option taskManager :=
  s ← unregister h (baseHandlers m);
  unregister_kinds h kinds (mkManager s (kindHandlers m)).

End Manager.

(** ** Registration *)

(** A slice that holds the handlers [l]. *)
Definition holds (s : slice) (l : list handler) : Prop :=
  in_use s = map Some l /\ len s = length l /\ (len s <= length (array s))%nat.

Lemma holds_handlers s l : holds s l -> handlers_of s = l.
Proof. intros (H & _ & _). unfold handlers_of. rewrite H. clear H.
  induction l as [|h l IH]; [done|]. cbn. f_equal. exact IH. Qed.

Lemma contains_holds h s l : holds s l -> contains h s = existsb (fun c => same c h) l.
Proof. intros (H & _ & _). unfold contains. rewrite H. clear H.
  induction l as [|c l IH]; [done|]. cbn. f_equal. exact IH. Qed.

Lemma append_holds s l h : holds s l -> holds (append s h) (l ++ [h]).
Proof.
  intros (H & Hl & Hle). unfold holds, append, in_use in *. cbn. split_and!.
  - rewrite take_app_ge by (rewrite length_take; lia). rewrite H, map_app, length_map, <- Hl.
    replace (S (len s) - len s)%nat with 1%nat by lia. done.
  - rewrite length_app. cbn. lia.
  - rewrite length_app, length_take. cbn. rewrite length_drop. lia.
Qed.

Definition without (h : handler) (l : list handler) : list handler := List.filter (fun c => negb (same c h)) l.

(** The range loop over elements that are not [h]. *)
Lemma unregister_pass h s index n :
  (forall j c, (index <= j < index + n)%nat -> array s !! j = Some (Some c) -> same c h = false) ->
  unregister_from h index n s = Some s.
Proof.
  revert index. induction n as [|n IH]; intros index Hnot; [done|]. cbn.
  assert (unregister_from h (S index) n s = Some s) as Hrest.
  { apply IH. intros j c Hj. apply Hnot. lia. }
  destruct (array s !! index) as [[c|]|] eqn:Hc; [|done|done]. by rewrite (Hnot index c) by (done || lia).
Qed.

Lemma array_lookup s l j : holds s l -> (j < length l)%nat -> array s !! j = Some <$> l !! j.
Proof.
  intros (Huse & Hl & _) Hj. rewrite <- (lookup_take_lt (array s) (len s) j) by lia.
  change (take (len s) (array s)) with (in_use s). by rewrite Huse, list_lookup_fmap.
Qed.

(** Erasing an element, and what the range loop still sees behind it. *)
Lemma erase_holds s l index :
  holds s l -> (index < length l)%nat ->
  exists s', erase index s = Some s' /\ holds s' (take index l ++ drop (S index) l) /\
    forall j c, (S index <= j < length l)%nat -> array s' !! j = Some (Some c) -> c ∈ drop (S index) l.
Proof.
  intros Hh Hi. pose proof Hh as (Huse & Hl & Hle). unfold erase.
  assert ((index <? len s)%nat = true) as -> by (apply Nat.ltb_lt; lia).
  set (nilled := <[ index := None ]> (array s)). eexists. split; [done|].
  assert (take index nilled = map Some (take index l)) as Hfirst.
  { unfold nilled. rewrite take_insert_ge by lia.
    assert (array s = map Some l ++ drop (len s) (array s))%list as ->.
    { rewrite <- Huse. unfold in_use. by rewrite take_drop. }
    rewrite take_app_le by (rewrite length_map; lia). by rewrite fmap_take. }
  assert (drop (S index) (take (len s) nilled) = map Some (drop (S index) l)) as Hsecond.
  { unfold nilled. rewrite take_insert_lt by lia. change (take (len s) (array s)) with (in_use s).
    rewrite Huse, drop_insert_lt by lia. by rewrite <- fmap_drop. }
  rewrite Hfirst, Hsecond. rewrite app_assoc, <- map_app.
  set (l' := (take index l ++ drop (S index) l)%list).
  assert (length l' = len s - 1)%nat as Hl'. { unfold l'. rewrite length_app, length_take, length_drop. lia. }
  split.
  - unfold holds, in_use. cbn. split_and!; [|lia|].
    + rewrite take_app_le by (rewrite length_map; lia). apply take_ge. rewrite length_map. lia.
    + rewrite length_app, length_map. lia.
  - intros j c Hj Hc. cbn in Hc. destruct (decide (j < length l')%nat) as [Hlt|Hge].
    + rewrite lookup_app_l, list_lookup_fmap in Hc by (rewrite length_map; lia).
      unfold l' in Hc. rewrite lookup_app_r in Hc by (rewrite length_take; lia).
      destruct (drop (S index) l !! _) as [c'|] eqn:E; [|done]. injection Hc as <-. by eapply list_elem_of_lookup_2.
    + assert (j = len s - 1)%nat as -> by lia.
      rewrite lookup_app_r in Hc by (rewrite length_map; lia). rewrite length_map, Hl', Nat.sub_diag, lookup_drop in Hc.
      rewrite Nat.add_0_r in Hc. unfold nilled in Hc. rewrite list_lookup_insert_ne in Hc by lia.
      rewrite (array_lookup s l) in Hc by (done || lia).
      destruct (l !! (len s - 1)%nat) as [c'|] eqn:E; [|done]. injection Hc as <-.
      apply (list_elem_of_lookup_2 _ (len s - 1 - S index)). rewrite lookup_drop. rewrite <- E. f_equal. lia.
Qed.

Lemma without_none h l : (forall c, c ∈ l -> same c h = false) -> without h l = l.
Proof.
  intros Hn. unfold without. induction l as [|c l IH]; [done|]. cbn. rewrite (Hn c) by (by left). cbn. f_equal.
  apply IH. intros c' Hc'. apply Hn. by right.
Qed.

Lemma without_app h l1 l2 : without h (l1 ++ l2) = (without h l1 ++ without h l2)%list.
Proof. apply List.filter_app. Qed.

Lemma unregister_from_holds h s l index n :
  holds s l -> NoDup l -> (index + n)%nat = length l ->
  (forall c, c ∈ take index l -> same c h = false) ->
  exists s', unregister_from h index n s = Some s' /\ holds s' (without h l).
Proof.
  revert index. induction n as [|n IH]; intros index Hh Hnd Hlen Hpre.
  - exists s. split; [done|]. rewrite without_none; [done|]. by rewrite take_ge in Hpre by lia.
  - cbn. destruct (lookup_lt_is_Some_2 l index ltac:(lia)) as [c Hc]. rewrite (array_lookup s l) by (done || lia).
    rewrite Hc. cbn. destruct (same c h) eqn:Hsame.
    + destruct (erase_holds s l index Hh ltac:(lia)) as (s' & -> & Hh' & Hstale).
      assert (forall c', c' ∈ drop (S index) l -> same c' h = false) as Hpost.
      { intros c' Hc'. apply not_true_iff_false. intros Hs. unfold same in *. apply Pos.eqb_eq in Hs, Hsame.
        rewrite <- (take_drop_middle l index c Hc) in Hnd.
        apply NoDup_app in Hnd as (_ & _ & Hnd). apply NoDup_cons in Hnd as [Hnd _]. apply Hnd.
        by rewrite Hsame, <- Hs. }
      exists s'. split.
      * apply unregister_pass. intros j c' Hj Hc'. apply Hpost, (Hstale j); [lia|done].
      * rewrite <- (take_drop_middle l index c Hc), without_app. cbn. rewrite Hsame. cbn.
        rewrite (without_none h (take index l)) by done.
        change (List.filter _ (drop (S index) l)) with (without h (drop (S index) l)).
        by rewrite (without_none h (drop (S index) l)).
    + apply IH; [done|done|lia|]. intros c'. rewrite (take_S_r _ _ _ Hc), elem_of_app, list_elem_of_singleton.
      intros [?| ->]; [by apply Hpre|done].
Qed.

Lemma unregister_holds h s l :
  holds s l -> NoDup l -> exists s', unregister h s = Some s' /\ holds s' (without h l).
Proof.
  intros Hh Hnd. apply unregister_from_holds; [done|done|by destruct Hh as (_ & -> & _)|].
  intros c Hc. cbn in Hc. by apply not_elem_of_nil in Hc.
Qed.

Section Registration.
Context (implements : handler -> kind -> bool).

(** The manager knows the handlers [l], in the order of their registration. *)
Record registered (m : taskManager) (l : list handler) : Prop := {
  reg_base : holds (baseHandlers m) l;
  reg_nodup : NoDup l;
  reg_kind : forall k, holds (kindHandlers m k) (List.filter (fun h => implements h k) l);
}.

Lemma existsb_same h l : existsb (fun c => same c h) l = bool_decide (h ∈ l).
Proof.
  apply eq_bool_prop_intro. rewrite bool_decide_spec. induction l as [|c l IH]; cbn.
  - split; [done|]. apply not_elem_of_nil.
  - rewrite orb_True, IH, elem_of_cons. unfold same. rewrite Is_true_true, Pos.eqb_eq. split; intros [Hx|Hx]; auto.
Qed.

Lemma registered_new : registered NewTaskManager [].
Proof. split; [by split_and!|constructor|]. intros k. by split_and!. Qed.

Lemma set_kind_lookup k k' s m : kindHandlers (set_kind k s m) k' = if decide (k' = k) then s else kindHandlers m k'.
Proof. done. Qed.

(** Registering with the kinds [ks], those before being done. *)
Lemma register_kinds_holds h ks m l :
  NoDup ks -> h ∉ l -> (forall k, k ∈ ks -> holds (kindHandlers m k) (List.filter (fun h => implements h k) l)) ->
  baseHandlers (register_kinds implements h ks m) = baseHandlers m /\
  (forall k, k ∈ ks -> holds (kindHandlers (register_kinds implements h ks m) k)
     (List.filter (fun h => implements h k) (l ++ [h]))) /\
  (forall k, k ∉ ks -> kindHandlers (register_kinds implements h ks m) k = kindHandlers m k).
Proof.
  revert m. induction ks as [|k ks IH]; intros m Hnd Hh Hks.
  - split; [done|]. split; [|done]. intros k Hk. by apply not_elem_of_nil in Hk.
  - apply NoDup_cons in Hnd as [Hk Hnd]. cbn [register_kinds]. unfold register_kind.
    assert (holds (kindHandlers m k) (List.filter (fun h => implements h k) l)) as Hmk by (apply Hks; by left).
    set (m' := if implements h k then set_kind k (append (kindHandlers m k) h) m else m).
    assert (match (if implements h k then
        if contains h (kindHandlers m k) then None else Some (set_kind k (append (kindHandlers m k) h) m)
      else Some m) with None => m | Some m' => register_kinds implements h ks m' end = register_kinds implements h ks m') as ->.
    { unfold m'. destruct (implements h k); [|done]. rewrite (contains_holds _ _ _ Hmk), existsb_same.
      rewrite bool_decide_false; [done|]. intros Hin. apply Hh. apply list_elem_of_In in Hin.
      apply filter_In in Hin as [Hin _]. by apply list_elem_of_In. }
    assert (holds (kindHandlers m' k) (List.filter (fun h => implements h k) (l ++ [h]))) as Hm'k.
    { unfold m'. rewrite List.filter_app. cbn. destruct (implements h k); cbn.
      - rewrite decide_True by done. by apply append_holds.
      - by rewrite app_nil_r. }
    assert (forall k', k' <> k -> kindHandlers m' k' = kindHandlers m k') as Hother.
    { intros k' Hne. unfold m'. destruct (implements h k); [|done]. cbn. by rewrite decide_False. }
    destruct (IH m') as (Hb & Hin & Hout); [done|done| |].
    + intros k' Hk'. rewrite Hother by (intros ->; done). apply Hks. by right.
    + split_and!.
      * rewrite Hb. unfold m'. by destruct (implements h k).
      * intros k'. rewrite elem_of_cons. intros [->|Hk']; [|by apply Hin]. by rewrite Hout.
      * intros k'. rewrite not_elem_of_cons. intros [Hne Hk']. rewrite Hout by done. by apply Hother.
Qed.

Lemma kinds_all k : k ∈ kinds.
Proof. destruct k; unfold kinds; rewrite !elem_of_cons; tauto. Qed.

Lemma kinds_nodup : NoDup kinds.
Proof. apply (bool_decide_eq_true_1 (NoDup kinds)). vm_compute. reflexivity. Qed.

Lemma register_registered h m l :
  registered m l -> registered (RegisterReplicationEventHandler implements h m) (if decide (h ∈ l) then l else l ++ [h]).
Proof.
  intros [Hb Hnd Hk]. unfold RegisterReplicationEventHandler. rewrite (contains_holds _ _ _ Hb), existsb_same.
  case_decide as Hin; [by rewrite bool_decide_true|]. rewrite bool_decide_false by done.
  destruct (register_kinds_holds h kinds (mkManager (append (baseHandlers m) h) (kindHandlers m)) l)
    as (Hbase & Hkinds & _); [apply kinds_nodup|done|intros k _; apply Hk|].
  split.
  - rewrite Hbase. by apply append_holds.
  - apply NoDup_app. split; [done|]. split; [|apply NoDup_singleton]. intros x Hx.
    rewrite list_elem_of_singleton. by intros ->.
  - intros k. apply Hkinds, kinds_all.
Qed.

Lemma unregister_kinds_holds h ks m l :
  NoDup ks -> NoDup l -> (forall k, k ∈ ks -> holds (kindHandlers m k) (List.filter (fun h => implements h k) l)) ->
  exists m', unregister_kinds implements h ks m = Some m' /\ baseHandlers m' = baseHandlers m /\
  (forall k, k ∈ ks -> holds (kindHandlers m' k) (List.filter (fun h => implements h k) (without h l))) /\
  (forall k, k ∉ ks -> kindHandlers m' k = kindHandlers m k).
Proof.
  revert m. induction ks as [|k ks IH]; intros m Hnd Hl Hks.
  - exists m. split_and!; [done..| |done]. intros k Hk. by apply not_elem_of_nil in Hk.
  - apply NoDup_cons in Hnd as [Hk Hnd]. cbn [unregister_kinds].
    assert (holds (kindHandlers m k) (List.filter (fun h => implements h k) l)) as Hmk by (apply Hks; by left).
    assert (forall f : handler -> bool, without h (List.filter f l) = List.filter f (without h l)) as Hcomm.
    { intros f. unfold without. clear. induction l as [|c l IH]; [done|]. cbn.
      destruct (f c) eqn:Hf, (same c h) eqn:Hs; cbn; rewrite ?Hf, ?Hs; cbn; by rewrite ?IH. }
    assert (exists m1, (if implements h k then s ← unregister h (kindHandlers m k);
        unregister_kinds implements h ks (set_kind k s m) else unregister_kinds implements h ks m)
        = unregister_kinds implements h ks m1 /\ baseHandlers m1 = baseHandlers m /\
        holds (kindHandlers m1 k) (List.filter (fun h => implements h k) (without h l)) /\
        (forall k', k' <> k -> kindHandlers m1 k' = kindHandlers m k')) as (m1 & -> & Hb1 & Hk1 & Ho1).
    { destruct (implements h k) eqn:Himp.
      - destruct (unregister_holds h _ _ Hmk) as (s' & -> & Hs'); [by apply NoDup_ListNoDup, List.NoDup_filter, NoDup_ListNoDup|].
        exists (set_kind k s' m). split; [done|]. split; [done|]. cbn. rewrite decide_True by done.
        split; [by rewrite <- Hcomm|]. intros k' Hne. by rewrite decide_False.
      - exists m. split_and!; [done..| |done]. rewrite <- Hcomm, without_none; [done|].
        intros c Hc. apply list_elem_of_In, filter_In in Hc as [_ Hc]. apply not_true_iff_false. intros Hs.
        apply Pos.eqb_eq in Hs as ->. congruence. }
    destruct (IH m1) as (m' & Hrun & Hb & Hin & Hout); [done|done| |].
    + intros k' Hk'. rewrite Ho1 by (intros ->; done). apply Hks. by right.
    + exists m'. split_and!; [done|congruence| |].
      * intros k'. rewrite elem_of_cons. intros [->|Hk']; [by rewrite Hout|by apply Hin].
      * intros k'. rewrite not_elem_of_cons. intros [Hne Hk']. rewrite Hout by done. by apply Ho1.
Qed.

Lemma unregister_registered h m l :
  registered m l -> exists m', UnregisterReplicationEventHandler implements h m = Some m' /\ registered m' (without h l).
Proof.
  intros [Hb Hnd Hk]. unfold UnregisterReplicationEventHandler.
  destruct (unregister_holds h _ _ Hb Hnd) as (s & -> & Hs). cbn [mbind option_bind].
  destruct (unregister_kinds_holds h kinds (mkManager s (kindHandlers m)) l) as (m' & -> & Hb' & Hk' & _);
    [apply kinds_nodup|done|intros k _; apply Hk|].
  exists m'. split; [done|]. split; [by rewrite Hb'| |intros k; apply Hk', kinds_all].
  by apply NoDup_ListNoDup, List.NoDup_filter, NoDup_ListNoDup.
Qed.

(** Registrations and their reversals, in any order. *)
Inductive operation : Type := Register (h : handler) | Unregister (h : handler).

Fixpoint run (ops : list operation) (m : taskManager) : option taskManager :=
  match ops with
  | [] => Some m
  | Register h :: ops' => run ops' (RegisterReplicationEventHandler implements h m)
  | Unregister h :: ops' => m' ← UnregisterReplicationEventHandler implements h m; run ops' m'
  end.

(** The handlers that should be known, in the order of their registration. *)
Fixpoint known (ops : list operation) (l : list handler) : list handler :=
  match ops with
  | [] => l
  | Register h :: ops' => known ops' (if decide (h ∈ l) then l else l ++ [h])%list
  | Unregister h :: ops' => known ops' (without h l)
  end.

Lemma run_registered ops m l :
  registered m l -> exists m', run ops m = Some m' /\ registered m' (known ops l).
Proof.
  revert m l. induction ops as [|[h|h] ops IH]; intros m l Hreg; cbn; [eauto| |].
  - by apply IH, register_registered.
  - destruct (unregister_registered h m l Hreg) as (m' & -> & Hreg'). cbn. by apply IH.
Qed.

(** Registration: after any sequence of registrations and unregistrations
    (which shift the slices they range over in place) nothing has panicked, every
    handler that is still registered is known exactly once, in the order of
    registration, and each kind of event goes exactly to the registered handlers
    that implement it. *)
Theorem handlers_registered (ops : list operation) :
  exists m, run ops NewTaskManager = Some m /\
    handlers_of (baseHandlers m) = known ops [] /\ NoDup (known ops []) /\
    forall k, handlers_of (kindHandlers m k) = List.filter (fun h => implements h k) (known ops []).
Proof.
  destruct (run_registered ops NewTaskManager [] registered_new) as (m & Hrun & [Hb Hnd Hk]).
  exists m. split; [done|]. split; [by apply holds_handlers|]. split; [done|].
  intros k. by apply holds_handlers.
Qed.
End Registration.

(** ** Notification *)

Section Notification.
Context {W : Type}.

(** [Notify...EventHandler] of the dispatcher's notificator: errors are logged. *)
Definition notify (hs : list handler) (fn : handler -> G W unit) : G W unit :=
  forM hs (fun h => catch (fn h) ;; mret tt).

(** The error that [RunTask]'s notificator keeps.  [is_error] is the assertion that
    the error is an [*errors.Error]; if it is not, the assertion's variable is
    nil, and it is this nil that is wrapped: [wrap_nil] is what [errors.Wrap]
    makes of it, [None] being a nil pointer. *)
Context (is_error : string -> bool) (wrap_nil : option string).

Definition handleError (err : string) : option string :=
  if is_error err then Some err else wrap_nil.

(** The same for the notificator of [RunTask], which keeps the errors. *)
Fixpoint notify_immediate (hs : list handler) (fn : handler -> G W unit) : G W (list (option string)) :=
  match hs with
  | [] => mret []
  | h :: hs' =>
      r ← catch (fn h);
      errors ← notify_immediate hs' fn;
      mret (match r with inl e => handleError e :: errors | inr _ => errors end)
  end.

(** [join] is errors.Join of the standard library; a nil pointer in the list is
    an error for it like any other. *)
Definition RunTask (join : list (option string) -> string) (hs : list handler) (fn : handler -> G W unit)
    : G W unit :=
  errors ← notify_immediate hs fn;
  match errors with
  | [] => mret tt
  | _ => fail (join errors)
  end.

(** The errors of the handlers, each called in the state the ones before it leave. *)
Fixpoint failures (after : handler -> W -> W) (error : handler -> W -> option string) (hs : list handler) (w : W)
    : list string :=
  match hs with
  | [] => []
  | h :: hs' => (match error h w with Some e => [e] | None => [] end ++ failures after error hs' (after h w))%list
  end.

(** A failing handler does not keep an event from the others: whatever errors
    the handlers return, the dispatcher's notification and the immediate one
    leave the state in which every handler was called once, in order.  The
    immediate one fails exactly if some handler failed, with one entry for each
    failure, but an error that is no [*errors.Error] is replaced by what wrapping
    a nil pointer gives, so its text does not reach the caller. *)
Theorem every_handler_notified (join : list (option string) -> string) (hs : list handler) (fn : handler -> G W unit)
    (after : handler -> W -> W) (error : handler -> W -> option string) (w : W) :
  (forall h w, fn h w = match error h w with Some e => Err e (after h w) | None => Ret tt (after h w) end) ->
  let final := fold_left (fun w h => after h w) hs w in
  let failed := failures after error hs w in
  notify hs fn w = Ret tt final /\
  RunTask join hs fn w =
    match failed with
    | [] => Ret tt final
    | _ => Err (join ((fun e => if is_error e then Some e else wrap_nil) <$> failed)) final
    end.
Proof.
  intros Hfn final failed. split.
  - unfold notify. rewrite (forM_fold (fun h w => after h w)); [done|].
    intros h w' _. unfold catch, mbind, G_bind. rewrite Hfn. by destruct (error h w').
  - assert (notify_immediate hs fn w = Ret (handleError <$> failed) final) as Hrun.
    { unfold final, failed. clear final failed. revert w. induction hs as [|h hs IH]; intros w; [done|].
      cbn [notify_immediate failures fold_left]. unfold catch at 1. unfold mbind at 1, G_bind at 1. rewrite Hfn.
      destruct (error h w); by rewrite (bind_run _ _ _ _ _ (IH _)). }
    unfold RunTask. rewrite (bind_run _ _ _ _ _ Hrun). by destruct failed.
Qed.
End Notification.

(** ** The dispatcher *)

Section Dispatcher.
Context {T : Type}.

Record dispatcher : Type := mkDispatcher {
  accepted : list T;
  taskQueue : list T;
  ran : list T;
  shutdownActive : bool;
  signalled : bool;
  finished : bool;
}.

Definition NewDispatcher : dispatcher := mkDispatcher [] [] [] false false false.

(** [EnqueueTask], with the history of what was accepted. *)
Definition EnqueueTask (t : T) (d : dispatcher) : string + dispatcher :=
  if shutdownActive d then inl "shutdown active, draining only"%string
  else inr (mkDispatcher (accepted d ++ [t]) (taskQueue d ++ [t]) (ran d) false (signalled d) (finished d)).

(** [StopDispatcher] is not atomic: the flag, then the signal. *)
Definition refuse (d : dispatcher) : dispatcher :=
  mkDispatcher (accepted d) (taskQueue d) (ran d) true (signalled d) (finished d).
Definition signal (d : dispatcher) : dispatcher :=
  mkDispatcher (accepted d) (taskQueue d) (ran d) (shutdownActive d) true (finished d).

(** The goroutine of [StartDispatcher]: when the shutdown is signalled and a task
    is there, the select takes either. *)
Inductive step : dispatcher -> dispatcher -> Prop :=
| step_enqueue t d d' : EnqueueTask t d = inr d' -> step d d'
| step_refuse d : step d (refuse d)
| step_signal d : shutdownActive d = true -> step d (signal d)
| step_task t q d : finished d = false -> taskQueue d = t :: q ->
    step d (mkDispatcher (accepted d) q (ran d ++ [t]) (shutdownActive d) (signalled d) (finished d))
| step_finish d : finished d = false -> signalled d = true ->
    step d (mkDispatcher (accepted d) (taskQueue d) (ran d) (shutdownActive d) (signalled d) true).

Record dispatcher_inv (d : dispatcher) : Prop := {
  di_fifo : accepted d = (ran d ++ taskQueue d)%list;
  di_finished : finished d = true -> signalled d = true;
  di_signalled : signalled d = true -> shutdownActive d = true;
}.

Lemma step_inv d d' : dispatcher_inv d -> step d d' -> dispatcher_inv d'.
Proof.
  intros [Hf Hfin Hsig] Hstep. destruct Hstep as [t d d' He|d|d Hs|t q d Hnf Hq|d Hnf Hs].
  - unfold EnqueueTask in He. destruct (shutdownActive d) eqn:Hs; [done|]. injection He as <-. split; cbn.
    + by rewrite Hf, app_assoc.
    + done.
    + intros Hx. specialize (Hsig Hx). congruence.
  - by split.
  - by split.
  - split; cbn; [|done|done]. rewrite Hf, Hq. by rewrite <- app_assoc.
  - split; cbn; auto.
Qed.

(** The dispatcher runs the accepted tasks in order, each at most once, and
    nothing is lost or made up on the way: what ran followed by what is queued
    is what was accepted; after the dispatcher has finished no further task is
    accepted or run, although tasks that were accepted before may still be in
    the queue. *)
Theorem dispatcher_fifo (d d' : dispatcher) :
  rtc step NewDispatcher d -> rtc step d d' ->
  accepted d = (ran d ++ taskQueue d)%list /\
  (finished d = true -> ran d' = ran d /\ accepted d' = accepted d /\ taskQueue d' = taskQueue d).
Proof.
  intros Hreach Hsteps.
  assert (dispatcher_inv d) as Hinv.
  { apply (rtc_invariant step dispatcher_inv NewDispatcher d); [by constructor; cbn| |exact Hreach]. intros a b. apply step_inv. }
  split; [apply Hinv|]. intros Hfin.
  assert (finished d' = true /\ shutdownActive d' = true /\ ran d' = ran d /\ accepted d' = accepted d /\
    taskQueue d' = taskQueue d) as (_ & _ & ?); [|done].
  apply (rtc_invariant step (fun x => finished x = true /\ shutdownActive x = true /\ ran x = ran d /\
    accepted x = accepted d /\ taskQueue x = taskQueue d) d d'); [| |exact Hsteps].
  - split_and!; try done. by apply Hinv, Hinv.
  - intros a b (Ha1 & Ha2 & Ha3 & Ha4 & Ha5) Hab. destruct Hab as [t x x' He|x|x Hs|t q x Hnf Hq|x Hnf Hs].
    + unfold EnqueueTask in He. by rewrite Ha2 in He.
    + by split_and!.
    + by split_and!.
    + congruence.
    + congruence.
Qed.
End Dispatcher.

(** *** Concrete inputs *)

Lemma every_handler_notified_witness :
  let fn (h : handler) : G (list handler) unit := fun w => if Pos.eqb h 2 then Err "e" (h :: w) else Ret tt (h :: w) in
  let join (es : list (option string)) := match es with [None] => "a nil error"%string | _ => "other"%string end in
  notify [1; 2; 3]%positive fn [] = Ret tt [3; 2; 1]%positive /\
  RunTask (fun _ => false) None join [1; 2; 3]%positive fn [] = Err "a nil error" [3; 2; 1]%positive.
Proof.
  intros fn join.
  apply (every_handler_notified (fun _ => false) None join [1; 2; 3]%positive fn (fun h w => h :: w)
    (fun h _ => if Pos.eqb h 2 then Some "e"%string else None) []).
  intros h w. unfold fn. by destruct (Pos.eqb h 2).
Defined.

(** A task is accepted, and the shutdown is taken before it. *)
Definition left_behind : dispatcher (T := nat) := mkDispatcher [7] [7] [] true true true.

Lemma dispatcher_fifo_witness :
  accepted left_behind = (ran left_behind ++ taskQueue left_behind)%list /\
  forall d', rtc step left_behind d' -> ran d' = [] /\ taskQueue d' = [7].
Proof.
  assert (rtc step NewDispatcher left_behind) as Hreach.
  { eapply rtc_l; [by apply (step_enqueue 7)|]. eapply rtc_l; [apply step_refuse|].
    eapply rtc_l; [by apply step_signal|]. apply rtc_once. by apply step_finish. }
  split; [exact (proj1 (dispatcher_fifo left_behind left_behind Hreach (rtc_refl _ _)))|].
  intros d' Hd'. destruct (dispatcher_fifo left_behind d' Hreach Hd') as [_ Hfin].
  destruct (Hfin eq_refl) as (H1 & _ & H3). split; assumption.
Defined.
