(* ===== verification/Replicator.v ===== *)
(** * Replicator: start, stop and what goes into the publication

    internal/replication/replicator.go: the tables known at shutdown are encoded
    into the state storage, and at the next start they decide which tables are
    added to the publication; the replica identities of all tables are checked;
    the services are stopped in the reverse order of their start. *)

From Stdlib Require Import ZArith Lia.
From stdpp Require Import base tactics option list numbers strings gmap.
From S2P Require Import Prelude Encoding Entities Values Messages.

Local Open Scope Z_scope.

Definition esPreviouslyKnownChunks : string := "::previously::known::chunks".
Definition esPreviouslyKnownTables : string := "::previously::known::tables".

(** ** Known tables *)

Definition encodeEntity (e : SystemEntity) : G bytes unit :=
  PutString (SchemaName e) ;; PutString (TableName e).

Definition encodeKnownTables (chunks : list SystemEntity) : G bytes unit :=
  PutUint32 (u32 (Z.of_nat (length chunks))) ;; forM chunks encodeEntity.

Definition decodeEntity : G bytes SystemEntity :=
  schemaName ← ReadString;
  tableName ← ReadString;
  mret (NewSystemEntity schemaName tableName).

Fixpoint decodeEntities (n : nat) : G bytes (list SystemEntity) :=
  match n with
  | O => mret []
  | S n' =>
      e ← decodeEntity;
      es ← decodeEntities n';
      mret (e :: es)
  end.

Definition decodeKnownTables : G bytes (list SystemEntity) :=
  numOfChunks ← ReadUint32;
  decodeEntities (Z.to_nat numOfChunks).

Definition named_in (l : list SystemEntity) (e : SystemEntity) : bool :=
  existsb (fun other => String.eqb (CanonicalName e) (CanonicalName other)) l.

(** [getKnownChunks] and [getKnownVanillaTables] differ in the state they look
    at: the candidates of the last run that still exist, or all if there was no
    last run. *)
Definition getKnown (state : option bytes) (all : list SystemEntity) : crash + (string + list SystemEntity) :=
  match state with
  | None => inr (inr all)
  | Some data =>
      match decodeKnownTables data with
      | Ret candidates _ => inr (inr (List.filter (named_in all) candidates))
      | Err e _ => inr (inl e)
      | Crash c => inl c
      end
  end.

Definition getKnownChunks (encodedState : string -> option bytes) (allChunks : list SystemEntity) :=
  getKnown (encodedState esPreviouslyKnownChunks) allChunks.
Definition getKnownVanillaTables (encodedState : string -> option bytes) (allTables : list SystemEntity) :=
  getKnown (encodedState esPreviouslyKnownTables) allTables.

Definition internal_schema (e : SystemEntity) : bool := String.eqb (SchemaName e) "_timescaledb_internal".
Definition catalog_schema (e : SystemEntity) : bool := String.eqb (SchemaName e) "_timescaledb_catalog".

Definition collectChunksForPublication (encodedState : string -> option bytes)
    (allChunks publishedTables : list SystemEntity) : crash + (string + list SystemEntity) :=
  r ← getKnownChunks encodedState allChunks;
  mret (match r with
        | inl e => inl e
        | inr allKnownTables =>
            inr (List.filter (fun e => negb (named_in (List.filter internal_schema publishedTables) e)) allKnownTables)
        end).

Definition collectVanillaTablesForPublication (encodedState : string -> option bytes)
    (allTables publishedTables : list SystemEntity) : crash + (string + list SystemEntity) :=
  r ← getKnownVanillaTables encodedState allTables;
  mret (match r with
        | inl e => inl e
        | inr allKnownTables =>
            inr (List.filter (fun e => negb (named_in
                   (List.filter (fun e => negb (internal_schema e) && negb (catalog_schema e)) publishedTables) e))
                 allKnownTables)
        end).

(** ** Replica identities *)

Definition FULL : string := "f".
Definition INDEX : string := "i".

(** The issue of one table, by what is wrong with it. *)
Inductive issue : Type := NoValidIndex (name : string) | NoPrimaryKey (name : string).

Definition checkTable (t : baseTable) : option issue :=
  if String.eqb (BaseTable.replicaIdentity t) FULL then None
  else if String.eqb (BaseTable.replicaIdentity t) INDEX && negb (Cols.HasReplicaIdentity (BaseTable.columns t))
  then Some (NoValidIndex (CanonicalName (BaseTable.entity t)))
  else if Cols.HasPrimaryKey (BaseTable.columns t) then None
  else Some (NoPrimaryKey (CanonicalName (BaseTable.entity t))).

Definition checkReplicaIdentities (hypertables : list Hypertable) (vanillaTables : list PgTable) : list issue :=
  (omap (fun h => if Hyper.IsContinuousAggregate h then None else checkTable (Hyper.table h)) hypertables ++
   omap (fun t => checkTable (Vanilla.table t)) vanillaTables)%list.

(** ** Shutdown *)

(** [StopReplication]: every task runs, the last one first; the errors are
    collected. *)
Fixpoint stop_tasks {W} (tasks : list (G W unit)) : G W (list string) :=
  match tasks with
  | [] => mret []
  | t :: ts =>
      r ← catch t;
      errors ← stop_tasks ts;
      mret (match r with inl e => e :: errors | inr _ => errors end)
  end.

Definition StopReplication {W} (shutdownTasks : list (G W unit)) : G W (list string) :=
  stop_tasks (rev shutdownTasks).

(** ** Theorems *)

Definition entity_ok (e : SystemEntity) : Prop :=
  encodable (length (bytes_of (SchemaName e))) /\ encodable (length (bytes_of (TableName e))).

Definition enc_entity (e : SystemEntity) : bytes := (enc_string (SchemaName e) ++ enc_string (TableName e))%list.

Lemma writes_entity e : writes (encodeEntity e) (enc_entity e).
Proof. apply writes_seq; apply writes_string. Qed.

Lemma reads_entity e : entity_ok e -> reads decodeEntity (enc_entity e) e.
Proof.
  intros [Hs Ht]. eapply reads_bind; [by apply reads_string|].
  rewrite <- (app_nil_r (enc_string (TableName e))). eapply reads_bind; [by apply reads_string|].
  destruct e. apply reads_ret.
Qed.

Lemma reads_entities es : Forall entity_ok es -> reads (decodeEntities (length es)) (concat (enc_entity <$> es)) es.
Proof.
  induction 1 as [|e es He _ IH]; [apply reads_ret|]. cbn [length decodeEntities fmap list_fmap concat].
  eapply reads_bind; [by apply reads_entity|]. rewrite <- (app_nil_r (concat _)).
  eapply reads_bind; [exact IH|]. apply reads_ret.
Qed.

(** The encoded form of known tables decodes to them. *)
Lemma known_tables_roundtrip es :
  Forall entity_ok es -> encodable (length es) ->
  exists enc, encodeKnownTables es [] = Ret tt enc /\ decodeKnownTables enc = Ret es [].
Proof.
  intros Hok Hlen. exists (be_put 4 (Z.of_nat (length es)) ++ concat (enc_entity <$> es))%list. split.
  - apply writes_run. apply writes_seq.
    + rewrite <- (be_put_wrapu 4). apply writes_write.
    + apply writes_forM. intros e _. apply writes_entity.
  - apply reads_run. eapply reads_bind; [apply reads_uint32_small; unfold in_u; unfold encodable in Hlen; lia|].
    rewrite Nat2Z.id. by apply reads_entities.
Qed.

(** Tables of the publication that are no part of TimescaleDB. *)
Definition plain_tables (l : list SystemEntity) : list SystemEntity :=
  List.filter (fun e => negb (internal_schema e) && negb (catalog_schema e)) l.

Lemma filter_filter_and (f g : SystemEntity -> bool) l :
  List.filter g (List.filter f l) = List.filter (fun e => f e && g e) l.
Proof. induction l as [|e l IH]; [done|]. cbn. destruct (f e); cbn; by rewrite IH. Qed.

(** What a restart adds to the publication is decided by the tables known at
    the last shutdown: those that were stored then, still exist and are not
    published yet, for chunks and for plain tables alike.  So a plain table that
    appeared in between is never added (chunks announce themselves in the
    stream). *)
Theorem publication_after_restart (known all published : list SystemEntity) (encodedState : string -> option bytes) :
  Forall entity_ok known -> encodable (length known) ->
  exists enc, encodeKnownTables known [] = Ret tt enc /\
    (encodedState esPreviouslyKnownTables = Some enc ->
       collectVanillaTablesForPublication encodedState all published =
         inr (inr (List.filter (fun e => named_in all e && negb (named_in (plain_tables published) e)) known))) /\
    (encodedState esPreviouslyKnownChunks = Some enc ->
       collectChunksForPublication encodedState all published =
         inr (inr (List.filter (fun e => named_in all e &&
           negb (named_in (List.filter internal_schema published) e)) known))) /\
    (encodedState esPreviouslyKnownTables = Some enc -> forall e added, e ∉ known ->
       collectVanillaTablesForPublication encodedState all published = inr (inr added) -> e ∉ added).
Proof.
  intros Hok Hlen. destruct (known_tables_roundtrip known Hok Hlen) as (enc & Henc & Hdec).
  exists enc. split; [done|].
  assert (getKnown (Some enc) all = inr (inr (List.filter (named_in all) known))) as Hget.
  { unfold getKnown. by rewrite Hdec. }
  assert (encodedState esPreviouslyKnownTables = Some enc ->
       collectVanillaTablesForPublication encodedState all published =
         inr (inr (List.filter (fun e => named_in all e && negb (named_in (plain_tables published) e)) known))) as Hv.
  { intros Hst. unfold collectVanillaTablesForPublication, getKnownVanillaTables. rewrite Hst, Hget.
    rewrite (pure_run _ _ _ eq_refl). unfold mret, pure_ret. by rewrite filter_filter_and. }
  split; [done|]. split.
  - intros Hst. unfold collectChunksForPublication, getKnownChunks. rewrite Hst, Hget.
    rewrite (pure_run _ _ _ eq_refl). unfold mret, pure_ret. by rewrite filter_filter_and.
  - intros Hst e added Hnew. rewrite (Hv Hst). intros [= <-] Hin. apply Hnew.
    apply list_elem_of_In, filter_In in Hin as [Hin _]. by apply list_elem_of_In.
Qed.

(** The check of the replica identities: a table passes exactly if its
    identity is FULL, or it has a primary key and is not set to an index that is
    not there; so a table with a valid replica identity index but without a
    primary key is refused, as if its identity were the default. *)
Theorem replica_identity_check (t : baseTable) :
  let columns := BaseTable.columns t in
  (checkTable t = None <->
     BaseTable.replicaIdentity t = FULL \/
     (Cols.HasPrimaryKey columns = true /\
      (BaseTable.replicaIdentity t = INDEX -> Cols.HasReplicaIdentity columns = true))) /\
  (BaseTable.replicaIdentity t = INDEX -> Cols.HasReplicaIdentity columns = true ->
   Cols.HasPrimaryKey columns = false -> checkTable t = Some (NoPrimaryKey (CanonicalName (BaseTable.entity t)))).
Proof.
  intros columns. unfold checkTable. fold columns. split.
  - destruct (String.eqb_spec (BaseTable.replicaIdentity t) FULL) as [->|Hf]; [tauto|].
    destruct (String.eqb_spec (BaseTable.replicaIdentity t) INDEX) as [Hi|Hi]; cbn [andb].
    + destruct (Cols.HasReplicaIdentity columns) eqn:Hr, (Cols.HasPrimaryKey columns) eqn:Hp; cbn;
        split; try done; try (intros _; right; by split); intros [?|[? Hx]]; try done. by specialize (Hx Hi).
    + destruct (Cols.HasPrimaryKey columns) eqn:Hp; split; try done; [intros _; right; by split|].
      by intros [?|[? _]].
  - intros -> -> ->. done.
Qed.

(** The shutdown is complete and in reverse order: every shutdown task runs,
    the last registered first, whatever errors the others return, and exactly the
    errors are reported. *)
Theorem shutdown_in_reverse {W} (tasks : list (G W unit)) (after : G W unit -> W -> W)
    (error : G W unit -> W -> option string) (w : W) :
  (forall t w, t ∈ tasks -> t w = match error t w with Some e => Err e (after t w) | None => Ret tt (after t w) end) ->
  exists errors, StopReplication tasks w = Ret errors (foldr (fun t w => after t w) w tasks) /\
    (errors = [] <-> forall l1 t l2, tasks = (l1 ++ t :: l2)%list ->
       error t (foldr (fun t w => after t w) w l2) = None).
Proof.
  unfold StopReplication. revert w. induction tasks as [|t tasks IH] using rev_ind; intros w Hrun.
  - exists []. split; [done|]. split; [|done]. intros _ [|? ?] ? ? [=].
  - rewrite rev_app_distr. cbn [rev app].
    destruct (IH (after t w)) as (errors & Hstop & Herr).
    { intros u w' Hu. apply Hrun. rewrite elem_of_app. by left. }
    exists (match error t w with Some e => e :: errors | None => errors end).
    assert (t w = match error t w with Some e => Err e (after t w) | None => Ret tt (after t w) end) as Ht.
    { apply Hrun. rewrite elem_of_app. right. by left. }
    split.
    + cbn [stop_tasks]. unfold catch, mbind, G_bind. rewrite Ht, foldr_app. cbn [foldr].
      destruct (error t w); by rewrite Hstop.
    + destruct (error t w) as [e|] eqn:He.
      * split; [done|]. intros Hall. specialize (Hall tasks t [] eq_refl). cbn in Hall. congruence.
      * rewrite Herr. split.
        -- intros Hall l1 u l2 Heq. destruct l2 as [|x l2' _] using rev_ind.
           ++ apply app_inj_tail in Heq as [_ <-]. done.
           ++ rewrite app_comm_cons, app_assoc in Heq. apply app_inj_tail in Heq as [Heq <-].
              rewrite foldr_app. cbn. by eapply Hall.
        -- intros Hall l1 u l2 Heq. specialize (Hall l1 u (l2 ++ [t])%list).
           rewrite foldr_app in Hall. apply Hall. by rewrite Heq, <- app_assoc.
Qed.

(** *** Concrete inputs *)

Lemma publication_after_restart_witness :
  let a := NewSystemEntity "public" "a" in
  let b := NewSystemEntity "public" "b" in
  exists enc, encodeKnownTables [a] [] = Ret tt enc /\
    forall added, collectVanillaTablesForPublication
      (fun name => if String.eqb name esPreviouslyKnownTables then Some enc else None) [a; b] [] = inr (inr added) ->
    b ∉ added.
Proof.
  intros a b.
  assert (Forall entity_ok [a]) as Hok by (repeat constructor).
  assert (encodable (length [a])) as Hlen by (vm_compute; reflexivity).
  destruct (known_tables_roundtrip [a] Hok Hlen) as (enc & Henc & _).
  destruct (publication_after_restart [a] [a; b] []
    (fun name => if String.eqb name esPreviouslyKnownTables then Some enc else None) Hok Hlen)
    as (enc' & Henc' & _ & _ & Hnew).
  exists enc. split; [exact Henc|]. intros added Hadd.
  rewrite Henc' in Henc. injection Henc as <-. apply (Hnew eq_refl b added); [|exact Hadd].
  intros Hin. apply list_elem_of_singleton in Hin. discriminate Hin.
Defined.

Lemma shutdown_in_reverse_witness :
  let t (n : Z) : G (list Z) unit := fun w => if n =? 2 then Err "e" (n :: w) else Ret tt (n :: w) in
  exists errors, StopReplication [t 1; t 2; t 3] [] = Ret errors [1; 2; 3].
Proof.
  intros t.
  destruct (shutdown_in_reverse [t 1; t 2; t 3]
    (fun t w => match t w with Ret _ w' | Err _ w' => w' | Crash _ => w end)
    (fun t w => match t w with Err e _ => Some e | _ => None end) []) as (errors & Hrun & _).
  - intros u w Hu. rewrite !elem_of_cons in Hu.
    destruct Hu as [->|[->|[->|Hu%not_elem_of_nil]]]; [reflexivity..|done].
  - exists errors. exact Hrun.
Defined.
