(* ===== verification/TableFilter.v ===== *)
(** * TableFilter: which tables are replicated

    internal/systemcatalog/tablefiltering/tablefilter.go and pgkeywords.go: the
    include and exclude patterns of the configuration and the cached decision for
    a table.

    A Go string is a sequence of bytes, [codes]; [[]rune(s)] is [runes], and what
    strings.Builder collects rune by rune is encoded again by [utf8].  For the
    ASCII characters the classes and case mappings of package unicode are written
    out; its tables for the other characters are parameters.  Of package regexp
    the fragment that the wildcards are translated into is modelled (literals,
    escaped wildcards and the three forms of the dot, between the two anchors);
    what it makes of other patterns, which a quoted token can contain, is a
    parameter. *)

From Stdlib Require Import ZArith Lia.
From Stdlib Require Import Strings.Byte.
From stdpp Require Import base tactics option list numbers strings gmap.
From S2P Require Import Prelude Encoding Entities.

Local Open Scope Z_scope.

(** ** Strings and runes *)

Definition codes (s : string) : list Z := Z_of_byte <$> bytes_of s.

Definition RuneError : Z := 65533.

Definition between (a b z : Z) : bool := (a <=? z) && (z <=? b).

(** A continuation byte. *)
Definition cont (b : Z) : bool := between 128 191 b.

(** What the byte after [b0] of a sequence of three or four bytes may be. *)
Definition second_ok (b0 b1 : Z) : bool :=
  if b0 =? 224 then between 160 191 b1
  else if b0 =? 237 then between 128 159 b1
  else if b0 =? 240 then between 144 191 b1
  else if b0 =? 244 then between 128 143 b1
  else cont b1.

(** The conversion of a string to runes: a byte that does not start a valid
    sequence is one [RuneError]. *)
Fixpoint runes (s : list Z) : list Z :=
  match s with
  | [] => []
  | b0 :: s1 =>
      if b0 <? 128 then b0 :: runes s1
      else
        match s1 with
        | [] => [RuneError]
        | b1 :: s2 =>
            if between 194 223 b0 && cont b1 then ((b0 - 192) * 64 + (b1 - 128)) :: runes s2
            else
              match s2 with
              | [] => RuneError :: runes s1
              | b2 :: s3 =>
                  if between 224 239 b0 && second_ok b0 b1 && cont b2
                  then ((b0 - 224) * 4096 + (b1 - 128) * 64 + (b2 - 128)) :: runes s3
                  else
                    match s3 with
                    | [] => RuneError :: runes s1
                    | b3 :: s4 =>
                        if between 240 244 b0 && second_ok b0 b1 && cont b2 && cont b3
                        then ((b0 - 240) * 262144 + (b1 - 128) * 4096 + (b2 - 128) * 64 + (b3 - 128)) :: runes s4
                        else RuneError :: runes s1
                    end
              end
        end
  end.

(** utf8.AppendRune. *)
Definition utf8 (r : Z) : list Z :=
  if between 0 127 r then [r]
  else if between 128 2047 r then [192 + r / 64; 128 + r mod 64]
  else if between 55296 57343 r || negb (between 0 1114111 r) then [239; 191; 189]
  else if r <=? 65535 then [224 + r / 4096; 128 + r / 64 mod 64; 128 + r mod 64]
  else [240 + r / 262144; 128 + r / 4096 mod 64; 128 + r / 64 mod 64; 128 + r mod 64].

Definition string_of_runes (l : list Z) : list Z := concat (utf8 <$> l).

(** strings.Split(s, "."). *)
Fixpoint split_dots (s : list Z) : list (list Z) :=
  match s with
  | [] => [[]]
  | c :: s' =>
      let tokens := split_dots s' in
      if c =? 46 then [] :: tokens
      else match tokens with t :: ts => (c :: t) :: ts | [] => [[c]] end
  end.

(** [s[i]] of a slice. *)
Definition at_ {A} (s : list A) (i : nat) : crash + A :=
  match s !! i with Some a => inr a | None => inl PanicIndexOutOfRange end.

Definition quotation : Z := 34.
Definition star : Z := 42.
Definition plus_ : Z := 43.
Definition question : Z := 63.
Definition backslash : Z := 92.
Definition underscore : Z := 95.

Definition wildcard (c : Z) : bool := (c =? star) || (c =? question) || (c =? plus_).

(** ** Regular expressions *)

Inductive atom : Set := Lit (c : Z) | Dot.
Inductive quantifier : Set := One | Star | Plus.

(** The characters with a meaning of their own. *)
Definition meta (c : Z) : bool :=
  existsb (Z.eqb c) [backslash; 46; plus_; star; question; 40; 41; 124; 91; 93; 123; 125; 94; 36].

(** The items up to the [$] at the end; [None] for anything outside the fragment. *)
Fixpoint parse_items (p : list Z) : option (list (atom * quantifier)) :=
  match p with
  | [] => None
  | c :: p1 =>
      if c =? 36 then match p1 with [] => Some [] | _ => None end
      else if c =? backslash then
        match p1 with
        | d :: p2 => if wildcard d then cons (Lit d, One) <$> parse_items p2 else None
        | [] => None
        end
      else if c =? 46 then
        match p1 with
        | d :: e :: p2 =>
            if (d =? star) && (e =? question) then cons (Dot, Star) <$> parse_items p2
            else if (d =? plus_) && (e =? question) then cons (Dot, Plus) <$> parse_items p2
            else
              match p2 with
              | f :: p3 =>
                  if (d =? 123) && (e =? 49) && (f =? 125) then cons (Dot, One) <$> parse_items p3 else None
              | [] => None
              end
        | _ => None
        end
      else if meta c then None
      else cons (Lit c, One) <$> parse_items p1
  end.

Definition parse_regexp (p : list Z) : option (list (atom * quantifier)) :=
  match p with
  | c :: p' => if c =? 94 then parse_items p' else None
  | [] => None
  end.

(** The dot does not match a line feed. *)
Definition atom_matches (a : atom) (c : Z) : bool :=
  match a with Lit l => l =? c | Dot => negb (c =? 10) end.

Fixpoint items_match (re : list (atom * quantifier)) (s : list Z) : bool :=
  match re with
  | [] => match s with [] => true | _ => false end
  | (a, q) :: re' =>
      let many := fix many (s : list Z) : bool :=
        items_match re' s || match s with [] => false | c :: s' => atom_matches a c && many s' end in
      match q with
      | One => match s with [] => false | c :: s' => atom_matches a c && items_match re' s' end
      | Star => many s
      | Plus => match s with [] => false | c :: s' => atom_matches a c && many s' end
      end
  end.

(** A compiled expression is the set of strings it matches. *)
Definition Regexp : Type := list Z -> bool.

(** ** Keywords *)

Definition reservedKeywords : list string := [
  "A"; "ABORT"; "ABS"; "ABSENT"; "ABSOLUTE"; "ACCESS"; "ACCORDING"; "ACTION"; "ADA"; "ADD"; "ADMIN"; "AFTER";
  "AGGREGATE"; "ALL"; "ALLOCATE"; "ALSO"; "ALTER"; "ALWAYS"; "ANALYSE"; "ANALYZE"; "AND"; "ANY"; "ARE";
  "ARRAY"; "ARRAY_AGG"; "ARRAY_MAX_CARDINALITY"; "AS"; "ASC"; "ASENSITIVE"; "ASSERTION"; "ASSIGNMENT";
  "ASYMMETRIC"; "AT"; "ATOMIC"; "ATTRIBUTE"; "ATTRIBUTES"; "AUTHORIZATION"; "AVG"; "BACKWARD"; "BASE64";
  "BEFORE"; "BEGIN"; "BEGIN_FRAME"; "BEGIN_PARTITION"; "BERNOULLI"; "BETWEEN"; "BIGINT"; "BINARY"; "BIT";
  "BIT_LENGTH"; "BLOB"; "BLOCKED"; "BOM"; "BOOLEAN"; "BOTH"; "BREADTH"; "BY"; "C"; "CACHE"; "CALL"; "CALLED";
  "CARDINALITY"; "CASCADE"; "CASCADED"; "CASE"; "CAST"; "CATALOG"; "CATALOG_NAME"; "CEIL"; "CEILING";
  "CHAIN"; "CHAR"; "CHARACTER"; "CHARACTERISTICS"; "CHARACTERS"; "CHARACTER_LENGTH"; "CHARACTER_SET_CATALOG";
  "CHARACTER_SET_NAME"; "CHARACTER_SET_SCHEMA"; "CHAR_LENGTH"; "CHECK"; "CHECKPOINT"; "CLASS";
  "CLASS_ORIGIN"; "CLOB"; "CLOSE"; "CLUSTER"; "COALESCE"; "COBOL"; "COLLATE"; "COLLATION";
  "COLLATION_CATALOG"; "COLLATION_NAME"; "COLLATION_SCHEMA"; "COLLECT"; "COLUMN"; "COLUMNS"; "COLUMN_NAME";
  "COMMAND_FUNCTION"; "COMMAND_FUNCTION_CODE"; "COMMENT"; "COMMENTS"; "COMMIT"; "COMMITTED"; "CONCURRENTLY";
  "CONDITION"; "CONDITION_NUMBER"; "CONFIGURATION"; "CONFLICT"; "CONNECT"; "CONNECTION"; "CONNECTION_NAME";
  "CONSTRAINT"; "CONSTRAINTS"; "CONSTRAINT_CATALOG"; "CONSTRAINT_NAME"; "CONSTRAINT_SCHEMA"; "CONSTRUCTOR";
  "CONTAINS"; "CONTENT"; "CONTINUE"; "CONTROL"; "CONVERSION"; "CONVERT"; "COPY"; "CORR"; "CORRESPONDING";
  "COST"; "COUNT"; "COVAR_POP"; "COVAR_SAMP"; "CREATE"; "CROSS"; "CSV"; "CUBE"; "CUME_DIST"; "CURRENT";
  "CURRENT_CATALOG"; "CURRENT_DATE"; "CURRENT_DEFAULT_TRANSFORM_GROUP"; "CURRENT_PATH"; "CURRENT_ROLE";
  "CURRENT_ROW"; "CURRENT_SCHEMA"; "CURRENT_TIME"; "CURRENT_TIMESTAMP"; "CURRENT_TRANSFORM_GROUP_FOR_TYPE";
  "CURRENT_USER"; "CURSOR"; "CURSOR_NAME"; "CYCLE"; "DATA"; "DATABASE"; "DATALINK"; "DATE";
  "DATETIME_INTERVAL_CODE"; "DATETIME_INTERVAL_PRECISION"; "DAY"; "DB"; "DEALLOCATE"; "DEC"; "DECIMAL";
  "DECLARE"; "DEFAULT"; "DEFAULTS"; "DEFERRABLE"; "DEFERRED"; "DEFINED"; "DEFINER"; "DEGREE"; "DELETE";
  "DELIMITER"; "DELIMITERS"; "DENSE_RANK"; "DEPTH"; "DEREF"; "DERIVED"; "DESC"; "DESCRIBE"; "DESCRIPTOR";
  "DETERMINISTIC"; "DIAGNOSTICS"; "DICTIONARY"; "DISABLE"; "DISCARD"; "DISCONNECT"; "DISPATCH"; "DISTINCT";
  "DLNEWCOPY"; "DLPREVIOUSCOPY"; "DLURLCOMPLETE"; "DLURLCOMPLETEONLY"; "DLURLCOMPLETEWRITE"; "DLURLPATH";
  "DLURLPATHONLY"; "DLURLPATHWRITE"; "DLURLSCHEME"; "DLURLSERVER"; "DLVALUE"; "DO"; "DOCUMENT"; "DOMAIN";
  "DOUBLE"; "DROP"; "DYNAMIC"; "DYNAMIC_FUNCTION"; "DYNAMIC_FUNCTION_CODE"; "EACH"; "ELEMENT"; "ELSE";
  "EMPTY"; "ENABLE"; "ENCODING"; "ENCRYPTED"; "END"; "END-EXEC"; "END_FRAME"; "END_PARTITION"; "ENFORCED";
  "ENUM"; "EQUALS"; "ESCAPE"; "EVENT"; "EVERY"; "EXCEPT"; "EXCEPTION"; "EXCLUDE"; "EXCLUDING"; "EXCLUSIVE";
  "EXEC"; "EXECUTE"; "EXISTS"; "EXP"; "EXPLAIN"; "EXPRESSION"; "EXTENSION"; "EXTERNAL"; "EXTRACT"; "FALSE";
  "FAMILY"; "FETCH"; "FILE"; "FILTER"; "FINAL"; "FIRST"; "FIRST_VALUE"; "FLAG"; "FLOAT"; "FLOOR";
  "FOLLOWING"; "FOR"; "FORCE"; "FOREIGN"; "FORTRAN"; "FORWARD"; "FOUND"; "FRAME_ROW"; "FREE"; "FREEZE";
  "FROM"; "FS"; "FULL"; "FUNCTION"; "FUNCTIONS"; "FUSION"; "G"; "GENERAL"; "GENERATED"; "GET"; "GLOBAL";
  "GO"; "GOTO"; "GRANT"; "GRANTED"; "GREATEST"; "GROUP"; "GROUPING"; "GROUPS"; "HANDLER"; "HAVING"; "HEADER";
  "HEX"; "HIERARCHY"; "HOLD"; "HOUR"; "ID"; "IDENTITY"; "IF"; "IGNORE"; "ILIKE"; "IMMEDIATE"; "IMMEDIATELY";
  "IMMUTABLE"; "IMPLEMENTATION"; "IMPLICIT"; "IMPORT"; "IN"; "INCLUDING"; "INCREMENT"; "INDENT"; "INDEX";
  "INDEXES"; "INDICATOR"; "INHERIT"; "INHERITS"; "INITIALLY"; "INLINE"; "INNER"; "INOUT"; "INPUT";
  "INSENSITIVE"; "INSERT"; "INSTANCE"; "INSTANTIABLE"; "INSTEAD"; "INT"; "INTEGER"; "INTEGRITY"; "INTERSECT";
  "INTERSECTION"; "INTERVAL"; "INTO"; "INVOKER"; "IS"; "ISNULL"; "ISOLATION"; "JOIN"; "K"; "KEY";
  "KEY_MEMBER"; "KEY_TYPE"; "LABEL"; "LAG"; "LANGUAGE"; "LARGE"; "LAST"; "LAST_VALUE"; "LATERAL"; "LEAD";
  "LEADING"; "LEAKPROOF"; "LEAST"; "LEFT"; "LENGTH"; "LEVEL"; "LIBRARY"; "LIKE"; "LIKE_REGEX"; "LIMIT";
  "LINK"; "LISTEN"; "LN"; "LOAD"; "LOCAL"; "LOCALTIME"; "LOCALTIMESTAMP"; "LOCATION"; "LOCATOR"; "LOCK";
  "LOCKED"; "LOGGED"; "LOWER"; "M"; "MAP"; "MAPPING"; "MATCH"; "MATCHED"; "MATERIALIZED"; "MAX"; "MAXVALUE";
  "MAX_CARDINALITY"; "MEMBER"; "MERGE"; "MESSAGE_LENGTH"; "MESSAGE_OCTET_LENGTH"; "MESSAGE_TEXT"; "METHOD";
  "MIN"; "MINUTE"; "MINVALUE"; "MOD"; "MODE"; "MODIFIES"; "MODULE"; "MONTH"; "MORE"; "MOVE"; "MULTISET";
  "MUMPS"; "NAME"; "NAMES"; "NAMESPACE"; "NATIONAL"; "NATURAL"; "NCHAR"; "NCLOB"; "NESTING"; "NEW"; "NEXT";
  "NFC"; "NFD"; "NFKC"; "NFKD"; "NIL"; "NO"; "NONE"; "NORMALIZE"; "NORMALIZED"; "NOT"; "NOTHING"; "NOTIFY";
  "NOTNULL"; "NOWAIT"; "NTH_VALUE"; "NTILE"; "NULL"; "NULLABLE"; "NULLIF"; "NULLS"; "NUMBER"; "NUMERIC";
  "OBJECT"; "OCCURRENCES_REGEX"; "OCTETS"; "OCTET_LENGTH"; "OF"; "OFF"; "OFFSET"; "OIDS"; "OLD"; "ON";
  "ONLY"; "OPEN"; "OPERATOR"; "OPTION"; "OPTIONS"; "OR"; "ORDER"; "ORDERING"; "ORDINALITY"; "OTHERS"; "OUT";
  "OUTER"; "OUTPUT"; "OVER"; "OVERLAPS"; "OVERLAY"; "OVERRIDING"; "OWNED"; "OWNER"; "P"; "PAD"; "PARAMETER";
  "PARAMETER_MODE"; "PARAMETER_NAME"; "PARAMETER_ORDINAL_POSITION"; "PARAMETER_SPECIFIC_CATALOG";
  "PARAMETER_SPECIFIC_NAME"; "PARAMETER_SPECIFIC_SCHEMA"; "PARSER"; "PARTIAL"; "PARTITION"; "PASCAL";
  "PASSING"; "PASSTHROUGH"; "PASSWORD"; "PATH"; "PERCENT"; "PERCENTILE_CONT"; "PERCENTILE_DISC";
  "PERCENT_RANK"; "PERIOD"; "PERMISSION"; "PLACING"; "PLANS"; "PLI"; "POLICY"; "PORTION"; "POSITION";
  "POSITION_REGEX"; "POWER"; "PRECEDES"; "PRECEDING"; "PRECISION"; "PREPARE"; "PREPARED"; "PRESERVE";
  "PRIMARY"; "PRIOR"; "PRIVILEGES"; "PROCEDURAL"; "PROCEDURE"; "PROGRAM"; "QUOTE"; "RANGE"; "RANK"; "READ";
  "READS"; "REAL"; "REASSIGN"; "RECHECK"; "RECOVERY"; "RECURSIVE"; "REF"; "REFERENCES"; "REFERENCING";
  "REFRESH"; "REGR_AVGX"; "REGR_AVGY"; "REGR_COUNT"; "REGR_INTERCEPT"; "REGR_R2"; "REGR_SLOPE"; "REGR_SXX";
  "REGR_SXY"; "REGR_SYY"; "REINDEX"; "RELATIVE"; "RELEASE"; "RENAME"; "REPEATABLE"; "REPLACE"; "REPLICA";
  "REQUIRING"; "RESET"; "RESPECT"; "RESTART"; "RESTORE"; "RESTRICT"; "RESULT"; "RETURN";
  "RETURNED_CARDINALITY"; "RETURNED_LENGTH"; "RETURNED_OCTET_LENGTH"; "RETURNED_SQLSTATE"; "RETURNING";
  "RETURNS"; "REVOKE"; "RIGHT"; "ROLE"; "ROLLBACK"; "ROLLUP"; "ROUTINE"; "ROUTINE_CATALOG"; "ROUTINE_NAME";
  "ROUTINE_SCHEMA"; "ROW"; "ROWS"; "ROW_COUNT"; "ROW_NUMBER"; "RULE"; "SAVEPOINT"; "SCALE"; "SCHEMA";
  "SCHEMA_NAME"; "SCOPE"; "SCOPE_CATALOG"; "SCOPE_NAME"; "SCOPE_SCHEMA"; "SCROLL"; "SEARCH"; "SECOND";
  "SECTION"; "SECURITY"; "SELECT"; "SELECTIVE"; "SELF"; "SENSITIVE"; "SEQUENCE"; "SEQUENCES"; "SERIALIZABLE";
  "SERVER"; "SERVER_NAME"; "SESSION"; "SESSION_USER"; "SET"; "SETOF"; "SETS"; "SHARE"; "SHOW"; "SIMILAR";
  "SIMPLE"; "SIZE"; "SKIP"; "SMALLINT"; "SNAPSHOT"; "SOME"; "SOURCE"; "SPACE"; "SPECIFIC"; "SPECIFICTYPE";
  "SPECIFIC_NAME"; "SQL"; "SQLCODE"; "SQLERROR"; "SQLEXCEPTION"; "SQLSTATE"; "SQLWARNING"; "SQRT"; "STABLE";
  "STANDALONE"; "START"; "STATE"; "STATEMENT"; "STATIC"; "STATISTICS"; "STDDEV_POP"; "STDDEV_SAMP"; "STDIN";
  "STDOUT"; "STORAGE"; "STRICT"; "STRIP"; "STRUCTURE"; "STYLE"; "SUBCLASS_ORIGIN"; "SUBMULTISET";
  "SUBSTRING"; "SUBSTRING_REGEX"; "SUCCEEDS"; "SUM"; "SYMMETRIC"; "SYSID"; "SYSTEM"; "SYSTEM_TIME";
  "SYSTEM_USER"; "T"; "TABLE"; "TABLES"; "TABLESAMPLE"; "TABLESPACE"; "TABLE_NAME"; "TEMP"; "TEMPLATE";
  "TEMPORARY"; "TEXT"; "THEN"; "TIES"; "TIME"; "TIMESTAMP"; "TIMEZONE_HOUR"; "TIMEZONE_MINUTE"; "TO";
  "TOKEN"; "TOP_LEVEL_COUNT"; "TRAILING"; "TRANSACTION"; "TRANSACTIONS_COMMITTED";
  "TRANSACTIONS_ROLLED_BACK"; "TRANSACTION_ACTIVE"; "TRANSFORM"; "TRANSFORMS"; "TRANSLATE";
  "TRANSLATE_REGEX"; "TRANSLATION"; "TREAT"; "TRIGGER"; "TRIGGER_CATALOG"; "TRIGGER_NAME"; "TRIGGER_SCHEMA";
  "TRIM"; "TRIM_ARRAY"; "TRUE"; "TRUNCATE"; "TRUSTED"; "TYPE"; "TYPES"; "UESCAPE"; "UNBOUNDED";
  "UNCOMMITTED"; "UNDER"; "UNENCRYPTED"; "UNION"; "UNIQUE"; "UNKNOWN"; "UNLINK"; "UNLISTEN"; "UNLOGGED";
  "UNNAMED"; "UNNEST"; "UNTIL"; "UNTYPED"; "UPDATE"; "UPPER"; "URI"; "USAGE"; "USER";
  "USER_DEFINED_TYPE_CATALOG"; "USER_DEFINED_TYPE_CODE"; "USER_DEFINED_TYPE_NAME";
  "USER_DEFINED_TYPE_SCHEMA"; "USING"; "VACUUM"; "VALID"; "VALIDATE"; "VALIDATOR"; "VALUE"; "VALUES";
  "VALUE_OF"; "VARBINARY"; "VARCHAR"; "VARIADIC"; "VARYING"; "VAR_POP"; "VAR_SAMP"; "VERBOSE"; "VERSION";
  "VERSIONING"; "VIEW"; "VIEWS"; "VOLATILE"; "WHEN"; "WHENEVER"; "WHERE"; "WHITESPACE"; "WIDTH_BUCKET";
  "WINDOW"; "WITH"; "WITHIN"; "WITHOUT"; "WORK"; "WRAPPER"; "WRITE"; "XML"; "XMLAGG"; "XMLATTRIBUTES";
  "XMLBINARY"; "XMLCAST"; "XMLCOMMENT"; "XMLCONCAT"; "XMLDECLARATION"; "XMLDOCUMENT"; "XMLELEMENT";
  "XMLEXISTS"; "XMLFOREST"; "XMLITERATE"; "XMLNAMESPACES"; "XMLPARSE"; "XMLPI"; "XMLQUERY"; "XMLROOT";
  "XMLSCHEMA"; "XMLSERIALIZE"; "XMLTABLE"; "XMLTEXT"; "XMLVALIDATE"; "YEAR"; "YES"; "ZONE"
]%string.

(** ** The filter *)

(** A table that is asked for: the dynamic type of the argument is looked at. *)
Inductive Table : Type :=
| AHypertable (h : Hypertable)
| AnEntity (e : SystemEntity).

Definition entity_of (t : Table) : SystemEntity :=
  match t with AHypertable h => Hyper.entity h | AnEntity e => e end.

Record filter : Type := mkFilter {
  namespace : list Z;
  table : list Z;
  namespaceRegex : option Regexp;
  tableRegex : option Regexp;
}.

Record TableFilter : Type := mkTableFilter {
  includes : list filter;
  excludes : list filter;
  filterCache : gmap string bool;
  acceptedByDefault : bool;
}.

Definition cache (name : string) (b : bool) (rf : TableFilter) : TableFilter :=
  mkTableFilter (includes rf) (excludes rf) (<[ name := b ]> (filterCache rf)) (acceptedByDefault rf).

(** The tables of package unicode above ASCII, and package regexp outside the
    fragment ([None]: the expression does not compile). *)
Record Unicode : Type := mkUnicode {
  letter_table : Z -> bool;
  number_table : Z -> bool;
  lower_table : Z -> Z;
  upper_table : Z -> Z;
  other_regexp : list Z -> option Regexp;
}.

Section Filter.
Context (U : Unicode).

Definition IsLetter (c : Z) : bool :=
  if c <? 128 then between 65 90 c || between 97 122 c else letter_table U c.
Definition IsNumber (c : Z) : bool :=
  if c <? 128 then between 48 57 c else number_table U c.
Definition lower (c : Z) : Z :=
  if c <? 128 then (if between 65 90 c then c + 32 else c) else lower_table U c.
Definition upper (c : Z) : Z :=
  if c <? 128 then (if between 97 122 c then c - 32 else c) else upper_table U c.

(** strings.ToLower and strings.ToUpper. *)
Definition ToLower (s : list Z) : list Z := string_of_runes (lower <$> runes s).
Definition ToUpper (s : list Z) : list Z := string_of_runes (upper <$> runes s).

Definition MustCompile (p : list Z) : crash + Regexp :=
  match parse_regexp (runes p) with
  | Some re => inr (fun s => items_match re (runes s))
  | None => match other_regexp U p with Some re => inr re | None => inl PanicExplicit end
  end.

Section ParseToken.
Context {W : Type}.

(** The loop over the characters; [i] is the loop variable.  The runes written to
    the builder are returned. *)
Fixpoint scan (isQuoted : bool) (runedToken : list Z) (lastIndex : nat) (fuel : nat) (i : nat)
    (builder : list Z) (isRegex : bool) : G W (list Z * bool) :=
  if (lastIndex <=? i)%nat then mret (builder, isRegex)
  else
    match fuel with
    | O => panic OutOfFuel
    | S fuel' =>
        let next := scan isQuoted runedToken lastIndex fuel' in
        char ← lift (at_ runedToken i);
        if (char =? backslash) && isQuoted then
          if (i <? length runedToken - 1)%nat then
            peekNextChar ← lift (at_ runedToken (i + 1));
            if wildcard peekNextChar
            then next (i + 2)%nat (builder ++ [backslash; peekNextChar])%list isRegex
            else next (i + 1)%nat builder isRegex
          else next (i + 1)%nat builder isRegex
        else if (char =? quotation) && isQuoted then
          if (i <? length runedToken - 1)%nat then
            peekNextChar ← lift (at_ runedToken (i + 1));
            next (i + if (peekNextChar =? quotation)%Z then 2 else 1)%nat
              (builder ++ [quotation; quotation])%list isRegex
          else next (i + 1)%nat builder isRegex
        else if char =? star then next (i + 1)%nat (builder ++ [46; star; question])%list true
        else if char =? question then next (i + 1)%nat (builder ++ [46; 123; 49; 125])%list true
        else if char =? plus_ then next (i + 1)%nat (builder ++ [46; plus_; question])%list true
        else if IsLetter char || IsNumber char || (char =? underscore) || isQuoted
        then next (i + 1)%nat (builder ++ [char])%list isRegex
        else fail "illegal character in pattern"
    end.

(** The result: the token as a string, and whether it is a regular expression. *)
Definition parseToken (token : list Z) : G W (list Z * bool) :=
  first ← lift (at_ token 0);
  last ← lift (at_ token (length token - 1));
  let isQuoted := (first =? quotation) && (last =? quotation) in
  let token := if isQuoted then token else ToLower token in
  if (63 <? length token)%nat && (negb isQuoted || (65 <? length token)%nat)
  then fail "an pattern cannot be longer than 63 characters"
  else
    let firstIndex := if isQuoted then 1%nat else 0%nat in
    let lastIndex := if isQuoted then (length token - 1)%nat else length token in
    first ← (if isQuoted then mret first else lift (at_ token 0));
    if negb isQuoted && negb (IsLetter first || (first =? underscore) || wildcard first)
    then fail "illegal first character of pattern"
    else
      r ← scan isQuoted (runes token) lastIndex (S (length token)) firstIndex [] false;
      let parsedToken := string_of_runes (fst r) in
      if negb isQuoted && negb (snd r) &&
         existsb (fun keyword => bool_decide (codes keyword = ToUpper parsedToken)) reservedKeywords
      then fail "an unquoted pattern cannot match a reserved keyword"
      else mret (parsedToken, snd r).

(** [regexp.MustCompile(fmt.Sprintf("^%s$", s))] for one part of a pattern. *)
Definition anchored (s : list Z) : list Z := ([94] ++ s ++ [36])%list.

Definition part_regex (part : list Z * bool) : G W (option Regexp) :=
  if snd part then re ← lift (MustCompile (anchored (fst part))); mret (Some re) else mret None.

Definition part_text (part : list Z * bool) : list Z := if snd part then [] else fst part.

Definition parseFilter (filterTerm : list Z) : G W filter :=
  match split_dots filterTerm with
  | [t0; t1] =>
      n ← parseToken t0;
      t ← parseToken t1;
      namespaceRegex ← part_regex n;
      tableRegex ← part_regex t;
      mret (mkFilter (part_text n) (part_text t) namespaceRegex tableRegex)
  | _ => fail "failed parsing filter term"
  end.

Fixpoint parseFilters (terms : list (list Z)) : G W (list filter) :=
  match terms with
  | [] => mret []
  | t :: ts => f ← parseFilter t; fs ← parseFilters ts; mret (f :: fs)
  end.

Definition NewTableFilter (excludes includes : list (list Z)) (acceptedByDefault : bool) : G W TableFilter :=
  excludeFilters ← parseFilters excludes;
  includeFilters ← parseFilters includes;
  mret (mkTableFilter includeFilters excludeFilters ∅ acceptedByDefault).
End ParseToken.
End Filter.

(** The name that a pattern is compared with: for a continuous aggregate the
    name of its view, if it is known. *)
Definition matched_name (t : Table) : option (list Z * list Z) :=
  match t with
  | AHypertable h =>
      if Hyper.IsContinuousAggregate h then
        match Hyper.viewSchema h, Hyper.viewName h with
        | Some n, Some e => Some (codes n, codes e)
        | _, _ => None
        end
      else Some (codes (Hyper.schemaName h), codes (Hyper.tableName h))
  | AnEntity e => Some (codes (SchemaName e), codes (TableName e))
  end.

Definition part_matches (name : list Z) (regex : option Regexp) (n : list Z) : bool :=
  match regex with
  | Some re => re n
  | None => bool_decide (name = n)
  end.

Definition matches (f : filter) (t : Table) : bool :=
  match matched_name t with
  | None => false
  | Some (n, e) => part_matches (namespace f) (namespaceRegex f) n && part_matches (table f) (tableRegex f) e
  end.

Definition Enabled (t : Table) : G TableFilter bool :=
  rf ← get;
  let canonicalName := CanonicalName (entity_of t) in
  match filterCache rf !! canonicalName with
  | Some v => mret v
  | None =>
      let answer b := modify (cache canonicalName b) ;; mret b in
      if existsb (fun f => matches f t) (excludes rf) then answer false
      else if existsb (fun f => matches f t) (includes rf) then answer true
      else answer (acceptedByDefault rf)
  end.

(** ** What a pattern means *)

(** An unquoted pattern: letters, digits, underscores and wildcards.  A star
    stands for any text, a plus for any text that is not empty, a question mark for one
    character; none of them stands for a line feed. *)
Inductive globs : list Z -> list Z -> Prop :=
| globs_end : globs [] []
| globs_char c p s : wildcard c = false -> globs p s -> globs (c :: p) (c :: s)
| globs_question c p s : c <> 10 -> globs p s -> globs (question :: p) (c :: s)
| globs_star text p s : 10 ∉ text -> globs p s -> globs (star :: p) (text ++ s)
| globs_plus text p s : text <> [] -> 10 ∉ text -> globs p s -> globs (plus_ :: p) (text ++ s).

Definition ascii (c : Z) : Prop := 0 <= c < 128.

Definition pattern_char (c : Z) : bool :=
  between 65 90 c || between 97 122 c || between 48 57 c || (c =? underscore) || wildcard c.

(** The case folding of identifiers. *)
Definition fold_case (c : Z) : Z := if between 65 90 c then c + 32 else c.
Definition upper_case (c : Z) : Z := if between 97 122 c then c - 32 else c.

Definition is_pattern (p : list Z) : Prop :=
  (0 < length p <= 63)%nat /\ Forall (fun c => pattern_char c = true) p /\
  (forall c p', p = c :: p' -> between 48 57 c = false) /\
  (existsb wildcard p = false -> forall k, k ∈ reservedKeywords -> codes k <> upper_case <$> (fold_case <$> p)).

Lemma between_spec a b z : reflect (a <= z <= b) (between a b z).
Proof.
  apply iff_reflect. unfold between. rewrite andb_true_iff, !Z.leb_le. tauto.
Qed.

(** ** ASCII strings are their own runes *)

Lemma runes_ascii s : Forall ascii s -> runes s = s.
Proof.
  induction 1 as [|c s [_ Hc] _ IH]; [done|]. cbn. apply Z.ltb_lt in Hc. by rewrite Hc, IH.
Qed.

Lemma string_of_runes_ascii s : Forall ascii s -> string_of_runes s = s.
Proof.
  unfold string_of_runes. induction 1 as [|c s Hc _ IH]; [done|]. cbn. rewrite IH.
  unfold utf8. destruct (between_spec 0 127 c); [done|]. unfold ascii in Hc. lia.
Qed.

Lemma between_true a b z : between a b z = true -> a <= z <= b.
Proof. by destruct (between_spec a b z). Qed.

Lemma second_ok_bounds b0 b1 :
  second_ok b0 b1 = true -> 128 <= b1 /\ (b0 = 224 -> 160 <= b1) /\ (b0 = 240 -> 144 <= b1).
Proof.
  unfold second_ok, cont. intros Hs. repeat case_match; apply between_true in Hs; go_bool; lia.
Qed.

(** The bounds of the bytes of a valid sequence. *)
Ltac sequence :=
  repeat match goal with
  | H : _ && _ = true |- _ => apply andb_true_iff in H as [? ?]
  | H : between _ _ _ = true |- _ => apply between_true in H
  | H : cont _ = true |- _ => apply between_true in H
  | H : second_ok _ _ = true |- _ => apply second_ok_bounds in H
  end; lia.

(** A multi-byte sequence never decodes to an ASCII character. *)
Lemma runes_head b s c l : 0 <= b -> ~ (b < 128) -> runes (b :: s) = c :: l -> 128 <= c.
Proof.
  intros Hb Hn. assert ((b <? 128) = false) as Hlt by (apply Z.ltb_ge; lia).
  cbn [runes]. rewrite Hlt. unfold RuneError.
  destruct s as [|b1 s]; [intros Hx; injection Hx as Hc Hl; lia|].
  destruct (between 194 223 b && cont b1) eqn:E1; [intros Hx; injection Hx as Hc Hl; sequence|].
  destruct s as [|b2 s]; [intros Hx; injection Hx as Hc Hl; lia|].
  destruct (between 224 239 b && second_ok b b1 && cont b2) eqn:E2; [intros Hx; injection Hx as Hc Hl; sequence|].
  destruct s as [|b3 s]; [intros Hx; injection Hx as Hc Hl; lia|].
  destruct (between 240 244 b && second_ok b b1 && cont b2 && cont b3) eqn:E3;
    [intros Hx; injection Hx as Hc Hl; sequence|intros Hx; injection Hx as Hc Hl; lia].
Qed.

Lemma runes_inj_ascii s p : Forall (fun c => 0 <= c) s -> Forall ascii p -> runes s = p -> s = p.
Proof.
  intros Hs. revert p. induction Hs as [|b s Hb _ IH]; intros p Hp Heq; [done|].
  destruct (Z.ltb_spec b 128) as [Hlt|Hge].
  - cbn in Heq. apply Z.ltb_lt in Hlt. rewrite Hlt in Heq. subst p. apply Forall_cons in Hp as [_ Hp].
    f_equal. by rewrite <- (IH _ Hp eq_refl) at 1.
  - destruct p as [|c p].
    + exfalso. clear IH. cbn in Heq. assert ((b <? 128) = false) as Hlt by (apply Z.ltb_ge; lia).
      rewrite Hlt in Heq. repeat (case_match; try done).
    + apply runes_head in Heq; [|done|lia]. apply Forall_cons in Hp as [Hc _]. unfold ascii in Hc. lia.
Qed.

Lemma codes_nonneg s : Forall (fun c => 0 <= c) (codes s).
Proof. unfold codes. apply Forall_fmap, Forall_true. intros b. cbn. pose proof (Z_of_byte_bound b). lia. Qed.

(** ** Pattern characters *)

Lemma pattern_char_ascii c : pattern_char c = true -> ascii c.
Proof.
  unfold pattern_char, wildcard, star, question, plus_, underscore, ascii. intros H.
  repeat (apply orb_true_iff in H as [H|H]); try (apply Z.eqb_eq in H; lia);
    match type of H with between ?a ?b ?z = true => destruct (between_spec a b z); [lia|done] end.
Qed.

Lemma pattern_ascii p : Forall (fun c => pattern_char c = true) p -> Forall ascii p.
Proof. intros H. eapply Forall_impl; [exact H|apply pattern_char_ascii]. Qed.

Lemma fold_case_wildcard c : wildcard (fold_case c) = wildcard c.
Proof.
  unfold fold_case. destruct (between_spec 65 90 c); [|done]. unfold wildcard, star, question, plus_.
  repeat match goal with |- context [?a =? ?b] => destruct (Z.eqb_spec a b); try lia end; done.
Qed.

Lemma fold_case_pattern c : pattern_char c = true -> pattern_char (fold_case c) = true.
Proof.
  intros H. unfold fold_case. destruct (between_spec 65 90 c); [|done]. unfold pattern_char.
  destruct (between_spec 97 122 (c + 32)); [by rewrite orb_true_r|lia].
Qed.

(** ** From the pattern's text to the expression *)

(** What the loop writes for a character, and what package regexp reads there. *)
Definition written (c : Z) : list Z :=
  if c =? star then [46; star; question]
  else if c =? question then [46; 123; 49; 125]
  else if c =? plus_ then [46; plus_; question]
  else [c].

Definition item (c : Z) : atom * quantifier :=
  if c =? star then (Dot, Star)
  else if c =? question then (Dot, One)
  else if c =? plus_ then (Dot, Plus)
  else (Lit c, One).

Lemma pattern_char_cases c :
  pattern_char c = true ->
  c = star \/ c = question \/ c = plus_ \/
  (wildcard c = false /\ (forall U, IsLetter U c || IsNumber U c || (c =? underscore) = true) /\
   meta c = false /\ c <> backslash /\ c <> quotation /\ c <> 46 /\ c <> 36).
Proof.
  intros Hc. pose proof (pattern_char_ascii _ Hc) as [Ha Hb].
  destruct (Z.eqb_spec c star); [by left|]. destruct (Z.eqb_spec c question); [by right; left|].
  destruct (Z.eqb_spec c plus_); [by right; right; left|]. right; right; right.
  assert (wildcard c = false) as Hw.
  { unfold wildcard. rewrite !orb_false_iff, !Z.eqb_neq. done. }
  unfold pattern_char in Hc. rewrite Hw, orb_false_r in Hc.
  assert (65 <= c <= 90 \/ 97 <= c <= 122 \/ 48 <= c <= 57 \/ c = underscore) as Hr.
  { repeat (apply orb_true_iff in Hc as [Hc|Hc]); try apply between_true in Hc;
      try apply Z.eqb_eq in Hc; tauto. }
  split; [done|]. split; [|].
  - intros U. unfold IsLetter, IsNumber. apply Z.ltb_lt in Hb. by rewrite Hb.
  - unfold meta, backslash, quotation, star, plus_, question, underscore in *. cbn [existsb].
    split; [|lia]. repeat (apply orb_false_iff; split); try done; apply Z.eqb_neq; lia.
Qed.

Ltac pattern_cases c Hc :=
  destruct (pattern_char_cases c Hc) as [-> | [-> | [-> | (Hwild & Hclass & Hmeta & Hbs & Hqu & Hdot & Hdollar)]]].

Lemma not_wildcard c : wildcard c = false -> (c =? star) = false /\ (c =? question) = false /\ (c =? plus_) = false.
Proof. unfold wildcard. rewrite !orb_false_iff. tauto. Qed.

Section Parsing.
Context (U : Unicode) {W : Type}.

Lemma scan_unquoted l fuel i acc rg (w : W) :
  Forall (fun c => pattern_char c = true) l -> (length l - i < fuel)%nat -> (i <= length l)%nat ->
  scan U false l (length l) fuel i acc rg w =
    Ret (acc ++ concat (written <$> drop i l), rg || existsb wildcard (drop i l)) w.
Proof.
  intros Hl. revert i acc rg. induction fuel as [|fuel IH]; intros i acc rg Hf Hi; [lia|].
  destruct (Nat.eq_dec i (length l)) as [->|Hne].
  { cbn [scan]. rewrite Nat.leb_refl, drop_all. cbn. by rewrite app_nil_r, orb_false_r. }
  cbn [scan]. destruct (Nat.leb_spec (length l) i) as [|_]; [lia|].
  destruct (lookup_lt_is_Some_2 l i) as [c Hc]; [lia|].
  assert (pattern_char c = true) as Hp by (eapply Forall_lookup_1 in Hl; eauto).
  assert (at_ l i = inr c) as Hat by (unfold at_; by rewrite Hc).
  rewrite Hat, (bind_run _ _ _ c w eq_refl).
  rewrite (drop_S l c i Hc), !andb_false_r. rewrite Nat.add_1_r. cbn [existsb fmap list_fmap concat].
  pattern_cases c Hp; [cbn -[scan]; rewrite IH by lia; cbn; by rewrite <- app_assoc, ?orb_true_r ..|].
  destruct (not_wildcard c Hwild) as (H1 & H2 & H3). rewrite H1, H2, H3, (Hclass U). cbn [orb].
  rewrite IH by lia. unfold written. by rewrite H1, H2, H3, <- app_assoc, Hwild.
Qed.
End Parsing.

Lemma parse_written p :
  Forall (fun c => pattern_char c = true) p ->
  parse_items (concat (written <$> p) ++ [36]) = Some (item <$> p).
Proof.
  induction 1 as [|c p Hc _ IH]; [done|]. cbn [fmap list_fmap concat]. rewrite <- app_assoc.
  pattern_cases c Hc; try (cbn; cbn in IH; by rewrite IH).
  unfold written at 1, item at 1. destruct (not_wildcard c Hwild) as (-> & -> & ->).
  cbn [app parse_items]. apply Z.eqb_neq in Hbs, Hdot, Hdollar. by rewrite Hdollar, Hbs, Hdot, Hmeta, IH.
Qed.

Lemma written_ascii p : Forall (fun c => pattern_char c = true) p -> Forall ascii (concat (written <$> p)).
Proof.
  induction 1 as [|c p Hc _ IH]; [constructor|]. cbn. apply Forall_app. split; [|done].
  unfold written. repeat case_match; repeat constructor; unfold ascii, star, question, plus_; try lia;
    by apply pattern_char_ascii.
Qed.

(** ** From the expression to the names *)

Fixpoint many (a : atom) (re : list (atom * quantifier)) (s : list Z) : bool :=
  items_match re s || match s with [] => false | c :: s' => atom_matches a c && many a re s' end.

Lemma items_match_cons a q re s :
  items_match ((a, q) :: re) s =
    match q with
    | One => match s with [] => false | c :: s' => atom_matches a c && items_match re s' end
    | Star => many a re s
    | Plus => match s with [] => false | c :: s' => atom_matches a c && many a re s' end
    end.
Proof.
  assert (forall s, (fix many (s : list Z) : bool :=
     items_match re s || match s with [] => false | c :: s' => atom_matches a c && many s' end) s = many a re s) as H.
  { intros s'. induction s' as [|c s' IH]; cbn; [done|]. by rewrite IH. }
  destruct q; [done|apply H|]. destruct s as [|c s]; [done|]. cbn. by rewrite H.
Qed.

Lemma many_dot re s :
  many Dot re s = true <-> (exists text rest, s = (text ++ rest)%list /\ (10 ∉ text) /\ items_match re rest = true).
Proof.
  split.
  - induction s as [|c s IH]; cbn [many]; rewrite orb_true_iff; intros [Hm|Hm]; try done.
    + exists [], []. split_and!; [done|set_solver|done].
    + exists [], (c :: s). split_and!; [done|set_solver|done].
    + apply andb_true_iff in Hm as [Hc Hm]. destruct (IH Hm) as (text & rest & -> & Hn & Hr).
      exists (c :: text), rest. split_and!; [done| |done]. cbn in Hc. apply negb_true_iff, Z.eqb_neq in Hc.
      set_solver.
  - intros (text & rest & -> & Hn & Hr). induction text as [|c text IH].
    + destruct rest; cbn [app many]; by rewrite Hr.
    + cbn [app many]. apply orb_true_iff. right. cbn.
      rewrite IH by set_solver. rewrite andb_true_r. apply negb_true_iff, Z.eqb_neq. set_solver.
Qed.

Lemma items_match_globs p s :
  Forall (fun c => pattern_char c = true) p -> items_match (item <$> p) s = true <-> globs p s.
Proof.
  intros Hp. revert s. induction Hp as [|c p Hc _ IH]; intros s.
  { split; [destruct s; [constructor|done]|by inversion 1]. }
  cbn [fmap list_fmap].
  assert (forall c', items_match (item c' :: (item <$> p)) s =
            items_match ((fst (item c'), snd (item c')) :: (item <$> p)) s) as -> by (intros; by destruct (item c')).
  rewrite items_match_cons.
  pattern_cases c Hc; cbn.
  - rewrite many_dot. split.
    + intros (text & rest & -> & Hn & Hr). constructor; [done|]. by apply IH.
    + inversion 1; subst; [done|]. eexists _, _. split_and!; [done|done|]. by apply IH.
  - destruct s as [|x s]; [split; [done|by inversion 1]|]. rewrite andb_true_iff, negb_true_iff, Z.eqb_neq, IH.
    split; [intros [? ?]; by constructor|]. inversion 1; by subst.
  - destruct s as [|x s].
    { split; [done|]. inversion 1; subst. by destruct text. }
    rewrite andb_true_iff, negb_true_iff, Z.eqb_neq, many_dot. split.
    + intros (Hx & text & rest & -> & Hn & Hr). apply (globs_plus (x :: text)); [done|set_solver|by apply IH].
    + inversion 1 as [| | | |text p' s' Hne Hn Hg Heq Hs]; subst; [done|].
      destruct text as [|y text]; [done|]. injection Hs as -> <-. split; [set_solver|].
      eexists _, _. split_and!; [done|set_solver|]. by apply IH.
  - unfold item. destruct (not_wildcard c Hwild) as (H1 & H2 & H3). rewrite H1, H2, H3. cbn.
    destruct s as [|x s].
    { split; [done|]. inversion 1; subst; done. }
    rewrite andb_true_iff, Z.eqb_eq, IH. split; [intros [<- ?]; by constructor|]. inversion 1; by subst.
Qed.

Lemma globs_literal p s : existsb wildcard p = false -> globs p s <-> s = p.
Proof.
  revert s. induction p as [|c p IH]; intros s; cbn.
  { intros _. split; [by inversion 1|intros ->; constructor]. }
  rewrite orb_false_iff. intros [Hc Hp]. split.
  - inversion 1; subst; try done. f_equal. by apply IH.
  - intros ->. constructor; [done|]. by apply IH.
Qed.

Lemma existsb_fold_case p : existsb wildcard (fold_case <$> p) = existsb wildcard p.
Proof. induction p as [|c p IH]; [done|]. cbn. by rewrite fold_case_wildcard, IH. Qed.

Lemma written_literal p : existsb wildcard p = false -> concat (written <$> p) = p.
Proof.
  induction p as [|c p IH]; [done|]. cbn. rewrite orb_false_iff. intros [Hc Hp].
  unfold written at 1. destruct (not_wildcard c Hc) as (-> & -> & ->). cbn. by rewrite (IH Hp).
Qed.

(** ** A pattern of the configuration *)

Section Patterns.
Context (U : Unicode) {W : Type}.

Lemma ToLower_ascii p : Forall (fun c => pattern_char c = true) p -> ToLower U p = fold_case <$> p.
Proof.
  intros Hp. unfold ToLower. rewrite (runes_ascii p) by by apply pattern_ascii.
  assert (lower U <$> p = fold_case <$> p) as ->.
  { apply list_fmap_ext. intros i c Hc. unfold lower, fold_case. eapply Forall_lookup_1 in Hp; [|done].
    apply pattern_char_ascii in Hp as [_ Hp%Z.ltb_lt]. by rewrite Hp. }
  apply string_of_runes_ascii, pattern_ascii, Forall_fmap. eapply Forall_impl; [done|apply fold_case_pattern].
Qed.

Lemma ToUpper_ascii p : Forall (fun c => pattern_char c = true) p -> ToUpper U p = upper_case <$> p.
Proof.
  intros Hp. unfold ToUpper. rewrite (runes_ascii p) by by apply pattern_ascii.
  assert (upper U <$> p = upper_case <$> p) as ->.
  { apply list_fmap_ext. intros i c Hc. unfold upper, upper_case. eapply Forall_lookup_1 in Hp; [|done].
    apply pattern_char_ascii in Hp as [_ Hp%Z.ltb_lt]. by rewrite Hp. }
  apply string_of_runes_ascii, Forall_fmap. eapply Forall_impl; [exact (pattern_ascii _ Hp)|].
  intros c Hc. unfold ascii in *. cbn. unfold upper_case. destruct (between_spec 97 122 c); lia.
Qed.

(** The token that is made of a pattern. *)
Definition token_of (p : list Z) : list Z * bool :=
  (concat (written <$> (fold_case <$> p)), existsb wildcard p).

Lemma no_keyword p :
  (existsb wildcard p = false -> forall k, k ∈ reservedKeywords -> codes k <> upper_case <$> (fold_case <$> p)) ->
  Forall (fun c => pattern_char c = true) (fold_case <$> p) ->
  negb (existsb wildcard p) &&
  existsb (fun keyword => bool_decide (codes keyword = ToUpper U (concat (written <$> (fold_case <$> p)))))
    reservedKeywords = false.
Proof.
  intros Hk Hp. destruct (existsb wildcard p) eqn:Hw; [done|]. cbn [negb andb].
  rewrite written_literal by by rewrite existsb_fold_case. rewrite ToUpper_ascii by done.
  apply not_true_iff_false. intros Hex. apply existsb_exists in Hex as (k & Hin & Heq).
  apply bool_decide_eq_true in Heq. apply (Hk eq_refl k); [|done]. by apply list_elem_of_In.
Qed.

Lemma parseToken_pattern p (w : W) : is_pattern p -> parseToken U p w = Ret (token_of p) w.
Proof.
  intros ([Hlen1 Hlen2] & Hp & Hfirst & Hkey). destruct p as [|c p]; [cbn in Hlen1; lia|].
  set (q := c :: p) in *.
  assert (Forall (fun c => pattern_char c = true) (fold_case <$> q)) as Hq.
  { apply Forall_fmap. eapply Forall_impl; [done|apply fold_case_pattern]. }
  assert (pattern_char c = true) as Hc by by apply Forall_cons in Hp as [? _].
  assert (c <> quotation) as Hquote.
  { unfold quotation. pattern_cases c Hc; done. }
  destruct (lookup_lt_is_Some_2 q (length q - 1)) as [last Hlast]; [lia|].
  unfold parseToken. rewrite (bind_run _ _ _ c w eq_refl).
  assert (at_ q (length q - 1) = inr last) as Hat by (unfold at_; by rewrite Hlast).
  rewrite Hat, (bind_run _ _ _ last w eq_refl).
  apply Z.eqb_neq in Hquote. rewrite Hquote. cbn [andb negb].
  rewrite (ToLower_ascii q Hp), length_fmap.
  assert ((63 <? length q)%nat = false) as -> by (apply Nat.ltb_ge; lia). cbn [andb].
  assert (at_ (fold_case <$> q) 0 = inr (fold_case c)) as -> by done.
  rewrite (bind_run _ _ _ (fold_case c) w eq_refl).
  assert (IsLetter U (fold_case c) || (fold_case c =? underscore) || wildcard (fold_case c) = true) as ->.
  { pose proof (fold_case_pattern c Hc) as Hf. specialize (Hfirst c p eq_refl).
    destruct (pattern_char_cases (fold_case c) Hf) as [-> | [-> | [-> | (_ & Hclass & _)]]]; [by rewrite orb_true_r ..|].
    specialize (Hclass U). unfold IsNumber in Hclass. destruct (pattern_char_ascii _ Hf) as [_ Hlt].
    apply Z.ltb_lt in Hlt. rewrite Hlt in Hclass.
    assert (between 48 57 (fold_case c) = false) as Hd.
    { unfold fold_case. destruct (between_spec 65 90 c); [|done]. destruct (between_spec 48 57 (c + 32)); [lia|done]. }
    rewrite Hd, orb_false_r in Hclass. by rewrite Hclass. }
  rewrite (runes_ascii (fold_case <$> q)) by by apply pattern_ascii.
  replace (length q) with (length (fold_case <$> q)) by apply length_fmap. cbn [negb].
  rewrite (bind_run _ _ _ _ _ (scan_unquoted U (fold_case <$> q) (S (length (fold_case <$> q))) 0 [] false w Hq ltac:(lia) ltac:(lia))).
  rewrite drop_0, existsb_fold_case. cbn [fst snd app orb].
  rewrite string_of_runes_ascii by by apply written_ascii.
  rewrite no_keyword by done. done.
Qed.

(** The part of the filter that is made of it matches the names it describes. *)
Lemma part_regex_pattern p (w : W) :
  is_pattern p ->
  exists re, part_regex U (token_of p) w = Ret re w /\
    forall n, Forall (fun c => 0 <= c) n ->
      part_matches (part_text (token_of p)) re n = true <-> globs (fold_case <$> p) (runes n).
Proof.
  intros (_ & Hp & _). assert (Forall (fun c => pattern_char c = true) (fold_case <$> p)) as Hq.
  { apply Forall_fmap. eapply Forall_impl; [done|apply fold_case_pattern]. }
  unfold part_regex, part_text, token_of. cbn [fst snd]. destruct (existsb wildcard p) eqn:Hw.
  - eexists. split.
    + unfold MustCompile, anchored. rewrite runes_ascii.
      2: { cbn. constructor; [by unfold ascii|]. apply Forall_app. split; [by apply written_ascii|].
           repeat constructor; unfold ascii; lia. }
      cbn [app parse_regexp Z.eqb Pos.eqb]. rewrite (parse_written _ Hq). reflexivity.
    + intros n _. cbn. by apply items_match_globs.
  - exists None. split; [done|]. intros n Hn. cbn. rewrite bool_decide_eq_true.
    rewrite written_literal, globs_literal by by rewrite existsb_fold_case.
    split; [intros <-; by apply runes_ascii, pattern_ascii|].
    intros Heq. symmetry. apply runes_inj_ascii; [done|by apply pattern_ascii|done].
Qed.
End Patterns.

(** ** Terms and decisions *)

(** A term of the configuration: a pattern for the schema and one for the table. *)
Definition term (pq : list Z * list Z) : list Z := (fst pq ++ [46] ++ snd pq)%list.
Definition is_term (pq : list Z * list Z) : Prop := is_pattern (fst pq) /\ is_pattern (snd pq).

(** The table is described by one of the terms. *)
Definition selected (terms : list (list Z * list Z)) (t : Table) : Prop :=
  exists p q n e, (p, q) ∈ terms /\ matched_name t = Some (n, e) /\
    globs (fold_case <$> p) (runes n) /\ globs (fold_case <$> q) (runes e).

Lemma split_dots_none s : 46 ∉ s -> split_dots s = [s].
Proof.
  induction s as [|c s IH]; [done|]. intros [Hc Hs]%not_elem_of_cons. cbn. rewrite (IH Hs).
  destruct (Z.eqb_spec c 46); [by subst|done].
Qed.

Lemma split_dots_app s t : 46 ∉ s -> split_dots (s ++ 46 :: t) = s :: split_dots t.
Proof.
  induction s as [|c s IH]; [done|]. intros [Hc Hs]%not_elem_of_cons. cbn. rewrite (IH Hs).
  destruct (Z.eqb_spec c 46); [by subst|done].
Qed.

Lemma pattern_no_dot p : is_pattern p -> 46 ∉ p.
Proof.
  intros (_ & Hp & _) Hin. rewrite Forall_forall in Hp. specialize (Hp _ Hin). discriminate Hp.
Qed.

Lemma matched_name_nonneg t n e :
  matched_name t = Some (n, e) -> Forall (fun c => 0 <= c) n /\ Forall (fun c => 0 <= c) e.
Proof.
  unfold matched_name. intros H. repeat case_match; simplify_eq; split; apply codes_nonneg.
Qed.

Section Decisions.
Context (U : Unicode) {W : Type}.

Lemma parseFilter_term pq (w : W) :
  is_term pq -> exists f, parseFilter U (term pq) w = Ret f w /\
    forall t, matches f t = true <-> selected [pq] t.
Proof.
  destruct pq as [p q]. intros [Hp Hq]. cbn in Hp, Hq.
  destruct (part_regex_pattern U p w Hp) as (re1 & Hr1 & Hm1).
  destruct (part_regex_pattern U q w Hq) as (re2 & Hr2 & Hm2).
  eexists. split.
  - unfold parseFilter, term. cbn [fst snd app].
    rewrite split_dots_app, split_dots_none by by apply pattern_no_dot.
    rewrite (bind_run _ _ _ _ _ (parseToken_pattern U p w Hp)), (bind_run _ _ _ _ _ (parseToken_pattern U q w Hq)).
    rewrite (bind_run _ _ _ _ _ Hr1), (bind_run _ _ _ _ _ Hr2). reflexivity.
  - intros t. unfold matches, selected. cbn [namespace table namespaceRegex tableRegex].
    destruct (matched_name t) as [[n e]|] eqn:Ht.
    + destruct (matched_name_nonneg _ _ _ Ht) as [Hn He]. rewrite andb_true_iff, Hm1, Hm2 by done. split.
      * intros [H1 H2]. exists p, q, n, e. split_and!; [by constructor|done|done|done].
      * intros (p' & q' & n' & e' & Hin & [= <- <-] & H1 & H2). apply list_elem_of_singleton in Hin as [= -> ->]. done.
    + split; [done|]. by intros (p' & q' & n' & e' & _ & Hx & _).
Qed.

Lemma parseFilters_terms terms (w : W) :
  Forall is_term terms -> exists fs, parseFilters U (term <$> terms) w = Ret fs w /\
    forall t, existsb (fun f => matches f t) fs = true <-> selected terms t.
Proof.
  induction 1 as [|pq terms Hpq _ (fs & Hfs & IH)].
  { exists []. split; [done|]. intros t. split; [done|]. intros (p & q & n & e & Hin & _). set_solver. }
  destruct (parseFilter_term pq w Hpq) as (f & Hf & Hm). exists (f :: fs). split.
  - cbn [fmap list_fmap parseFilters]. by rewrite (bind_run _ _ _ _ _ Hf), (bind_run _ _ _ _ _ Hfs).
  - intros t. cbn [existsb]. rewrite orb_true_iff, Hm, IH. unfold selected. split.
    + intros [(p & q & n & e & Hin & Hrest)|(p & q & n & e & Hin & Hrest)]; exists p, q, n, e;
        (split; [set_solver|done]).
    + intros (p & q & n & e & Hin & Hrest). apply elem_of_cons in Hin as [Heq|Hin];
        [left|right]; exists p, q, n, e; (split; [set_solver|done]).
Qed.
End Decisions.

(** The tables that are asked for one after the other. *)
Fixpoint ask (tables : list Table) : G TableFilter (list bool) :=
  match tables with
  | [] => mret []
  | t :: ts => b ← Enabled t; bs ← ask ts; mret (b :: bs)
  end.

Definition rule (rf : TableFilter) (t : Table) : bool :=
  if existsb (fun f => matches f t) (excludes rf) then false
  else if existsb (fun f => matches f t) (includes rf) then true
  else acceptedByDefault rf.

(** Tables of one canonical name are compared by one name. *)
Definition names_agree (tables : list Table) : Prop :=
  forall a b, a ∈ tables -> b ∈ tables -> CanonicalName (entity_of a) = CanonicalName (entity_of b) ->
    matched_name a = matched_name b.

Lemma matches_name f a b : matched_name a = matched_name b -> matches f a = matches f b.
Proof. unfold matches. by intros ->. Qed.

Lemma rule_name rf a b : matched_name a = matched_name b -> rule rf a = rule rf b.
Proof.
  intros H. unfold rule.
  assert (forall fs, existsb (fun f => matches f a) fs = existsb (fun f => matches f b) fs) as Hex.
  { intros fs. induction fs as [|f fs IH]; [done|]. cbn. by rewrite IH, (matches_name f a b H). }
  by rewrite !Hex.
Qed.

Definition cache_ok (all : list Table) (rf : TableFilter) : Prop :=
  forall t v, t ∈ all -> filterCache rf !! CanonicalName (entity_of t) = Some v -> v = rule rf t.

Lemma Enabled_rule all t rf :
  names_agree all -> t ∈ all -> cache_ok all rf ->
  exists rf', Enabled t rf = Ret (rule rf t) rf' /\ cache_ok all rf' /\ (forall u, rule rf' u = rule rf u).
Proof.
  intros Hagree Ht Hok. unfold Enabled. rewrite (bind_run get _ _ _ _ eq_refl).
  destruct (filterCache rf !! CanonicalName (entity_of t)) as [v|] eqn:Hv.
  - exists rf. rewrite (Hok t v Ht Hv). done.
  - exists (cache (CanonicalName (entity_of t)) (rule rf t) rf). split; [|split; [|done]].
    + unfold rule. repeat case_match; reflexivity.
    + intros u v Hu Hlook. change (rule (cache _ _ rf) u) with (rule rf u). cbn in Hlook.
      apply lookup_insert_Some in Hlook as [[Hn <-]|[_ Hlook]]; [|by apply Hok].
      apply rule_name. by apply Hagree.
Qed.

Lemma ask_rule all tables rf :
  names_agree all -> tables ⊆ all -> cache_ok all rf ->
  exists rf', ask tables rf = Ret (rule rf <$> tables) rf'.
Proof.
  intros Hagree. revert rf. induction tables as [|t ts IH]; intros rf Hsub Hok; [by exists rf|].
  destruct (Enabled_rule all t rf) as (rf1 & Hrun & Hok1 & Hrule); [done|set_solver|done|].
  destruct (IH rf1) as (rf2 & Hrun2); [set_solver|done|]. exists rf2.
  cbn [ask]. rewrite (bind_run _ _ _ _ _ Hrun), (bind_run _ _ _ _ _ Hrun2).
  cbn. do 2 f_equal. apply list_fmap_ext. intros. apply Hrule.
Qed.

(** A filter that is built from terms, with its cache still empty. *)
Lemma new_table_filter_rule (U : Unicode) {W} (w : W) (excludeTerms includeTerms : list (list Z * list Z)) (accepted : bool) :
  Forall is_term excludeTerms -> Forall is_term includeTerms ->
  exists rf, NewTableFilter U (term <$> excludeTerms) (term <$> includeTerms) accepted w = Ret rf w /\
    (forall all, cache_ok all rf) /\
    forall t, rule rf t = true <-> ~ selected excludeTerms t /\ (selected includeTerms t \/ accepted = true).
Proof.
  intros He Hi. destruct (parseFilters_terms U excludeTerms w He) as (fe & Hfe & Hme).
  destruct (parseFilters_terms U includeTerms w Hi) as (fi & Hfi & Hmi).
  exists (mkTableFilter fi fe ∅ accepted). split_and!.
  - unfold NewTableFilter. by rewrite (bind_run _ _ _ _ _ Hfe), (bind_run _ _ _ _ _ Hfi).
  - intros all t v _ Hl. by destruct (lookup_empty_Some _ _ Hl).
  - intros t. specialize (Hme t). specialize (Hmi t). unfold rule. cbn.
    destruct (existsb (fun f => matches f t) fe), (existsb (fun f => matches f t) fi), accepted; intuition congruence.
Qed.

(** C20. The filter decides as its patterns say.  A term is two unquoted patterns, for
    the schema and for the table, each of at least one and at most 63 of the letters
    a-z and A-Z, digits, underscores and wildcards, which does not begin with a digit
    and, unless it has a wildcard, is no reserved keyword.  For include and exclude
    terms of this form the filter can be built, and asked for any tables in any order, with its cache, it answers for each of
    them: the table is replicated exactly if no exclude term describes it, and
    an include term does or tables are accepted by default.  A term describes a
    table when its two patterns, folded to lower case, describe the schema and
    the table name, or those of the view for a continuous aggregate.  Tables of
    the same canonical name must be compared by the same name. *)
Theorem table_filter_decides (U : Unicode) {W} (w : W) (excludeTerms includeTerms : list (list Z * list Z))
    (acceptedByDefault : bool) (tables : list Table) :
  Forall is_term excludeTerms -> Forall is_term includeTerms -> names_agree tables ->
  exists rf, NewTableFilter U (term <$> excludeTerms) (term <$> includeTerms) acceptedByDefault w = Ret rf w /\
  exists answers rf', ask tables rf = Ret answers rf' /\
    Forall2 (fun t answer => answer = true <->
      ~ selected excludeTerms t /\ (selected includeTerms t \/ acceptedByDefault = true)) tables answers.
Proof.
  intros He Hi Hagree. destruct (new_table_filter_rule U w _ _ acceptedByDefault He Hi) as (rf & Hrf & Hcache & Hrule).
  exists rf. split; [exact Hrf|]. destruct (ask_rule tables tables rf) as (rf' & Hask); [done|done|apply Hcache|].
  eexists _, rf'. split; [exact Hask|]. apply Forall2_fmap_r, Forall_Forall2_diag, Forall_forall. intros t _. apply Hrule.
Qed.

(** ** Tokens outside the patterns *)

(** Ends without a result, but not because the model ran out of fuel. *)
Definition refused {W A} (o : outcome W A) : Prop :=
  (exists e w, o = Err e w) \/ o = Crash PanicIndexOutOfRange.

Lemma scan_refused (U : Unicode) {W} (w : W) l lastIndex fuel i acc rg :
  (length l < lastIndex)%nat -> (length l - i < fuel)%nat -> (i <= length l)%nat ->
  refused (scan U false l lastIndex fuel i acc rg w).
Proof.
  intros Hlast. revert i acc rg. induction fuel as [|fuel IH]; intros i acc rg Hf Hi; [lia|].
  cbn [scan]. destruct (Nat.leb_spec lastIndex i) as [|_]; [lia|].
  destruct (l !! i) as [c|] eqn:Hc.
  2: { right. assert (at_ l i = inl PanicIndexOutOfRange) as -> by (unfold at_; by rewrite Hc). done. }
  assert (at_ l i = inr c) as -> by (unfold at_; by rewrite Hc).
  rewrite (bind_run _ _ _ c w eq_refl), !andb_false_r. apply lookup_lt_Some in Hc.
  repeat case_match; try (apply IH; lia). left. by eexists _, _.
Qed.

(** An unquoted pattern with a character of several bytes is never accepted: the
    loop counts up to the number of bytes but looks at the runes, of which there
    are fewer, so it meets an illegal character or indexes out of range. *)
Theorem multibyte_pattern_refused (U : Unicode) {W} (w : W) (token : list Z) (c : Z) :
  token !! 0%nat = Some c -> c <> quotation ->
  (length (runes (ToLower U token)) < length (ToLower U token))%nat ->
  refused (parseToken U token w).
Proof.
  intros Hc Hq Hlen. unfold parseToken.
  assert (at_ token 0 = inr c) as -> by (unfold at_; by rewrite Hc). rewrite (bind_run _ _ _ c w eq_refl).
  destruct (lookup_lt_is_Some_2 token (length token - 1)) as [d Hd]; [apply lookup_lt_Some in Hc; lia|].
  assert (at_ token (length token - 1) = inr d) as -> by (unfold at_; by rewrite Hd).
  rewrite (bind_run _ _ _ d w eq_refl). apply Z.eqb_neq in Hq. rewrite Hq. cbn [andb negb orb].
  destruct (63 <? _)%nat; cbn [andb]; [left; by eexists _, _|].
  destruct (ToLower U token) as [|c' t'] eqn:Ht; [cbn in Hlen; lia|]. rewrite <- Ht in *.
  assert (at_ (ToLower U token) 0 = inr c') as -> by by rewrite Ht. rewrite (bind_run _ _ _ c' w eq_refl).
  destruct (negb _); [left; by eexists _, _|].
  destruct (scan_refused U w (runes (ToLower U token)) (length (ToLower U token)) (S (length (ToLower U token)))
    0 [] false) as [(e & w' & He)|He]; try lia.
  - left. exists e, w'. by apply bind_err.
  - right. by apply bind_crash.
Qed.

(** ** Concrete inputs *)

Definition ascii_only : Unicode := mkUnicode (fun _ => true) (fun _ => false) (fun c => c) (fun c => c) (fun _ => None).

Definition plain (s t : string) : Table := AnEntity (NewSystemEntity s t).

Lemma is_pattern_check p :
  (0 <? length p)%nat && (length p <=? 63)%nat && forallb pattern_char p &&
  match p with c :: _ => negb (between 48 57 c) | [] => true end &&
  forallb (fun k => negb (bool_decide (codes k = upper_case <$> (fold_case <$> p)))) reservedKeywords = true ->
  is_pattern p.
Proof.
  rewrite !andb_true_iff, Nat.ltb_lt, Nat.leb_le, !forallb_forall. intros ((((H1 & H2) & H3) & H4) & H5).
  split_and!; [done|done| | |].
  - apply Forall_forall. intros c Hc. by apply H3, list_elem_of_In.
  - intros c p' ->. by apply negb_true_iff in H4.
  - intros _ k Hk Heq. apply list_elem_of_In in Hk. specialize (H5 k Hk).
    by rewrite bool_decide_eq_true_2 in H5.
Qed.

(** Exclude [public.test], include [PUBLIC.t+]. *)
Definition some_tables : list Table :=
  [plain "public" "test"; plain "public" "test2"; plain "public" "t"; plain "other" "test2"].

Lemma table_filter_decides_witness :
  exists rf answers rf', NewTableFilter ascii_only [codes "public.test"] [codes "PUBLIC.t+"] false tt = Ret rf tt /\
    ask some_tables rf = Ret answers rf' /\
    Forall2 (fun t answer => answer = true <->
      ~ selected [(codes "public", codes "test")] t /\
      (selected [(codes "PUBLIC", codes "t+")] t \/ false = true)) some_tables answers.
Proof.
  destruct (table_filter_decides ascii_only tt [(codes "public", codes "test")] [(codes "PUBLIC", codes "t+")] false
    some_tables) as (rf & Hrf & answers & rf' & Hask & Hans).
  - constructor; [|constructor]. split; apply is_pattern_check; vm_compute; reflexivity.
  - constructor; [|constructor]. split; apply is_pattern_check; vm_compute; reflexivity.
  - intros a b Ha Hb. unfold some_tables in Ha, Hb. rewrite !elem_of_cons, elem_of_nil in Ha, Hb.
    destruct Ha as [-> | [-> | [-> | [-> | []]]]]; destruct Hb as [-> | [-> | [-> | [-> | []]]]]; vm_compute;
      intros Heq; first [reflexivity | discriminate Heq].
  - exists rf, answers, rf'. split; [exact Hrf|split; [exact Hask|exact Hans]].
Defined.

Example some_answers :
  match NewTableFilter ascii_only [codes "public.test"] [codes "PUBLIC.t+"] false tt with
  | Ret rf _ => match ask some_tables rf with Ret answers _ => answers | _ => [] end
  | _ => []
  end = [false; true; false; false].
Proof. vm_compute. reflexivity. Qed.

Lemma multibyte_pattern_refused_witness : refused (parseToken ascii_only [116; 195; 164] tt).
Proof.
  apply (multibyte_pattern_refused ascii_only tt [116; 195; 164] 116).
  - reflexivity.
  - discriminate.
  - vm_compute. lia.
Defined.
