(* ===== verification/Sinks.v ===== *)
(** * Sinks: the sink manager and its persistent attributes

    internal/eventing/sink/sinkcontext.go and sinkmanager.go: the attributes that
    a sink keeps, their binary form, and the manager that restores them when the
    process starts and stores them when it stops.  The sink itself is a client of
    a third-party service and a parameter; the state storage is any storage that
    obeys the laws of the interface (StateStorage.v). *)

From Stdlib Require Import ZArith Lia.
From Stdlib Require Import Strings.Byte.
From stdpp Require Import base tactics option list numbers strings gmap fin_maps.
From S2P Require Import Prelude Encoding StateStorage.

Local Open Scope Z_scope.

(** ** The context *)

Record sinkContext : Type := mkSinkContext {
  attributes : gmap string string;
  transientAttributes : gmap string string;
}.

Definition newSinkContext : sinkContext := mkSinkContext ∅ ∅.

Definition SetTransientAttribute (key value : string) (s : sinkContext) : sinkContext :=
  mkSinkContext (attributes s) (<[ key := value ]> (transientAttributes s)).
Definition TransientAttribute (key : string) (s : sinkContext) : option string := transientAttributes s !! key.
Definition SetAttribute (key value : string) (s : sinkContext) : sinkContext :=
  mkSinkContext (<[ key := value ]> (attributes s)) (transientAttributes s).
Definition Attribute (key : string) (s : sinkContext) : option string := attributes s !! key.

(** One round of the loop of [MarshalBinary]. *)
Definition entry_bytes (e : string * string) : bytes :=
  (be_put 4 (u32 (Z.of_nat (length (bytes_of (fst e))))) ++
   be_put 4 (u32 (Z.of_nat (length (bytes_of (snd e))))) ++ bytes_of (fst e) ++ bytes_of (snd e))%list.

(** [entries] are the attributes in the order in which the map is visited. *)
Definition MarshalBinary (entries : list (string * string)) (s : sinkContext) : bytes :=
  (be_put 4 (u32 (Z.of_nat (size (attributes s)))) ++ concat (entry_bytes <$> entries))%list.

(** [binary.BigEndian.Uint32(data[offset:])] *)
Definition uint32_at (data : bytes) (offset : Z) : crash + Z :=
  d ← from data (Z.to_nat offset); BigEndian_Uint 4 d.

(** One round of the loop of [UnmarshalBinary]; the offset is 32 bits wide. *)
Definition unmarshalEntry (data spare : bytes) (offset : Z) : crash + (string * string * Z) :=
  keyLength ← uint32_at data offset;
  let offset := u32 (offset + 4) in
  valueLength ← uint32_at data offset;
  let offset := u32 (offset + 4) in
  key ← slice data spare (Z.to_nat offset) (Z.to_nat (u32 (offset + keyLength)));
  let offset := u32 (offset + keyLength) in
  value ← slice data spare (Z.to_nat offset) (Z.to_nat (u32 (offset + valueLength)));
  mret (string_of key, string_of value, u32 (offset + valueLength)).

Fixpoint unmarshalEntries (data spare : bytes) (numOfItems : nat) (offset : Z) (s : sinkContext) :
    crash + sinkContext :=
  match numOfItems with
  | O => mret s
  | S n =>
      e ← unmarshalEntry data spare offset;
      unmarshalEntries data spare n (snd e) (SetAttribute (fst (fst e)) (snd (fst e)) s)
  end.

Definition UnmarshalBinary (data spare : bytes) (s : sinkContext) : crash + sinkContext :=
  numOfItems ← uint32_at data 0;
  unmarshalEntries data spare (Z.to_nat numOfItems) 4 s.

(** ** The manager *)

Definition sinkContextStateName : string := "SinkContextState".

(** What a sink offers; [K] is its state. *)
Record Sink (K : Type) : Type := mkSink {
  sink_Start : G K unit;
  sink_Stop : G K unit;
}.
Arguments sink_Start {K}.
Arguments sink_Stop {K}.

Section Manager.
Context {S : Type} `{StorageLaws S} {K : Type} (snk : Sink K).

Record sinkManager : Type := mkSinkManager {
  stateStorage : S;
  context : sinkContext;
  sink : K;
}.

Definition NewSinkManager (s : S) (k : K) : sinkManager := mkSinkManager s newSinkContext k.

Definition set_context (c : sinkContext) (m : sinkManager) : sinkManager :=
  mkSinkManager (stateStorage m) c (sink m).

Definition on_sink (f : G K unit) : G sinkManager unit :=
  zoom sink (fun k m => mkSinkManager (stateStorage m) (context m) k) f.

Definition on_storage (f : G S unit) : G sinkManager unit :=
  zoom stateStorage (fun s m => mkSinkManager s (context m) (sink m)) f.

(** [spare] is what lies behind the state in memory. *)
Definition Start (spare : bytes) : G sinkManager unit :=
  m ← get;
  match st_EncodedState sinkContextStateName (stateStorage m) with
  | Some encodedSinkContextState =>
      c ← lift (UnmarshalBinary encodedSinkContextState spare (context m));
      modify (set_context c)
  | None => on_sink (sink_Start snk)
  end.

Definition Stop (entries : list (string * string)) : G sinkManager unit :=
  m ← get;
  on_storage (st_StateEncoder sinkContextStateName (inr (inr (MarshalBinary entries (context m))))) ;;
  on_sink (sink_Stop snk).
End Manager.

Arguments sinkManager : clear implicits.
Arguments mkSinkManager {S K}.

(** ** The attributes survive *)

Definition entry_size (e : string * string) : Z :=
  8 + Z.of_nat (length (bytes_of (fst e))) + Z.of_nat (length (bytes_of (snd e))).

(** The encoded attributes fit a 32-bit offset. *)
Definition encodable_entries (entries : list (string * string)) : Prop :=
  4 + foldr (fun e z => entry_size e + z) 0 entries < 2 ^ 32.

Lemma entries_size_nonneg entries : 0 <= foldr (fun e z => entry_size e + z) 0 entries.
Proof. induction entries as [|e l IH]; cbn; unfold entry_size in *; lia. Qed.

Lemma length_entry_bytes e : Z.of_nat (length (entry_bytes e)) = entry_size e.
Proof. unfold entry_bytes, entry_size. rewrite !length_app, !length_be_put. lia. Qed.

Lemma uint32_at_put pre z post offset :
  in_u 32 z -> offset = Z.of_nat (length pre) ->
  uint32_at (pre ++ be_put 4 z ++ post) offset = inr z.
Proof.
  intros Hz ->. unfold uint32_at. rewrite Nat2Z.id, (from_at pre (be_put 4 z ++ post)) by done.
  by apply (Uint_put 4).
Qed.

Lemma unmarshalEntry_entry pre e post (spare : bytes) :
  let offset := Z.of_nat (length pre) in
  offset + entry_size e < 2 ^ 32 ->
  unmarshalEntry (pre ++ entry_bytes e ++ post) spare offset = inr (e, offset + entry_size e).
Proof.
  intros offset. destruct e as [k v]. unfold entry_bytes, entry_size. cbn [fst snd].
  set (kb := bytes_of k). set (vb := bytes_of v). intros Hlt.
  assert (forall z, 0 <= z < 2 ^ 32 -> u32 z = z) as Hw by (intros; by apply wrapu_small).
  rewrite (Hw (Z.of_nat (length kb))), (Hw (Z.of_nat (length vb))) by lia.
  set (lk := be_put 4 (Z.of_nat (length kb))). set (lv := be_put 4 (Z.of_nat (length vb))).
  assert (length lk = 4%nat) as Hlk by apply length_be_put.
  assert (length lv = 4%nat) as Hlv by apply length_be_put.
  set (data := (pre ++ (lk ++ lv ++ kb ++ vb) ++ post)%list).
  unfold unmarshalEntry.
  rewrite (pure_run _ _ (Z.of_nat (length kb))).
  2: { unfold data, lk. rewrite <- !app_assoc. apply uint32_at_put; [unfold in_u; lia|done]. }
  rewrite (Hw (offset + 4)) by lia.
  rewrite (pure_run _ _ (Z.of_nat (length vb))).
  2: { assert (data = (pre ++ lk) ++ lv ++ (kb ++ vb ++ post))%list as -> by (unfold data; by rewrite <- !app_assoc).
       apply uint32_at_put; [unfold in_u; lia|]. rewrite length_app. lia. }
  rewrite (Hw (offset + 4 + 4)), (Hw (offset + 4 + 4 + Z.of_nat (length kb))) by lia.
  rewrite (pure_run _ _ kb).
  2: { apply (slice_at (pre ++ lk ++ lv) kb (vb ++ post)); [unfold data; by rewrite <- !app_assoc| |lia].
       rewrite !length_app. lia. }
  rewrite (Hw (offset + 4 + 4 + Z.of_nat (length kb) + Z.of_nat (length vb))) by lia.
  rewrite (pure_run _ _ vb).
  2: { apply (slice_at (pre ++ lk ++ lv ++ kb) vb post); [unfold data; by rewrite <- !app_assoc| |lia].
       rewrite !length_app. lia. }
  unfold kb, vb. rewrite !String.string_of_list_byte_of_string. unfold mret, pure_ret. do 2 f_equal. lia.
Qed.

Lemma unmarshalEntries_entries entries pre (spare : bytes) s :
  Z.of_nat (length pre) + foldr (fun e z => entry_size e + z) 0 entries < 2 ^ 32 ->
  unmarshalEntries (pre ++ concat (entry_bytes <$> entries)) spare (length entries) (Z.of_nat (length pre)) s =
    inr (fold_left (fun s e => SetAttribute (fst e) (snd e) s) entries s).
Proof.
  revert pre s. induction entries as [|e l IH]; intros pre s Hlt; [done|].
  cbn [unmarshalEntries foldr fold_left fmap list_fmap concat length] in Hlt |- *.
  pose proof (entries_size_nonneg l).
  rewrite (pure_run _ _ _ (unmarshalEntry_entry pre e (concat (entry_bytes <$> l)) spare ltac:(lia))).
  cbn [fst snd]. rewrite app_assoc, <- length_entry_bytes, <- Nat2Z.inj_add, <- length_app.
  apply IH. rewrite length_app, Nat2Z.inj_add, length_entry_bytes. lia.
Qed.

Lemma set_attributes_fold entries s :
  fold_left (fun s e => SetAttribute (fst e) (snd e) s) entries s =
  mkSinkContext (fold_left (fun m e => <[ fst e := snd e ]> m) entries (attributes s)) (transientAttributes s).
Proof. revert s. induction entries as [|e l IH]; intros [a t]; cbn; [done|]. by rewrite IH. Qed.

Lemma unmarshal_attributes entries (spare : bytes) s :
  entries ≡ₚ map_to_list (attributes s) -> encodable_entries entries ->
  UnmarshalBinary (MarshalBinary entries s) spare newSinkContext = inr (mkSinkContext (attributes s) ∅).
Proof.
  intros Hperm Henc. unfold encodable_entries in Henc. pose proof (length_visit _ _ Hperm) as Hlen.
  assert (8 * Z.of_nat (length entries) <= foldr (fun e z => entry_size e + z) 0 entries) as Hcount.
  { clear. induction entries as [|e l IH]; cbn -[Z.mul]; unfold entry_size in *; lia. }
  unfold MarshalBinary, UnmarshalBinary. rewrite <- Hlen.
  rewrite wrapu_small by (unfold in_u; lia).
  rewrite (pure_run _ _ (Z.of_nat (length entries))).
  2: { apply (uint32_at_put [] _ _ 0); [unfold in_u; lia|done]. }
  rewrite Nat2Z.id. set (pre := be_put 4 (Z.of_nat (length entries))).
  assert (length pre = 4%nat) as Hpre by apply length_be_put.
  change 4 with (Z.of_nat 4) at 1. rewrite <- Hpre, unmarshalEntries_entries by lia.
  rewrite set_attributes_fold. cbn. by rewrite (insert_entries _ _ Hperm).
Qed.

Lemma encode_state {S} `{StorageLaws S} n (d : bytes) (s : S) :
  st_StateEncoder n (inr (inr d)) s = Ret tt (st_SetEncodedState n d s).
Proof. rewrite st_encode. reflexivity. Qed.

(** What a restart restores, and what it does not do: when the manager has
    stopped, the next manager on the same storage starts with exactly the
    attributes that were set (the transient ones are gone), in whatever order
    the map was encoded; but because a stored state is there, it returns without
    starting the sink. *)
Theorem restart_restores_context_without_sink {S} `{StorageLaws S} {K} (snk : Sink K) (m m' : sinkManager S K)
    (entries : list (string * string)) (k : K) (spare : bytes) :
  entries ≡ₚ map_to_list (attributes (context m)) -> encodable_entries entries ->
  Stop snk entries m = Ret tt m' ->
  Start snk spare (NewSinkManager (stateStorage m') k) =
    Ret tt (mkSinkManager (stateStorage m') (mkSinkContext (attributes (context m)) ∅) k).
Proof.
  intros Hperm Henc Hstop. unfold Stop in Hstop. rewrite (bind_run get _ _ _ _ eq_refl) in Hstop.
  apply bind_ret_inv in Hstop as ([] & m1 & H1 & H2).
  unfold on_storage, zoom in H1. rewrite encode_state in H1. injection H1 as <-.
  unfold on_sink, zoom in H2. destruct (sink_Stop snk _) as [[] k2| |]; try done. injection H2 as <-.
  unfold Start. rewrite (bind_run get _ _ _ _ eq_refl). cbn [stateStorage NewSinkManager context].
  rewrite st_state_setState, decide_True by done.
  rewrite (unmarshal_attributes _ spare _ Hperm Henc). reflexivity.
Qed.

(** *** A concrete input *)

Lemma restart_restores_context_without_sink_witness :
  let snk : Sink bool := mkSink _ (fun _ => Ret tt true) (fun _ => Ret tt false) in
  let m := mkSinkManager DummyStorage.NewDummyStateStorage (SetAttribute "position" "17" newSinkContext) true in
  exists m', Stop snk [("position", "17")]%string m = Ret tt m' /\
    Start snk [] (NewSinkManager (stateStorage m') false) =
      Ret tt (mkSinkManager (stateStorage m') (SetAttribute "position" "17" newSinkContext) false).
Proof.
  intros snk m. eexists. split; [reflexivity|].
  apply (restart_restores_context_without_sink snk m _ [("position", "17")]%string false []).
  - reflexivity.
  - vm_compute. reflexivity.
  - reflexivity.
Defined.
