(* ===== verification/Emitter.v ===== *)
(** * Emitter: from events to the sink

    - [Events]: the event structs of spi/schema/eventschema.go.
    - [Streams]: spi/stream/stream.go and streammanager.go, one stream per table.
    - [Filters]: internal/eventing/eventfiltering/eventfilter.go.
    - [EventEmitter]: internal/eventing/eventemitting/eventemitter.go, the handler
      at the end of the pipeline: it converts the values, builds key and payload,
      asks the filter, sends the event and acknowledges its position.

    A schema.Struct is a finite map to values of a dynamic type.  Parameters are
    the topic names (naming strategy), the converters of the type manager, the
    schema that a table's builder gives, the compiled filter expressions, the
    text of a log position, the clock, and the answers of the sink, call by call. *)

From Stdlib Require Import ZArith Lia.
From Stdlib Require Import Strings.Byte.
From stdpp Require Import base tactics option list numbers strings gmap.
From S2P Require Import Prelude Encoding Entities Values StateStorage TableFilter Messages.
From S2P Require Import ReplicationContext ReplicationHandler.

Local Open Scope Z_scope.

(** ** Structs *)

(** What a field of a struct holds.  [ANilStruct] is a nil map in an interface,
    [AUint32Ptr] a pointer that may be nil. *)
Inductive any : Type :=
| ANil
| ABool (b : bool)
| AInt (z : Z)
| AString (s : string)
| AValue (v : value)
| AUint32Ptr (p : option Z)
| AStruct (fields : gmap string any)
| ANilStruct
| AStructs (l : list (gmap string any))
| AStrings (l : list string)
| AFloat64 (bits : Z).

Abbreviation Struct := (gmap string any).

Definition of_struct (s : option Struct) : any :=
  match s with Some m => AStruct m | None => ANilStruct end.

(** The rows: column values by name, as a struct. *)
Definition of_values (vs : values) : Struct := AValue <$> vs.

(** [if s != nil { event[name] = s }] *)
Definition put_present (name : string) (s : option Struct) (event : Struct) : Struct :=
  match s with Some m => <[ name := AStruct m ]> event | None => event end.

(** The characters of base64.StdEncoding. *)
Definition base64_char (z : Z) : byte :=
  byte_of_Z (if z <? 26 then z + 65 else if z <? 52 then z + 71 else if z <? 62 then z - 4
             else if z =? 62 then 43 else 47).

Fixpoint base64 (d : bytes) : bytes :=
  match d with
  | [] => []
  | [a] =>
      let x := Z_of_byte a * 65536 in
      [base64_char (x / 262144); base64_char (x / 4096 mod 64); byte_of_Z 61; byte_of_Z 61]
  | [a; b] =>
      let x := Z_of_byte a * 65536 + Z_of_byte b * 256 in
      [base64_char (x / 262144); base64_char (x / 4096 mod 64); base64_char (x / 64 mod 64); byte_of_Z 61]
  | a :: b :: c :: d' =>
      let x := Z_of_byte a * 65536 + Z_of_byte b * 256 + Z_of_byte c in
      base64_char (x / 262144) :: base64_char (x / 4096 mod 64) :: base64_char (x / 64 mod 64) ::
      base64_char (x mod 64) :: base64 d'
  end.

Definition EncodeToString (d : bytes) : string := string_of (base64 d).

Module Events.

(** [now] is the clock in milliseconds. *)
Definition event (op : string) (now : Z) (source : option Struct) (rest : Struct) : Struct :=
  <[ "ts_ms" := AInt now ]> (put_present "source" source (<[ "op" := AString op ]> rest)).

Definition ReadEvent (now : Z) (record source : option Struct) : Struct :=
  event "r" now source {[ "after" := of_struct record ]}.
Definition CreateEvent (now : Z) (record source : option Struct) : Struct :=
  event "c" now source {[ "after" := of_struct record ]}.
Definition UpdateEvent (now : Z) (before after source : option Struct) : Struct :=
  event "u" now source (put_present "after" after (put_present "before" before ∅)).
Definition DeleteEvent (now : Z) (before source : option Struct) (tombstone : bool) : Struct :=
  let fields := put_present "before" before ∅ in
  event "d" now source (if tombstone then <[ "after" := ANil ]> fields else fields).
Definition TruncateEvent (now : Z) (source : option Struct) : Struct := event "t" now source ∅.
Definition MessageEvent (now : Z) (prefix : string) (content : option string) (source : option Struct) : Struct :=
  let block : Struct := {[ "prefix" := AString prefix ]} in
  let block := match content with Some c => <[ "content" := AString c ]> block | None => block end in
  event "m" now source {[ "message" := AStruct block ]}.
Definition CompressionEvent (now : Z) (source : option Struct) : Struct :=
  event "$" now source {[ "tsdb_op" := AString "c" ]}.
Definition DecompressionEvent (now : Z) (source : option Struct) : Struct :=
  event "$" now source {[ "tsdb_op" := AString "d" ]}.

Definition TimescaleKey (schemaName tableName : string) : Struct :=
  {[ "schema" := AString schemaName; "table" := AString tableName ]}.

Definition Envelope (schema payload : option Struct) : Struct :=
  {[ "schema" := of_struct schema; "payload" := of_struct payload ]}.

(** version.Version *)
Definition Version : string := "0.12.1-dev".

(** [lsn_text] is LSN.String() of pglogrepl; the time stamp is in milliseconds. *)
Definition Source (lsn_text : Z -> string) (lsn timestamp : Z) (snapshot : bool)
    (databaseName schemaName hypertableName : string) (transactionId : option Z) : Struct :=
  {[ "version" := AString Version;
     "connector" := AString "timescaledb-event-streamer";
     "name" := AString databaseName;
     "ts_ms" := AInt timestamp;
     "snapshot" := ABool snapshot;
     "db" := AString databaseName;
     "schema" := AString schemaName;
     "table" := AString hypertableName;
     "txId" := AUint32Ptr transactionId;
     "lsn" := AString (lsn_text lsn) ]}.

Definition keySchemaElement (fieldName : string) (index : Z) (schemaType : string) (optional : bool) : Struct :=
  {[ "name" := AString fieldName; "index" := AInt index;
     "schema" := AStruct {[ "type" := AString schemaType; "optional" := ABool optional ]} ]}.

(** The fields of a key schema: the primary key columns, numbered. *)
Fixpoint key_fields (schemaType : PgType -> string) (columns : list Column) (fieldIndex : Z) : list Struct :=
  match columns with
  | [] => []
  | c :: cs =>
      if Col.primaryKey c
      then keySchemaElement (Col.name c) fieldIndex (schemaType (Col.pgType c)) false
             :: key_fields schemaType cs (fieldIndex + 1)
      else key_fields schemaType cs fieldIndex
  end.

Definition KeySchema (schemaType : PgType -> string) (schemaTopicName : string) (columns : list Column) : Struct :=
  {[ "type" := AString "struct"; "name" := AString (schemaTopicName ++ ".Key"); "optional" := ABool false;
     "fields" := AStructs (key_fields schemaType columns 0) ]}.

Definition simpleSchemaElement (fieldName schemaType : string) (optional : bool) : Struct :=
  {[ "type" := AString schemaType; "optional" := ABool optional; "field" := AString fieldName ]}.

Definition MessageKeySchema : Struct :=
  {[ "version" := AInt 1; "name" := AString "io.debezium.connector.postgresql.MessageKey";
     "fields" := AStructs [simpleSchemaElement "prefix" "string" true] ]}.
End Events.

(** ** Tables and the environment *)

(** A table's columns and entity, whatever kind of table it is. *)
Definition base_of (t : table) : baseTable :=
  match t with THyper h => Hyper.table h | TVanilla t => Vanilla.table t end.
Definition columns_of (t : table) : list Column := BaseTable.columns (base_of t).
Definition table_entity (t : table) : SystemEntity := BaseTable.entity (base_of t).
Definition key_columns_of (t : table) : crash + list Column :=
  match t with THyper h => Hyper.KeyIndexColumns h | TVanilla t => Vanilla.KeyIndexColumns t end.

(** The table as the table filter sees it. *)
Definition filtered_table (t : table) : Table :=
  match t with THyper h => AHypertable h | TVanilla t => AnEntity (BaseTable.entity (Vanilla.table t)) end.

Record environment : Type := mkEnv {
  EventTopicName : SystemEntity -> string;
  SchemaTopicName : SystemEntity -> string;
  MessageTopicName : string;
  ResolveTypeConverter : Z -> string + option (Z -> value -> string + value);
  SchemaType : PgType -> string;
  EnvelopeSchema : string -> list Column -> Struct;
  EnvelopeMessageSchema : string -> Struct;
  lsn_text : Z -> string;
  UnixMilli : Z -> Z;
  emit_time : nat -> Z;
  sink_answer : nat -> option string;
}.

(** What the clock gives during one event: for the entry, for the event, and how
    many retries the time limit of the back-off leaves room for. *)
Record moment : Type := mkMoment {
  entry_time : Z;
  event_time : Z;
  patience : nat;
}.

(** ** Streams *)

Record Stream : Type := mkStream {
  is_message : bool;
  topicName : string;
  keySchema : Struct;
  envelopeSchema : Struct;
  tableKeyColumns : list Column;
}.

Definition messageStreamName : string := "::internal::message::stream::".

(** ** Filters *)

(** A filter definition; [run] is the compiled expression of expr-lang. *)
Record eventFilter : Type := mkEventFilter {
  defaultValue : bool;
  condition : string;
  run : Struct -> string + any;
}.

(** The filters with their table filters; [None] accepts all tables. *)
Abbreviation composite := (list (option TableFilter * eventFilter)).

(** The type assertion [.(schema.Struct)]. *)
Definition assert_struct (a : option any) : crash + any :=
  match a with
  | Some (AStruct _ as s) | Some (ANilStruct as s) => inr s
  | _ => inl PanicTypeAssertion
  end.

Definition evaluate (f : eventFilter) (key value : Struct) : crash + (string + bool) :=
  k ← assert_struct (key !! "payload");
  ks ← assert_struct (key !! "schema");
  v ← assert_struct (value !! "payload");
  vs ← assert_struct (value !! "schema");
  match run f {[ "key" := k; "keySchema" := ks; "value" := v; "valueSchema" := vs ]} with
  | inl e => mret (inl e)
  | inr (ABool true) => mret (inr (defaultValue f))
  | inr (ABool false) => mret (inr (negb (defaultValue f)))
  | inr _ => mret (inl ("result of filter " ++ condition f ++ " isn't a boolean")%string)
  end.

Definition enabled_by (t : option Table) : G (option TableFilter) bool := fun tf =>
  match t, tf with
  | Some t, Some rf =>
      match Enabled t rf with
      | Ret b rf' => Ret b (Some rf')
      | Err e rf' => Err e (Some rf')
      | Crash c => Crash c
      end
  | _, _ => Ret true tf
  end.

Definition after_head {A} (x : option TableFilter * eventFilter) (o : outcome composite A) : outcome composite A :=
  match o with Ret a l => Ret a (x :: l) | Err e l => Err e (x :: l) | Crash c => Crash c end.

(** The composite filter; without definitions everything is accepted. *)
Fixpoint Evaluate (t : option Table) (key value : Struct) (fs : composite) : outcome composite bool :=
  match fs with
  | [] => Ret true []
  | (tf, f) :: fs' =>
      match enabled_by t tf with
      | Crash c => Crash c
      | Err e tf' => Err e ((tf', f) :: fs')
      | Ret false tf' => after_head (tf', f) (Evaluate t key value fs')
      | Ret true tf' =>
          match evaluate f key value with
          | inl c => Crash c
          | inr (inl e) => Err e ((tf', f) :: fs')
          | inr (inr false) => Ret false ((tf', f) :: fs')
          | inr (inr true) => after_head (tf', f) (Evaluate t key value fs')
          end
      end
  end.

(** ** The emitter *)

Record message : Type := mkMessage {
  m_time : Z;
  m_topic : string;
  m_key : Struct;
  m_value : Struct;
}.

Section Emitter.
Context {S : Type} `{StorageLaws S} (env : environment).

(** [calls] counts the calls of the sink, [delivered] is what it has accepted. *)
Record world : Type := mkWorld {
  rc : replicationContext S;
  streams : gmap string Stream;
  filters : composite;
  calls : nat;
  delivered : list message;
}.

Definition set_rc (r : replicationContext S) (w : world) : world :=
  mkWorld r (streams w) (filters w) (calls w) (delivered w).

(** *** Streams *)

Definition NewTableStream (t : table) : crash + Stream :=
  keys ← key_columns_of t;
  let e := table_entity t in
  mret (mkStream false (EventTopicName env e) (Events.KeySchema (SchemaType env) (SchemaTopicName env e) (columns_of t))
          (EnvelopeSchema env (SchemaTopicName env e) (columns_of t)) keys).

Definition NewMessageStream : Stream :=
  mkStream true (MessageTopicName env) Events.MessageKeySchema (EnvelopeMessageSchema env (MessageTopicName env)) [].

Definition stream_name (t : option table) : string :=
  match t with Some t => table_name t | None => messageStreamName end.

Definition getStream (t : option table) (w : world) : option Stream := streams w !! stream_name t.

Definition createStream (t : option table) : G world Stream :=
  stream ← match t with Some t => lift (NewTableStream t) | None => mret NewMessageStream end;
  modify (fun w => mkWorld (rc w) (<[ stream_name t := stream ]> (streams w)) (filters w) (calls w) (delivered w)) ;;
  mret stream.

Definition GetOrCreateStream (t : option table) : G world Stream :=
  w ← get;
  match getStream t w with
  | Some stream => mret stream
  | None => createStream t
  end.

(** The loop of [Key] and of [convertColumnValues]. *)
Fixpoint convert_columns (columns : list Column) (vs result : values) : string + values :=
  match columns with
  | [] => inr result
  | c :: cs =>
      match vs !! Col.name c with
      | None => convert_columns cs vs result
      | Some VNil => convert_columns cs vs (<[ Col.name c := VNil ]> result)
      | Some v =>
          match ResolveTypeConverter env (Col.dataType c) with
          | inl e => inl e
          | inr None => convert_columns cs vs (<[ Col.name c := v ]> result)
          | inr (Some converter) =>
              match converter (Col.dataType c) v with
              | inl e => inl e
              | inr v' => convert_columns cs vs (<[ Col.name c := v' ]> result)
              end
          end
      end
  end.

Definition or_err {A} (r : string + A) : G world A :=
  match r with inl e => fail e | inr a => mret a end.

(** [Key] of a table stream; a nil map has no entries. *)
Definition Key (stream : Stream) (vs : option values) : G world (option Struct) :=
  r ← or_err (convert_columns (tableKeyColumns stream) (default ∅ vs) ∅);
  mret (Some (of_values r)).

(** [Key] of the message stream. *)
Definition MessageKey (prefix : string) : option Struct := Some {[ "prefix" := AString prefix ]}.

(** [Emit] of a stream and of the sink manager: one call of the sink. *)
Definition stream_Emit (stream : Stream) (key envelope : Struct) : G world unit := fun w =>
  let m := mkMessage (emit_time env (calls w)) (topicName stream) key envelope in
  match sink_answer env (calls w) with
  | Some e => Err e (mkWorld (rc w) (streams w) (filters w) (1 + calls w) (delivered w))
  | None => Ret tt (mkWorld (rc w) (streams w) (filters w) (1 + calls w) (delivered w ++ [m]))
  end.

(** backoff.RetryNotify. *)
Fixpoint RetryNotify (retries : nat) (operation : G world unit) : G world unit :=
  r ← catch operation;
  match r with
  | inr _ => mret tt
  | inl e => match retries with O => fail e | Datatypes.S n => RetryNotify n operation end
  end.

Definition AcknowledgeProcessed_ (xld : XLogData) (processedLSN : option Z) : G world unit :=
  modify (fun w => set_rc (AcknowledgeProcessed xld processedLSN (rc w)) w).

(** [emit] of the EventEmitter: at most eight retries. *)
Definition emit (c : moment) (xld : XLogData) (stream : Stream) (key value : Struct) : G world unit :=
  RetryNotify (Nat.min 8 (patience c)) (stream_Emit stream key value) ;;
  AcknowledgeProcessed_ xld None.

Definition Evaluate_ (t : table) (key value : Struct) : G world bool :=
  zoom filters (fun fs w => mkWorld (rc w) (streams w) fs (calls w) (delivered w))
    (Evaluate (Some (filtered_table t)) key value).

Definition emit0 (c : moment) (xld : XLogData) (snapshot : bool) (t : table)
    (keyFactory : Stream -> G world (option Struct)) (payloadFactory : option Struct -> Struct) : G world unit :=
  selectedStream ← GetOrCreateStream (Some t);
  keyStruct ← keyFactory selectedStream;
  let source := Events.Source (lsn_text env) (ServerWALEnd xld) (UnixMilli env (ServerTime xld)) snapshot
                  (DatabaseName xld) (SchemaName (table_entity t)) (TableName (table_entity t)) (Some (Xid xld)) in
  let payloadStruct := payloadFactory (Some source) in
  let key := Events.Envelope (Some (keySchema selectedStream)) keyStruct in
  let value := Events.Envelope (Some (envelopeSchema selectedStream)) (Some payloadStruct) in
  success ← Evaluate_ t key value;
  if success : bool then emit c xld selectedStream key value
  else AcknowledgeProcessed_ xld None.

Definition emitMessageEvent (c : moment) (xld : XLogData) (msg : LogicalReplicationMessage)
    (payloadFactory : option Struct -> Struct) : G world unit :=
  let timestamp := if IsTransactional msg then ServerTime xld else entry_time c in
  let transactionId := if IsTransactional msg then Some (Xid xld) else None in
  selectedStream ← GetOrCreateStream None;
  let source := Events.Source (lsn_text env) (ServerWALEnd xld) (UnixMilli env timestamp) false
                  (DatabaseName xld) "" "" transactionId in
  let key := Events.Envelope (Some (keySchema selectedStream)) (MessageKey (Prefix msg)) in
  let value := Events.Envelope (Some (envelopeSchema selectedStream)) (Some (payloadFactory (Some source))) in
  emit c xld selectedStream key value.

Definition convertValues (t : table) (vs : option values) : G world (option values) :=
  match vs with
  | None => mret None
  | Some vs => r ← or_err (convert_columns (columns_of t) vs ∅); mret (Some r)
  end.

Definition row (vs : option values) : option Struct := of_values <$> vs.

(** *** The handlers *)

(** The log entry that stands for a row of a snapshot. *)
Definition read_entry (c : moment) (lsn : Z) : XLogData := mkXLogData lsn lsn (entry_time c) [] "" 0 0 0.

Definition OnReadEvent (c : moment) (lsn : Z) (t : table) (newValues : option values) : G world unit :=
  cnValues ← convertValues t newValues;
  emit0 c (read_entry c lsn) true t (fun stream => Key stream newValues)
    (fun source => Events.ReadEvent (event_time c) (row cnValues) source).

Definition OnInsertEvent (c : moment) (xld : XLogData) (t : table) (newValues : option values) : G world unit :=
  cnValues ← convertValues t newValues;
  emit0 c xld false t (fun stream => Key stream newValues)
    (fun source => Events.CreateEvent (event_time c) (row cnValues) source).

Definition OnUpdateEvent (c : moment) (xld : XLogData) (t : table) (oldValues newValues : option values) :
    G world unit :=
  coValues ← convertValues t oldValues;
  cnValues ← convertValues t newValues;
  emit0 c xld false t (fun stream => Key stream newValues)
    (fun source => Events.UpdateEvent (event_time c) (row coValues) (row cnValues) source).

Definition OnDeleteEvent (c : moment) (xld : XLogData) (t : table) (oldValues : option values) (tombstone : bool) :
    G world unit :=
  coValues ← convertValues t oldValues;
  emit0 c xld false t (fun stream => Key stream oldValues)
    (fun source => Events.DeleteEvent (event_time c) (row coValues) source tombstone).

Definition OnTruncateEvent (c : moment) (xld : XLogData) (t : table) : G world unit :=
  emit0 c xld false t (fun _ => mret None) (fun source => Events.TruncateEvent (event_time c) source).

Definition OnMessageEvent (c : moment) (xld : XLogData) (msg : LogicalReplicationMessage) : G world unit :=
  emitMessageEvent c xld msg
    (fun source => Events.MessageEvent (event_time c) (Prefix msg) (Some (EncodeToString (Content msg))) source).

Definition timescaleEventKey (h : Hypertable) : option Struct :=
  Some (Events.TimescaleKey (Hyper.schemaName h) (Hyper.tableName h)).

Definition OnChunkCompressedEvent (c : moment) (xld : XLogData) (h : Hypertable) : G world unit :=
  emit0 c xld false (THyper h) (fun _ => mret (timescaleEventKey h))
    (fun source => Events.CompressionEvent (event_time c) source).

Definition OnChunkDecompressedEvent (c : moment) (xld : XLogData) (h : Hypertable) : G world unit :=
  emit0 c xld false (THyper h) (fun _ => mret (timescaleEventKey h))
    (fun source => Events.DecompressionEvent (event_time c) source).

Definition OnTransactionFinishedEvent (xld : XLogData) (msg : CommitMessage) : G world unit :=
  AcknowledgeProcessed_ xld (Some (TransactionEndLSN msg)).

(** *** All events *)

Inductive event : Type :=
| Read (lsn : Z) (t : table) (newValues : option values)
| Insert (xld : XLogData) (t : table) (newValues : option values)
| Update (xld : XLogData) (t : table) (oldValues newValues : option values)
| Delete_ (xld : XLogData) (t : table) (oldValues : option values) (tombstone : bool)
| Truncate (xld : XLogData) (t : table)
| LogicalMessage (xld : XLogData) (msg : LogicalReplicationMessage)
| Compressed (xld : XLogData) (h : Hypertable)
| Decompressed (xld : XLogData) (h : Hypertable)
| TransactionFinished (xld : XLogData) (msg : CommitMessage).

Definition handle (c : moment) (e : event) : G world unit :=
  match e with
  | Read lsn t new => OnReadEvent c lsn t new
  | Insert xld t new => OnInsertEvent c xld t new
  | Update xld t old new => OnUpdateEvent c xld t old new
  | Delete_ xld t old tombstone => OnDeleteEvent c xld t old tombstone
  | Truncate xld t => OnTruncateEvent c xld t
  | LogicalMessage xld msg => OnMessageEvent c xld msg
  | Compressed xld h => OnChunkCompressedEvent c xld h
  | Decompressed xld h => OnChunkDecompressedEvent c xld h
  | TransactionFinished xld msg => OnTransactionFinishedEvent xld msg
  end.

(** The dispatcher: the error of an event is logged, and the next one is handled. *)
Definition dispatch (es : list (moment * event)) : G world unit :=
  forM es (fun ce => catch (handle (fst ce) (snd ce)) ;; mret tt).

(** ** What an event should become *)

Definition table_of (e : event) : option table :=
  match e with
  | Read _ t _ | Insert _ t _ | Update _ t _ _ | Delete_ _ t _ _ | Truncate _ t => Some t
  | Compressed _ h | Decompressed _ h => Some (THyper h)
  | LogicalMessage _ _ | TransactionFinished _ _ => None
  end.

(** The log entry and the position that is acknowledged for it. *)
Definition acknowledges (c : moment) (e : event) : XLogData * option Z :=
  match e with
  | Read lsn _ _ => (read_entry c lsn, None)
  | Insert xld _ _ | Update xld _ _ _ | Delete_ xld _ _ _ | Truncate xld _ | LogicalMessage xld _
  | Compressed xld _ | Decompressed xld _ => (xld, None)
  | TransactionFinished xld msg => (xld, Some (TransactionEndLSN msg))
  end.

Definition op_of (e : event) : string :=
  match e with
  | Read _ _ _ => "r" | Insert _ _ _ => "c" | Update _ _ _ _ => "u" | Delete_ _ _ _ _ => "d"
  | Truncate _ _ => "t" | LogicalMessage _ _ => "m" | Compressed _ _ | Decompressed _ _ => "$"
  | TransactionFinished _ _ => ""
  end.

Definition topic_of (e : event) : string :=
  match table_of e with Some t => EventTopicName env (table_entity t) | None => MessageTopicName env end.

Definition names_of (e : event) : string * string :=
  match table_of e with
  | Some t => (SchemaName (table_entity t), TableName (table_entity t))
  | None => (EmptyString, EmptyString)
  end.

(** A row with its values converted. *)
Definition converted (t : table) (vs : option values) : option Struct :=
  match vs with
  | Some vs => match convert_columns (columns_of t) vs ∅ with inr r => Some (of_values r) | inl _ => None end
  | None => None
  end.

Definition before_of (e : event) : option any :=
  match e with
  | Update _ t old _ | Delete_ _ t old _ => AStruct <$> converted t old
  | _ => None
  end.

Definition after_of (e : event) : option any :=
  match e with
  | Read _ t new | Insert _ t new => Some (of_struct (converted t new))
  | Update _ t _ new => AStruct <$> converted t new
  | Delete_ _ _ _ tombstone => if tombstone then Some ANil else None
  | _ => None
  end.

(** The operation on a chunk, and the message, that the payload names. *)
Definition chunk_op_of (e : event) : option any :=
  match e with Compressed _ _ => Some (AString "c") | Decompressed _ _ => Some (AString "d") | _ => None end.

Definition message_of (e : event) : option any :=
  match e with
  | LogicalMessage _ msg =>
      Some (AStruct {[ "content" := AString (EncodeToString (Content msg)); "prefix" := AString (Prefix msg) ]})
  | _ => None
  end.

(** The payload says what happened and when, to which row of which table, and where in
    the log. *)
Definition tells (c : moment) (e : event) (payload : Struct) : Prop :=
  payload !! "op" = Some (AString (op_of e)) /\ payload !! "ts_ms" = Some (AInt (event_time c)) /\
  payload !! "before" = before_of e /\ payload !! "after" = after_of e /\
  payload !! "tsdb_op" = chunk_op_of e /\ payload !! "message" = message_of e /\
  exists source, payload !! "source" = Some (AStruct source) /\
    source !! "schema" = Some (AString (fst (names_of e))) /\
    source !! "table" = Some (AString (snd (names_of e))) /\
    source !! "lsn" = Some (AString (lsn_text env (ServerWALEnd (fst (acknowledges c e))))) /\
    source !! "snapshot" = Some (ABool (match e with Read _ _ _ => true | _ => false end)).

(** ** What becomes of an event *)

(** The stream of a table, or of the messages: the one that its first event made. *)
Definition stream_at (w : world) (t : option table) : option Stream :=
  match getStream t w, t with
  | Some s, _ => Some s
  | None, None => Some NewMessageStream
  | None, Some t => match NewTableStream t with inr s => Some s | inl _ => None end
  end.

(** The rows of an event, which are converted. *)
Definition rows_of (e : event) : list values :=
  match e with
  | Read _ _ new | Insert _ _ new => option_list new
  | Update _ _ old new => (option_list old ++ option_list new)%list
  | Delete_ _ _ old _ => option_list old
  | _ => []
  end.

Definition convertible (columns : list Column) (vs : values) : Prop :=
  exists r, convert_columns columns vs ∅ = inr r.

(** The key: of the new row, of the old one for a delete. *)
Definition key_of (s : Stream) (e : event) : string + option Struct :=
  let row_key vs :=
    match convert_columns (tableKeyColumns s) (default ∅ vs) ∅ with inl x => inl x | inr r => inr (Some (of_values r)) end in
  match e with
  | Read _ _ vs | Insert _ _ vs | Update _ _ _ vs | Delete_ _ _ vs _ => row_key vs
  | LogicalMessage _ msg => inr (MessageKey (Prefix msg))
  | Compressed _ _ | Decompressed _ _ => inr (Some {[ "schema" := AString (fst (names_of e)); "table" := AString (snd (names_of e)) ]})
  | Truncate _ _ | TransactionFinished _ _ => inr None
  end.

(** The event can be made into this key and value. *)
Definition made (w : world) (c : moment) (e : event) (key value : Struct) : Prop :=
  exists s k payload, stream_at w (table_of e) = Some s /\
    Forall (convertible (default [] (columns_of <$> table_of e))) (rows_of e) /\ key_of s e = inr k /\
    key = Events.Envelope (Some (keySchema s)) k /\
    value = Events.Envelope (Some (envelopeSchema s)) (Some payload) /\ tells c e payload.

(** It cannot: a converter fails on a row or on the key. *)
Definition unmade (w : world) (e : event) : Prop :=
  Exists (fun vs => ~ convertible (default [] (columns_of <$> table_of e)) vs) (rows_of e) \/
  exists s err, stream_at w (table_of e) = Some s /\ key_of s e = inl err.

(** The answer of the filters; messages are not filtered. *)
Definition judged (w : world) (e : event) (key value : Struct) : outcome composite bool :=
  match table_of e with
  | Some t => Evaluate (Some (filtered_table t)) key value (filters w)
  | None => Ret true (filters w)
  end.

Definition verdict_is (w : world) (e : event) (key value : Struct) (verdict : bool) : Prop :=
  exists fs, judged w e key value = Ret verdict fs.

(** The sink refuses [n] calls, from the next one. *)
Definition refuses (w : world) (n : nat) : Prop := forall i, (i < n)%nat -> is_Some (sink_answer env (calls w + i)%nat).

Definition retries (c : moment) : nat := Nat.min 8 (patience c).

(** What became of an event. *)
Inductive fate : Type := Sent (m : message) | Silent | Failed.

(** [fated w c e f n]: in the world [w] the event has to end as [f], with [n] calls of
    the sink. *)
Inductive fated (w : world) (c : moment) (e : event) : fate -> nat -> Prop :=
| fated_sent key value n :
    made w c e key value -> verdict_is w e key value true ->
    (n <= retries c)%nat -> refuses w n -> sink_answer env (calls w + n)%nat = None ->
    fated w c e (Sent (mkMessage (emit_time env (calls w + n)%nat) (topic_of e) key value)) (1 + n)
| fated_refused key value :
    made w c e key value -> verdict_is w e key value true -> refuses w (1 + retries c) ->
    fated w c e Failed (1 + retries c)
| fated_filtered key value :
    made w c e key value -> verdict_is w e key value false -> fated w c e Silent 0
| fated_unjudged key value err fs :
    made w c e key value -> judged w e key value = Err err fs -> fated w c e Failed 0
| fated_unmade : unmade w e -> fated w c e Failed 0
| fated_finished xld msg : e = TransactionFinished xld msg -> fated w c e Silent 0.

Definition sent (f : fate) : list message := match f with Sent m => [m] | _ => [] end.

Definition acknowledged (ce : moment * event) (f : fate) : list (XLogData * option Z) :=
  match f with Failed => [] | _ => [acknowledges (fst ce) (snd ce)] end.

(** The worlds agree on everything but the context, which other components share, and
    there on the processed position. *)
Definition same_emitter (w w' : world) : Prop :=
  streams w' = streams w /\ filters w' = filters w /\ calls w' = calls w /\ delivered w' = delivered w /\
  lastProcessedLSN (rc w') = lastProcessedLSN (rc w).

(** The events are handled one after the other, each ends as it has to in the world
    that the ones before have left, the sink gets what is sent, and what has not failed
    is acknowledged. *)
Inductive settled : list (moment * event) -> world -> world -> list fate -> Prop :=
| settled_nil w w' : same_emitter w w' -> settled [] w w' []
| settled_cons c e es w w1 r w2 w' f n fates :
    same_emitter w w1 -> catch (handle c e) w1 = Ret r w2 ->
    fated w1 c e f n -> calls w2 = (calls w1 + n)%nat -> delivered w2 = (delivered w1 ++ sent f)%list ->
    lastProcessedLSN (rc w2) = foldr Z.max (lastProcessedLSN (rc w1)) (map ack_position (acknowledged (c, e) f)) ->
    settled es w2 w' fates -> settled ((c, e) :: es) w w' (f :: fates).
End Emitter.

(** ** What the emitter does with an event *)

Section EmitterProofs.
Context {S : Type} `{StorageLaws S} (env : environment).
Implicit Types (w : world (S := S)) (e : event) (c : moment).

(** Names without quotes, so that the canonical name tells tables apart, and the
    table's key can be computed. *)
Definition plain_names (x : SystemEntity) : Prop := quote_free (SchemaName x) /\ quote_free (TableName x).

Definition event_ok e : Prop :=
  forall t, table_of e = Some t -> plain_names (table_entity t) /\ exists keys, key_columns_of t = inr keys.

(** The streams write to the topics of their tables. *)
Definition streams_ok w : Prop :=
  (forall x s, plain_names x -> streams w !! CanonicalName x = Some s -> topicName s = EventTopicName env x) /\
  (forall s, streams w !! messageStreamName = Some s -> topicName s = MessageTopicName env).

Lemma CanonicalName_inj x y : plain_names x -> plain_names y -> CanonicalName x = CanonicalName y -> x = y.
Proof.
  destruct x as [s1 t1], y as [s2 t2]. intros [H1 H2] [H3 H4] Heq.
  apply MakeRelationKey_inj in Heq as [Hs Ht]; [|done ..]. cbn in *. by subst.
Qed.

Lemma message_stream_apart x : CanonicalName x <> messageStreamName.
Proof. unfold CanonicalName, MakeRelationKey, quote, messageStreamName. cbn. discriminate. Qed.

Lemma table_name_entity t : table_name t = CanonicalName (table_entity t).
Proof. by destruct t. Qed.

(** How a handler has to end: the event is acknowledged, or it fails and leaves the
    positions as they are; either way as it is fated to. *)
Definition settles w c e (o : outcome world unit) : Prop :=
  match o with
  | Ret _ w' => streams_ok w' /\
      rc w' = AcknowledgeProcessed (fst (acknowledges c e)) (snd (acknowledges c e)) (rc w) /\
      exists f n, f <> Failed /\ fated env w c e f n /\ calls w' = (calls w + n)%nat /\ delivered w' = (delivered w ++ sent f)%list
  | Err _ w' => streams_ok w' /\ rc w' = rc w /\ delivered w' = delivered w /\
      exists n, fated env w c e Failed n /\ calls w' = (calls w + n)%nat
  | Crash _ => False
  end.

(** [w1] is [w] but for the streams, and the state of the filters. *)
Definition on_the_way w w1 : Prop :=
  streams_ok w1 /\ rc w1 = rc w /\ calls w1 = calls w /\ delivered w1 = delivered w.

Lemma table_stream t keys w :
  streams_ok w -> plain_names (table_entity t) -> key_columns_of t = inr keys ->
  exists s w1, stream_at env w (Some t) = Some s /\ GetOrCreateStream env (Some t) w = Ret s w1 /\
    topicName s = EventTopicName env (table_entity t) /\ on_the_way w w1 /\ filters w1 = filters w.
Proof.
  intros Hw Ht Hkeys. unfold stream_at, GetOrCreateStream. rewrite (bind_run get _ _ _ _ eq_refl).
  unfold getStream. cbn [stream_name]. rewrite table_name_entity.
  destruct (streams w !! CanonicalName (table_entity t)) as [s|] eqn:Hs.
  { exists s, w. split_and!; try done. by apply (proj1 Hw). }
  unfold createStream, NewTableStream. rewrite Hkeys. eexists _, _. split; [reflexivity|]. split; [reflexivity|].
  split; [done|]. split; [|done]. split; [|done]. destruct Hw as [Hw1 Hw2]. cbn [stream_name]. rewrite table_name_entity.
  split; cbn [streams].
  - intros x s' Hx [[Heq <-]|[_ Hl]]%lookup_insert_Some; [|by apply Hw1].
    apply CanonicalName_inj in Heq; [|done|done]. by subst.
  - intros s' [[Heq _]|[_ Hl]]%lookup_insert_Some; [|by apply Hw2]. by destruct (message_stream_apart _ Heq).
Qed.

Lemma message_stream w :
  streams_ok w ->
  exists s w1, stream_at env w None = Some s /\ GetOrCreateStream env None w = Ret s w1 /\
    topicName s = MessageTopicName env /\ on_the_way w w1 /\ filters w1 = filters w.
Proof.
  intros Hw. unfold stream_at, GetOrCreateStream. rewrite (bind_run get _ _ _ _ eq_refl).
  unfold getStream. cbn [stream_name]. destruct (streams w !! messageStreamName) as [s|] eqn:Hs.
  { exists s, w. split_and!; try done. by apply (proj2 Hw). }
  eexists _, _. split; [reflexivity|]. split; [reflexivity|]. split; [done|]. split; [|done]. split; [|done].
  destruct Hw as [Hw1 Hw2]. split; cbn [streams].
  - intros x s' Hx [[Heq _]|[_ Hl]]%lookup_insert_Some; [|by apply Hw1]. by destruct (message_stream_apart x).
  - intros s' [[_ <-]|[_ Hl]]%lookup_insert_Some; [done|by apply Hw2].
Qed.

(** Key and value are envelopes, so the filters' type assertions hold. *)
Lemma assert_envelope (s : option Struct) : assert_struct (Some (of_struct s)) = inr (of_struct s).
Proof. by destruct s. Qed.

Lemma Enabled_returns t rf : exists b rf', Enabled t rf = Ret b rf'.
Proof.
  unfold Enabled. rewrite (bind_run get _ _ _ _ eq_refl). repeat case_match; by eexists _, _.
Qed.

Lemma Evaluate_no_crash t s1 p1 s2 p2 fs x :
  Evaluate t (Events.Envelope s1 p1) (Events.Envelope s2 p2) fs <> Crash x.
Proof.
  induction fs as [|[tf f] fs IH]; cbn [Evaluate]; [done|].
  assert (exists b tf', enabled_by t tf = Ret b tf') as (b & tf' & ->).
  { unfold enabled_by. destruct t as [t|], tf as [rf|]; try (by eexists _, _).
    destruct (Enabled_returns t rf) as (b & rf' & ->). by eexists _, _. }
  assert (forall y, after_head y (Evaluate t (Events.Envelope s1 p1) (Events.Envelope s2 p2) fs) <> Crash x) as Hh.
  { intros y. by destruct (Evaluate _ _ _ fs). }
  destruct b; [|apply Hh].
  assert (exists r, evaluate f (Events.Envelope s1 p1) (Events.Envelope s2 p2) = inr r) as [r ->].
  { unfold evaluate.
    assert (forall s p, Events.Envelope s p !! "payload" = Some (of_struct p)) as Hp by reflexivity.
    assert (forall s p, Events.Envelope s p !! "schema" = Some (of_struct s)) as Hs by reflexivity.
    rewrite !Hp, !Hs. do 4 rewrite (pure_run _ _ _ (assert_envelope _)). repeat case_match; by eexists. }
  destruct r as [|[]]; [done|apply Hh|done].
Qed.

Lemma convert_run t vs w :
  (exists r, convertValues env t vs w = Ret r w /\ row r = converted env t vs /\
     Forall (convertible env (columns_of t)) (option_list vs)) \/
  (exists err, convertValues env t vs w = Err err w /\
     Exists (fun vs => ~ convertible env (columns_of t) vs) (option_list vs)).
Proof.
  unfold convertValues, converted, convertible. destruct vs as [vs|]; [|left; exists None; by repeat constructor].
  destruct (convert_columns env (columns_of t) vs ∅) as [err|r] eqn:E; [right; exists err|left; exists (Some r)];
    unfold or_err; (split; [done|]).
  - constructor. by intros (r & Hr); congruence.
  - split; [done|]. repeat constructor. by exists r.
Qed.

(** The retries: the sink refuses some calls and accepts one, or refuses all. *)
Lemma RetryNotify_calls n s key value w :
  match RetryNotify n (stream_Emit env s key value) w with
  | Ret _ w' => exists k, (k <= n)%nat /\ refuses env w k /\ sink_answer env (calls w + k)%nat = None /\
      w' = mkWorld (rc w) (streams w) (filters w) (calls w + (1 + k))
             (delivered w ++ [mkMessage (emit_time env (calls w + k)%nat) (topicName s) key value])
  | Err _ w' => refuses env w (1 + n) /\ w' = mkWorld (rc w) (streams w) (filters w) (calls w + (1 + n)) (delivered w)
  | Crash _ => False
  end.
Proof.
  revert w. induction n as [|n IH]; intros w; cbn [RetryNotify]; unfold mbind, G_bind, catch, stream_Emit at 1;
    destruct (sink_answer env (calls w)) as [err|] eqn:Hans; cbn -[Nat.add].
  - split; [|f_equal; lia]. intros i Hi. replace i with 0%nat by lia. rewrite Nat.add_0_r, Hans. by eexists.
  - exists 0%nat. rewrite Nat.add_0_r. split_and!; [lia|intros i Hi; lia|done|f_equal; lia].
  - specialize (IH (mkWorld (rc w) (streams w) (filters w) (1 + calls w) (delivered w))).
    assert (forall k, refuses env (mkWorld (rc w) (streams w) (filters w) (1 + calls w) (delivered w)) k -> refuses env w (1 + k)) as Hrefuse.
    { intros k Hk [|i] Hi; [rewrite Nat.add_0_r, Hans; by eexists|].
      replace (calls w + Datatypes.S i)%nat with (1 + calls w + i)%nat by lia. apply Hk. lia. }
    cbn -[Nat.add] in IH. destruct (RetryNotify _ _ _) as [[] w'|? w'|]; [| |done].
    + destruct IH as (k & Hk & Hr & Hacc & ->). exists (1 + k)%nat.
      replace (calls w + (1 + k))%nat with (1 + calls w + k)%nat by lia.
      split_and!; [lia|by apply Hrefuse|done|f_equal; lia].
    + destruct IH as [Hr ->]. split; [by apply Hrefuse|f_equal; lia].
  - exists 0%nat. rewrite Nat.add_0_r. split_and!; [lia|intros i Hi; lia|done|f_equal; lia].
Qed.

Lemma streams_ok_frame w w' : streams w' = streams w -> streams_ok w -> streams_ok w'.
Proof. unfold streams_ok. by intros ->. Qed.

Lemma settles_acknowledge c e w w1 :
  fated env w c e Silent 0 -> on_the_way w w1 ->
  settles w c e (AcknowledgeProcessed_ (fst (acknowledges c e)) (snd (acknowledges c e)) w1).
Proof.
  intros Hf (Hs & Hrc & Hc & Hd). cbn -[AcknowledgeProcessed]. split; [done|]. rewrite Hrc. split; [done|]. exists Silent, 0%nat.
  split_and!; [done|done|lia|]. cbn. by rewrite app_nil_r.
Qed.

Lemma settles_emit c e s key value w w1 :
  snd (acknowledges c e) = None -> topicName s = topic_of env e ->
  made env w c e key value -> verdict_is w e key value true -> on_the_way w w1 ->
  settles w c e (emit env c (fst (acknowledges c e)) s key value w1).
Proof.
  intros Hack Htopic Hmade Hsel (Hs & Hrc & Hc & Hd). unfold emit.
  pose proof (RetryNotify_calls (retries c) s key value w1) as Hr. fold (retries c). unfold refuses in Hr. rewrite Hc in Hr.
  destruct (RetryNotify (retries c) _ w1) as [[] w2|err w2|crash] eqn:Hrun; [|rewrite (bind_err _ _ _ _ _ Hrun)|done].
  - rewrite (bind_run _ _ _ _ _ Hrun). destruct Hr as (k & Hk & Href & Hacc & ->). cbn -[AcknowledgeProcessed Nat.add].
    split; [by apply (streams_ok_frame w1)|]. rewrite Hack, Hrc. split; [done|].
    eexists _, (1 + k)%nat. split; [|split; [by apply (fated_sent env w c e key value k)|]]; [done|].
    cbn. by rewrite Hd, Htopic.
  - destruct Hr as [Href ->]. split; [by apply (streams_ok_frame w1)|]. split; [done|]. split; [done|].
    exists (1 + retries c)%nat. split; [by apply (fated_refused env w c e key value)|done].
Qed.

(** The fields of the source of an event. *)
Definition sourced c e (source : Struct) : Prop :=
  source !! "schema" = Some (AString (fst (names_of e))) /\ source !! "table" = Some (AString (snd (names_of e))) /\
  source !! "lsn" = Some (AString (lsn_text env (ServerWALEnd (fst (acknowledges c e))))) /\
  source !! "snapshot" = Some (ABool (match e with Read _ _ _ => true | _ => false end)).

Lemma settles_emit0 c e t keyFactory payloadFactory w :
  event_ok e -> table_of e = Some t -> snd (acknowledges c e) = None -> streams_ok w ->
  Forall (convertible env (columns_of t)) (rows_of e) ->
  (forall s w1, keyFactory s w1 = match key_of env s e with inl err => Err err w1 | inr k => Ret k w1 end) ->
  (forall source, sourced c e source -> tells env c e (payloadFactory (Some source))) ->
  settles w c e (emit0 env c (fst (acknowledges c e)) (match e with Read _ _ _ => true | _ => false end) t
    keyFactory payloadFactory w).
Proof.
  intros Hok Ht Hack Hw Hrows Hkey Hpayload. unfold emit0.
  destruct (Hok t Ht) as (Hnames & keys & Hkeys).
  destruct (table_stream t keys w Hw Hnames Hkeys) as (s & w1 & Hs & Hrun & Htopic & Hway & Hfil).
  rewrite (bind_run _ _ _ _ _ Hrun). pose proof (Hkey s w1) as Hk.
  destruct (key_of env s e) as [err|k] eqn:Ekey.
  { rewrite (bind_err _ _ _ _ _ Hk). destruct Hway as (Hs1 & Hrc & Hc & Hd). split; [done|]. split; [done|]. split; [done|].
    exists 0%nat. split; [|lia]. apply fated_unmade. right. rewrite Ht. by exists s, err. }
  rewrite (bind_run _ _ _ _ _ Hk). set (payload := payloadFactory _). set (key := Events.Envelope _ k). set (value := Events.Envelope _ _).
  assert (made env w c e key value) as Hmade.
  { exists s, k, payload. rewrite Ht. split_and!; try done. apply Hpayload. unfold sourced, names_of. rewrite Ht. by split_and!. }
  assert (judged w e key value = Evaluate (Some (filtered_table t)) key value (filters w1)) as Hj by (unfold judged; by rewrite Ht, Hfil).
  destruct Hway as (Hs1 & Hrc & Hc & Hd). unfold Evaluate_, zoom, mbind, G_bind. rewrite <- Hj.
  destruct (judged w e key value) as [b fs|err fs|x] eqn:E.
  - destruct b.
    + apply settles_emit; [done|unfold topic_of; by rewrite Ht|done|by exists fs|done].
    + rewrite <- Hack. apply settles_acknowledge; [|done]. apply (fated_filtered env w c e key value); [done|]. by exists fs.
  - split; [done|]. split; [done|]. split; [done|]. exists 0%nat. split; [|cbn; lia]. by apply (fated_unjudged env w c e key value err fs).
  - unfold judged in E. rewrite Ht in E. by apply Evaluate_no_crash in E.
Qed.

(** A converter fails before the event is made. *)
Lemma settles_unmade c e t w err :
  table_of e = Some t -> streams_ok w -> Exists (fun vs => ~ convertible env (columns_of t) vs) (rows_of e) -> settles w c e (Err err w).
Proof.
  intros Ht Hw Hex. split; [done|]. split; [done|]. split; [done|]. exists 0%nat. split; [|lia]. apply fated_unmade. left. by rewrite Ht.
Qed.

(** The fields of a payload, by computation. *)
Ltac payload_fields :=
  intros source (Hsch & Htab & Hlsn & Hsnap); unfold tells; cbn [before_of after_of chunk_op_of message_of];
  repeat match goal with
  | Hr : row ?r = converted _ _ _ |- _ => rewrite <- Hr; clear Hr; try destruct r
  end;
  (split_and!; [reflexivity ..|exists source; split; [reflexivity|done]]).

Ltac key_factory := let s := fresh "s" in intros s ?; cbn; unfold Key, or_err; try (destruct (convert_columns _ (tableKeyColumns s) _ _)); reflexivity.

(** The rows are converted first: on an error the event fails. *)
Ltac convert_row t vs w e :=
  let r := fresh "r" in let Hc := fresh "Hc" in let Hrow := fresh "Hrow" in let Hall := fresh "Hall" in let err := fresh "err" in
  destruct (convert_run t vs w) as [(r & Hc & Hrow & Hall)|(err & Hc & Hall)];
  [rewrite (bind_run _ _ _ _ _ Hc)
  |rewrite (bind_err _ _ _ _ _ Hc); apply (settles_unmade _ e t); [done|done|cbn [rows_of]; rewrite ?Exists_app; tauto]].

Lemma handle_settles c e w : event_ok e -> streams_ok w -> settles w c e (handle env c e w).
Proof.
  intros Hok Hw. destruct e as [lsn t new|xld t new|xld t old new|xld t old tomb|xld t|xld msg|xld h|xld h|xld msg];
    cbn [handle].
  - unfold OnReadEvent. convert_row t new w (Read lsn t new).
    apply (settles_emit0 c (Read lsn t new)); [done|done|done|done|done|key_factory|payload_fields].
  - unfold OnInsertEvent. convert_row t new w (Insert xld t new).
    apply (settles_emit0 c (Insert xld t new)); [done|done|done|done|done|key_factory|payload_fields].
  - unfold OnUpdateEvent. convert_row t old w (Update xld t old new). convert_row t new w (Update xld t old new).
    apply (settles_emit0 c (Update xld t old new)); [done|done|done|done|by apply Forall_app|key_factory|payload_fields].
  - unfold OnDeleteEvent. convert_row t old w (Delete_ xld t old tomb).
    apply (settles_emit0 c (Delete_ xld t old tomb)); [done|done|done|done|done|key_factory|].
    destruct tomb; payload_fields.
  - apply (settles_emit0 c (Truncate xld t)); [done|done|done|done|constructor|key_factory|payload_fields].
  - unfold OnMessageEvent, emitMessageEvent.
    destruct (message_stream w Hw) as (s & w1 & Hs & Hrun & Htopic & Hway & Hfil). rewrite (bind_run _ _ _ _ _ Hrun).
    apply (settles_emit c (LogicalMessage xld msg)); [done|done| |by eexists|done].
    eexists s, _, _. split; [done|]. split; [constructor|]. split; [reflexivity|]. split; [reflexivity|]. split; [reflexivity|].
    unfold tells. split_and!; [reflexivity ..|eexists; split; [reflexivity|]; split_and!; reflexivity].
  - apply (settles_emit0 c (Compressed xld h)); [done|done|done|done|constructor|key_factory|payload_fields].
  - apply (settles_emit0 c (Decompressed xld h)); [done|done|done|done|constructor|key_factory|payload_fields].
  - apply (settles_acknowledge c (TransactionFinished xld msg)); [|done]. by eapply fated_finished.
Qed.

(** ** A run of the dispatcher *)

Lemma same_emitter_refl w : same_emitter w w.
Proof. by split_and!. Qed.

(** One event, with its error caught. *)
Lemma handle_caught c e w :
  event_ok e -> streams_ok w ->
  exists r w' f, catch (handle env c e) w = Ret r w' /\ streams_ok w' /\ settled env [(c, e)] w w' [f] /\
    rc w' = acknowledge_all (acknowledged (c, e) f) (rc w).
Proof.
  intros Hok Hw. pose proof (handle_settles c e w Hok Hw) as Hs.
  assert (forall r w' f n, catch (handle env c e) w = Ret r w' -> fated env w c e f n -> calls w' = (calls w + n)%nat ->
    delivered w' = (delivered w ++ sent f)%list -> rc w' = acknowledge_all (acknowledged (c, e) f) (rc w) ->
    settled env [(c, e)] w w' [f]) as Hone.
  { intros r w' f n Hrun Hf Hc Hd Hrc. eapply settled_cons; [apply same_emitter_refl|exact Hrun|done|done|done| |].
    - rewrite Hrc. apply acknowledge_all_max.
    - constructor. apply same_emitter_refl. }
  unfold catch in *. destruct (handle env c e w) as [[] w1|err w1|]; [| |done].
  - destruct Hs as (Hw1 & Hrc & f & n & Hf & Hfated & Hc & Hd). eexists _, w1, f. split; [done|]. split; [done|].
    assert (rc w1 = acknowledge_all (acknowledged (c, e) f) (rc w)) as Hack by (rewrite Hrc; by destruct f).
    split; [|done]. by eapply Hone.
  - destruct Hs as (Hw1 & Hrc & Hd & n & Hfated & Hc). eexists _, w1, Failed. split; [done|]. split; [done|].
    split; [|done]. eapply Hone; try done. cbn. by rewrite app_nil_r.
Qed.

Lemma same_emitter_trans w w1 w2 : same_emitter w w1 -> same_emitter w1 w2 -> same_emitter w w2.
Proof. unfold same_emitter. intuition congruence. Qed.

Lemma settled_from es w w1 w2 fates : same_emitter w w1 -> settled env es w1 w2 fates -> settled env es w w2 fates.
Proof.
  intros Hs Hset. destruct Hset; [constructor; by eapply same_emitter_trans|]. by eapply settled_cons; [eapply same_emitter_trans|..].
Qed.

Lemma settled_app es es' w w1 w2 fates fates' :
  settled env es w w1 fates -> settled env es' w1 w2 fates' -> settled env (es ++ es') w w2 (fates ++ fates').
Proof. induction 1; intros Hset; [by eapply settled_from|]. eapply settled_cons; eauto. Qed.

Lemma settled_to es w w1 w2 fates : settled env es w w1 fates -> same_emitter w1 w2 -> settled env es w w2 fates.
Proof.
  intros Hset Hs. rewrite <- (app_nil_r es), <- (app_nil_r fates). eapply settled_app; [done|by constructor].
Qed.

Lemma settled_length es w w' fates : settled env es w w' fates -> length fates = length es.
Proof. induction 1; cbn; lia. Qed.

Lemma settled_delivers es w w' fates : settled env es w w' fates -> delivered w' = (delivered w ++ concat (map sent fates))%list.
Proof.
  induction 1 as [w w' (_ & _ & _ & -> & _)|c e es w w1 r w2 w' f n fates (_ & _ & _ & Hd1 & _) _ _ _ Hd _ _ IH].
  - by rewrite app_nil_r.
  - by rewrite IH, Hd, Hd1, <- app_assoc.
Qed.

Lemma settled_position es w w' fates :
  settled env es w w' fates ->
  lastProcessedLSN (rc w') =
    foldr Z.max (lastProcessedLSN (rc w)) (map ack_position (concat (zip_with acknowledged es fates))).
Proof.
  induction 1 as [w w' (_ & _ & _ & _ & ->)|c e es w w1 r w2 w' f n fates (_ & _ & _ & _ & Hp1) _ _ _ _ Hp _ IH]; [done|].
  rewrite IH, Hp, Hp1. cbn [zip_with concat]. rewrite map_app, foldr_app.
  generalize (map ack_position (acknowledged (c, e) f)) as l1.
  generalize (map ack_position (concat (zip_with acknowledged es fates))) as l2. clear. intros l2 l1.
  assert (forall base z l, foldr Z.max (Z.max z base) l = Z.max z (foldr Z.max base l)) as Hmax.
  { intros base z l. induction l as [|y l IH]; cbn; lia. }
  induction l1 as [|z l1 IH]; cbn [foldr]; [done|]. by rewrite <- IH, Hmax.
Qed.

Lemma dispatch_settled es w :
  Forall (fun ce => event_ok (snd ce)) es -> streams_ok w ->
  exists w' fates, dispatch env es w = Ret tt w' /\ streams_ok w' /\ settled env es w w' fates.
Proof.
  intros Hok. revert w. induction Hok as [|[c e] es He _ IH]; intros w Hw.
  { exists w, []. split_and!; [done|done|]. constructor. apply same_emitter_refl. }
  destruct (handle_caught c e w He Hw) as (r & w1 & f & Hrun & Hw1 & Hset & _).
  destruct (IH w1 Hw1) as (w' & fates & Hruns & Hw' & Hsets). exists w', (f :: fates). split; [|split; [done|]].
  - unfold dispatch. cbn [forM fst snd]. unfold dispatch in Hruns. erewrite bind_run; [exact Hruns|].
    by rewrite (bind_run _ _ _ _ _ Hrun).
  - by apply (settled_app [(c, e)] es w w1 w' [f]).
Qed.

Lemma no_streams_ok w : streams w = ∅ -> streams_ok w.
Proof. intros Hw. split; intros; rewrite Hw in *; by rewrite lookup_empty in *. Qed.

(** A stream is made once: when the columns of a table have changed, its events
    still go out with the schemas of the columns it had at its first event. *)
Lemma stream_kept t t' w s w1 :
  GetOrCreateStream env (Some t) w = Ret s w1 -> table_name t' = table_name t ->
  GetOrCreateStream env (Some t') w1 = Ret s w1.
Proof.
  unfold GetOrCreateStream. rewrite !(bind_run get _ _ _ _ eq_refl). unfold getStream. cbn [stream_name].
  intros Hrun Hname. rewrite Hname. destruct (streams w !! table_name t) as [s0|] eqn:Hs.
  - injection Hrun as <- <-. by rewrite Hs.
  - unfold createStream in Hrun. destruct (NewTableStream env t) as [|s0]; [done|].
    injection Hrun as <- <-. cbn. by rewrite lookup_insert_eq.
Qed.

(** C11. From events to the sink: whatever the sink, the converters and the filters
    answer, the dispatcher gets through any list of events on tables whose names have
    no quotes and whose keys can be computed, and each of them ends as it has to.  It is
    sent if every value of its rows and of its key converts, the filters accept it and
    the sink accepts it within the retries that are left (eight at most); then the sink
    has got it once, with the time of the call that succeeded, on the topic of the
    table and with a payload that carries the operation, the converted rows before and
    after, the table's names and the log position.  It is dropped if the filters reject
    it; and it fails only if a value does not convert, a filter fails, or the sink
    refuses every call.  The sink gets what is sent, in order, and nothing else.  The
    processed position is the highest one of the events that did not fail, so an event
    is acknowledged only if it was sent or dropped. *)
Theorem events_settled (es : list (moment * event)) (w : world (S := S)) :
  Forall (fun ce => event_ok (snd ce)) es -> streams w = ∅ ->
  exists w' fates, dispatch env es w = Ret tt w' /\ settled env es w w' fates /\
    delivered w' = (delivered w ++ concat (map sent fates))%list /\
    lastProcessedLSN (rc w') =
      foldr Z.max (lastProcessedLSN (rc w)) (map ack_position (concat (zip_with acknowledged es fates))).
Proof.
  intros Hok Hw. destruct (dispatch_settled es w Hok (no_streams_ok w Hw)) as (w' & fates & Hrun & _ & Hset).
  exists w', fates. split_and!; [done|done|by eapply settled_delivers|by apply settled_position].
Qed.

Lemma offset_after_acknowledge (a : XLogData * option Z) (r : replicationContext S) :
  exists o, Offset_ (AcknowledgeProcessed (fst a) (snd a) r) = Some o /\ ack_position a <= Offs.LSN o.
Proof.
  eexists. split; [unfold Offset_; cbn; by rewrite st_get_set, lookup_insert_eq|].
  pose proof (acknowledge_processed_max a r) as Hmax. cbn in Hmax |- *. lia.
Qed.

(** An event that fails is lost: its error is only logged, and the next event
    that is handled moves the stored offset past it.  After a restart at that
    offset the entry of the failed event is skipped without a trace, although
    the sink never got it. *)
Theorem failed_event_lost {Tuple} (parse : bytes -> string + raw_message Tuple)
    (DecodeTuples : RelationMessage -> Tuple -> string + values) (spare : bytes)
    (c c2 : moment) (e e2 : event) (es : list (moment * event)) (err : string) (w w1 w2 w3 : world (S := S)) :
  Forall event_ok (e :: e2 :: map snd es) -> streams w = ∅ ->
  handle env c e w = Err err w1 -> dispatch env es w1 = Ret tt w2 -> handle env c2 e2 w2 = Ret tt w3 ->
  let start := WALStart (fst (acknowledges c e)) in
  start < ack_position (acknowledges c2 e2) ->
  delivered w1 = delivered w /\
  exists o, Offset_ (rc w3) = Some o /\
    forall x h, x_WALStart x = start -> is_row x = true ->
      onXLog (S := S) parse DecodeTuples spare (Offs.LSN o) x h = Ret tt h.
Proof.
  intros Hok Hw He Hes He2 start Hlt. rewrite !Forall_cons, Forall_map in Hok. destruct Hok as (Hok1 & Hok2 & Hoks).
  pose proof (handle_settles c e w Hok1 (no_streams_ok w Hw)) as Hs. rewrite He in Hs. destruct Hs as (Hw1 & _ & Hd & _).
  split; [done|]. destruct (dispatch_settled es w1 Hoks Hw1) as (w2' & fates & Hrun & Hw2 & _).
  rewrite Hes in Hrun. injection Hrun as <-.
  pose proof (handle_settles c2 e2 w2 Hok2 Hw2) as Hs. rewrite He2 in Hs. destruct Hs as (_ & Hrc & _).
  destruct (offset_after_acknowledge (acknowledges c2 e2) (rc w2)) as (o & Ho & Hlsn).
  exists o. split; [by rewrite Hrc|]. intros x h Hx Hrow. apply onXLog_skip; [done|]. lia.
Qed.
End EmitterProofs.

(** *** Concrete inputs *)

(** A sink that is away for nine calls, and two inserts into a table. *)
Definition flaky : environment :=
  mkEnv TableName TableName "messages" (fun _ => inr None) (fun _ => "string"%string) (fun _ _ => ∅) (fun _ => ∅)
    (fun _ => EmptyString) (fun z => z) (fun _ => 0) (fun n => if (n <? 9)%nat then Some "away"%string else None).

Definition calm : moment := mkMoment 0 0 8.
Definition some_table : table := TVanilla (Vanilla.NewPgTable 1 "public" "test" "d").
Definition entry_at (lsn : Z) : XLogData := mkXLogData lsn lsn 0 [Byte.x49] "db" 0 0 0.
Definition first_insert : event := Insert (entry_at 100) some_table (Some ∅).
Definition second_insert : event := Insert (entry_at 200) some_table (Some ∅).
Definition idle : world (S := DummyStorage.dummyStateStorage) :=
  mkWorld (mkContext "slot" "db" 0 0 0 0 0 DummyStorage.NewDummyStateStorage) ∅ [] 0 [].

Lemma some_table_ok xld : event_ok (Insert xld some_table (Some ∅)).
Proof.
  intros t [= <-]. split; [split; cbn; repeat (apply not_elem_of_cons; split; [done|]); apply not_elem_of_nil|].
  by eexists.
Qed.

Lemma events_settled_witness :
  exists w' fates, dispatch flaky [(calm, first_insert); (calm, second_insert)] idle = Ret tt w' /\
    delivered w' = concat (map sent fates) /\ length (delivered w') = 1%nat /\ lastProcessedLSN (rc w') = 201.
Proof.
  destruct (events_settled flaky [(calm, first_insert); (calm, second_insert)] idle) as (w' & fates & Hrun & _ & Hd & _).
  - constructor; [apply some_table_ok|constructor; [apply some_table_ok|constructor]].
  - reflexivity.
  - exists w', fates. split; [exact Hrun|]. split; [exact Hd|].
    assert (match dispatch flaky [(calm, first_insert); (calm, second_insert)] idle with
            | Ret _ w => length (delivered w) = 1%nat /\ lastProcessedLSN (rc w) = 201
            | _ => False
            end) as Hv by (vm_compute; split; reflexivity).
    rewrite Hrun in Hv. exact Hv.
Defined.

Lemma failed_event_lost_witness :
  exists w1 w3, handle flaky calm first_insert idle = Err "away" w1 /\ handle flaky calm second_insert w1 = Ret tt w3 /\
  exists o, Offset_ (rc w3) = Some o /\
    forall x h, x_WALStart x = 100 -> is_row x = true ->
      onXLog (S := DummyStorage.dummyStateStorage) (Tuple := unit) (fun _ => inl EmptyString) (fun _ _ => inr ∅) []
        (Offs.LSN o) x h = Ret tt h.
Proof.
  assert (match handle flaky calm first_insert idle with
          | Err err w1 => String.eqb err "away" && match handle flaky calm second_insert w1 with Ret _ _ => true | _ => false end
          | _ => false
          end = true) as Hv by (vm_compute; reflexivity).
  destruct (handle flaky calm first_insert idle) as [|err w1|] eqn:H1; [discriminate Hv| |discriminate Hv].
  apply andb_true_iff in Hv as [->%String.eqb_eq Hv].
  destruct (handle flaky calm second_insert w1) as [[] w3| |] eqn:H2; [|discriminate Hv ..].
  exists w1, w3. split; [reflexivity|]. split; [exact H2|].
  apply (failed_event_lost flaky (fun _ => inl EmptyString) (fun _ _ => inr ∅) [] calm calm first_insert second_insert
    [] "away" idle w1 w1 w3); [|reflexivity|exact H1|reflexivity|exact H2|reflexivity].
  constructor; [apply some_table_ok|constructor; [apply some_table_ok|constructor]].
Defined.
