(* ===== verification/SchemaBuilder.v ===== *)
(** * SchemaBuilder: the schemas of events

    spi/schema/schemabuilder.go, the schema functions of eventschema.go and the
    builders of tables and columns (basetable.go, column.go).

    Builders are objects that are passed around by address: [Clone] copies a
    builder but not the maps of its fields and parameters, which both builders
    then share.  So the builders, the field maps and the parameter maps live in a
    heap, and the operations are code over that heap.  [Build] follows addresses;
    its fuel bounds the depth, and the theorems say when some fuel is enough.

    The order in which Go iterates over a map is a parameter ([values]), as is
    strconv.ParseFloat. *)

From Stdlib Require Import ZArith Lia Sorting.Permutation Sorting.Sorted.
From Stdlib Require Import Strings.Byte.
From stdpp Require Import base tactics option list numbers strings pretty gmap relations sorting.
From S2P Require Import Prelude Encoding Entities Values Emitter.

Local Open Scope Z_scope.

(** ** Types (schemamodel.go) *)

Inductive schema_type : Set :=
| INT8 | INT16 | INT32 | INT64 | FLOAT32 | FLOAT64 | BOOLEAN | STRING | BYTES | ARRAY | MAP | STRUCT.

#[export] Instance schema_type_eq_dec : EqDecision schema_type.
Proof. solve_decision. Defined.

Definition type_name (t : schema_type) : string :=
  match t with
  | INT8 => "int8" | INT16 => "int16" | INT32 => "int32" | INT64 => "int64"
  | FLOAT32 => "float32" | FLOAT64 => "float64" | BOOLEAN => "boolean" | STRING => "string"
  | BYTES => "bytes" | ARRAY => "array" | MAP => "map" | STRUCT => "struct"
  end.

Definition IsPrimitive (t : schema_type) : bool :=
  match t with ARRAY | MAP | STRUCT => false | _ => true end.

(** ** The heap of builders *)

Record fieldImpl : Type := mkField {
  f_name : string;
  f_index : Z;
  f_schemaStruct : option Struct;
  f_schemaBuilder : Z;
}.

Record schemaBuilderImpl : Type := mkBuilder {
  fieldName : string;
  schemaName : string;
  schemaType : schema_type;
  version : Z;
  optional : bool;
  defaultValue : option string;
  documentation : option string;
  index : Z;
  parameters : option Z;
  fields : option Z;
  keySchemaBuilder : option Z;
  valueSchemaBuilder : option Z;
}.

Record heap : Type := mkHeap {
  builders : gmap Z schemaBuilderImpl;
  fieldMaps : gmap Z (gmap string fieldImpl);
  parameterMaps : gmap Z (gmap string any);
  next : Z;
}.

Definition empty_heap : heap := mkHeap ∅ ∅ ∅ 1.

Definition alloc (b : schemaBuilderImpl) : G heap Z := fun h =>
  Ret (next h) (mkHeap (<[ next h := b ]> (builders h)) (fieldMaps h) (parameterMaps h) (next h + 1)).

Definition new_fieldMap : G heap Z := fun h =>
  Ret (next h) (mkHeap (builders h) (<[ next h := ∅ ]> (fieldMaps h)) (parameterMaps h) (next h + 1)).

Definition new_parameterMap : G heap Z := fun h =>
  Ret (next h) (mkHeap (builders h) (fieldMaps h) (<[ next h := ∅ ]> (parameterMaps h)) (next h + 1)).

Definition set_builder (s : Z) (b : schemaBuilderImpl) : G heap unit := fun h =>
  Ret tt (mkHeap (<[ s := b ]> (builders h)) (fieldMaps h) (parameterMaps h) (next h)).

Definition fields_insert (m : Z) (name : string) (f : fieldImpl) : G heap unit := fun h =>
  match fieldMaps h !! m with
  | Some fs => Ret tt (mkHeap (builders h) (<[ m := <[ name := f ]> fs ]> (fieldMaps h)) (parameterMaps h) (next h))
  | None => Crash PanicNilMap
  end.

Definition parameters_insert (m : Z) (key : string) (v : any) : G heap unit := fun h =>
  match parameterMaps h !! m with
  | Some ps => Ret tt (mkHeap (builders h) (fieldMaps h) (<[ m := <[ key := v ]> ps ]> (parameterMaps h)) (next h))
  | None => Crash PanicNilMap
  end.

Definition deref (s : Z) : G heap schemaBuilderImpl := h ← get; must PanicNilDereference (builders h !! s).

(** A chain of calls, [m().f().g()]. *)
Notation "m ⟫ f" := (@mbind (G heap) _ Z Z f m) (at level 50, left associativity) : go_scope.
Local Open Scope go_scope.

(** A method that sets attributes and returns its receiver. *)
Definition setter (f : schemaBuilderImpl -> schemaBuilderImpl) (s : Z) : G heap Z :=
  b ← deref s; set_builder s (f b) ;; mret s.

Definition with_fieldName n b := mkBuilder n (schemaName b) (schemaType b) (version b) (optional b) (defaultValue b)
  (documentation b) (index b) (parameters b) (fields b) (keySchemaBuilder b) (valueSchemaBuilder b).
Definition with_schemaName n b := mkBuilder (fieldName b) n (schemaType b) (version b) (optional b) (defaultValue b)
  (documentation b) (index b) (parameters b) (fields b) (keySchemaBuilder b) (valueSchemaBuilder b).
Definition with_version v b := mkBuilder (fieldName b) (schemaName b) (schemaType b) v (optional b) (defaultValue b)
  (documentation b) (index b) (parameters b) (fields b) (keySchemaBuilder b) (valueSchemaBuilder b).
Definition with_optional o b := mkBuilder (fieldName b) (schemaName b) (schemaType b) (version b) o (defaultValue b)
  (documentation b) (index b) (parameters b) (fields b) (keySchemaBuilder b) (valueSchemaBuilder b).
Definition with_defaultValue d b := mkBuilder (fieldName b) (schemaName b) (schemaType b) (version b) (optional b) d
  (documentation b) (index b) (parameters b) (fields b) (keySchemaBuilder b) (valueSchemaBuilder b).
Definition with_documentation d b := mkBuilder (fieldName b) (schemaName b) (schemaType b) (version b) (optional b)
  (defaultValue b) d (index b) (parameters b) (fields b) (keySchemaBuilder b) (valueSchemaBuilder b).
Definition with_index i b := mkBuilder (fieldName b) (schemaName b) (schemaType b) (version b) (optional b)
  (defaultValue b) (documentation b) i (parameters b) (fields b) (keySchemaBuilder b) (valueSchemaBuilder b).
Definition with_parameters m b := mkBuilder (fieldName b) (schemaName b) (schemaType b) (version b) (optional b)
  (defaultValue b) (documentation b) (index b) m (fields b) (keySchemaBuilder b) (valueSchemaBuilder b).
Definition with_fields m b := mkBuilder (fieldName b) (schemaName b) (schemaType b) (version b) (optional b)
  (defaultValue b) (documentation b) (index b) (parameters b) m (keySchemaBuilder b) (valueSchemaBuilder b).
Definition with_keySchema k b := mkBuilder (fieldName b) (schemaName b) (schemaType b) (version b) (optional b)
  (defaultValue b) (documentation b) (index b) (parameters b) (fields b) k (valueSchemaBuilder b).
Definition with_valueSchema v b := mkBuilder (fieldName b) (schemaName b) (schemaType b) (version b) (optional b)
  (defaultValue b) (documentation b) (index b) (parameters b) (fields b) (keySchemaBuilder b) v.

(** The functions of package schema. *)
Module Schema.

Definition NewSchemaBuilder (t : schema_type) : G heap Z :=
  alloc (mkBuilder "" "" t 0 false None None (-1) None None None None).

Definition FieldName (n : string) : Z -> G heap Z := setter (with_fieldName n).
Definition SchemaName (n : string) : Z -> G heap Z := setter (with_schemaName n).
Definition Optional : Z -> G heap Z := setter (with_optional true).
Definition Required : Z -> G heap Z := setter (with_optional false).
Definition SetOptional (o : bool) : Z -> G heap Z := setter (with_optional o).
Definition DefaultValue (d : option string) : Z -> G heap Z := setter (with_defaultValue d).
Definition Version (v : Z) : Z -> G heap Z := setter (with_version v).
Definition Index (i : Z) : Z -> G heap Z := setter (with_index i).
Definition Documentation (d : option string) : Z -> G heap Z := setter (with_documentation d).
Definition KeySchema (k : option Z) : Z -> G heap Z := setter (with_keySchema k).
Definition ValueSchema (v : option Z) : Z -> G heap Z := setter (with_valueSchema v).

(** The copy shares the maps and the key and value builders; its index is the
    zero value. *)
Definition Clone (s : Z) : G heap Z :=
  b ← deref s; alloc (with_index 0 b).

Definition SetParameter (key : string) (v : any) (s : Z) : G heap Z :=
  b ← deref s;
  m ← match parameters b with
      | Some m => mret m
      | None => m ← new_parameterMap; set_builder s (with_parameters (Some m) b) ;; mret m
      end;
  parameters_insert m key v ;; mret s.

(** The field map of a builder, which is made when there is none yet. *)
Definition fieldMap_of (s : Z) : G heap Z :=
  b ← deref s;
  match fields b with
  | Some m => mret m
  | None => m ← new_fieldMap; set_builder s (with_fields (Some m) b) ;; mret m
  end.

Definition Field (name : string) (i : Z) (schemaBuilder : Z) (s : Z) : G heap Z :=
  m ← fieldMap_of s;
  c ← (Clone schemaBuilder ⟫ FieldName name ⟫ Index i);
  fields_insert m name (mkField name i None c) ;; mret s.

(** ** Ready-made builders *)

Definition Int8 : G heap Z := NewSchemaBuilder INT8.
Definition Int16 : G heap Z := NewSchemaBuilder INT16.
Definition Int32 : G heap Z := NewSchemaBuilder INT32.
Definition Int64 : G heap Z := NewSchemaBuilder INT64.
Definition Float32 : G heap Z := NewSchemaBuilder FLOAT32.
Definition Float64 : G heap Z := NewSchemaBuilder FLOAT64.
Definition Boolean : G heap Z := NewSchemaBuilder BOOLEAN.
Definition String : G heap Z := NewSchemaBuilder STRING.
Definition Bytes : G heap Z := NewSchemaBuilder BYTES.
Definition Map : G heap Z := NewSchemaBuilder MAP.

Definition Enum (enumValues : list string) : G heap Z :=
  String ⟫ SchemaName "io.debezium.data.Enum" ⟫ Version 1 ⟫ SetParameter "allowed" (AStrings enumValues).
Definition Bits (length : Z) : G heap Z :=
  String ⟫ SchemaName "io.debezium.data.Bits" ⟫ SetParameter "length" (AString (pretty length)) ⟫ Version 1.
Definition Ltree : G heap Z := String ⟫ SchemaName "io.debezium.data.Lree" ⟫ Version 1.
Definition Json : G heap Z := String ⟫ SchemaName "io.debezium.data.Json" ⟫ Version 1.
Definition Uuid : G heap Z := String ⟫ SchemaName "io.debezium.data.Uuid" ⟫ Version 1.
Definition Xml : G heap Z := String ⟫ SchemaName "io.debezium.data.Xml" ⟫ Version 1.
Definition HStore : G heap Z :=
  m ← Map; k ← String; m ← KeySchema (Some k) m; v ← (String ⟫ Optional); ValueSchema (Some v) m.
(** [.Field(name, i, b)] with the builder made in place. *)
Definition field (name : string) (i : Z) (b : G heap Z) (s : Z) : G heap Z := c ← b; Field name i c s.

Definition Geometry : G heap Z := NewSchemaBuilder STRUCT ⟫ field "wkb" 0 String ⟫ field "srid" 1 Int32.
Definition Geography : G heap Z := NewSchemaBuilder STRUCT ⟫ field "wkb" 0 String ⟫ field "srid" 1 Int32.

(** ** Build *)

(** strconv.ParseBool *)
Definition ParseBool (s : string) : option bool :=
  if decide (s ∈ ["1"; "t"; "T"; "true"; "TRUE"; "True"]%string) then Some true
  else if decide (s ∈ ["0"; "f"; "F"; "false"; "FALSE"; "False"]%string) then Some false
  else None.

(** strconv.ParseInt(s, 10, 64) *)
Fixpoint digits (acc : Z) (d : bytes) : option Z :=
  match d with
  | [] => Some acc
  | b :: d' => let c := Z_of_byte b in
      if (48 <=? c) && (c <=? 57) then digits (acc * 10 + (c - 48)) d' else None
  end.

Definition ParseInt (s : string) : option Z :=
  let parse (sign : Z) (d : bytes) :=
    match d with
    | [] => None
    | _ => n ← digits 0 d; let z := sign * n in if (- 2 ^ 63 <=? z) && (z <? 2 ^ 63) then Some z else None
    end in
  match bytes_of s with
  | [] => None
  | b :: d => if Z_of_byte b =? 45 then parse (-1) d else if Z_of_byte b =? 43 then parse 1 d
              else parse 1 (b :: d)
  end.

(** slices.SortStableFunc by the index. *)
Fixpoint insert_field (f : fieldImpl) (l : list fieldImpl) : list fieldImpl :=
  match l with
  | [] => [f]
  | g :: l' => if f_index f <=? f_index g then f :: l else g :: insert_field f l'
  end.

Fixpoint sort_fields (l : list fieldImpl) : list fieldImpl :=
  match l with [] => [] | f :: l' => insert_field f (sort_fields l') end.

Section Build.
Context (ParseFloat : string -> option Z).
(** [lo.Values]: the fields in the order of the map's iteration. *)
Context (values : gmap string fieldImpl -> list fieldImpl).

Definition default_of (d : string) : any :=
  match ParseBool d with
  | Some v => ABool v
  | None =>
      match ParseInt d with
      | Some v => AInt v
      | None => match ParseFloat d with Some v => AFloat64 v | None => AString d end
      end
  end.

(** What follows the schemas of the parts: attributes and parameters. *)
Definition attributes (h : heap) (b : schemaBuilderImpl) (s : Struct) : Struct :=
  let s := if (fieldName b =? "")%string then s else <[ "field"%string := AString (fieldName b) ]> s in
  let s := if (schemaName b =? "")%string then s else <[ "name"%string := AString (schemaName b) ]> s in
  let s := if -1 <? index b then <[ "index"%string := AInt (index b) ]> s else s in
  let s := if optional b then <[ "optional"%string := ABool true ]> s else s in
  let s := match defaultValue b with Some d => <[ "default"%string := default_of d ]> s | None => s end in
  match parameters b with Some m => default ∅ (parameterMaps h !! m) ∪ s | None => s end.

Definition fields_of (h : heap) (b : schemaBuilderImpl) : gmap string fieldImpl :=
  match fields b with Some m => default ∅ (fieldMaps h !! m) | None => ∅ end.

Definition type_struct (b : schemaBuilderImpl) : Struct :=
  {[ "type"%string := AString (type_name (schemaType b)) ]}.

(** The schemas of the parts of a builder, by the function that builds a part. *)
Definition parts (build : Z -> crash + Struct) (h : heap) (b : schemaBuilderImpl) : crash + Struct :=
  let part (o : option Z) := match o with Some q => build q | None => inl PanicNilDereference end in
  match schemaType b with
  | ARRAY => v ← part (valueSchemaBuilder b); mret (<[ "valueSchema"%string := AStruct v ]> (type_struct b))
  | MAP =>
      k ← part (keySchemaBuilder b);
      v ← part (valueSchemaBuilder b);
      mret (<[ "valueSchema"%string := AStruct v ]> (<[ "keySchema"%string := AStruct k ]> (type_struct b)))
  | STRUCT =>
      l ← mapM (fun f => match f_schemaStruct f with Some s => mret s | None => build (f_schemaBuilder f) end)
               (sort_fields (values (fields_of h b)));
      mret (<[ "fields"%string := AStructs l ]> (type_struct b))
  | _ => mret (type_struct b)
  end.

Fixpoint Build (fuel : nat) (h : heap) (s : Z) : crash + Struct :=
  match fuel with
  | O => inl OutOfFuel
  | S fuel =>
      match builders h !! s with
      | None => inl PanicNilDereference
      | Some b => st ← parts (Build fuel h) h b; mret (attributes h b st)
      end
  end.
End Build.

(** ** Tables and columns *)

(** pgtypes.AsFieldLength (fieldlength.go) *)
Definition AsFieldLength (oid modifiers : Z) : option Z :=
  if decide (oid ∈ [1560; 1562; 1561; 1563]) then (if 1 <? modifiers then Some modifiers else None)
  else if decide (oid ∈ [1042; 1043; 1014; 1015]) then (if 5 <? modifiers then Some (modifiers - 4) else None)
  else None.

Definition valueLength (c : Col.Column) : Z := default (-1) (AsFieldLength (pt_oid (Col.pgType c)) (Col.modifiers c)).

Section Tables.
(** pgType.SchemaBuilder *)
Context (SchemaBuilder : PgType -> G heap Z).

Definition Column_SchemaBuilder (c : Col.Column) : G heap Z :=
  s ← (SchemaBuilder (Col.pgType c) ⟫ FieldName (Col.name c) ⟫ DefaultValue (Col.defaultValue c)
        ⟫ SetOptional (Col.nullable c));
  (if -1 <? valueLength c then SetParameter "length" (AInt (valueLength c)) s else mret s) ;;
  Clone s.

Fixpoint column_fields (s : Z) (i : Z) (columns : list Col.Column) : G heap unit :=
  match columns with
  | [] => mret tt
  | c :: cs => b ← Column_SchemaBuilder c; Field (Col.name c) i b s ;; column_fields s (i + 1) cs
  end.

Definition table_SchemaBuilder (t : BaseTable.baseTable) : G heap Z :=
  s ← (NewSchemaBuilder STRUCT ⟫ FieldName (CanonicalName (BaseTable.entity t)));
  column_fields s 0 (BaseTable.columns t) ;; mret s.
End Tables.

(** ** Schemas of events (eventschema.go) *)

Definition SourceSchema : G heap Z :=
  NewSchemaBuilder STRUCT ⟫ FieldName "source" ⟫ SchemaName "io.debezium.connector.postgresql.Source" ⟫ Required
    ⟫ field "version" (-1) (String ⟫ Required)
    ⟫ field "connector" (-1) (String ⟫ Required)
    ⟫ field "name" (-1) (String ⟫ Required)
    ⟫ field "ts_ms" (-1) (String ⟫ Required)
    ⟫ field "snapshot" (-1) (Boolean ⟫ DefaultValue (Some "false"%string))
    ⟫ field "schema" (-1) (String ⟫ Required)
    ⟫ field "table" (-1) (String ⟫ Required)
    ⟫ field "txId" (-1) Int64
    ⟫ field "lsn" (-1) Int64
    ⟫ field "xmin" (-1) Int64.

Section EventSchemas.
Context (ParseFloat : string -> option Z) (values : gmap string fieldImpl -> list fieldImpl) (fuel : nat).

Definition run_Build (s : Z) : G heap Struct := fun h =>
  match Build ParseFloat values fuel h s with inr st => Ret st h | inl c => Crash c end.

Definition messageBlockSchema : Struct :=
  {[ "version" := AInt 1; "name" := AString "io.debezium.connector.postgresql.Message";
     "fields" := AStructs [Events.simpleSchemaElement "prefix" "string" false;
                           Events.simpleSchemaElement "content" "string" true] ]}%string.

Definition MessageValueSchema : G heap Struct :=
  source ← (s ← SourceSchema; run_Build s);
  mret (({[ "version" := AInt 1; "name" := AString "io.debezium.connector.postgresql.MessageValue";
     "fields" := AStructs
       [Events.simpleSchemaElement "op" "string" false; Events.simpleSchemaElement "ts_ms" "int64" true; source;
        {[ "field" := AString "message"; "optional" := ABool false; "message" := AStruct messageBlockSchema ]} ]
     ]}%string) : Struct).

Definition EnvelopeMessageSchema (messageTopicName : string) : G heap Struct :=
  message ← MessageValueSchema;
  source ← (s ← SourceSchema; run_Build s);
  mret (({[ "type" := AString "struct";
     "fields" := AStructs
       [message; source; Events.simpleSchemaElement "op" "string" false;
        Events.simpleSchemaElement "tsdb_op" "string" true; Events.simpleSchemaElement "ts_ms" "int64" true];
     "optional" := ABool false; "name" := AString (messageTopicName ++ ".Envelope") ]}%string) : Struct).

Definition TimescaleEventKeySchema : Struct :=
  {[ "type" := AString "struct"; "name" := AString "com.timescale.Event"; "optional" := ABool false;
     "fields" := AStructs [Events.simpleSchemaElement "schema" "string" false;
                           Events.simpleSchemaElement "table" "string" false] ]}%string.

(** [tableBuilder] is [table.SchemaBuilder()]. *)
Definition EnvelopeSchema (schemaTopicName : string) (tableBuilder : G heap Z) : G heap Struct :=
  hypertableSchema ← (tableBuilder ⟫ SchemaName (schemaTopicName ++ ".Value")%string);
  envelope ← (NewSchemaBuilder STRUCT ⟫ SchemaName (schemaTopicName ++ ".Envelope")%string ⟫ Required
    ⟫ field "before" (-1) (Clone hypertableSchema)
    ⟫ field "after" (-1) (Clone hypertableSchema ⟫ Required)
    ⟫ field "source" (-1) SourceSchema
    ⟫ field "op" (-1) (String ⟫ Required)
    ⟫ field "tsdb_op" (-1) String
    ⟫ field "ts_ms" (-1) Int64);
  run_Build envelope.
End EventSchemas.
End Schema.

(** ** When Build ends *)

(** Computations that are given a depth, and end for every depth that is large
    enough in the same way. *)
Definition settled {A} (g : nat -> crash + A) : Prop :=
  exists n r, r <> inl OutOfFuel /\ forall k, (n <= k)%nat -> g k = r.

Lemma settled_ret {A} (r : crash + A) : r <> inl OutOfFuel -> settled (fun _ => r).
Proof. exists 0%nat, r. done. Qed.

Lemma settled_bind {A B} (g : nat -> crash + A) (f : nat -> A -> crash + B) :
  settled g -> (forall a, settled (fun k => f k a)) -> settled (fun k => g k ≫= f k).
Proof.
  intros (n & r & Hr & Hg) Hf. destruct r as [c|a].
  - exists n, (inl c). split; [intros [= ->]; done|]. intros k Hk. by rewrite (Hg k Hk).
  - destruct (Hf a) as (n' & r & Hr' & Hfa). exists (n `max` n')%nat, r. split; [done|].
    intros k Hk. rewrite (Hg k) by lia. cbn. apply Hfa. lia.
Qed.

Lemma settled_mapM {A B} (g : nat -> A -> crash + B) (l : list A) :
  (forall a, a ∈ l -> settled (fun k => g k a)) -> settled (fun k => mapM (g k) l).
Proof.
  induction l as [|a l IH]; intros Hl; cbn; [by apply settled_ret|].
  apply (settled_bind (fun k => g k a) (fun k b => k' ← mapM (g k) l; mret (b :: k'))).
  { apply Hl. set_solver. }
  intros b. apply (settled_bind (fun k => mapM (g k) l) (fun k k' => mret (b :: k'))).
  { apply IH. set_solver. }
  intros l'. by apply settled_ret.
Qed.

(** The builders that a builder refers to. *)
Inductive child (h : heap) (s q : Z) : Prop :=
| child_key b : builders h !! s = Some b -> keySchemaBuilder b = Some q -> child h s q
| child_value b : builders h !! s = Some b -> valueSchemaBuilder b = Some q -> child h s q
| child_field b m fs name f :
    builders h !! s = Some b -> fields b = Some m -> fieldMaps h !! m = Some fs -> fs !! name = Some f ->
    q = f_schemaBuilder f -> child h s q.

Abbreviation below h := (fun q s => child h s q).

Definition Acyclic (h : heap) : Prop := forall s, Acc (below h) s.

(** What is known of the order in which a map is iterated. *)
Class MapOrder (values : gmap string fieldImpl -> list fieldImpl) : Prop :=
  values_permutation m : values m ≡ₚ (map_to_list m).*2.

Lemma values_in values `{!MapOrder values} m f : f ∈ values m -> exists name, m !! name = Some f.
Proof.
  rewrite (values_permutation m), list_elem_of_fmap. intros ([name g] & -> & Hin).
  exists name. by apply elem_of_map_to_list.
Qed.

Lemma insert_field_permutation f l : Schema.insert_field f l ≡ₚ f :: l.
Proof.
  induction l as [|g l IH]; [done|]. cbn. case_match; [done|]. rewrite IH. constructor.
Qed.

Lemma sort_fields_permutation l : Schema.sort_fields l ≡ₚ l.
Proof. induction l as [|f l IH]; [done|]. cbn. by rewrite insert_field_permutation, IH. Qed.

Section Ends.
Context (ParseFloat : string -> option Z) (values : gmap string fieldImpl -> list fieldImpl) `{!MapOrder values}.

Lemma field_is_child h s b f :
  builders h !! s = Some b -> f ∈ Schema.sort_fields (values (Schema.fields_of h b)) ->
  child h s (f_schemaBuilder f).
Proof.
  intros Hb. rewrite sort_fields_permutation. intros (name & Hf)%values_in; [|done].
  unfold Schema.fields_of in Hf. destruct (fields b) as [m|] eqn:Em; [|by rewrite lookup_empty in Hf].
  destruct (fieldMaps h !! m) as [fs|] eqn:Efs; cbn in Hf; [|by rewrite lookup_empty in Hf].
  by eapply child_field.
Qed.

Lemma parts_settled h s b (g : nat -> Z -> crash + Struct) :
  builders h !! s = Some b -> (forall q, child h s q -> settled (fun k => g k q)) ->
  settled (fun k => Schema.parts values (g k) h b).
Proof.
  intros Hb Hg. unfold Schema.parts.
  assert (Hpart : forall o, (forall q, o = Some q -> child h s q) ->
    settled (fun k => match o with Some q => g k q | None => inl PanicNilDereference end)).
  { intros [q|] Ho; [apply Hg; by apply Ho|by apply settled_ret]. }
  assert (Hv := Hpart (valueSchemaBuilder b) (fun q => child_value h s q b Hb)).
  assert (Hk := Hpart (keySchemaBuilder b) (fun q => child_key h s q b Hb)).
  destruct (schemaType b); try (by apply settled_ret).
  - apply (settled_bind _ (fun _ v => mret _) Hv). intros v. by apply settled_ret.
  - apply (settled_bind _ (fun k x => _) Hk). intros x.
    apply (settled_bind _ (fun _ v => mret _) Hv). intros v. by apply settled_ret.
  - apply (settled_bind _ (fun _ l => mret _)); [|intros l; by apply settled_ret].
    apply settled_mapM. intros f Hf. destruct (f_schemaStruct f); [by apply settled_ret|].
    apply Hg. by eapply field_is_child.
Qed.

(** On a builder without cycles below it, Build ends. *)
Lemma Build_settled h s : Acc (below h) s -> settled (fun k => Schema.Build ParseFloat values k h s).
Proof.
  induction 1 as [s _ IH].
  destruct (builders h !! s) as [b|] eqn:Hb.
  - destruct (parts_settled h s b (fun k => Schema.Build ParseFloat values k h) Hb) as (n & r & Hr & Hg).
    { intros q Hq. by apply IH. }
    exists (S n), (st ← r; mret (Schema.attributes ParseFloat h b st)). split.
    + destruct r as [c|a]; cbn; [|done]. intros [= ->]. done.
    + intros [|k] Hk; [lia|]. cbn. rewrite Hb, Hg by lia. done.
  - exists 1%nat, (inl PanicNilDereference). split; [done|]. intros [|k] Hk; [lia|]. cbn. by rewrite Hb.
Qed.
End Ends.

(** *** Which operations keep it so *)

(** Builders whose field map an insertion into [s]'s changes: [s] and those that
    share its map. *)
Definition affected (h : heap) (s q : Z) : Prop :=
  q = s \/ exists b b' m, builders h !! s = Some b /\ builders h !! q = Some b' /\
    fields b = Some m /\ fields b' = Some m.

(** Methods that set an attribute and no reference. *)
Inductive attribute : (schemaBuilderImpl -> schemaBuilderImpl) -> Prop :=
| at_fieldName n : attribute (with_fieldName n)
| at_schemaName n : attribute (with_schemaName n)
| at_version v : attribute (with_version v)
| at_optional o : attribute (with_optional o)
| at_defaultValue d : attribute (with_defaultValue d)
| at_documentation d : attribute (with_documentation d)
| at_index i : attribute (with_index i).

(** A builder may be handed to [s] when nothing below it is changed by that. *)
Definition may_hold (h : heap) (s : Z) (o : option Z) : Prop :=
  match o with
  | Some k => is_Some (builders h !! k) /\ forall q, rtc (child h) k q -> q <> s
  | None => True
  end.

Inductive step (h h' : heap) : Prop :=
| step_new t p : Schema.NewSchemaBuilder t h = Ret p h' -> step h h'
| step_attribute f s p : attribute f -> setter f s h = Ret p h' -> step h h'
| step_parameter key v s p : Schema.SetParameter key v s h = Ret p h' -> step h h'
| step_clone s p : Schema.Clone s h = Ret p h' -> step h h'
| step_field name i c s p :
    (forall q, rtc (child h) c q -> ~ affected h s q) -> Schema.Field name i c s h = Ret p h' -> step h h'
| step_key k s p : may_hold h s k -> Schema.KeySchema k s h = Ret p h' -> step h h'
| step_value v s p : may_hold h s v -> Schema.ValueSchema v s h = Ret p h' -> step h h'.

Record good (h : heap) : Prop := mkGood {
  good_builder s b : builders h !! s = Some b -> s < next h;
  good_map s b m : builders h !! s = Some b -> fields b = Some m -> m < next h;
  good_child s q : child h s q -> q < next h;
  good_acyclic : Acyclic h;
}.

(** Fewer references keep every chain finite. *)
Lemma acyclic_sub h h' : (forall s q, child h' s q -> child h s q) -> Acyclic h -> Acyclic h'.
Proof.
  intros Hsub Hac s. induction (Hac s) as [s _ IH]. constructor. intros q Hq. apply IH. by apply Hsub.
Qed.

(** New references to [t] do, when [t] reaches none of the builders that get them. *)
Lemma acyclic_add h h' t (changed : Z -> Prop) :
  (forall s q, child h' s q -> child h s q \/ changed s /\ q = t) ->
  (forall q, rtc (child h) t q -> ~ changed q) -> Acyclic h -> Acyclic h'.
Proof.
  intros Hsub Ht Hac.
  assert (Hfree : forall s, (forall q, rtc (child h) s q -> ~ changed q) -> Acc (below h') s).
  { intros s. induction (Hac s) as [s _ IH]. intros Hs. constructor. intros q Hq.
    destruct (Hsub s q Hq) as [Hq'|[Hch _] ]; [|by destruct (Hs s); [apply rtc_refl|] ].
    apply IH; [done|]. intros r Hr. apply Hs. by eapply rtc_l. }
  intros s. induction (Hac s) as [s _ IH]. constructor. intros q Hq.
  destruct (Hsub s q Hq) as [Hq'|[_ ->] ]; [by apply IH|]. by apply Hfree.
Qed.

(** Replacing a builder by one with the same references. *)
Lemma child_same_refs h s b b' :
  builders h !! s = Some b -> fields b' = fields b -> keySchemaBuilder b' = keySchemaBuilder b ->
  valueSchemaBuilder b' = valueSchemaBuilder b ->
  forall t q, child (mkHeap (<[ s := b' ]> (builders h)) (fieldMaps h) (parameterMaps h) (next h)) t q -> child h t q.
Proof.
  intros Hb Hf Hk Hv t q. destruct 1 as [x Hx E|x Hx E|x m fs name f Hx E1 E2 E3 ->]; cbn in *;
    destruct (decide (s = t)) as [<-|Hne];
    rewrite ?lookup_insert_eq, ?lookup_insert_ne in Hx by done; eauto using child; injection Hx as <-.
  - eapply child_key; [done|congruence].
  - eapply child_value; [done|congruence].
  - eapply child_field; [done|by rewrite <- Hf|done|done|done].
Qed.

Lemma good_same_refs h s b b' :
  good h -> builders h !! s = Some b -> fields b' = fields b -> keySchemaBuilder b' = keySchemaBuilder b ->
  valueSchemaBuilder b' = valueSchemaBuilder b ->
  good (mkHeap (<[ s := b' ]> (builders h)) (fieldMaps h) (parameterMaps h) (next h)).
Proof.
  intros [Hlt Hm Hc Hac] Hb Hf Hk Hv. pose proof (child_same_refs h s b b' Hb Hf Hk Hv) as Hsub.
  split; cbn.
  - intros t x [ [<- _]|[_ Hx] ]%lookup_insert_Some; eauto.
  - intros t x m [ [<- <-]|[_ Hx] ]%lookup_insert_Some; [rewrite Hf|]; eauto.
  - intros t q Hq. eauto.
  - by eapply acyclic_sub.
Qed.

(** A new builder with the references of another one, or with none. *)
Lemma good_alloc h b p h' :
  good h -> alloc b h = Ret p h' ->
  (fields b = None /\ keySchemaBuilder b = None /\ valueSchemaBuilder b = None \/
   exists c b0, builders h !! c = Some b0 /\ fields b = fields b0 /\
     keySchemaBuilder b = keySchemaBuilder b0 /\ valueSchemaBuilder b = valueSchemaBuilder b0) ->
  good h'.
Proof.
  intros [Hlt Hm Hc Hac] [= <- <-] Hrefs.
  assert (Hsub : forall s q, child (mkHeap (<[ next h := b ]> (builders h)) (fieldMaps h) (parameterMaps h) (next h + 1)) s q ->
    child h s q \/ s = next h /\ exists c, child h c q).
  { intros s q. destruct 1 as [x Hx E|x Hx E|x m fs name f Hx E1 E2 E3 ->]; cbn in *;
      apply lookup_insert_Some in Hx as [ [<- <-]|[_ Hx] ]; eauto using child;
      right; (split; [done|]); destruct Hrefs as [(?&?&?)|(c & b0 & Hb0 & Hf & Hk & Hv)]; try congruence;
      exists c; [eapply child_key|eapply child_value|eapply child_field]; eauto; congruence. }
  split; cbn.
  - intros t x [ [<- _]|[_ Hx%Hlt] ]%lookup_insert_Some; lia.
  - intros t x m [ [<- <-]|[_ Hx] ]%lookup_insert_Some Hfm.
    + destruct Hrefs as [(?&?&?)|(c & b0 & Hb0 & Hf & _)]; [congruence|].
      rewrite Hf in Hfm. pose proof (Hm _ _ _ Hb0 Hfm). lia.
    + pose proof (Hm _ _ _ Hx Hfm). lia.
  - intros t q [Hq|(_ & c & Hq)]%Hsub; pose proof (Hc _ _ Hq); lia.
  - assert (Hold : forall s, s <> next h -> Acc (below (mkHeap (<[ next h := b ]> (builders h)) (fieldMaps h)
        (parameterMaps h) (next h + 1))) s).
    { intros s. induction (Hac s) as [s _ IH]. intros Hs. constructor. intros q [Hq|(? & _)]%Hsub; [|done].
      apply IH; [done|]. pose proof (Hc _ _ Hq). lia. }
    intros s. destruct (decide (s = next h)) as [->|Hne]; [|by apply Hold].
    constructor. intros q Hq. apply Hold.
    destruct (Hsub _ _ Hq) as [Hq'|(_ & c & Hq')]; pose proof (Hc _ _ Hq'); lia.
Qed.

Lemma deref_ret s h b h' : deref s h = Ret b h' -> builders h !! s = Some b /\ h' = h.
Proof.
  unfold deref, get, must. rewrite bind_ret || cbn. unfold mbind, G_bind. destruct (builders h !! s); [|done].
  by intros [= -> ->].
Qed.

Lemma setter_ret f s h p h' :
  setter f s h = Ret p h' ->
  exists b, builders h !! s = Some b /\ p = s /\
    h' = mkHeap (<[ s := f b ]> (builders h)) (fieldMaps h) (parameterMaps h) (next h).
Proof.
  intros (b & h1 & [Hb ->]%deref_ret & [= <- <-])%bind_ret_inv. by exists b.
Qed.

Lemma good_attribute f s h p h' : attribute f -> good h -> setter f s h = Ret p h' -> good h'.
Proof.
  intros Hf Hg (b & Hb & -> & ->)%setter_ret. eapply good_same_refs; [done|done|..]; by destruct Hf.
Qed.

Lemma good_reference f s h p h' o :
  good h -> may_hold h s o -> setter f s h = Ret p h' ->
  (forall b, fields (f b) = fields b) ->
  (forall b q, keySchemaBuilder (f b) = Some q -> keySchemaBuilder b = Some q \/ o = Some q) ->
  (forall b q, valueSchemaBuilder (f b) = Some q -> valueSchemaBuilder b = Some q \/ o = Some q) ->
  good h'.
Proof.
  intros [Hlt Hm Hc Hac] Ho (b & Hb & -> & ->)%setter_ret Hf Hk Hv.
  assert (Hsub : forall t q, child (mkHeap (<[ s := f b ]> (builders h)) (fieldMaps h) (parameterMaps h) (next h)) t q ->
    child h t q \/ t = s /\ o = Some q).
  { intros t q. destruct 1 as [x Hx E|x Hx E|x m fs name g Hx E1 E2 E3 ->]; cbn in *;
      apply lookup_insert_Some in Hx as [ [<- <-]|[_ Hx] ]; eauto using child.
    - destruct (Hk b q E); eauto using child.
    - destruct (Hv b q E); eauto using child.
    - left. eapply child_field; eauto. by rewrite <- Hf. }
  split; cbn.
  - intros t x [ [<- _]|[_ Hx] ]%lookup_insert_Some; eauto.
  - intros t x m [ [<- <-]|[_ Hx] ]%lookup_insert_Some; [rewrite Hf|]; eauto.
  - intros t q [Hq|[-> ->] ]%Hsub; [eauto|]. destruct Ho as [ [x Hx] _]. by eapply Hlt.
  - destruct o as [k|]; cbn in Ho.
    + eapply (acyclic_add h _ k (eq s)); [|by intros q Hq <-; destruct Ho as [_ Ho]; eapply Ho|done].
      intros t q [Hq|[-> [= ->] ] ]%Hsub; eauto.
    + eapply acyclic_sub; [|done]. intros t q [Hq|[_ ?] ]%Hsub; [done|discriminate].
Qed.

(** A map of parameters has no references to builders. *)
Lemma good_parameters h ps n :
  good h -> next h <= n -> good (mkHeap (builders h) (fieldMaps h) ps n).
Proof.
  intros [Hlt Hm Hc Hac] Hn.
  assert (Hsub : forall t q, child (mkHeap (builders h) (fieldMaps h) ps n) t q -> child h t q)
    by (intros t q []; eauto using child).
  split; cbn; [intros ?? ?%Hlt; lia|intros t b m Hb Hf; pose proof (Hm t b m Hb Hf); lia|
    intros ?? ?%Hsub%Hc; lia|by eapply acyclic_sub].
Qed.

(** The empty map of a builder that had none. *)
Lemma good_fieldMap s h m h' :
  good h -> Schema.fieldMap_of s h = Ret m h' ->
  good h' /\ next h <= next h' /\ (forall t q, child h' t q <-> child h t q) /\
  (exists b, builders h' !! s = Some b /\ fields b = Some m) /\
  (forall q b, builders h' !! q = Some b -> fields b = Some m -> affected h s q) /\
  (forall q, is_Some (builders h' !! q) <-> is_Some (builders h !! q)).
Proof.
  intros Hg (b & h1 & [Hb ->]%deref_ret & Hm)%bind_ret_inv.
  destruct (fields b) as [m0|] eqn:Ef.
  { injection Hm as -> ->. split; [done|]. split; [lia|]. split; [done|]. split; [by exists b|].
    split; [|done]. intros q b' Hb' Hf'. right. by exists b, b', m. }
  injection Hm as <- <-.
  assert (Hfresh : forall q b', builders h !! q = Some b' -> fields b' <> Some (next h)).
  { intros q b' Hb' Hf'. pose proof (good_map h Hg _ _ _ Hb' Hf'). lia. }
  match goal with |- good ?x /\ _ => set (h' := x) end.
  assert (Hch : forall t q, child h' t q <-> child h t q).
  { intros t q. split; destruct 1 as [x Hx E|x Hx E|x m fs name g Hx E1 E2 E3 ->]; cbn in *.
    - apply lookup_insert_Some in Hx as [ [<- <-]|[_ Hx] ]; eauto using child.
    - apply lookup_insert_Some in Hx as [ [<- <-]|[_ Hx] ]; eauto using child.
    - apply lookup_insert_Some in Hx as [ [<- <-]|[_ Hx] ].
      + injection E1 as <-. rewrite lookup_insert_eq in E2. injection E2 as <-. by rewrite lookup_empty in E3.
      + apply lookup_insert_Some in E2 as [ [<- <-]|[_ E2] ]; [|eauto using child]. by destruct (Hfresh _ _ Hx).
    - destruct (decide (t = s)) as [->|]; [|eapply child_key; cbn; [by rewrite lookup_insert_ne|done] ].
      eapply child_key; cbn; [apply lookup_insert_eq|cbn; congruence].
    - destruct (decide (t = s)) as [->|]; [|eapply child_value; cbn; [by rewrite lookup_insert_ne|done] ].
      eapply child_value; cbn; [apply lookup_insert_eq|cbn; congruence].
    - destruct (decide (t = s)) as [->|]; [congruence|].
      eapply child_field; cbn; [by rewrite lookup_insert_ne|done| |done|done].
      rewrite lookup_insert_ne; [done|]. intros <-. by eapply Hfresh. }
  split; [|split; [cbn; lia|split; [done|] ] ].
  - destruct Hg as [Hlt Hm Hc Hac]. split; cbn.
    + intros t x [ [<- _]|[_ Hx%Hlt] ]%lookup_insert_Some; [apply Hlt in Hb|]; lia.
    + intros t x m [ [<- <-]|[_ Hx] ]%lookup_insert_Some Hfm; [injection Hfm as <-|pose proof (Hm _ _ _ Hx Hfm)]; lia.
    + intros t q Hq%Hch%Hc. lia.
    + eapply acyclic_sub; [|done]. intros t q. apply Hch.
  - split; [eexists; split; [apply lookup_insert_eq|done]|]. split.
    + intros q b' Hx Hf'. cbn in Hx. apply lookup_insert_Some in Hx as [ [<- _]|[_ Hx] ]; [by left|]. by destruct (Hfresh _ _ Hx).
    + intros q. unfold h'. cbn [builders]. destruct (decide (q = s)) as [->|]; [rewrite lookup_insert_eq, Hb; split; eauto|].
      by rewrite lookup_insert_ne.
Qed.

(** The copy that Field makes of its argument. *)
Definition field_copy (name : string) (i : Z) (b : schemaBuilderImpl) : schemaBuilderImpl :=
  with_index i (with_fieldName name (with_index 0 b)).

Lemma Clone_ret c h p h' :
  Schema.Clone c h = Ret p h' -> exists b, builders h !! c = Some b /\ alloc (with_index 0 b) h = Ret p h'.
Proof. intros (b & h1 & [Hb ->]%deref_ret & Ha)%bind_ret_inv. eauto. Qed.

Lemma field_copy_ret c name i h p h' :
  (Schema.Clone c ⟫ Schema.FieldName name ⟫ Schema.Index i) h = Ret p h' ->
  exists b, builders h !! c = Some b /\ alloc (field_copy name i b) h = Ret p h'.
Proof.
  intros (p2 & h2 & (p1 & h1 & (b & Hb & [= <- <-])%Clone_ret & H2)%bind_ret_inv & H3)%bind_ret_inv.
  apply setter_ret in H2 as (b2 & Hb2 & -> & ->). cbn in *. rewrite lookup_insert_eq in Hb2. injection Hb2 as <-.
  apply setter_ret in H3 as (b3 & Hb3 & -> & ->). cbn in *. rewrite lookup_insert_eq in Hb3. injection Hb3 as <-.
  exists b. split; [done|]. unfold alloc. by rewrite !insert_insert_eq.
Qed.

(** What can be reached from the copy is the copy itself and what can be reached
    from the original. *)
Lemma copy_reaches h c b0 b q :
  good h -> builders h !! c = Some b0 -> fields b = fields b0 -> keySchemaBuilder b = keySchemaBuilder b0 ->
  valueSchemaBuilder b = valueSchemaBuilder b0 ->
  rtc (child (mkHeap (<[ next h := b ]> (builders h)) (fieldMaps h) (parameterMaps h) (next h + 1))) (next h) q ->
  q = next h \/ q <> next h /\ rtc (child h) c q.
Proof.
  intros Hg Hc Hf Hk Hv. revert q.
  apply (rtc_ind_r (fun q => q = next h \/ q <> next h /\ rtc (child h) c q)); [by left|].
  intros x y _ Hxy IH. right.
  assert (Hchild : child h x y \/ x = next h /\ child h c y).
  { destruct Hxy as [z Hz E|z Hz E|z m fs name g Hz E1 E2 E3 ->]; cbn in *;
      apply lookup_insert_Some in Hz as [ [<- <-]|[_ Hz] ]; eauto using child; right; (split; [done|]);
      [eapply child_key|eapply child_value|eapply child_field]; eauto; congruence. }
  destruct Hchild as [Hxy'|[-> Hcy] ].
  - pose proof (good_child h Hg _ _ Hxy'). split; [lia|]. destruct IH as [->|[_ IH] ]; [|by eapply rtc_r].
    exfalso. destruct Hxy' as [z Hz|z Hz|z m fs name g Hz]; pose proof (good_builder h Hg _ _ Hz); lia.
  - pose proof (good_child h Hg _ _ Hcy). split; [lia|]. by apply rtc_once.
Qed.

Lemma good_field_insert h m name f h' :
  good h -> is_Some (builders h !! f_schemaBuilder f) ->
  (forall q b, rtc (child h) (f_schemaBuilder f) q -> builders h !! q = Some b -> fields b <> Some m) ->
  fields_insert m name f h = Ret tt h' -> good h'.
Proof.
  intros [Hlt Hm Hc Hac] [bt Hbt] Hfree. unfold fields_insert. destruct (fieldMaps h !! m) as [fs|] eqn:Efs; [|done].
  intros [= <-].
  assert (Hsub : forall s q, child (mkHeap (builders h) (<[ m := <[ name := f ]> fs ]> (fieldMaps h))
      (parameterMaps h) (next h)) s q ->
    child h s q \/ (exists b, builders h !! s = Some b /\ fields b = Some m) /\ q = f_schemaBuilder f).
  { intros s q. destruct 1 as [x Hx E|x Hx E|x m' fs' name' g Hx E1 E2 E3 ->]; cbn in *; eauto using child.
    apply lookup_insert_Some in E2 as [ [<- <-]|[_ E2] ]; [|eauto using child].
    apply lookup_insert_Some in E3 as [ [_ <-]|[_ E3] ]; eauto using child. }
  split; cbn; [done|done| |].
  - intros s q [Hq|[_ ->] ]%Hsub; eauto.
  - eapply (acyclic_add h _ (f_schemaBuilder f)); [exact Hsub| |done].
    intros q Hq (b & Hb & Hfm). by eapply Hfree.
Qed.

Lemma good_field name i c s h p h' :
  good h -> (forall q, rtc (child h) c q -> ~ affected h s q) -> Schema.Field name i c s h = Ret p h' -> good h'.
Proof.
  intros Hg Hfree (m & h1 & Hm & (c' & h2 & Hc & H3)%bind_ret_inv)%bind_ret_inv.
  destruct (good_fieldMap s h m h1 Hg Hm) as (Hg1 & _ & Hch & _ & Haff & _).
  apply field_copy_ret in Hc as (b & Hb & Ha).
  assert (Hg2 : good h2) by (eapply good_alloc; [done|done|]; right; by exists c, b).
  apply bind_ret_inv in H3 as ([] & h3 & Hi & [= _ ->]). injection Ha as <- <-.
  eapply good_field_insert; [exact Hg2| | |exact Hi]; cbn; [by rewrite lookup_insert_eq|].
  assert (Hreach : forall q, rtc (child h1) c q -> rtc (child h) c q).
  { intros q. apply rtc_subrel. intros x y. apply Hch. }
  intros q bq Hq Hbq Hfq. eapply copy_reaches in Hq as [->|[Hne Hq] ]; try done.
  - rewrite lookup_insert_eq in Hbq. injection Hbq as <-. eapply Hfree; [apply rtc_refl|]. by eapply Haff.
  - rewrite lookup_insert_ne in Hbq by done. eapply Hfree; [by apply Hreach|]. by eapply Haff.
Qed.

Lemma step_good h h' : step h h' -> good h -> good h'.
Proof.
  destruct 1 as [t p H|f s p Hf H|key v s p H|s p H|name i c s p Hfree H|k s p Hk H|v s p Hv H]; intros Hg.
  - eapply good_alloc; [done|exact H|]. by left.
  - by eapply good_attribute.
  - apply bind_ret_inv in H as (b & h1 & [Hb ->]%deref_ret & (m & h2 & Hm & H)%bind_ret_inv).
    apply bind_ret_inv in H as ([] & h3 & Hi & [= _ ->]). unfold parameters_insert in Hi.
    destruct (parameterMaps h2 !! m); [|done]. injection Hi as <-.
    apply good_parameters; [|lia]. destruct (parameters b); injection Hm as <- <-; [done|].
    eapply (good_same_refs (mkHeap _ _ _ (next h + 1))); [apply good_parameters; [done|lia]|done|done|done|done].
  - apply Clone_ret in H as (b & Hb & H). eapply good_alloc; [done|exact H|]. right. by exists s, b.
  - by eapply good_field.
  - eapply (good_reference _ s h p h' k); [done|done|exact H|done|by right|by left].
  - eapply (good_reference _ s h p h' v); [done|done|exact H|done|by left|by right].
Qed.

Lemma empty_good : good empty_heap.
Proof.
  assert (Hno : forall s q, ~ child empty_heap s q) by (intros s q [b Hb|b Hb|b m fs n f Hb]; exact (lookup_empty_Some _ _ Hb)).
  split; cbn; [by intros ?? ?%lookup_empty_Some|by intros ??? ?%lookup_empty_Some| |].
  - intros s q Hq. by destruct (Hno s q).
  - intros s. constructor. intros q Hq. by destruct (Hno s q).
Qed.

(** Building a schema ends: in every heap that the builder's methods can
    produce, where no builder is handed to one that it reaches itself (through
    the maps that clones share, too), Build comes back for every builder, with
    one and the same result for every recursion depth from some depth on. *)
Theorem Build_terminates (ParseFloat : string -> option Z) (values : gmap string fieldImpl -> list fieldImpl) h s :
  MapOrder values -> rtc step empty_heap h ->
  exists n r, r <> inl OutOfFuel /\ forall k, (n <= k)%nat -> Schema.Build ParseFloat values k h s = r.
Proof.
  intros HV Hh. assert (Hg : good h).
  { revert Hh. generalize empty_good. generalize empty_heap. induction 2; eauto using step_good. }
  apply (Build_settled ParseFloat values h s). apply (good_acyclic h Hg).
Qed.

(** Iteration in the order of the keys' encoding. *)
Definition some_order (m : gmap string fieldImpl) : list fieldImpl := (map_to_list m).*2.

#[export] Instance some_order_lawful : MapOrder some_order.
Proof. intros m. done. Qed.

Lemma no_child_reach h c q : (forall x, ~ child h c x) -> rtc (child h) c q -> q = c.
Proof. intros Hno Hr. destruct Hr as [|x y z Hxy _]; [done|]. by destruct (Hno y). Qed.

Definition run_heap {A} (m : G heap A) (h : heap) : heap :=
  match m h with Ret _ h' | Err _ h' => h' | Crash _ => h end.

(** Two builders, a struct and a string, and then the string as its field. *)
Definition two_builders : heap := run_heap Schema.String (run_heap (Schema.NewSchemaBuilder STRUCT) empty_heap).
Definition one_field : heap := run_heap (Schema.Field "a" 0 2 1) two_builders.

Lemma Build_terminates_witness :
  exists n r, r <> inl OutOfFuel /\ forall k, (n <= k)%nat -> Schema.Build (fun _ => None) some_order k one_field 1 = r.
Proof.
  apply (Build_terminates (fun _ => None) some_order one_field 1); [exact _|].
  apply (rtc_l _ _ (run_heap (Schema.NewSchemaBuilder STRUCT) empty_heap)).
  { by apply (step_new _ _ STRUCT 1). }
  apply (rtc_l _ _ two_builders). { by apply (step_new _ _ STRING 2). }
  apply rtc_once, (step_field _ _ "a" 0 2 1 1); [|reflexivity].
  intros q Hq%no_child_reach; [subst q|].
  - intros [?|(b & b' & m & Hb & _ & Hm & _)]; [done|]. vm_compute in Hb. injection Hb as <-. done.
  - intros x [b Hb E|b Hb E|b m fs n f Hb E]; vm_compute in Hb; injection Hb as <-; done.
Defined.

(** *** A builder as its own field *)

Lemma mapM_same {A B} (g g' : A -> crash + B) l : (forall a, g a = g' a) -> mapM g l = mapM g' l.
Proof. intros Hg. induction l as [|a l IH]; cbn; [done|]. by rewrite Hg, IH. Qed.

Lemma mapM_elem {A B} (g : A -> crash + B) l r a : mapM g l = inr r -> a ∈ l -> exists b, g a = inr b.
Proof.
  revert r. induction l as [|x l IH]; intros r; cbn; [set_solver|].
  destruct (g x) as [?|b] eqn:E; cbn; [done|]. destruct (mapM g l) as [?|l'] eqn:El; cbn; [done|].
  intros _ [->|Hin]%elem_of_cons; eauto.
Qed.

(** A struct that has built has built each of its fields, one level less deep. *)
Lemma Build_field ParseFloat values `{!MapOrder values} k h s b name f st :
  builders h !! s = Some b -> schemaType b = STRUCT -> Schema.fields_of h b !! name = Some f ->
  f_schemaStruct f = None -> Schema.Build ParseFloat values (S k) h s = inr st ->
  exists st', Schema.Build ParseFloat values k h (f_schemaBuilder f) = inr st'.
Proof.
  intros Hb Ht Hf Hs. cbn [Schema.Build]. rewrite Hb. unfold Schema.parts. rewrite Ht.
  destruct (mapM _ _) as [?|l] eqn:E; cbn; [done|]. intros _.
  eapply mapM_elem in E as (st' & Hst'); [rewrite Hs in Hst'; by exists st'|].
  rewrite sort_fields_permutation, (values_permutation _), list_elem_of_fmap.
  exists (name, f). split; [done|]. by apply elem_of_map_to_list.
Qed.

(** A struct builder that is given to itself as a field can never be built:
    the copy that Field stores shares the field map, so the schema contains
    itself, and Build returns a schema for no recursion depth at all. *)
Theorem self_field_never_builds (ParseFloat : string -> option Z) values h s b name i p h' :
  MapOrder values -> builders h !! s = Some b -> schemaType b = STRUCT ->
  Schema.Field name i s s h = Ret p h' -> forall k st, Schema.Build ParseFloat values k h' s <> inr st.
Proof.
  intros HV Hb Ht (m & h1 & Hm & (c & h2 & Hc & H3)%bind_ret_inv)%bind_ret_inv.
  assert (Hs1 : exists b1, builders h1 !! s = Some b1 /\ schemaType b1 = STRUCT /\ fields b1 = Some m).
  { apply bind_ret_inv in Hm as (b0 & h0 & [Hb0 ->]%deref_ret & Hm). rewrite Hb in Hb0. injection Hb0 as <-.
    destruct (fields b) eqn:Ef; injection Hm as <- <-; [by exists b|].
    eexists. split; [apply lookup_insert_eq|done]. }
  destruct Hs1 as (b1 & Hb1 & Ht1 & Hf1). apply field_copy_ret in Hc as (b1' & Hb1' & [= <- <-]).
  rewrite Hb1 in Hb1'. injection Hb1' as <-.
  apply bind_ret_inv in H3 as ([] & h3 & Hi & [= _ ->]). unfold fields_insert in Hi. cbn in Hi.
  destruct (fieldMaps h1 !! m) as [fs|] eqn:Efs; [|done]. injection Hi as <-.
  set (h' := mkHeap _ _ _ _).
  assert (Hfield : forall x, fields x = Some m -> Schema.fields_of h' x !! name = Some (mkField name i None (next h1))).
  { intros x Hx. unfold Schema.fields_of. rewrite Hx. cbn. rewrite lookup_insert_eq. cbn. apply lookup_insert_eq. }
  assert (Hcopy : builders h' !! next h1 = Some (field_copy name i b1)) by apply lookup_insert_eq.
  assert (Hnever : forall k st, Schema.Build ParseFloat values k h' (next h1) <> inr st).
  { induction k as [|k IH]; intros st Hst; [done|].
    destruct (Build_field ParseFloat values k h' (next h1) _ name (mkField name i None (next h1)) st Hcopy)
      as (st' & Hst'); [done|by apply Hfield|done|done|]. by eapply IH. }
  intros [|k] st Hst; [done|].
  destruct (decide (s = next h1)) as [->|Hne]; [by eapply Hnever|].
  destruct (Build_field ParseFloat values k h' s b1 name (mkField name i None (next h1)) st)
    as (st' & Hst'); [cbn; by rewrite lookup_insert_ne|done|by apply Hfield|done|done|]. by eapply Hnever.
Qed.

Lemma self_field_never_builds_witness :
  forall k st, Schema.Build (fun _ => None) some_order k (run_heap (Schema.Field "a" 0 1 1) two_builders) 1 <> inr st.
Proof.
  apply (self_field_never_builds (fun _ => None) some_order two_builders 1
    (mkBuilder "" "" STRUCT 0 false None None (-1) None None None None) "a" 0 1); [exact _|reflexivity..].
Defined.

(** ** The order of the fields *)

Definition index_le (f g : fieldImpl) : Prop := f_index f <= f_index g.

#[export] Instance index_le_trans : Transitive index_le.
Proof. unfold index_le. intros f g k. lia. Qed.

Lemma insert_field_sorted f l : Sorted index_le l -> Sorted index_le (Schema.insert_field f l).
Proof.
  induction 1 as [|g l Hl IH Hg]; cbn; [by repeat constructor|].
  destruct (Z.leb_spec (f_index f) (f_index g)); [by repeat constructor|].
  constructor; [done|]. destruct l as [|k l]; cbn; [constructor; unfold index_le; lia|].
  destruct (Z.leb_spec (f_index f) (f_index k)); constructor; [unfold index_le; lia|by inversion Hg].
Qed.

Lemma sort_fields_sorted l : Sorted index_le (Schema.sort_fields l).
Proof. induction l as [|f l IH]; cbn; [constructor|by apply insert_field_sorted]. Qed.

(** No two fields of a map have the same index. *)
Definition distinct_indexes (m : gmap string fieldImpl) : Prop :=
  forall n1 n2 f1 f2, m !! n1 = Some f1 -> m !! n2 = Some f2 -> f_index f1 = f_index f2 -> f1 = f2.

(** Then the sorted fields are the only list of them that is in order. *)
Lemma sort_fields_unique values `{!MapOrder values} m l :
  distinct_indexes m -> l ≡ₚ (map_to_list m).*2 -> Sorted index_le l -> Schema.sort_fields (values m) = l.
Proof.
  intros Hd Hl Hs. apply (Sorted_unique_strong index_le); [|apply sort_fields_sorted|done|].
  - intros f1 f2. rewrite sort_fields_permutation. intros (n1 & H1)%values_in; [|done].
    rewrite Hl, list_elem_of_fmap. intros ([n2 g] & -> & H2%elem_of_map_to_list). unfold index_le. cbn. intros ??.
    apply (Hd n1 n2); [done|done|lia].
  - by rewrite sort_fields_permutation, (values_permutation m), Hl.
Qed.

Lemma distinct_singleton name f : distinct_indexes {[ name := f ]}.
Proof. by intros n1 n2 f1 f2 [_ <-]%lookup_singleton_Some [_ <-]%lookup_singleton_Some _. Qed.

(** The schema does not depend on the order in which Go happens to iterate
    over the fields of a struct, as long as no two fields of one struct have the
    same index: any two orders give the same result, at every depth. *)
Theorem Build_order_independent (ParseFloat : string -> option Z) values1 values2 h :
  MapOrder values1 -> MapOrder values2 ->
  (forall m fs, fieldMaps h !! m = Some fs -> distinct_indexes fs) ->
  forall k s, Schema.Build ParseFloat values1 k h s = Schema.Build ParseFloat values2 k h s.
Proof.
  intros H1 H2 Hd. induction k as [|k IH]; intros s; [done|]. cbn. destruct (builders h !! s) as [b|]; [|done].
  assert (Hfs : distinct_indexes (Schema.fields_of h b)).
  { unfold Schema.fields_of. destruct (fields b) as [m|]; [|intros ???? []%lookup_empty_Some].
    destruct (fieldMaps h !! m) as [fs|] eqn:Efs; cbn; [by eapply Hd|intros ???? []%lookup_empty_Some]. }
  f_equal. unfold Schema.parts.
  rewrite (sort_fields_unique values1 (Schema.fields_of h b) (Schema.sort_fields (values2 (Schema.fields_of h b))));
    [|done|by rewrite sort_fields_permutation, (values_permutation _)|apply sort_fields_sorted].
  destruct (schemaType b); try done.
  - by destruct (valueSchemaBuilder b); rewrite ?IH.
  - by destruct (keySchemaBuilder b), (valueSchemaBuilder b); rewrite ?IH.
  - f_equal. apply mapM_same. intros f. by destruct (f_schemaStruct f).
Qed.

Lemma Build_order_independent_witness :
  Schema.Build (fun _ => None) some_order 5 one_field 1
  = Schema.Build (fun _ => None) (fun m => rev (some_order m)) 5 one_field 1.
Proof.
  apply (Build_order_independent (fun _ => None) some_order (fun m => rev (some_order m)) one_field); [exact _| |].
  - intros m. rewrite <- Permutation_rev. apply some_order_lawful.
  - intros m fs Hm. change (fieldMaps one_field) with ({[ 3 := {[ "a"%string := mkField "a" 0 None 4 ]} ]} :
      gmap Z (gmap string fieldImpl)) in Hm.
    apply lookup_singleton_Some in Hm as [_ <-]. apply distinct_singleton.
Defined.

(** ** The schema of a table *)

(** Addresses are given out once. *)
Record allocated (h : heap) : Prop := mkAllocated {
  allocated_builder s b : builders h !! s = Some b -> s < next h;
  allocated_map s b m : builders h !! s = Some b -> fields b = Some m -> m < next h;
}.

(** Code that gives a builder of its own and leaves the existing builders and
    field maps as they are. *)
Definition leaves (h h' : heap) : Prop :=
  allocated h' /\ next h <= next h' /\ (forall q, q < next h -> builders h' !! q = builders h !! q) /\
  (forall m, m < next h -> fieldMaps h' !! m = fieldMaps h !! m).

Definition makes_fresh (g : G heap Z) : Prop :=
  forall h p h', allocated h -> g h = Ret p h' -> leaves h h' /\ next h <= p.

Lemma leaves_trans h1 h2 h3 : leaves h1 h2 -> leaves h2 h3 -> leaves h1 h3.
Proof.
  intros (Ha & Hn & Hb & Hf) (Ha' & Hn' & Hb' & Hf'). split; [done|]. split; [lia|]. split.
  - intros q Hq. rewrite Hb' by lia. by apply Hb.
  - intros m Hm. rewrite Hf' by lia. by apply Hf.
Qed.

(** A change of a builder that is not one of the existing ones. *)
Lemma leaves_update h h1 p b :
  leaves h h1 -> next h <= p -> p < next h1 -> (forall m, fields b = Some m -> m < next h1) ->
  leaves h (mkHeap (<[ p := b ]> (builders h1)) (fieldMaps h1) (parameterMaps h1) (next h1)).
Proof.
  intros ([Hb Hm] & Hn & Hq & Hf) Hp Hp1 Hbm. split; [split; cbn|split; [done|split; [|done] ] ].
  - intros s x [ [<- _]|[_ Hx] ]%lookup_insert_Some; eauto.
  - intros s x m [ [<- <-]|[_ Hx] ]%lookup_insert_Some; eauto.
  - intros q Hq'. cbn. rewrite lookup_insert_ne by lia. by apply Hq.
Qed.

Lemma leaves_next h h1 ps n :
  leaves h h1 -> next h1 <= n -> leaves h (mkHeap (builders h1) (fieldMaps h1) ps n).
Proof.
  intros ([Hb Hm] & Hn & Hq & Hf) Hn'. split; [split; cbn|split; [cbn; lia|done] ].
  - intros s x Hx%Hb. lia.
  - intros s x m Hx Hxm. pose proof (Hm _ _ _ Hx Hxm). lia.
Qed.

Lemma leaves_refl h : allocated h -> leaves h h.
Proof. done. Qed.

Lemma fresh_attribute g f : makes_fresh g -> attribute f -> makes_fresh (g ⟫ setter f).
Proof.
  intros Hg Hf h p h' Ha (p1 & h1 & H1 & (b & Hb & -> & ->)%setter_ret)%bind_ret_inv.
  destruct (Hg h p1 h1 Ha H1) as [Hl Hp]. split; [|done].
  destruct (proj1 Hl) as [Hlt Hm]. apply leaves_update; [done|done|by eapply Hlt|].
  intros m Hfm. eapply Hm; [exact Hb|]. by destruct Hf.
Qed.

Lemma leaves_parameter key v h h1 p r h' :
  leaves h h1 -> next h <= p -> Schema.SetParameter key v p h1 = Ret r h' -> leaves h h'.
Proof.
  intros Hl Hp (b & h2 & [Hb ->]%deref_ret & (m & h3 & Hm & H)%bind_ret_inv)%bind_ret_inv.
  apply bind_ret_inv in H as ([] & h4 & Hi & [= _ ->]). unfold parameters_insert in Hi.
  destruct (parameterMaps h3 !! m); [|done]. injection Hi as <-.
  apply leaves_next; [|lia]. destruct (parameters b); injection Hm as <- <-; [done|].
  destruct (proj1 Hl) as [Hlt Hbm]. pose proof (Hlt _ _ Hb).
  apply (leaves_update h (mkHeap _ _ _ (next h1 + 1))); [apply leaves_next; [done|lia]|done|cbn; lia|].
  intros m Hf. pose proof (Hbm _ _ _ Hb Hf). cbn. lia.
Qed.

Lemma leaves_clone h h1 s p h' :
  leaves h h1 -> Schema.Clone s h1 = Ret p h' -> leaves h h' /\ next h <= p.
Proof.
  intros Hl (b & Hb & [= <- <-])%Clone_ret. destruct (proj1 Hl) as [Hlt Hm].
  pose proof (proj1 (proj2 Hl)). split; [|done].
  apply (leaves_update h (mkHeap _ _ _ (next h1 + 1))); [apply leaves_next; [done|lia]|done|cbn; lia|].
  intros m Hf. pose proof (Hm _ _ _ Hb Hf). cbn. lia.
Qed.

Section TableSchema.
Context (SchemaBuilder : PgType -> G heap Z) (fresh : forall t, makes_fresh (SchemaBuilder t)).

Lemma column_fresh c : makes_fresh (Schema.Column_SchemaBuilder SchemaBuilder c).
Proof.
  intros h p h' Ha (s & h1 & H1 & (x & h2 & H2 & H3)%bind_ret_inv)%bind_ret_inv.
  assert (Hs : leaves h h1 /\ next h <= s).
  { revert H1. apply fresh_attribute; [|constructor|done]. apply fresh_attribute; [|constructor].
    apply fresh_attribute; [apply fresh|constructor]. }
  destruct Hs as [Hl Hs]. eapply leaves_clone; [|exact H3].
  destruct (-1 <? Schema.valueLength c); [by eapply leaves_parameter|]. by injection H2 as _ <-.
Qed.

(** The names and indexes of the fields of a builder. *)
Definition name_index (f : fieldImpl) : string * Z := (f_name f, f_index f).
Definition view (h : heap) (b : schemaBuilderImpl) : gmap string (string * Z) := name_index <$> Schema.fields_of h b.

Lemma view_of h b m : fields b = Some m -> view h b = name_index <$> default ∅ (fieldMaps h !! m).
Proof. intros Hm. unfold view, Schema.fields_of. by rewrite Hm. Qed.

(** Field adds one entry and changes nothing else of the builder. *)
Lemma Field_view name i c s h b p h' :
  allocated h -> builders h !! s = Some b -> Schema.Field name i c s h = Ret p h' ->
  allocated h' /\ exists b', builders h' !! s = Some b' /\ schemaType b' = schemaType b /\
    view h' b' = <[ name := (name, i) ]> (view h b).
Proof.
  intros Ha Hb (m & h1 & Hm & (c' & h2 & Hc & H3)%bind_ret_inv)%bind_ret_inv.
  assert (H1 : allocated h1 /\ exists b1, builders h1 !! s = Some b1 /\ schemaType b1 = schemaType b /\
    fields b1 = Some m /\ view h1 b1 = view h b).
  { apply bind_ret_inv in Hm as (b0 & h0 & [Hb0 ->]%deref_ret & Hm). rewrite Hb in Hb0. injection Hb0 as <-.
    destruct (fields b) as [m0|] eqn:Ef; injection Hm as <- <-; [by split; [|exists b]|].
    destruct Ha as [Hlt Hfm]. pose proof (Hlt _ _ Hb). split; [split; cbn|].
    - intros q x [ [<- _]|[_ Hx%Hlt] ]%lookup_insert_Some; lia.
    - intros q x m [ [<- <-]|[_ Hx] ]%lookup_insert_Some Hxm; [injection Hxm as <-; lia|].
      pose proof (Hfm _ _ _ Hx Hxm). lia.
    - eexists. split; [apply lookup_insert_eq|]. split; [done|]. split; [done|].
      erewrite view_of by done. cbn. rewrite lookup_insert_eq. cbn. rewrite fmap_empty.
      unfold view, Schema.fields_of. by rewrite Ef, fmap_empty. }
  destruct H1 as (Ha1 & b1 & Hb1 & Ht1 & Hf1 & Hv1).
  apply field_copy_ret in Hc as (bc & Hbc & [= <- <-]).
  apply bind_ret_inv in H3 as ([] & h3 & Hi & [= _ ->]). unfold fields_insert in Hi. cbn in Hi.
  destruct (fieldMaps h1 !! m) as [fs|] eqn:Efs; [|done]. injection Hi as <-.
  destruct Ha1 as [Hlt Hfm]. pose proof (Hlt _ _ Hb1). split; [split; cbn|].
  - intros q x [ [<- _]|[_ Hx%Hlt] ]%lookup_insert_Some; lia.
  - intros q x m' [ [<- <-]|[_ Hx] ]%lookup_insert_Some Hxm; [pose proof (Hfm _ _ _ Hbc Hxm)|pose proof (Hfm _ _ _ Hx Hxm)]; lia.
  - exists b1. cbn. rewrite lookup_insert_ne by lia. split; [done|]. split; [congruence|].
    erewrite view_of by done. cbn. rewrite lookup_insert_eq. cbn. rewrite fmap_insert. unfold name_index at 1. cbn.
    f_equal. rewrite <- Hv1, (view_of h1 b1 m), Efs by done. done.
Qed.

Fixpoint add_columns (i : Z) (columns : list Col.Column) (v : gmap string (string * Z)) : gmap string (string * Z) :=
  match columns with
  | [] => v
  | c :: cs => add_columns (i + 1) cs (<[ Col.name c := (Col.name c, i) ]> v)
  end.

Fixpoint numbered (i : Z) (columns : list Col.Column) : list (string * Z) :=
  match columns with [] => [] | c :: cs => (Col.name c, i) :: numbered (i + 1) cs end.

Lemma column_fields_view columns s i h b h' :
  allocated h -> builders h !! s = Some b ->
  Schema.column_fields SchemaBuilder s i columns h = Ret tt h' ->
  exists b', builders h' !! s = Some b' /\ schemaType b' = schemaType b /\
    view h' b' = add_columns i columns (view h b).
Proof.
  revert i h b. induction columns as [|c cs IH]; intros i h b Ha Hb.
  { intros [= <-]. by exists b. }
  intros (p & h1 & H1 & (q & h2 & H2 & H3)%bind_ret_inv)%bind_ret_inv.
  destruct (column_fresh c h p h1 Ha H1) as [(Ha1 & Hn & Hq & Hf) _].
  assert (Hb1 : builders h1 !! s = Some b) by (rewrite Hq; [done|]; by eapply allocated_builder).
  assert (Hv : view h1 b = view h b).
  { unfold view, Schema.fields_of. destruct (fields b) as [m|] eqn:Em; [|done].
    rewrite Hf; [done|]. by eapply allocated_map. }
  destruct (Field_view _ _ _ _ _ b _ _ Ha1 Hb1 H2) as (Ha2 & b2 & Hb2 & Ht2 & Hv2).
  destruct (IH (i + 1) h2 b2 Ha2 Hb2 H3) as (b' & Hb' & Ht' & Hv').
  exists b'. split; [done|]. split; [congruence|]. cbn. by rewrite Hv', Hv2, Hv.
Qed.

Lemma add_columns_list i columns v :
  NoDup (Col.name <$> columns) -> (forall c, c ∈ columns -> v !! Col.name c = None) ->
  (map_to_list (add_columns i columns v)).*2 ≡ₚ (map_to_list v).*2 ++ numbered i columns.
Proof.
  revert i v. induction columns as [|c cs IH]; intros i v Hnd Hv; cbn; [by rewrite app_nil_r|].
  apply NoDup_cons in Hnd as [Hc Hnd]. rewrite IH; [|done|].
  - rewrite map_to_list_insert by (apply Hv; set_solver). cbn. by rewrite <- Permutation_middle.
  - intros d Hd. rewrite lookup_insert_ne; [apply Hv; set_solver|].
    intros Heq. apply Hc. rewrite Heq. by apply list_elem_of_fmap_2.
Qed.

Definition second_le (a b : string * Z) : Prop := snd a <= snd b.

Lemma numbered_bound i columns p : p ∈ numbered i columns -> i <= snd p.
Proof.
  revert i. induction columns as [|c cs IH]; intros i; cbn; [set_solver|].
  intros [->|Hp%IH]%elem_of_cons; cbn; lia.
Qed.

Lemma numbered_sorted i columns : StronglySorted second_le (numbered i columns).
Proof.
  revert i. induction columns as [|c cs IH]; intros i; constructor; [apply IH|].
  apply Forall_forall. intros p Hp%numbered_bound. unfold second_le. cbn. lia.
Qed.

Lemma numbered_index i columns p q : p ∈ numbered i columns -> q ∈ numbered i columns -> snd p = snd q -> p = q.
Proof.
  revert i. induction columns as [|c cs IH]; intros i; cbn; [set_solver|].
  intros [->|Hp]%elem_of_cons [->|Hq]%elem_of_cons; cbn; intros E; eauto.
  - apply numbered_bound in Hq. lia.
  - apply numbered_bound in Hp. lia.
Qed.

Lemma numbered_names i columns : fst <$> numbered i columns = Col.name <$> columns.
Proof. revert i. induction columns as [|c cs IH]; intros i; cbn; [done|]. by rewrite IH. Qed.

Lemma sorted_pairs l : Sorted index_le l -> StronglySorted second_le (name_index <$> l).
Proof.
  intros Hl%Sorted_StronglySorted; [|apply _]. induction Hl as [|f l Hl IH Hf]; cbn; constructor; [done|].
  apply Forall_fmap. eapply Forall_impl; [exact Hf|done].
Qed.

(** The sorted fields of a builder with the columns of a table as its view. *)
Lemma sorted_fields_are_columns values `{!MapOrder values} h b columns :
  NoDup (Col.name <$> columns) -> view h b = add_columns 0 columns ∅ ->
  name_index <$> Schema.sort_fields (values (Schema.fields_of h b)) = numbered 0 columns.
Proof.
  intros Hnd Hv.
  assert (Hp : name_index <$> Schema.sort_fields (values (Schema.fields_of h b)) ≡ₚ numbered 0 columns).
  { rewrite sort_fields_permutation, (values_permutation _).
    assert (Hl := add_columns_list 0 columns ∅ Hnd). rewrite map_to_list_empty in Hl. rewrite <- Hl by (intros; apply lookup_empty).
    rewrite <- Hv. unfold view. rewrite map_to_list_fmap, <- !list_fmap_compose. done. }
  apply (StronglySorted_unique_strong second_le); [|apply sorted_pairs, sort_fields_sorted|apply numbered_sorted|done].
  intros p q. rewrite Hp. unfold second_le. intros Hp' Hq ??. apply (numbered_index 0 columns); [done|done|lia].
Qed.

(** The schema of a table lists its columns: the builder of a table is a
    struct whose fields, in the order in which Build emits them, are the columns
    of the table in their order, each with its position as index, for every
    order in which the map of the fields is iterated. *)
Theorem table_schema_lists_columns values t h s h' :
  MapOrder values -> allocated h -> NoDup (Col.name <$> BaseTable.columns t) ->
  Schema.table_SchemaBuilder SchemaBuilder t h = Ret s h' ->
  exists b, builders h' !! s = Some b /\ schemaType b = STRUCT /\
    name_index <$> Schema.sort_fields (values (Schema.fields_of h' b)) = numbered 0 (BaseTable.columns t).
Proof.
  intros HV Ha Hnd (p & h1 & (p0 & h0 & [= <- <-] & (b0 & Hb0 & -> & ->)%setter_ret)%bind_ret_inv & H2)%bind_ret_inv.
  apply bind_ret_inv in H2 as ([] & h2 & H2 & [= <- <-]). cbn in Hb0. rewrite lookup_insert_eq in Hb0.
  injection Hb0 as <-. cbn in H2.
  eapply column_fields_view in H2 as (b & Hb & Ht & Hv); [| |apply lookup_insert_eq].
  - exists b. split; [done|]. split; [done|]. eapply sorted_fields_are_columns; [done|done|].
    rewrite Hv. unfold view, Schema.fields_of. cbn. by rewrite fmap_empty.
  - destruct Ha as [Hlt Hm]. split; cbn; rewrite insert_insert_eq.
    + intros q x [ [<- _]|[_ Hx%Hlt] ]%lookup_insert_Some; lia.
    + intros q x m [ [<- <-]|[_ Hx] ]%lookup_insert_Some Hxm; [done|]. pose proof (Hm _ _ _ Hx Hxm). lia.
Qed.
End TableSchema.

Lemma new_builder_fresh t : makes_fresh (Schema.NewSchemaBuilder t).
Proof.
  intros h p h' Ha [= <- <-]. split; [|lia]. destruct Ha as [Hlt Hm].
  apply (leaves_update h (mkHeap _ _ _ (next h + 1))); [apply leaves_next; [done|lia]|lia|cbn; lia|done].
Qed.

Definition sample_type : PgType := mkPgType "pg_catalog" "text" "b" 25 "S" false false 1009 0 0 (-1) [] "," "string".
Definition sample_column (name : string) : Col.Column := Col.NewColumn name 25 (-1) sample_type true None.
Definition sample_table : BaseTable.baseTable :=
  BaseTable.mkBaseTable (NewSystemEntity "public" "t") [] "d" [sample_column "b"; sample_column "a"].

Lemma empty_allocated : allocated empty_heap.
Proof. split; cbn; [by intros ?? ?%lookup_empty_Some|by intros ??? ?%lookup_empty_Some]. Qed.

Lemma table_schema_lists_columns_witness :
  exists h' b, Schema.table_SchemaBuilder (fun _ => Schema.String) sample_table empty_heap = Ret 1 h' /\
    builders h' !! 1 = Some b /\
    name_index <$> Schema.sort_fields (some_order (Schema.fields_of h' b)) = [("b", 0); ("a", 1)]%string.
Proof.
  destruct (Schema.table_SchemaBuilder (fun _ => Schema.String) sample_table empty_heap) as [s h'|e h'|c] eqn:E.
  - destruct (table_schema_lists_columns (fun _ => Schema.String) (fun _ => new_builder_fresh STRING)
      some_order sample_table empty_heap s h') as (b & Hb & _ & Hl);
      [exact _|apply empty_allocated|by apply (bool_decide_unpack _); vm_compute|exact E|].
    assert (s = 1) as -> by (vm_compute in E; congruence). eauto.
  - vm_compute in E. discriminate E.
  - vm_compute in E. discriminate E.
Defined.

(** ** What the schemas say *)

(** A copy has the index 0, and that is emitted: the schema of a copy has an
    index that the schema of the original does not have. *)
Lemma clone_gets_index ParseFloat values k h s b p h' :
  builders h !! s = Some b -> index b = -1 -> parameters b = None -> schemaType b = STRING ->
  Schema.Clone s h = Ret p h' ->
  (exists st, Schema.Build ParseFloat values (S k) h s = inr st /\ st !! "index"%string = None) /\
  (exists st, Schema.Build ParseFloat values (S k) h' p = inr st /\ st !! "index"%string = Some (AInt 0)).
Proof.
  intros Hb Hi Hp Ht (b' & Hb' & [= <- <-])%Clone_ret. rewrite Hb in Hb'. injection Hb' as <-.
  split; cbn; [rewrite Hb|rewrite lookup_insert_eq]; unfold Schema.parts; cbn; rewrite Ht; eexists; (split; [reflexivity|]);
    unfold Schema.attributes, Schema.type_struct; cbn; rewrite Hp, ?Hi;
    repeat case_match; rewrite ?lookup_insert_ne by done; try done; rewrite ?lookup_insert_eq, ?lookup_insert_ne by done; done.
Qed.

(** A default value is read as a truth value before it is read as a number:
    the default 0 or 1 of an integer column, and the default t or f of a text
    column, is emitted as a boolean, whatever type the schema declares. *)
Theorem numeric_default_is_boolean ParseFloat values k h s b d :
  builders h !! s = Some b -> IsPrimitive (schemaType b) = true -> parameters b = None ->
  defaultValue b = Some d -> d ∈ ["0"; "1"; "t"; "f"]%string ->
  exists st, Schema.Build ParseFloat values (S k) h s = inr st /\
    st !! "type"%string = Some (AString (type_name (schemaType b))) /\
    st !! "default"%string = Some (ABool (bool_decide (d ∈ ["1"; "t"]%string))).
Proof.
  intros Hb Ht Hp Hd Hin. cbn. rewrite Hb.
  assert (Hparts : Schema.parts values (Schema.Build ParseFloat values k h) h b = inr (Schema.type_struct b)).
  { unfold Schema.parts. by destruct (schemaType b). }
  rewrite Hparts. eexists. split; [reflexivity|]. unfold Schema.attributes, Schema.type_struct. rewrite Hp, Hd.
  assert (Hdef : Schema.default_of ParseFloat d = ABool (bool_decide (d ∈ ["1"; "t"]%string))).
  { set_unfold in Hin. destruct Hin as [->|[->|[->|[->|[] ] ] ] ]; reflexivity. }
  rewrite Hdef, lookup_insert_eq. split; [|done]. rewrite lookup_insert_ne by done.
  repeat case_match; rewrite ?lookup_insert_ne by done; apply lookup_singleton_eq.
Qed.

(** An integer column with the default 1. *)
Definition int_with_default : heap := run_heap (Schema.Int32 ⟫ Schema.DefaultValue (Some "1"%string)) empty_heap.

Lemma numeric_default_is_boolean_witness :
  exists st, Schema.Build (fun _ => None) some_order 1 int_with_default 1 = inr st /\
    st !! "type"%string = Some (AString "int32") /\ st !! "default"%string = Some (ABool true).
Proof.
  apply (numeric_default_is_boolean (fun _ => None) some_order 0 int_with_default 1
    (mkBuilder "" "" INT32 0 false (Some "1"%string) None (-1) None None None None) "1"); [reflexivity..|set_solver].
Defined.

(** The type that a builder declares for one of its fields. *)
Definition declared (h : heap) (s : Z) (name : string) : option schema_type :=
  b ← builders h !! s; f ← Schema.fields_of h b !! name; schemaType <$> builders h !! f_schemaBuilder f.

(** The type of a value in the terms of the schema; a pointer to an integer is
    an integer or null. *)
Definition carried (v : any) : option schema_type :=
  match v with
  | ABool _ => Some BOOLEAN
  | AInt _ | AUint32Ptr _ => Some INT64
  | AString _ => Some STRING
  | AStruct _ => Some STRUCT
  | _ => None
  end.

(** The source block of an event agrees with its schema on the version, the
    connector, the name, the snapshot flag, the schema, the table and the
    transaction; but the time stamp is declared as a string and carried as a
    number, the log position is declared as a number and carried as a string,
    the database is carried and not declared, and xmin is declared and never
    carried. *)
Theorem source_block_and_schema lsn_text lsn timestamp snapshot db schema table txid :
  let block := Events.Source lsn_text lsn timestamp snapshot db schema table txid in
  let h := run_heap Schema.SourceSchema empty_heap in
  (forall name, name ∈ ["version"; "connector"; "name"; "snapshot"; "schema"; "table"; "txId"]%string ->
     exists v, block !! name = Some v /\ carried v = declared h 1 name /\ is_Some (carried v)) /\
  declared h 1 "ts_ms" = Some STRING /\ block !! "ts_ms"%string = Some (AInt timestamp) /\
  declared h 1 "lsn" = Some INT64 /\ block !! "lsn"%string = Some (AString (lsn_text lsn)) /\
  declared h 1 "db" = None /\ block !! "db"%string = Some (AString db) /\
  declared h 1 "xmin" = Some INT64 /\ block !! "xmin"%string = None.
Proof.
  intros block h. split; [|repeat split; reflexivity].
  intros name Hn. set_unfold in Hn. destruct_or! Hn; subst name; eexists; (split; [reflexivity|]);
    (split; [reflexivity|]); by eexists.
Qed.
