(* ===== verification/Converters.v ===== *)
(** * Converters: from PostgreSQL values to event values

    internal/typemanager/builtin_converters.go and coretypes.go: the functions
    that turn what the pgx driver has decoded into what goes into an event, and
    the table that says for every built-in type which schema type it has and
    which converter it uses.

    A Go [any] is [dyn]: a constructor per dynamic type that the converters tell
    apart.  Floats are bit patterns, a time.Time is an instant in nanoseconds since
    the Unix epoch with the offset of its zone.  Parameters ([Formats]) are float
    arithmetic and the formatting of times, floats, JSON and network prefixes,
    and the libraries for UUIDs, numerics and geometries. *)

From Stdlib Require Import ZArith Lia.
From Stdlib Require Import Strings.Byte.
From stdpp Require Import base tactics option list numbers strings pretty gmap.
From S2P Require Import Prelude Encoding TableFilter.

Local Open Scope Z_scope.

(** ** Dynamic values *)

Record GoTime : Type := mkGoTime {
  unix_nanos : Z;
  zone_offset : Z;
}.

(** pgtype.Numeric *)
Record Numeric : Type := mkNumeric {
  n_Int : option Z;
  n_Exp : Z;
  n_NaN : bool;
  n_InfinityModifier : Z;
  n_Valid : bool;
}.

(** pgtype.Vec2 *)
Record Vec2 : Type := mkVec2 { v_X : Z; v_Y : Z }.

(** pgtype.BoundType *)
Inductive BoundType : Set := Inclusive | Exclusive | Unbounded | Empty.

#[export] Instance BoundType_eq_dec : EqDecision BoundType.
Proof. solve_decision. Defined.

(** The types of event values, as package reflect tells them apart. *)
Inductive gotype : Set :=
| TBool | TInt8 | TInt16 | TInt32 | TInt64 | TFloat32 | TFloat64 | TString | TBytes | TMap
| TSlice (t : gotype).

#[export] Instance gotype_eq_dec : EqDecision gotype.
Proof. solve_decision. Defined.

(** The [geom.T] of a geometry is a handle; [DSlice] carries its element type;
    [DOther] is a value of any type that nothing here names. *)
Inductive dyn : Type :=
| DNil
| DBool (b : bool)
| DInt (z : Z) | DUint8 (z : Z) | DInt8 (z : Z) | DInt16 (z : Z) | DInt32 (z : Z) | DInt64 (z : Z) | DUint32 (z : Z)
| DFloat32 (bits : Z) | DFloat64 (bits : Z)
| DString (s : string)
| DBytes (d : bytes)
| DMap (m : gmap string dyn)
| DSlice (elem : gotype) (l : list dyn)
| DArray16 (d : bytes)
| DTime (t : GoTime)
| DDate (t : GoTime) (valid : bool)
| DPgTime (microseconds : Z) (valid : bool)
| DTimetz (t : GoTime) (valid : bool)
| DInterval (microseconds days months : Z) (valid : bool)
| DFloat4 (bits : Z) (valid : bool)
| DFloat8 (bits : Z) (valid : bool)
| DNumeric (n : Numeric)
| DBigInt (z : Z)
| DBits (d : bytes) (len : Z) (valid : bool)
| DUUID (d : bytes) (valid : bool)
| DHardwareAddr (d : bytes)
| DPrefix (addr : bytes) (bits : Z)
| DLtree (path : string) (valid : bool)
| DHstore (m : gmap string (option string))
| DGeometry (geom : Z) (valid : bool)
| DGeography (geom : Z) (valid : bool)
| DPoint (p : Vec2) (valid : bool)
| DBox (p0 p1 : Vec2) (valid : bool)
| DLine (a b c : Z) (valid : bool)
| DLseg (p0 p1 : Vec2) (valid : bool)
| DPolygon (p : list Vec2) (valid : bool)
| DPath (p : list Vec2) (closed valid : bool)
| DCircle (p : Vec2) (r : Z) (valid : bool)
| DRange (lower upper : dyn) (lowerType upperType : BoundType) (valid : bool)
| DStringPtr (s : option string)
| DOther (tag : Z).

(** The type of an event value; None for nil and for the driver's own types. *)
Definition type_of (v : dyn) : option gotype :=
  match v with
  | DNil => None
  | DBool _ => Some TBool
  | DInt8 _ => Some TInt8 | DInt16 _ => Some TInt16 | DInt32 _ => Some TInt32 | DInt64 _ => Some TInt64
  | DFloat32 _ => Some TFloat32 | DFloat64 _ => Some TFloat64
  | DString _ => Some TString
  | DBytes _ => Some TBytes
  | DMap _ => Some TMap
  | DSlice t _ => Some (TSlice t)
  | _ => None
  end.

(** ** What is not written out *)

Inductive layout : Set := DateOnly | timestampAsTextFormat | RFC3339Nano.

Record Formats : Type := mkFormats {
  Format : layout -> GoTime -> string;
  FormatFloat : Z -> string;
  Sprintf_f : Z -> string;
  Sprintf_g : Z -> string;
  Sprintf_d : dyn -> string;
  Sprintf_v : dyn -> string;
  to_float32 : Z -> Z;
  to_float64 : Z -> Z;
  whole_hours : Z -> Z;
  months_micros : Z -> Z;
  json_Marshal : gmap string dyn -> string + string;
  FormatUUID : bytes -> string + string;
  Prefix_String : bytes -> Z -> string;
  Float64Value : Numeric -> string + Z;
  wkb_Marshal : Z -> string + bytes;
  SRID : Z -> Z;
  base64_text : bytes -> string;
  other_Convert : gotype -> dyn -> crash + dyn;
}.

(** [errIllegalValue] *)
Definition errIllegalValue : string := "illegal value for data type conversion".

(** A converter: it may panic, fail, or give a value. *)
Definition converted_value : Type := crash + (string + dyn).
Definition TypeConverter : Type := Z -> dyn -> converted_value.

Definition ok (v : dyn) : converted_value := inr (inr v).
Definition illegal : converted_value := inr (inl errIllegalValue).
Definition failed (e : string) : converted_value := inr (inl e).
Definition text (s : string) : converted_value := ok (DString s).

(** [fmt.Sprintf("%0<w>d", z)]: the width counts the sign, the zeros follow it. *)
Fixpoint zeros (n : nat) : string := match n with O => EmptyString | S n' => ("0" ++ zeros n')%string end.

Definition pad (w : nat) (z : Z) : string :=
  let digits : string := pretty (Z.to_N (Z.abs z)) in
  if z <? 0 then ("-" ++ zeros (w - 1 - String.length digits) ++ digits)%string
  else (zeros (w - String.length digits) ++ digits)%string.

Definition join (sep : string) (l : list string) : string := String.concat sep l.

Definition nanosPerSecond : Z := 1000000000.
Definition nanosPerHour : Z := 3600 * nanosPerSecond.
Definition microsPerHour : Z := 3600000000.
Definition microsPerDay : Z := microsPerHour * 24.

(** Time.Sub: the difference saturates at the 64-bit bounds. *)
Definition saturate (d : Z) : Z := Z.max (- 2 ^ 63) (Z.min (2 ^ 63 - 1) d).
Definition Sub (a b : Z) : Z := saturate (a - b).

(** OIDs that the converters look at. *)
Definition DateOID : Z := 1082.
Definition TimestampOID : Z := 1114.
Definition TimestamptzOID : Z := 1184.
Definition TsrangeOID : Z := 3908.
Definition TstzrangeOID : Z := 3910.
Definition DaterangeOID : Z := 3912.

Section Converters.
Context (F : Formats).

Definition postgis (geom : Z) : converted_value :=
  match wkb_Marshal F geom with
  | inl e => failed e
  | inr b => ok (DMap {[ "wkb" := DString (base64_text F b); "srid" := DInt (SRID F geom) ]})
  end.

Definition postgis2struct : TypeConverter := fun _ value =>
  match value with
  | DGeometry g valid | DGeography g valid => if valid : bool then postgis g else ok DNil
  | _ => illegal
  end.

Definition enum2string : TypeConverter := fun _ value =>
  match value with DString s => text s | _ => illegal end.

Definition float42float : TypeConverter := fun _ value =>
  match value with
  | DFloat4 bits _ => ok (DFloat32 bits)
  | DFloat32 bits => ok (DFloat32 bits)
  | DFloat64 bits => ok (DFloat32 (to_float32 F bits))
  | _ => illegal
  end.

Definition float82float : TypeConverter := fun _ value =>
  match value with
  | DFloat8 bits _ => ok (DFloat64 bits)
  | DFloat32 bits => ok (DFloat64 (to_float64 F bits))
  | DFloat64 bits => ok (DFloat64 bits)
  | _ => illegal
  end.

(** [int32(int64(v.Sub(unixEpoch).Hours()) / 24)] *)
Definition date2int32 : TypeConverter := fun _ value =>
  let value := match value with DDate t _ => DTime t | _ => value end in
  match value with
  | DTime t => ok (DInt32 (i32 (Z.quot (whole_hours F (Sub (unix_nanos t) 0)) 24)))
  | _ => illegal
  end.

Definition string_of_codes (l : list Z) : string := string_of (byte_of_Z <$> l).

(** [fmt.Sprintf("%c", v)] *)
Definition char2text : TypeConverter := fun _ value =>
  match value with
  | DInt32 v => text (string_of_codes (utf8 v))
  | _ => illegal
  end.

Definition utc (t : GoTime) : GoTime := mkGoTime (unix_nanos t) 0.

Definition timestamp2text : TypeConverter := fun oid value =>
  match value with
  | DTime v =>
      if oid =? DateOID then text (Format F DateOnly v)
      else if oid =? TimestampOID then text (Format F timestampAsTextFormat (utc v))
      else text (Format F RFC3339Nano (utc v))
  | _ => illegal
  end.

(** The text of a number of microseconds; products are 64 bits wide. *)
Definition micros_text (micros : Z) : string :=
  let remaining := i64 (1000 * micros) in
  let hours := Z.quot remaining nanosPerHour in
  let remaining := Z.rem remaining nanosPerHour in
  let minutes := Z.quot remaining (60 * nanosPerSecond) in
  let remaining := Z.rem remaining (60 * nanosPerSecond) in
  let seconds := Z.quot remaining nanosPerSecond in
  let remaining := Z.rem remaining nanosPerSecond in
  (pad 2 hours ++ ":" ++ pad 2 minutes ++ ":" ++ pad 2 seconds ++ "." ++ pad 6 (Z.quot remaining 1000))%string.

Definition time2text : TypeConverter := fun _ value =>
  match value with
  | DPgTime micros _ => text (micros_text micros)
  | DTimetz t _ => text (micros_text (i64 (unix_nanos t / 1000)))
  | _ => illegal
  end.

(** Time.UnixMilli *)
Definition timestamp2int64 : TypeConverter := fun _ value =>
  match value with
  | DTime v => ok (DInt64 (i64 (unix_nanos v / 1000000)))
  | _ => illegal
  end.

(** [b >> (7 - i) & 1] *)
Definition bit_char (b : byte) (i : Z) : string :=
  if Z.testbit (Z_of_byte b) (7 - i) then "1"%string else "0"%string.

Fixpoint bits_of_byte (b : byte) (n : nat) (i : Z) : string :=
  match n with O => EmptyString | S n' => (bit_char b i ++ bits_of_byte b n' (i + 1))%string end.

Fixpoint bits_text (d : bytes) (remaining : Z) : string :=
  match d with
  | [] => EmptyString
  | b :: d' =>
      let length := Z.min remaining 8 in
      (bits_of_byte b (Z.to_nat length) 0 ++ bits_text d' (i32 (remaining - length)))%string
  end.

Definition bits2string : TypeConverter := fun _ value =>
  match value with
  | DBits d len valid => if valid : bool then text (bits_text d len) else ok DNil
  | _ => illegal
  end.

Definition json2text : TypeConverter := fun _ value =>
  match value with
  | DMap v => match json_Marshal F v with inl e => failed e | inr s => text s end
  | _ => illegal
  end.

Definition uuid2text : TypeConverter := fun _ value =>
  match value with
  | DUUID d _ | DArray16 d => match FormatUUID F d with inl e => failed e | inr s => text s end
  | _ => illegal
  end.

Definition uint322int64 : TypeConverter := fun _ value =>
  match value with DUint32 v => ok (DInt64 v) | _ => illegal end.

Definition hex_char (z : Z) : byte := byte_of_Z (if z <? 10 then z + 48 else z + 87).
Definition hex_pair (b : byte) : bytes := [hex_char (Z_of_byte b / 16); hex_char (Z_of_byte b mod 16)].

(** hex.EncodeToString *)
Definition hex_EncodeToString (d : bytes) : string := string_of (concat (hex_pair <$> d)).

Definition bytes2hexstring : TypeConverter := fun _ value =>
  match value with DBytes d => text (hex_EncodeToString d) | _ => illegal end.

(** net.HardwareAddr.String: the bytes in hex, separated by colons. *)
Definition macaddr2text : TypeConverter := fun _ value =>
  match value with
  | DHardwareAddr d => text (join ":" ((fun b => string_of (hex_pair b)) <$> d))
  | _ => illegal
  end.

Definition addr2text : TypeConverter := fun _ value =>
  match value with DPrefix addr bits => text (Prefix_String F addr bits) | _ => illegal end.

Definition interval2int64 : TypeConverter := fun _ value =>
  match value with
  | DInterval micros days months _ =>
      ok (DInt64 (i64 (micros + i64 (days * microsPerDay) + months_micros F months)))
  | _ => illegal
  end.

Definition numeric2float64 : TypeConverter := fun _ value =>
  match value with
  | DNumeric n => match Float64Value F n with inl e => failed e | inr bits => ok (DFloat64 bits) end
  | _ => illegal
  end.

Definition ltree2string : TypeConverter := fun _ value =>
  match value with
  | DLtree path valid => if valid : bool then text path else ok DNil
  | _ => illegal
  end.

Definition hstore2map : TypeConverter := fun _ value =>
  match value with
  | DMap v => ok (DMap v)
  | DHstore v => ok (DMap (DStringPtr <$> v))
  | _ => illegal
  end.

Definition vector2string (v : Vec2) : string :=
  ("(" ++ FormatFloat F (v_X v) ++ "," ++ FormatFloat F (v_Y v) ++ ")")%string.

Definition box2string : TypeConverter := fun _ value =>
  match value with
  | DBox p0 p1 valid => if valid : bool then text (join "," [vector2string p0; vector2string p1]) else ok DNil
  | _ => illegal
  end.

Definition line2string : TypeConverter := fun _ value =>
  match value with
  | DLine a b c valid =>
      if valid : bool
      then text ("{" ++ FormatFloat F a ++ "," ++ FormatFloat F b ++ "," ++ FormatFloat F c ++ "}")%string
      else ok DNil
  | _ => illegal
  end.

Definition lseg2string : TypeConverter := fun _ value =>
  match value with
  | DLseg p0 p1 valid =>
      if valid : bool then text ("[" ++ vector2string p0 ++ "," ++ vector2string p1 ++ "]")%string else ok DNil
  | _ => illegal
  end.

Definition polygon2string : TypeConverter := fun _ value =>
  match value with
  | DPolygon p valid =>
      if valid : bool then text ("(" ++ join "," (vector2string <$> p) ++ ")")%string else ok DNil
  | _ => illegal
  end.

Definition path2string : TypeConverter := fun _ value =>
  match value with
  | DPath p closed valid =>
      if valid : bool
      then text ((if closed : bool then "(" else "[") ++ join "," (vector2string <$> p) ++
                 (if closed then ")" else "]"))%string
      else ok DNil
  | _ => illegal
  end.

Definition circle2string : TypeConverter := fun _ value =>
  match value with
  | DCircle p r valid =>
      if valid : bool
      then text ("<(" ++ FormatFloat F (v_X p) ++ "," ++ FormatFloat F (v_Y p) ++ ")," ++ FormatFloat F r ++ ">")%string
      else ok DNil
  | _ => illegal
  end.

Definition point2string : TypeConverter := fun _ value =>
  match value with
  | DPoint p valid => if valid : bool then text (vector2string p) else ok DNil
  | _ => illegal
  end.

(** *** Ranges *)

Definition rangeValueTransformer : Type := dyn -> crash + (string + string).

Definition range_end (t : BoundType) (v : dyn) (transformer : rangeValueTransformer) : crash + (string + string) :=
  if decide (t = Unbounded) then inr (inr EmptyString) else transformer v.

Definition range2string (value : dyn) (transformer : rangeValueTransformer) : converted_value :=
  match value with
  | DRange lower upper lowerType upperType _ =>
      let lowerBound := (if decide (lowerType = Inclusive) then "[" else "(")%string in
      let upperBound := (if decide (upperType = Inclusive) then "]" else ")")%string in
      l ← range_end lowerType lower transformer;
      match l with
      | inl e => failed e
      | inr l =>
          u ← range_end upperType upper transformer;
          match u with
          | inl e => failed e
          | inr u => text (lowerBound ++ l ++ "," ++ u ++ upperBound)%string
          end
      end
  | _ => illegal
  end.

Definition numrange2string : TypeConverter := fun _ value =>
  range2string value (fun v =>
    match v with
    | DFloat64 bits => inr (inr (Sprintf_f F bits))
    | DBigInt z => inr (inr (pretty z))
    | DNumeric n => match Float64Value F n with inl e => inr (inl e) | inr bits => inr (inr (Sprintf_g F bits)) end
    | _ => inr (inl ("not a numeric value: " ++ Sprintf_v F v)%string)
    end).

Definition intrange2string : TypeConverter := fun _ value =>
  range2string value (fun v => inr (inr (Sprintf_d F v))).

(** The text of an end of a time range; the assertion that it is a string. *)
Definition timestamprange2string : TypeConverter := fun oid value =>
  let oid := if oid =? TstzrangeOID then TimestamptzOID else if oid =? TsrangeOID then TimestampOID
             else if oid =? DaterangeOID then DateOID else oid in
  range2string value (fun v =>
    r ← timestamp2text oid v;
    match r with
    | inl e => inr (inl e)
    | inr (DString s) => inr (inr s)
    | inr _ => inl PanicTypeAssertion
    end).

(** *** Arrays *)

(** [reflect.ValueOf(element).Convert(target)]: converting nil panics. *)
Definition reflect_Convert (target : gotype) (v : dyn) : crash + dyn :=
  match v with
  | DNil => inl PanicNilDereference
  | _ => if decide (type_of v = Some target) then inr v else other_Convert F target v
  end.

Definition uint8s (d : bytes) : list dyn := (fun b => DUint8 (Z_of_byte b)) <$> d.

(** [reflect.ValueOf(value).Len()] and [Index]: slices, arrays and strings have
    both, a map has a length only. *)
Definition elements (value : dyn) : crash + list dyn :=
  match value with
  | DSlice _ l => inr l
  | DBytes d | DArray16 d | DHardwareAddr d => inr (uint8s d)
  | DString s => inr (uint8s (bytes_of s))
  | DMap m => if decide (m = ∅) then inr [] else inl PanicExplicit
  | DHstore m => if decide (m = ∅) then inr [] else inl PanicExplicit
  | _ => inl PanicExplicit
  end.

Fixpoint convert_elements (oidElement : Z) (target : gotype) (elementConverter : option TypeConverter)
    (l : list dyn) : crash + (string + list dyn) :=
  match l with
  | [] => inr (inr [])
  | v :: l' =>
      r ← match elementConverter with Some f => f oidElement v | None => ok v end;
      match r with
      | inl e => inr (inl e)
      | inr element =>
          element ← reflect_Convert target element;
          rest ← convert_elements oidElement target elementConverter l';
          match rest with inl e => inr (inl e) | inr rest => inr (inr (element :: rest)) end
      end
  end.

(** The target has to be a slice type; [[]byte] is one, with uint8 elements, but
    no event value has that element type. *)
Definition reflectiveArrayConverter (oidElement : Z) (targetType : gotype) (elementConverter : option TypeConverter) :
    crash + TypeConverter :=
  match targetType with
  | TSlice target => inr (fun _ value =>
      l ← elements value;
      r ← convert_elements oidElement target elementConverter l;
      match r with inl e => failed e | inr l' => ok (DSlice target l') end)
  | _ => inl PanicExplicit
  end.

(** [arrayConverter[[]T]]: instantiated at slice types only. *)
Definition arrayConverter (elem : gotype) (oidElement : Z) (elementConverter : TypeConverter) : TypeConverter :=
  match reflectiveArrayConverter oidElement (TSlice elem) (Some elementConverter) with
  | inr f => f
  | inl p => fun _ _ => inl p
  end.
End Converters.

(** ** Properties *)

(** What the code relies on of float arithmetic.  Duration.Hours adds the whole hours
    and the fraction of the last one, two floats: with less than 2^22 hours the sum is
    rounded by at most 2^-32, so cutting it off gives the whole hours unless the
    fraction comes within 10^-9 (3600 nanoseconds) of a full hour.  Products below
    2^53 are exact. *)
Record FloatLaws (F : Formats) : Prop := mkFloatLaws {
  hours_cut d : in_s 64 d -> Z.abs (Z.rem d nanosPerHour) <= nanosPerHour - 3600 ->
    whole_hours F d = Z.quot d nanosPerHour;
  months_exact m : Z.abs m <= 1753664 -> months_micros F m = m * 2629800000000;
}.

Section Dates.
Context (F : Formats) (L : FloatLaws F).

Lemma saturate_in d : in_s 64 (saturate d).
Proof. unfold in_s, saturate. lia. Qed.

Lemma saturate_id d : in_s 64 d -> saturate d = d.
Proof. unfold in_s, saturate. lia. Qed.

Lemma days_from_hours h : Z.abs h <= 2562048 -> in_s 32 (Z.quot h 24).
Proof.
  unfold in_s. intros. Z.to_euclidean_division_equations. lia.
Qed.

(** The days of a date that the 64-bit nanoseconds can express. *)
Lemma date_exact oid t days :
  unix_nanos t = days * 24 * nanosPerHour -> Z.abs days <= 106751 ->
  date2int32 F oid (DTime t) = ok (DInt32 days).
Proof.
  intros Ht Hd. unfold date2int32, Sub. rewrite Ht, Z.sub_0_r.
  assert (Hin : in_s 64 (days * 24 * nanosPerHour)) by (unfold in_s, nanosPerHour, nanosPerSecond; lia).
  rewrite saturate_id by done. rewrite (hours_cut F L) by (done || (rewrite Z.rem_mul by done; done)).
  rewrite !Z.quot_mul by done.
  rewrite wraps_small; [done|lia|]. unfold in_s. lia.
Qed.

(** Every other date is cut off at the last day that they can. *)
Lemma date_clamped oid t days :
  unix_nanos t = days * 24 * nanosPerHour -> 106751 < Z.abs days ->
  date2int32 F oid (DTime t) = ok (DInt32 (Z.sgn days * 106751)).
Proof.
  intros Ht Hd. unfold date2int32, Sub. rewrite Ht, Z.sub_0_r.
  destruct (Z.lt_total days 0) as [Hs|[Hs|Hs]]; [|lia|].
  - assert (saturate (days * 24 * nanosPerHour) = - 2 ^ 63) as ->
      by (unfold saturate, nanosPerHour, nanosPerSecond; lia).
    rewrite (hours_cut F L) by (vm_compute; intuition discriminate). by rewrite (Z.sgn_neg days).
  - assert (saturate (days * 24 * nanosPerHour) = 2 ^ 63 - 1) as ->
      by (unfold saturate, nanosPerHour, nanosPerSecond; lia).
    rewrite (hours_cut F L) by (vm_compute; intuition discriminate). by rewrite (Z.sgn_pos days).
Qed.

(** An interval whose total fits into 64 bits is its microseconds, with days of
    24 hours and months of 30.4375 days. *)
Lemma interval_exact oid micros days months valid :
  Z.abs months <= 1753664 -> in_s 64 (days * microsPerDay) ->
  in_s 64 (micros + days * microsPerDay + months * 2629800000000) ->
  interval2int64 F oid (DInterval micros days months valid)
  = ok (DInt64 (micros + days * microsPerDay + months * 2629800000000)).
Proof.
  intros Hm Hd Ht. unfold interval2int64.
  rewrite (months_exact F L) by done. rewrite (wraps_small 64 (days * _)) by (done || lia).
  by rewrite (wraps_small 64) by (done || lia).
Qed.

(** C24. A date column is emitted as the exact number of days since 1970-01-01
    for the 106,751 days on either side of that day, and only for these: every date
    further away (after 2262-04-11 or before 1677-09-21) is emitted as the last day of
    this span on its side, because the difference of two times saturates at 64 bits
    of nanoseconds.  Of the float arithmetic of Duration.Hours it is used that cutting
    off gives the whole hours, unless the rest comes within 3600 nanoseconds of a full
    hour. *)
Theorem date_days_bounds oid t days :
  unix_nanos t = days * 24 * nanosPerHour ->
  date2int32 F oid (DTime t) =
    ok (DInt32 (if Z.abs days <=? 106751 then days else Z.sgn days * 106751)).
Proof.
  intros Ht. destruct (Z.leb_spec (Z.abs days) 106751); [by apply date_exact|by apply date_clamped].
Qed.
End Dates.

(** Float arithmetic on whole numbers satisfies the laws. *)
Definition sample_formats : Formats :=
  mkFormats (fun _ t => pretty (unix_nanos t)) pretty pretty pretty (fun _ => "%!d"%string) (fun _ => "?"%string)
    id id (fun d => Z.quot d nanosPerHour) (fun m => m * 2629800000000)
    (fun _ => inr "{}"%string) (fun d => inr (string_of d)) (fun a _ => string_of a) (fun n => inr (default 0 (n_Int n)))
    (fun _ => inr []) id string_of (fun _ _ => inl PanicExplicit).

Lemma sample_laws : FloatLaws sample_formats.
Proof. by split. Qed.

(** 2100-01-01 is emitted as it is, 9999-12-31 as 2262-04-11. *)
Lemma date_days_bounds_witness :
  date2int32 sample_formats 1082 (DTime (mkGoTime (47482 * 24 * nanosPerHour) 0)) = ok (DInt32 47482) /\
  date2int32 sample_formats 1082 (DTime (mkGoTime (2932896 * 24 * nanosPerHour) 0)) = ok (DInt32 106751).
Proof.
  split.
  - exact (date_days_bounds sample_formats sample_laws 1082 (mkGoTime (47482 * 24 * nanosPerHour) 0) 47482 eq_refl).
  - exact (date_days_bounds sample_formats sample_laws 1082 (mkGoTime (2932896 * 24 * nanosPerHour) 0) 2932896 eq_refl).
Defined.

(** *** Bit strings *)

(** Bit [k] of a bit string, the first bit of a byte being its highest. *)
Definition bit_at (d : bytes) (k : nat) : string :=
  if Z.testbit (Z_of_byte (nth (k / 8) d x00)) (7 - Z.of_nat (k mod 8)) then "1"%string else "0"%string.

Definition append_all (l : list string) : string := foldr String.append EmptyString l.

(** The first [n] bits, one by one: what the loop over the bytes computes. *)
Definition bit_string (d : bytes) (n : nat) : string := append_all (bit_at d <$> seq 0 n).

Lemma append_assoc (a b c : string) : (a ++ b ++ c)%string = ((a ++ b) ++ c)%string.
Proof. induction a as [|x a IH]; [done|].
  change (String x (a ++ (b ++ c)) = String x ((a ++ b) ++ c))%string. by rewrite IH.
Qed.

Lemma append_all_app l1 l2 : append_all (l1 ++ l2) = (append_all l1 ++ append_all l2)%string.
Proof.
  unfold append_all. induction l1 as [|x l1 IH]; [done|]. cbn. rewrite IH. apply append_assoc.
Qed.

Lemma bits_of_byte_at b d n i : (n + i <= 8)%nat ->
  bits_of_byte b n (Z.of_nat i) = append_all (bit_at (b :: d) <$> seq i n).
Proof.
  revert i. induction n as [|n IH]; intros i Hi; [done|]. cbn [bits_of_byte seq fmap list_fmap append_all foldr].
  replace (Z.of_nat i + 1) with (Z.of_nat (S i)) by lia. rewrite IH by lia.
  unfold bit_at, bit_char. rewrite (Nat.div_small i 8), (Nat.mod_small i 8) by lia. done.
Qed.

Lemma bit_at_next b d n :
  bit_at (b :: d) <$> seq 8 n = bit_at d <$> seq 0 n.
Proof.
  change 8%nat with (8 + 0)%nat at 1. rewrite <- fmap_add_seq, <- list_fmap_compose.
  apply list_fmap_ext. intros i k _. unfold compose, bit_at.
  replace (8 + k)%nat with (k + 1 * 8)%nat by lia.
  rewrite Nat.div_add, Nat.Div0.mod_add by lia. by replace (k / 8 + 1)%nat with (S (k / 8)) by lia.
Qed.

Lemma bits_text_spec d (n : nat) : (n <= 8 * length d)%nat -> in_s 32 (Z.of_nat n) ->
  bits_text d (Z.of_nat n) = bit_string d n.
Proof.
  unfold in_s. revert n. induction d as [|b d IH]; intros n Hn Hr.
  { destruct n; [done|cbn in Hn; lia]. }
  cbn [bits_text length] in *. unfold bit_string.
  assert (Hs : seq 0 n = seq 0 (n `min` 8) ++ seq (0 + n `min` 8) (n - 8))
    by (rewrite <- seq_app; f_equal; lia).
  rewrite Hs, fmap_app, append_all_app. f_equal.
  - replace (Z.to_nat _) with (n `min` 8)%nat by lia.
    change 0 with (Z.of_nat 0). apply bits_of_byte_at. lia.
  - rewrite wraps_small by (unfold in_s; lia).
    destruct (decide (n <= 8)%nat).
    + replace (n - 8)%nat with 0%nat by lia. replace (Z.of_nat n - _) with (Z.of_nat 0) by lia.
      rewrite IH by lia. done.
    + replace (Z.of_nat n - _) with (Z.of_nat (n - 8)) by lia. rewrite IH by lia.
      unfold bit_string. replace (0 + n `min` 8)%nat with 8%nat by lia. by rewrite bit_at_next.
Qed.

(** A valid bit string is emitted as its bits, in order and one character
    each: the loop over bytes with its remaining length gives exactly the first
    Len bits of the value. *)
Theorem bits_text_is_bit_string oid d (n : nat) :
  (n <= 8 * length d)%nat -> in_s 32 (Z.of_nat n) ->
  bits2string oid (DBits d (Z.of_nat n) true) = text (bit_string d n).
Proof. intros. cbn. by rewrite bits_text_spec. Qed.

Lemma bits_text_is_bit_string_witness :
  bits2string 1562 (DBits [byte_of_Z 165; byte_of_Z 192] 10 true) = text "1010010111".
Proof.
  etransitivity; [apply (bits_text_is_bit_string 1562 [byte_of_Z 165; byte_of_Z 192] 10)|];
    [cbn; lia|vm_compute; intuition discriminate|reflexivity].
Defined.

(** *** Times of day *)

(** The text of a time of day shows its hours, minutes, seconds and microseconds. *)
Lemma time_text_digits oid h m s us valid :
  0 <= h <= 24 -> 0 <= m < 60 -> 0 <= s < 60 -> 0 <= us < 1000000 ->
  time2text oid (DPgTime (((h * 60 + m) * 60 + s) * 1000000 + us) valid)
  = text (pad 2 h ++ ":" ++ pad 2 m ++ ":" ++ pad 2 s ++ "." ++ pad 6 us)%string.
Proof.
  intros. unfold time2text, micros_text. set (t := _ + us).
  assert (Ht : in_s 64 (1000 * t)) by (unfold in_s, t; lia).
  rewrite (wraps_small 64) by (done || lia). unfold nanosPerHour, nanosPerSecond.
  assert (E1 : Z.quot (1000 * t) (3600 * 1000000000) = h)
    by (rewrite Z.quot_div_nonneg by (unfold t; lia); symmetry;
        apply (Z.div_unique _ _ _ (((m * 60 + s) * 1000000 + us) * 1000)); unfold t; lia).
  assert (E2 : Z.rem (1000 * t) (3600 * 1000000000) = ((m * 60 + s) * 1000000 + us) * 1000)
    by (rewrite Z.rem_mod_nonneg by (unfold t; lia); symmetry; apply (Z.mod_unique _ _ h); unfold t; lia).
  rewrite E1, E2.
  assert (E3 : Z.quot (((m * 60 + s) * 1000000 + us) * 1000) (60 * 1000000000) = m)
    by (rewrite Z.quot_div_nonneg by lia; symmetry;
        apply (Z.div_unique _ _ _ ((s * 1000000 + us) * 1000)); lia).
  assert (E4 : Z.rem (((m * 60 + s) * 1000000 + us) * 1000) (60 * 1000000000) = (s * 1000000 + us) * 1000)
    by (rewrite Z.rem_mod_nonneg by lia; symmetry; apply (Z.mod_unique _ _ m); lia).
  rewrite E3, E4.
  assert (E5 : Z.quot ((s * 1000000 + us) * 1000) 1000000000 = s)
    by (rewrite Z.quot_div_nonneg by lia; symmetry; apply (Z.div_unique _ _ _ (us * 1000)); lia).
  assert (E6 : Z.rem ((s * 1000000 + us) * 1000) 1000000000 = us * 1000)
    by (rewrite Z.rem_mod_nonneg by lia; symmetry; apply (Z.mod_unique _ _ s); lia).
  rewrite E5, E6, Z.quot_mul by lia. reflexivity.
Qed.

(** *** Ranges *)

(** A range that is empty cannot be emitted as one: pgx reads it with two
    ends of bound type Empty and nil values, and the text that is made of it is
    an error for ranges of numbers and times, and for ranges of integers the
    open range of two failed format directives. *)
Theorem empty_range_has_no_text F oid valid :
  let empty := DRange DNil DNil Empty Empty valid in
  numrange2string F oid empty = failed ("not a numeric value: " ++ Sprintf_v F DNil)%string /\
  timestamprange2string F oid empty = illegal /\
  intrange2string F oid empty = text ("(" ++ Sprintf_d F DNil ++ "," ++ Sprintf_d F DNil ++ ")")%string.
Proof. done. Qed.

(** A range with two ends shows both, with the bounds that they have; an end
    that is open shows nothing. *)
Lemma range_text lower upper lt ut valid transformer l u :
  transformer lower = inr (inr l) -> transformer upper = inr (inr u) ->
  range2string (DRange lower upper lt ut valid) transformer
  = text ((if decide (lt = Inclusive) then "[" else "(") ++ (if decide (lt = Unbounded) then "" else l) ++ "," ++
          (if decide (ut = Unbounded) then "" else u) ++ (if decide (ut = Inclusive) then "]" else ")"))%string.
Proof.
  intros Hl Hu. unfold range2string, range_end.
  destruct (decide (lt = Unbounded)); destruct (decide (ut = Unbounded)); by rewrite ?Hl, ?Hu.
Qed.

(** *** Types of the results *)

(** A converter gives nil or a value of one type. *)
Definition yields (t : gotype) (f : TypeConverter) : Prop :=
  forall oid v r, f oid v = inr (inr r) -> r = DNil \/ type_of r = Some t.

Create HintDb converters.

Ltac converter :=
  unfold yields;
  intros ? v r; destruct v; cbn; unfold text, ok, illegal, failed; intros H; repeat case_match; simplify_eq;
  first [by left | by right].

Section Types.
Context (F : Formats).

Lemma postgis_typed g r : postgis F g = inr (inr r) -> type_of r = Some TMap.
Proof. unfold postgis. case_match; intros [= <-]. done. Qed.

Lemma postgis2struct_yields : yields TMap (postgis2struct F).
Proof.
  intros oid v r H. destruct v; try discriminate H; destruct valid; [|injection H as <-; by left|
    |injection H as <-; by left]; right; by eapply postgis_typed.
Qed.
Lemma enum2string_yields : yields TString enum2string. Proof. converter. Qed.
Lemma float42float_yields : yields TFloat32 (float42float F). Proof. converter. Qed.
Lemma float82float_yields : yields TFloat64 (float82float F). Proof. converter. Qed.
Lemma date2int32_yields : yields TInt32 (date2int32 F). Proof. converter. Qed.
Lemma char2text_yields : yields TString char2text. Proof. converter. Qed.
Lemma timestamp2text_yields : yields TString (timestamp2text F). Proof. converter. Qed.
Lemma time2text_yields : yields TString time2text. Proof. converter. Qed.
Lemma timestamp2int64_yields : yields TInt64 timestamp2int64. Proof. converter. Qed.
Lemma bits2string_yields : yields TString bits2string. Proof. converter. Qed.
Lemma json2text_yields : yields TString (json2text F). Proof. converter. Qed.
Lemma uuid2text_yields : yields TString (uuid2text F). Proof. converter. Qed.
Lemma uint322int64_yields : yields TInt64 uint322int64. Proof. converter. Qed.
Lemma bytes2hexstring_yields : yields TString bytes2hexstring. Proof. converter. Qed.
Lemma macaddr2text_yields : yields TString macaddr2text. Proof. converter. Qed.
Lemma addr2text_yields : yields TString (addr2text F). Proof. converter. Qed.
Lemma interval2int64_yields : yields TInt64 (interval2int64 F). Proof. converter. Qed.
Lemma numeric2float64_yields : yields TFloat64 (numeric2float64 F). Proof. converter. Qed.
Lemma ltree2string_yields : yields TString ltree2string. Proof. converter. Qed.
Lemma hstore2map_yields : yields TMap hstore2map. Proof. converter. Qed.
Lemma box2string_yields : yields TString (box2string F). Proof. converter. Qed.
Lemma line2string_yields : yields TString (line2string F). Proof. converter. Qed.
Lemma lseg2string_yields : yields TString (lseg2string F). Proof. converter. Qed.
Lemma polygon2string_yields : yields TString (polygon2string F). Proof. converter. Qed.
Lemma path2string_yields : yields TString (path2string F). Proof. converter. Qed.
Lemma circle2string_yields : yields TString (circle2string F). Proof. converter. Qed.
Lemma point2string_yields : yields TString (point2string F). Proof. converter. Qed.

Lemma range2string_yields transformer : yields TString (fun _ v => range2string v transformer).
Proof.
  intros oid v r. destruct v; try done. unfold range2string.
  destruct (range_end lowerType _ _) as [?|[?|?] ]; cbn; try discriminate.
  destruct (range_end upperType _ _) as [?|[?|?] ]; cbn; try discriminate. intros [= <-]. by right.
Qed.

Lemma numrange2string_yields : yields TString (numrange2string F).
Proof. intros oid v r H. by eapply (range2string_yields _ oid). Qed.
Lemma intrange2string_yields : yields TString (intrange2string F).
Proof. intros oid v r H. by eapply (range2string_yields _ oid). Qed.
Lemma timestamprange2string_yields : yields TString (timestamprange2string F).
Proof. intros oid v r H. by eapply (range2string_yields _ oid). Qed.

(** An array converter gives a slice of the element type, whatever the converter
    of its elements does. *)
Lemma arrayConverter_yields elem oid f : yields (TSlice elem) (arrayConverter F elem oid f).
Proof.
  intros o v r. unfold arrayConverter, reflectiveArrayConverter.
  destruct (elements v) as [?|l]; cbn; [done|].
  destruct (convert_elements _ _ _ _ _) as [?|[?|l'] ]; cbn; try discriminate. intros [= <-]. by right.
Qed.

(** And the elements of the slice are of that type, when their conversion is
    only the identity: one element of another type panics or is converted. *)
Lemma convert_elements_typed oid elem f l l' :
  yields elem f -> convert_elements F oid elem (Some f) l = inr (inr l') ->
  Forall (fun v => type_of v = Some elem) l'.
Proof.
  intros Hf. revert l'. induction l as [|v l IH]; intros l'; cbn; [by intros [= <-]|].
  destruct (f oid v) as [?|[?|r] ] eqn:E; cbn; try discriminate.
  destruct (Hf _ _ _ E) as [->|Ht]; [done|].
  unfold reflect_Convert. rewrite Ht. destruct r; try done; rewrite decide_True by done; cbn;
    destruct (convert_elements _ _ _ _ _) as [?|[?|rest] ]; cbn; try discriminate; intros [= <-]; constructor; eauto.
Qed.

(** A NULL in an array is not carried over: it ends the conversion with an error
    when the element converter refuses nil, and with a panic when it passes nil
    on or there is none. *)
Lemma null_element_fails oid target f l :
  (forall o, f o DNil = illegal) -> convert_elements F oid target (Some f) (DNil :: l) = inr (inl errIllegalValue).
Proof. intros Hf. cbn. by rewrite Hf. Qed.

Lemma null_element_panics oid target l :
  convert_elements F oid target None (DNil :: l) = inl PanicNilDereference.
Proof. done. Qed.
End Types.

#[export] Hint Resolve postgis2struct_yields enum2string_yields float42float_yields float82float_yields
  date2int32_yields char2text_yields timestamp2text_yields time2text_yields timestamp2int64_yields
  bits2string_yields json2text_yields uuid2text_yields uint322int64_yields bytes2hexstring_yields
  macaddr2text_yields addr2text_yields interval2int64_yields numeric2float64_yields ltree2string_yields
  hstore2map_yields box2string_yields line2string_yields lseg2string_yields polygon2string_yields
  path2string_yields circle2string_yields point2string_yields numrange2string_yields intrange2string_yields
  timestamprange2string_yields arrayConverter_yields : converters.
