(* ===== verification/CoreTypes.v ===== *)
(** * CoreTypes: the built-in types

    internal/typemanager/coretypes.go: the table of the types with fixed oids, its
    form as an array, and the table of the types that are known by name.  The oids
    are those of PostgreSQL's catalog.

    A converter is a function, or one of the closures that the type manager makes
    and that look at its state; a codec is named, its decoding is the driver's. *)

From Stdlib Require Import ZArith Lia.
From stdpp Require Import base tactics option list numbers strings gmap.
From S2P Require Import Prelude Encoding Emitter SchemaBuilder Converters.

Local Open Scope Z_scope.

Module OIDs.
Definition BoolOID : Z := 16.
Definition ByteaOID : Z := 17.
Definition QCharOID : Z := 18.
Definition NameOID : Z := 19.
Definition Int8OID : Z := 20.
Definition Int2OID : Z := 21.
Definition Int4OID : Z := 23.
Definition TextOID : Z := 25.
Definition OIDOID : Z := 26.
Definition XIDOID : Z := 28.
Definition CIDOID : Z := 29.
Definition JSONOID : Z := 114.
Definition XmlOID : Z := 142.
Definition XmlArrayOID : Z := 143.
Definition JSONArrayOID : Z := 199.
Definition PointOID : Z := 600.
Definition LsegOID : Z := 601.
Definition PathOID : Z := 602.
Definition BoxOID : Z := 603.
Definition PolygonOID : Z := 604.
Definition LineOID : Z := 628.
Definition LineArrayOID : Z := 629.
Definition CIDROID : Z := 650.
Definition CIDRArrayOID : Z := 651.
Definition Float4OID : Z := 700.
Definition Float8OID : Z := 701.
Definition CircleOID : Z := 718.
Definition CircleArrayOID : Z := 719.
Definition MacAddr8OID : Z := 774.
Definition MacAddrArray8OID : Z := 775.
Definition MacaddrOID : Z := 829.
Definition InetOID : Z := 869.
Definition BoolArrayOID : Z := 1000.
Definition ByteaArrayOID : Z := 1001.
Definition QCharArrayOID : Z := 1002.
Definition NameArrayOID : Z := 1003.
Definition Int2ArrayOID : Z := 1005.
Definition Int4ArrayOID : Z := 1007.
Definition TextArrayOID : Z := 1009.
Definition XIDArrayOID : Z := 1011.
Definition CIDArrayOID : Z := 1012.
Definition BPCharArrayOID : Z := 1014.
Definition VarcharArrayOID : Z := 1015.
Definition Int8ArrayOID : Z := 1016.
Definition PointArrayOID : Z := 1017.
Definition LsegArrayOID : Z := 1018.
Definition PathArrayOID : Z := 1019.
Definition BoxArrayOID : Z := 1020.
Definition Float4ArrayOID : Z := 1021.
Definition Float8ArrayOID : Z := 1022.
Definition PolygonArrayOID : Z := 1027.
Definition OIDArrayOID : Z := 1028.
Definition MacaddrArrayOID : Z := 1040.
Definition InetArrayOID : Z := 1041.
Definition BPCharOID : Z := 1042.
Definition VarcharOID : Z := 1043.
Definition DateOID : Z := 1082.
Definition TimeOID : Z := 1083.
Definition TimestampOID : Z := 1114.
Definition TimestampArrayOID : Z := 1115.
Definition DateArrayOID : Z := 1182.
Definition TimeArrayOID : Z := 1183.
Definition TimestamptzOID : Z := 1184.
Definition TimestamptzArrayOID : Z := 1185.
Definition IntervalOID : Z := 1186.
Definition IntervalArrayOID : Z := 1187.
Definition NumericArrayOID : Z := 1231.
Definition TimeTZOID : Z := 1266.
Definition TimeTZArrayOID : Z := 1270.
Definition BitOID : Z := 1560.
Definition BitArrayOID : Z := 1561.
Definition VarbitOID : Z := 1562.
Definition VarbitArrayOID : Z := 1563.
Definition NumericOID : Z := 1700.
Definition UUIDOID : Z := 2950.
Definition UUIDArrayOID : Z := 2951.
Definition JSONBOID : Z := 3802.
Definition JSONBArrayOID : Z := 3807.
Definition Int4rangeOID : Z := 3904.
Definition Int4rangeArrayOID : Z := 3905.
Definition NumrangeOID : Z := 3906.
Definition NumrangeArrayOID : Z := 3907.
Definition TsrangeOID : Z := 3908.
Definition TsrangeArrayOID : Z := 3909.
Definition TstzrangeOID : Z := 3910.
Definition TstzrangeArrayOID : Z := 3911.
Definition DaterangeOID : Z := 3912.
Definition DaterangeArrayOID : Z := 3913.
Definition Int8rangeOID : Z := 3926.
Definition Int8rangeArrayOID : Z := 3927.
End OIDs.

(** ** Registrations (typemanager.go) *)

Inductive Codec : Type :=
| PgxCodec (tag : Z)
| MacaddrCodec | TimetzCodec | TextCodec | EnumCodec | HstoreCodec | LtreeCodec
| PostGisGeometry | PostGisGeography
| ArrayCodec (name : string) (oid : Z) (element : Codec)
| EnhancedArrayTextCodec (oid oidElem : Z) (delimiter : string) (element : Codec)
| CompositeCodec (columns : list (string * Codec)).

(** pgtype.Type *)
Record pgxType : Type := mkPgx {
  px_Name : string;
  px_OID : Z;
  px_Codec : Codec;
}.

(** The element type of an enhanced array codec. *)
Inductive array_element : Set := ElemBox | ElemGeometry | ElemGeography.

(** What a pgtypes.TypeConverter can be; None in a column is a nil function. *)
Inductive converter : Type :=
| Static (f : TypeConverter)
| LazyArray (object : Z)
| ArrayOf (oidElement : Z) (target : gotype) (element : option converter)
| CompositeOf (columns : gmap string (Z * option converter)).

(** The two kinds of factories in the tables ignore the type map, and of the type
    they use the element's oid; type factories ignore both arguments. *)
Record typeRegistration : Type := mkRegistration {
  r_schemaType : schema_type;
  r_schemaBuilder : option Z;
  r_isArray : bool;
  r_oidElement : Z;
  r_converter : option converter;
  r_codec : option Codec;
  r_converterFactory : option (Z -> converter);
  r_codecFactory : option array_element;
  r_typeFactory : option pgxType;
  r_overrideExistingCodec : bool;
}.

Section Tables.
Context (F : Formats).

Definition by_ (f : TypeConverter) : option converter := Some (Static f).
Definition array (elem : gotype) (oidElement : Z) (f : TypeConverter) : option converter :=
  Some (Static (arrayConverter F elem oidElement f)).
Definition core (schemaType : schema_type) (oidElement : Z) (c : option converter) : typeRegistration :=
  mkRegistration schemaType None false oidElement c None None None None false.

Definition coreTypeMap_1 : list (Z * typeRegistration) := [
  (OIDs.BoolOID, core BOOLEAN 0 None);
  (OIDs.BoolArrayOID, core ARRAY OIDs.BoolOID None);
  (OIDs.Int2OID, core INT16 0 None);
  (OIDs.Int2ArrayOID, core ARRAY OIDs.Int2OID None);
  (OIDs.Int4OID, core INT32 0 None);
  (OIDs.Int4ArrayOID, core ARRAY OIDs.Int4OID None);
  (OIDs.Int8OID, core INT64 0 None);
  (OIDs.Int8ArrayOID, core ARRAY OIDs.Int8OID None);
  (OIDs.Float4OID, core FLOAT32 0 (by_ (float42float F)));
  (OIDs.Float4ArrayOID, core ARRAY OIDs.Float4OID (array TFloat32 OIDs.Float4OID (float42float F)));
  (OIDs.Float8OID, core FLOAT64 0 (by_ (float82float F)));
  (OIDs.Float8ArrayOID, core ARRAY OIDs.Float8OID (array TFloat64 OIDs.Float8OID (float82float F)));
  (OIDs.BPCharOID, core STRING 0 None);
  (OIDs.BPCharArrayOID, core ARRAY OIDs.BPCharOID None);
  (OIDs.QCharOID, core STRING 0 (by_ char2text));
  (OIDs.QCharArrayOID, core ARRAY OIDs.QCharOID (array TString OIDs.QCharOID char2text));
  (OIDs.VarcharOID, core STRING 0 None);
  (OIDs.VarcharArrayOID, core ARRAY OIDs.VarcharOID None);
  (OIDs.TextOID, core STRING 0 None);
  (OIDs.TextArrayOID, core ARRAY OIDs.TextOID None);
  (OIDs.TimestampOID, core INT64 0 (by_ timestamp2int64));
  (OIDs.TimestampArrayOID, core ARRAY OIDs.TimestampOID (array TInt64 OIDs.TimestampOID timestamp2int64));
  (OIDs.TimestamptzOID, core STRING 0 (by_ (timestamp2text F)));
  (OIDs.TimestamptzArrayOID, core ARRAY OIDs.TimestamptzOID (array TString OIDs.TimestamptzOID (timestamp2text F)));
  (OIDs.IntervalOID, core INT64 0 (by_ (interval2int64 F)));
  (OIDs.IntervalArrayOID, core ARRAY OIDs.IntervalOID (array TInt64 OIDs.IntervalOID (interval2int64 F)));
  (OIDs.ByteaOID, core STRING 0 (by_ bytes2hexstring));
  (OIDs.ByteaArrayOID, core ARRAY OIDs.ByteaOID (array TString OIDs.ByteaOID bytes2hexstring));
  (OIDs.JSONOID, core STRING 0 (by_ (json2text F)));
  (OIDs.JSONArrayOID, core ARRAY OIDs.JSONOID (array TString OIDs.JSONOID (json2text F)));
  (OIDs.JSONBOID, core STRING 0 (by_ (json2text F)));
  (OIDs.JSONBArrayOID, core ARRAY OIDs.JSONBOID (array TString OIDs.JSONBOID (json2text F)));
  (OIDs.UUIDOID, core STRING 0 (by_ (uuid2text F)));
  (OIDs.UUIDArrayOID, core ARRAY OIDs.UUIDOID (array TString OIDs.UUIDOID (uuid2text F)));
  (OIDs.NameOID, core STRING 0 None);
  (OIDs.NameArrayOID, core ARRAY OIDs.NameOID None) ].

Definition coreTypeMap_2 : list (Z * typeRegistration) := [
  (OIDs.OIDOID, core INT64 0 (by_ uint322int64));
  (OIDs.OIDArrayOID, core ARRAY OIDs.OIDOID (array TInt64 OIDs.OIDOID uint322int64));
  (OIDs.XIDOID, core INT64 0 (by_ uint322int64));
  (OIDs.XIDArrayOID, core ARRAY OIDs.XIDOID (array TInt64 OIDs.XIDOID uint322int64));
  (OIDs.CIDOID, core INT64 0 (by_ uint322int64));
  (OIDs.CIDArrayOID, core ARRAY OIDs.CIDOID (array TInt64 OIDs.CIDOID uint322int64));
  (OIDs.CIDROID, core STRING 0 (by_ (addr2text F)));
  (OIDs.CIDRArrayOID, core ARRAY OIDs.CIDROID (array TString OIDs.CIDROID (addr2text F)));
  (OIDs.MacaddrOID, core STRING 0 (by_ macaddr2text));
  (OIDs.MacaddrArrayOID, core ARRAY OIDs.MacaddrOID (array TString OIDs.MacaddrOID macaddr2text));
  (OIDs.MacAddr8OID, mkRegistration STRING None false 0 (by_ macaddr2text) None None None
     (Some (mkPgx "macaddr8" OIDs.MacAddr8OID MacaddrCodec)) false);
  (OIDs.MacAddrArray8OID, core ARRAY OIDs.MacAddr8OID (array TString OIDs.MacAddr8OID macaddr2text));
  (OIDs.InetOID, core STRING 0 (by_ (addr2text F)));
  (OIDs.InetArrayOID, core ARRAY OIDs.InetOID (array TString OIDs.InetOID (addr2text F)));
  (OIDs.DateOID, core INT32 0 (by_ (date2int32 F)));
  (OIDs.DateArrayOID, core ARRAY OIDs.DateOID (array TInt32 OIDs.DateOID (date2int32 F)));
  (OIDs.TimeOID, core STRING 0 (by_ time2text));
  (OIDs.TimeArrayOID, core ARRAY OIDs.TimeOID (array TString OIDs.TimeOID time2text));
  (OIDs.NumericOID, core FLOAT64 0 (by_ (numeric2float64 F)));
  (OIDs.NumericArrayOID, core ARRAY OIDs.NumericOID (array TFloat64 OIDs.NumericOID (numeric2float64 F)));
  (OIDs.Int4rangeOID, core STRING 0 (by_ (intrange2string F)));
  (OIDs.Int4rangeArrayOID, core ARRAY OIDs.Int4rangeOID (array TString OIDs.Int4rangeOID (intrange2string F)));
  (OIDs.Int8rangeOID, core STRING 0 (by_ (intrange2string F)));
  (OIDs.Int8rangeArrayOID, core ARRAY OIDs.Int8rangeOID (array TString OIDs.Int8rangeOID (intrange2string F)));
  (OIDs.NumrangeOID, core STRING 0 (by_ (numrange2string F)));
  (OIDs.NumrangeArrayOID, core ARRAY OIDs.NumrangeOID (array TString OIDs.NumrangeOID (numrange2string F)));
  (OIDs.TsrangeOID, core STRING 0 (by_ (timestamprange2string F)));
  (OIDs.TsrangeArrayOID, core ARRAY OIDs.TsrangeOID (array TString OIDs.TsrangeOID (timestamprange2string F)));
  (OIDs.TstzrangeOID, core STRING 0 (by_ (timestamprange2string F)));
  (OIDs.TstzrangeArrayOID, core ARRAY OIDs.TstzrangeOID (array TString OIDs.TstzrangeOID (timestamprange2string F)));
  (OIDs.DaterangeOID, core STRING 0 (by_ (timestamprange2string F)));
  (OIDs.DaterangeArrayOID, core ARRAY OIDs.DaterangeOID (array TString OIDs.DaterangeOID (timestamprange2string F))) ].

Definition coreTypeMap_3 : list (Z * typeRegistration) := [
  (OIDs.BitOID, core STRING 0 (by_ bits2string));
  (OIDs.BitArrayOID, core ARRAY OIDs.BitOID (array TString OIDs.BitOID bits2string));
  (OIDs.VarbitOID, core STRING 0 (by_ bits2string));
  (OIDs.VarbitArrayOID, core ARRAY OIDs.VarbitOID (array TString OIDs.VarbitOID bits2string));
  (OIDs.TimeTZOID, mkRegistration STRING None false 0 (by_ time2text) None None None
     (Some (mkPgx "timetz" OIDs.TimeTZOID TimetzCodec)) false);
  (OIDs.TimeTZArrayOID, core ARRAY OIDs.TimeTZOID (array TString OIDs.TimeTZOID time2text));
  (OIDs.XmlOID, mkRegistration STRING None false 0 None None None None
     (Some (mkPgx "xml" OIDs.XmlOID TextCodec)) true);
  (OIDs.XmlArrayOID, mkRegistration ARRAY None false OIDs.XmlOID None None None None
     None true);
  (OIDs.PointOID, core STRING 0 (by_ (point2string F)));
  (OIDs.PointArrayOID, core ARRAY OIDs.PointOID (array TString OIDs.PointOID (point2string F)));
  (OIDs.BoxOID, core STRING 0 (by_ (box2string F)));
  (OIDs.BoxArrayOID, mkRegistration ARRAY None false OIDs.BoxOID (array TString OIDs.BoxOID (box2string F)) None None (Some ElemBox)
     None true);
  (OIDs.LineOID, core STRING 0 (by_ (line2string F)));
  (OIDs.LineArrayOID, core ARRAY OIDs.LineOID (array TString OIDs.LineOID (line2string F)));
  (OIDs.PolygonOID, core STRING 0 (by_ (polygon2string F)));
  (OIDs.PolygonArrayOID, core ARRAY OIDs.PolygonOID (array TString OIDs.PolygonOID (polygon2string F)));
  (OIDs.CircleOID, core STRING 0 (by_ (circle2string F)));
  (OIDs.CircleArrayOID, core ARRAY OIDs.CircleOID (array TString OIDs.CircleOID (circle2string F)));
  (OIDs.PathOID, core STRING 0 (by_ (path2string F)));
  (OIDs.PathArrayOID, core ARRAY OIDs.PathOID (array TString OIDs.PathArrayOID (path2string F)));
  (OIDs.LsegOID, core STRING 0 (by_ (lseg2string F)));
  (OIDs.LsegArrayOID, core ARRAY OIDs.LsegOID (array TString OIDs.LsegArrayOID (lseg2string F))) ].

Definition core_list : list (Z * typeRegistration) := coreTypeMap_1 ++ coreTypeMap_2 ++ coreTypeMap_3.
Definition coreTypeMap : gmap Z typeRegistration := list_to_map core_list.

(** [init]: the map as an array. *)
Definition bound_of (l : list (Z * typeRegistration)) : Z := foldr (fun p m => Z.max (fst p) m) 0 l + 1.
Definition array_of (l : list (Z * typeRegistration)) : list (option typeRegistration) :=
  foldr (fun p a => <[ Z.to_nat (fst p) := Some (snd p) ]> a) (replicate (Z.to_nat (bound_of l)) None) l.

Definition upperCoreOidBound : Z := bound_of core_list.
Definition coreTypes : list (option typeRegistration) := array_of core_list.

Definition coreType (oid : Z) : option typeRegistration :=
  if upperCoreOidBound <=? oid then None else mjoin (coreTypes !! Z.to_nat oid).

(** Types with an oid that differs between databases, known by their names; the
    builders are made when the program starts. *)
Definition optimizedTypes (geometry geography ltree hstore : Z) : gmap string typeRegistration :=
  list_to_map [
    ("geometry"%string, mkRegistration STRING (Some geometry) false 0 (by_ (postgis2struct F)) (Some PostGisGeometry)
       None None None false);
    ("_geometry"%string, mkRegistration ARRAY None false 0 None None
       (Some (fun oidElement => Static (arrayConverter F TMap oidElement (postgis2struct F)))) (Some ElemGeometry)
       None false);
    ("geography"%string, mkRegistration STRING (Some geography) false 0 (by_ (postgis2struct F)) (Some PostGisGeography)
       None None None false);
    ("_geography"%string, mkRegistration ARRAY None false 0 None None
       (Some (fun oidElement => Static (arrayConverter F TMap oidElement (postgis2struct F)))) (Some ElemGeography)
       None false);
    ("ltree"%string, mkRegistration STRING (Some ltree) false 0 (by_ ltree2string) (Some LtreeCodec)
       None None None false);
    ("_ltree"%string, mkRegistration ARRAY None true 0 None None None None None false);
    ("hstore"%string, mkRegistration MAP (Some hstore) false 0 (by_ hstore2map) (Some HstoreCodec)
       None None None false);
    ("_hstore"%string, mkRegistration ARRAY None true 0 None None None None None false) ].

Definition init_optimizedTypes : G heap (gmap string typeRegistration) :=
  geometry ← Schema.Geometry; geography ← Schema.Geography; ltree ← Schema.Ltree; hstore ← Schema.HStore;
  mret (optimizedTypes geometry geography ltree hstore).

(** lazy_converters.go *)
Definition schemaType2ReflectiveType (t : schema_type) : option gotype :=
  match t with
  | INT8 => Some TInt8 | INT16 => Some TInt16 | INT32 => Some TInt32 | INT64 => Some TInt64
  | FLOAT32 => Some TFloat32 | FLOAT64 => Some TFloat64 | BOOLEAN => Some TBool | STRING => Some TString
  | BYTES => Some TBytes | MAP | STRUCT => Some TMap
  | ARRAY => None
  end.

(** The Go type that the values of a registration should have: that of its schema
    type, for arrays a slice of that of the elements. *)
Definition event_type (r : typeRegistration) : option gotype :=
  match r_schemaType r with
  | ARRAY => el ← coreTypeMap !! r_oidElement r; TSlice <$> schemaType2ReflectiveType (r_schemaType el)
  | t => schemaType2ReflectiveType t
  end.
End Tables.

(** Look-ups are not unfolded into the tables. *)
#[global] Arguments coreType : simpl never.
#[global] Arguments upperCoreOidBound : simpl never.

(** ** Properties *)

Section ArrayOfMap.
Context (l : list (Z * typeRegistration)).

Lemma bound_of_above p : p ∈ l -> fst p < bound_of l.
Proof.
  unfold bound_of. induction l as [|q l' IH]; [set_solver|]. cbn.
  intros [->|Hp%IH]%elem_of_cons; lia.
Qed.

Lemma array_fold_length n l' :
  length (foldr (fun p (a : list (option typeRegistration)) => <[ Z.to_nat (fst p) := Some (snd p) ]> a)
            (replicate n None) l') = n.
Proof. induction l' as [|q l' IH]; cbn; [apply length_replicate|by rewrite length_insert]. Qed.

Lemma array_fold_lookup n l' (oid : Z) :
  Forall (fun p => 0 <= fst p) l' -> 0 <= oid -> (Z.to_nat oid < n)%nat ->
  mjoin (foldr (fun p a => <[ Z.to_nat (fst p) := Some (snd p) ]> a) (replicate n None) l' !! Z.to_nat oid)
  = (list_to_map l' : gmap Z typeRegistration) !! oid.
Proof.
  intros Hl Ho Hn. induction Hl as [|[k r] l' Hk Hl IH]; cbn.
  { rewrite lookup_empty, lookup_replicate_2 by done. done. }
  cbn in Hk. destruct (decide (k = oid)) as [->|Hne].
  - rewrite lookup_insert_eq, list_lookup_insert_eq by (by rewrite array_fold_length). done.
  - rewrite lookup_insert_ne by done. rewrite list_lookup_insert_ne by lia. apply IH.
Qed.

(** Looking up in the array is looking up in the map. *)
Lemma array_of_lookup oid :
  Forall (fun p => 0 <= fst p) l -> 0 <= oid ->
  (if bound_of l <=? oid then None else mjoin (array_of l !! Z.to_nat oid))
  = (list_to_map l : gmap Z typeRegistration) !! oid.
Proof.
  intros Hl Ho. destruct (Z.leb_spec (bound_of l) oid) as [Hge|Hlt].
  - symmetry. apply not_elem_of_list_to_map_1. rewrite list_elem_of_fmap. intros (p & -> & Hp%bound_of_above). lia.
  - unfold array_of. apply array_fold_lookup; [done|done|lia].
Qed.
End ArrayOfMap.

Section CoreProperties.
Context (F : Formats).

Lemma core_oids_nonneg : Forall (fun p => 0 <= fst p) (core_list F).
Proof. repeat constructor; done. Qed.

(** The array of core types that serves every look-up is the table of the source. *)
Lemma coreType_lookup oid : 0 <= oid -> coreType F oid = coreTypeMap F !! oid.
Proof. intros Ho. apply array_of_lookup; [apply core_oids_nonneg|done]. Qed.

(** A registration whose converter gives values of its type. *)
Definition well_typed (r : typeRegistration) : Prop :=
  forall f, r_converter r = Some (Static f) -> exists t, event_type F r = Some t /\ yields t f.

Lemma core_well_typed : Forall (fun p => well_typed (snd p)) (core_list F).
Proof.
  unfold core_list, coreTypeMap_1, coreTypeMap_2, coreTypeMap_3. cbn [app].
  repeat constructor; cbn [snd]; intros f Hf; cbn in Hf; try discriminate Hf; injection Hf as <-;
    eexists; (split; [vm_compute; reflexivity|]); auto with converters.
Qed.

(** C22. What goes into an event has the type that its schema declares: for every
    core type with a converter, whatever the converter is given, a value that it
    returns is nil or has the Go type of the registered schema type, and for an
    array type it is a slice of the Go type of the element's schema type. *)
Theorem core_converters_typed oid r f :
  0 <= oid -> coreType F oid = Some r -> r_converter r = Some (Static f) ->
  exists t, event_type F r = Some t /\ yields t f.
Proof.
  intros Ho. rewrite coreType_lookup by done. intros Hr.
  apply elem_of_list_to_map_2 in Hr. pose proof core_well_typed as Hall.
  rewrite Forall_forall in Hall. apply (Hall _ Hr).
Qed.

(** Geometries are registered as strings and converted into maps. *)
Lemma geometry_is_no_string g1 g2 g3 g4 :
  exists r, optimizedTypes F g1 g2 g3 g4 !! "geometry"%string = Some r /\
    r_schemaType r = STRING /\ r_converter r = Some (Static (postgis2struct F)) /\ yields TMap (postgis2struct F).
Proof. eexists. repeat split; auto with converters. Qed.
End CoreProperties.

(** Arrays of uuids become slices of strings. *)
Lemma core_converters_typed_witness :
  exists t, event_type sample_formats (core ARRAY 2950 (array sample_formats TString 2950 (uuid2text sample_formats))) = Some t /\
    yields t (arrayConverter sample_formats TString 2950 (uuid2text sample_formats)).
Proof.
  apply (core_converters_typed sample_formats 2951); [lia|reflexivity|reflexivity].
Defined.
