(* ===== verification/TypeManager.v ===== *)
(** * TypeManager: the types of a database

    internal/typemanager: typemanager.go, pgtype.go, compositecolumn.go,
    compositecodec.go, compositeconverter.go, lazy_converters.go, decoderplan.go,
    rowdecoder.go and typedecoder.go, with the loop of the side channel that reads
    the types and the composite columns.

    The state is the type manager with the objects that it hands out: type
    objects, which change when they are used (resolved element, columns, schema
    builder), lazy converters, and the heap of schema builders.  The caches are
    those of [CasCache], whose writes keep what is there; a cache of types can
    hold nil.  Parameters are what the database returns for its types and composite
    columns, the types that pgx registers itself, decoding by a codec, and the order
    in which a map is iterated. *)

From Stdlib Require Import ZArith Lia.
From Stdlib Require Import Strings.Byte.
From stdpp Require Import base tactics option list numbers strings pretty gmap.
From S2P Require Import Prelude Containers Encoding Entities Emitter SchemaBuilder Converters CoreTypes.

Local Open Scope Z_scope.

(** ** Data *)

(** A row of the query for types, without its schema type. *)
Record type_row : Type := mkRow {
  w_namespace : string;
  w_name : string;
  w_kind : string;
  w_oid : Z;
  w_category : string;
  w_arrayType : bool;
  w_recordType : bool;
  w_oidArray : Z;
  w_oidElement : Z;
  w_oidBase : Z;
  w_modifiers : Z;
  w_enumValues : list string;
  w_delimiter : string;
}.

Definition EnumKind : string := "e".
Definition CompositeKind : string := "c".
Definition DomainKind : string := "d".

(** compositeColumn: the type is a type object. *)
Record compositeColumn : Type := mkCompositeColumn {
  cc_name : string;
  cc_typ : Z;
  cc_modifiers : Z;
  cc_nullable : bool;
}.

Record pgType : Type := mkType {
  t_row : type_row;
  t_schemaType : schema_type;
  t_columns : option (list compositeColumn);
  t_schemaBuilder : option Z;
  t_resolvedArrayType : option Z;
  t_resolvedElementType : option Z;
  t_resolvedParentType : option Z;
}.

Record lazyArrayConverter : Type := mkLazy {
  lac_oidElement : Z;
  lac_converter : option converter;
}.

(** One decoder of a plan: the name, the oid, and the driver's type if it has one. *)
Record tupleDecoder : Type := mkTupleDecoder {
  td_name : string;
  td_dataType : Z;
  td_pgx : option pgxType;
}.

Record typeManager : Type := mkManager {
  schemas : heap;
  typeMap : gmap Z pgxType;
  coreTypeCache : gmap Z Z;
  dynamicTypeCache : option (gmap Z (option Z));
  optimizedConverterCache : option (gmap Z typeRegistration);
  dynamicConverterCache : option (gmap Z typeRegistration);
  decoderPlanCache : option (gmap Z (list tupleDecoder));
  (** the local maps of [initialize] *)
  dynamicTypes : gmap Z (option Z);
  optimizedConverters : gmap Z typeRegistration;
  dynamicConverters : gmap Z typeRegistration;
  (** objects *)
  types : gmap Z pgType;
  lazies : gmap Z lazyArrayConverter;
  next_object : Z;
}.

Abbreviation M := (G typeManager).

Definition set_schemas x m := mkManager x (typeMap m) (coreTypeCache m) (dynamicTypeCache m) (optimizedConverterCache m)
  (dynamicConverterCache m) (decoderPlanCache m) (dynamicTypes m) (optimizedConverters m) (dynamicConverters m)
  (types m) (lazies m) (next_object m).
Definition set_typeMap x m := mkManager (schemas m) x (coreTypeCache m) (dynamicTypeCache m) (optimizedConverterCache m)
  (dynamicConverterCache m) (decoderPlanCache m) (dynamicTypes m) (optimizedConverters m) (dynamicConverters m)
  (types m) (lazies m) (next_object m).
Definition set_coreTypeCache x m := mkManager (schemas m) (typeMap m) x (dynamicTypeCache m) (optimizedConverterCache m)
  (dynamicConverterCache m) (decoderPlanCache m) (dynamicTypes m) (optimizedConverters m) (dynamicConverters m)
  (types m) (lazies m) (next_object m).
Definition set_dynamicTypeCache x m := mkManager (schemas m) (typeMap m) (coreTypeCache m) x (optimizedConverterCache m)
  (dynamicConverterCache m) (decoderPlanCache m) (dynamicTypes m) (optimizedConverters m) (dynamicConverters m)
  (types m) (lazies m) (next_object m).
Definition set_optimizedConverterCache x m := mkManager (schemas m) (typeMap m) (coreTypeCache m) (dynamicTypeCache m) x
  (dynamicConverterCache m) (decoderPlanCache m) (dynamicTypes m) (optimizedConverters m) (dynamicConverters m)
  (types m) (lazies m) (next_object m).
Definition set_dynamicConverterCache x m := mkManager (schemas m) (typeMap m) (coreTypeCache m) (dynamicTypeCache m)
  (optimizedConverterCache m) x (decoderPlanCache m) (dynamicTypes m) (optimizedConverters m) (dynamicConverters m)
  (types m) (lazies m) (next_object m).
Definition set_decoderPlanCache x m := mkManager (schemas m) (typeMap m) (coreTypeCache m) (dynamicTypeCache m)
  (optimizedConverterCache m) (dynamicConverterCache m) x (dynamicTypes m) (optimizedConverters m) (dynamicConverters m)
  (types m) (lazies m) (next_object m).
Definition set_pending a b c m := mkManager (schemas m) (typeMap m) (coreTypeCache m) (dynamicTypeCache m)
  (optimizedConverterCache m) (dynamicConverterCache m) (decoderPlanCache m) a b c (types m) (lazies m) (next_object m).
Definition set_types x m := mkManager (schemas m) (typeMap m) (coreTypeCache m) (dynamicTypeCache m)
  (optimizedConverterCache m) (dynamicConverterCache m) (decoderPlanCache m) (dynamicTypes m) (optimizedConverters m)
  (dynamicConverters m) x (lazies m) (next_object m).
Definition set_lazies x m := mkManager (schemas m) (typeMap m) (coreTypeCache m) (dynamicTypeCache m)
  (optimizedConverterCache m) (dynamicConverterCache m) (decoderPlanCache m) (dynamicTypes m) (optimizedConverters m)
  (dynamicConverters m) (types m) x (next_object m).
Definition set_next x m := mkManager (schemas m) (typeMap m) (coreTypeCache m) (dynamicTypeCache m)
  (optimizedConverterCache m) (dynamicConverterCache m) (decoderPlanCache m) (dynamicTypes m) (optimizedConverters m)
  (dynamicConverters m) (types m) (lazies m) x.

(** Code over the builders. *)
Definition schema_op {A} (g : G heap A) : M A := zoom schemas set_schemas g.

Definition type_at (t : Z) : M pgType := m ← get; must PanicNilDereference (types m !! t).
Definition update_type (t : Z) (f : pgType -> pgType) : M unit :=
  modify (fun m => set_types (alter f t (types m)) m).

Definition with_t_schemaType x t := mkType (t_row t) x (t_columns t) (t_schemaBuilder t) (t_resolvedArrayType t)
  (t_resolvedElementType t) (t_resolvedParentType t).
Definition with_t_columns x t := mkType (t_row t) (t_schemaType t) x (t_schemaBuilder t) (t_resolvedArrayType t)
  (t_resolvedElementType t) (t_resolvedParentType t).
Definition with_t_schemaBuilder x t := mkType (t_row t) (t_schemaType t) (t_columns t) x (t_resolvedArrayType t)
  (t_resolvedElementType t) (t_resolvedParentType t).
Definition with_t_array x t := mkType (t_row t) (t_schemaType t) (t_columns t) (t_schemaBuilder t) x
  (t_resolvedElementType t) (t_resolvedParentType t).
Definition with_t_element x t := mkType (t_row t) (t_schemaType t) (t_columns t) (t_schemaBuilder t)
  (t_resolvedArrayType t) x (t_resolvedParentType t).
Definition with_t_parent x t := mkType (t_row t) (t_schemaType t) (t_columns t) (t_schemaBuilder t)
  (t_resolvedArrayType t) (t_resolvedElementType t) x.

(** pgType.EnumValues *)
Definition EnumValues (t : pgType) : list string := w_enumValues (t_row t).

(** ** The type manager *)

Section Manager.
Context (F : Formats).
(** What the queries return: the types, all of them or the one with an oid; and
    the columns of a composite type (name, oid, modifiers, not null). *)
Context (query_types : option Z -> string + list type_row).
Context (query_columns : Z -> string + list (string * Z * Z * bool)).
(** The table of types by name, with its builders. *)
Context (optimizedTypes : gmap string typeRegistration).
(** A bound on the nesting of types. *)
Context (depth : nat).

Definition TypeForOID (oid : Z) : M (option pgxType) := gets (fun m => typeMap m !! oid).
Definition knownInTypeMap (oid : Z) : M bool := gets (fun m => bool_decide (is_Some (typeMap m !! oid))).
(** pgtype.Map.RegisterType *)
Definition RegisterType (t : pgxType) : M unit := modify (fun m => set_typeMap (<[ px_OID t := t ]> (typeMap m)) m).

Definition getSchemaType (oid : Z) (arrayType : bool) (kind : string) : M schema_type := fun m =>
  Ret (match coreType F oid with
       | Some r => r_schemaType r
       | None =>
           match CasCache.Get oid (optimizedConverterCache m) with
           | Some r => r_schemaType r
           | None => if arrayType then ARRAY else if (kind =? EnumKind)%string then STRING else STRUCT
           end
       end) m.

(** The builders that need no other type. *)
Definition primitive_builder (t : pgType) : G heap (option Z) :=
  let some (g : G heap Z) : G heap (option Z) := s ← g; mret (Some s) in
  match t_schemaType t with
  | INT8 => some Schema.Int8 | INT16 => some Schema.Int16 | INT32 => some Schema.Int32 | INT64 => some Schema.Int64
  | FLOAT32 => some Schema.Float32 | FLOAT64 => some Schema.Float64 | BOOLEAN => some Schema.Boolean
  | STRING =>
      let oid := w_oid (t_row t) in
      if (w_kind (t_row t) =? EnumKind)%string then some (Schema.Enum (EnumValues t))
      else if (oid =? OIDs.JSONOID) || (oid =? OIDs.JSONBOID) then some Schema.Json
      else if oid =? OIDs.UUIDOID then some Schema.Uuid
      else if oid =? OIDs.XmlOID then some Schema.Xml
      else some Schema.String
  | BYTES => some Schema.Bytes
  | ARRAY | MAP | STRUCT => mret None
  end.

(** The builder that a registration brings along. *)
Definition registered_builder (oid : Z) : M (option Z) := fun m =>
  Ret (r ← CasCache.Get oid (optimizedConverterCache m); r_schemaBuilder r) m.

(** resolveSchemaBuilder of a type with a primitive schema type. *)
Definition resolve_primitive (t : pgType) : M (option Z) :=
  b ← registered_builder (w_oid (t_row t));
  match b with Some s => mret (Some s) | None => schema_op (primitive_builder t) end.

Definition newType (w : type_row) : M Z :=
  st ← getSchemaType (w_oid w) (w_arrayType w) (w_kind w);
  let t := mkType w st None None None None None in
  b ← (if IsPrimitive st then resolve_primitive t else mret None);
  m ← get;
  put (set_next (next_object m + 1) (set_types (<[ next_object m := with_t_schemaBuilder b t ]> (types m)) m)) ;;
  mret (next_object m).

(** EnhancedArrayTextCodecFactory *)
Definition EnhancedArrayTextCodecFactory (typeMap : gmap Z pgxType) (t : pgType) : option Codec :=
  pt ← typeMap !! w_oidElement (t_row t);
  Some (EnhancedArrayTextCodec (w_oid (t_row t)) (w_oidElement (t_row t)) (w_delimiter (t_row t)) (px_Codec pt)).

Definition registerTypeInTypeMap (t : pgType) (r : typeRegistration) : M unit :=
  m ← get;
  let name := w_name (t_row t) in
  let oid := w_oid (t_row t) in
  let codec := match r_codecFactory r with
               | Some _ => EnhancedArrayTextCodecFactory (typeMap m) t
               | None => r_codec r
               end in
  match r_codec r, r_codecFactory r with
  | None, None =>
      match r_typeFactory r with
      | Some pt => RegisterType pt
      | None =>
          match (if w_arrayType (t_row t) then typeMap m !! w_oidElement (t_row t) else None) with
          | Some el => RegisterType (mkPgx name oid (ArrayCodec (px_Name el) (px_OID el) (px_Codec el)))
          | None => fail ("Unknown codec for type registration with oid " ++ pretty oid)%string
          end
      end
  | _, _ =>
      match codec with
      | Some c => RegisterType (mkPgx name oid c)
      | None => fail ("No valid codec provided for type " ++ name)%string
      end
  end.

(** None is a nil function. *)
Definition resolveOptimizedTypeConverter (t : pgType) (r : typeRegistration) : M (option converter) :=
  if r_isArray r then
    m ← get;
    put (set_next (next_object m + 1)
           (set_lazies (<[ next_object m := mkLazy (w_oidElement (t_row t)) None ]> (lazies m)) m)) ;;
    mret (Some (LazyArray (next_object m)))
  else
    match r_converterFactory r with
    | Some f => mret (Some (f (w_oidElement (t_row t))))
    | None => mret (r_converter r)
    end.

(** Where registerType puts types and registrations. *)
Record setters : Type := mkSetters {
  dynamicTypeSetter : Z -> Z -> M unit;
  dynamicConverterSetter : Z -> typeRegistration -> M unit;
  optimizedConverterSetter : Z -> typeRegistration -> M unit;
}.

Definition registerType (s : setters) (t : Z) : M unit :=
  typ ← type_at t;
  let oid := w_oid (t_row typ) in
  (match coreType F oid with
   | Some _ => modify (fun m => set_coreTypeCache (<[ oid := t ]> (coreTypeCache m)) m)
   | None => mret tt
   end) ;;
  dynamicTypeSetter s oid t ;;
  (match coreType F oid with
   | Some r =>
       known ← knownInTypeMap oid;
       if negb known || r_overrideExistingCodec r then registerTypeInTypeMap typ r else mret tt
   | None => mret tt
   end) ;;
  (match optimizedTypes !! w_name (t_row typ) with
   | Some r =>
       update_type t (with_t_schemaType (r_schemaType r)) ;;
       c ← resolveOptimizedTypeConverter typ r;
       match c with
       | None => fail ("Type " ++ w_name (t_row typ) ++ " has no assigned value converter")%string
       | Some c =>
           optimizedConverterSetter s oid
             (mkRegistration (r_schemaType r) (r_schemaBuilder r) (r_isArray r) (w_oidElement (t_row typ)) (Some c)
                (r_codec r) (r_converterFactory r) (r_codecFactory r) None false) ;;
           registerTypeInTypeMap typ r
       end
   | None => mret tt
   end) ;;
  typ ← type_at t;
  (if (w_kind (t_row typ) =? EnumKind)%string then
     let r := mkRegistration (t_schemaType typ) None false 0 (Some (Static enum2string)) (Some EnumCodec)
                None None None false in
     dynamicConverterSetter s oid r ;; registerTypeInTypeMap typ r
   else mret tt) ;;
  (if bool_decide (t_schemaType typ = STRUCT) && (w_kind (t_row typ) =? CompositeKind)%string then
     dynamicConverterSetter s oid (mkRegistration (t_schemaType typ) None false 0 None None None None None false)
   else mret tt).

(** The callback of the side channel's queries: record types other than composite
    types are skipped. *)
Definition skipped (w : type_row) : bool := w_recordType w && negb (w_kind w =? CompositeKind)%string.

Fixpoint read_rows {A} (cb : A -> Z -> M A) (rows : list type_row) (a : A) : M A :=
  match rows with
  | [] => mret a
  | w :: rows' =>
      t ← newType w;
      a' ← (if skipped w then mret a else cb a t);
      read_rows cb rows' a'
  end.

(** [a] is what the callback keeps between its calls. *)
Definition ReadPgTypes {A} (oid : option Z) (cb : A -> Z -> M A) (a : A) : M A :=
  match query_types oid with
  | inl e => fail e
  | inr rows => read_rows cb rows a
  end.

Definition pending_setters : setters := mkSetters
  (fun oid t => modify (fun m => set_pending (<[ oid := Some t ]> (dynamicTypes m)) (optimizedConverters m) (dynamicConverters m) m))
  (fun oid r => modify (fun m => set_pending (dynamicTypes m) (optimizedConverters m) (<[ oid := r ]> (dynamicConverters m)) m))
  (fun oid r => modify (fun m => set_pending (dynamicTypes m) (<[ oid := r ]> (optimizedConverters m)) (dynamicConverters m) m)).

Definition cache_setters : setters := mkSetters
  (fun oid t => modify (fun m =>
     set_dynamicTypeCache (fst (CasCache.apply (CasCache.Set_ oid (Some t)) (dynamicTypeCache m))) m))
  (fun oid r => modify (fun m =>
     set_dynamicConverterCache (fst (CasCache.apply (CasCache.Set_ oid r) (dynamicConverterCache m))) m))
  (fun oid r => modify (fun m =>
     set_optimizedConverterCache (fst (CasCache.apply (CasCache.Set_ oid r) (optimizedConverterCache m))) m)).

Definition initialize : M unit :=
  modify (set_pending ∅ ∅ ∅) ;;
  ReadPgTypes None (fun _ => registerType pending_setters) tt ;;
  m ← get;
  put (set_optimizedConverterCache
         (fst (CasCache.apply (CasCache.SetAll (optimizedConverters m)) (optimizedConverterCache m)))
        (set_dynamicConverterCache
           (fst (CasCache.apply (CasCache.SetAll (dynamicConverters m)) (dynamicConverterCache m)))
          (set_dynamicTypeCache (fst (CasCache.apply (CasCache.SetAll (dynamicTypes m)) (dynamicTypeCache m))) m))).

(** NewTypeManager, with the types that pgx knows, on a heap of builders. *)
Definition empty_manager (builders : heap) (pgx : gmap Z pgxType) : typeManager :=
  mkManager builders pgx ∅ None None None None ∅ ∅ ∅ ∅ ∅ 1.

Definition NewTypeManager (builders : heap) (pgx : gmap Z pgxType) : outcome typeManager unit :=
  initialize (empty_manager builders pgx).

(** The array of core types: nil is no entry. *)
Definition core_cached (m : typeManager) (oid : Z) : option Z :=
  if oid <? upperCoreOidBound F then coreTypeCache m !! oid else None.

(** The last type that the callback was given is the result; None is nil. *)
Definition read_type (oid : Z) : M (option Z) :=
  ReadPgTypes (Some oid) (fun _ t => registerType cache_setters t ;; mret (Some t)) None.

Definition ResolveDataType (oid : Z) : M (option Z) :=
  m ← get;
  match core_cached m oid with
  | Some t => mret (Some t)
  | None =>
      match CasCache.Get oid (dynamicTypeCache m) with
      | Some v => mret v
      | None =>
          pt ← read_type oid;
          m ← get;
          match CasCache.apply (CasCache.GetOrCompute oid pt) (dynamicTypeCache m) with
          | (c, inr (Some v)) => put (set_dynamicTypeCache c m) ;; mret v
          | (c, inr None) => put (set_dynamicTypeCache c m) ;; mret None
          | (_, inl e) => fail e
          end
      end
  end.

Definition NumKnownTypes (m : typeManager) : nat := CasCache.Length (dynamicTypeCache m).

Definition findType (oid : Z) : M (option (option Z)) := fun m =>
  Ret (match core_cached m oid with
       | Some t => Some (Some t)
       | None => CasCache.Get oid (dynamicTypeCache m)
       end) m.

Definition ResolveTypeConverter (oid : Z) : M (option converter) :=
  match coreType F oid with
  | Some r => mret (r_converter r)
  | None =>
      m ← get;
      match CasCache.Get oid (optimizedConverterCache m) with
      | Some r =>
          match r_converterFactory r with
          | Some f =>
              t ← ResolveDataType oid;
              t ← must PanicNilDereference t;
              typ ← type_at t;
              mret (Some (f (w_oidElement (t_row typ))))
          | None => mret (r_converter r)
          end
      | None =>
          match CasCache.Get oid (dynamicConverterCache m) with
          | Some r => mret (r_converter r)
          | None => fail ("unsupported OID: " ++ pretty oid)%string
          end
      end
  end.

(** *** Type objects (pgtype.go) *)

(** An error of the resolution is a panic. *)
Definition resolved (oid : Z) : M (option Z) := fun m =>
  match ResolveDataType oid m with
  | Ret t m' => Ret t m'
  | Err _ _ => Crash PanicExplicit
  | Crash c => Crash c
  end.

Definition ElementType (t : Z) : M (option Z) :=
  typ ← type_at t;
  match t_resolvedElementType typ with
  | Some e => mret (Some e)
  | None =>
      e ← resolved (w_oidElement (t_row typ));
      update_type t (with_t_element e) ;; mret e
  end.

Definition ArrayType (t : Z) : M (option Z) :=
  typ ← type_at t;
  match t_resolvedArrayType typ with
  | Some e => mret (Some e)
  | None =>
      e ← resolved (w_oidArray (t_row typ));
      update_type t (with_t_array e) ;; mret e
  end.

Definition BaseType (t : Z) : M (option Z) :=
  typ ← type_at t;
  match t_resolvedParentType typ with
  | Some e => mret (Some e)
  | None =>
      e ← resolved (w_oidBase (t_row typ));
      update_type t (with_t_parent e) ;; mret e
  end.

(** resolveCompositeTypeColumns, over the rows that the side channel reads.  A
    cached nil type is present. *)
Fixpoint composite_columns (rows : list (string * Z * Z * bool)) : M (list compositeColumn) :=
  match rows with
  | [] => mret []
  | (name, oid, modifiers, notnull) :: rows' =>
      t ← findType oid;
      match t with
      | None => fail ("Type with oid " ++ pretty oid ++ " not found")%string
      | Some t =>
          cs ← composite_columns rows';
          mret (mkCompositeColumn name (default 0 t) modifiers (negb notnull) :: cs)
      end
  end.

Definition resolveCompositeTypeColumns (oid : Z) : M (list compositeColumn) :=
  match query_columns oid with inl e => fail e | inr rows => composite_columns rows end.

Definition CompositeColumns (t : Z) : M (list compositeColumn) :=
  typ ← type_at t;
  if w_recordType (t_row typ) then
    match t_columns typ with
    | Some cs => mret cs
    | None =>
        cs ← resolveCompositeTypeColumns (w_oid (t_row typ));
        update_type t (with_t_columns (Some cs)) ;; mret cs
    end
  else fail ("Type " ++ pretty (w_oid (t_row typ)) ++ " is not a record type")%string.

(** [if err != nil { panic(err) }] *)
Definition or_panic {A} (g : M A) : M A := fun m =>
  match g m with Err _ _ => Crash PanicExplicit | r => r end.

(** *** Schema builders of types *)

Fixpoint composite_fields (self : Z -> M Z) (columns : list compositeColumn) (i : Z) (s : Z) : M unit :=
  match columns with
  | [] => mret tt
  | c :: cs =>
      b ← (b ← self (cc_typ c); schema_op (b ← Schema.FieldName (cc_name c) b; Schema.Clone b));
      schema_op (Schema.Field (cc_name c) i b s) ;;
      composite_fields self cs (i + 1) s
  end.

(** [self] is the method SchemaBuilder. *)
Definition resolveSchemaBuilder (self : Z -> M Z) (t : Z) : M (option Z) :=
  typ ← type_at t;
  registered ← registered_builder (w_oid (t_row typ));
  match registered with
  | Some s => mret (Some s)
  | None =>
      match t_schemaType typ with
      | ARRAY =>
          e ← ElementType t;
          s ← schema_op (Schema.NewSchemaBuilder ARRAY);
          e ← must PanicNilDereference e;
          v ← self e;
          s ← schema_op (Schema.ValueSchema (Some v) s);
          mret (Some s)
      | MAP => mret None
      | STRUCT =>
          if (w_kind (t_row typ) =? CompositeKind)%string then
            columns ← or_panic (CompositeColumns t);
            s ← schema_op (Schema.NewSchemaBuilder STRUCT);
            composite_fields self columns 0 s ;;
            s ← schema_op (Schema.Clone s);
            mret (Some s)
          else if (w_kind (t_row typ) =? DomainKind)%string then
            base ← BaseType t;
            base ← must PanicNilDereference base;
            s ← self base;
            s ← schema_op (b ← Schema.SchemaName (w_name (t_row typ) ++ ".Type")%string s; Schema.Clone b);
            mret (Some s)
          else mret None
      | _ => schema_op (primitive_builder typ)
      end
  end.

(** The depth of the recursion is that of the nesting of types. *)
Fixpoint SchemaBuilder (fuel : nat) (t : Z) : M Z :=
  match fuel with
  | O => panic OutOfFuel
  | S fuel =>
      typ ← type_at t;
      (match t_schemaBuilder typ with
       | Some _ => mret tt
       | None => b ← resolveSchemaBuilder (SchemaBuilder fuel) t; update_type t (with_t_schemaBuilder b)
       end) ;;
      typ ← type_at t;
      s ← must PanicNilDereference (t_schemaBuilder typ);
      schema_op (Schema.Clone s)
  end.

(** *** Composite types *)

(** An error of CompositeColumns is a panic here, and not in the converter. *)
Fixpoint codec_columns (columns : list compositeColumn) : M (list (string * Codec)) :=
  match columns with
  | [] => mret []
  | c :: cs =>
      typ ← type_at (cc_typ c);
      pt ← TypeForOID (w_oid (t_row typ));
      match pt with
      | None => fail ("Required type " ++ pretty (w_oid (t_row typ)) ++ " for column " ++ cc_name c
                        ++ " not found in type map")%string
      | Some pt => rest ← codec_columns cs; mret ((cc_name c, px_Codec pt) :: rest)
      end
  end.

Definition newCompositeCodec (t : Z) : M Codec :=
  columns ← or_panic (CompositeColumns t);
  l ← codec_columns columns;
  mret (CompositeCodec l).

Fixpoint converter_columns (columns : list compositeColumn) (acc : gmap string (Z * option converter)) :
    M (gmap string (Z * option converter)) :=
  match columns with
  | [] => mret acc
  | c :: cs =>
      typ ← type_at (cc_typ c);
      f ← ResolveTypeConverter (w_oid (t_row typ));
      converter_columns cs (<[ cc_name c := (w_oid (t_row typ), f) ]> acc)
  end.

Definition newCompositeConverter (t : Z) : M converter :=
  columns ← CompositeColumns t;
  m ← converter_columns columns ∅;
  mret (CompositeOf m).

(** *** Lazy registration *)

Definition set_dynamicConverter (oid : Z) (r : typeRegistration) : M unit := dynamicConverterSetter cache_setters oid r.

(** One call; [self] is the recursive call for the element type. *)
Definition lazilyRegisterTypeMap_ (self : Z -> M unit) (oid : Z) : M unit :=
  known ← knownInTypeMap oid;
  if known : bool then mret tt else
  t ← ResolveDataType oid;
  t ← must PanicNilDereference t;
  typ ← type_at t;
  let oid' := w_oid (t_row typ) in
  if w_arrayType (t_row typ) then
    e ← ElementType t;
    e ← must PanicNilDereference e;
    elem ← type_at e;
    let oidElem := w_oid (t_row elem) in
    self oidElem ;;
    elem ← type_at e;
    if (w_kind (t_row elem) =? EnumKind)%string then
      pt ← TypeForOID oidElem;
      match pt with
      | Some pt =>
          let r := mkRegistration (t_schemaType elem) None false 0
                     (Some (Static (arrayConverter F TString oidElem enum2string)))
                     (Some (ArrayCodec (px_Name pt) (px_OID pt) (px_Codec pt))) None None None false in
          set_dynamicConverter oid' r ;; registerTypeInTypeMap typ r
      | None => mret tt
      end
    else if bool_decide (t_schemaType elem = STRUCT) then
      c ← newCompositeConverter e;
      s ← resolveSchemaBuilder (SchemaBuilder depth) t;
      let r := mkRegistration ARRAY s true (w_oidElement (t_row typ)) (Some (ArrayOf oidElem (TSlice TMap) (Some c)))
                 None None None None false in
      set_dynamicConverter oid' r ;; registerTypeInTypeMap typ r
    else mret tt
  else if bool_decide (t_schemaType typ = STRUCT) then
    codec ← newCompositeCodec t;
    c ← newCompositeConverter t;
    m ← get;
    match CasCache.apply (CasCache.TransformSetAndGet oid' (fun old => inr
            (mkRegistration (r_schemaType old) (r_schemaBuilder old) (r_isArray old) (r_oidElement old) (Some c)
               (Some codec) (r_converterFactory old) (r_codecFactory old) (r_typeFactory old)
               (r_overrideExistingCodec old)))) (dynamicConverterCache m) with
    | (cache, inr (Some r)) => put (set_dynamicConverterCache cache m) ;; registerTypeInTypeMap typ r
    | (_, inr None) => mret tt
    | (_, inl e) => fail e
    end
  else fail ("Cannot lazily register type " ++ pretty oid ++ " in type map")%string.

(** Arrays have no arrays as elements: the recursion is one level deep. *)
Fixpoint lazilyRegisterTypeMap (fuel : nat) (oid : Z) : M unit :=
  match fuel with
  | O => panic OutOfFuel
  | S fuel => lazilyRegisterTypeMap_ (lazilyRegisterTypeMap fuel) oid
  end.

Definition RegisterColumnType (c : Col.Column) : M unit := lazilyRegisterTypeMap 3 (Col.dataType c).

(** *** Converting values *)

Definition of_static (r : converted_value) : M dyn :=
  match r with inl c => panic c | inr (inl e) => fail e | inr (inr v) => mret v end.

(** The elements of a slice, each through [f] and into the target type. *)
Fixpoint convert_list (f : dyn -> M dyn) (target : gotype) (l : list dyn) : M (list dyn) :=
  match l with
  | [] => mret []
  | v :: l' =>
      e ← f v;
      e ← lift (reflect_Convert F target e);
      rest ← convert_list f target l';
      mret (e :: rest)
  end.

(** The entries of a composite value; one without a column is kept as it is. *)
Fixpoint convert_entries (f : Z * option converter -> dyn -> M dyn) (columns : gmap string (Z * option converter))
    (l : list (string * dyn)) (acc : gmap string dyn) : M (gmap string dyn) :=
  match l with
  | [] => mret acc
  | (k, v) :: l' =>
      v ← match columns !! k with Some c => f c v | None => mret v end;
      convert_entries f columns l' (<[ k := v ]> acc)
  end.

(** The order in which a map is iterated. *)
Context (entries : gmap string dyn -> list (string * dyn)).

(** Calling a nil function panics. *)
Fixpoint convert (fuel : nat) (c : converter) (oid : Z) (value : dyn) : M dyn :=
  match fuel with
  | O => panic OutOfFuel
  | S fuel =>
      match c with
      | Static f => of_static (f oid value)
      | LazyArray o =>
          m ← get;
          lac ← must PanicNilDereference (lazies m !! o);
          inner ← match lac_converter lac with
                  | Some c => mret c
                  | None =>
                      e ← ResolveDataType (lac_oidElement lac);
                      f ← ResolveTypeConverter (lac_oidElement lac);
                      e ← must PanicNilDereference e;
                      elem ← type_at e;
                      match schemaType2ReflectiveType (t_schemaType elem) with
                      | None => fail ("Unsupported schema type " ++ type_name (t_schemaType elem))%string
                      | Some t =>
                          let c := ArrayOf (lac_oidElement lac) (TSlice t) f in
                          modify (fun m => set_lazies (<[ o := mkLazy (lac_oidElement lac) (Some c) ]> (lazies m)) m) ;;
                          mret c
                      end
                  end;
          convert fuel inner oid value
      | ArrayOf oidElement target f =>
          match target with
          | TSlice target =>
              l ← lift (elements value);
              l ← convert_list (fun v => match f with Some f => convert fuel f oidElement v | None => mret v end) target l;
              mret (DSlice target l)
          | _ => panic PanicExplicit
          end
      | CompositeOf columns =>
          match value with
          | DMap m =>
              r ← convert_entries (fun c v => match c with
                                              | (dataType, Some f) => convert fuel f dataType v
                                              | (_, None) => panic PanicNilDereference
                                              end) columns (entries m) ∅;
              mret (DMap r)
          | _ => fail errIllegalValue
          end
      end
  end.

(** *** Decoding tuples (decoderplan.go) *)

(** [codec.DecodeValue(typeMap, oid, format, data)] *)
Context (DecodeValue : Codec -> Z -> Z -> option bytes -> string + dyn).

(** A column of pglogrepl.TupleData. *)
Record TupleDataColumn : Type := mkTupleColumn { tc_DataType : Z; tc_Data : bytes }.

Definition planTupleDecoder (columns : list (string * Z)) : M (list tupleDecoder) := fun m =>
  Ret ((fun c => mkTupleDecoder (fst c) (snd c) (typeMap m !! snd c)) <$> columns) m.

(** The codec of a column: without a driver type the bytes are a string. *)
Definition decode_column (d : tupleDecoder) (data : bytes) (binary : bool) : string + dyn :=
  match td_pgx d with
  | None => inr (DString (string_of data))
  | Some pt => DecodeValue (px_Codec pt) (td_dataType d) (if binary then 1 else 0) (Some data)
  end.

Definition run_decoder (d : tupleDecoder) (c : TupleDataColumn) (values : gmap string dyn) : string + gmap string dyn :=
  let decoded (binary : bool) :=
    match decode_column d (tc_Data c) binary with
    | inl e => inl ("error decoding column data: " ++ e)%string
    | inr v => inr (<[ td_name d := v ]> values)
    end in
  if tc_DataType c =? 110 then inr (<[ td_name d := DNil ]> values)
  else if tc_DataType c =? 117 then inr values
  else if tc_DataType c =? 116 then decoded false
  else if tc_DataType c =? 98 then decoded true
  else inr values.

Fixpoint run_plan (plan : list tupleDecoder) (columns : list TupleDataColumn) (values : gmap string dyn) :
    crash + (string + gmap string dyn) :=
  match plan with
  | [] => inr (inr values)
  | d :: plan' =>
      match columns with
      | [] => inl PanicIndexOutOfRange
      | c :: columns' =>
          match run_decoder d c values with
          | inl e => inr (inl e)
          | inr values' => run_plan plan' columns' values'
          end
      end
  end.

(** None is a nil tuple, and a nil map. *)
Definition Decode (plan : list tupleDecoder) (tupleData : option (list TupleDataColumn)) :
    crash + (string + option (gmap string dyn)) :=
  match tupleData with
  | None => inr (inr None)
  | Some columns =>
      r ← run_plan plan columns ∅;
      match r with inl e => inr (inl e) | inr values => inr (inr (Some values)) end
  end.

(** The relation is its id and its columns. *)
Definition GetOrPlanTupleDecoder (relationID : Z) (columns : list (string * Z)) : M (list tupleDecoder) :=
  m ← get;
  match CasCache.Get relationID (decoderPlanCache m) with
  | Some plan => mret plan
  | None =>
      plan ← planTupleDecoder columns;
      m ← get;
      match CasCache.apply (CasCache.GetOrCompute relationID plan) (decoderPlanCache m) with
      | (c, inr (Some v)) => put (set_decoderPlanCache c m) ;; mret v
      | (_, inr None) => mret plan
      | (_, inl e) => fail e
      end
  end.

Definition DecodeTuples (relationID : Z) (columns : list (string * Z)) (tupleData : option (list TupleDataColumn)) :
    M (option (gmap string dyn)) :=
  plan ← GetOrPlanTupleDecoder relationID columns;
  match Decode plan tupleData with
  | inl c => panic c
  | inr (inl e) => fail e
  | inr (inr v) => mret v
  end.

(** *** Decoding rows (rowdecoder.go, typedecoder.go) *)

(** pgconn.FieldDescription *)
Record FieldDescription : Type := mkFieldDescription {
  fd_Name : string;
  fd_DataTypeOID : Z;
  fd_DataTypeSize : Z;
  fd_TypeModifier : Z;
  fd_Format : Z;
  fd_TableOID : Z;
  fd_TableAttributeNumber : Z;
}.

Record rowDecoder : Type := mkRowDecoder {
  rd_decoders : list (Codec * FieldDescription);
  rd_fields : list FieldDescription;
}.

Definition findTypeDecoder (field : FieldDescription) : M (Codec * FieldDescription) :=
  pt ← TypeForOID (fd_DataTypeOID field);
  match pt with
  | Some pt => mret (px_Codec pt, field)
  | None => fail ("Unsupported type oid: " ++ pretty (fd_DataTypeOID field))%string
  end.

Fixpoint find_decoders (fields : list FieldDescription) : M (list (Codec * FieldDescription)) :=
  match fields with
  | [] => mret []
  | f :: fs => d ← findTypeDecoder f; ds ← find_decoders fs; mret (d :: ds)
  end.

Definition newRowDecoder (fields : list FieldDescription) : M rowDecoder :=
  ds ← find_decoders fields; mret (mkRowDecoder ds fields).

(** A raw value is None for NULL. *)
Fixpoint row_values (decoders : list (Codec * FieldDescription)) (rawRow : list (option bytes)) :
    crash + (string + list dyn) :=
  match decoders with
  | [] => inr (inr [])
  | (codec, field) :: ds =>
      match rawRow with
      | [] => inl PanicIndexOutOfRange
      | src :: rawRow' =>
          match DecodeValue codec (fd_DataTypeOID field) (fd_Format field) src with
          | inl e => inr (inl e)
          | inr v =>
              rest ← row_values ds rawRow';
              match rest with inl e => inr (inl e) | inr vs => inr (inr (v :: vs)) end
          end
      end
  end.

Definition row_Decode (rd : rowDecoder) (rawRow : list (option bytes)) : crash + (string + list dyn) :=
  row_values (rd_decoders rd) rawRow.

Definition same_field (f o : FieldDescription) : bool :=
  (fd_Format f =? fd_Format o) && (fd_DataTypeOID f =? fd_DataTypeOID o) && (fd_Name f =? fd_Name o)%string &&
  (fd_DataTypeSize f =? fd_DataTypeSize o) && (fd_TypeModifier f =? fd_TypeModifier o).

Definition compatible (rd : rowDecoder) (other : list FieldDescription) : bool :=
  bool_decide (length (rd_fields rd) = length other) &&
  forallb (fun p => same_field (fst p) (snd p)) (zip (rd_fields rd) other).

(** [resultSet[field.Name] = values[i]] *)
Fixpoint result_set (fields : list FieldDescription) (values : list dyn) (acc : gmap string dyn) : crash + gmap string dyn :=
  match fields with
  | [] => inr acc
  | f :: fs =>
      match values with
      | [] => inl PanicIndexOutOfRange
      | v :: vs => result_set fs vs (<[ fd_Name f := v ]> acc)
      end
  end.

Section Sinks.
Context {S : Type}.

Definition values_of (rd : rowDecoder) (rawRow : list (option bytes)) : G S (list dyn) :=
  match row_Decode rd rawRow with inl c => panic c | inr (inl e) => fail e | inr (inr vs) => mret vs end.

Definition DecodeAndSink (rd : rowDecoder) (rawRow : list (option bytes)) (sink : list dyn -> G S unit) : G S unit :=
  vs ← values_of rd rawRow; sink vs.

Definition DecodeMapAndSink (rd : rowDecoder) (rawRow : list (option bytes)) (sink : gmap string dyn -> G S unit) :
    G S unit :=
  vs ← values_of rd rawRow; r ← lift (result_set (rd_fields rd) vs ∅); sink r.

(** The rows of a query: its fields, an error before the first row, the rows, and
    an error after the last. *)
Record Rows : Type := mkRows {
  rs_fields : list FieldDescription;
  rs_first_error : option string;
  rs_rows : list (list (option bytes));
  rs_last_error : option string;
}.

Definition sink_rows (rd : rowDecoder) (rows : Rows) (body : list (option bytes) -> G S unit) : G S unit :=
  if compatible rd (rs_fields rows) then
    match rs_first_error rows with
    | Some e => fail e
    | None =>
        forM (rs_rows rows) body ;;
        match rs_last_error rows with Some e => fail e | None => mret tt end
    end
  else fail "incompatible rows instance provided".

Definition DecodeRowsAndSink (rd : rowDecoder) (rows : Rows) (sink : list dyn -> G S unit) : G S unit :=
  sink_rows rd rows (fun raw => DecodeAndSink rd raw sink).

Definition DecodeRowsMapAndSink (rd : rowDecoder) (rows : Rows) (sink : gmap string dyn -> G S unit) : G S unit :=
  sink_rows rd rows (fun raw => DecodeMapAndSink rd raw sink).
End Sinks.
End Manager.

(** ** Properties *)

Definition has_row (m : typeManager) (t : Z) (w : type_row) : Prop :=
  exists typ, types m !! t = Some typ /\ t_row typ = w.

(** A type object with an oid. *)
Definition has_oid (m : typeManager) (t oid : Z) : Prop := exists w, has_row m t w /\ w_oid w = oid.

(** What reading types does not take away: a type object keeps its row, a type
    that was put into the local map of initialize has an entry there, and no nil
    gets into the cache. *)
Record extends (m m' : typeManager) : Prop := mkExtends {
  ext_row t w : has_row m t w -> has_row m' t w;
  ext_pending oid t : dynamicTypes m !! oid = Some (Some t) -> exists t', dynamicTypes m' !! oid = Some (Some t');
  ext_nil oid : CasCache.Get oid (dynamicTypeCache m') = Some None -> CasCache.Get oid (dynamicTypeCache m) = Some None;
}.

(** The caches map an oid to a type object with this oid. *)
Record Inv (m : typeManager) : Prop := mkInv {
  inv_core oid t : coreTypeCache m !! oid = Some t -> has_oid m t oid;
  inv_dynamic oid t : CasCache.Get oid (dynamicTypeCache m) = Some (Some t) -> has_oid m t oid;
  inv_pending oid t : dynamicTypes m !! oid = Some (Some t) -> has_oid m t oid;
  inv_fresh t : is_Some (types m !! t) -> t < next_object m;
}.

#[export] Instance extends_preorder : PreOrder extends.
Proof.
  split; [split; eauto|]. intros m1 m2 m3 [H1 H2 H5] [H3 H4 H6]. split; [by eauto| |by eauto].
  intros oid t (t' & Ht)%H2. eauto.
Qed.

Lemma has_oid_extends m m' t oid : extends m m' -> has_oid m t oid -> has_oid m' t oid.
Proof. intros He (w & Hw & Ho). exists w. eauto using ext_row. Qed.

(** A run that keeps the invariant and establishes [Q] when it returns. *)
Definition safe {A} (m : typeManager) (g : M A) (Q : A -> typeManager -> Prop) : Prop :=
  match g m with
  | Ret a m' => Inv m' /\ extends m m' /\ Q a m'
  | Err _ m' => Inv m' /\ extends m m'
  | Crash _ => True
  end.

Abbreviation anything := (fun _ _ => True).

Section SafeRules.
Context {A B : Type}.

Lemma safe_ret (a : A) m (Q : A -> typeManager -> Prop) : Inv m -> Q a m -> safe m (mret a) Q.
Proof. intros. split; [done|]. by split. Qed.

Lemma safe_bind m (g : M A) (k : A -> M B) Q R :
  safe m g Q -> (forall a m', Inv m' -> extends m m' -> Q a m' -> safe m' (k a) R) -> safe m (g ≫= k) R.
Proof.
  unfold safe, mbind, G_bind. intros Hg Hk. destruct (g m) as [a m1|e m1|c]; [|done|done].
  destruct Hg as (Hi & He & Hq). specialize (Hk a m1 Hi He Hq).
  destruct (k a m1) as [b m2|e m2|c]; [|destruct Hk; split; [done|by transitivity m1]|done].
  destruct Hk as (? & ? & ?). split; [done|]. split; [by transitivity m1|done].
Qed.

Lemma safe_weaken m (g : M A) (Q R : A -> typeManager -> Prop) :
  safe m g Q -> (forall a m', Inv m' -> extends m m' -> Q a m' -> R a m') -> safe m g R.
Proof. unfold safe. destruct (g m); [|done|done]. naive_solver. Qed.

Lemma safe_fail e m (Q : A -> typeManager -> Prop) : Inv m -> safe m (fail e) Q.
Proof. intros. by split. Qed.

Lemma safe_gets (f : typeManager -> A) m : Inv m -> safe m (gets f) (fun a m' => m' = m /\ a = f m).
Proof. intros. split; [done|]. by split. Qed.

Lemma safe_modify (f : typeManager -> typeManager) m (Q : unit -> typeManager -> Prop) :
  Inv (f m) -> extends m (f m) -> Q tt (f m) -> safe m (modify f) Q.
Proof. by intros. Qed.
End SafeRules.

Lemma safe_get m : Inv m -> safe m get (fun a m' => m' = m /\ a = m).
Proof. intros. split; [done|]. by split. Qed.

Lemma safe_must {A} c (o : option A) m : Inv m -> safe m (must c o) (fun a m' => m' = m /\ o = Some a).
Proof. intros. destruct o; [|done]. split; [done|]. by split. Qed.

(** A change that leaves types and type caches alone. *)
Definition same_types (m m' : typeManager) : Prop :=
  types m' = types m /\ coreTypeCache m' = coreTypeCache m /\ dynamicTypeCache m' = dynamicTypeCache m /\
  dynamicTypes m' = dynamicTypes m /\ next_object m <= next_object m'.

Lemma same_types_ok m m' : same_types m m' -> Inv m -> Inv m' /\ extends m m'.
Proof.
  intros (Ht & Hc & Hd & Hp & Hn) [H1 H2 H3 H4].
  assert (Hrow : forall t w, has_row m t w <-> has_row m' t w) by (intros; unfold has_row; by rewrite Ht).
  assert (Hoid : forall t o, has_oid m t o -> has_oid m' t o) by (intros t o (w & Hw%Hrow & Ho); by exists w).
  split; [split|split].
  - intros oid t. rewrite Hc. eauto.
  - intros oid t. rewrite Hd. eauto.
  - intros oid t. rewrite Hp. eauto.
  - intros t. rewrite Ht. intros Hs%H4. lia.
  - intros t w. apply Hrow.
  - rewrite Hp. eauto.
  - by rewrite Hd.
Qed.

Lemma safe_same {A} (g : M A) m :
  Inv m -> (forall a m', g m = Ret a m' -> same_types m m') -> (forall e m', g m = Err e m' -> same_types m m') ->
  safe m g anything.
Proof.
  intros Hi Hr He. unfold safe. destruct (g m) as [a m'|e m'|c]; [|by apply same_types_ok; [eapply He|]|done].
  destruct (same_types_ok m m' (Hr a m' eq_refl) Hi). done.
Qed.

Lemma schema_op_safe {A} (g : G heap A) m : Inv m -> safe m (schema_op g) anything.
Proof.
  intros Hi. apply safe_same; [done|..]; unfold schema_op, zoom; destruct (g (schemas m)); intros ?? [= <- <-] || intros ?? [=];
    subst; repeat split; cbn; lia.
Qed.

Lemma type_at_safe m t w : Inv m -> has_row m t w -> safe m (type_at t) (fun typ m' => m' = m /\ t_row typ = w).
Proof.
  intros Hi (typ & Ht & Hw). unfold type_at, safe, get, mbind, G_bind. rewrite Ht. done.
Qed.

Lemma RegisterType_safe m t : Inv m -> safe m (RegisterType t) anything.
Proof. intros Hi. apply safe_same; [done|..]; intros ?? [=]; subst; repeat split; cbn; lia. Qed.

Section Safety.
Context (F : Formats) (query_types : option Z -> string + list type_row) (optimizedTypes : gmap string typeRegistration).

Lemma newType_safe m w : Inv m -> safe m (newType F w) (fun t m' => has_row m' t w).
Proof.
  intros Hi. unfold newType. apply (safe_bind _ _ _ anything). { by split. }
  intros st m1 Hi1 _ _. eapply (safe_bind _ _ _ anything).
  { destruct (IsPrimitive st); [|by apply safe_ret]. unfold resolve_primitive. eapply (safe_bind _ _ _ anything).
    { by split. }
    intros [s|] m2 Hi2 _ _; [by apply safe_ret|by apply schema_op_safe]. }
  intros b m2 Hi2 _ _. eapply safe_bind; [by apply safe_get|]. intros m3 m4 Hi3 _ [-> ->].
  set (t := with_t_schemaBuilder b _). set (m' := set_next _ _).
  assert (Hfresh : types m2 !! next_object m2 = None).
  { apply eq_None_not_Some. intros Hs%(inv_fresh m2 Hi2). lia. }
  assert (Hrow : forall x r, has_row m2 x r -> has_row m' x r).
  { intros x r (typ & Hx & Hr). exists typ. split; [|done]. cbn. rewrite lookup_insert_ne; [done|]. congruence. }
  assert (Hoid : forall x o, has_oid m2 x o -> has_oid m' x o) by (intros x o (r & Hr & Ho); exists r; eauto).
  assert (Hi' : Inv m').
  { destruct Hi2 as [H1 H2 H3 H4]. split; cbn; eauto.
    intros x. destruct (decide (x = next_object m2)) as [->|]; [lia|]. rewrite lookup_insert_ne by done.
    intros Hs%H4. lia. }
  split; [done|]. split; [split; [done|by eauto|done]|]. exists t. split; [apply lookup_insert_eq|done].
Qed.

Lemma registerTypeInTypeMap_safe m t r : Inv m -> safe m (registerTypeInTypeMap t r) anything.
Proof.
  intros Hi. unfold registerTypeInTypeMap. eapply safe_bind; [by apply safe_get|]. intros m1 m2 _ _ [-> ->].
  destruct (r_codec r), (r_codecFactory r);
    repeat first [by apply RegisterType_safe | by apply safe_fail | case_match].
Qed.

Lemma resolveOptimizedTypeConverter_safe m t r : Inv m -> safe m (resolveOptimizedTypeConverter t r) anything.
Proof.
  intros Hi. unfold resolveOptimizedTypeConverter. destruct (r_isArray r).
  - apply safe_same; [done|..]; intros ?? [=]; subst; repeat split; cbn; lia.
  - case_match; by apply safe_ret.
Qed.

Lemma update_type_safe m t f :
  Inv m -> (forall typ, t_row (f typ) = t_row typ) -> safe m (update_type t f) anything.
Proof.
  intros [H1 H2 H3 H4] Hf.
  assert (Hrow : forall x r, has_row m x r -> has_row (set_types (alter f t (types m)) m) x r).
  { intros x r (typ & Hx & Hr). destruct (decide (x = t)) as [->|].
    - exists (f typ). cbn. rewrite lookup_alter_eq, Hx. split; [done|]. by rewrite Hf.
    - exists typ. cbn. by rewrite lookup_alter_ne. }
  assert (Hoid : forall x o, has_oid m x o -> has_oid (set_types (alter f t (types m)) m) x o)
    by (intros x o (r & Hr & Ho); exists r; eauto).
  apply safe_modify; [|split; eauto|done]. split; cbn; eauto.
  intros x. destruct (decide (x = t)) as [->|].
  - rewrite lookup_alter_eq, fmap_is_Some. apply H4.
  - rewrite lookup_alter_ne by done. apply H4.
Qed.

(** What the functions that store types and registrations have to keep. *)
Record safe_setters (s : setters) (stored : Z -> typeManager -> Prop) : Prop := mkSafeSetters {
  setter_type m oid t : Inv m -> has_oid m t oid -> safe m (dynamicTypeSetter s oid t) (fun _ m' => stored oid m');
  setter_converter m oid r : Inv m -> safe m (dynamicConverterSetter s oid r) anything;
  setter_optimized m oid r : Inv m -> safe m (optimizedConverterSetter s oid r) anything;
  stored_extends m m' oid : extends m m' -> stored oid m -> stored oid m';
}.

Lemma core_cache_safe m oid t :
  Inv m -> has_oid m t oid -> safe m (modify (fun m => set_coreTypeCache (<[ oid := t ]> (coreTypeCache m)) m)) anything.
Proof.
  intros [H1 H2 H3 H4] Ht. apply safe_modify; [|split; eauto|done]. split; cbn; [|done|done|done].
  intros o x [ [<- <-]|[_ Hx] ]%lookup_insert_Some; [done|]. by apply H1.
Qed.

Lemma registerType_safe s stored m t w :
  safe_setters s stored -> Inv m -> has_row m t w ->
  safe m (registerType F optimizedTypes s t) (fun _ m' => stored (w_oid w) m').
Proof.
  intros Hs Hi Hw. unfold registerType.
  eapply safe_bind; [by apply type_at_safe|]. intros typ m0 _ _ [-> Htyp]. rewrite Htyp. cbv zeta.
  assert (Hoid : forall m', extends m m' -> has_oid m' t (w_oid w)) by (intros m' He; exists w; split; [by apply (ext_row _ _ He)|done]).
  apply (safe_bind _ _ _ anything).
  { destruct (coreType F (w_oid w)); [|by apply safe_ret]. apply core_cache_safe; [done|by apply Hoid]. }
  intros _ m1 Hi1 He1 _. eapply safe_bind; [by eapply (setter_type s stored Hs), Hoid|].
  intros u m2 Hi2 He2 Hst. cbn in Hst.
  apply (safe_weaken _ _ anything); [|by intros _ m' _ He _; eapply (stored_extends s stored Hs)].
  assert (He02 : extends m m2) by (by transitivity m1).
  apply (safe_bind _ _ _ anything).
  { destruct (coreType F (w_oid w)); [|by apply safe_ret].
    eapply safe_bind; [by apply safe_gets|]. intros known m3 _ _ [-> _].
    case_match; [by apply registerTypeInTypeMap_safe|by apply safe_ret]. }
  intros _ m3 Hi3 He3 _. apply (safe_bind _ _ _ anything).
  { destruct (optimizedTypes !! w_name w); [|by apply safe_ret].
    apply (safe_bind _ _ _ anything); [by apply update_type_safe|]. intros _ m4 Hi4 _ _.
    apply (safe_bind _ _ _ anything); [by apply resolveOptimizedTypeConverter_safe|]. intros [c|] m5 Hi5 _ _; [|by apply safe_fail].
    apply (safe_bind _ _ _ anything); [by apply (setter_optimized s stored Hs)|]. intros _ m6 Hi6 _ _.
    by apply registerTypeInTypeMap_safe. }
  intros _ m4 Hi4 He4 _. eapply safe_bind; [apply type_at_safe; [done|by apply (ext_row _ _ He4), (ext_row _ _ He3), (ext_row _ _ He02)]|].
  intros typ' m5 _ _ [-> Htyp']. rewrite Htyp'. apply (safe_bind _ _ _ anything).
  { destruct (w_kind w =? EnumKind)%string; [|by apply safe_ret].
    apply (safe_bind _ _ _ anything); [by apply (setter_converter s stored Hs)|]. intros _ m5 Hi5 _ _.
    by apply registerTypeInTypeMap_safe. }
  intros _ m5 Hi5 _ _. destruct (_ && _); [by apply (setter_converter s stored Hs)|by apply safe_ret].
Qed.

(** The setters of initialize store into the local map. *)
Definition pending_stored (oid : Z) (m : typeManager) : Prop := exists t, dynamicTypes m !! oid = Some (Some t).

Lemma pending_safe : safe_setters pending_setters pending_stored.
Proof.
  split.
  - intros m oid t [H1 H2 H3 H4] Ht. apply safe_modify; [|split|].
    + split; cbn; [done|done| |done]. intros o x [ [<- [= <-] ]|[_ Hx] ]%lookup_insert_Some; eauto.
    + done.
    + intros o x Hx. cbn in *. destruct (decide (o = oid)) as [->|]; [by rewrite lookup_insert_eq; eauto|].
      rewrite lookup_insert_ne by done. eauto.
    + done.
    + exists t. apply lookup_insert_eq.
  - intros m oid r Hi. apply safe_same; [done|..]; intros ?? [=]; subst; repeat split; cbn; lia.
  - intros m oid r Hi. apply safe_same; [done|..]; intros ?? [=]; subst; repeat split; cbn; lia.
  - intros m m' oid He [t Ht]. by eapply (ext_pending _ _ He).
Qed.

(** Set keeps the entry that is there. *)
Lemma Get_apply_Set {V} (oid oid' : Z) (v : V) (c : option (gmap Z V)) :
  CasCache.Get oid' (fst (CasCache.apply (CasCache.Set_ oid v) c))
  = match CasCache.Get oid' c with Some v' => Some v' | None => if decide (oid = oid') then Some v else None end.
Proof.
  unfold CasCache.apply. destruct c as [c|]; cbn.
  - rewrite lookup_union. destruct (c !! oid') as [v'|]; cbn; [by destruct ({[oid := v]} !! oid')|].
    rewrite lookup_singleton. by case_decide.
  - rewrite lookup_singleton. by case_decide.
Qed.

Definition cache_stored (oid : Z) (m : typeManager) : Prop := True.

Lemma cache_safe : safe_setters cache_setters cache_stored.
Proof.
  split; [|intros m oid r Hi; apply safe_same; [done|..]; intros ?? [=]; subst; repeat split; cbn; lia..|done].
  intros m oid t [H1 H2 H3 H4] Ht. apply safe_modify; [|split; [done|by eauto|]|done].
  2: { intros o. cbn [dynamicTypeCache set_dynamicTypeCache]. rewrite Get_apply_Set.
       destruct (CasCache.Get o (dynamicTypeCache m)); [done|]. by case_decide. }
  split; cbn [coreTypeCache dynamicTypeCache dynamicTypes set_dynamicTypeCache types next_object]; [done| |done|done].
  intros o x. rewrite Get_apply_Set. destruct (CasCache.Get o (dynamicTypeCache m)) as [v|] eqn:E.
  - intros [= ->]. by apply H2.
  - case_decide as Ho; [|done]. intros [= ->]. by subst.
Qed.

Lemma read_rows_safe {A} (cb : A -> Z -> M A) (P : A -> list type_row -> typeManager -> Prop) rows done_rows a m :
  (forall a l m m', Inv m -> extends m m' -> P a l m -> P a l m') ->
  (forall a l m t w, Inv m -> has_row m t w -> P a l m -> skipped w = false ->
     safe m (cb a t) (fun a' m' => P a' (l ++ [w]) m')) ->
  (forall a l m w, P a l m -> skipped w = true -> P a (l ++ [w]) m) ->
  Inv m -> P a done_rows m -> safe m (read_rows F cb rows a) (fun a' m' => P a' (done_rows ++ rows) m').
Proof.
  intros Hmono Hcb Hskip. revert done_rows a m.
  induction rows as [|w rows IH]; intros l a m Hi Hp; cbn [read_rows].
  { rewrite app_nil_r. by apply safe_ret. }
  eapply safe_bind; [by apply newType_safe|]. intros t m1 Hi1 He1 Hw. cbn in Hw.
  eapply (safe_bind _ _ _ (fun a' m' => P a' (l ++ [w]) m')).
  - destruct (skipped w) eqn:Hsk; [apply safe_ret; eauto|]. eapply Hcb; eauto.
  - intros a' m2 Hi2 _ Hp2. cbn in Hp2. rewrite cons_middle, (assoc_L (++)). by apply IH.
Qed.

Lemma Get_copy_over {V} (oid : Z) (n : gmap Z V) (c : option (gmap Z V)) :
  CasCache.Get oid (Some (CasCache.copy_over c n))
  = match CasCache.Get oid c with Some v => Some v | None => n !! oid end.
Proof.
  destruct c as [c|]; cbn; [|done]. rewrite lookup_union. by destruct (c !! oid), (n !! oid).
Qed.

Lemma Get_apply_SetAll {V} (oid : Z) (n : gmap Z V) (c : option (gmap Z V)) :
  CasCache.Get oid (fst (CasCache.apply (CasCache.SetAll n) c))
  = match CasCache.Get oid c with Some v => Some v | None => n !! oid end.
Proof. apply Get_copy_over. Qed.

(** The caches after the local maps have been published. *)
Lemma publish_ok m a b :
  Inv m ->
  Inv (set_optimizedConverterCache a (set_dynamicConverterCache b
    (set_dynamicTypeCache (fst (CasCache.apply (CasCache.SetAll (dynamicTypes m)) (dynamicTypeCache m))) m))).
Proof.
  intros [H1 H2 H3 H4].
  split; cbn [coreTypeCache dynamicTypeCache dynamicTypes set_dynamicTypeCache set_dynamicConverterCache
    set_optimizedConverterCache types next_object]; [done| |done|done].
  intros oid t. rewrite Get_apply_SetAll. destruct (CasCache.Get oid (dynamicTypeCache m)) as [v|] eqn:E.
  - intros [= ->]. by apply H2.
  - apply H3.
Qed.

Definition loaded (l : list type_row) (m : typeManager) : Prop :=
  forall w, w ∈ l -> skipped w = false -> pending_stored (w_oid w) m.

Lemma loaded_extends l m m' : extends m m' -> loaded l m -> loaded l m'.
Proof. intros He Hl w Hw Hs. destruct (Hl w Hw Hs) as [t Ht]. by eapply (ext_pending _ _ He). Qed.

Lemma initialize_reads rows m :
  Inv m -> safe m (read_rows F (fun _ : unit => registerType F optimizedTypes pending_setters) rows tt)
             (fun _ m' => loaded rows m').
Proof.
  intros Hi. apply (read_rows_safe _ (fun _ l m => loaded l m) rows [] tt m); [| | |done|].
  - intros a l m1 m2 _ He. by apply loaded_extends.
  - intros [] l m1 t w Hi1 Hw Hl Hs.
    eapply safe_weaken; [by apply (registerType_safe pending_setters pending_stored m1 t w pending_safe)|].
    intros u m2 _ He Hst w' [Hw'|Hw'%list_elem_of_singleton]%elem_of_app Hs'; [by eapply loaded_extends|by subst].
  - intros [] l m1 w Hl Hs w' [Hw'|Hw'%list_elem_of_singleton]%elem_of_app Hs'; [by apply Hl|subst; congruence].
  - intros w Hw. by apply elem_of_nil in Hw.
Qed.

(** Looking a type up does not go to the database. *)
Definition known_type (m : typeManager) (oid : Z) : Prop :=
  exists t, findType F oid m = Ret (Some (Some t)) m /\ has_oid m t oid.

Lemma initialize_ok builders pgx rows m :
  query_types None = inr rows -> NewTypeManager F query_types optimizedTypes builders pgx = Ret tt m ->
  Inv m /\ forall w, w ∈ rows -> skipped w = false -> known_type m (w_oid w).
Proof.
  intros Hq. unfold NewTypeManager, initialize, ReadPgTypes. rewrite Hq.
  set (m0 := empty_manager builders pgx).
  assert (Hi0 : Inv (set_pending ∅ ∅ ∅ m0)).
  { split; cbn; try done. intros t [? Ht]. by rewrite lookup_empty in Ht. }
  intros (u & m1 & [= _ <-] & (u' & m2 & Hread & (m3 & m4 & [= -> ->] & [= <-])%bind_ret_inv)%bind_ret_inv)%bind_ret_inv.
  pose proof (initialize_reads rows _ Hi0) as Hs. unfold safe in Hs. rewrite Hread in Hs.
  destruct Hs as (Hi & He & Hl). split; [by apply publish_ok|].
  intros w Hw Hsk. destruct (Hl w Hw Hsk) as [t Ht]. unfold known_type, findType, core_cached.
  cbn [coreTypeCache dynamicTypeCache set_dynamicTypeCache set_dynamicConverterCache set_optimizedConverterCache].
  pose proof (publish_ok m4 (fst (CasCache.apply (CasCache.SetAll (optimizedConverters m4)) (optimizedConverterCache m4)))
    (fst (CasCache.apply (CasCache.SetAll (dynamicConverters m4)) (dynamicConverterCache m4))) Hi) as [Hc Hd _ _].
  destruct (if w_oid w <? upperCoreOidBound F then coreTypeCache m4 !! w_oid w else None) as [tc|] eqn:Ec.
  - exists tc. split; [done|]. apply Hc. cbn. by destruct (_ <? _).
  - specialize (Hd (w_oid w)). cbn [dynamicTypeCache set_dynamicTypeCache set_dynamicConverterCache
      set_optimizedConverterCache] in Hd. rewrite Get_apply_SetAll in Hd.
    destruct (CasCache.Get (w_oid w) (dynamicTypeCache m4)) as [ [x|]|] eqn:Ed.
    + exists x. split; [by rewrite Get_copy_over, Ed|]. by apply Hd.
    + by apply (ext_nil _ _ He) in Ed.
    + exists t. split; [by rewrite Get_copy_over, Ed, Ht|]. by apply Hd.
Qed.

(** The types of the database are known after the start: when a new type
    manager has been initialized, every type that the query returned (record
    types other than composites are skipped) is found without asking the database
    again, and what is found for an oid is a type object with this oid. *)
Theorem initialize_loads_types builders pgx rows m :
  query_types None = inr rows -> NewTypeManager F query_types optimizedTypes builders pgx = Ret tt m ->
  Inv m /\ forall w, w ∈ rows -> skipped w = false -> known_type m (w_oid w).
Proof. apply initialize_ok. Qed.

Lemma read_type_safe oid m :
  Inv m -> (forall rows w, query_types (Some oid) = inr rows -> w ∈ rows -> w_oid w = oid) ->
  safe m (read_type F query_types optimizedTypes oid) (fun r m' => forall t, r = Some t -> has_oid m' t oid).
Proof.
  intros Hi Hq. unfold read_type, ReadPgTypes. destruct (query_types (Some oid)) as [e|rows]; [by apply safe_fail|].
  set (cb := fun _ t => _).
  apply (safe_weaken _ _ (fun r m' => forall t, r = Some t -> exists w, w ∈ rows /\ has_row m' t w)).
  2: { intros r m' _ _ Hr t Ht. destruct (Hr t Ht) as (w & Hw & Hrow). exists w. split; [done|]. by eapply Hq. }
  apply (read_rows_safe cb (fun r l m => forall t, r = Some t -> exists w, w ∈ l /\ has_row m t w) rows [] None m);
    [| | |done|done].
  - intros r l m1 m2 _ He Hr t Ht. destruct (Hr t Ht) as (w & Hw & Hrow). exists w. by eauto using ext_row.
  - intros r l m1 t w Hi1 Hw Hr Hs. unfold cb. apply (safe_bind _ _ _ anything).
    { eapply safe_weaken; [by apply (registerType_safe cache_setters cache_stored m1 t w cache_safe)|done]. }
    intros _ m2 Hi2 He _. apply safe_ret; [done|]. intros t' [= <-]. exists w. split; [set_solver|].
    by apply (ext_row _ _ He).
  - intros r l m1 w Hr Hs t Ht. destruct (Hr t Ht) as (w' & Hw' & Hrow). exists w'. split; [set_solver|done].
Qed.

(** The database answers a query for an oid with rows of that oid. *)
Definition answers (oid : Z) : Prop :=
  forall rows w, query_types (Some oid) = inr rows -> w ∈ rows -> w_oid w = oid.

Lemma ResolveDataType_ok oid m r m' :
  Inv m -> answers oid -> ResolveDataType F query_types optimizedTypes oid m = Ret r m' ->
  Inv m' /\ (forall t w, has_row m t w -> has_row m' t w) /\ forall t, r = Some t -> has_oid m' t oid.
Proof.
  intros Hi Hq (m0 & m1 & [= -> ->] & H)%bind_ret_inv. unfold core_cached in H.
  destruct (if oid <? upperCoreOidBound F then coreTypeCache m1 !! oid else None) as [tc|] eqn:Ec.
  { injection H as <- <-. split; [done|]. split; [done|]. intros t [= <-]. apply (inv_core m1 Hi). by destruct (_ <? _). }
  destruct (CasCache.Get oid (dynamicTypeCache m1)) as [v|] eqn:Ed.
  { injection H as <- <-. split; [done|]. split; [done|]. intros t ->. by apply (inv_dynamic m1 Hi). }
  apply bind_ret_inv in H as (pt & m2 & Hpt & (m3 & m4 & [= -> ->] & H)%bind_ret_inv).
  pose proof (read_type_safe oid m1 Hi Hq) as Hs. unfold safe in Hs. rewrite Hpt in Hs. destruct Hs as (Hi4 & He & Ht).
  unfold CasCache.apply in H. cbn in H. destruct (CasCache.Get oid (dynamicTypeCache m4)) as [v|] eqn:Ed4.
  { injection H as <- <-. split; [destruct m4; exact Hi4|]. split; [apply (ext_row _ _ He)|].
    intros t ->. by apply (inv_dynamic m4 Hi4). }
  injection H as <- <-. split; [|split; [apply (ext_row _ _ He)|done] ].
  destruct Hi4 as [H1 H2 H3 H4]. split; cbn; [done| |done|done].
  intros o t. destruct (dynamicTypeCache m4) as [c|]; cbn in *.
  - rewrite lookup_union. destruct (c !! o) as [v|] eqn:Eo; cbn.
    + intros Hv. apply H2. rewrite Eo. by destruct ({[oid := pt]} !! o).
    + rewrite lookup_singleton. case_decide; [|done]. intros [= ->]. subst. by apply Ht.
  - rewrite lookup_singleton. case_decide; [|done]. intros [= ->]. subst. by apply Ht.
Qed.

Lemma ResolveTypeConverter_ok oid m r m' :
  Inv m -> answers oid -> ResolveTypeConverter F query_types optimizedTypes oid m = Ret r m' ->
  Inv m' /\ forall t w, has_row m t w -> has_row m' t w.
Proof.
  intros Hi Hq. unfold ResolveTypeConverter. destruct (coreType F oid); [by intros [= _ <-]|].
  intros (m0 & m1 & [= -> ->] & H)%bind_ret_inv. revert H. case_match; [case_match; [|by intros [= _ <-] ]|case_match; [by intros [= _ <-]|done] ].
  intros (x & m2 & Hx & (y & m3 & Hy & (typ & m4 & Hz & [= _ <-])%bind_ret_inv)%bind_ret_inv)%bind_ret_inv.
  assert (m3 = m2) as -> by (destruct x; [by injection Hy|done]).
  assert (m4 = m2) as -> by (unfold type_at, get, mbind, G_bind in Hz; destruct (types m2 !! y); [by injection Hz|done]).
  destruct (ResolveDataType_ok oid m1 x m2 Hi Hq Hx) as (? & ? & _). done.
Qed.

(** A type is resolved to the type it is: with caches that map oids to type
    objects with these oids, which the operations keep, and a database that
    answers a query for an oid with rows of that oid, ResolveDataType returns a
    type object with the oid that was asked for, or nil, and the caches are as
    they should be again. *)
Theorem resolved_type_has_oid oid m r m' :
  Inv m -> answers oid -> ResolveDataType F query_types optimizedTypes oid m = Ret r m' ->
  Inv m' /\ forall t, r = Some t -> has_oid m' t oid.
Proof. intros Hi Hq H. destruct (ResolveDataType_ok oid m r m' Hi Hq H) as (? & _ & ?). done. Qed.

(** A type that the query does not return (one in a schema outside the
    search path, or a record type) is not refused: resolving it gives nil without
    an error, the nil is kept for ever, and registering a column of this type
    dereferences it. *)
Theorem unknown_type_is_nil query_columns depth fuel oid m :
  core_cached F m oid = None -> CasCache.Get oid (dynamicTypeCache m) = None -> typeMap m !! oid = None ->
  query_types (Some oid) = inr [] ->
  exists m', ResolveDataType F query_types optimizedTypes oid m = Ret None m' /\
    ResolveDataType F query_types optimizedTypes oid m' = Ret None m' /\
    lazilyRegisterTypeMap F query_types query_columns optimizedTypes depth (S fuel) oid m = Crash PanicNilDereference.
Proof.
  intros Hc Hd Ht Hq.
  assert (Hr : exists m', ResolveDataType F query_types optimizedTypes oid m = Ret None m' /\
    core_cached F m' oid = None /\ CasCache.Get oid (dynamicTypeCache m') = Some None).
  { unfold ResolveDataType. unfold mbind, G_bind at 1. cbn [get]. rewrite Hc, Hd.
    unfold read_type, ReadPgTypes. rewrite Hq. unfold CasCache.apply. cbn. rewrite Hd. eexists. split; [reflexivity|].
    split; [exact Hc|]. cbn. destruct (dynamicTypeCache m) as [c|]; cbn in *.
    - by rewrite lookup_union, Hd, lookup_singleton_eq.
    - apply lookup_singleton_eq. }
  destruct Hr as (m' & Hr & Hc' & Hd'). exists m'. split; [done|]. split.
  - unfold ResolveDataType. unfold mbind, G_bind. cbn [get]. by rewrite Hc', Hd'.
  - cbn [lazilyRegisterTypeMap]. unfold lazilyRegisterTypeMap_, knownInTypeMap, gets. unfold mbind, G_bind at 1.
    rewrite Ht. cbn [bool_decide is_Some_dec].
    unfold G_bind at 1. by rewrite Hr.
Qed.
End Safety.

(** ** Types without support *)

Section Unsupported.
Context (F : Formats) (query_types : option Z -> string + list type_row).
Context (query_columns : Z -> string + list (string * Z * Z * bool)).
Context (optimizedTypes : gmap string typeRegistration) (depth : nat).

Context (sound : forall oid, answers query_types oid).

Lemma type_at_ret t m typ m' : type_at t m = Ret typ m' -> m' = m /\ types m !! t = Some typ.
Proof. unfold type_at, get, mbind, G_bind. destruct (types m !! t); [|done]. by intros [= -> ->]. Qed.

Lemma converter_columns_other columns acc m r m' k :
  converter_columns F query_types optimizedTypes columns acc m = Ret r m' -> k ∉ cc_name <$> columns -> r !! k = acc !! k.
Proof.
  revert acc m. induction columns as [|d ds IH]; intros acc m; cbn [converter_columns]; [by intros [= <- _]|].
  intros (typ & m1 & _ & (f & m2 & _ & H)%bind_ret_inv)%bind_ret_inv Hk. cbn in Hk. rewrite not_elem_of_cons in Hk.
  rewrite (IH _ _ H) by naive_solver. rewrite lookup_insert_ne; naive_solver.
Qed.

(** The converter has an entry for every column, with the converter that is
    resolved for the column's type. *)
Lemma converter_columns_lookup columns acc m r m' c w :
  Inv m -> converter_columns F query_types optimizedTypes columns acc m = Ret r m' ->
  c ∈ columns -> NoDup (cc_name <$> columns) -> has_row m (cc_typ c) w ->
  exists f m1 m2, ResolveTypeConverter F query_types optimizedTypes (w_oid w) m1 = Ret f m2 /\
    r !! cc_name c = Some (w_oid w, f).
Proof.
  revert acc m. induction columns as [|d ds IH]; intros acc m Hi Hr Hc Hnd Hw; [by apply elem_of_nil in Hc|].
  cbn [converter_columns] in Hr. apply NoDup_cons in Hnd as [Hd Hnd].
  apply bind_ret_inv in Hr as (typ & m1 & [-> Htyp]%type_at_ret & (f & m2 & Hf & H)%bind_ret_inv).
  apply elem_of_cons in Hc as [->|Hc].
  - destruct Hw as (typ' & Htyp' & Hrow). rewrite Htyp in Htyp'. injection Htyp' as <-. rewrite Hrow in *.
    exists f, m, m2. split; [done|]. rewrite (converter_columns_other _ _ _ _ _ _ H Hd). apply lookup_insert_eq.
  - destruct (ResolveTypeConverter_ok F query_types optimizedTypes _ _ _ _ Hi (sound _) Hf) as [Hi2 Hk2].
    eapply IH; eauto.
Qed.

Lemma composite_columns_same rows m r m' : composite_columns F rows m = Ret r m' -> m' = m.
Proof.
  revert r m'. induction rows as [|[ [ [name oid] md] nn] rows IH]; intros r m'; cbn [composite_columns]; [by intros [= _ <-]|].
  intros (t & m1 & Ht & H)%bind_ret_inv. unfold findType in Ht. injection Ht as <- <-.
  revert H. case_match; [|done]. by intros (cs & m2 & ->%IH & [= _ <-])%bind_ret_inv.
Qed.

Lemma CompositeColumns_ok t m columns m' :
  Inv m -> CompositeColumns F query_columns t m = Ret columns m' ->
  Inv m' /\ forall x w, has_row m x w -> has_row m' x w.
Proof.
  intros Hi (typ & m1 & [-> Ht]%type_at_ret & H)%bind_ret_inv. revert H. case_match; [|done].
  case_match; [by intros [= _ <-]|].
  intros (cs & m2 & Hcs & (u & m3 & Hu & [= _ <-])%bind_ret_inv)%bind_ret_inv.
  assert (m2 = m) as ->.
  { unfold resolveCompositeTypeColumns in Hcs. destruct (query_columns _); [done|]. by eapply composite_columns_same. }
  pose proof (update_type_safe m t (with_t_columns (Some cs)) Hi (fun _ => eq_refl)) as Hs. unfold safe in Hs.
  rewrite Hu in Hs. destruct Hs as (? & He & _). split; [done|]. apply (ext_row _ _ He).
Qed.

Lemma nil_column_never_converts entries fuel columns oid v k x dataType s r s' :
  (k, x) ∈ entries v -> columns !! k = Some (dataType, None) ->
  convert F query_types optimizedTypes entries fuel (CompositeOf columns) oid (DMap v) s <> Ret r s'.
Proof.
  intros Hin Hk. destruct fuel as [|fuel]; [done|]. cbn [convert].
  intros (r0 & s1 & H & _)%bind_ret_inv. revert H. generalize (∅ : gmap string dyn) as acc. revert s Hin.
  induction (entries v) as [|[k' x'] l IH]; intros s Hin acc; [by apply elem_of_nil in Hin|]. cbn.
  intros (y & s2 & Hy & H)%bind_ret_inv. apply elem_of_cons in Hin as [ [= -> ->]|Hin]; [|by eapply IH].
  by rewrite Hk in Hy.
Qed.

(** A composite type with a plain column (an integer, a text, a boolean: a
    core type without a converter of its own) can be registered, but none of its
    values can be emitted: the converter that was made for it calls the nil
    converter of that column, so a value that has the column is never converted. *)
Theorem composite_plain_column_fails entries t m c m' columns m1 col w v x fuel oid s r s' reg :
  Inv m -> newCompositeConverter F query_types query_columns optimizedTypes t m = Ret c m' ->
  CompositeColumns F query_columns t m = Ret columns m1 -> col ∈ columns -> NoDup (cc_name <$> columns) ->
  has_row m (cc_typ col) w -> coreType F (w_oid w) = Some reg -> r_converter reg = None ->
  (cc_name col, x) ∈ entries v ->
  convert F query_types optimizedTypes entries fuel c oid (DMap v) s <> Ret r s'.
Proof.
  intros Hi (cs & m2 & Hcs & (cm & m3 & Hcm & [= <- _])%bind_ret_inv)%bind_ret_inv Hcs' Hcol Hnd Hw Hreg Hconv Hin.
  rewrite Hcs in Hcs'. injection Hcs' as -> ->.
  destruct (CompositeColumns_ok t m columns m1 Hi Hcs) as [Hi1 Hk1].
  destruct (converter_columns_lookup _ _ _ _ _ _ _ Hi1 Hcm Hcol Hnd (Hk1 _ _ Hw)) as (f & n1 & n2 & Hf & Hl).
  unfold ResolveTypeConverter in Hf. rewrite Hreg, Hconv in Hf. injection Hf as <- _.
  by eapply nil_column_never_converts.
Qed.

(** A column of a type that is neither built in, nor known by name, nor an
    enum, an array or a composite type (a type that an extension brings, such as
    citext) does not give an error: it is taken for a composite type, and reading
    its columns panics. *)
Theorem unsupported_type_panics fuel oid m t m' typ :
  typeMap m !! oid = None -> ResolveDataType F query_types optimizedTypes oid m = Ret (Some t) m' ->
  types m' !! t = Some typ -> w_arrayType (t_row typ) = false -> t_schemaType typ = STRUCT ->
  w_recordType (t_row typ) = false ->
  lazilyRegisterTypeMap F query_types query_columns optimizedTypes depth (S fuel) oid m = Crash PanicExplicit.
Proof.
  intros Hm Hr Ht Ha Hs Hrec. cbn [lazilyRegisterTypeMap]. unfold lazilyRegisterTypeMap_, knownInTypeMap, gets.
  unfold mbind, G_bind at 1. rewrite Hm. cbn [bool_decide is_Some_dec]. unfold G_bind at 1. rewrite Hr. cbn [must mret G_ret].
  assert (Htype : type_at t m' = Ret typ m') by (unfold type_at, get, mbind, G_bind; by rewrite Ht).
  unfold G_bind at 1. cbn. unfold G_bind at 1. rewrite Htype, Ha, Hs. cbn [bool_decide].
  rewrite bool_decide_eq_true_2 by done.
  unfold newCompositeCodec, or_panic, CompositeColumns. unfold mbind, G_bind. by rewrite Htype, Hrec.
Qed.
End Unsupported.

(** ** A sample database *)

(** A composite type with an integer column, and a type that is not supported. *)
Definition int4_row : type_row := mkRow "pg_catalog" "int4" "b" 23 "N" false false 1007 0 0 (-1) [] ",".
Definition pair_row : type_row := mkRow "public" "pair" "c" 50000 "C" false true 50001 0 0 (-1) [] ",".
Definition citext_row : type_row := mkRow "public" "citext" "b" 50002 "S" false false 50003 0 0 (-1) [] ",".

Definition sample_types (oid : option Z) : string + list type_row :=
  inr (match oid with
       | None => [pair_row; int4_row; citext_row]
       | Some o => List.filter (fun w => w_oid w =? o) [pair_row; int4_row; citext_row]
       end).
Definition sample_columns (oid : Z) : string + list (string * Z * Z * bool) :=
  inr (if oid =? 50000 then [("a"%string, 23, -1, false)] else []).

Definition sample_optimized : gmap string typeRegistration :=
  match init_optimizedTypes sample_formats empty_heap with Ret o _ => o | _ => ∅ end.
Definition sample_heap : heap := run_heap (init_optimizedTypes sample_formats) empty_heap.
Definition sample_pgx : gmap Z pgxType := {[ 23 := mkPgx "int4" 23 (PgxCodec 23) ]}.

Definition state_of {A} (r : outcome typeManager A) : typeManager :=
  match r with Ret _ m | Err _ m => m | Crash _ => empty_manager empty_heap ∅ end.

Definition sample_manager : typeManager :=
  state_of (NewTypeManager sample_formats sample_types sample_optimized sample_heap sample_pgx).

Definition is_ret {S A} (r : outcome S A) : bool := match r with Ret _ _ => true | _ => false end.

Lemma ret_unit (r : outcome typeManager unit) : is_ret r = true -> r = Ret tt (state_of r).
Proof. destruct r as [ []| |]; done. Qed.

Lemma sample_initialized :
  NewTypeManager sample_formats sample_types sample_optimized sample_heap sample_pgx = Ret tt sample_manager.
Proof. apply ret_unit. vm_compute. reflexivity. Qed.

Lemma sample_Inv : Inv sample_manager.
Proof. by eapply (initialize_ok sample_formats sample_types sample_optimized), sample_initialized. Qed.

Lemma sample_answers oid : answers sample_types oid.
Proof.
  intros rows w Hr. unfold sample_types in Hr. assert (Hrows := inr_inj _ _ Hr). subst rows.
  intros Hw. apply list_elem_of_In, filter_In in Hw as [_ Ho]. by apply Z.eqb_eq.
Qed.

Lemma initialize_loads_types_witness : known_type sample_formats sample_manager 50002.
Proof.
  apply (proj2 (initialize_loads_types sample_formats sample_types sample_optimized sample_heap sample_pgx
    [pair_row; int4_row; citext_row] sample_manager eq_refl sample_initialized) citext_row); [set_solver|reflexivity].
Defined.

Lemma resolved_type_has_oid_witness :
  exists t m', ResolveDataType sample_formats sample_types sample_optimized 50000 sample_manager = Ret (Some t) m' /\
    has_oid m' t 50000.
Proof.
  destruct (ResolveDataType sample_formats sample_types sample_optimized 50000 sample_manager) as [r m'|e m'|c] eqn:E.
  - destruct r as [t|]; [|exfalso; revert E; vm_compute; discriminate]. exists t, m'. split; [done|].
    by apply (proj2 (resolved_type_has_oid sample_formats sample_types sample_optimized 50000 sample_manager (Some t) m'
      sample_Inv (sample_answers 50000) E)).
  - exfalso; revert E; vm_compute; discriminate.
  - exfalso; revert E; vm_compute; discriminate.
Defined.

Lemma unknown_type_is_nil_witness :
  lazilyRegisterTypeMap sample_formats sample_types sample_columns sample_optimized 4 3 60000 sample_manager
  = Crash PanicNilDereference.
Proof.
  destruct (unknown_type_is_nil sample_formats sample_types sample_optimized sample_columns 4 2 60000 sample_manager)
    as (m' & _ & _ & H); [reflexivity..|exact H].
Defined.

Lemma unsupported_type_panics_witness :
  lazilyRegisterTypeMap sample_formats sample_types sample_columns sample_optimized 4 3 50002 sample_manager
  = Crash PanicExplicit.
Proof.
  apply (unsupported_type_panics sample_formats sample_types sample_columns sample_optimized 4 2 50002 sample_manager
    3 sample_manager (mkType citext_row STRUCT None None None None None)); reflexivity.
Defined.

(** The converter of the pair, and a value of it. *)
Definition pair_state : outcome typeManager converter :=
  newCompositeConverter sample_formats sample_types sample_columns sample_optimized 1 sample_manager.
Definition pair_columns : outcome typeManager (list compositeColumn) :=
  CompositeColumns sample_formats sample_columns 1 sample_manager.

Lemma composite_plain_column_fails_witness :
  exists c, (match pair_state with Ret c' _ => Some c' | _ => None end) = Some c /\
    forall r s', convert sample_formats sample_types sample_optimized map_to_list 5 c 0
                   (DMap {[ "a"%string := DInt32 7 ]}) sample_manager <> Ret r s'.
Proof.
  destruct pair_state as [c m'|e m'|x] eqn:E; [|exfalso; revert E; vm_compute; discriminate..].
  exists c. split; [done|]. intros r s'.
  destruct pair_columns as [cols m1|e m1|x] eqn:Ec; [|exfalso; revert Ec; vm_compute; discriminate..].
  assert (Hcols : (match pair_columns with Ret l _ => l | _ => [] end) = [mkCompositeColumn "a" 2 (-1) true])
    by (vm_compute; reflexivity).
  rewrite Ec in Hcols. subst cols.
  apply (composite_plain_column_fails sample_formats sample_types sample_columns sample_optimized sample_answers
    map_to_list 1 sample_manager c m' [mkCompositeColumn "a" 2 (-1) true] m1 (mkCompositeColumn "a" 2 (-1) true)
    int4_row {[ "a"%string := DInt32 7 ]} (DInt32 7) 5 0 sample_manager r s' (core INT32 0 None)).
  - apply sample_Inv.
  - exact E.
  - exact Ec.
  - by apply list_elem_of_singleton.
  - apply NoDup_singleton.
  - assert (Ht : t_row <$> types sample_manager !! 2 = Some int4_row) by (vm_compute; reflexivity).
    destruct (types sample_manager !! 2) as [typ|] eqn:Et; [|done]. exists typ. split; [done|]. by injection Ht.
  - rewrite coreType_lookup by done. vm_compute. reflexivity.
  - reflexivity.
  - apply elem_of_map_to_list, lookup_singleton_eq.
Defined.

(** ** Tuples *)

Section Tuples.
Context (DecodeValue : Codec -> Z -> Z -> option bytes -> string + dyn).

(** What a column of a tuple says about a value: nothing for an unchanged value. *)
Definition column_value (d : tupleDecoder) (c : TupleDataColumn) : option (string + dyn) :=
  if tc_DataType c =? 110 then Some (inr DNil)
  else if tc_DataType c =? 116 then Some (decode_column DecodeValue d (tc_Data c) false)
  else if tc_DataType c =? 98 then Some (decode_column DecodeValue d (tc_Data c) true)
  else None.

Lemma run_decoder_value d c values values' :
  run_decoder DecodeValue d c values = inr values' ->
  match column_value d c with
  | Some (inr v) => values' = <[ td_name d := v ]> values
  | Some (inl _) => False
  | None => values' = values
  end.
Proof.
  unfold run_decoder, column_value.
  destruct (tc_DataType c =? 110) eqn:E1; [by intros [= <-]|].
  destruct (tc_DataType c =? 117) eqn:E2.
  { apply Z.eqb_eq in E2. rewrite E2. cbn. by intros [= <-]. }
  destruct (tc_DataType c =? 116); [destruct (decode_column _ _ _ _); [done|by intros [= <-] ]|].
  destruct (tc_DataType c =? 98); [destruct (decode_column _ _ _ _); [done|by intros [= <-] ]|].
  by intros [= <-].
Qed.

Lemma run_decoder_other d c values values' k :
  run_decoder DecodeValue d c values = inr values' -> k <> td_name d -> values' !! k = values !! k.
Proof.
  intros H Hk. pose proof (run_decoder_value _ _ _ _ H) as Hv. destruct (column_value d c) as [ [?|v]|]; subst; try done.
  by rewrite lookup_insert_ne.
Qed.

Lemma run_plan_other plan columns values values' k :
  run_plan DecodeValue plan columns values = inr (inr values') -> k ∉ td_name <$> plan -> values' !! k = values !! k.
Proof.
  revert columns values. induction plan as [|d plan IH]; intros columns values; cbn [run_plan]; [by intros [= <-]|].
  destruct columns as [|c columns]; [done|]. destruct (run_decoder _ _ _ _) as [e|v1] eqn:E; [done|].
  intros H Hk. cbn in Hk. rewrite not_elem_of_cons in Hk. rewrite (IH _ _ H) by naive_solver.
  eapply run_decoder_other; [done|naive_solver].
Qed.

Lemma run_plan_values plan columns values values' i d c :
  NoDup (td_name <$> plan) -> run_plan DecodeValue plan columns values = inr (inr values') ->
  plan !! i = Some d -> columns !! i = Some c ->
  match column_value d c with
  | Some (inr v) => values' !! td_name d = Some v
  | Some (inl _) => False
  | None => values' !! td_name d = values !! td_name d
  end.
Proof.
  revert plan columns values. induction i as [|i IH]; intros [|d' plan] [|c' columns] values Hnd H Hd Hc; try done;
    cbn in Hnd; apply NoDup_cons in Hnd as [Hd' Hnd]; cbn [run_plan] in H;
    (destruct (run_decoder _ _ _ _) as [e|v1] eqn:E; [done|]).
  - injection Hd as ->. injection Hc as ->. pose proof (run_decoder_value _ _ _ _ E) as Hv.
    rewrite (run_plan_other _ _ _ _ _ H Hd').
    destruct (column_value d c) as [ [?|v]|]; subst; [done|apply lookup_insert_eq|done].
  - specialize (IH plan columns v1 Hnd H Hd Hc).
    destruct (column_value d c) as [ [?|v]|]; [done|done|]. rewrite IH.
    eapply run_decoder_other; [done|]. intros Heq. apply Hd'. rewrite <- Heq.
    apply list_elem_of_fmap_2. by eapply list_elem_of_lookup_2.
Qed.

(** C23. A decoded row has exactly what its tuple says: every column of the plan
    whose datum is null is nil, one whose datum is text or binary is what the
    codec of its type decodes, an unchanged large value has no entry, and there
    are no other entries. *)
Theorem decoded_row_is_tuple plan columns values :
  NoDup (td_name <$> plan) -> Decode DecodeValue plan (Some columns) = inr (inr (Some values)) ->
  (forall i d c, plan !! i = Some d -> columns !! i = Some c ->
     match column_value d c with
     | Some (inr v) => values !! td_name d = Some v
     | Some (inl _) => False
     | None => values !! td_name d = None
     end) /\
  (forall k, k ∉ td_name <$> plan -> values !! k = None).
Proof.
  intros Hnd. unfold Decode. destruct (run_plan _ _ _ _) as [x|[e|v] ] eqn:E; cbn; try discriminate. intros [= <-]. split.
  - intros i d c Hd Hc. pose proof (run_plan_values _ _ _ _ _ _ _ Hnd E Hd Hc) as Hv.
    destruct (column_value d c) as [ [?|x]|]; [done|done|]. by rewrite Hv, lookup_empty.
  - intros k Hk. by rewrite (run_plan_other _ _ _ _ _ E Hk), lookup_empty.
Qed.

(** A tuple with fewer columns than the plan cannot be decoded. *)
Lemma short_tuple_panics plan columns values :
  (length columns < length plan)%nat -> Forall (fun c => tc_DataType c = 110) columns ->
  run_plan DecodeValue plan columns values = inl PanicIndexOutOfRange.
Proof.
  revert columns values. induction plan as [|d plan IH]; intros columns values Hl Hn; cbn in Hl; [lia|].
  destruct columns as [|c columns]; [done|]. apply Forall_cons in Hn as [Hc Hn]. cbn [run_plan]. unfold run_decoder.
  rewrite Hc. cbn. apply IH; [cbn in Hl; lia|done].
Qed.

Lemma cached_plan relationID columns m plan :
  CasCache.Get relationID (decoderPlanCache m) = Some plan -> GetOrPlanTupleDecoder relationID columns m = Ret plan m.
Proof. intros H. unfold GetOrPlanTupleDecoder, mbind, G_bind. cbn [get]. by rewrite H. Qed.

Lemma new_plan relationID columns m :
  CasCache.Get relationID (decoderPlanCache m) = None ->
  exists m', GetOrPlanTupleDecoder relationID columns m
    = Ret ((fun c => mkTupleDecoder (fst c) (snd c) (typeMap m !! snd c)) <$> columns) m' /\
    CasCache.Get relationID (decoderPlanCache m')
    = Some ((fun c => mkTupleDecoder (fst c) (snd c) (typeMap m !! snd c)) <$> columns).
Proof.
  intros H. unfold GetOrPlanTupleDecoder, mbind, G_bind. cbn [get planTupleDecoder]. rewrite H.
  unfold CasCache.apply. cbn [CasCache.attempt]. rewrite H. eexists. split; [reflexivity|]. cbn.
  destruct (decoderPlanCache m) as [c|]; cbn in *; [by rewrite lookup_union, H, lookup_singleton_eq|apply lookup_singleton_eq].
Qed.

(** The decoder of a relation is planned once and never again: after the
    columns of a relation have changed, its rows are still decoded with the plan
    of the old columns.  A column that was added does not get into any row, and
    when columns were dropped, a row of nulls is an index out of range. *)
Theorem stale_decoder_plan relationID old m m1 plan :
  CasCache.Get relationID (decoderPlanCache m) = None -> GetOrPlanTupleDecoder relationID old m = Ret plan m1 ->
  forall new tuple,
    GetOrPlanTupleDecoder relationID new m1 = Ret plan m1 /\
    (forall values m2 name, DecodeTuples DecodeValue relationID new (Some tuple) m1 = Ret (Some values) m2 ->
       name ∉ fst <$> old -> values !! name = None) /\
    ((length tuple < length old)%nat -> Forall (fun c => tc_DataType c = 110) tuple ->
       DecodeTuples DecodeValue relationID new (Some tuple) m1 = Crash PanicIndexOutOfRange).
Proof.
  intros Hn Hp new tuple. destruct (new_plan relationID old m Hn) as (m' & Hp' & Hc).
  rewrite Hp' in Hp. injection Hp as <- <-. set (plan := _ <$> old) in *.
  assert (Hnames : td_name <$> plan = fst <$> old) by (unfold plan; by rewrite <- list_fmap_compose).
  pose proof (cached_plan relationID new m' plan Hc) as Hsame. split; [done|].
  unfold DecodeTuples, mbind, G_bind. rewrite Hsame. unfold Decode. split.
  - intros values m2 name. destruct (run_plan _ _ _ _) as [x|[e|v] ] eqn:E; cbn; [done|done|]. intros [= <- <-] Hname.
    rewrite <- Hnames in Hname. by rewrite (run_plan_other _ _ _ _ _ E Hname), lookup_empty.
  - intros Hl Hnull. rewrite short_tuple_panics; [done| |done]. unfold plan. by rewrite length_fmap.
Qed.
End Tuples.

(** A codec that gives the length of the data. *)
Definition sample_decode (c : Codec) (oid format : Z) (src : option bytes) : string + dyn :=
  match src with None => inr DNil | Some d => inr (DInt32 (Z.of_nat (length d))) end.

Definition sample_plan : list tupleDecoder :=
  [mkTupleDecoder "a" 23 (Some (mkPgx "int4" 23 (PgxCodec 23))); mkTupleDecoder "b" 25 None; mkTupleDecoder "c" 25 None].
Definition sample_tuple : list TupleDataColumn :=
  [mkTupleColumn 116 (bytes_of "42"); mkTupleColumn 117 []; mkTupleColumn 110 []].

(** An integer, an unchanged value and a null. *)
Lemma decoded_row_is_tuple_witness :
  exists values, Decode sample_decode sample_plan (Some sample_tuple) = inr (inr (Some values)) /\
    values !! "a"%string = Some (DInt32 2) /\ values !! "b"%string = None /\ values !! "c"%string = Some DNil.
Proof.
  eexists. split; [reflexivity|].
  destruct (decoded_row_is_tuple sample_decode sample_plan sample_tuple
    (<[ "c"%string := DNil ]> (<[ "a"%string := DInt32 2 ]> ∅))) as [H _];
    [by apply (bool_decide_unpack _); vm_compute|reflexivity|].
  split; [exact (H 0%nat _ _ eq_refl eq_refl)|]. split; [exact (H 1%nat _ _ eq_refl eq_refl)|].
  exact (H 2%nat _ _ eq_refl eq_refl).
Defined.

(** A table that loses a column. *)
Lemma stale_decoder_plan_witness :
  exists plan m1,
    GetOrPlanTupleDecoder 7 [("a"%string, 23); ("b"%string, 25)] sample_manager = Ret plan m1 /\
    DecodeTuples sample_decode 7 [("a"%string, 23)] (Some [mkTupleColumn 110 []]) m1 = Crash PanicIndexOutOfRange.
Proof.
  destruct (GetOrPlanTupleDecoder 7 [("a"%string, 23); ("b"%string, 25)] sample_manager) as [plan m1|e m1|c] eqn:E;
    [|exfalso; revert E; vm_compute; discriminate..].
  exists plan, m1. split; [done|].
  apply (stale_decoder_plan sample_decode 7 [("a"%string, 23); ("b"%string, 25)] sample_manager m1 plan);
    [vm_compute; reflexivity|exact E|cbn; lia|by repeat constructor].
Defined.

(** ** Rows *)

Section RowProperties.
Context (DecodeValue : Codec -> Z -> Z -> option bytes -> string + dyn).

Lemma row_values_spec ds raw vs :
  row_values DecodeValue ds raw = inr (inr vs) ->
  Forall2 (fun p v => exists src, DecodeValue (fst (fst p)) (fd_DataTypeOID (snd (fst p))) (fd_Format (snd (fst p))) src = inr v /\ src = snd p)
    (zip ds raw) vs /\ length vs = length ds.
Proof.
  revert raw vs. induction ds as [|[codec field] ds IH]; intros raw vs; cbn [row_values]; [by intros [= <-]|].
  destruct raw as [|src raw]; [done|]. destruct (DecodeValue codec _ _ src) as [e|v] eqn:E; [done|].
  destruct (row_values _ ds raw) as [x|[e|rest] ] eqn:Er; cbn; try discriminate. intros [= <-].
  destruct (IH raw rest Er) as [Hf Hl]. split; [|cbn; by rewrite Hl]. constructor; [|done]. by exists src.
Qed.

(** A row decoder accepts what it was made for. *)
Lemma compatible_refl rd : compatible rd (rd_fields rd) = true.
Proof.
  unfold compatible. rewrite bool_decide_eq_true_2 by done. cbn.
  induction (rd_fields rd) as [|f fs IH]; cbn; [done|]. rewrite IH, andb_true_r.
  unfold same_field. by rewrite !Z.eqb_refl, String.eqb_refl.
Qed.

(** With rows of other fields, nothing is decoded and nothing is closed. *)
Lemma incompatible_rows {S} rd rows (sink : list dyn -> G S unit) s :
  compatible rd (rs_fields rows) = false ->
  DecodeRowsAndSink DecodeValue rd rows sink s = Err "incompatible rows instance provided" s.
Proof. intros H. unfold DecodeRowsAndSink, sink_rows. by rewrite H. Qed.

(** Every row of a query goes to the sink, decoded and in order. *)
Lemma rows_are_sunk {S} rd rows (decoded : list (list dyn)) (sink : list dyn -> G S unit) s :
  rs_fields rows = rd_fields rd -> rs_first_error rows = None -> rs_last_error rows = None ->
  Forall2 (fun raw vs => row_Decode DecodeValue rd raw = inr (inr vs)) (rs_rows rows) decoded ->
  DecodeRowsAndSink DecodeValue rd rows sink s = forM decoded sink s.
Proof.
  intros Hf He Hl Hd. unfold DecodeRowsAndSink, sink_rows. rewrite Hf, compatible_refl, He, Hl.
  assert (Hloop : forall s, forM (rs_rows rows) (fun raw => DecodeAndSink DecodeValue rd raw sink) s = forM decoded sink s).
  { induction Hd as [|raw vs raws vss Hraw Hd IH]; intros s'; [done|]. cbn [forM].
    unfold DecodeAndSink, values_of. rewrite Hraw. unfold mbind, G_bind. cbn.
    destruct (sink vs s') as [ [] s2| |]; [apply IH|done|done]. }
  unfold mbind, G_bind. rewrite Hloop. by destruct (forM decoded sink s) as [ []| |].
Qed.
End RowProperties.
