(* ===== verification/Codecs.v ===== *)
(** * Codecs: PostgreSQL types that the driver does not know

    spi/pgtypes: timetz.go, ltree.go, xml.go, geometry.go, geography.go and
    postgis_codec.go, enhanced_array_text_codec.go, boxarray_codec.go, and
    codecScan of decoderplan.go.

    A codec chooses a plan by the format of the data (text is 0, binary is 1) and
    the type of the target, and the plan reads or writes the value.  A nil slice of
    bytes is None.  Parameters are the parsing and formatting of times, JSON of
    strings, the geometry library (EWKB and GeoJSON), and the scan plan of an
    array's elements. *)

From Stdlib Require Import ZArith Lia.
From Stdlib Require Import Strings.Byte.
From stdpp Require Import base tactics option list numbers strings pretty.
From S2P Require Import Prelude Encoding Converters.

Local Open Scope Z_scope.

Definition TextFormatCode : Z := 0.
Definition BinaryFormatCode : Z := 1.

(** Every codec here supports both formats and prefers the binary one. *)
Definition FormatSupported (format : Z) : bool := (format =? TextFormatCode) || (format =? BinaryFormatCode).
Definition PreferredFormat : Z := BinaryFormatCode.

(** A plan by format, for a value or target of the codec's type ([fits]); None is
    a nil plan. *)
Definition plan {A} (binary text : A) (format : Z) (fits : bool) : option A :=
  if fits then
    if format =? BinaryFormatCode then Some binary else if format =? TextFormatCode then Some text else None
  else None.

(** codecScan: the driver's error for a missing plan. *)
Definition codecScan {V} (p : option (bytes -> crash + (string + V))) (oid format : Z) (src : bytes) :
    crash + (string + V) :=
  match p with
  | Some scan => scan src
  | None => inr (inl "PlanScan did not find a plan"%string)
  end.

(** *** Times with a zone *)

Module Timetz.

Record Timetz : Type := mkTimetz { Time : GoTime; Valid : bool }.

(** time.Time{} is the first of January of year 1. *)
Definition zero : Timetz := mkTimetz (mkGoTime (-62135596800 * nanosPerSecond) 0) false.

(** Formats of timetz.go: the zone is Z, or a number of hours and minutes. *)
Inductive layout : Set := format | secondFormat.

Section Plans.
Context (Format : layout -> GoTime -> string) (Parse : layout -> string -> string + GoTime).
Context (json_Marshal : string -> bytes) (json_Unmarshal : bytes -> string + option string).

(** The time of day in the time's zone, in microseconds, and its zone. *)
Definition encode_binary (ts : Timetz) (buf : bytes) : option bytes :=
  if Valid ts then
    let base := - (zone_offset (Time ts) * nanosPerSecond) in
    let micros := Z.rem (Z.quot (Sub (unix_nanos (Time ts)) base) 1000) microsPerDay in
    Some (buf ++ be_put 8 micros ++ be_put 4 (zone_offset (Time ts)))
  else None.

Definition encode_text (ts : Timetz) (buf : bytes) : option bytes :=
  if Valid ts then Some (buf ++ bytes_of (Format format (Time ts))) else None.

Definition PlanEncode (fmt : Z) (isTimetz : bool) : option (Timetz -> bytes -> option bytes) :=
  plan encode_binary encode_text fmt isTimetz.

Definition scan_binary (src : option bytes) : string + Timetz :=
  match src with
  | None => inr zero
  | Some d =>
      if Nat.eqb (length d) 12 then
        let micros := i64 (be_get (take 8 d)) in
        let offset := i32 (be_get (drop 8 d)) in
        let nanos := i64 (i64 (micros * 1000) + i64 (offset * nanosPerSecond)) in
        inr (mkTimetz (mkGoTime nanos 0) true)
      else inl ("invalid length for timetz: " ++ pretty (Z.of_nat (length d)))%string
  end.

(** From the first of January of year 0, which Parse gives, to that of 1970. *)
Definition AddDate1970 (t : GoTime) : GoTime := mkGoTime (unix_nanos t + 719528 * 86400 * nanosPerSecond) (zone_offset t).

Definition ParseTime (s : string) : string + GoTime :=
  if bool_decide (byte_of_Z 90 ∈ bytes_of s) then Parse format s else Parse secondFormat s.

(** [sbuf[len(sbuf)-3]] has to exist. *)
Definition scan_text (src : option bytes) : crash + (string + Timetz) :=
  match src with
  | None => inr (inr zero)
  | Some d =>
      match (if Nat.ltb (length d) 3 then None else d !! (length d - 3)%nat) with
      | None => inl PanicIndexOutOfRange
      | Some b =>
          let sbuf := if Z_of_byte b =? 58 then string_of d else (string_of d ++ ":00")%string in
          match ParseTime sbuf with
          | inl e => inr (inl e)
          | inr t => inr (inr (mkTimetz (mkGoTime (unix_nanos (AddDate1970 t)) 0) true))
          end
      end
  end.

Definition PlanScan (fmt : Z) (isScanner : bool) : option (bytes -> crash + (string + Timetz)) :=
  plan (fun d => inr (scan_binary (Some d))) (fun d => scan_text (Some d)) fmt isScanner.

Definition DecodeValue (oid fmt : Z) (src : option bytes) : crash + (string + option Timetz) :=
  match src with
  | None => inr (inr None)
  | Some d =>
      r ← codecScan (PlanScan fmt true) oid fmt d;
      match r with inl e => inr (inl e) | inr t => inr (inr (Some t)) end
  end.

Definition DecodeDatabaseSQLValue (oid fmt : Z) (src : option bytes) : crash + (string + option Timetz) :=
  match src with
  | None => inr (inr None)
  | Some d =>
      r ← codecScan (PlanScan fmt true) oid fmt d;
      match r with inl e => inr (inl e) | inr t => inr (inr (Some t)) end
  end.

(** Scan of a driver value. *)
Definition Scan (src : dyn) : crash + (string + Timetz) :=
  match src with
  | DNil => inr (inr zero)
  | DString s => scan_text (Some (bytes_of s))
  | DTime t => inr (inr (mkTimetz t true))
  | _ => inr (inl "cannot scan"%string)
  end.

Definition Value (ttz : Timetz) : dyn := if Valid ttz then DTime (Time ttz) else DNil.

Definition MarshalJSON (ttz : Timetz) : bytes :=
  if Valid ttz then json_Marshal (Format format (Time ttz)) else bytes_of "null".

Definition UnmarshalJSON (b : bytes) : string + Timetz :=
  match json_Unmarshal b with
  | inl e => inl e
  | inr None => inr zero
  | inr (Some s) => match ParseTime s with inl e => inl e | inr t => inr (mkTimetz t true) end
  end.
End Plans.
End Timetz.

(** *** Label trees and XML: texts with or without a version byte *)

Module Ltree.

Record Ltree : Type := mkLtree { Path : string; Valid : bool }.
Definition zero : Ltree := mkLtree "" false.

Definition encode_binary (l : Ltree) (buf : bytes) : option bytes :=
  if Valid l then Some (buf ++ byte_of_Z 1 :: bytes_of (Path l)) else None.
Definition encode_text (l : Ltree) (buf : bytes) : option bytes :=
  if Valid l then Some (buf ++ bytes_of (Path l)) else None.
Definition PlanEncode (fmt : Z) (isLtree : bool) : option (Ltree -> bytes -> option bytes) :=
  plan encode_binary encode_text fmt isLtree.

Definition scan_binary (src : option bytes) : string + Ltree :=
  match src with
  | None => inr zero
  | Some d =>
      match d with
      | version :: ((_ :: _) as path) =>
          if Z_of_byte version =? 1 then inr (mkLtree (string_of path) true)
          else inl ("unsupported version for ltree: " ++ pretty (Z_of_byte version))%string
      | _ => inl ("invalid length for ltree: " ++ pretty (Z.of_nat (length d)))%string
      end
  end.

Definition scan_text (src : option bytes) : string + Ltree :=
  match src with None => inr zero | Some d => inr (mkLtree (string_of d) true) end.

Definition PlanScan (fmt : Z) (isScanner : bool) : option (bytes -> crash + (string + Ltree)) :=
  plan (fun d => inr (scan_binary (Some d))) (fun d => inr (scan_text (Some d))) fmt isScanner.

Definition DecodeValue (oid fmt : Z) (src : option bytes) : crash + (string + option Ltree) :=
  match src with
  | None => inr (inr None)
  | Some d =>
      r ← codecScan (PlanScan fmt true) oid fmt d;
      match r with inl e => inr (inl e) | inr t => inr (inr (Some t)) end
  end.

Definition DecodeDatabaseSQLValue (oid fmt : Z) (src : option bytes) : crash + (string + option Ltree) :=
  match src with
  | None => inr (inr None)
  | Some d =>
      r ← codecScan (PlanScan fmt true) oid fmt d;
      match r with inl e => inr (inl e) | inr t => inr (inr (Some t)) end
  end.

Definition Scan (src : dyn) : string + Ltree :=
  match src with
  | DNil => inr zero
  | DString s => scan_text (Some (bytes_of s))
  | _ => inl "cannot scan"%string
  end.

Definition Value (l : Ltree) : dyn := if Valid l then DString (Path l) else DNil.

Section Json.
Context (json_Marshal : string -> bytes) (json_Unmarshal : bytes -> string + option string).

Definition MarshalJSON (l : Ltree) : bytes := if Valid l then json_Marshal (Path l) else bytes_of "null".
Definition UnmarshalJSON (b : bytes) : string + Ltree :=
  match json_Unmarshal b with
  | inl e => inl e
  | inr None => inr zero
  | inr (Some s) => inr (mkLtree s true)
  end.
End Json.
End Ltree.

Module Xml.

Record Xml : Type := mkXml { Text : string; Valid : bool }.
Definition zero : Xml := mkXml "" false.

Definition encode_binary (x : Xml) (buf : bytes) : option bytes :=
  if Valid x then Some (buf ++ bytes_of (Text x)) else None.
Definition encode_text (x : Xml) (buf : bytes) : option bytes :=
  if Valid x then Some (buf ++ bytes_of (Text x)) else None.
Definition PlanEncode (fmt : Z) (isXml : bool) : option (Xml -> bytes -> option bytes) :=
  plan encode_binary encode_text fmt isXml.

Definition scan_binary (src : option bytes) : string + Xml :=
  match src with
  | None => inr zero
  | Some d =>
      if Nat.ltb (length d) 2 then inl ("invalid length for xml: " ++ pretty (Z.of_nat (length d)))%string
      else inr (mkXml (string_of d) true)
  end.

Definition scan_text (src : option bytes) : string + Xml :=
  match src with None => inr zero | Some d => inr (mkXml (string_of d) true) end.

Definition PlanScan (fmt : Z) (isScanner : bool) : option (bytes -> crash + (string + Xml)) :=
  plan (fun d => inr (scan_binary (Some d))) (fun d => inr (scan_text (Some d))) fmt isScanner.

Definition DecodeValue (oid fmt : Z) (src : option bytes) : crash + (string + option Xml) :=
  match src with
  | None => inr (inr None)
  | Some d =>
      r ← codecScan (PlanScan fmt true) oid fmt d;
      match r with inl e => inr (inl e) | inr t => inr (inr (Some t)) end
  end.

Definition DecodeDatabaseSQLValue (oid fmt : Z) (src : option bytes) : crash + (string + option Xml) :=
  match src with
  | None => inr (inr None)
  | Some d =>
      r ← codecScan (PlanScan fmt true) oid fmt d;
      match r with inl e => inr (inl e) | inr t => inr (inr (Some t)) end
  end.

Definition Scan (src : dyn) : string + Xml :=
  match src with
  | DNil => inr zero
  | DString s => scan_text (Some (bytes_of s))
  | _ => inl "cannot scan"%string
  end.

Definition Value (x : Xml) : dyn := if Valid x then DString (Text x) else DNil.

Section Json.
Context (json_Marshal : string -> bytes) (json_Unmarshal : bytes -> string + option string).

Definition MarshalJSON (x : Xml) : bytes := if Valid x then json_Marshal (Text x) else bytes_of "null".
Definition UnmarshalJSON (b : bytes) : string + Xml :=
  match json_Unmarshal b with
  | inl e => inl e
  | inr None => inr zero
  | inr (Some s) => inr (mkXml s true)
  end.
End Json.
End Xml.

(** *** Geometries *)

(** hex.DecodeString: pairs of hexadecimal digits in either case. *)
Definition hex_digit (b : byte) : option Z :=
  let c := Z_of_byte b in
  if (48 <=? c) && (c <=? 57) then Some (c - 48)
  else if (97 <=? c) && (c <=? 102) then Some (c - 87)
  else if (65 <=? c) && (c <=? 70) then Some (c - 55)
  else None.

Fixpoint hex_DecodeString (d : bytes) : option bytes :=
  match d with
  | [] => Some []
  | [_] => None
  | a :: b :: d' =>
      x ← hex_digit a; y ← hex_digit b; rest ← hex_DecodeString d'; Some (byte_of_Z (x * 16 + y) :: rest)
  end.

Module PostGis.

(** pgtypes.Geometry and pgtypes.Geography: the geometry is a handle. *)
Record PostGisValue : Type := mkPostGis { value : Z; valid : bool }.
Definition zero : PostGisValue := mkPostGis 0 false.

Section Plans.
Context (ewkb_Marshal : Z -> string + bytes) (ewkb_Unmarshal : bytes -> string + Z).
Context (geojson_Marshal : Z -> string + bytes) (geojson_Unmarshal : bytes -> string + option Z).

Definition encode_binary (v : PostGisValue) (buf : bytes) : string + option bytes :=
  if valid v then match ewkb_Marshal (value v) with inl e => inl e | inr d => inr (Some (buf ++ d)) end
  else inr None.

Definition encode_text (v : PostGisValue) (buf : bytes) : string + option bytes :=
  if valid v then
    match ewkb_Marshal (value v) with inl e => inl e | inr d => inr (Some (buf ++ bytes_of (hex_EncodeToString d))) end
  else inr None.

Definition PlanEncode (fmt : Z) (isValue : bool) : option (PostGisValue -> bytes -> string + option bytes) :=
  plan encode_binary encode_text fmt isValue.

Definition scan_binary (src : option bytes) : string + PostGisValue :=
  match src with
  | None => inr zero
  | Some d =>
      match d with
      | version :: _ :: _ =>
          if Z_of_byte version =? 1
          then match ewkb_Unmarshal d with inl e => inl e | inr g => inr (mkPostGis g true) end
          else inl ("unsupported version for PostGIS: " ++ pretty (Z_of_byte version))%string
      | _ => inl ("invalid length for PostGIS: " ++ pretty (Z.of_nat (length d)))%string
      end
  end.

Definition scan_text (src : option bytes) : string + PostGisValue :=
  match src with
  | None => inr zero
  | Some d =>
      match hex_DecodeString d with
      | None => inl "encoding/hex: invalid"%string
      | Some b => match ewkb_Unmarshal b with inl e => inl e | inr g => inr (mkPostGis g true) end
      end
  end.

Definition PlanScan (fmt : Z) (isScanner : bool) : option (bytes -> crash + (string + PostGisValue)) :=
  plan (fun d => inr (scan_binary (Some d))) (fun d => inr (scan_text (Some d))) fmt isScanner.

Definition DecodeValue (oid fmt : Z) (src : option bytes) : crash + (string + option PostGisValue) :=
  match src with
  | None => inr (inr None)
  | Some d =>
      r ← codecScan (PlanScan fmt true) oid fmt d;
      match r with inl e => inr (inl e) | inr t => inr (inr (Some t)) end
  end.

Definition DecodeDatabaseSQLValue (oid fmt : Z) (src : option bytes) : crash + (string + option PostGisValue) :=
  match src with
  | None => inr (inr None)
  | Some d =>
      r ← codecScan (PlanScan fmt true) oid fmt d;
      match r with inl e => inr (inl e) | inr t => inr (inr (Some t)) end
  end.

(** Scan of a driver value.  Both types use the plan of geographies, whose first
    step asserts that the target is a geography. *)
Definition Scan (isGeography : bool) (src : dyn) : crash + (string + PostGisValue) :=
  match src with
  | DNil => inr (inr zero)
  | DString s => if isGeography then inr (scan_text (Some (bytes_of s))) else inl PanicTypeAssertion
  | _ => inr (inl "cannot scan"%string)
  end.

Definition MarshalJSON (v : PostGisValue) : string + bytes :=
  if valid v then geojson_Marshal (value v) else inr (bytes_of "null").

(** The driver's value of a geography is its geometry (a handle), that of a geometry
    the bytes of its JSON. *)
Definition Geography_Value (v : PostGisValue) : option Z := if valid v then Some (value v) else None.
Definition Geometry_Value (v : PostGisValue) : string + bytes := MarshalJSON v.

Definition UnmarshalJSON (b : bytes) : string + PostGisValue :=
  match geojson_Unmarshal b with
  | inl e => inl e
  | inr None => inr zero
  | inr (Some g) => inr (mkPostGis g true)
  end.
End Plans.
End PostGis.

(** *** Arrays with another delimiter *)

(** strings.Split with a separator of one byte. *)
Fixpoint Split (sep : byte) (s : bytes) : list bytes :=
  match s with
  | [] => [ [] ]
  | b :: s' =>
      if decide (b = sep) then [] :: Split sep s'
      else match Split sep s' with
           | x :: l => (b :: x) :: l
           | [] => [ [b] ]
           end
  end.

Module Arrays.
Section Scan.
Context {V : Type} (scan : bytes -> string + V).

Fixpoint scan_elements (l : list bytes) : string + list V :=
  match l with
  | [] => inr []
  | e :: l' =>
      match scan e with
      | inl x => inl x
      | inr v => match scan_elements l' with inl x => inl x | inr vs => inr (v :: vs) end
      end
  end.

(** [src[1:len(src)-1]], split and scanned. *)
Definition Scan (delimiter : byte) (src : bytes) : crash + (string + list V) :=
  if Nat.ltb (length src) 2 then inl PanicIndexOutOfRange
  else inr (scan_elements (Split delimiter (take (length src - 2) (drop 1 src)))).

(** BoxArrayCodec: the delimiter is a semicolon. *)
Definition Box_Scan (src : bytes) : crash + (string + list V) := Scan (byte_of_Z 59) src.
End Scan.
End Arrays.

(** ** Properties *)

(** Joining with the delimiter. *)
Fixpoint join_bytes (sep : byte) (l : list bytes) : bytes :=
  match l with
  | [] => []
  | [e] => e
  | e :: l' => e ++ sep :: join_bytes sep l'
  end.

Lemma Split_none sep e : sep ∉ e -> Split sep e = [e].
Proof.
  induction e as [|b e IH]; intros He; cbn; [done|]. rewrite not_elem_of_cons in He.
  rewrite decide_False by (intros ->; naive_solver). by rewrite IH by naive_solver.
Qed.

Lemma Split_app sep e s : sep ∉ e -> Split sep (e ++ sep :: s) = e :: Split sep s.
Proof.
  induction e as [|b e IH]; intros He; cbn; [by rewrite decide_True|]. rewrite not_elem_of_cons in He.
  rewrite decide_False by (intros ->; naive_solver). by rewrite IH by naive_solver.
Qed.

Lemma Split_join sep l : l <> [] -> Forall (fun e => sep ∉ e) l -> Split sep (join_bytes sep l) = l.
Proof.
  intros Hne Hl. induction Hl as [|e l He Hl IH]; [done|]. destruct l as [|e' l]; [by apply Split_none|].
  change (join_bytes sep (e :: e' :: l)) with (e ++ sep :: join_bytes sep (e' :: l)).
  rewrite Split_app by done. by rewrite IH.
Qed.

Definition braces (s : bytes) : bytes := byte_of_Z 123 :: s ++ [byte_of_Z 125].

Lemma inner_braces s : take (length (braces s) - 2) (drop 1 (braces s)) = s.
Proof.
  unfold braces. rewrite skipn_cons, drop_0. cbn [length]. rewrite length_app.
  apply take_app_length'. cbn. lia.
Qed.

Lemma scan_elements_mapM {V} (scan : bytes -> string + V) l vs :
  Forall2 (fun e v => scan e = inr v) l vs -> Arrays.scan_elements scan l = inr vs.
Proof. induction 1 as [|e v l vs He Hl IH]; cbn; [done|]. by rewrite He, IH. Qed.

(** An array text is read element by element, when it has elements and no element
    contains the delimiter. *)
Lemma array_text_elements {V} (scan : bytes -> string + V) sep l vs :
  l <> [] -> Forall (fun e => sep ∉ e) l -> Forall2 (fun e v => scan e = inr v) l vs ->
  Arrays.Scan scan sep (braces (join_bytes sep l)) = inr (inr vs).
Proof.
  intros Hne Hsep Hscan. unfold Arrays.Scan.
  assert (Hlen : Nat.ltb (length (braces (join_bytes sep l))) 2 = false).
  { apply Nat.ltb_ge. unfold braces. cbn. rewrite length_app. cbn. lia. }
  by rewrite Hlen, inner_braces, Split_join, (scan_elements_mapM scan l vs) by done.
Qed.

(** The empty array is read as an array of one empty element. *)
Lemma empty_array_text {V} (scan : bytes -> string + V) sep e :
  scan [] = inl e -> Arrays.Scan scan sep (braces []) = inr (inl e).
Proof. intros He. unfold Arrays.Scan. cbn. by rewrite He. Qed.

(** Labels in binary form are read back, unless the path is empty. *)
Lemma ltree_binary_roundtrip p :
  Ltree.scan_binary (Ltree.encode_binary (Ltree.mkLtree p true) []) =
  if decide (p = EmptyString) then inl ("invalid length for ltree: 1")%string else inr (Ltree.mkLtree p true).
Proof.
  unfold Ltree.encode_binary, Ltree.scan_binary. cbn [Ltree.Valid Ltree.Path app].
  destruct p as [|a p]; [done|]. cbn. f_equal. f_equal. apply (String.string_of_list_byte_of_string (String a p)).
Qed.

Lemma hex_digit_char z : 0 <= z < 16 -> hex_digit (hex_char z) = Some z.
Proof.
  intros Hz. assert (H : forall n, (n < 16)%nat -> hex_digit (hex_char (Z.of_nat n)) = Some (Z.of_nat n)).
  { intros n Hn. do 16 (destruct n as [|n]; [reflexivity|]). lia. }
  rewrite <- (Z2Nat.id z) by lia. apply H. lia.
Qed.

Lemma hex_pairs_decode d : hex_DecodeString (concat (hex_pair <$> d)) = Some d.
Proof.
  induction d as [|b d IH]; [done|]. cbn. pose proof (Z_of_byte_bound b) as Hb.
  rewrite !hex_digit_char; [|split; [apply Z.div_pos; lia|apply Z.div_lt_upper_bound; lia]|apply Z.mod_pos_bound; lia].
  cbn. rewrite IH. cbn. f_equal. f_equal.
  replace (Z_of_byte b / 16 * 16 + Z_of_byte b mod 16) with (Z_of_byte b) by (pose proof (Z.div_mod (Z_of_byte b) 16); lia).
  apply byte_of_Z_of_byte.
Qed.

(** Bytes in hexadecimal text are read back. *)
Lemma hex_roundtrip d : hex_DecodeString (bytes_of (hex_EncodeToString d)) = Some d.
Proof. unfold hex_EncodeToString. rewrite String.list_byte_of_string_of_list_byte. apply hex_pairs_decode. Qed.

Section PostGisProperties.
Context (ewkb_Marshal : Z -> string + bytes) (ewkb_Unmarshal : bytes -> string + Z).
(** The geometry library reads what it writes; big-endian data starts with 0. *)
Context (ewkb_roundtrip : forall g d, ewkb_Marshal g = inr d -> ewkb_Unmarshal d = inr g).
Context (ewkb_big_endian : forall g d, ewkb_Marshal g = inr d -> exists b d', d = byte_of_Z 0 :: b :: d').

Lemma postgis_text_roundtrip g d :
  PostGis.encode_text ewkb_Marshal (PostGis.mkPostGis g true) [] = inr (Some d) ->
  PostGis.scan_text ewkb_Unmarshal (Some d) = inr (PostGis.mkPostGis g true).
Proof.
  unfold PostGis.encode_text, PostGis.scan_text. cbn. destruct (ewkb_Marshal g) as [e|b] eqn:E; [done|]. intros [= <-].
  by rewrite hex_roundtrip, (ewkb_roundtrip g b E).
Qed.

(** What the binary encoder writes, the binary scan does not read: it takes the
    byte order, which the encoder writes as 0, for a version that has to be 1. *)
Lemma postgis_binary_unreadable g d :
  PostGis.encode_binary ewkb_Marshal (PostGis.mkPostGis g true) [] = inr (Some d) ->
  PostGis.scan_binary ewkb_Unmarshal (Some d) = inl "unsupported version for PostGIS: 0"%string.
Proof.
  unfold PostGis.encode_binary, PostGis.scan_binary. cbn. destruct (ewkb_Marshal g) as [x|b] eqn:E; [done|]. intros [= <-].
  by destruct (ewkb_big_endian g b E) as (b1 & d' & ->).
Qed.
End PostGisProperties.

(** *** Times with a zone *)

(** What the database sends: the time of day in microseconds, and the zone in
    seconds west of Greenwich. *)
Definition timetz_wire (micros west : Z) : bytes := be_put 8 micros ++ be_put 4 west.

Lemma wire_scan micros west :
  in_s 64 (micros * 1000) -> in_s 32 west -> in_s 64 (micros * 1000 + west * nanosPerSecond) ->
  Timetz.scan_binary (Some (timetz_wire micros west))
  = inr (Timetz.mkTimetz (mkGoTime (micros * 1000 + west * nanosPerSecond) 0) true).
Proof.
  intros Hm Hw Ht. unfold Timetz.scan_binary, timetz_wire.
  assert (Hlen : length (be_put 8 micros ++ be_put 4 west) = 12%nat) by (by rewrite length_app, !length_be_put).
  rewrite Hlen. cbn [Nat.eqb].
  rewrite take_app_length', drop_app_length' by (by rewrite length_be_put). rewrite !be_get_put.
  assert (Hm' : in_s 64 micros) by (unfold in_s in *; lia).
  assert (Hw' : in_s 64 (west * nanosPerSecond)) by (unfold in_s, nanosPerSecond in *; lia).
  change (8 * Z.of_nat 8) with 64. change (8 * Z.of_nat 4) with 32.
  rewrite (wraps_roundtrip 64 micros), (wraps_roundtrip 32 west) by (done || lia).
  by rewrite (wraps_small 64 (micros * 1000)), (wraps_small 64 (west * nanosPerSecond)), (wraps_small 64) by (done || lia).
Qed.

Lemma floor_micros z : 1000 * z / 1000 = z.
Proof. rewrite Z.mul_comm. by apply Z.div_mul. Qed.

(** A time with a zone is emitted as the number of hours, minutes and seconds
    of its UTC time, counted from midnight of its own day and not of the UTC day:
    the text is that of the microseconds plus the zone, which is a time of day
    only if the UTC time is on the same day.  A time after midnight east of
    Greenwich gives a text with negative numbers, a late time west of it one with
    24 hours or more. *)
Theorem timetz_text oid micros west :
  0 <= micros <= 86400000000 -> Z.abs west <= 57600 ->
  exists t, Timetz.scan_binary (Some (timetz_wire micros west)) = inr (Timetz.mkTimetz t true) /\
    time2text oid (DTimetz t true) = text (micros_text (micros + west * 1000000)).
Proof.
  intros Hm Hw. eexists. split; [apply wire_scan; unfold in_s, nanosPerSecond; lia|].
  unfold time2text. cbn [unix_nanos]. unfold nanosPerSecond.
  replace (micros * 1000 + west * 1000000000) with (1000 * (micros + west * 1000000)) by lia.
  rewrite floor_micros. by rewrite (wraps_small 64) by (unfold in_s; lia).
Qed.

(** 00:30:00+02 and 23:00:00-05. *)
Lemma timetz_text_witness :
  (exists t, Timetz.scan_binary (Some (timetz_wire 1800000000 (-7200))) = inr (Timetz.mkTimetz t true) /\
     time2text 1266 (DTimetz t true) = text "-1:-30:00.000000") /\
  (exists t, Timetz.scan_binary (Some (timetz_wire 82800000000 18000)) = inr (Timetz.mkTimetz t true) /\
     time2text 1266 (DTimetz t true) = text "28:00:00.000000").
Proof.
  split; [destruct (timetz_text 1266 1800000000 (-7200)) as (t & Ht & Htext)
         |destruct (timetz_text 1266 82800000000 18000) as (t & Ht & Htext)]; try lia;
    exists t; (split; [exact Ht|]); rewrite Htext; reflexivity.
Defined.

(** The encoder writes the zone east of Greenwich where the decoder, like the
    database, expects it west: a time that goes through both moves by twice its
    zone. *)
Lemma timetz_zone_doubled micros east :
  0 <= micros < 86400000000 -> Z.abs east <= 57600 ->
  let t := mkGoTime (micros * 1000 - east * nanosPerSecond) east in
  exists d, Timetz.encode_binary (Timetz.mkTimetz t true) [] = Some d /\
    Timetz.scan_binary (Some d)
    = inr (Timetz.mkTimetz (mkGoTime (unix_nanos t + 2 * east * nanosPerSecond) 0) true).
Proof.
  intros Hm He t. eexists. split; [reflexivity|]. cbn [app Timetz.Time zone_offset unix_nanos t].
  unfold Sub. rewrite saturate_id by (unfold in_s, nanosPerSecond; lia).
  replace (micros * 1000 - east * nanosPerSecond - - (east * nanosPerSecond)) with (micros * 1000) by lia.
  rewrite Z.quot_mul, Z.rem_small by (unfold microsPerDay, microsPerHour; lia).
  pose proof (wire_scan micros east) as Hw. unfold timetz_wire in Hw. rewrite Hw by (unfold in_s, nanosPerSecond; lia).
  do 3 f_equal. lia.
Qed.
