(* ===== verification/ArrayCodecs.v ===== *)
(** * ArrayCodecs: arrays with their own delimiter

    spi/pgtypes: enhanced_array_text_codec.go and boxarray_codec.go, the codecs of
    arrays around the array codec of the driver.  In text format they take the array
    apart themselves (Codecs.v), everything else is left to the driver.

    The driver is a parameter: its array codec is a [Codec], like the codecs of the
    repository, and its map of types is a [Map], which knows the registered types and
    finds the plans for them.  Values of elements are of a type [V]; the target of a scan
    is a slice of them or anything else. *)

From Stdlib Require Import ZArith Lia.
From Stdlib Require Import Strings.Byte.
From stdpp Require Import base tactics option list numbers strings.
From S2P Require Import Prelude Encoding Converters Codecs.

Local Open Scope Z_scope.

Definition BoxOID : Z := 603.
Definition BoxArrayOID : Z := 1020.

Section Arrays.
Context {V : Type}.

Inductive target : Set := SliceTarget | OtherTarget.

Definition scan_plan : Type := target -> bytes -> crash + (string + list V).
Definition encode_plan : Type := list V -> bytes -> string + option bytes.

(** pgtype.Codec *)
Record Codec : Type := mkCodec {
  FormatSupported : Z -> bool;
  PreferredFormat : Z;
  PlanEncode : Z -> Z -> list V -> option encode_plan;
  PlanScan : Z -> Z -> target -> option scan_plan;
  DecodeDatabaseSQLValue : Z -> Z -> option bytes -> crash + (string + option (list V));
  DecodeValue : Z -> Z -> option bytes -> crash + (string + option (list V));
}.

(** pgtype.Map: whether a type is registered, the driver's codec for arrays of it, the
    plan for an element, and the plan for a slice, which is never nil. *)
Record Map : Type := mkMap {
  TypeForOID : Z -> bool;
  ArrayCodec : Z -> Codec;
  element_plan : Z -> Z -> bytes -> string + V;
  slice_plan : Z -> Z -> scan_plan;
}.

(** The scan of either codec: the target has to be a slice, then element by element. *)
Definition text_plan (scan : bytes -> string + V) (delimiter : byte) : scan_plan := fun dst src =>
  match dst with
  | SliceTarget => Arrays.Scan scan delimiter src
  | OtherTarget => inl PanicTypeAssertion
  end.

(** What DecodeValue makes of the plan of the map. *)
Definition decode_slice (m : Map) (oid format : Z) (src : bytes) : crash + (string + option (list V)) :=
  r ← slice_plan m oid format SliceTarget src;
  match r with inl e => inr (inl e) | inr l => inr (inr (Some l)) end.

(** ** EnhancedArrayTextCodec *)

Record EnhancedArrayTextCodec : Type := mkEnhanced {
  PgxArrayCodec : Codec;
  oid : Z;
  oidElem : Z;
  delimiter : byte;
  cachedScanPlan : option (bytes -> string + V);
}.

(** The type of an array: its oid, that of its elements, and the delimiter. *)
Definition EnhancedArrayTextCodecFactory (typeMap : Map) (typ_oid typ_oidElement : Z) (typ_delimiter : byte) :
    option EnhancedArrayTextCodec :=
  if TypeForOID typeMap typ_oidElement then
    Some (mkEnhanced (ArrayCodec typeMap typ_oidElement) typ_oid typ_oidElement typ_delimiter
            (Some (element_plan typeMap typ_oidElement TextFormatCode)))
  else None.

Definition Enhanced_FormatSupported (c : EnhancedArrayTextCodec) (format : Z) : bool :=
  if format =? TextFormatCode then true else FormatSupported (PgxArrayCodec c) format.

Definition Enhanced_PreferredFormat (c : EnhancedArrayTextCodec) : Z := PreferredFormat (PgxArrayCodec c).

Definition Enhanced_PlanEncode (c : EnhancedArrayTextCodec) : Z -> Z -> list V -> option encode_plan :=
  PlanEncode (PgxArrayCodec c).

(** The plan of the elements that was found when the codec was made, or one of the map. *)
Definition Enhanced_Scan (c : EnhancedArrayTextCodec) (m : Map) : scan_plan :=
  text_plan (default (element_plan m (oidElem c) TextFormatCode) (cachedScanPlan c)) (delimiter c).

Definition Enhanced_PlanScan (c : EnhancedArrayTextCodec) (m : Map) (oid' format : Z) (dst : target) : option scan_plan :=
  if (oid' =? oid c) && (format =? TextFormatCode) then Some (Enhanced_Scan c m)
  else PlanScan (PgxArrayCodec c) oid' format dst.

Definition Enhanced_DecodeDatabaseSQLValue (c : EnhancedArrayTextCodec) :
    Z -> Z -> option bytes -> crash + (string + option (list V)) := DecodeDatabaseSQLValue (PgxArrayCodec c).

Definition Enhanced_DecodeValue (c : EnhancedArrayTextCodec) (m : Map) (oid' format : Z) (src : option bytes) :
    crash + (string + option (list V)) :=
  match src with
  | None => inr (inr None)
  | Some d => if format =? TextFormatCode then decode_slice m oid' format d else DecodeValue (PgxArrayCodec c) oid' format src
  end.

(** ** BoxArrayCodec *)

Definition Box_FormatSupported (pgx : Codec) (format : Z) : bool :=
  if format =? TextFormatCode then true else FormatSupported pgx format.

Definition Box_PreferredFormat (pgx : Codec) : Z := PreferredFormat pgx.

Definition Box_PlanEncode (pgx : Codec) : Z -> Z -> list V -> option encode_plan := PlanEncode pgx.

(** The delimiter of boxes is a semicolon; [box] is the plan of the driver's box codec,
    if it has one for text. *)
Definition Box_Scan (box : option (bytes -> string + V)) (m : Map) : scan_plan :=
  text_plan (default (element_plan m BoxOID TextFormatCode) box) (byte_of_Z 59).

Definition Box_PlanScan (box : option (bytes -> string + V)) (pgx : Codec) (m : Map) (oid' format : Z) (dst : target) :
    option scan_plan :=
  if (oid' =? BoxArrayOID) && (format =? TextFormatCode) then Some (Box_Scan box m) else PlanScan pgx oid' format dst.

Definition Box_DecodeDatabaseSQLValue (pgx : Codec) : Z -> Z -> option bytes -> crash + (string + option (list V)) :=
  DecodeDatabaseSQLValue pgx.

Definition Box_DecodeValue (pgx : Codec) (m : Map) (oid' format : Z) (src : option bytes) :
    crash + (string + option (list V)) :=
  match src with
  | None => inr (inr None)
  | Some d => if format =? TextFormatCode then decode_slice m oid' format d else DecodeValue pgx oid' format src
  end.

(** The codecs as the driver sees them. *)
Definition enhanced_codec (c : EnhancedArrayTextCodec) (m : Map) : Codec :=
  mkCodec (Enhanced_FormatSupported c) (Enhanced_PreferredFormat c) (Enhanced_PlanEncode c) (Enhanced_PlanScan c m)
    (Enhanced_DecodeDatabaseSQLValue c) (Enhanced_DecodeValue c m).

Definition box_codec (box : option (bytes -> string + V)) (pgx : Codec) (m : Map) : Codec :=
  mkCodec (Box_FormatSupported pgx) (Box_PreferredFormat pgx) (Box_PlanEncode pgx) (Box_PlanScan box pgx m)
    (Box_DecodeDatabaseSQLValue pgx) (Box_DecodeValue pgx m).

(** ** Properties *)

(** The driver asks the codec that is registered for a type, in a format that it
    supports. *)
Definition registered (m : Map) (oid : Z) (c : Codec) : Prop :=
  forall format p, FormatSupported c format = true -> PlanScan c oid format SliceTarget = Some p -> slice_plan m oid format = p.

(** Text is supported even if the driver's codec does not. *)
Lemma enhanced_text_plan c m : registered m (oid c) (enhanced_codec c m) ->
  slice_plan m (oid c) TextFormatCode = Enhanced_Scan c m.
Proof.
  intros Hr. apply Hr; [done|]. cbn. unfold Enhanced_PlanScan. by rewrite Z.eqb_refl.
Qed.

Lemma box_text_plan box pgx m : registered m BoxArrayOID (box_codec box pgx m) ->
  slice_plan m BoxArrayOID TextFormatCode = Box_Scan box m.
Proof. intros Hr. by apply Hr. Qed.

(** In binary format both are the driver's codec. *)
Lemma array_codecs_binary c box pgx m oid' src :
  DecodeValue (enhanced_codec c m) oid' BinaryFormatCode (Some src) = DecodeValue (PgxArrayCodec c) oid' BinaryFormatCode (Some src) /\
  DecodeValue (box_codec box pgx m) oid' BinaryFormatCode (Some src) = DecodeValue pgx oid' BinaryFormatCode (Some src) /\
  forall dst, PlanScan (enhanced_codec c m) oid' BinaryFormatCode dst = PlanScan (PgxArrayCodec c) oid' BinaryFormatCode dst.
Proof. split; [done|]. split; [done|]. intros dst. cbn. unfold Enhanced_PlanScan. by rewrite andb_false_r. Qed.

(** The plan does not look at its target before it asserts its type. *)
Lemma array_plan_other_target c m src p :
  PlanScan (enhanced_codec c m) (oid c) TextFormatCode OtherTarget = Some p -> p OtherTarget src = inl PanicTypeAssertion.
Proof. cbn. unfold Enhanced_PlanScan. rewrite Z.eqb_refl. by intros [= <-]. Qed.

(** An array of the type that the codec was made for: its elements are scanned with the
    plan of the element type. *)
Lemma enhanced_array_elements m typ_oid typ_oidElement sep c l vs :
  EnhancedArrayTextCodecFactory m typ_oid typ_oidElement sep = Some c -> registered m typ_oid (enhanced_codec c m) ->
  l <> [] -> Forall (fun e => sep ∉ e) l -> Forall2 (fun e v => element_plan m typ_oidElement TextFormatCode e = inr v) l vs ->
  DecodeValue (enhanced_codec c m) typ_oid TextFormatCode (Some (braces (join_bytes sep l))) = inr (inr (Some vs)).
Proof.
  unfold EnhancedArrayTextCodecFactory. destruct (TypeForOID m typ_oidElement); [|done]. intros [= <-] Hr Hne Hsep Hscan.
  apply (enhanced_text_plan (mkEnhanced _ _ _ _ _)) in Hr. cbn [oid] in Hr. cbn. unfold decode_slice. rewrite Hr.
  unfold Enhanced_Scan, text_plan. cbn. by rewrite (array_text_elements _ sep l vs).
Qed.
End Arrays.

Arguments Codec : clear implicits.
Arguments Map : clear implicits.

(** ** Arrays of geometries *)

Section Geometries.
Context (ewkb_Marshal : Z -> string + bytes) (ewkb_Unmarshal : bytes -> string + Z).
(** The geometry library reads what it writes. *)
Context (ewkb_roundtrip : forall g d, ewkb_Marshal g = inr d -> ewkb_Unmarshal d = inr g).

Lemma hex_text_no_delimiter sep d :
  (Z_of_byte sep < 48 \/ 57 < Z_of_byte sep) -> (Z_of_byte sep < 97 \/ 102 < Z_of_byte sep) ->
  sep ∉ bytes_of (hex_EncodeToString d).
Proof.
  intros H1 H2. unfold hex_EncodeToString. rewrite String.list_byte_of_string_of_list_byte.
  assert (Hc : forall z, 0 <= z < 16 -> sep <> hex_char z).
  { intros z Hz ->. unfold hex_char in *. rewrite Z_of_byte_of_Z, Z.mod_small in * by (destruct (Z.ltb_spec z 10); lia).
    destruct (Z.ltb_spec z 10); lia. }
  intros Hin. apply list_elem_of_In, in_concat in Hin as (p & Hp & Hs). apply list_elem_of_In, list_elem_of_fmap in Hp as (b & -> & _).
  pose proof (Z_of_byte_bound b) as Hb.
  destruct Hs as [Hs|[Hs|[]]]; eapply Hc; try (symmetry; exact Hs);
    [split; [apply Z.div_pos; lia|apply Z.div_lt_upper_bound; lia]|apply Z.mod_pos_bound; lia].
Qed.

(** Arrays of geometries in text form are read back: the codec that the factory makes
    for the type of the array, registered in the driver's map beside the codec of the
    elements, decodes the text of any geometries, joined by the type's delimiter, to these
    geometries, for every delimiter that is no hexadecimal digit. *)
Lemma geometry_array_roundtrip (m : Map PostGis.PostGisValue) typ_oid typ_oidElement sep c gs texts :
  EnhancedArrayTextCodecFactory m typ_oid typ_oidElement sep = Some c -> registered m typ_oid (enhanced_codec c m) ->
  (forall d, element_plan m typ_oidElement TextFormatCode d = PostGis.scan_text ewkb_Unmarshal (Some d)) ->
  (Z_of_byte sep < 48 \/ 57 < Z_of_byte sep) -> (Z_of_byte sep < 97 \/ 102 < Z_of_byte sep) -> gs <> [] ->
  Forall2 (fun g t => PostGis.encode_text ewkb_Marshal (PostGis.mkPostGis g true) [] = inr (Some t)) gs texts ->
  DecodeValue (enhanced_codec c m) typ_oid TextFormatCode (Some (braces (join_bytes sep texts))) =
    inr (inr (Some ((fun g => PostGis.mkPostGis g true) <$> gs))).
Proof.
  intros Hc Hr He H1 H2 Hne Ht. apply (enhanced_array_elements m typ_oid typ_oidElement); [done|done| | |].
  - intros ->. by apply Forall2_nil_inv_r in Ht as ->.
  - clear Hne. induction Ht as [|g t gs ts Hg _ IH]; constructor; [|done]. unfold PostGis.encode_text in Hg. cbn in Hg.
    destruct (ewkb_Marshal g); [done|]. injection Hg as <-. by apply hex_text_no_delimiter.
  - clear Hne. induction Ht as [|g t gs ts Hg _ IH]; constructor; [|done]. rewrite He.
    by apply (postgis_text_roundtrip ewkb_Marshal).
Qed.
End Geometries.

(** *** A concrete input *)

(** A geometry is one byte after the byte order. *)
Definition sample_marshal (g : Z) : string + bytes := inr [byte_of_Z 0; byte_of_Z g].
Definition sample_unmarshal (d : bytes) : string + Z := match d with [_; g] => inr (Z_of_byte g) | _ => inl "no geometry"%string end.

Definition driver_codec : Codec PostGis.PostGisValue :=
  mkCodec (fun f => f =? BinaryFormatCode) BinaryFormatCode (fun _ _ _ => None) (fun _ _ _ => None)
    (fun _ _ _ => inr (inl "unknown"%string)) (fun _ _ _ => inr (inl "unknown"%string)).

Definition sample_map : Map PostGis.PostGisValue :=
  let element := fun (_ _ : Z) d => PostGis.scan_text sample_unmarshal (Some d) in
  mkMap (fun _ => true) (fun _ => driver_codec) element
    (fun oid format => if format =? TextFormatCode then text_plan (element oid format) (byte_of_Z 58)
                       else fun _ _ => inr (inl "cannot scan"%string)).

Lemma geometry_array_roundtrip_witness :
  exists c, EnhancedArrayTextCodecFactory sample_map 600 500 (byte_of_Z 58) = Some c /\
    DecodeValue (enhanced_codec c sample_map) 600 TextFormatCode (Some (bytes_of "{0007:002a}")) =
      inr (inr (Some [PostGis.mkPostGis 7 true; PostGis.mkPostGis 42 true])).
Proof.
  eexists. split; [reflexivity|].
  apply (geometry_array_roundtrip (fun g => if g <? 256 then if 0 <=? g then sample_marshal g else inl "?"%string else inl "?"%string)
    sample_unmarshal) with (typ_oid := 600) (typ_oidElement := 500) (sep := byte_of_Z 58) (gs := [7; 42])
    (texts := [bytes_of "0007"; bytes_of "002a"]).
  - intros g d. destruct (Z.ltb_spec g 256) as [Hlt|]; [|discriminate]. destruct (Z.leb_spec 0 g) as [Hle|]; [|discriminate].
    intros [= <-]. cbn. f_equal. rewrite Z_of_byte_of_Z. apply Z.mod_small. lia.
  - reflexivity.
  - intros format p _. cbn. unfold Enhanced_PlanScan. cbn. destruct (format =? TextFormatCode) eqn:E; [|discriminate].
    intros [= <-]. reflexivity.
  - reflexivity.
  - vm_compute. tauto.
  - vm_compute. tauto.
  - discriminate.
  - repeat constructor.
Defined.
