(* ===== verification/Versions.v ===== *)
(** * Versions and names

    - [Versions]: spi/version/version.go, versions of PostgreSQL and TimescaleDB as
      numbers, their parsing, printing and comparison, and the checks of
      replicationcontext.go that use them.
    - [Naming]: internal/eventing/namingstrategy (topic names and their
      sanitization) with spi/schema/namegenerator.go.
    - [Registries]: the registries of naming strategies, sinks and state storages.
    - [ReplicaIdentities]: spi/pgtypes/replicaidentity.go. *)

From Stdlib Require Import ZArith Lia.
From Stdlib Require Import Strings.Byte.
From stdpp Require Import base tactics option list numbers strings pretty gmap.
From S2P Require Import Prelude Encoding TableFilter Converters SchemaBuilder.

Local Open Scope Z_scope.

Module Versions.

(** The longest prefix of digits, and the rest. *)
Fixpoint span_digits (d : bytes) : bytes * bytes :=
  match d with
  | [] => ([], [])
  | b :: d' =>
      if (48 <=? Z_of_byte b) && (Z_of_byte b <=? 57)
      then let '(x, y) := span_digits d' in (b :: x, y)
      else ([], d)
  end.

(** strconv.ParseInt(s, 10, 32) of digits. *)
Definition ParseInt32 (d : bytes) : string + Z :=
  match d with
  | [] => inl "invalid syntax"%string
  | _ => match Schema.digits 0 d with
         | None => inl "invalid syntax"%string
         | Some n => if n <? 2 ^ 31 then inr n else inl "value out of range"%string
         end
  end.

Definition dot : byte := byte_of_Z 46.

(** [^((1[0-9])\.([0-9]+))?]: the groups of the major and the minor version, empty
    when the optional part does not match. *)
Definition match_postgres (d : bytes) : bytes * bytes :=
  match d with
  | a :: b :: c :: d' =>
      let '(minor, _) := span_digits d' in
      if (Z_of_byte a =? 49) && (48 <=? Z_of_byte b) && (Z_of_byte b <=? 57) && (Z_of_byte c =? 46)
      then match minor with [] => ([], []) | _ => ([a; b], minor) end
      else ([], [])
  | _ => ([], [])
  end.

Definition ParsePostgresVersion (version : string) : string + Z :=
  let '(major, minor) := match_postgres (bytes_of version) in
  match ParseInt32 major with
  | inl e => inl e
  | inr major =>
      match ParseInt32 minor with
      | inl e => inl e
      | inr minor => inr (major * 10000 + minor)
      end
  end.

(** [([0-9]+)\.([0-9]+)(\.([0-9]+))?] at the start of a text; the last group is
    empty when it does not take part. *)
Definition match_timescale_here (d : bytes) : option (bytes * bytes * bytes) :=
  let '(major, d) := span_digits d in
  match major, d with
  | _ :: _, c :: d =>
      if decide (c = dot) then
        let '(minor, d) := span_digits d in
        match minor with
        | [] => None
        | _ =>
            match d with
            | c' :: d' => if decide (c' = dot) then Some (major, minor, fst (span_digits d')) else Some (major, minor, [])
            | [] => Some (major, minor, [])
            end
        end
      else None
  | _, _ => None
  end.

(** FindStringSubmatch: the first place where it matches. *)
Fixpoint match_timescale (d : bytes) : option (bytes * bytes * bytes) :=
  match match_timescale_here d with
  | Some m => Some m
  | None => match d with [] => None | _ :: d' => match_timescale d' end
  end.

(** With a match there are always five submatches, so the release is always parsed. *)
Definition ParseTimescaleVersion (version : string) : string + Z :=
  match match_timescale (bytes_of version) with
  | None => inl "failed to extract timescale version"%string
  | Some (major, minor, release) =>
      match ParseInt32 major with
      | inl e => inl e
      | inr major =>
          match ParseInt32 minor with
          | inl e => inl e
          | inr minor =>
              match ParseInt32 release with
              | inl e => inl e
              | inr release => inr (major * 10000 + minor * 100 + release)
              end
          end
      end
  end.

Definition PgMajor (pv : Z) : Z := pv / 10000.
Definition PgMinor (pv : Z) : Z := pv mod 100.
Definition PgString (pv : Z) : string := (pretty (PgMajor pv) ++ "." ++ pretty (PgMinor pv))%string.

Definition TsMajor (tv : Z) : Z := tv / 10000.
Definition TsMinor (tv : Z) : Z := (tv / 100) mod 100.
Definition TsRelease (tv : Z) : Z := tv mod 100.
Definition TsString (tv : Z) : string :=
  (pretty (TsMajor tv) ++ "." ++ pretty (TsMinor tv) ++ "." ++ pretty (TsRelease tv))%string.

(** Compare of both types. *)
Definition Compare (v other : Z) : Z :=
  if v <? other then -1 else if v <? other then 1 else 0.

Definition TSDB_MIN_VERSION : Z := 21000.
Definition TSDB_212_VERSION : Z := 21200.
Definition PG_MIN_VERSION : Z := 130000.
Definition PG_14_VERSION : Z := 140000.

(** The checks of the replication context. *)
Definition IsMinimumPostgresVersion (pgVersion : Z) : bool := PG_MIN_VERSION <=? pgVersion.
Definition IsPG14GE (pgVersion : Z) : bool := PG_14_VERSION <=? pgVersion.
Definition IsMinimumTimescaleVersion (tsdbVersion : Z) : bool := TSDB_MIN_VERSION <=? tsdbVersion.
Definition IsTSDB212GE (tsdbVersion : Z) : bool := TSDB_212_VERSION <=? tsdbVersion.
End Versions.

Module Naming.

Definition EventTopicName (topicPrefix schemaName tableName : string) : string :=
  (topicPrefix ++ "." ++ schemaName ++ "." ++ tableName)%string.
Definition SchemaTopicName (topicPrefix schemaName tableName : string) : string :=
  (topicPrefix ++ "." ++ schemaName ++ "." ++ tableName)%string.
Definition MessageTopicName (topicPrefix : string) : string := (topicPrefix ++ ".message")%string.

(** The naming strategy as an interface, and the name generator that binds the
    prefix. *)
Record NamingStrategy : Type := mkNamingStrategy {
  ns_EventTopicName : string -> string -> string -> string;
  ns_SchemaTopicName : string -> string -> string -> string;
  ns_MessageTopicName : string -> string;
}.

Definition debeziumNamingStrategy : NamingStrategy := mkNamingStrategy EventTopicName SchemaTopicName MessageTopicName.

Record nameGenerator : Type := NewNameGenerator { topicPrefix : string; namingStrategy : NamingStrategy }.

Definition gen_EventTopicName (n : nameGenerator) (schemaName tableName : string) : string :=
  ns_EventTopicName (namingStrategy n) (topicPrefix n) schemaName tableName.
Definition gen_SchemaTopicName (n : nameGenerator) (schemaName tableName : string) : string :=
  ns_SchemaTopicName (namingStrategy n) (topicPrefix n) schemaName tableName.
Definition gen_MessageTopicName (n : nameGenerator) : string := ns_MessageTopicName (namingStrategy n) (topicPrefix n).

Definition isValidCharacter (r : Z) : bool :=
  (r =? 46) || (r =? 95) || (r =? 45) || ((65 <=? r) && (r <=? 90)) || ((97 <=? r) && (r <=? 122)) ||
  ((48 <=? r) && (r <=? 57)).

(** The loop runs over the number of bytes and indexes the runes. *)
Fixpoint sanitize (n : nat) (rs : list Z) : crash + (list Z * bool) :=
  match n with
  | O => inr ([], false)
  | S n' =>
      match rs with
      | [] => inl PanicIndexOutOfRange
      | r :: rs' =>
          rest ← sanitize n' rs';
          if isValidCharacter r then inr (r :: fst rest, snd rest) else inr (95 :: fst rest, true)
      end
  end.

Definition SanitizeTopicName (topicName : string) : crash + (list Z * bool) :=
  sanitize (length (codes topicName)) (runes (codes topicName)).
End Naming.

Module Registries.

(** The three registries differ in the type of the factory only: [F] is a factory,
    applied to the configuration. *)
Section Registry.
Context {F C V : Type} (apply : F -> C -> string + V).

Definition registry : Type := gmap string F.

Definition Register (name : string) (factory : F) (factories : registry) : registry * bool :=
  match factories !! name with
  | None => (<[name := factory]> factories, true)
  | Some _ => (factories, false)
  end.

Definition New (what name : string) (config : C) (factories : registry) : string + V :=
  match factories !! name with
  | Some p => apply p config
  | None => inl (what ++ " '" ++ name ++ "' doesn't exist")%string
  end.

Definition register_all (regs : list (string * F)) (factories : registry) : registry :=
  fold_left (fun r x => fst (Register (fst x) (snd x) r)) regs factories.

(** The first registration of a name is the one that is used. *)
Lemma first_registration_wins regs r what name config :
  New what name config (register_all regs r)
  = match r !! name with
    | Some p => apply p config
    | None => match list_find (fun x => fst x = name) regs with
              | Some (_, x) => apply (snd x) config
              | None => inl (what ++ " '" ++ name ++ "' doesn't exist")%string
              end
    end.
Proof.
  unfold New. revert r. induction regs as [|[n f] regs IH]; intros r; cbn; [by destruct (r !! name)|].
  rewrite IH. unfold Register. destruct (r !! n) eqn:Hn; cbn.
  - case_decide as Hd; [subst; by rewrite Hn|]. destruct (r !! name); [done|]. by destruct (list_find _ _) as [[? ?]|].
  - unfold registry in *. case_decide as Hd; cbn in Hd; [subst; by rewrite lookup_insert_eq, Hn|].
    rewrite lookup_insert_ne by done. destruct (r !! name); [done|]. by destruct (list_find _ _) as [[? ?]|].
Qed.
End Registry.
End Registries.

Module ReplicaIdentities.

Inductive ReplicaIdentity : Set := NOTHING | FULL | DEFAULT | INDEX | UNKNOWN.

Definition code (ri : ReplicaIdentity) : string :=
  match ri with NOTHING => "n" | FULL => "f" | DEFAULT => "d" | INDEX => "i" | UNKNOWN => "" end.

Definition AsReplicaIdentity (val : string) : ReplicaIdentity :=
  if (val =? "n")%string then NOTHING else if (val =? "f")%string then FULL
  else if (val =? "d")%string then DEFAULT else if (val =? "i")%string then INDEX else UNKNOWN.

Definition Name (ri : ReplicaIdentity) : string :=
  match ri with
  | NOTHING => "NOTHING" | FULL => "FULL" | DEFAULT => "DEFAULT" | INDEX => "INDEX"
  | UNKNOWN => "Unknown REPLICA IDENTITY"
  end.

Definition Description (ri : ReplicaIdentity) : string :=
  match ri with
  | NOTHING => "UPDATE and DELETE events will not contain any old values"
  | FULL => "UPDATE AND DELETE events will contain the previous values of all the columns"
  | DEFAULT => "UPDATE and DELETE events will contain previous values only for PK columns"
  | INDEX => "UPDATE and DELETE events will contain previous values only for columns present in the REPLICA IDENTITY index"
  | UNKNOWN => "Unknown REPLICA IDENTITY"
  end.

Lemma identity_roundtrip ri : AsReplicaIdentity (code ri) = ri.
Proof. by destruct ri. Qed.
End ReplicaIdentities.

(** ** Properties *)

(** *** Numbers in decimal *)

Definition is_digit (b : byte) : Prop := 48 <= Z_of_byte b <= 57.

Lemma bytes_of_app (a b : string) : bytes_of (a ++ b)%string = bytes_of a ++ bytes_of b.
Proof.
  induction a as [|x a IH]; [done|]. change ((String x a ++ b)%string) with (String x (a ++ b)%string).
  unfold String.list_byte_of_string in *. cbn [String.list_ascii_of_string map app]. by rewrite IH.
Qed.

Lemma pretty_char_byte x : (x < 10)%N -> Z_of_byte (Ascii.byte_of_ascii (pretty_N_char x)) = 48 + Z.of_N x.
Proof.
  intros Hx. assert (H : forall n, (n < 10)%nat ->
    Z_of_byte (Ascii.byte_of_ascii (pretty_N_char (N.of_nat n))) = 48 + Z.of_N (N.of_nat n)).
  { intros n Hn. do 10 (destruct n as [|n]; [reflexivity|]). lia. }
  rewrite <- (N2Nat.id x). apply H. lia.
Qed.

Lemma digits_cons acc b d : is_digit b -> Schema.digits acc (b :: d) = Schema.digits (acc * 10 + (Z_of_byte b - 48)) d.
Proof.
  unfold is_digit. intros Hb. cbn. destruct (Z.leb_spec 48 (Z_of_byte b)), (Z.leb_spec (Z_of_byte b) 57); try lia. done.
Qed.

Lemma bytes_of_String c s : bytes_of (String c s) = Ascii.byte_of_ascii c :: bytes_of s.
Proof. done. Qed.

Lemma digits_go x s :
  Schema.digits 0 (bytes_of (pretty_N_go x s)) = Schema.digits (Z.of_N x) (bytes_of s) /\
  (Forall is_digit (bytes_of s) -> Forall is_digit (bytes_of (pretty_N_go x s))).
Proof.
  revert s. induction (N.lt_wf_0 x) as [x _ IH]; intros s.
  destruct (decide (x = 0)%N) as [->|Hx]; [done|]. rewrite pretty_N_go_step by lia.
  destruct (IH (x `div` 10)%N) with (s := String (pretty_N_char (x `mod` 10)) s) as [Hd Ha]; [apply N.div_lt; lia|].
  assert (Hlt : (x `mod` 10 < 10)%N) by (apply N.mod_lt; lia).
  pose proof (pretty_char_byte _ Hlt) as Hc.
  assert (Hdig : is_digit (Ascii.byte_of_ascii (pretty_N_char (x `mod` 10)%N))) by (unfold is_digit; rewrite Hc; clear -Hlt; set (m := (x `mod` 10)%N) in *; lia).
  split.
  - rewrite Hd, bytes_of_String, digits_cons, Hc by exact Hdig. f_equal.
    pose proof (N.div_mod x 10). lia.
  - intros Hs. apply Ha. rewrite bytes_of_String. by constructor.
Qed.

(** A number that was printed is read back. *)
Lemma pretty_digits (z : Z) : 0 <= z ->
  Schema.digits 0 (bytes_of (pretty z)) = Some z /\ Forall is_digit (bytes_of (pretty z)) /\ bytes_of (pretty z) <> [].
Proof.
  intros Hz. destruct z as [|q|q]; [by repeat constructor| |lia].
  change (pretty (Z.pos q)) with (pretty_N_go (N.pos q) "").
  destruct (digits_go (N.pos q) "") as [Hd Ha]. split; [by rewrite Hd|]. split; [by apply Ha|].
  intros He. rewrite He in Hd. by cbn in Hd.
Qed.

Lemma span_digits_app d rest :
  Forall is_digit d -> (forall b r, rest = b :: r -> ~ is_digit b) -> Versions.span_digits (d ++ rest) = (d, rest).
Proof.
  intros Hd Hr. induction Hd as [|b d Hb Hd IH]; cbn.
  - destruct rest as [|b r]; [done|]. cbn. specialize (Hr b r eq_refl). unfold is_digit in Hr.
    destruct (Z.leb_spec 48 (Z_of_byte b)), (Z.leb_spec (Z_of_byte b) 57); try done. lia.
  - rewrite IH. unfold is_digit in Hb.
    destruct (Z.leb_spec 48 (Z_of_byte b)), (Z.leb_spec (Z_of_byte b) 57); try lia. done.
Qed.

Lemma ParseInt32_pretty z : 0 <= z < 2 ^ 31 -> Versions.ParseInt32 (bytes_of (pretty z)) = inr z.
Proof.
  intros Hz. destruct (pretty_digits z) as (Hd & _ & Hne); [lia|]. unfold Versions.ParseInt32.
  destruct (bytes_of (pretty z)) as [|b d] eqn:E; [done|]. rewrite Hd.
  destruct (Z.ltb_spec z (2 ^ 31)); [done|lia].
Qed.

Lemma dot_no_digit rest b r : Versions.dot :: rest = b :: r -> ~ is_digit b.
Proof. intros [= <- _]. unfold is_digit. vm_compute. intuition congruence. Qed.

(** Matching the text of a version with and without a release. *)
Lemma match_timescale_text major minor tail :
  0 <= major -> 0 <= minor -> (forall b r, tail = b :: r -> ~ is_digit b) ->
  Versions.match_timescale (bytes_of (pretty major) ++ Versions.dot :: bytes_of (pretty minor) ++ tail)
  = Some (bytes_of (pretty major), bytes_of (pretty minor),
          match tail with
          | c :: d => if decide (c = Versions.dot) then fst (Versions.span_digits d) else []
          | [] => []
          end).
Proof.
  intros Hma Hmi Ht. destruct (pretty_digits major Hma) as (_ & Hda & Hne).
  destruct (pretty_digits minor Hmi) as (_ & Hdi & Hnei).
  set (A := bytes_of (pretty major)) in *. set (B := bytes_of (pretty minor)) in *.
  assert (Hhere : Versions.match_timescale_here (A ++ Versions.dot :: B ++ tail) = Some (A, B,
    match tail with c :: d => if decide (c = Versions.dot) then fst (Versions.span_digits d) else [] | [] => [] end)).
  { unfold Versions.match_timescale_here. rewrite span_digits_app; [|done|apply dot_no_digit].
    destruct A as [|a A']; [done|]. rewrite decide_True by done. rewrite span_digits_app by done.
    destruct B as [|b B']; [done|]. destruct tail as [|c d]; [done|]. by case_decide. }
  destruct (A ++ Versions.dot :: B ++ tail) eqn:E; cbn [Versions.match_timescale]; by rewrite Hhere.
Qed.

(** A version of TimescaleDB that is printed is parsed back: for every
    version whose major part is a 32-bit number, parsing its text
    major.minor.release gives the version. *)
Theorem timescale_version_roundtrip tv :
  0 <= tv < 2 ^ 31 * 10000 -> Versions.ParseTimescaleVersion (Versions.TsString tv) = inr tv.
Proof.
  intros Htv. unfold Versions.ParseTimescaleVersion, Versions.TsString. rewrite !bytes_of_app.
  change (bytes_of ".") with [Versions.dot].
  set (ma := Versions.TsMajor tv). set (mi := Versions.TsMinor tv). set (re := Versions.TsRelease tv).
  assert (Hma : 0 <= ma < 2 ^ 31).
  { unfold ma, Versions.TsMajor. split; [apply Z.div_pos; lia|apply Z.div_lt_upper_bound; lia]. }
  assert (Hmi : 0 <= mi < 100) by (apply Z.mod_pos_bound; lia).
  assert (Hre : 0 <= re < 100) by (apply Z.mod_pos_bound; lia).
  destruct (pretty_digits re) as (_ & Hd & _); [lia|].
  cbn [app]. rewrite (match_timescale_text ma mi (Versions.dot :: bytes_of (pretty re))); [|lia|lia|apply dot_no_digit].
  rewrite decide_True by done. rewrite <- (app_nil_r (bytes_of (pretty re))), span_digits_app by done. cbn [fst].
  rewrite !ParseInt32_pretty by lia. f_equal.
  unfold ma, mi, re, Versions.TsMajor, Versions.TsMinor, Versions.TsRelease.
  Z.to_euclidean_division_equations. lia.
Qed.

Lemma timescale_version_roundtrip_witness : Versions.ParseTimescaleVersion "2.14.2" = inr 21402.
Proof. apply (timescale_version_roundtrip 21402). lia. Defined.

(** A version without a release is matched, but not parsed. *)
Lemma no_release_refused major minor :
  0 <= major < 2 ^ 31 -> 0 <= minor < 2 ^ 31 ->
  Versions.ParseTimescaleVersion (pretty major ++ "." ++ pretty minor) = inl "invalid syntax"%string.
Proof.
  intros Hma Hmi. unfold Versions.ParseTimescaleVersion. rewrite !bytes_of_app. change (bytes_of ".") with [Versions.dot].
  cbn [app]. rewrite <- (app_nil_r (bytes_of (pretty minor))). rewrite match_timescale_text by (lia || done).
  by rewrite !ParseInt32_pretty by lia.
Qed.

(** Compare tells a lower version, and takes a higher one for the same. *)
Lemma compare_misses_greater v other : other <= v -> Versions.Compare v other = 0.
Proof. intros H. unfold Versions.Compare. destruct (Z.ltb_spec v other); [lia|done]. Qed.

(** *** Names *)

Lemma sanitize_panics n rs :
  (length rs < n)%nat -> Naming.sanitize n rs = inl PanicIndexOutOfRange.
Proof.
  revert rs. induction n as [|n IH]; intros rs Hn; [lia|]. destruct rs as [|r rs]; [done|].
  cbn [Naming.sanitize]. rewrite IH by (cbn in Hn; lia). done.
Qed.

Lemma sanitize_chars rs :
  Naming.sanitize (length rs) rs
  = inr ((fun r => if Naming.isValidCharacter r then r else 95) <$> rs, negb (forallb Naming.isValidCharacter rs)).
Proof.
  induction rs as [|r rs IH]; [done|]. cbn [length Naming.sanitize]. rewrite IH. cbn.
  by destruct (Naming.isValidCharacter r).
Qed.

(** An ASCII name is sanitized character by character; a name with fewer
    characters than bytes is an index out of range. *)
Lemma sanitize_topic_name s :
  (Forall TableFilter.ascii (codes s) ->
   Naming.SanitizeTopicName s = inr ((fun r => if Naming.isValidCharacter r then r else 95) <$> codes s,
                                     negb (forallb Naming.isValidCharacter (codes s)))) /\
  ((length (runes (codes s)) < length (codes s))%nat -> Naming.SanitizeTopicName s = inl PanicIndexOutOfRange).
Proof.
  unfold Naming.SanitizeTopicName. split; [|apply sanitize_panics].
  intros Ha. rewrite runes_ascii by done. apply sanitize_chars.
Qed.

(** Tables of different schemas can share a topic. *)
Lemma topic_names_collide prefix a b c :
  Naming.EventTopicName prefix (a ++ "." ++ b) c = Naming.EventTopicName prefix a (b ++ "." ++ c).
Proof. unfold Naming.EventTopicName. by rewrite !append_assoc. Qed.
