(* ===== verification/Waiting.v ===== *)
(** * Waiting: signals between goroutines

    - [Waiters]: internal/waiting/waiter.go, a channel of one signal with an
      optional timer.
    - [Shutdown] and [MultiShutdown]: internal/waiting/shutdownawaiter.go, with the
      goroutines that use them: one that stops a worker, and the workers of the
      replication handler, the task manager, the file storage and the snapshotter.
    - [RingBuffer]: internal/containers/ringbuffer.go.

    An operation on a channel that blocks gives no result: a send is an option, a
    receive is the list of its possible results (a select with two cases that are
    ready has two).  A system of goroutines is a relation of steps, one operation
    each. *)

From Stdlib Require Import ZArith Lia.
From stdpp Require Import base tactics option list numbers relations.
From S2P Require Import Prelude.

Local Open Scope Z_scope.
Local Arguments Nat.ltb : simpl never.

Module Waiters.

(** A timer that runs, or that has fired and whose tick is still in its channel. *)
Record Timer : Set := mkTimer { armed : bool; tick : bool }.

(** [done] tells whether the signal is in the channel, which holds one. *)
Record Waiter : Set := mkWaiter { done : bool; timer : option Timer }.

Definition NewWaiter : Waiter := mkWaiter false None.
Definition NewWaiterWithTimeout : Waiter := mkWaiter false (Some (mkTimer true false)).

(** The runtime: a timer that is armed fires. *)
Definition expire (w : Waiter) : Waiter :=
  match timer w with
  | Some (mkTimer true _) => mkWaiter (done w) (Some (mkTimer false true))
  | _ => w
  end.

(** The old timer is stopped and drained, a new one is started. *)
Definition Reset (w : Waiter) : Waiter :=
  match timer w with
  | Some _ => mkWaiter (done w) (Some (mkTimer true false))
  | None => w
  end.

Definition Signal (w : Waiter) : option Waiter :=
  if done w then None else Some (mkWaiter true (timer w)).

Inductive awaited : Set := Signalled | ErrWaiterTimeout.

Definition Await (w : Waiter) : list (awaited * Waiter) :=
  match timer w with
  | None => if done w then [(Signalled, mkWaiter false None)] else []
  | Some t =>
      (if done w then [(Signalled, mkWaiter false (Some (mkTimer false false)))] else []) ++
      (if tick t then [(ErrWaiterTimeout, mkWaiter (done w) (Some (mkTimer (armed t) false)))] else [])
  end.

(** What happens to a waiter that nobody signals. *)
Inductive idle : Waiter -> Waiter -> Prop :=
| idle_expire w : idle w (expire w)
| idle_await w r w' : (r, w') ∈ Await w -> idle w w'.

(** A signal is received by exactly one Await, and without a timer that is the
    only way to return. *)
Lemma Await_plain w r w' :
  timer w = None -> (r, w') ∈ Await w -> r = Signalled /\ done w = true /\ w' = mkWaiter false None.
Proof.
  unfold Await. intros ->. destruct (done w); [|by intros ?%not_elem_of_nil].
  intros [= -> ->]%list_elem_of_singleton. done.
Qed.

(** A timed-out waiter stays dead: until it is reset or signalled, every further
    Await blocks for ever. *)
Lemma timed_out_blocks w w' w'' :
  done w = false -> (ErrWaiterTimeout, w') ∈ Await (expire w) -> rtc idle w' w'' -> Await w'' = [].
Proof.
  intros Hd Hin Hrun.
  assert (H' : done w' = false /\ timer w' = Some (mkTimer false false)).
  { destruct w as [d [[[] []]|]]; cbn in Hd; subst d; cbn in Hin; apply list_elem_of_In in Hin; cbn in Hin;
      destruct Hin as [[= <-]|[]] || destruct Hin; done. }
  assert (H'' : done w'' = false /\ timer w'' = Some (mkTimer false false)).
  { clear Hin. revert H'. induction Hrun as [w'|x y z Hstep _ IH]; [done|]. intros [Hx Ht]. apply IH.
    destruct Hstep as [u|u r u' Hu].
    - unfold expire. by rewrite Ht.
    - unfold Await in Hu. rewrite Ht, Hx in Hu. by apply not_elem_of_nil in Hu. }
  destruct H'' as [Hx Ht]. unfold Await. by rewrite Ht, Hx.
Qed.

(** Reset does not take back a signal: one that came after the timeout is what the
    next Await returns, at once. *)
Lemma late_signal_survives_reset w w' :
  Signal w = Some w' -> timer w <> None -> Await (Reset w') = [(Signalled, mkWaiter false (Some (mkTimer false false)))].
Proof. unfold Signal. destruct w as [[] [t|]]; intros [= <-] Ht; [done|]. done. Qed.
End Waiters.

(** *** One worker *)

Module Shutdown.
Export Waiters.

Record ShutdownAwaiter : Set := mkAwaiter { sa_start : Waiter; sa_done : Waiter }.

Definition NewShutdownAwaiter : ShutdownAwaiter := mkAwaiter NewWaiter NewWaiter.
Definition SignalShutdown (sa : ShutdownAwaiter) : option ShutdownAwaiter :=
  w ← Signal (sa_start sa); Some (mkAwaiter w (sa_done sa)).
Definition AwaitShutdown (sa : ShutdownAwaiter) : list (awaited * ShutdownAwaiter) :=
  (fun x => (fst x, mkAwaiter (snd x) (sa_done sa))) <$> Await (sa_start sa).
Definition SignalDone (sa : ShutdownAwaiter) : option ShutdownAwaiter :=
  w ← Signal (sa_done sa); Some (mkAwaiter (sa_start sa) w).
Definition AwaitDone (sa : ShutdownAwaiter) : list (awaited * ShutdownAwaiter) :=
  (fun x => (fst x, mkAwaiter (sa_start sa) (snd x))) <$> Await (sa_done sa).

(** A goroutine that stops the component ([SignalShutdown], then [AwaitDone]), and
    the worker, whose loop receives from the channel of the shutdown and ends with
    [SignalDone]. *)
Inductive stopper : Set := Signalling | Awaiting | Returned.
Inductive worker : Set := Looping | Leaving | Left.

#[global] Instance stopper_eq_dec : EqDecision stopper.
Proof. solve_decision. Defined.
#[global] Instance worker_eq_dec : EqDecision worker.
Proof. solve_decision. Defined.

Record system : Set := mkSystem { awaiter : ShutdownAwaiter; loop : worker; stoppers : list stopper }.

(** A worker that was started, and [n] callers of the component's Stop. *)
Definition init (n : nat) : system := mkSystem NewShutdownAwaiter Looping (replicate n Signalling).

Inductive step : system -> system -> Prop :=
| step_signal sa sa' w l i :
    l !! i = Some Signalling -> SignalShutdown sa = Some sa' ->
    step (mkSystem sa w l) (mkSystem sa' w (<[i := Awaiting]> l))
| step_leave sa sa' r l :
    (r, sa') ∈ AwaitShutdown sa -> step (mkSystem sa Looping l) (mkSystem sa' Leaving l)
| step_done sa sa' l :
    SignalDone sa = Some sa' -> step (mkSystem sa Leaving l) (mkSystem sa' Left l)
| step_return sa sa' r w l i :
    l !! i = Some Awaiting -> (r, sa') ∈ AwaitDone sa ->
    step (mkSystem sa w l) (mkSystem sa' w (<[i := Returned]> l)).

(** How many stoppers are in a phase. *)
Definition b2n (b : bool) : nat := if b then 1%nat else 0%nat.
Fixpoint total {A} (f : A -> nat) (l : list A) : nat :=
  match l with [] => 0%nat | x :: l' => (f x + total f l')%nat end.
Definition count {A} (f : A -> bool) (l : list A) : nat := total (fun x => b2n (f x)) l.
Arguments count {A} f !l /.

Definition is_returned (x : stopper) : bool := match x with Returned => true | _ => false end.
Definition has_signalled (x : stopper) : bool := match x with Signalling => false | _ => true end.
Definition has_left (w : worker) : bool := match w with Left => true | _ => false end.
Definition has_seen (w : worker) : bool := match w with Looping => false | _ => true end.

(** What is left to do. *)
Definition stopper_work (x : stopper) : nat := match x with Signalling => 2 | Awaiting => 1 | Returned => 0 end.
Definition worker_work (w : worker) : nat := match w with Looping => 2 | Leaving => 1 | Left => 0 end.
Definition measure (s : system) : nat := (worker_work (loop s) + total stopper_work (stoppers s))%nat.

Lemma total_insert {A} (f : A -> nat) l i x y :
  l !! i = Some x -> (total f (<[i := y]> l) + f x = total f l + f y)%nat.
Proof.
  revert i. induction l as [|z l IH]; intros [|i] Hi; try done; cbn in Hi.
  - injection Hi as ->. cbn. lia.
  - specialize (IH i Hi). change (<[S i := y]> (z :: l)) with (z :: <[i := y]> l). cbn [total]. lia.
Qed.

Lemma count_insert {A} (f : A -> bool) l i x y :
  l !! i = Some x -> (count f (<[i := y]> l) + b2n (f x) = count f l + b2n (f y))%nat.
Proof. apply (total_insert (fun x => b2n (f x))). Qed.

Lemma count_exists {A} (f : A -> bool) l : (0 < count f l)%nat -> exists i x, l !! i = Some x /\ f x = true.
Proof.
  unfold count. induction l as [|z l IH]; cbn; [lia|]. destruct (f z) eqn:Hz; [intros _; by exists O, z|].
  intros H. destruct IH as (i & x & Hi & Hx); [done|]. by exists (S i), x.
Qed.

(** The signals in the channels balance the phases of the goroutines. *)
Record Balanced (s : system) : Prop := {
  no_timers : timer (sa_start (awaiter s)) = None /\ timer (sa_done (awaiter s)) = None;
  starts : (b2n (done (sa_start (awaiter s))) + b2n (has_seen (loop s)) = count has_signalled (stoppers s))%nat;
  dones : (b2n (done (sa_done (awaiter s))) + count is_returned (stoppers s) = b2n (has_left (loop s)))%nat;
}.

Lemma balanced_init n : Balanced (init n).
Proof. split; [done| |]; cbn; induction n; cbn; auto. Qed.

Lemma Signal_Some w w' : Signal w = Some w' -> done w = false /\ w' = mkWaiter true (timer w).
Proof. unfold Signal. destruct (done w); naive_solver. Qed.

Lemma SignalShutdown_Some sa sa' :
  SignalShutdown sa = Some sa' ->
  done (sa_start sa) = false /\ sa' = mkAwaiter (mkWaiter true (timer (sa_start sa))) (sa_done sa).
Proof. unfold SignalShutdown, Signal. destruct (done (sa_start sa)); naive_solver. Qed.

Lemma SignalDone_Some sa sa' :
  SignalDone sa = Some sa' ->
  done (sa_done sa) = false /\ sa' = mkAwaiter (sa_start sa) (mkWaiter true (timer (sa_done sa))).
Proof. unfold SignalDone, Signal. destruct (done (sa_done sa)); naive_solver. Qed.

Lemma balanced_step s s' : Balanced s -> step s s' -> Balanced s'.
Proof.
  intros [[Ht1 Ht2] Hs Hd] Hstep. destruct Hstep as [sa sa' w l i Hi H|sa sa' r l H|sa sa' l H|sa sa' r w l i Hi H];
    cbn in *.
  - apply SignalShutdown_Some in H as [Hf ->].
    pose proof (count_insert has_signalled l i Signalling Awaiting Hi).
    pose proof (count_insert is_returned l i Signalling Awaiting Hi).
    rewrite Hf in Hs. cbn in *. split; cbn; [done|lia..].
  - apply list_elem_of_fmap in H as ([r' w'] & [= -> ->] & H). cbn [snd].
    apply Await_plain in H as (_ & Hf & ->); [|done]. rewrite Hf in Hs. cbn in *. split; cbn; [done|lia..].
  - apply SignalDone_Some in H as [Hf ->]. rewrite Hf in Hd. cbn in *. split; cbn; [done|lia..].
  - apply list_elem_of_fmap in H as ([r' w'] & [= -> ->] & H). cbn [snd].
    apply Await_plain in H as (_ & Hf & ->); [|done]. rewrite Hf in Hd. cbn in *.
    pose proof (count_insert has_signalled l i Awaiting Returned Hi).
    pose proof (count_insert is_returned l i Awaiting Returned Hi). cbn in *. split; cbn; [done|lia..].
Qed.

Lemma balanced_reachable n s : rtc step (init n) s -> Balanced s.
Proof. apply rtc_invariant; [apply balanced_init|]. intros x y. apply balanced_step. Qed.

Lemma step_stoppers s s' : step s s' -> length (stoppers s') = length (stoppers s).
Proof. destruct 1; cbn; by rewrite ?length_insert. Qed.

Lemma step_measure s s' : step s s' -> (measure s' < measure s)%nat.
Proof.
  destruct 1 as [sa sa' w l i Hi H|sa sa' r l H|sa sa' l H|sa sa' r w l i Hi H]; unfold measure; cbn; try lia.
  - pose proof (total_insert stopper_work l i _ Awaiting Hi). cbn in *. lia.
  - pose proof (total_insert stopper_work l i _ Returned Hi). cbn in *. lia.
Qed.

(** A system in which nothing can happen has shut down. *)
Lemma stuck_is_down s :
  Balanced s -> stoppers s <> [] -> (forall s', ~ step s s') -> loop s = Left /\ count is_returned (stoppers s) = 1%nat.
Proof.
  destruct s as [[[ds ts] [dd td]] w l]. intros [[Ht1 Ht2] Hs Hd] Hne Hstuck. cbn in *. subst.
  destruct w; cbn in *.
  - exfalso. destruct ds.
    + eapply Hstuck, step_leave. apply list_elem_of_here.
    + destruct l as [|x l]; [done|]. destruct x; cbn in Hs; try lia.
      eapply Hstuck, (step_signal _ _ _ _ O); done.
  - exfalso. destruct dd; cbn in Hd; [lia|]. eapply Hstuck, step_done; done.
  - split; [done|]. destruct dd; cbn in Hd; [|lia]. exfalso.
    destruct (count_exists has_signalled l) as (i & x & Hi & Hx); [lia|].
    destruct x; [done| |].
    + eapply Hstuck, step_return; [exact Hi|]. apply list_elem_of_here.
    + pose proof (count_insert is_returned l i Returned Signalling Hi). cbn in *. lia.
Qed.

(** A shutdown ends, for one caller: every run of the worker and the callers of
    Stop is finite, and when nothing more can happen the worker has left its loop
    and exactly one of the callers has returned.  A single caller is therefore
    never left waiting, and of several all but one are. *)
Theorem one_stop_returns n s :
  (0 < n)%nat -> rtc step (init n) s ->
  (forall s', step s s' -> measure s' < measure s)%nat /\
  (count is_returned (stoppers s) <= 1)%nat /\
  ((forall s', ~ step s s') -> loop s = Left /\ count is_returned (stoppers s) = 1%nat).
Proof.
  intros Hn Hrun. pose proof (balanced_reachable _ _ Hrun) as Hb. split; [apply step_measure|]. split.
  - pose proof (dones _ Hb). destruct (has_left (loop s)); cbn in *; lia.
  - apply stuck_is_down; [done|]. intros Hnil.
    assert (Hlen : length (stoppers s) = n).
    { clear -Hrun. assert (length (stoppers (init n)) = n) by apply length_replicate.
      revert H. induction Hrun as [|x y z H _ IH]; [done|]. intros <-. apply IH. by apply step_stoppers. }
    rewrite Hnil in Hlen. cbn in Hlen. lia.
Qed.
End Shutdown.

Lemma one_stop_returns_witness :
  exists s, rtc Shutdown.step (Shutdown.init 1) s /\ Shutdown.loop s = Shutdown.Left /\
    Shutdown.stoppers s = [Shutdown.Returned] /\ (Shutdown.count Shutdown.is_returned (Shutdown.stoppers s) <= 1)%nat.
Proof.
  set (w b := Waiters.mkWaiter b None). set (sys a b l p := Shutdown.mkSystem (Shutdown.mkAwaiter (w a) (w b)) l [p]).
  assert (Hrun : rtc Shutdown.step (Shutdown.init 1) (sys false false Shutdown.Left Shutdown.Returned)).
  { apply (rtc_l _ _ (sys true false Shutdown.Looping Shutdown.Awaiting)); [by apply (Shutdown.step_signal _ _ _ [Shutdown.Signalling] 0)|].
    apply (rtc_l _ _ (sys false false Shutdown.Leaving Shutdown.Awaiting)).
    { apply (Shutdown.step_leave _ _ Waiters.Signalled). apply list_elem_of_here. }
    apply (rtc_l _ _ (sys false true Shutdown.Left Shutdown.Awaiting)); [by apply Shutdown.step_done|].
    apply rtc_once. apply (Shutdown.step_return _ _ Waiters.Signalled _ [Shutdown.Awaiting] 0); [reflexivity|apply list_elem_of_here]. }
  eexists. split; [exact Hrun|]. split; [reflexivity|]. split; [reflexivity|].
  apply (Shutdown.one_stop_returns 1 _ ltac:(lia) Hrun).
Defined.

(** *** Many workers *)

Module MultiShutdown.
Export Shutdown.

(** [slots] is the length of the starters; the counter of the WaitGroup. *)
Record MultiShutdownAwaiter : Set := mkMulti { starters : list Waiter; doneGroup : Z }.

Definition NewMultiShutdownAwaiter (slots : nat) : MultiShutdownAwaiter :=
  mkMulti (replicate slots NewWaiter) (Z.of_nat slots).

(** One round of the loop of [SignalShutdown]. *)
Definition SignalShutdown_at (i : nat) (m : MultiShutdownAwaiter) : option MultiShutdownAwaiter :=
  w ← starters m !! i;
  w' ← Signal w;
  Some (mkMulti (<[i := w']> (starters m)) (doneGroup m)).

Definition AwaitShutdown (slot : nat) (m : MultiShutdownAwaiter) : list (awaited * MultiShutdownAwaiter) :=
  match starters m !! slot with
  | Some w => (fun x => (fst x, mkMulti (<[slot := snd x]> (starters m)) (doneGroup m))) <$> Await w
  | None => []
  end.

(** doneGroup.Done: the counter must not become negative. *)
Definition SignalDone (m : MultiShutdownAwaiter) : crash + MultiShutdownAwaiter :=
  if doneGroup m - 1 <? 0 then inl PanicExplicit else inr (mkMulti (starters m) (doneGroup m - 1)).

(** doneGroup.Wait returns when the counter is zero. *)
Definition AwaitDone (m : MultiShutdownAwaiter) : bool := doneGroup m =? 0.

(** [StopSnapshotter]: which starter is signalled next, then the wait. *)
Inductive phase : Set := Starting (i : nat) | Waiting | Finished.

(** What becomes of a call of [s.snapshot]; the database and the dispatcher
    decide.  It may never return, because it waits for one of them. *)
Inductive ending : Set := Succeeds | Fails | Hangs.

(** A worker of the snapshotter: in the select of its loop, in [s.snapshot], on
    its way out, and gone. *)
Inductive mworker : Set := Selecting | Snapshotting (o : ending) | Ending | Gone.

Definition out (x : mworker) : bool := match x with Ending | Gone => true | _ => false end.
Definition present (x : mworker) : bool := match x with Gone => false | _ => true end.

(** [queues] are the numbers of requests in the queues of the partitions. *)
Record msystem : Set := mkMsystem {
  multi : MultiShutdownAwaiter; workers : list mworker; queues : list nat; caller : phase;
}.

Definition minit (slots : nat) : msystem :=
  mkMsystem (NewMultiShutdownAwaiter slots) (replicate slots Selecting) (replicate slots O) (Starting 0).

(** The process goes on, a goroutine panics, or Fatalf ends the process. *)
Inductive after : Set := Runs (s : msystem) | Panics | Exits.

(** The worker's select takes any case that is ready; its timeout (five seconds)
    changes nothing. *)
Inductive mstep : msystem -> after -> Prop :=
| mstep_signal m m' ws qs i :
    (i < length (starters m))%nat -> SignalShutdown_at i m = Some m' ->
    mstep (mkMsystem m ws qs (Starting i)) (Runs (mkMsystem m' ws qs (Starting (S i))))
| mstep_signalled m ws qs i :
    i = length (starters m) -> mstep (mkMsystem m ws qs (Starting i)) (Runs (mkMsystem m ws qs Waiting))
| mstep_take m ws qs p n o c :
    ws !! p = Some Selecting -> qs !! p = Some (S n) ->
    mstep (mkMsystem m ws qs c) (Runs (mkMsystem m (<[p := Snapshotting o]> ws) (<[p := n]> qs) c))
| mstep_snapshot m ws qs p c :
    ws !! p = Some (Snapshotting Succeeds) ->
    mstep (mkMsystem m ws qs c) (Runs (mkMsystem m (<[p := Selecting]> ws) qs c))
| mstep_fatal m ws qs p c :
    ws !! p = Some (Snapshotting Fails) -> mstep (mkMsystem m ws qs c) Exits
| mstep_leave m m' r ws qs p c :
    ws !! p = Some Selecting -> (r, m') ∈ AwaitShutdown p m ->
    mstep (mkMsystem m ws qs c) (Runs (mkMsystem m' (<[p := Ending]> ws) qs c))
| mstep_done m m' ws qs p c :
    ws !! p = Some Ending -> SignalDone m = inr m' ->
    mstep (mkMsystem m ws qs c) (Runs (mkMsystem m' (<[p := Gone]> ws) qs c))
| mstep_panic m e ws qs p c :
    ws !! p = Some Ending -> SignalDone m = inl e -> mstep (mkMsystem m ws qs c) Panics
| mstep_return m ws qs :
    AwaitDone m = true -> mstep (mkMsystem m ws qs Waiting) (Runs (mkMsystem m ws qs Finished)).

(** [EnqueueSnapshot], from any goroutine, at any time: a request enters a queue
    that has room. *)
Inductive arrives : msystem -> msystem -> Prop :=
| arrives_at m ws qs p n c :
    qs !! p = Some n -> (n < 128)%nat ->
    arrives (mkMsystem m ws qs c) (mkMsystem m ws (<[p := S n]> qs) c).

Definition runs (s s' : msystem) : Prop := mstep s (Runs s') \/ arrives s s'.

(** How many starters the caller has signalled. *)
Definition reached (c : phase) (slots : nat) : nat := match c with Starting i => i | _ => slots end.

Definition phase_work (slots : nat) (c : phase) : nat :=
  match c with Starting i => (2 + (slots - i))%nat | Waiting => 1%nat | Finished => 0%nat end.
Definition mworker_work (x : mworker) : nat :=
  match x with Snapshotting _ => 3 | Selecting => 2 | Ending => 1 | Gone => 0 end.
Definition mmeasure (s : msystem) : nat :=
  (phase_work (length (starters (multi s))) (caller s) + total mworker_work (workers s) +
   total (fun n => 2 * n) (queues s))%nat.

Record Minv (s : msystem) : Prop := {
  minv_length : length (workers s) = length (starters (multi s));
  minv_reached : (reached (caller s) (length (starters (multi s))) <= length (starters (multi s)))%nat;
  minv_slot : forall p w x, starters (multi s) !! p = Some w -> workers s !! p = Some x ->
    timer w = None /\
    (done w = true -> out x = false) /\
    (if Nat.ltb p (reached (caller s) (length (starters (multi s)))) then done w = negb (out x)
     else done w = false /\ out x = false);
  minv_group : doneGroup (multi s) = Z.of_nat (count present (workers s));
  minv_finished : caller s = Finished -> doneGroup (multi s) = 0;
}.

Lemma count_present ws : count present ws = 0%nat -> Forall (eq Gone) ws.
Proof.
  induction ws as [|x ws IH]; [constructor|]. cbn. intros H. unfold count in *.
  destruct x; cbn in H; try lia. constructor; [done|]. apply IH. exact H.
Qed.

Lemma count_replicate {A} (f : A -> bool) n x : f x = true -> count f (replicate n x) = n.
Proof. intros Hf. unfold count. induction n as [|n IH]; cbn; [done|]. rewrite Hf, IH. done. Qed.

Lemma minv_init slots : Minv (minit slots).
Proof.
  split; cbn.
  - by rewrite !length_replicate.
  - lia.
  - intros p w x [-> _]%lookup_replicate [-> _]%lookup_replicate. done.
  - by rewrite count_replicate.
  - done.
Qed.

Lemma SignalShutdown_at_Some i m m' :
  SignalShutdown_at i m = Some m' -> exists w, starters m !! i = Some w /\ done w = false /\
    m' = mkMulti (<[i := mkWaiter true (timer w)]> (starters m)) (doneGroup m).
Proof.
  unfold SignalShutdown_at. destruct (starters m !! i) as [w|] eqn:Hw; [|done]. cbn.
  unfold Signal. destruct (done w) eqn:Hd; [done|]. intros [= <-]. by exists w.
Qed.

Lemma AwaitShutdown_elem p m r m' :
  (r, m') ∈ AwaitShutdown p m -> exists w w', starters m !! p = Some w /\ (r, w') ∈ Await w /\
    m' = mkMulti (<[p := w']> (starters m)) (doneGroup m).
Proof.
  unfold AwaitShutdown. destruct (starters m !! p) as [w|] eqn:Hw; [|by intros ?%not_elem_of_nil].
  intros ([r' w'] & [= -> ->] & H)%list_elem_of_fmap. by exists w, w'.
Qed.

Lemma present_counted ws p x : ws !! p = Some x -> present x = true -> (0 < count present ws)%nat.
Proof. intros H Hx. pose proof (count_insert present ws p x Gone H) as Hc. rewrite Hx in Hc. cbn in *. lia. Qed.

(** No panic: a worker that has not left is still counted. *)
Lemma no_panic s : Minv s -> ~ mstep s Panics.
Proof.
  intros Hinv Hstep. inversion Hstep as [| | | | | | |m e ws qs p c Hp Hd Hs|]; subst. unfold SignalDone in Hd.
  pose proof (minv_group _ Hinv) as Hg. pose proof (present_counted _ _ _ Hp eq_refl). cbn in Hg.
  destruct (Z.ltb_spec (doneGroup m - 1) 0); [lia|done].
Qed.

(** A worker that moves without leaving or being counted out. *)
Lemma minv_moves m ws qs qs' c p x y :
  Minv (mkMsystem m ws qs c) -> ws !! p = Some x -> out x = out y -> present x = present y ->
  Minv (mkMsystem m (<[p := y]> ws) qs' c).
Proof.
  intros [Hlen Hreach Hslot Hgroup Hfin] Hp Ho Hpr. cbn in *. split; cbn; rewrite ?length_insert; try done.
  - intros q u z Hu Hz. destruct (decide (q = p)) as [->|Hne].
    + rewrite list_lookup_insert_eq in Hz by (eapply lookup_lt_Some; done). injection Hz as <-.
      rewrite <- Ho. by apply Hslot.
    + rewrite list_lookup_insert_ne in Hz by done. by apply Hslot.
  - pose proof (count_insert present ws p x y Hp) as Hc. rewrite Hpr in Hc. lia.
Qed.

Lemma minv_step s s' : Minv s -> mstep s (Runs s') -> Minv s'.
Proof.
  intros Hinv Hstep. pose proof Hinv as [Hlen Hreach Hslot Hgroup Hfin].
  inversion Hstep as [m m' ws qs i Hi H|m ws qs i Hi|m ws qs p n o c Hp Hq|m ws qs p c Hp| |m m' r ws qs p c Hp H
    |m m' ws qs p c Hp H| |m ws qs H]; subst; cbn in *.
  - apply SignalShutdown_at_Some in H as (w & Hw & Hd & ->). split; cbn; rewrite ?length_insert; try done.
    intros p u x Hu Hx. destruct (decide (p = i)) as [->|Hne].
    + rewrite list_lookup_insert_eq in Hu by done. injection Hu as <-.
      destruct (Hslot i w x Hw Hx) as (Ht & _ & Hcase). rewrite Nat.ltb_irrefl in Hcase. destruct Hcase as [_ Ho].
      rewrite (proj2 (Nat.ltb_lt _ _)) by lia. cbn. by rewrite Ho.
    + rewrite list_lookup_insert_ne in Hu by done. destruct (Hslot p u x Hu Hx) as (Ht & Hl & Hcase).
      split; [done|]. split; [done|]. destruct (Nat.ltb_spec p i), (Nat.ltb_spec p (S i)); try done; lia.
  - split; cbn; try done.
  - by eapply minv_moves.
  - by eapply minv_moves.
  - apply AwaitShutdown_elem in H as (w & w' & Hw & H & ->).
    pose proof (Hslot p w _ Hw Hp) as (Ht & _ & Hcase). apply Await_plain in H as (_ & Hd & ->); [|done].
    split; cbn; rewrite ?length_insert; try done.
    + intros q u x Hu Hx. destruct (decide (q = p)) as [->|Hne].
      * rewrite list_lookup_insert_eq in Hu by (eapply lookup_lt_Some; done).
        rewrite list_lookup_insert_eq in Hx by (eapply lookup_lt_Some; done).
        injection Hu as <-. injection Hx as <-. destruct (Nat.ltb p _); [done|]. destruct Hcase. congruence.
      * rewrite list_lookup_insert_ne in Hu by done. rewrite list_lookup_insert_ne in Hx by done. by apply Hslot.
    + pose proof (count_insert present ws p _ Ending Hp). cbn in *. lia.
  - unfold SignalDone in H. destruct (Z.ltb_spec (doneGroup m - 1) 0); [done|]. injection H as <-.
    split; cbn; rewrite ?length_insert; try done.
    + intros q u x Hu Hx. destruct (decide (q = p)) as [->|Hne].
      * rewrite list_lookup_insert_eq in Hx by (eapply lookup_lt_Some; done). injection Hx as <-.
        destruct (Hslot p u _ Hu Hp) as (Ht & Hl & Hcase).
        split; [done|]. split; [by intros ?%Hl|]. destruct (Nat.ltb p _); [done|]. by destruct Hcase.
      * rewrite list_lookup_insert_ne in Hx by done. by apply Hslot.
    + pose proof (count_insert present ws p _ Gone Hp). cbn in *. lia.
    + intros ->. specialize (Hfin eq_refl). lia.
  - unfold AwaitDone in H. split; cbn; try done. intros _. by apply Z.eqb_eq.
Qed.

Lemma minv_arrives s s' : Minv s -> arrives s s' -> Minv s'.
Proof. intros Hinv Ha. destruct Ha. destruct Hinv as [Hlen Hreach Hslot Hgroup Hfin]. by constructor. Qed.

Lemma minv_reachable slots s : rtc runs (minit slots) s -> Minv s.
Proof.
  apply rtc_invariant; [apply minv_init|]. intros x y Hx [?|?]; [by eapply minv_step|by eapply minv_arrives].
Qed.

Lemma mstep_measure s s' : Minv s -> mstep s (Runs s') -> (mmeasure s' < mmeasure s)%nat.
Proof.
  intros Hinv Hstep. pose proof (minv_reached _ Hinv) as Hr. unfold mmeasure.
  inversion Hstep as [m m' ws qs i Hi H|m ws qs i Hi|m ws qs p n o c Hp Hq|m ws qs p c Hp| |m m' r ws qs p c Hp H
    |m m' ws qs p c Hp H| |m ws qs H]; subst; cbn -[Nat.mul] in *.
  - apply SignalShutdown_at_Some in H as (w & Hw & Hd & ->). cbn -[Nat.mul]. rewrite length_insert. lia.
  - lia.
  - pose proof (total_insert mworker_work ws p _ (Snapshotting o) Hp).
    pose proof (total_insert (fun n => 2 * n)%nat qs p _ n Hq). cbn -[Nat.mul] in *. lia.
  - pose proof (total_insert mworker_work ws p _ Selecting Hp). cbn -[Nat.mul] in *. lia.
  - apply AwaitShutdown_elem in H as (w & w' & Hw & H & ->). cbn -[Nat.mul]. rewrite length_insert.
    pose proof (total_insert mworker_work ws p _ Ending Hp). cbn -[Nat.mul] in *. lia.
  - unfold SignalDone in H. destruct (doneGroup m - 1 <? 0); [done|]. injection H as <-. cbn -[Nat.mul].
    pose proof (total_insert mworker_work ws p _ Gone Hp). cbn -[Nat.mul] in *. lia.
  - lia.
Qed.

(** A worker that is in a snapshot which does not return. *)
Definition hanging (s : msystem) : Prop := exists p, workers s !! p = Some (Snapshotting Hangs).

(** While a worker has not left and none hangs, some goroutine can go on. *)
Lemma mstuck_is_down s : Minv s -> (forall r, ~ mstep s r) -> caller s = Finished \/ hanging s.
Proof.
  intros Hinv Hstuck. destruct s as [m ws qs c]. destruct Hinv as [Hlen Hreach Hslot Hgroup Hfin]; cbn in *.
  destruct c as [i| |]; cbn in *; [| |by left].
  - exfalso. destruct (decide (i = length (starters m))) as [->|Hne]; [by eapply Hstuck, mstep_signalled|].
    assert (Hi : (i < length (starters m))%nat) by lia.
    destruct (lookup_lt_is_Some_2 (starters m) i Hi) as [w Hw].
    destruct (lookup_lt_is_Some_2 ws i ltac:(lia)) as [x Hx].
    destruct (Hslot i w x Hw Hx) as (_ & _ & Hcase). rewrite Nat.ltb_irrefl in Hcase. destruct Hcase as [Hd _].
    eapply Hstuck, mstep_signal; [done|]. unfold SignalShutdown_at, Signal. rewrite Hw. cbn. by rewrite Hd.
  - destruct (Z.eqb_spec (doneGroup m) 0) as [H0|H0].
    { exfalso. eapply Hstuck, mstep_return. unfold AwaitDone. by apply Z.eqb_eq. }
    destruct (count_exists present ws) as (p & x & Hp & Hx); [lia|].
    pose proof (lookup_lt_Some _ _ _ Hp) as Hlt.
    destruct (lookup_lt_is_Some_2 (starters m) p ltac:(lia)) as [w Hw].
    destruct (Hslot p w x Hw Hp) as (Ht & _ & Hcase). rewrite (proj2 (Nat.ltb_lt p _)) in Hcase by lia.
    destruct x as [|[| |]| |]; [| | |right; by exists p| |done]; exfalso.
    + eapply Hstuck, (mstep_leave _ _ Signalled); [done|]. unfold AwaitShutdown, Await. rewrite Hw, Ht, Hcase.
      apply list_elem_of_here.
    + by eapply Hstuck, mstep_snapshot.
    + by eapply Hstuck, mstep_fatal.
    + eapply Hstuck, mstep_done; [done|]. unfold SignalDone. pose proof (present_counted _ _ _ Hp eq_refl).
      destruct (Z.ltb_spec (doneGroup m - 1) 0); [lia|done].
Qed.

Lemma finished_all_gone s : Minv s -> caller s = Finished -> Forall (eq Gone) (workers s).
Proof.
  intros Hinv Hf. apply count_present. pose proof (minv_group _ Hinv). pose proof (minv_finished _ Hinv Hf). lia.
Qed.

Lemma hanging_stays s s' : runs s s' -> hanging s -> hanging s'.
Proof.
  intros Hrun [p Hp]. exists p. destruct Hrun as [Hstep|Ha]; [|inversion Ha; by subst].
  inversion Hstep; subst; cbn in *; try done;
    match goal with |- <[?q := _]> _ !! _ = _ => destruct (decide (p = q)) as [->|]; [congruence|] end;
    by rewrite list_lookup_insert_ne.
Qed.

Lemma hanging_blocks s s' : Minv s -> hanging s -> rtc runs s s' -> caller s' <> Finished.
Proof.
  intros Hinv Hh Hrun. assert (Minv s' /\ hanging s') as [Hinv' [p Hp]].
  { revert Hrun. apply (rtc_invariant _ (fun x => Minv x /\ hanging x)); [done|].
    intros x y [Hx1 Hx2] Hs. split; [|by eapply hanging_stays].
    destruct Hs as [?|?]; [by eapply minv_step|by eapply minv_arrives]. }
  intros Hf. pose proof (finished_all_gone _ Hinv' Hf) as Hall. rewrite Forall_lookup in Hall. by apply Hall in Hp.
Qed.

(** C27. The shutdown of the snapshotter and its workers, which take requests from
    their queues until they see the signal and may be in the middle of a snapshot
    when it comes: the WaitGroup never panics; StopSnapshotter returns only after
    all workers have left their loops; every step but the arrival of a request
    makes the work that is left smaller, so with finitely many requests every run
    is finite; and when nothing more can happen StopSnapshotter has returned,
    unless a worker is in a snapshot that does not return -- and then
    StopSnapshotter never returns.  (A snapshot that fails ends the process.) *)
Theorem multi_shutdown_completes slots s :
  rtc runs (minit slots) s ->
  ~ mstep s Panics /\
  (forall s', mstep s (Runs s') -> mmeasure s' < mmeasure s)%nat /\
  (caller s = Finished -> Forall (eq Gone) (workers s)) /\
  ((forall r, ~ mstep s r) -> caller s = Finished \/ hanging s) /\
  (hanging s -> forall s', rtc runs s s' -> caller s' <> Finished).
Proof.
  intros Hinv%minv_reachable. split; [by apply no_panic|]. split; [intros s'; by apply mstep_measure|].
  split; [by apply finished_all_gone|]. split; [by apply mstuck_is_down|].
  intros Hh s'. by apply hanging_blocks.
Qed.
End MultiShutdown.

(** One worker takes a request after the signal was given, finishes it and leaves. *)
Lemma multi_shutdown_completes_witness :
  exists s, rtc MultiShutdown.runs (MultiShutdown.minit 1) s /\ MultiShutdown.caller s = MultiShutdown.Finished /\
    Forall (eq MultiShutdown.Gone) (MultiShutdown.workers s).
Proof.
  set (sys b g w q c := MultiShutdown.mkMsystem (MultiShutdown.mkMulti [Waiters.mkWaiter b None] g) [w] [q] c).
  assert (Hrun : rtc MultiShutdown.runs (MultiShutdown.minit 1) (sys false 0 MultiShutdown.Gone 0%nat MultiShutdown.Finished)).
  { apply (rtc_l _ _ (sys false 1 MultiShutdown.Selecting 1%nat (MultiShutdown.Starting 0))).
    { right. apply (MultiShutdown.arrives_at _ _ [0%nat] 0 0); [reflexivity|lia]. }
    apply (rtc_l _ _ (sys true 1 MultiShutdown.Selecting 1%nat (MultiShutdown.Starting 1))).
    { left. apply MultiShutdown.mstep_signal; [cbn; lia|reflexivity]. }
    apply (rtc_l _ _ (sys true 1 (MultiShutdown.Snapshotting MultiShutdown.Succeeds) 0%nat (MultiShutdown.Starting 1))).
    { left. by apply (MultiShutdown.mstep_take _ [MultiShutdown.Selecting] [1%nat] 0 0). }
    apply (rtc_l _ _ (sys true 1 (MultiShutdown.Snapshotting MultiShutdown.Succeeds) 0%nat MultiShutdown.Waiting)).
    { left. by apply MultiShutdown.mstep_signalled. }
    apply (rtc_l _ _ (sys true 1 MultiShutdown.Selecting 0%nat MultiShutdown.Waiting)).
    { left. by apply (MultiShutdown.mstep_snapshot _ [MultiShutdown.Snapshotting MultiShutdown.Succeeds] _ 0). }
    apply (rtc_l _ _ (sys false 1 MultiShutdown.Ending 0%nat MultiShutdown.Waiting)).
    { left. apply (MultiShutdown.mstep_leave _ _ Waiters.Signalled [MultiShutdown.Selecting] _ 0);
        [reflexivity|apply list_elem_of_here]. }
    apply (rtc_l _ _ (sys false 0 MultiShutdown.Gone 0%nat MultiShutdown.Waiting)).
    { left. by apply (MultiShutdown.mstep_done _ _ [MultiShutdown.Ending] _ 0). }
    apply rtc_once. left. by apply MultiShutdown.mstep_return. }
  eexists. split; [exact Hrun|]. split; [reflexivity|].
  apply (MultiShutdown.multi_shutdown_completes 1 _ Hrun). reflexivity.
Defined.

(** *** Ring buffer *)

Module RingBuffer.
Section Channel.
Context {T : Type} (size : nat).

(** The two channels (the input holds one item, the output [size]), the item that
    the goroutine holds between them, and, as history, what was sent and received. *)
Record Channel : Type := mkChannel {
  input : list T; inputClosed : bool;
  held : option T;
  output : list T; outputClosed : bool;
  sent : list T; received : list T;
}.

Definition NewChannel : Channel := mkChannel [] false None [] false [] [].

(** Send: blocked while the input is full. *)
Definition Send (v : T) (c : Channel) : option (crash + Channel) :=
  if inputClosed c then Some (inl PanicClosedChannel)
  else if Nat.ltb (length (input c)) 1
  then Some (inr (mkChannel (input c ++ [v]) false (held c) (output c) (outputClosed c) (sent c ++ [v]) (received c)))
  else None.

Definition Close (c : Channel) : crash + Channel :=
  if inputClosed c then inl PanicClosedChannel
  else inr (mkChannel (input c) true (held c) (output c) (outputClosed c) (sent c) (received c)).

(** The goroutine: it takes an item from the input, puts it to the output as soon
    as there is room (the busy loop of the non-blocking send), and closes the
    output when the input is closed and empty. *)
Definition run (c : Channel) : option Channel :=
  match held c with
  | Some v =>
      if Nat.ltb (length (output c)) size
      then Some (mkChannel (input c) (inputClosed c) None (output c ++ [v]) (outputClosed c) (sent c) (received c))
      else None
  | None =>
      if outputClosed c then None
      else match input c with
           | v :: l => Some (mkChannel l (inputClosed c) (Some v) (output c) (outputClosed c) (sent c) (received c))
           | [] => if inputClosed c
                   then Some (mkChannel [] true None (output c) true (sent c) (received c))
                   else None
           end
  end.

(** Receive: the zero value from a closed and empty channel. *)
Definition Receive (zero : T) (c : Channel) : option (T * Channel) :=
  match output c with
  | v :: l => Some (v, mkChannel (input c) (inputClosed c) (held c) l (outputClosed c) (sent c) (received c ++ [v]))
  | [] =>
      match held c with
      | Some v =>
          if Nat.eqb size 0
          then Some (v, mkChannel (input c) (inputClosed c) None [] (outputClosed c) (sent c) (received c ++ [v]))
          else None
      | None => if outputClosed c then Some (zero, c) else None
      end
  end.

Inductive step (zero : T) : Channel -> Channel -> Prop :=
| step_send v c c' : Send v c = Some (inr c') -> step zero c c'
| step_close c c' : Close c = inr c' -> step zero c c'
| step_run c c' : run c = Some c' -> step zero c c'
| step_receive v c c' : Receive zero c = Some (v, c') -> step zero c c'.

Definition in_flight (c : Channel) : list T := output c ++ option_list (held c) ++ input c.

Record Fifo (c : Channel) : Prop := {
  fifo_order : sent c = received c ++ in_flight c;
  fifo_input : (length (input c) <= 1)%nat;
  fifo_output : (length (output c) <= size)%nat;
  fifo_closed : outputClosed c = true -> inputClosed c = true /\ held c = None /\ input c = [];
}.

Lemma fifo_send v c c' : Fifo c -> Send v c = Some (inr c') -> Fifo c'.
Proof.
  intros [Ho Hi Hs Hc] H. unfold Send in H. destruct (inputClosed c) eqn:Hic; [done|].
  destruct (Nat.ltb_spec (length (input c)) 1) as [Hlt|]; [|done]. injection H as <-. unfold in_flight in *.
  split; cbn; rewrite ?length_app; cbn; try lia.
  - rewrite Ho. by rewrite <- !app_assoc.
  - intros ?%Hc. naive_solver.
Qed.

Lemma fifo_run c c' : Fifo c -> run c = Some c' -> Fifo c'.
Proof.
  intros [Ho Hi Hs Hc] H. unfold run in H. unfold in_flight in Ho. destruct (held c) as [v|] eqn:Hh.
  - destruct (Nat.ltb_spec (length (output c)) size); [|done]. injection H as <-.
    split; unfold in_flight; cbn; rewrite ?length_app; cbn; try lia.
    + rewrite Ho. cbn. by rewrite <- !app_assoc.
    + intros ?%Hc. naive_solver.
  - destruct (outputClosed c) eqn:Hoc; [done|]. destruct (input c) as [|v l] eqn:Hin.
    + destruct (inputClosed c) eqn:Hic; [|done]. injection H as <-. split; unfold in_flight; cbn in *; (done || lia).
    + injection H as <-. split; unfold in_flight; cbn in *; (done || lia || congruence).
Qed.

Lemma fifo_receive zero v c c' : Fifo c -> Receive zero c = Some (v, c') -> Fifo c'.
Proof.
  intros [Ho Hi Hs Hc] H. unfold Receive in H. unfold in_flight in Ho. destruct (output c) as [|x l] eqn:Hout.
  - destruct (held c) as [x|] eqn:Hh.
    + destruct (Nat.eqb size 0); [|done]. injection H as <- <-.
      split; unfold in_flight; cbn in *; try (done || lia); [by rewrite Ho, <- app_assoc|]. naive_solver.
    + destruct (outputClosed c) eqn:Hoc; [|done]. injection H as <- <-.
      split; unfold in_flight; rewrite ?Hout, ?Hh; cbn; (done || lia || naive_solver).
  - injection H as <- <-. split; unfold in_flight; cbn in *; try (done || lia). by rewrite Ho, <- !app_assoc.
Qed.

Lemma ring_step zero c c' : Fifo c -> step zero c c' -> Fifo c'.
Proof.
  intros Hf Hstep. destruct Hstep as [v x y H|x y H|x y H|v x y H]; [by eapply fifo_send| |by eapply fifo_run|by eapply fifo_receive].
  unfold Close in H. destruct (inputClosed x) eqn:Hic; [done|]. injection H as <-. destruct Hf as [Ho Hi Hs Hc].
  split; cbn; try done. intros ?%Hc. naive_solver.
Qed.

Lemma ring_reachable zero c : rtc (step zero) NewChannel c -> Fifo c.
Proof.
  apply rtc_invariant; [|intros x y; apply ring_step]. split; cbn; (done || lia).
Qed.

(** The items come out in the order in which they were sent, none is lost or
    doubled, at most two more than the size are on their way, and a closed output
    means that every item is in it or was received. *)
Theorem ring_buffer_fifo zero c :
  rtc (step zero) NewChannel c ->
  sent c = received c ++ in_flight c /\ (length (in_flight c) <= size + 2)%nat /\
  (outputClosed c = true -> sent c = received c ++ output c).
Proof.
  intros [Ho Hi Hs Hc]%ring_reachable. split; [done|]. split.
  - unfold in_flight. rewrite !length_app. destruct (held c); cbn; lia.
  - intros (_ & Hh & Hin)%Hc. rewrite Ho. unfold in_flight. rewrite Hh, Hin. cbn. by rewrite app_nil_r.
Qed.

Lemma receive_output zero i ic h o oc s r :
  rtc (step zero) (mkChannel i ic h o oc s r) (mkChannel i ic h [] oc s (r ++ o)).
Proof.
  revert r. induction o as [|v o IH]; intros r; [by rewrite app_nil_r|].
  eapply rtc_l; [by eapply step_receive|]. rewrite (cons_middle v r o), app_assoc. apply IH.
Qed.

Lemma forward_held zero i ic v oc s r :
  rtc (step zero) (mkChannel i ic (Some v) [] oc s r) (mkChannel i ic None [] oc s (r ++ [v])).
Proof.
  destruct (Nat.eqb_spec size 0) as [Hz|Hz].
  - eapply rtc_once, step_receive. cbn. by rewrite Hz.
  - eapply rtc_l; [eapply step_run; cbn; by rewrite (proj2 (Nat.ltb_lt 0 size)) by lia|]. apply receive_output.
Qed.

Lemma forward_input zero i s r :
  rtc (step zero) (mkChannel i true None [] false s r) (mkChannel [] true None [] true s (r ++ i)).
Proof.
  revert r. induction i as [|v i IH]; intros r.
  - rewrite app_nil_r. eapply rtc_once, step_run. done.
  - eapply rtc_l; [by eapply step_run|]. etrans; [apply forward_held|].
    rewrite (cons_middle v r i), app_assoc. apply IH.
Qed.

(** As long as somebody receives, a closed channel delivers everything and then
    closes its output. *)
Theorem ring_buffer_drains zero c :
  rtc (step zero) NewChannel c -> inputClosed c = true -> outputClosed c = false ->
  exists c', rtc (step zero) c c' /\ outputClosed c' = true /\ received c' = sent c.
Proof.
  intros [Ho _ _ _]%ring_reachable Hi Hoc. destruct c as [i ic h o oc s r]; cbn in *. subst.
  exists (mkChannel [] true None [] true (r ++ in_flight (mkChannel i true h o false [] [])) (r ++ o ++ option_list h ++ i)).
  split; [|done]. etrans; [apply receive_output|]. destruct h as [v|]; cbn [option_list option_rect app].
  - etrans; [apply forward_held|]. etrans; [apply forward_input|]. rewrite <- !app_assoc. done.
  - etrans; [apply forward_input|]. rewrite <- !app_assoc. done.
Qed.
End Channel.
End RingBuffer.
