(* ===== verification/Lifecycle.v ===== *)
(** * Lifecycle: starting and stopping the streamer

    internal/replication/replicator.go (StartReplication, StopReplication,
    containerInitializer), internal/erroring/errors.go and the version checks of
    replicationcontext.go.

    StartReplication obtains the services from the container and starts them one
    by one; after each start it registers the shutdown task of the service.  Any
    step can fail, and then the process ends with an exit code.  The container,
    the services other than the file storage, the database and the catalog are
    arguments ([environment]); the file storage, the known tables and the check of
    the replica identities are those of the files StateStorage and Replicator. *)

From Stdlib Require Import ZArith Lia.
From stdpp Require Import base tactics option list numbers strings gmap.
From S2P Require Import Prelude Encoding Sinks Entities StateStorage Replicator Versions.

Local Open Scope Z_scope.

(** ** Errors *)

Record ExitError : Type := NewExitError { message : string; exitCode : Z }.

(** A Go error: its text, and whether it is an exit error already. *)
Record goerror : Type := mkError { error_text : string; is_exit : option ExitError }.

Definition plain_error (e : string) : goerror := mkError e None.

Definition AdaptError (err : goerror) (exitCode : Z) : ExitError :=
  match is_exit err with
  | Some e => e
  | None => NewExitError (error_text err) exitCode
  end.

Definition AdaptErrorWithMessage (err : goerror) (msg : string) (exitCode : Z) : ExitError :=
  match is_exit err with
  | Some e => e
  | None => NewExitError (msg ++ " => err: " ++ error_text err)%string exitCode
  end.

(** ** State *)

(** The shutdown tasks, by the service they stop; [KnownTables] is the task that
    stores the tables of the catalog. *)
Inductive component : Set := Stats | Dispatcher | Context_ | Emitter | Snapshotter | KnownTables | Channel.

#[global] Instance component_eq_dec : EqDecision component.
Proof. solve_decision. Defined.

(** The state storage with its file, the services that were started and not
    stopped, the registered tasks, the tasks that ran, and the tables the
    replication channel was started with. *)
Record world : Type := mkWorld {
  storage : FileStorage.fileStateStorage;
  up : list component;
  shutdownTasks : list component;
  stopped : list component;
  initialTables : option (list SystemEntity);
}.

Definition with_storage (s : FileStorage.fileStateStorage) (w : world) : world :=
  mkWorld s (up w) (shutdownTasks w) (stopped w) (initialTables w).

(** A new process, on the file that the last one left. *)
Definition NewReplicator (disk : file) : world := mkWorld (FileStorage.NewFileStateStorage disk) [] [] [] None.

(** Running to the end of a step, leaving with an exit error, or crashing. *)
Inductive progress (A : Type) : Type :=
| Started (a : A) (w : world)
| Exits (e : ExitError) (w : world)
| Crashes (c : crash).
Arguments Started {A}.
Arguments Exits {A}.
Arguments Crashes {A}.

Definition St (A : Type) : Type := world -> progress A.

#[export] Instance St_ret : MRet St := fun A a w => Started a w.
#[export] Instance St_bind : MBind St := fun A B k m w =>
  match m w with
  | Started a w' => k a w'
  | Exits e w' => Exits e w'
  | Crashes c => Crashes c
  end.

(** [if err := ...; err != nil { return adapt(err) }] *)
Definition try_ (err : option goerror) (adapt : goerror -> ExitError) : St unit := fun w =>
  match err with
  | None => Started tt w
  | Some e => Exits (adapt e) w
  end.

(** A service is running, and [r.shutdownTasks = append(r.shutdownTasks, ...)]. *)
Definition started (c : component) : St unit := fun w =>
  Started tt (mkWorld (storage w) (up w ++ [c]) (shutdownTasks w ++ [c]) (stopped w) (initialTables w)).

(** A result of the collectors, which adapt their error themselves. *)
Definition collected (r : crash + (string + list SystemEntity)) (msg : string) : St (list SystemEntity) := fun w =>
  match r with
  | inl c => Crashes c
  | inr (inl e) => Exits (AdaptErrorWithMessage (plain_error e) msg 25) w
  | inr (inr l) => Started l w
  end.

(** ** Start *)

(** What containerInitializer looks at. *)
Record server : Type := mkServer { pgVersion : Z; tsdbVersion : Z; walLevel : string }.

Definition IsLogicalReplicationEnabled (s : server) : bool := String.eqb (walLevel s) "logical".

Definition containerInitializer (s : server) : option ExitError :=
  if negb (Versions.IsMinimumPostgresVersion (pgVersion s))
  then Some (NewExitError "timescaledb-event-streamer requires PostgreSQL 13 or later" 11)
  else if negb (Versions.IsMinimumTimescaleVersion (tsdbVersion s))
  then Some (NewExitError "timescaledb-event-streamer requires TimescaleDB 2.10 or later" 12)
  else if negb (IsLogicalReplicationEnabled s)
  then Some (NewExitError "timescaledb-event-streamer requires wal_level set to 'logical'" 16)
  else None.

Inductive service : Set :=
| StatsService | TaskManagerService | ReplicationContextService | EventEmitterService | SnapshotterService
| PublicationManagerService | SystemCatalogService | StateManagerService | ReplicationChannelService.

(** The outcomes of the calls of StartReplication, and the catalog it reads. *)
Record environment : Type := mkEnvironment {
  database_server : server;
  providers : option goerror;
  container_Service : service -> option goerror;
  stats_Start : option goerror;
  emitter_Start : option goerror;
  hypertables : list Hypertable;
  vanillaTables : list PgTable;
  GetAllChunks : list SystemEntity;
  ReadPublishedTables : string + list SystemEntity;
  channel_Start : list SystemEntity -> option goerror;
  ErrNoRestartPointInReplicationSlot : goerror -> bool;
}.

Section Start.
Context (env : environment).

Definition GetAllVanillaTables : list SystemEntity := (fun t => BaseTable.entity (Vanilla.table t)) <$> vanillaTables env.

(** The providers run first, then the initializer; its error is an exit error. *)
Definition NewContainer : option goerror :=
  match providers env with
  | Some e => Some e
  | None => (fun e => mkError (message e) (Some e)) <$> containerInitializer (database_server env)
  end.

Definition Service (s : service) : St unit := try_ (container_Service env s) (fun e => AdaptError e 1).

(** StartReplicationContext: the state storage is started. *)
Definition StartReplicationContext : St unit := fun w =>
  match FileStorage.Start (storage w) with
  | Ret _ s => Started tt (with_storage s w)
  | Err e s => Exits (AdaptErrorWithMessage (plain_error e) "failed to start replication context" 18) (with_storage s w)
  | Crash c => Crashes c
  end.

Definition start_channel (tables : list SystemEntity) : St unit := fun w =>
  let w := mkWorld (storage w) (up w) (shutdownTasks w) (stopped w) (Some tables) in
  try_ (channel_Start env tables) (fun err =>
    if ErrNoRestartPointInReplicationSlot env err
    then AdaptErrorWithMessage err
      "No restart LSN available in replication slot. Cannot resume, replicated data would have gaps." 30
    else AdaptError err 16) w.

Definition encodedState (w : world) (name : string) : option bytes := FileStorage.EncodedState name (storage w).
Definition get_state : St (string -> option bytes) := fun w => Started (encodedState w) w.

(** The tables that are passed to the channel. *)
Definition collect : St (list SystemEntity) :=
  publishedTables ← match ReadPublishedTables env with
                    | inl e => fun w => Exits (AdaptErrorWithMessage (plain_error e) "failed to read published tables" 25) w
                    | inr l => mret l
                    end;
  state ← get_state;
  initialTables ← collected (collectChunksForPublication state (GetAllChunks env) publishedTables)
                    "failed to read known chunks";
  initialVanillaTables ← collected (collectVanillaTablesForPublication state GetAllVanillaTables publishedTables)
                    "failed to read known tables";
  mret (initialTables ++ initialVanillaTables)%list.

Definition StartReplication : St unit :=
  (fun w => Started tt (mkWorld (storage w) (up w) [] (stopped w) (initialTables w))) ;;
  try_ NewContainer (fun e => AdaptError e 1) ;;
  Service StatsService ;;
  try_ (stats_Start env) (fun e => AdaptError e 0) ;;
  started Stats ;;
  Service TaskManagerService ;;
  started Dispatcher ;;
  Service ReplicationContextService ;;
  StartReplicationContext ;;
  started Context_ ;;
  Service EventEmitterService ;;
  try_ (emitter_Start env) (fun e => AdaptErrorWithMessage e "failed to start event emitter" 24) ;;
  started Emitter ;;
  Service SnapshotterService ;;
  started Snapshotter ;;
  Service PublicationManagerService ;;
  Service SystemCatalogService ;;
  (fun w => match checkReplicaIdentities (hypertables env) (vanillaTables env) with
            | [] => Started tt w
            | _ => Exits (NewExitError "stopped" 1) w
            end) ;;
  Service StateManagerService ;;
  started KnownTables ;;
  tables ← collect;
  Service ReplicationChannelService ;;
  start_channel tables ;;
  started Channel.
End Start.

(** ** Stop *)

Section Stop.
Context `{AtomicWriter}.
(** Errors of the services that are stopped (the emitter's is that of its sink),
    the attributes of the sink, the catalog at that time, and the orders in which
    the maps of the sink and of the storage are visited. *)
Context (stop_error : component -> option string).
Context (sinkContext : Sinks.sinkContext) (entries : list (string * string)).
Context (chunks tables : list SystemEntity).
Context (lo : FileStorage.fileStateStorage -> list (string * Offset)).
Context (le : FileStorage.fileStateStorage -> list (string * bytes)).

Definition set_known (name : string) (l : list SystemEntity) : G FileStorage.fileStateStorage (option string) := fun s =>
  match encodeKnownTables l [] with
  | Ret _ enc => Ret None (FileStorage.SetEncodedState name enc s)
  | Err e _ => Ret (Some e) s
  | Crash c => Crash c
  end.

(** The task that stores the known tables: both lists are stored if they can be. *)
Definition saveKnownTables : G FileStorage.fileStateStorage unit :=
  err1 ← set_known esPreviouslyKnownChunks chunks;
  err2 ← set_known esPreviouslyKnownTables tables;
  match err1, err2 with
  | None, None => mret tt
  | _, _ => fail (default "" err1 ++ default "" err2)%string
  end.

Definition on_storage (m : G FileStorage.fileStateStorage unit) : G world unit := fun w =>
  match m (storage w) with
  | Ret a s => Ret a (with_storage s w)
  | Err e s => Err e (with_storage s w)
  | Crash c => Crash c
  end.

Definition stop_service (c : component) : G world unit :=
  match c with
  | KnownTables => on_storage saveKnownTables
  | Context_ => on_storage (fun s => FileStorage.Stop (lo s) (le s) s)
  | Emitter =>
      on_storage (FileStorage.StateEncoder Sinks.sinkContextStateName
        (inr (inr (Sinks.MarshalBinary entries sinkContext)))) ;;
      match stop_error c with Some e => fail e | None => mret tt end
  | _ => match stop_error c with Some e => fail e | None => mret tt end
  end.

(** A shutdown task that ran; its service is down, also when it failed. *)
Definition shutdown_task (c : component) : G world unit := fun w =>
  stop_service c (mkWorld (storage w) (filter (fun d => d <> c) (up w)) (shutdownTasks w) (stopped w ++ [c]) (initialTables w)).

Definition Stop : G world (option ExitError) := fun w =>
  match StopReplication (shutdown_task <$> shutdownTasks w) w with
  | Ret [] w' => Ret None w'
  | Ret errors w' => Ret (Some (AdaptError (plain_error (String.concat (String (Ascii.ascii_of_nat 10) "") errors)) 250)) w'
  | Err e w' => Err e w'
  | Crash c => Crash c
  end.
End Stop.

(** ** Properties *)

(** *** What a start leaves behind *)

(** [m] starts the services [l] in this order, or leaves after some of [k]. *)
Definition starts {A} (m : St A) (k l : list component) : Prop := forall w,
  match m w with
  | Started _ w' => up w' = (up w ++ l)%list /\ shutdownTasks w' = (shutdownTasks w ++ l)%list /\ stopped w' = stopped w
  | Exits _ w' => exists p, p `prefix_of` k /\ up w' = (up w ++ p)%list /\
      shutdownTasks w' = (shutdownTasks w ++ p)%list /\ stopped w' = stopped w
  | Crashes _ => True
  end.

Lemma starts_bind {A B} (m : St A) (f : A -> St B) l k1 l1 :
  starts m [] l -> (forall a, starts (f a) k1 l1) -> starts (m ≫= f) (l ++ k1) (l ++ l1).
Proof.
  intros Hm Hf w. specialize (Hm w). unfold mbind, St_bind.
  destruct (m w) as [a w1|e w1|c]; [|destruct Hm as (p & Hp & Hr)|done].
  - destruct Hm as (Hu & Hs & Hd). specialize (Hf a w1). destruct (f a w1) as [b w2|e w2|c]; [| |done].
    + rewrite Hu, Hs, Hd, <- !app_assoc in Hf. done.
    + destruct Hf as (p & Hp & Hf). exists (l ++ p)%list. rewrite Hu, Hs, Hd, <- !app_assoc in Hf.
      split; [by apply prefix_app|done].
  - exists p. apply prefix_nil_inv in Hp as ->. split; [apply prefix_nil|done].
Qed.

Lemma starts_nil {A B} (m : St A) (f : A -> St B) k l :
  starts m [] [] -> (forall a, starts (f a) k l) -> starts (m ≫= f) k l.
Proof. apply starts_bind. Qed.

Lemma starts_started c : starts (started c) [] [c].
Proof. by intros w. Qed.

Lemma starts_one {B} c (m : St B) k l : starts m k l -> starts (started c ;; m) (c :: k) (c :: l).
Proof. intros Hm. apply (starts_bind (started c) (fun _ => m) [c] k l); [apply starts_started|done]. Qed.

Lemma starts_ret {A} (a : A) : starts (mret a) [] [].
Proof. intros w. cbn. by rewrite !app_nil_r. Qed.

Lemma starts_exit {A} (e : ExitError) : starts (A := A) (fun w => Exits e w) [] [].
Proof. intros w. exists []. by rewrite !app_nil_r. Qed.

Lemma starts_try err adapt : starts (try_ err adapt) [] [].
Proof. destruct err; [apply starts_exit|apply starts_ret]. Qed.

Lemma starts_collected r msg : starts (collected r msg) [] [].
Proof. destruct r as [c|[e|l]]; [by intros w|apply starts_exit|apply starts_ret]. Qed.

Create HintDb lifecycle discriminated.
#[export] Hint Resolve starts_started starts_ret starts_try starts_collected starts_exit : lifecycle.

Section StartProperties.
Context (env : environment).

Lemma starts_service s : starts (Service env s) [] [].
Proof. apply starts_try. Qed.

Lemma starts_context : starts StartReplicationContext [] [].
Proof.
  intros w. unfold StartReplicationContext. destruct (FileStorage.Start (storage w)) as [a s|e s|c]; cbn; [| |done].
  - by rewrite !app_nil_r.
  - exists []. by rewrite !app_nil_r.
Qed.

Lemma starts_collect : starts (collect env) [] [].
Proof.
  unfold collect. apply starts_nil.
  - destruct (ReadPublishedTables env); [apply starts_exit|apply starts_ret].
  - intros l. apply starts_nil; [intros w; cbn; by rewrite !app_nil_r|].
    intros st. repeat (apply starts_nil; [auto with lifecycle|intros ?]). auto with lifecycle.
Qed.

Lemma starts_channel tables : starts (start_channel env tables) [] [].
Proof. intros w. exact (starts_try _ _ (mkWorld (storage w) (up w) (shutdownTasks w) (stopped w) (Some tables))). Qed.

Definition all_services : list component := [Stats; Dispatcher; Context_; Emitter; Snapshotter; KnownTables; Channel].

Lemma starts_identities :
  starts (fun w => match checkReplicaIdentities (hypertables env) (vanillaTables env) with
                   | [] => Started tt w
                   | _ => Exits (NewExitError "stopped" 1) w
                   end) [] [].
Proof. destruct (checkReplicaIdentities _ _); [apply starts_ret|apply starts_exit]. Qed.
#[local] Hint Resolve starts_service starts_context starts_collect starts_channel starts_identities : lifecycle.

Lemma starts_all w :
  match StartReplication env w with
  | Started _ w' => up w' = (up w ++ all_services)%list /\ shutdownTasks w' = all_services /\ stopped w' = stopped w
  | Exits _ w' => exists k, k `prefix_of` [Stats; Dispatcher; Context_; Emitter; Snapshotter; KnownTables] /\
      up w' = (up w ++ k)%list /\ shutdownTasks w' = k /\ stopped w' = stopped w
  | Crashes _ => True
  end.
Proof.
  unfold StartReplication. unfold mbind at 1, St_bind at 1.
  match goal with |- match ?m ?w0 with _ => _ end =>
    assert (H : starts m [Stats; Dispatcher; Context_; Emitter; Snapshotter; KnownTables] all_services)
  end.
  { repeat first [apply starts_one | apply starts_nil; [auto with lifecycle|intros ?] | apply starts_started]. }
  exact (H (mkWorld (storage w) (up w) [] (stopped w) (initialTables w))).
Qed.
End StartProperties.

(** *** Stopping *)

Section StopProperties.
Context `{AtomicWriter}.
Context (stop_error : component -> option string).
Context (sinkContext : Sinks.sinkContext) (entries : list (string * string)).
Context (chunks tables : list SystemEntity).
Context (lo : FileStorage.fileStateStorage -> list (string * Offset)).
Context (le : FileStorage.fileStateStorage -> list (string * bytes)).

Definition enc_known (l : list SystemEntity) : bytes :=
  (be_put 4 (u32 (Z.of_nat (length l))) ++ concat (enc_entity <$> l))%list.

Lemma encodeKnownTables_ret l : encodeKnownTables l [] = Ret tt (enc_known l).
Proof.
  apply writes_run. apply writes_seq; [apply writes_write|]. apply writes_forM. intros e _. apply writes_entity.
Qed.

(** The storage after the known tables were stored in it. *)
Definition with_known (s : FileStorage.fileStateStorage) : FileStorage.fileStateStorage :=
  FileStorage.SetEncodedState esPreviouslyKnownTables (enc_known tables)
    (FileStorage.SetEncodedState esPreviouslyKnownChunks (enc_known chunks) s).

Lemma saveKnownTables_ret s : saveKnownTables chunks tables s = Ret tt (with_known s).
Proof.
  unfold saveKnownTables, set_known. unfold mbind, G_bind. rewrite encodeKnownTables_ret. cbv beta iota.
  by rewrite encodeKnownTables_ret.
Qed.

(** A task changes nothing of the world but the storage and its own service. *)
Definition stops (c : component) (w w' : world) : Prop :=
  up w' = filter (fun d => d <> c) (up w) /\ stopped w' = (stopped w ++ [c])%list /\ shutdownTasks w' = shutdownTasks w.

Lemma task_runs c w :
  exists w', stops c w w' /\
    (shutdown_task stop_error sinkContext entries chunks tables lo le c w = Ret tt w' \/
     exists e, shutdown_task stop_error sinkContext entries chunks tables lo le c w = Err e w').
Proof.
  unfold shutdown_task, stop_service, on_storage. destruct c; cbn [storage];
    try (destruct (stop_error _) as [e|]; eexists; (split; [|(by left) || (right; by eexists)]); done).
  - unfold FileStorage.Stop, FileStorage.Save.
    destruct (aw_new _) as [e|]; [|destruct (aw_write _ _) as [e|]];
      eexists; (split; [|(by left) || (right; by eexists)]); done.
  - rewrite saveKnownTables_ret. eexists. split; [|by left]. done.
Qed.

Lemma stop_runs l w :
  exists errors w', stop_tasks (shutdown_task stop_error sinkContext entries chunks tables lo le <$> l) w = Ret errors w' /\
    up w' = filter (fun d => d ∉ l) (up w) /\ stopped w' = (stopped w ++ l)%list.
Proof.
  revert w. induction l as [|c l IH]; intros w; cbn [fmap list_fmap stop_tasks].
  - exists [], w. split; [done|]. rewrite app_nil_r. split; [|done].
    induction (up w) as [|x u IHu]; [done|]. rewrite filter_cons_True by apply not_elem_of_nil. by f_equal.
  - destruct (task_runs c w) as (w1 & (Hu & Hs & _) & Hrun).
    destruct (IH w1) as (errors & w2 & Hw2 & Hu2 & Hs2).
    exists (match shutdown_task stop_error sinkContext entries chunks tables lo le c w with Err e _ => e :: errors | _ => errors end), w2.
    split.
    + unfold mbind, G_bind, catch. by destruct Hrun as [->|[e ->]]; rewrite Hw2.
    + rewrite Hu2, Hs2, Hu, Hs, <- app_assoc. split; [|done]. rewrite list_filter_filter.
      apply list_filter_iff. intros x. rewrite not_elem_of_cons. tauto.
Qed.

Lemma Stop_runs w :
  exists r w', Stop stop_error sinkContext entries chunks tables lo le w = Ret r w' /\
    up w' = filter (fun d => d ∉ rev (shutdownTasks w)) (up w) /\
    stopped w' = (stopped w ++ rev (shutdownTasks w))%list.
Proof.
  destruct (stop_runs (rev (shutdownTasks w)) w) as (errors & w' & Hrun & Hu & Hs).
  unfold Stop, StopReplication. rewrite <- map_rev in *. change (map ?f ?l) with (f <$> l).
  rewrite Hrun. destruct errors; eexists _, w'; done.
Qed.

Lemma filter_own (l : list component) : filter (fun d => d ∉ rev l) l = [].
Proof.
  destruct (filter (fun d => d ∉ rev l) l) as [|x k] eqn:E; [done|].
  assert (Hx : x ∈ filter (fun d => d ∉ rev l) l) by (rewrite E; apply list_elem_of_here).
  apply list_elem_of_filter in Hx as [Hn Hx]. destruct Hn. by apply list_elem_of_In, in_rev; rewrite rev_involutive; apply list_elem_of_In.
Qed.

(** C26. However far the start comes, the stop undoes it: the services that were
    started, and no others, are stopped, each once and in the reverse order, even
    when some of them report errors.  The start is complete exactly when it ends
    without an exit error. *)
Theorem stop_undoes_start env w :
  up w = [] -> stopped w = [] ->
  match StartReplication env w with
  | Started _ w' | Exits _ w' =>
      exists r w'', Stop stop_error sinkContext entries chunks tables lo le w' = Ret r w'' /\
        up w'' = [] /\ stopped w'' = rev (up w')
  | Crashes _ => True
  end /\
  match StartReplication env w with
  | Started _ w' => up w' = all_services
  | Exits _ w' => Channel ∉ up w' /\ up w' `prefix_of` all_services
  | Crashes _ => True
  end.
Proof.
  intros Hw Hst. pose proof (starts_all env w) as Hs. rewrite Hw, Hst in Hs.
  assert (Hstop : forall w', up w' = shutdownTasks w' -> stopped w' = [] ->
    exists r w'', Stop stop_error sinkContext entries chunks tables lo le w' = Ret r w'' /\ up w'' = [] /\ stopped w'' = rev (up w')).
  { intros w' Hu Hs'. destruct (Stop_runs w') as (r & w'' & Hrun & Hu' & Hd). exists r, w''.
    split; [done|]. rewrite Hu', Hd, Hs', <- Hu, filter_own. done. }
  destruct (StartReplication env w) as [a w'|e w'|c]; [| |done].
  - destruct Hs as (Hu & Ht & Hd). cbn in Hu. split; [|done]. apply Hstop; congruence.
  - destruct Hs as (k & Hk & Hu & Ht & Hd). cbn in Hu. split; [apply Hstop; congruence|]. rewrite Hu. split.
    + intros Hc. apply (elem_of_prefix _ _ _ Hc) in Hk. apply list_elem_of_In in Hk. cbn in Hk. clear -Hk. intuition congruence.
    + etrans; [exact Hk|]. by exists [Channel].
Qed.
End StopProperties.

(** *** The known tables across a restart *)

Section Restart.
Context `{AtomicWriter}.
Context (stop_error : component -> option string).
Context (sinkContext : Sinks.sinkContext) (entries : list (string * string)).
Context (chunks tables : list SystemEntity).
Context (lo : FileStorage.fileStateStorage -> list (string * Offset)).
Context (le : FileStorage.fileStateStorage -> list (string * bytes)).

(** The storage after the sink's attributes were stored in it. *)
Definition with_sink (s : FileStorage.fileStateStorage) : FileStorage.fileStateStorage :=
  FileStorage.SetEncodedState Sinks.sinkContextStateName (Sinks.MarshalBinary entries sinkContext) s.

(** What a shutdown task does to the storage. *)
Definition effect (c : component) (s : FileStorage.fileStateStorage) : FileStorage.fileStateStorage :=
  match c with
  | KnownTables => with_known chunks tables s
  | Context_ => FileStorage.set_disk (snd (aw_close (FileStorage.image (lo s) (le s) s) (FileStorage.disk s))) s
  | Emitter => with_sink s
  | _ => s
  end.

Lemma task_effect c w w' :
  shutdown_task stop_error sinkContext entries chunks tables lo le c w = Ret tt w' -> storage w' = effect c (storage w).
Proof.
  unfold shutdown_task, stop_service, on_storage. destruct c; cbn [storage];
    try (destruct (stop_error _); intros [= <-]; done).
  - unfold FileStorage.Stop, FileStorage.Save. destruct (aw_new _) as [e|]; [done|].
    destruct (aw_write _ _) as [e|]; [done|]. by intros [= <-].
  - rewrite saveKnownTables_ret. intros [= <-]. done.
Qed.

Lemma tasks_effect l w w' :
  stop_tasks (shutdown_task stop_error sinkContext entries chunks tables lo le <$> l) w = Ret [] w' ->
  storage w' = fold_left (fun s c => effect c s) l (storage w).
Proof.
  revert w. induction l as [|c l IH]; intros w; cbn [fmap list_fmap stop_tasks fold_left].
  - by intros [= <-].
  - unfold mbind at 1, G_bind at 1, catch. destruct (task_runs stop_error sinkContext entries chunks tables lo le c w) as (w1 & _ & Hrun).
    destruct (stop_runs stop_error sinkContext entries chunks tables lo le l w1) as (errors & w2 & Hrun2 & _).
    destruct Hrun as [Hrun|[e Hrun]]; rewrite Hrun; unfold mbind, G_bind; rewrite Hrun2; [|done].
    intros [= -> <-]. rewrite (IH _ Hrun2). by rewrite (task_effect _ _ _ Hrun).
Qed.

(** The storage when the file is saved: the known tables and then the attributes
    of the sink were stored before. *)
Definition at_save (w : world) : FileStorage.fileStateStorage := with_sink (with_known chunks tables (storage w)).

(** The writer's Close, whose error the code drops, did rename the file. *)
Definition file_replaced (w : world) : Prop :=
  let s := at_save w in fst (aw_close (FileStorage.image (lo s) (le s) s) (FileStorage.disk s)) = None.

(** A clean stop writes the known tables to the file, if the file was replaced. *)
Lemma clean_stop_saves w w' :
  shutdownTasks w = all_services -> Stop stop_error sinkContext entries chunks tables lo le w = Ret None w' ->
  file_replaced w -> let s := at_save w in
  FileStorage.disk (storage w') = File (FileStorage.image (lo s) (le s) s).
Proof.
  intros Ht Hstop Hclose s. unfold Stop, StopReplication in Hstop. rewrite Ht in Hstop.
  change (rev (shutdown_task stop_error sinkContext entries chunks tables lo le <$> all_services))
    with (shutdown_task stop_error sinkContext entries chunks tables lo le <$> rev all_services) in Hstop.
  destruct (stop_tasks _ w) as [[|e errors] w1|e w1|c] eqn:E; try done. injection Hstop as <-.
  rewrite (tasks_effect _ _ _ E). cbn. fold (at_save w).
  unfold file_replaced in Hclose. cbn zeta in Hclose.
  destruct (FileStorage.aw_close_cases (FileStorage.image (lo s) (le s) s) (FileStorage.disk s)) as [[_ ?]|[[e He] _]];
    [done|unfold s in He; congruence].
Qed.

(** A file that was saved is loaded. *)
Lemma load_saved s :
  FileStorage.savable s -> lo s ≡ₚ map_to_list (FileStorage.offsets s) ->
  le s ≡ₚ map_to_list (FileStorage.encodedStates s) ->
  let f := File (FileStorage.image (lo s) (le s) s) in
  exists o, FileStorage.Start (FileStorage.NewFileStateStorage f)
    = Ret tt (FileStorage.mkStorage o (FileStorage.encodedStates s) f).
Proof.
  intros Hs Hlo Hle f. eexists. unfold FileStorage.Start.
  erewrite (FileStorage.Load_file (FileStorage.NewFileStateStorage f)); [reflexivity|reflexivity| |].
  - apply FileStorage.image_nonempty.
  - pose proof (FileStorage.exactly_parse s (FileStorage.NewFileStateStorage f) (lo s) (le s) Hs Hlo Hle) as Hp.
    cbn in Hp. rewrite (right_id_L ∅ (∪) (FileStorage.encodedStates s)) in Hp. exact Hp.
Qed.

Lemma decode_known l : Forall entity_ok l -> encodable (length l) -> decodeKnownTables (enc_known l) = Ret l [].
Proof.
  intros Hok Hlen. destruct (known_tables_roundtrip l Hok Hlen) as (enc & Henc & Hdec).
  rewrite encodeKnownTables_ret in Henc. by injection Henc as <-.
Qed.
End Restart.

(** Every call of the start succeeds. *)
Record healthy (env : environment) (published : list SystemEntity) : Prop := {
  ok_providers : providers env = None;
  ok_server : containerInitializer (database_server env) = None;
  ok_services : forall s, container_Service env s = None;
  ok_stats : stats_Start env = None;
  ok_emitter : emitter_Start env = None;
  ok_identities : checkReplicaIdentities (hypertables env) (vanillaTables env) = [];
  ok_published : ReadPublishedTables env = inr published;
  ok_channel : forall l, channel_Start env l = None;
}.

(** The known tables that still exist and are not in the publication. *)
Definition missing (known all published : list SystemEntity) : list SystemEntity :=
  List.filter (fun e => named_in all e && negb (named_in published e)) known.

Lemma bind_started {A B} (m : St A) (f : A -> St B) w a w' : m w = Started a w' -> (m ≫= f) w = f a w'.
Proof. unfold mbind, St_bind. by intros ->. Qed.

Lemma collected_known env state known published :
  decodeKnownTables known = Ret published [] -> state esPreviouslyKnownChunks = Some known ->
  forall pub msg w, collected (collectChunksForPublication state (GetAllChunks env) pub) msg w
    = Started (missing published (GetAllChunks env) (List.filter internal_schema pub)) w.
Proof.
  intros Hd Hs pub msg w. unfold collectChunksForPublication, getKnownChunks, getKnown. rewrite Hs, Hd.
  unfold missing. cbn. by rewrite filter_filter_and.
Qed.

Lemma collected_vanilla env state known published :
  decodeKnownTables known = Ret published [] -> state esPreviouslyKnownTables = Some known ->
  forall pub msg w, collected (collectVanillaTablesForPublication state (GetAllVanillaTables env) pub) msg w
    = Started (missing published (GetAllVanillaTables env) (plain_tables pub)) w.
Proof.
  intros Hd Hs pub msg w. unfold collectVanillaTablesForPublication, getKnownVanillaTables, getKnown. rewrite Hs, Hd.
  unfold missing, plain_tables. cbn. by rewrite filter_filter_and.
Qed.

Lemma healthy_collect env published chunks tables w :
  healthy env published ->
  Forall entity_ok chunks -> encodable (length chunks) -> Forall entity_ok tables -> encodable (length tables) ->
  encodedState w esPreviouslyKnownChunks = Some (enc_known chunks) ->
  encodedState w esPreviouslyKnownTables = Some (enc_known tables) ->
  collect env w = Started (missing chunks (GetAllChunks env) (List.filter internal_schema published) ++
                           missing tables (GetAllVanillaTables env) (plain_tables published))%list w.
Proof.
  intros Hh Hok1 Hl1 Hok2 Hl2 H1 H2. unfold collect. rewrite (ok_published _ _ Hh).
  erewrite bind_started by reflexivity. erewrite bind_started by reflexivity.
  erewrite bind_started by (apply (collected_known env _ (enc_known chunks) chunks); [by apply decode_known|exact H1]).
  by erewrite bind_started by (apply (collected_vanilla env _ (enc_known tables) tables); [by apply decode_known|exact H2]).
Qed.

(** A healthy start passes to the channel what is missing in the publication. *)
Lemma healthy_start env published w s l :
  healthy env published -> FileStorage.Start (storage w) = Ret tt s ->
  (forall w', storage w' = s -> collect env w' = Started l w') ->
  StartReplication env w = Started tt (mkWorld s (up w ++ all_services)%list all_services (stopped w) (Some l)).
Proof.
  intros Hh Hs Hc. unfold StartReplication, Service, NewContainer.
  rewrite (ok_providers _ _ Hh), (ok_server _ _ Hh), !(ok_services _ _ Hh), (ok_stats _ _ Hh), (ok_emitter _ _ Hh),
    (ok_identities _ _ Hh).
  do 8 (erewrite bind_started by reflexivity).
  erewrite bind_started by (unfold StartReplicationContext; cbn [storage]; rewrite Hs; reflexivity).
  do 11 (erewrite bind_started by reflexivity).
  erewrite bind_started by (by apply Hc).
  erewrite bind_started by reflexivity.
  erewrite bind_started by (unfold start_channel; rewrite (ok_channel _ _ Hh); reflexivity).
  unfold started. cbn. by rewrite <- !app_assoc.
Qed.

(** C25. A restart adds to the publication what the last run knew: after a stop of
    a running streamer that reported no error and whose state file was in fact
    replaced (the error of the writer's deferred Close is dropped by the code, so
    this is a condition of its own), the tables and chunks of its catalog are in
    the state file, and a start on that file in which no call fails passes to the
    replication channel exactly those of them that still exist and are not
    published -- the tables that were created in between are not among them.  The
    names and the numbers of the tables, and the storage as a whole, are within
    the limits of the formats (lengths below 2^32). *)
Theorem known_tables_survive_restart `{AtomicWriter} stop_error sinkContext entries chunks tables lo le env published w w' :
  let s := at_save sinkContext entries chunks tables w in
  shutdownTasks w = all_services -> Stop stop_error sinkContext entries chunks tables lo le w = Ret None w' ->
  file_replaced sinkContext entries chunks tables lo le w ->
  FileStorage.savable s -> lo s ≡ₚ map_to_list (FileStorage.offsets s) ->
  le s ≡ₚ map_to_list (FileStorage.encodedStates s) ->
  Forall entity_ok chunks -> encodable (length chunks) -> Forall entity_ok tables -> encodable (length tables) ->
  healthy env published ->
  exists w2, StartReplication env (NewReplicator (FileStorage.disk (storage w'))) = Started tt w2 /\
    initialTables w2 = Some (missing chunks (GetAllChunks env) (List.filter internal_schema published) ++
                             missing tables (GetAllVanillaTables env) (plain_tables published))%list.
Proof.
  intros s Ht Hstop Hclose Hsav Hlo Hle Hok1 Hl1 Hok2 Hl2 Hh.
  rewrite (clean_stop_saves stop_error sinkContext entries chunks tables lo le w w' Ht Hstop Hclose). fold s.
  destruct (load_saved lo le s Hsav Hlo Hle) as [o Hload].
  eexists. split; [|shelve]. eapply healthy_start; [exact Hh|exact Hload|].
  intros w1 Hw1. apply (healthy_collect env published chunks tables w1 Hh Hok1 Hl1 Hok2 Hl2).
  - unfold encodedState, FileStorage.EncodedState. rewrite Hw1. cbn.
    do 2 rewrite lookup_insert_ne by done. apply lookup_insert_eq.
  - unfold encodedState, FileStorage.EncodedState. rewrite Hw1. cbn.
    rewrite lookup_insert_ne by done. apply lookup_insert_eq.
  Unshelve. reflexivity.
Qed.

(** The exit code of a statistics service that does not start is that of success. *)
Lemma stats_failure_exits_zero env w e :
  providers env = None -> containerInitializer (database_server env) = None ->
  container_Service env StatsService = None -> stats_Start env = Some (plain_error e) ->
  exists w', StartReplication env w = Exits (NewExitError e 0) w'.
Proof.
  intros Hp Hs Hc He. eexists. unfold StartReplication, Service, NewContainer. rewrite Hp, Hs, Hc, He.
  do 3 (erewrite bind_started by reflexivity). reflexivity.
Qed.

(** *** Concrete inputs *)

Definition chunk_1 : SystemEntity := NewSystemEntity "_timescaledb_internal" "_hyper_1_1_chunk".
Definition chunk_2 : SystemEntity := NewSystemEntity "_timescaledb_internal" "_hyper_1_2_chunk".
Definition chunk_3 : SystemEntity := NewSystemEntity "_timescaledb_internal" "_hyper_1_3_chunk".

Definition sample_env : environment :=
  mkEnvironment (mkServer 150003 21402 "logical") None (fun _ => None) None None [] [] [chunk_2; chunk_3] (inr [])
    (fun _ => None) (fun _ => false).

Lemma sample_healthy : healthy sample_env [].
Proof. by split. Qed.

(** An environment in which the event emitter does not start. *)
Definition broken_env : environment :=
  mkEnvironment (mkServer 150003 21402 "logical") None (fun _ => None) None (Some (plain_error "no sink")) [] [] [] (inr [])
    (fun _ => None) (fun _ => false).

Definition visit_offsets (s : FileStorage.fileStateStorage) : list (string * Offset) := map_to_list (FileStorage.offsets s).
Definition visit_states (s : FileStorage.fileStateStorage) : list (string * bytes) :=
  map_to_list (FileStorage.encodedStates s).

Definition sample_stop : G world (option ExitError) :=
  @Stop FileStorage.reliable_disk (fun _ => None) Sinks.newSinkContext [] [chunk_1; chunk_2] [] visit_offsets visit_states.

Definition world_of {A} (p : progress A) : world :=
  match p with Started _ w | Exits _ w => w | Crashes _ => NewReplicator NoFile end.

Definition started_world : world := world_of (StartReplication sample_env (NewReplicator NoFile)).
Definition stopped_world : world :=
  match sample_stop started_world with Ret _ w | Err _ w => w | Crash _ => started_world end.

Lemma stop_undoes_start_witness :
  match StartReplication broken_env (NewReplicator NoFile) with
  | Started _ w' | Exits _ w' =>
      up w' = [Stats; Dispatcher; Context_] /\
      exists r w'', sample_stop w' = Ret r w'' /\ up w'' = [] /\ stopped w'' = rev (up w')
  | Crashes _ => False
  end.
Proof.
  destruct (@stop_undoes_start FileStorage.reliable_disk (fun _ => None) Sinks.newSinkContext [] [chunk_1; chunk_2] [] visit_offsets visit_states
    broken_env (NewReplicator NoFile) eq_refl eq_refl) as [Hstop _].
  assert (Hup : up (world_of (StartReplication broken_env (NewReplicator NoFile))) = [Stats; Dispatcher; Context_])
    by (vm_compute; reflexivity).
  assert (Hok : match StartReplication broken_env (NewReplicator NoFile) with Crashes _ => false | _ => true end = true)
    by (vm_compute; reflexivity).
  destruct (StartReplication broken_env (NewReplicator NoFile)) as [a w'|e w'|c];
    [exact (conj Hup Hstop)|exact (conj Hup Hstop)|discriminate Hok].
Defined.

Lemma started_storage : storage started_world = FileStorage.mkStorage ∅ ∅ NoFile.
Proof. vm_compute. reflexivity. Qed.

Lemma sample_stop_savable :
  FileStorage.savable (at_save Sinks.newSinkContext [] [chunk_1; chunk_2] [] started_world).
Proof.
  unfold at_save. rewrite started_storage. split.
  - vm_compute. reflexivity.
  - vm_compute. reflexivity.
  - apply map_Forall_empty.
  - do 3 (apply map_Forall_insert_2; [split; vm_compute; reflexivity|]). apply map_Forall_empty.
Qed.

Lemma known_tables_survive_restart_witness :
  exists w2, StartReplication sample_env (NewReplicator (FileStorage.disk (storage stopped_world))) = Started tt w2 /\
    initialTables w2 = Some [chunk_2].
Proof.
  apply (@known_tables_survive_restart FileStorage.reliable_disk (fun _ => None) Sinks.newSinkContext [] [chunk_1; chunk_2] [] visit_offsets
    visit_states sample_env [] started_world stopped_world).
  - vm_compute. reflexivity.
  - vm_compute. reflexivity.
  - reflexivity.
  - apply sample_stop_savable.
  - reflexivity.
  - reflexivity.
  - repeat constructor.
  - vm_compute. reflexivity.
  - constructor.
  - vm_compute. reflexivity.
  - apply sample_healthy.
Defined.
