(* ===== verification/SqlIndex.v ===== *)
(** * SqlIndex: the SQL of a snapshot index

    spi/systemcatalog/index.go: the texts that the side channel puts into its
    queries, with the values of the watermarks written as SQL literals.

    Formatting floats and times, and the names of Go types, are parameters.  A
    literal is judged by how PostgreSQL reads it (with standard conforming strings,
    its default: a quote inside of a literal is doubled, a backslash is an ordinary
    character). *)

From Stdlib Require Import ZArith Lia.
From Stdlib Require Import Strings.Byte Strings.Ascii.
From stdpp Require Import base tactics option list numbers strings gmap pretty.
From S2P Require Import Prelude Encoding Entities Values Converters.

Local Open Scope Z_scope.

Definition ASC : string := "ASC".
Definition DESC : string := "DESC".

(** ** sanitizeString *)

Definition quote : ascii := "'".
Definition backslash : ascii := "\".

(** strings.ReplaceAll(val, "'", "\'") *)
Definition escape_quotes (l : list ascii) : list ascii :=
  concat ((fun c => if decide (c = quote) then [backslash; quote] else [c]) <$> l).

(** strings.ReplaceAll(_, "\\'", "\'"): two backslashes and a quote become one. *)
Fixpoint unescape_twice (l : list ascii) : list ascii :=
  match l with
  | [] => []
  | a :: t =>
      match t with
      | b :: c :: l' =>
          if decide (a = backslash /\ b = backslash /\ c = quote)
          then backslash :: quote :: unescape_twice l'
          else a :: unescape_twice t
      | _ => a :: unescape_twice t
      end
  end.

Definition sanitizeString (val : string) : string :=
  String.string_of_list_ascii (unescape_twice (escape_quotes (String.list_ascii_of_string val))).

(** ** Literals *)

Definition upper_hex_char (z : Z) : byte := byte_of_Z (if z <? 10 then z + 48 else z + 55).
Definition upper_hex (d : bytes) : string :=
  string_of (concat ((fun b => [upper_hex_char (Z_of_byte b / 16); upper_hex_char (Z_of_byte b mod 16)]) <$> d)).

Section Sql.
(** [%f] of a float, [Format(time.RFC3339Nano)], and the name of a value's type. *)
Context (float_text : Z -> string) (time_text : Time -> string) (type_name : value -> string).

(** reflect.Value.String of the zero value of the type. *)
Definition zero_text (v : value) : string :=
  match v with VString _ => "" | _ => ("<" ++ type_name v ++ " Value>")%string end.

(** The value after the pointer was followed, by the schema type of the column;
    every accessor of reflect panics on a value of another kind. *)
Definition literal (schemaType : string) (pv : value) : crash + string :=
  if String.eqb schemaType "float32" || String.eqb schemaType "float64" then
    match pv with VFloat32 b | VFloat64 b => inr (float_text b) | _ => inl PanicExplicit end
  else if existsb (String.eqb schemaType) ["int8"; "int16"; "int32"; "int64"]%string then
    match pv with
    | VInt8 z | VInt16 z | VInt32 z | VInt64 z | VDuration z => inr (pretty z)
    | _ => inl PanicExplicit
    end
  else if String.eqb schemaType "boolean" then
    match pv with VBool b => inr (if b then "TRUE" else "FALSE")%string | _ => inl PanicExplicit end
  else if String.eqb schemaType "string" then
    match pv with
    | VString s => inr ("'" ++ sanitizeString s ++ "'")%string
    | VTime t => inr ("'" ++ sanitizeString (time_text t) ++ "'")%string
    | _ => inl PanicExplicit
    end
  else if String.eqb schemaType "bytes" then
    match pv with VBytes d => inr ("bytea '\x" ++ upper_hex d ++ "'")%string | _ => inl PanicTypeAssertion end
  else if String.eqb schemaType "array" then
    (* the elements of what is here a slice are handled as if they were arrays *)
    match pv with
    | VBytes [] | VString "" => inr "'{}'"%string
    | VMap [] => inr "'{}'"%string
    | _ => inl PanicExplicit
    end
  else inr (zero_text pv).

Definition param2value (param : value) (column : Column) : crash + string :=
  match param with
  | VNil => inl PanicExplicit
  | VPtr address target =>
      if address =? 0 then inr "NULL"%string else literal (pt_schemaType (Col.pgType column)) target
  | pv => literal (pt_schemaType (Col.pgType column)) pv
  end.

(** ** Clauses *)

Definition AsSqlTuple (i : Index) : string := ("(" ++ join "," (Col.name <$> idx_columns i) ++ ")")%string.

Definition AsSqlOrderBy (desc : bool) (i : Index) : string :=
  join "," ((fun t => Col.name t ++ " " ++ (if desc then DESC else ASC))%string <$> idx_columns i).

(** lo.Map over the columns: a column without a value makes the clause fail, but
    the others are still written (and may panic). *)
Fixpoint comparisonList (params : gmap string value) (columns : list Column) : crash + (list string * bool) :=
  match columns with
  | [] => inr ([], true)
  | t :: columns' =>
      match params !! Col.name t with
      | None => r ← comparisonList params columns'; mret ("" :: fst r, false)
      | Some v =>
          s ← param2value v t;
          r ← comparisonList params columns'; mret (s :: fst r, snd r)
      end
  end.

Definition whereClause (comparison : string) (params : gmap string value) (i : Index) : crash + option string :=
  match comparisonList params (idx_columns i) with
  | inl c => inl c
  | inr (l, success) =>
      inr (if success then Some (AsSqlTuple i ++ " " ++ comparison ++ " (" ++ join "," l ++ ")")%string else None)
  end.

Definition WhereTupleGE := whereClause ">=".
Definition WhereTupleGT := whereClause ">".
Definition WhereTupleLE := whereClause "<=".
Definition WhereTupleLT := whereClause "<".
Definition WhereTupleEQ := whereClause "=".

Definition Index_String (i : Index) : string :=
  ("{name:" ++ idx_name i ++ " primaryKey:" ++ (if idx_primaryKey i then "true" else "false") ++
   " replicaIdentity:" ++ (if idx_replicaIdentity i then "true" else "false") ++
   " columns:[" ++ join " " (Col.String_ <$> idx_columns i) ++ "]}")%string.

(** *** When the clauses are built *)

(** A clause is built exactly if every column of the index has a value. *)
Lemma where_clause_columns comparison params i r :
  whereClause comparison params i = inr r ->
  (r <> None <-> Forall (fun t => is_Some (params !! Col.name t)) (idx_columns i)).
Proof.
  unfold whereClause. destruct (comparisonList params (idx_columns i)) as [c|[l ok]] eqn:E; [done|]. intros [= <-]. cbn.
  assert (H : ok = true <-> Forall (fun t => is_Some (params !! Col.name t)) (idx_columns i)).
  { revert l ok E. induction (idx_columns i) as [|t ts IH]; intros l ok; cbn.
    - intros [= <- <-]. split; [constructor|done].
    - rewrite Forall_cons. destruct (params !! Col.name t) as [v|].
      + destruct (param2value v t); [done|]. cbn. destruct (comparisonList params ts) as [|[l' ok']]; [done|].
        intros [= <- <-]. rewrite (IH _ _ eq_refl). split; [intros H; split; [by eexists|done]|by intros [_ ?]].
      + destruct (comparisonList params ts) as [|[l' ok']]; [done|]. intros [= <- <-].
        split; [done|]. intros [[? [=]] _]. }
  rewrite <- H. by destruct ok.
Qed.
End Sql.

(** ** Reading a literal *)

(** The rest of a literal, after the opening quote: its content and what follows. *)
Fixpoint read_literal (l : list ascii) : option (list ascii * list ascii) :=
  match l with
  | [] => None
  | c :: t =>
      if decide (c = quote) then
        match t with
        | d :: t' =>
            if decide (d = quote) then r ← read_literal t'; Some (quote :: fst r, snd r)
            else Some ([], t)
        | [] => Some ([], [])
        end
      else r ← read_literal t; Some (c :: fst r, snd r)
  end.

Definition chars : string -> list ascii := String.list_ascii_of_string.

(** Quotes come only after a backslash. *)
Fixpoint guarded (after : bool) (l : list ascii) : Prop :=
  match l with
  | [] => True
  | c :: t => (c = quote -> after = true) /\ guarded (bool_decide (c = backslash)) t
  end.

Lemma guarded_weaken l : guarded false l -> guarded true l.
Proof. destruct l as [|c t]; [done|]. cbn. tauto. Qed.

Lemma guarded_escape l b : guarded b (escape_quotes l).
Proof.
  unfold escape_quotes. revert b. induction l as [|c l IH]; intros b; cbn; [done|].
  case_decide as H; cbn; [|split; [by intros ?|apply IH]].
  split; [done|]. split; [done|]. apply IH.
Qed.

Lemma unescape_step (P : list ascii -> list ascii -> Prop) :
  P [] [] ->
  (forall l r, P l r -> P (backslash :: backslash :: quote :: l) (backslash :: quote :: r)) ->
  (forall a l r, P l r -> P (a :: l) (a :: r)) ->
  forall l, P l (unescape_twice l).
Proof.
  intros Hnil Htwo Hone l. remember (length l) as n eqn:Hn. revert l Hn.
  induction (lt_wf n) as [n _ IH]; intros l Hn. destruct l as [|a t]; [done|]. cbn in Hn.
  assert (Ht : P t (unescape_twice t)) by (apply (IH (length t)); [lia|done]).
  destruct t as [|b [|c l']]; [by apply Hone|by apply Hone|]. change (unescape_twice (a :: b :: c :: l')) with
    (if decide (a = backslash /\ b = backslash /\ c = quote) then backslash :: quote :: unescape_twice l'
     else a :: unescape_twice (b :: c :: l')).
  case_decide as H; [|by apply Hone]. destruct H as (-> & -> & ->). apply Htwo.
  apply (IH (length l')); [cbn in Hn; lia|done].
Qed.

Lemma guarded_unescape l b : guarded b l -> guarded b (unescape_twice l).
Proof.
  revert b. apply (unescape_step (fun l r => forall b, guarded b l -> guarded b r)); [done| |].
  - intros l' r IH b. cbn. intros (_ & _ & _ & H). split; [done|]. split; [done|]. by apply IH.
  - intros a l' r IH b. cbn. intros [H1 H2]. split; [done|]. by apply IH.
Qed.

Lemma quote_unescape l : quote ∈ l -> quote ∈ unescape_twice l.
Proof.
  apply (unescape_step (fun l r => quote ∈ l -> quote ∈ r)); [done| |].
  - intros l' r _ _. apply list_elem_of_further, list_elem_of_here.
  - intros a l' r IH [->|H]%elem_of_cons; [apply list_elem_of_here|by apply list_elem_of_further, IH].
Qed.

Lemma unescape_quote_free l : quote ∉ l -> unescape_twice l = l.
Proof.
  apply (unescape_step (fun l r => quote ∉ l -> r = l)); [done| |].
  - intros l' r _ H. destruct H. do 2 apply list_elem_of_further. apply list_elem_of_here.
  - intros a l' r IH [_ H]%not_elem_of_cons. by rewrite IH.
Qed.

Lemma quote_escape l : quote ∈ l -> quote ∈ escape_quotes l.
Proof.
  unfold escape_quotes. induction l as [|c l IH]; [done|]. intros [<-|H]%elem_of_cons; cbn.
  - rewrite decide_True by done. cbn. apply list_elem_of_further, list_elem_of_here.
  - apply elem_of_app. right. by apply IH.
Qed.

Lemma escape_quote_free l : quote ∉ l -> escape_quotes l = l.
Proof.
  unfold escape_quotes. induction l as [|c l IH]; [done|]. intros [Hc Hl]%not_elem_of_cons. cbn.
  rewrite decide_False by done. cbn. by rewrite IH.
Qed.

Lemma read_quote_free l : quote ∉ l -> read_literal (l ++ [quote]) = Some (l, []).
Proof.
  induction l as [|c l IH]; [done|]. intros [Hc Hl]%not_elem_of_cons. cbn. rewrite decide_False by done. by rewrite IH.
Qed.

(** A literal with guarded quotes ends too early, or not at all. *)
Lemma read_guarded l b :
  guarded b l -> quote ∈ l -> forall content, read_literal (l ++ [quote]) <> Some (content, []).
Proof.
  revert b. induction l as [|c t IH]; intros b Hg Hq content; [by apply not_elem_of_nil in Hq|].
  cbn in Hg. destruct Hg as [_ Hg]. cbn. destruct (decide (c = quote)) as [->|Hc].
  - destruct t as [|d t']; [done|]. destruct Hg as [Hd _]. cbn.
    destruct (decide (d = quote)) as [Hdq|Hdq]; [by specialize (Hd Hdq)|]. done.
  - apply elem_of_cons in Hq as [Heq|Hq]; [congruence|]. specialize (IH _ Hg Hq).
    destruct (read_literal (t ++ [quote])) as [[x y]|]; [|done]. intros [= _ ->]. by apply (IH x).
Qed.

Lemma chars_string l : chars (String.string_of_list_ascii l) = l.
Proof. apply String.list_ascii_of_string_of_list_ascii. Qed.

(** A text value of a watermark reaches the database unchanged exactly if it has
    no quote: then the literal written for it is read back as the value.  A quote is
    guarded by a backslash instead of being doubled, so a value with a quote gives a
    literal that ends too early or not at all. *)
Theorem text_literal_exact float_text time_text type_name column s :
  pt_schemaType (Col.pgType column) = "string"%string ->
  exists l, param2value float_text time_text type_name (VString s) column = inr (String quote (String.string_of_list_ascii l)) /\
    (read_literal l = Some (chars s, []) <-> quote ∉ chars s).
Proof.
  intros Hc. unfold param2value, literal. rewrite Hc. cbn [String.eqb Ascii.eqb Bool.eqb orb existsb].
  exists (unescape_twice (escape_quotes (chars s)) ++ [quote])%list. split.
  - f_equal. unfold sanitizeString. change (String.append "'" ?x) with (String quote x). f_equal.
    apply list_ascii_inj. by rewrite list_ascii_app, chars_string, !String.list_ascii_of_string_of_list_ascii.
  - split.
    + intros Hr Hq. eapply (read_guarded _ false); [|exact (quote_unescape _ (quote_escape _ Hq))|exact Hr].
      apply guarded_unescape, guarded_escape.
    + intros Hq. rewrite (escape_quote_free _ Hq), (unescape_quote_free _ Hq). by apply read_quote_free.
Qed.

Definition name_column : Column :=
  Col.NewColumn "name" 25 (-1) (mkPgType "pg_catalog" "text" "b" 25 "S" false false 1009 0 0 (-1) [] "," "string") false None.

(** O'Neill: the literal is read as [O\] and leaves the rest to the parser. *)
Lemma text_literal_exact_witness :
  exists l, param2value (fun _ => ""%string) (fun _ => ""%string) (fun _ => ""%string) (VString "O'Neill") name_column
      = inr (String quote (String.string_of_list_ascii l)) /\
    read_literal l <> Some (chars "O'Neill", []) /\ quote ∈ chars "O'Neill".
Proof.
  destruct (text_literal_exact (fun _ => ""%string) (fun _ => ""%string) (fun _ => ""%string) name_column "O'Neill") as (l & Hl & Hr);
    [reflexivity|].
  assert (Hq : quote ∈ chars "O'Neill") by (apply list_elem_of_further, list_elem_of_here).
  exists l. split; [exact Hl|]. split; [|exact Hq]. intros Hread. exact (proj1 Hr Hread Hq).
Defined.
