(* ===== verification/SideChannel.v ===== *)
(** * SideChannel: the streamer's own queries

    internal/sidechannel/sidechannel.go.  Every operation opens a connection, runs
    its statements and closes the connection again.

    The database is an argument: the class [Server] says how it answers.  A query
    is a constructor of [query], indexed by the type its rows are scanned to, so
    that an operation can use the columns of its query only.  Callers pass
    callbacks, which have a state of their own ([C]) and may use the database too.
    Time is not modelled: a timeout is one of the errors of the server. *)

From Stdlib Require Import ZArith Lia.
From Stdlib Require Import Strings.Ascii Sorting.Sorted.
From stdpp Require Import base tactics option list numbers strings gmap pretty.
From S2P Require Import Prelude Encoding Entities Values Watermarks Converters Versions SqlIndex.

Local Open Scope Z_scope.

(** ** The database *)

Inductive dberror : Type :=
| ErrNoRows
| ErrNoRestartPointInReplicationSlot
| PgError (code message : string)
| DbError (message : string).

(** The columns of the catalog queries, as the scans declare them. *)
Record hypertable_row : Type := mkHypertableRow {
  hr_id : Z; hr_schemaName : string; hr_hypertableName : string; hr_associatedSchemaName : string;
  hr_associatedTablePrefix : string; hr_compressionState : Z; hr_compressedHypertableId : option Z;
  hr_viewSchema : option string; hr_viewName : option string; hr_replicaIdentity : string;
}.

Record chunk_row : Type := mkChunkRow {
  cr_id : Z; cr_hypertableId : Z; cr_schemaName : string; cr_tableName : string;
  cr_compressedChunkId : option Z; cr_dropped : bool; cr_status : Z;
}.

(** The dimension of a column is asked for hypertables only. *)
Record dimension_row : Type := mkDimensionRow {
  dr_dimension : bool; dr_dimAligned : bool; dr_dimType : option string; dr_dimSeq : option Z;
}.

Record column_row : Type := mkColumnRow {
  lr_name : string; lr_oid : Z; lr_modifiers : Z; lr_nullable : bool; lr_primaryKey : bool; lr_keySeq : option Z;
  lr_defaultValue : option string; lr_isReplicaIdent : bool; lr_indexName : option string;
  lr_sortOrder : string; lr_nullsOrder : string; lr_maxCharLength : option Z;
}.

(** The queries of queries.go with their arguments; [R] is a raw row. *)
Inductive query (R : Type) : Type -> Type :=
| queryCheckUserTablePrivilege (username table grant : string) : query R bool
| queryCreatePublication (publicationName user : string) : query R bool
| queryCheckPublicationExists (publicationName : string) : query R bool
| queryCheckTableExistsInPublication (publicationName schemaName tableName : string) : query R bool
| queryReadSystemInformation : query R (string * string * Z)
| queryConfiguredWalLevel : query R string
| queryReplicationMarkersEnabled : query R string
| queryPostgreSqlVersion : query R string
| queryTimescaleDbVersion : query R string
| queryReadVanillaTables : query R (Z * string * string * string)
| queryReadHypertables : query R hypertable_row
| queryReadChunks : query R chunk_row
| queryReadVanillaTableSchema (schemaName tableName : string) : query R column_row
| queryReadHypertableSchema (schemaName tableName : string) : query R (column_row * dimension_row)
| queryReadReplicaIdentity (schemaName tableName : string) : query R string
| queryReadContinuousAggregateInformation (materializedHypertableId : Z) : query R (string * string)
| queryReadExistingAlreadyPublishedTables (publicationName : string) : query R (string * string)
| queryReadReplicationSlot (slotName : string) : query R (string * string * option string * option string)
| queryCheckReplicationSlotExists (slotName : string) : query R bool
| queryReadCompositeTypeSchema (oid : Z) : query R (string * Z * Z * bool)
| queryTemplateSnapshotHighWatermark (tuple table orderBy : string) : query R R
| current_wal_lsn : query R Z
| fetch_forward (count : Z) (cursorName : string) : query R R.

Arguments queryCheckUserTablePrivilege {R}.
Arguments queryCreatePublication {R}.
Arguments queryCheckPublicationExists {R}.
Arguments queryCheckTableExistsInPublication {R}.
Arguments queryReadSystemInformation {R}.
Arguments queryConfiguredWalLevel {R}.
Arguments queryReplicationMarkersEnabled {R}.
Arguments queryPostgreSqlVersion {R}.
Arguments queryTimescaleDbVersion {R}.
Arguments queryReadVanillaTables {R}.
Arguments queryReadHypertables {R}.
Arguments queryReadChunks {R}.
Arguments queryReadVanillaTableSchema {R}.
Arguments queryReadHypertableSchema {R}.
Arguments queryReadReplicaIdentity {R}.
Arguments queryReadContinuousAggregateInformation {R}.
Arguments queryReadExistingAlreadyPublishedTables {R}.
Arguments queryReadReplicationSlot {R}.
Arguments queryCheckReplicationSlotExists {R}.
Arguments queryReadCompositeTypeSchema {R}.
Arguments queryTemplateSnapshotHighWatermark {R}.
Arguments current_wal_lsn {R}.
Arguments fetch_forward {R}.

(** The rows of an answer, each of which may fail to be scanned, and the error
    after the last one. *)
Record answer (A : Type) : Type := mkAnswer { rows : list (dberror + A); rows_Err : option dberror }.
Arguments mkAnswer {A}.
Arguments rows {A}.
Arguments rows_Err {A}.

Class Server (R D : Type) := {
  srv_connect : D -> option string * D;
  srv_close : D -> D;
  srv_exec : string -> D -> option dberror * D;
  srv_query : forall A, query R A -> D -> (dberror + answer A) * D;
}.
Arguments srv_query {R D _ A}.

(** The database, how many connections are open, and the state of the caller. *)
Record world (D C : Type) : Type := mkWorld { db : D; connections : Z; client : C }.
Arguments mkWorld {D C}.
Arguments db {D C}.
Arguments connections {D C}.
Arguments client {D C}.

(** The result of a call: a value, an error, or a crash. *)
Inductive called (D C A : Type) : Type :=
| Val (a : A) (w : world D C)
| Fault (e : dberror) (w : world D C)
| Panics (c : crash).
Arguments Val {D C A}.
Arguments Fault {D C A}.
Arguments Panics {D C A}.

Definition M (D C A : Type) : Type := world D C -> called D C A.

#[export] Instance M_ret D C : MRet (M D C) := fun A a w => Val a w.
#[export] Instance M_bind D C : MBind (M D C) := fun A B k m w =>
  match m w with
  | Val a w' => k a w'
  | Fault e w' => Fault e w'
  | Panics c => Panics c
  end.

Definition fault {D C A} (e : dberror) : M D C A := fun w => Fault e w.
Definition panics {D C A} (c : crash) : M D C A := fun w => Panics c.

(** An error that is looked at instead of being returned. *)
Definition caught {D C A} (m : M D C A) : M D C (dberror + A) := fun w =>
  match m w with
  | Val a w' => Val (inr a) w'
  | Fault e w' => Val (inl e) w'
  | Panics c => Panics c
  end.

Definition from_sum {D C A} (r : string + A) : M D C A :=
  match r with inl e => fault (DbError e) | inr a => mret a end.

(** Variables of a function that its callbacks assign. *)
Definition local {D C L A} (l : L) (m : M D (L * C) A) : M D C (A * L) := fun w =>
  match m (mkWorld (db w) (connections w) (l, client w)) with
  | Val a w' => Val (a, fst (client w')) (mkWorld (db w') (connections w') (snd (client w')))
  | Fault e w' => Fault e (mkWorld (db w') (connections w') (snd (client w')))
  | Panics c => Panics c
  end.

Definition get_local {D C L} : M D (L * C) L := fun w => Val (fst (client w)) w.
Definition set_local {D C L} (l : L) : M D (L * C) unit := fun w =>
  Val tt (mkWorld (db w) (connections w) (l, snd (client w))).

(** A call of the surrounding function's callback. *)
Definition outer {D C L A} (m : M D C A) : M D (L * C) A := fun w =>
  match m (mkWorld (db w) (connections w) (snd (client w))) with
  | Val a w' => Val a (mkWorld (db w') (connections w') (fst (client w), client w'))
  | Fault e w' => Fault e (mkWorld (db w') (connections w') (fst (client w), client w'))
  | Panics c => Panics c
  end.

(** ** Sessions *)

Section Channel.
Context {R D : Type} `{Server R D}.

Definition newSession {C A} (fn : M D C A) : M D C A := fun w =>
  match srv_connect (db w) with
  | (Some e, d) => Fault (DbError ("unable to connect to database: " ++ e)) (mkWorld d (connections w) (client w))
  | (None, d) =>
      match fn (mkWorld d (connections w + 1) (client w)) with
      | Val a w' => Val a (mkWorld (srv_close (db w')) (connections w' - 1) (client w'))
      | Fault e w' => Fault e (mkWorld (srv_close (db w')) (connections w' - 1) (client w'))
      | Panics c => Panics c
      end
  end.

Definition exec {C} (sql : string) : M D C unit := fun w =>
  let '(e, d) := srv_exec sql (db w) in
  let w := mkWorld d (connections w) (client w) in
  match e with None => Val tt w | Some e => Fault e w end.

Definition ask {C A} (q : query R A) : M D C (answer A) := fun w =>
  let '(r, d) := srv_query q (db w) in
  let w := mkWorld d (connections w) (client w) in
  match r with inl e => Fault e w | inr a => Val a w end.

(** [for rows.Next()]: the row is scanned, then the function runs. *)
Fixpoint each_row {C A} (fn : A -> M D C unit) (l : list (dberror + A)) : M D C unit :=
  match l with
  | [] => mret tt
  | inl e :: _ => fault e
  | inr a :: l' => fn a ;; each_row fn l'
  end.

Definition queryFunc {C A} (fn : A -> M D C unit) (q : query R A) : M D C unit :=
  a ← ask q;
  each_row fn (rows a) ;;
  match rows_Err a with Some e => fault e | None => mret tt end.

Definition queryRow {C A} (q : query R A) : M D C A :=
  a ← ask q;
  match rows a, rows_Err a with
  | inr x :: _, _ => mret x
  | inl e :: _, _ => fault e
  | [], Some e => fault e
  | [], None => fault ErrNoRows
  end.

(** ** Publications *)

Definition HasTablePrivilege {C} (username : string) (entity : SystemEntity) (grant : string) : M D C bool :=
  newSession (queryRow (queryCheckUserTablePrivilege username (CanonicalName entity) grant)).

Definition CreatePublication {C} (user publicationName : string) : M D C bool :=
  newSession (queryRow (queryCreatePublication publicationName user)).

(** An answer without rows is not an error, but the default. *)
Definition default_row {C A} (default : A) (m : M D C A) : M D C A :=
  r ← caught m;
  match r with
  | inr a => mret a
  | inl ErrNoRows => mret default
  | inl e => fault e
  end.

Definition ExistsPublication {C} (publicationName : string) : M D C bool :=
  default_row false (newSession (queryRow (queryCheckPublicationExists publicationName))).

Definition UndefinedObject : string := "42704".

Definition DropPublication {C} (publicationName : string) : M D C unit :=
  newSession (
    r ← caught (exec ("DROP PUBLICATION IF EXISTS " ++ publicationName)%string);
    match r with
    | inr _ => mret tt
    | inl (PgError code _ as e) => if String.eqb code UndefinedObject then mret tt else fault e
    | inl e => fault e
    end).

Definition ExistsTableInPublication {C} (publicationName schemaName tableName : string) : M D C bool :=
  default_row false (newSession (queryRow (queryCheckTableExistsInPublication publicationName schemaName tableName))).

Definition entitiesToTableList (entities : list SystemEntity) : string :=
  match entities with
  | [e] => CanonicalName e
  | _ => join "," (CanonicalName <$> entities)
  end.

Definition AttachTablesToPublication {C} (publicationName : string) (entities : list SystemEntity) : M D C unit :=
  match entities with
  | [] => mret tt
  | _ => newSession (exec ("ALTER PUBLICATION " ++ publicationName ++ " ADD TABLE " ++ entitiesToTableList entities)%string)
  end.

Definition DetachTablesFromPublication {C} (publicationName : string) (entities : list SystemEntity) : M D C unit :=
  match entities with
  | [] => mret tt
  | _ => newSession (exec ("ALTER PUBLICATION " ++ publicationName ++ " DROP TABLE " ++ entitiesToTableList entities)%string)
  end.

Definition ReadPublishedTables {C} (publicationName : string) : M D C (list SystemEntity) :=
  r ← local [] (newSession (queryFunc (fun '(schemaName, tableName) =>
        l ← get_local; set_local (l ++ [NewSystemEntity schemaName tableName])%list)
        (queryReadExistingAlreadyPublishedTables publicationName)));
  mret (snd r).

(** ** The server *)

Definition GetSystemInformation {C} : M D C (string * string * Z) := newSession (queryRow queryReadSystemInformation).
Definition GetWalLevel {C} : M D C string := newSession (queryRow queryConfiguredWalLevel).

(** strings.ToLower of ASCII. *)
Definition lower (c : ascii) : ascii :=
  let n := Ascii.nat_of_ascii c in if Nat.leb 65 n && Nat.leb n 90 then Ascii.ascii_of_nat (n + 32) else c.
Definition ToLower (s : string) : string :=
  String.string_of_list_ascii (lower <$> String.list_ascii_of_string s).

(** The error is wrapped, and then not returned. *)
Definition GetReplicationMarkersEnabled {C} : M D C bool :=
  r ← caught (newSession (queryRow queryReplicationMarkersEnabled));
  match r with
  | inl _ => mret (String.eqb (ToLower "") "on")
  | inr value => mret (String.eqb (ToLower value) "on")
  end.

Definition GetPostgresVersion {C} : M D C Z :=
  newSession (v ← queryRow queryPostgreSqlVersion; from_sum (Versions.ParsePostgresVersion v)).

Definition GetTimescaleDBVersion {C} : M D C (Z * bool) :=
  default_row (0, false)
    (newSession (v ← queryRow queryTimescaleDbVersion;
                 tsdbVersion ← from_sum (Versions.ParseTimescaleVersion v);
                 mret (tsdbVersion, true))).

(** pglogrepl.ParseLSN. *)
Context (ParseLSN : string -> string + Z).

(** The second position is dereferenced without a test. *)
Definition ReadReplicationSlot {C} (slotName : string) : M D C (string * string * Z * Z) :=
  default_row (""%string, ""%string, 0, 0)
    (newSession (
      r ← queryRow (queryReadReplicationSlot slotName);
      let '(pluginName, slotType, restart, confirmed) := (r : string * string * option string * option string) in
      match restart with
      | None => fault ErrNoRestartPointInReplicationSlot
      | Some restart =>
          restartLsn ← from_sum (ParseLSN restart);
          match confirmed with
          | None => panics PanicNilDereference
          | Some confirmed =>
              confirmedFlushLsn ← from_sum (ParseLSN confirmed);
              mret (pluginName, slotType, restartLsn, confirmedFlushLsn)
          end
      end)).

Definition ExistsReplicationSlot {C} (slotName : string) : M D C bool :=
  default_row false (newSession (queryRow (queryCheckReplicationSlotExists slotName))).

(** ** The catalog *)

Definition vanilla_of (r : Z * string * string * string) : PgTable :=
  let '(relId, schemaName, tableName, replicaIdentity) := r in
  Vanilla.NewPgTable relId schemaName tableName replicaIdentity.

Definition ReadVanillaTables {C} (cb : PgTable -> M D C unit) : M D C unit :=
  newSession (queryFunc (fun r => cb (vanilla_of r)) queryReadVanillaTables).

Definition hypertable_of (r : hypertable_row) : Hypertable :=
  Hyper.NewHypertable (hr_id r) (hr_schemaName r) (hr_hypertableName r) (hr_associatedSchemaName r)
    (hr_associatedTablePrefix r) (hr_compressedHypertableId r) (hr_compressionState r)
    (hr_viewSchema r) (hr_viewName r) (hr_replicaIdentity r).

Definition ReadHypertables {C} (cb : Hypertable -> M D C unit) : M D C unit :=
  newSession (queryFunc (fun r => cb (hypertable_of r)) queryReadHypertables).

Definition chunk_of (r : chunk_row) : Chunk :=
  Chnk.NewChunk (cr_id r) (cr_hypertableId r) (cr_schemaName r) (cr_tableName r)
    (cr_dropped r) (cr_status r) (cr_compressedChunkId r).

Definition ReadChunks {C} (cb : Chunk -> M D C unit) : M D C unit :=
  newSession (queryFunc (fun r => cb (chunk_of r)) queryReadChunks).

Definition column_of (r : column_row) (d : dimension_row) (dataType : PgType) : Column :=
  Col.NewIndexColumn (lr_name r) (lr_oid r) (lr_modifiers r) dataType (lr_nullable r) (lr_primaryKey r) (lr_keySeq r)
    (lr_defaultValue r) (lr_isReplicaIdent r) (lr_indexName r) (lr_sortOrder r) (lr_nullsOrder r)
    (dr_dimension d) (dr_dimAligned d) (dr_dimType d) (dr_dimSeq d) (lr_maxCharLength r).

(** The rows are collected, the types resolved one by one, and the callback gets
    all columns at once. *)
Definition collect_column {C} (pgTypeResolver : Z -> M D C PgType) (r : column_row) (d : dimension_row) :
    M D (list Column * C) unit :=
  dataType ← outer (pgTypeResolver (lr_oid r));
  columns ← get_local;
  set_local (columns ++ [column_of r d dataType])%list.

Definition readVanillaTableSchema0 {C} (pgTypeResolver : Z -> M D C PgType)
    (cb : PgTable -> list Column -> M D C unit) (t : PgTable) : M D C unit :=
  r ← local [] (queryFunc (fun r => collect_column pgTypeResolver r (mkDimensionRow false false None None))
        (queryReadVanillaTableSchema (SchemaName (BaseTable.entity (Vanilla.table t)))
                                     (TableName (BaseTable.entity (Vanilla.table t)))));
  cb t (snd r).

Definition ReadVanillaTableSchema {C} (pgTypeResolver : Z -> M D C PgType)
    (cb : PgTable -> list Column -> M D C unit) (tables : list PgTable) : M D C unit :=
  newSession (each_row (readVanillaTableSchema0 pgTypeResolver cb) (inr <$> tables)).

Definition readHypertableSchema0 {C} (pgTypeResolver : Z -> M D C PgType)
    (cb : Hypertable -> list Column -> M D C unit) (h : Hypertable) : M D C unit :=
  r ← local [] (queryFunc (fun r : column_row * dimension_row => collect_column pgTypeResolver (fst r) (snd r))
        (queryReadHypertableSchema (Hyper.schemaName h) (Hyper.tableName h)));
  cb h (snd r).

Definition has_schema (h : Hypertable) : bool :=
  negb ((negb (Hyper.IsContinuousAggregate h) && String.eqb (Hyper.schemaName h) "_timescaledb_internal") ||
        String.eqb (Hyper.schemaName h) "_timescaledb_catalog").

Definition ReadHypertableSchema {C} (pgTypeResolver : Z -> M D C PgType)
    (cb : Hypertable -> list Column -> M D C unit) (hypertables : list Hypertable) : M D C unit :=
  newSession (each_row (fun h => if has_schema h then readHypertableSchema0 pgTypeResolver cb h else mret tt)
                (inr <$> hypertables)).

Definition ReadReplicaIdentity {C} (schemaName tableName : string) : M D C ReplicaIdentities.ReplicaIdentity :=
  newSession (val ← queryRow (queryReadReplicaIdentity schemaName tableName);
              mret (ReplicaIdentities.AsReplicaIdentity val)).

Definition ReadContinuousAggregate {C} (materializedHypertableId : Z) : M D C (string * string * bool) :=
  newSession (default_row (""%string, ""%string, false)
    (r ← queryRow (queryReadContinuousAggregateInformation materializedHypertableId);
     mret (fst r, snd r, true))).

Definition ReadPgCompositeTypeSchema {C K} (compositeColumnFactory : string -> Z -> Z -> bool -> M D C K) (oid : Z) :
    M D C (list K) :=
  r ← local [] (newSession (queryFunc (fun r =>
        let '(attname, atttypeid, atttypmod, attnotnull) := (r : string * Z * Z * bool) in
        column ← outer (compositeColumnFactory attname atttypeid atttypmod (negb attnotnull));
        columns ← get_local;
        set_local (columns ++ [column])%list) (queryReadCompositeTypeSchema oid)));
  mret (snd r).

(** ** Snapshots *)

(** The decoder of rows: built from the first row's description ([Dec] is the
    decoder), then applied to each row. *)
Context {Dec : Type} (rowDecoderFactory : R -> dberror + Dec) (decode : Dec -> R -> dberror + gmap string value).

Definition from_db {C A} (r : dberror + A) : M D C A := match r with inl e => fault e | inr a => mret a end.

(** The variables of the fetch loop: the decoder and the count of the round. *)
Definition fetch_row {C} (cb : gmap string value -> M D C unit) (row : R) : M D ((option Dec * Z) * C) unit :=
  l ← get_local;
  rowDecoder ← match fst (l : option Dec * Z) with Some d => mret d | None => from_db (rowDecoderFactory row) end;
  set_local (Some rowDecoder, snd l) ;;
  values ← from_db (decode rowDecoder row);
  set_local (Some rowDecoder, snd l + 1) ;;
  outer (cb values).

Fixpoint fetch_loop {C} (fuel : nat) (cursorName : string) (snapshotBatchSize : Z) (cb : gmap string value -> M D C unit) :
    M D ((option Dec * Z) * C) unit :=
  match fuel with
  | O => panics OutOfFuel
  | S fuel' =>
      l ← get_local;
      set_local (fst (l : option Dec * Z), 0) ;;
      queryFunc (fetch_row cb) (fetch_forward snapshotBatchSize cursorName) ;;
      l ← get_local;
      let count := snd (l : option Dec * Z) in
      if (count =? 0) || (count <? snapshotBatchSize) then mret tt
      else fetch_loop fuel' cursorName snapshotBatchSize cb
  end.

Definition snapshotTableWithCursor {C} (fuel : nat) (cursorQuery cursorName : string) (snapshotName : option string)
    (snapshotBatchSize : Z) (cb : Z -> gmap string value -> M D C unit) : M D C unit :=
  newSession (
    exec "BEGIN TRANSACTION ISOLATION LEVEL REPEATABLE READ" ;;
    match snapshotName with
    | Some name => exec ("SET TRANSACTION SNAPSHOT '" ++ name ++ "'")%string
    | None => mret tt
    end ;;
    currentLSN ← queryRow current_wal_lsn;
    exec cursorQuery ;;
    local (None, 0) (fetch_loop fuel cursorName snapshotBatchSize (cb currentLSN)) ;;
    exec ("CLOSE " ++ cursorName)%string ;;
    exec "ROLLBACK").

(** The position of the first row; the name of the cursor is random. *)
Definition SnapshotChunkTable {C} (fuel : nat) (cursorName : string) (c : Chunk) (snapshotBatchSize : Z)
    (cb : Z -> gmap string value -> M D C unit) : M D C Z :=
  r ← local 0 (snapshotTableWithCursor fuel
        ("DECLARE " ++ cursorName ++ " SCROLL CURSOR FOR SELECT * FROM " ++ Chnk.canonicalName c)%string
        cursorName None snapshotBatchSize
        (fun lsn values =>
           currentLSN ← get_local;
           (if (currentLSN : Z) =? 0 then set_local lsn else mret tt) ;;
           outer (cb lsn values)));
  mret (snd r).

Definition from_crash {C A} (r : crash + A) : M D C A := match r with inl c => panics c | inr a => mret a end.

Section Batches.
Context (float_text : Z -> string) (time_text : Time -> string) (type_name : value -> string).
(** The order in which the entries of the high watermark are compared. *)
Context (visit : gmap string value -> list (string * value)).

Definition where_LE := WhereTupleLE float_text time_text type_name.
Definition where_GT := WhereTupleGT float_text time_text type_name.

(** lo.PickBy: the values of the index. *)
Definition pick (index : Index) (values : gmap string value) : gmap string value :=
  filter (fun kv => kv.1 ∈ Col.name <$> idx_columns index) values.

(** The comparison with the watermarks of the table. *)
Definition batch_clause {C} (index : Index) (w : Watermark) : M D C string :=
  comparison ← from_crash (where_LE (high w) index);
  match comparison with
  | None => fault (DbError "failed encoding watermark")
  | Some comparison =>
      if HasValidLowWatermark w then
        lowComparison ← from_crash (where_GT (low w) index);
        match lowComparison with
        | None => fault (DbError "failed encoding watermark")
        | Some lowComparison => mret (lowComparison ++ " AND " ++ comparison)%string
        end
      else mret comparison
  end.

Definition cursor_query (cursorName : string) (table : SystemEntity) (clause : string) (index : Index) (limit : Z) : string :=
  ("DECLARE " ++ cursorName ++ " SCROLL CURSOR FOR SELECT * FROM " ++ CanonicalName table ++ " WHERE " ++ clause ++
   " ORDER BY " ++ AsSqlOrderBy false index ++ " LIMIT " ++ pretty limit)%string.

(** The transaction's function: the table's watermark is the local variable, and
    every row moves it before the row is passed on. *)
Definition FetchTableSnapshotBatch {C} (fuel : nat) (cursorName : string) (table : baseTable) (snapshotName : string)
    (snapshotBatchSize : Z) (cb : Z -> gmap string value -> M D C unit) (tableWatermark : option Watermark) :
    M D C Watermark :=
  index ← from_crash (Cols.SnapshotIndex (BaseTable.columns table));
  match index with
  | None => fault (DbError ("missing snapshotting index for table '" ++ CanonicalName (BaseTable.entity table) ++ "'"))
  | Some index =>
      match tableWatermark with
      | None => fault (DbError ("illegal watermark state for table '" ++ CanonicalName (BaseTable.entity table) ++ "'"))
      | Some w =>
          clause ← batch_clause index w;
          r ← local w (snapshotTableWithCursor fuel
                (cursor_query cursorName (BaseTable.entity table) clause index (i64 (snapshotBatchSize * 10)))
                cursorName (Some snapshotName) snapshotBatchSize
                (fun lsn values =>
                   w ← get_local;
                   w' ← from_crash (SetLowWatermark (visit (high w)) (pick index values) w);
                   set_local w' ;;
                   outer (cb lsn values)));
          mret (snd r)
      end
  end.

Definition ReadSnapshotHighWatermark {C} (table : baseTable) (snapshotName : string) : M D C (option (gmap string value)) :=
  index ← from_crash (Cols.SnapshotIndex (BaseTable.columns table));
  match index with
  | None => fault (DbError ("missing snapshotable index for table '" ++ CanonicalName (BaseTable.entity table) ++ "'"))
  | Some index =>
      r ← local None (newSession (
            exec "BEGIN TRANSACTION ISOLATION LEVEL REPEATABLE READ" ;;
            exec ("SET TRANSACTION SNAPSHOT '" ++ snapshotName ++ "'")%string ;;
            queryFunc (fun row =>
              rowDecoder ← from_db (rowDecoderFactory row);
              values ← from_db (decode rowDecoder row);
              set_local (Some values))
              (queryTemplateSnapshotHighWatermark (AsSqlTuple index) (CanonicalName (BaseTable.entity table))
                 (AsSqlOrderBy true index))));
      mret (snd r)
  end.
End Batches.
End Channel.

(** ** Properties *)

(** *** Connections *)

(** A call that leaves as many connections open as it found. *)
Class Balanced {D C A} (m : M D C A) : Prop :=
  balanced : forall w, match m w with Val _ w' | Fault _ w' => connections w' = connections w | Panics _ => True end.

Section Balance.
Context {D : Type}.

#[export] Instance balanced_ret C A (a : A) : Balanced (D := D) (C := C) (mret a).
Proof. by intros w. Qed.
#[export] Instance balanced_fault C A e : Balanced (D := D) (C := C) (A := A) (fault e).
Proof. by intros w. Qed.
#[export] Instance balanced_panics C A c : Balanced (D := D) (C := C) (A := A) (panics c).
Proof. by intros w. Qed.

#[export] Instance balanced_bind C A B (m : M D C A) (f : A -> M D C B) :
  Balanced m -> (forall a, Balanced (f a)) -> Balanced (m ≫= f).
Proof.
  intros Hm Hf w. specialize (Hm w). unfold mbind, M_bind. destruct (m w) as [a w'|e w'|c]; [|done|done].
  specialize (Hf a w'). destruct (f a w'); congruence.
Qed.

#[export] Instance balanced_caught C A (m : M D C A) : Balanced m -> Balanced (caught m).
Proof. intros Hm w. specialize (Hm w). unfold caught. by destruct (m w). Qed.

#[export] Instance balanced_local C L A (l : L) (m : M D (L * C) A) : Balanced m -> Balanced (local l m).
Proof.
  intros Hm w. unfold local. specialize (Hm (mkWorld (db w) (connections w) (l, client w))). by destruct (m _).
Qed.

#[export] Instance balanced_outer C L A (m : M D C A) : Balanced m -> Balanced (outer (L := L) m).
Proof.
  intros Hm w. unfold outer. specialize (Hm (mkWorld (db w) (connections w) (snd (client w)))). by destruct (m _).
Qed.

#[export] Instance balanced_get_local C L : Balanced (get_local (D := D) (C := C) (L := L)).
Proof. by intros w. Qed.
#[export] Instance balanced_set_local C L (l : L) : Balanced (set_local (D := D) (C := C) l).
Proof. by intros w. Qed.
#[export] Instance balanced_from_sum C A (r : string + A) : Balanced (D := D) (C := C) (from_sum r).
Proof. destruct r; apply _. Qed.
#[export] Instance balanced_from_db C A (r : dberror + A) : Balanced (D := D) (C := C) (from_db r).
Proof. destruct r; apply _. Qed.
#[export] Instance balanced_from_crash C A (r : crash + A) : Balanced (D := D) (C := C) (from_crash r).
Proof. destruct r; apply _. Qed.

Context {R : Type} `{Server R D}.

(** What a session opened it closes, whether its function fails or not. *)
#[export] Instance balanced_session C A (fn : M D C A) : Balanced fn -> Balanced (newSession fn).
Proof.
  intros Hf w. unfold newSession. destruct (srv_connect (db w)) as [[e|] d]; [done|].
  specialize (Hf (mkWorld d (connections w + 1) (client w))).
  destruct (fn _); cbn in *; [lia|lia|done].
Qed.

#[export] Instance balanced_exec C sql : Balanced (D := D) (C := C) (exec sql).
Proof. intros w. unfold exec. by destruct (srv_exec sql (db w)) as [[e|] d]. Qed.
#[export] Instance balanced_ask C A (q : query R A) : Balanced (D := D) (C := C) (ask q).
Proof. intros w. unfold ask. by destruct (srv_query q (db w)) as [[e|a] d]. Qed.

#[export] Instance balanced_rows C A (fn : A -> M D C unit) l : (forall a, Balanced (fn a)) -> Balanced (each_row fn l).
Proof. intros Hf. induction l as [|[e|a] l IH]; apply _. Qed.

#[export] Instance balanced_queryFunc C A (fn : A -> M D C unit) (q : query R A) :
  (forall a, Balanced (fn a)) -> Balanced (queryFunc fn q).
Proof.
  intros Hf. apply balanced_bind; [apply _|]. intros a. apply balanced_bind; [apply _|]. intros []. destruct (rows_Err a); apply _.
Qed.

#[export] Instance balanced_queryRow C A (q : query R A) : Balanced (D := D) (C := C) (queryRow q).
Proof.
  apply balanced_bind; [apply _|]. intros a. destruct (rows a) as [|[e|x] l], (rows_Err a); apply _.
Qed.

#[export] Instance balanced_default_row C A (a : A) (m : M D C A) : Balanced m -> Balanced (default_row a m).
Proof. intros Hm. apply balanced_bind; [apply _|]. intros [[]|x]; apply _. Qed.

Context {Dec : Type} (factory : R -> dberror + Dec) (decode : Dec -> R -> dberror + gmap string value).

#[export] Instance balanced_fetch_row C (cb : gmap string value -> M D C unit) row :
  (forall v, Balanced (cb v)) -> Balanced (fetch_row factory decode cb row).
Proof. intros Hcb. apply balanced_bind; [apply _|]. intros [[d|] n]; cbn [fst snd]; apply _. Qed.

#[export] Instance balanced_fetch_loop C fuel cursorName size (cb : gmap string value -> M D C unit) :
  (forall v, Balanced (cb v)) -> Balanced (fetch_loop factory decode fuel cursorName size cb).
Proof.
  intros Hcb. induction fuel as [|fuel IH]; [apply _|]. cbn [fetch_loop].
  do 3 (apply balanced_bind; [apply _|intros ?]). apply balanced_bind; [apply _|]. intros l. cbv zeta.
  destruct (_ || _); apply _.
Qed.

#[export] Instance balanced_cursor C fuel cursorQuery cursorName name size (cb : Z -> gmap string value -> M D C unit) :
  (forall lsn v, Balanced (cb lsn v)) ->
  Balanced (snapshotTableWithCursor factory decode fuel cursorQuery cursorName name size cb).
Proof. intros Hcb. apply balanced_session. destruct name; apply _. Qed.
End Balance.

(** *** The cursor *)

Lemma bind_val {D C A B} (m : M D C A) (k : A -> M D C B) w a w' : m w = Val a w' -> (m ≫= k) w = k a w'.
Proof. unfold mbind, M_bind. by intros ->. Qed.

Section Cursor.
Context {R D : Type} `{Server R D} {C Dec : Type}.
Context (factory : R -> dberror + Dec) (decode : Dec -> R -> dberror + gmap string value).

(** A server on which the statements of a snapshot succeed: the declared cursor
    yields the rows of its query, and a fetch takes the next of them. *)
Record serves (cursorQuery cursorName : string) (lsn : Z) (table_rows : list R) (remaining : D -> list R) : Prop := {
  sv_connect : forall d, exists d', srv_connect d = (None, d');
  sv_exec : forall sql d, exists d', srv_exec sql d = (None, d');
  sv_lsn : forall d, exists d', srv_query current_wal_lsn d = (inr (mkAnswer [inr lsn] None), d');
  sv_declare : forall d d', srv_exec cursorQuery d = (None, d') -> remaining d' = table_rows;
  sv_fetch : forall n d, 0 < n -> exists d',
    srv_query (fetch_forward n cursorName) d = (inr (mkAnswer (inr <$> take (Z.to_nat n) (remaining d)) None), d') /\
    remaining d' = drop (Z.to_nat n) (remaining d);
}.

(** A callback that only changes its own state: on values with [P], as long as the
    state has [I], which it keeps. *)
Definition pure_callback (P : gmap string value -> Prop) (I : C -> Prop)
    (cb : gmap string value -> M D C unit) (f : gmap string value -> C -> C) : Prop :=
  forall v w, P v -> I (client w) ->
    cb v w = Val tt (mkWorld (db w) (connections w) (f v (client w))) /\ I (f v (client w)).

Context (dec : Dec) (values : R -> gmap string value).
Context (Hfactory : forall r, factory r = inr dec) (Hdecode : forall r, decode dec r = inr (values r)).
Context (P : gmap string value -> Prop) (I : C -> Prop).
Context (cb : gmap string value -> M D C unit) (f : gmap string value -> C -> C) (Hcb : pure_callback P I cb f).

Definition feed (l : list R) (c : C) : C := fold_left (fun c r => f (values r) c) l c.

Lemma fetch_rows l rd k d n c :
  rd = None \/ rd = Some dec -> Forall (fun r => P (values r)) l -> I c ->
  exists rd', (rd' = None \/ rd' = Some dec) /\ I (feed l c) /\
    each_row (fetch_row factory decode cb) (inr <$> l) (mkWorld d n ((rd, k), c))
    = Val tt (mkWorld d n ((rd', k + Z.of_nat (length l)), feed l c)).
Proof.
  intros Hrd Hl. revert rd k c Hrd. induction Hl as [|r l Hr Hl IH]; intros rd k c Hrd Hc.
  - exists rd. split; [done|]. split; [done|]. cbn. by rewrite Z.add_0_r.
  - destruct (Hcb (values r) (mkWorld d n c) Hr Hc) as [Hrun HI]. cbn [client db connections] in Hrun, HI.
    destruct (IH (Some dec) (k + 1) (f (values r) c)) as (rd' & Hrd' & HI' & Hrest); [by right|done|].
    exists rd'. split; [done|]. split; [done|].
    cbn [fmap list_fmap each_row length]. unfold mbind at 1, M_bind at 1.
    assert (Hrow : fetch_row factory decode cb r (mkWorld d n ((rd, k), c))
                   = Val tt (mkWorld d n ((Some dec, k + 1), f (values r) c))).
    { unfold fetch_row, mbind, M_bind, get_local, set_local, outer. cbn [client fst snd].
      destruct Hrd as [->| ->]; cbn; rewrite ?Hfactory; cbn; rewrite Hdecode; cbn; by rewrite Hrun. }
    rewrite Hrow, Hrest. do 4 f_equal. lia.
Qed.

(** One fetch per batch, until a batch is not full. *)
Lemma fetch_loop_all cursorQuery cursorName lsn table_rows remaining size fuel rd k d n c :
  serves cursorQuery cursorName lsn table_rows remaining -> 0 < size ->
  (length (remaining d) < fuel * Z.to_nat size)%nat -> rd = None \/ rd = Some dec ->
  Forall (fun r => P (values r)) (remaining d) -> I c ->
  exists d' l, fetch_loop factory decode fuel cursorName size cb (mkWorld d n ((rd, k), c))
    = Val tt (mkWorld d' n (l, feed (remaining d) c)).
Proof.
  intros Hs Hsize. revert rd k d c. induction fuel as [|fuel IH]; intros rd k d c Hfuel Hrd HP HI; [lia|].
  destruct (sv_fetch _ _ _ _ _ Hs size d Hsize) as (d1 & Hq & Hd1).
  destruct (fetch_rows (take (Z.to_nat size) (remaining d)) rd 0 d1 n c Hrd
    (Forall_take _ _ _ HP) HI) as (rd1 & Hrd1 & HI1 & Hrows).
  assert (Hround : queryFunc (fetch_row factory decode cb) (fetch_forward size cursorName) (mkWorld d n ((rd, 0), c))
    = Val tt (mkWorld d1 n ((rd1, 0 + Z.of_nat (length (take (Z.to_nat size) (remaining d)))),
                            feed (take (Z.to_nat size) (remaining d)) c))).
  { unfold queryFunc. erewrite bind_val by (unfold ask; cbn [db]; rewrite Hq; reflexivity).
    cbn [connections client rows rows_Err]. erewrite bind_val by exact Hrows. done. }
  cbn [fetch_loop]. erewrite bind_val by reflexivity. erewrite bind_val by reflexivity.
  erewrite bind_val by exact Hround. erewrite bind_val by reflexivity. cbn [client fst snd]. cbv zeta.
  rewrite length_take. set (m := (Z.to_nat size `min` length (remaining d))%nat).
  destruct (Z.eqb_spec (0 + Z.of_nat m) 0) as [Hz|Hz]; cbn [orb].
  - exists d1, (rd1, 0 + Z.of_nat m). unfold m in Hz. rewrite take_ge by lia. done.
  - destruct (Z.ltb_spec (0 + Z.of_nat m) size) as [Hlt|Hge].
    + exists d1, (rd1, 0 + Z.of_nat m). unfold m in Hlt. rewrite take_ge by lia. done.
    + destruct (IH rd1 (0 + Z.of_nat m) d1 (feed (take (Z.to_nat size) (remaining d)) c)) as (d' & l & Hloop).
      { rewrite Hd1, length_drop. unfold m in Hge. lia. }
      { done. }
      { rewrite Hd1. by apply Forall_drop. }
      { done. }
      exists d', l. rewrite Hloop, Hd1. unfold feed. by rewrite <- fold_left_app, take_drop.
Qed.
End Cursor.

(** A snapshot through a cursor is complete: with any positive batch size, the
    callback gets every row of the query exactly once, in the order of the cursor
    and with the position read in the same transaction; the loop ends after one
    fetch for each full batch and one more, and the connection is closed. *)
Lemma cursor_snapshot_complete {R D} `{Server R D} {C Dec} (factory : R -> dberror + Dec)
    (decode : Dec -> R -> dberror + gmap string value) dec values cursorQuery cursorName snapshotName lsn table_rows
    remaining size fuel (P : gmap string value -> Prop) (I : C -> Prop) (cb : Z -> gmap string value -> M D C unit) f w :
  (forall r, factory r = inr dec) -> (forall r, decode dec r = inr (values r)) ->
  (forall p, pure_callback P I (cb p) (f p)) -> Forall (fun r => P (values r)) table_rows -> I (client w) ->
  serves cursorQuery cursorName lsn table_rows remaining ->
  0 < size -> (length table_rows < fuel * Z.to_nat size)%nat ->
  exists d, snapshotTableWithCursor factory decode fuel cursorQuery cursorName snapshotName size cb w
    = Val tt (mkWorld d (connections w) (fold_left (fun c r => f lsn (values r) c) table_rows (client w))).
Proof.
  intros Hf Hd Hcb HP HI Hs Hsize Hfuel.
  assert (Hexec : forall C sql d n (c : C), exists d', exec sql (mkWorld d n c) = Val tt (mkWorld d' n c) /\
    srv_exec sql d = (None, d')).
  { intros C' sql d n c. destruct (sv_exec _ _ _ _ _ Hs sql d) as [d' Hx]. exists d'. split; [|done].
    unfold exec. cbn [db]. by rewrite Hx. }
  unfold snapshotTableWithCursor, newSession.
  destruct (sv_connect _ _ _ _ _ Hs (db w)) as [d0 ->].
  destruct (Hexec C "BEGIN TRANSACTION ISOLATION LEVEL REPEATABLE READ"%string d0 (connections w + 1) (client w)) as (d1 & H1 & _).
  erewrite (bind_val _ _ _ _ _ H1).
  assert (H2 : exists d2, (match snapshotName with
      | Some name => exec ("SET TRANSACTION SNAPSHOT '" ++ name ++ "'")%string
      | None => mret tt
      end) (mkWorld d1 (connections w + 1) (client w)) = Val tt (mkWorld d2 (connections w + 1) (client w))).
  { destruct snapshotName as [name|]; [|by exists d1].
    destruct (Hexec C ("SET TRANSACTION SNAPSHOT '" ++ name ++ "'")%string d1 (connections w + 1) (client w)) as (d2 & H2 & _).
    by exists d2. }
  destruct H2 as [d2 H2]. rewrite (bind_val _ _ _ _ _ H2).
  destruct (sv_lsn _ _ _ _ _ Hs d2) as [d3 Hl].
  erewrite bind_val by (unfold queryRow; erewrite bind_val by (unfold ask; cbn [db]; rewrite Hl; reflexivity); reflexivity).
  destruct (Hexec C cursorQuery d3 (connections w + 1) (client w)) as (d4 & H4 & Hdecl).
  rewrite (bind_val _ _ _ _ _ H4). apply (sv_declare _ _ _ _ _ Hs) in Hdecl.
  destruct (fetch_loop_all factory decode dec values Hf Hd P I (cb lsn) (f lsn) (Hcb lsn) cursorQuery cursorName lsn table_rows
    remaining size fuel None 0 d4 (connections w + 1) (client w) Hs Hsize) as (d5 & l & H5);
    [by rewrite Hdecl|by left|by rewrite Hdecl|done|].
  erewrite bind_val by (unfold local; cbn [db connections client]; rewrite H5; reflexivity). cbn [client fst snd].
  cbn [db connections].
  destruct (Hexec C ("CLOSE " ++ cursorName)%string d5 (connections w + 1) (feed values (f lsn) (remaining d4) (client w)))
    as (d6 & H6 & _). rewrite (bind_val _ _ _ _ _ H6).
  destruct (Hexec C "ROLLBACK"%string d6 (connections w + 1) (feed values (f lsn) (remaining d4) (client w))) as (d7 & -> & _).
  exists (srv_close d7). cbn [db connections client]. do 2 f_equal; [lia|]. unfold feed. by rewrite Hdecl.
Qed.

(** The server of the witnesses: its state is what the cursor has left. *)
Definition sample_rows : list Z := [1; 2; 3; 4; 5].

Definition sample_server : Server Z (list Z) := {|
  srv_connect d := (None, d);
  srv_close d := d;
  srv_exec sql d := (None, if String.eqb sql "declare" then sample_rows else d);
  srv_query A q d :=
    match q in query _ A return (dberror + answer A) * list Z with
    | current_wal_lsn => (inr (mkAnswer [inr 77] None), d)
    | fetch_forward n _ => (inr (mkAnswer (inr <$> take (Z.to_nat n) d) None), drop (Z.to_nat n) d)
    | _ => (inl ErrNoRows, d)
    end;
|}.

Definition sample_values (r : Z) : gmap string value := {[ "id"%string := VInt64 r ]}.

(** The callback collects the rows with their position. *)
Definition sample_callback (lsn : Z) (v : gmap string value) : M (list Z) (list (Z * option value)) unit := fun w =>
  Val tt (mkWorld (db w) (connections w) (client w ++ [(lsn, v !! "id"%string)])%list).

(** *** A batch of a table's snapshot *)

Section Batch.
Context {R D : Type} `{Server R D} {C Dec : Type}.
Context (factory : R -> dberror + Dec) (decode : Dec -> R -> dberror + gmap string value).
Context (float_text : Z -> string) (time_text : Time -> string) (type_name : value -> string).
Context (visit : gmap string value -> list (string * value)).

(** The comparison of the keys did not panic. *)
Definition is_inr {A B} (x : A + B) : bool := match x with inr _ => true | inl _ => false end.

(** The watermark after a row: its key, and whether that is the high watermark. *)
Definition reached (index : Index) (w : Watermark) (v : gmap string value) : bool :=
  match all_reached (pick index v) (visit (high w)) with inr b => b | inl _ => false end.
Definition moved (index : Index) (v : gmap string value) (w : Watermark) : Watermark :=
  mkWatermark (reached index w v) (dataTypes w) (high w) (pick index v).

Lemma SetLowWatermark_moved index v w b :
  all_reached (pick index v) (visit (high w)) = inr b ->
  SetLowWatermark (visit (high w)) (pick index v) w = inr (moved index v w).
Proof. intros Hb. unfold SetLowWatermark, checkComplete, moved, reached. cbn. by rewrite Hb. Qed.

Lemma fold_moved index (values : R -> gmap string value) (f : gmap string value -> C -> C) l wm c :
  fold_left (fun x r => (moved index (values r) (fst x), f (values r) (snd x))) l (wm, c)
  = (match last l with None => wm | Some r => moved index (values r) wm end, fold_left (fun c r => f (values r) c) l c).
Proof.
  revert wm c. induction l as [|r l IH]; intros wm c; [done|]. cbn [fold_left fst snd]. rewrite IH.
  destruct l as [|r' l]; [done|]. f_equal. rewrite last_cons_cons. destruct (last (r' :: l)) as [x|] eqn:E; [done|].
  by apply last_None in E.
Qed.

(** A batch of a table's snapshot does its work: if the statement built from the
    watermarks yields some rows, then exactly these are passed on, in order, and
    the low watermark is the key of the last of them, so that the next batch goes on
    behind it; the table is complete as soon as that key is the high watermark. A
    batch without rows changes nothing. *)
Theorem fetch_batch_delivers dec values fuel cursorName table snapshotName size cb f wm index clause lsn
    table_rows remaining (w : world D C) :
  (forall r, factory r = inr dec) -> (forall r, decode dec r = inr (values r)) ->
  (forall p, pure_callback (fun _ => True) (fun _ => True) (cb p) (f p)) ->
  Cols.SnapshotIndex (BaseTable.columns table) = inr (Some index) ->
  batch_clause float_text time_text type_name index wm w = Val clause w ->
  Forall (fun r => is_inr (all_reached (pick index (values r)) (visit (high wm))) = true) table_rows ->
  serves (cursor_query cursorName (BaseTable.entity table) clause index (i64 (size * 10))) cursorName lsn table_rows remaining ->
  0 < size -> (length table_rows < fuel * Z.to_nat size)%nat ->
  exists d, FetchTableSnapshotBatch factory decode float_text time_text type_name visit fuel cursorName table
      snapshotName size cb (Some wm) w
    = Val (match last table_rows with None => wm | Some r => moved index (values r) wm end)
        (mkWorld d (connections w) (fold_left (fun c r => f lsn (values r) c) table_rows (client w))).
Proof.
  intros Hf Hd Hcb Hidx Hclause Hcmp Hs Hsize Hfuel. unfold FetchTableSnapshotBatch.
  erewrite bind_val by (rewrite Hidx; reflexivity). cbv iota. rewrite (bind_val _ _ _ _ _ Hclause).
  set (hook := fun (p : Z) (v : gmap string value) => (w ← get_local;
    w' ← from_crash (SetLowWatermark (visit (high w)) (pick index v) w); set_local w' ;; outer (cb p v)) : M D (Watermark * C) unit).
  destruct (cursor_snapshot_complete factory decode dec values
    (cursor_query cursorName (BaseTable.entity table) clause index (i64 (size * 10))) cursorName (Some snapshotName) lsn table_rows
    remaining size fuel (fun v => is_inr (all_reached (pick index v) (visit (high wm))) = true)
    (fun x => high (fst x) = high wm) hook
    (fun p v x => (moved index v (fst x), f p v (snd x))) (mkWorld (db w) (connections w) (wm, client w)) Hf Hd) as [d Hrun];
    [|exact Hcmp|done|exact Hs|exact Hsize|exact Hfuel|].
  - intros p v [dw n [wx c]] Hv Hh. cbn [client fst snd] in *.
    destruct (all_reached (pick index v) (visit (high wm))) as [?|b] eqn:Hb; [done|]. rewrite <- Hh in Hb.
    split; [|exact Hh]. unfold hook. erewrite bind_val by reflexivity.
    erewrite bind_val by (cbn [client fst]; rewrite (SetLowWatermark_moved _ _ _ _ Hb); reflexivity).
    erewrite bind_val by reflexivity. unfold outer. cbn [db connections client fst snd].
    destruct (Hcb p v (mkWorld dw n c)) as [-> _]; done.
  - exists d. unfold local at 1, mbind, M_bind. fold hook. rewrite Hrun. cbn [client].
    rewrite (fold_moved index values (f lsn)). done.
Qed.
End Batch.

(** *** The batches of a table *)

(** The keys of a table in the order of its index, and the rows that the statement
    of a batch selects: behind the low watermark, up to the high watermark, in
    order, and not more than the limit. *)
Section Keys.
Context {K : Type} (lt : K -> K -> bool).
Context (lt_irreflexive : forall a, lt a a = false) (lt_transitive : forall a b c, lt a b = true -> lt b c = true -> lt a c = true).

Definition behind (low : option K) (k : K) : bool := match low with None => true | Some l => lt l k end.
Definition up_to (high k : K) : bool := negb (lt high k).

Definition select (table : list K) (low : option K) (high : K) (limit : nat) : list K :=
  take limit (List.filter (fun k => behind low k && up_to high k) table).

(** Batches until the low watermark is the high watermark. *)
Fixpoint batches `{EqDecision K} (fuel : nat) (table : list K) (low : option K) (high : K) (limit : nat) : option (list (list K)) :=
  if decide (low = Some high) then Some []
  else
    match fuel with
    | O => None
    | S fuel' =>
        let b := select table low high limit in
        rest ← batches fuel' table (match last b with Some k => Some k | None => low end) high limit;
        Some (b :: rest)
    end.

Definition ordered (l : list K) : Prop := StronglySorted (fun a b => lt a b = true) l.

Lemma filter_all {A} (f : A -> bool) l : Forall (fun x => f x = true) l -> List.filter f l = l.
Proof. induction 1 as [|x l Hx _ IH]; cbn; [done|]. by rewrite Hx, IH. Qed.
Lemma filter_none {A} (f : A -> bool) l : Forall (fun x => f x = false) l -> List.filter f l = [].
Proof. induction 1 as [|x l Hx _ IH]; cbn; [done|]. by rewrite Hx. Qed.

Lemma ordered_app l1 l2 x y : ordered (l1 ++ l2) -> x ∈ l1 -> y ∈ l2 -> lt x y = true.
Proof.
  induction l1 as [|a l1 IH]; intros Hs Hx Hy; [by apply not_elem_of_nil in Hx|].
  inversion Hs as [|? ? Hs' Ha]; subst. apply elem_of_cons in Hx as [->|Hx]; [|by apply IH].
  rewrite Forall_forall in Ha. apply Ha. apply elem_of_app. by right.
Qed.

Lemma lt_asym a b : lt a b = true -> lt b a = false.
Proof. intros Hab. destruct (lt b a) eqn:Hba; [|done]. by rewrite <- (lt_transitive _ _ _ Hab Hba), lt_irreflexive. Qed.

(** What is selected is what follows the rows that were already fetched. *)
Lemma select_next done_ todo high limit :
  ordered (done_ ++ todo) -> last (done_ ++ todo) = Some high ->
  select (done_ ++ todo) (last done_) high limit = take limit todo.
Proof.
  intros Hs [l0 Hl0]%last_Some. unfold select. f_equal. rewrite List.filter_app, filter_none, filter_all; [done| |].
  - apply Forall_forall. intros y Hy. apply andb_true_iff. split.
    + destruct (last done_) as [m|] eqn:Hm; [|done]. eapply ordered_app; [exact Hs| |exact Hy]. by apply last_Some_elem_of.
    + unfold up_to. apply negb_true_iff. assert (Hin : y ∈ l0 ++ [high]) by (rewrite <- Hl0; apply elem_of_app; by right).
      apply elem_of_app in Hin as [Hin|Heq%list_elem_of_singleton]; [|by subst].
      apply lt_asym. rewrite Hl0 in Hs. eapply ordered_app; [exact Hs|exact Hin|apply list_elem_of_here].
  - apply Forall_forall. intros x Hx. apply andb_false_iff. left.
    destruct (last done_) as [m|] eqn:Hm; [|by apply last_None in Hm; subst; apply not_elem_of_nil in Hx].
    apply last_Some in Hm as [d' ->]. cbn. apply elem_of_app in Hx as [Hx|Heq%list_elem_of_singleton]; [|by subst].
    apply lt_asym. rewrite <- app_assoc in Hs. eapply ordered_app; [exact Hs|exact Hx|apply list_elem_of_here].
Qed.

Lemma batches_from `{EqDecision K} fuel done_ todo high limit :
  ordered (done_ ++ todo) -> last (done_ ++ todo) = Some high -> (0 < limit)%nat -> (length todo <= fuel)%nat ->
  exists bs, batches fuel (done_ ++ todo) (last done_) high limit = Some bs /\ concat bs = todo /\
    Forall (fun b => b <> [] /\ length b <= limit)%nat bs.
Proof.
  intros Hs Hh Hlim. revert done_ todo Hs Hh. induction fuel as [|fuel IH]; intros done_ todo Hs Hh Hfuel.
  - destruct todo as [|x todo]; [|cbn in Hfuel; lia]. rewrite app_nil_r in *. exists []. cbn.
    by rewrite decide_True.
  - cbn [batches]. case_decide as Heq.
    + destruct todo as [|x todo]; [by exists []|]. exfalso. rewrite last_app_cons in Hh.
      assert (Hlt : lt high high = true); [|by rewrite lt_irreflexive in Hlt].
      eapply ordered_app; [exact Hs|by apply last_Some_elem_of|by apply last_Some_elem_of].
    + rewrite (select_next _ _ _ _ Hs Hh). destruct todo as [|x todo].
      { rewrite app_nil_r in Hh. congruence. }
      set (b := take limit (x :: todo)). set (rest := drop limit (x :: todo)).
      assert (Hb : b <> []) by (unfold b; destruct limit; [lia|done]).
      assert (Happ : (done_ ++ x :: todo = (done_ ++ b) ++ rest)%list) by (by rewrite <- app_assoc; unfold b, rest; rewrite take_drop).
      assert (Hlast : (match last b with Some k => Some k | None => last done_ end) = last (done_ ++ b)).
      { rewrite last_app. by destruct (last b). }
      rewrite Hlast, Happ. destruct (IH (done_ ++ b)%list rest) as (bs & Hbs & Hc & Hall).
      { by rewrite <- Happ. }
      { by rewrite <- Happ. }
      { unfold rest. rewrite length_drop. cbn in *. lia. }
      exists (b :: bs). rewrite Hbs. cbn. split; [done|]. split.
      * rewrite Hc. unfold b, rest. apply take_drop.
      * constructor; [|done]. split; [done|]. unfold b. rewrite length_take. lia.
Qed.

(** The batches of a table's snapshot cover it: with a positive batch size, for a
    table whose rows are ordered by a unique index and whose last key is the high
    watermark, the batches end, none of them is empty or over the limit, and
    together they are the rows of the table, each once and in order. *)
Theorem snapshot_batches_cover `{EqDecision K} table high limit :
  ordered table -> last table = Some high -> (0 < limit)%nat ->
  exists bs, batches (length table) table None high limit = Some bs /\ concat bs = table /\
    Forall (fun b => b <> [] /\ length b <= limit)%nat bs.
Proof. intros Hs Hh Hlim. by apply (batches_from (length table) [] table). Qed.

(** With a batch size of zero the batches never end. *)
Lemma empty_batches_never_end `{EqDecision K} fuel table low high :
  low <> Some high -> batches fuel table low high 0 = None.
Proof.
  intros Hlow. induction fuel as [|fuel IH]; cbn [batches]; rewrite decide_False by done; [done|].
  unfold select. rewrite take_0. cbn [last]. by rewrite IH.
Qed.
End Keys.

(** With keys that are not unique, as those of the dimensions are, a row that shares
    the key of the last row of a full batch is not selected again: of three rows
    with the key 1, the batches of two rows have two. *)
Example duplicate_keys_lost : batches Z.ltb 4 [1; 1; 1; 2] None 2 2 = Some [[1; 1]; [2]].
Proof. reflexivity. Qed.

(** *** All operations *)

(** Follows the structure of a call. *)
Ltac balance :=
  intros;
  first
    [ apply _
    | match goal with
      | |- Balanced (match ?x with _ => _ end) => destruct x; balance
      | |- Balanced (let _ := ?x in _) => cbv zeta; balance
      | |- Balanced (newSession _) => apply balanced_session; balance
      | |- Balanced (local _ _) => apply balanced_local; balance
      | |- Balanced (outer _) => apply balanced_outer; balance
      | |- Balanced (default_row _ _) => apply balanced_default_row; balance
      | |- Balanced (caught _) => apply balanced_caught; balance
      | |- Balanced (queryFunc _ _) => apply balanced_queryFunc; balance
      | |- Balanced (each_row _ _) => apply balanced_rows; balance
      | |- Balanced (snapshotTableWithCursor _ _ _ _ _ _ _ _) => apply balanced_cursor; balance
      | |- Balanced (_ ≫= _) => apply balanced_bind; balance
      end ].

Section Operations.
Context {R D : Type} `{Server R D} {C : Type}.

(** No operation of the side channel leaks a connection: whatever the database
    answers, after a value and after an error alike, as many connections are open as
    before, provided that the callbacks of the caller leak none. *)
Theorem operations_close_connections ParseLSN {Dec} (factory : R -> dberror + Dec)
    (decode : Dec -> R -> dberror + gmap string value) float_text time_text type_name visit
    (onTable : PgTable -> M D C unit) (onHypertable : Hypertable -> M D C unit) (onChunk : Chunk -> M D C unit)
    (resolve : Z -> M D C PgType) (onTableSchema : PgTable -> list Column -> M D C unit)
    (onHypertableSchema : Hypertable -> list Column -> M D C unit) (onRow : Z -> gmap string value -> M D C unit) :
  (forall t, Balanced (onTable t)) -> (forall h, Balanced (onHypertable h)) -> (forall c, Balanced (onChunk c)) ->
  (forall oid, Balanced (resolve oid)) -> (forall t l, Balanced (onTableSchema t l)) ->
  (forall h l, Balanced (onHypertableSchema h l)) -> (forall lsn v, Balanced (onRow lsn v)) ->
  (forall name, Balanced (ExistsPublication (C := C) name) /\ Balanced (DropPublication (C := C) name) /\
                Balanced (ReadPublishedTables (C := C) name)) /\
  (forall name l, Balanced (AttachTablesToPublication (C := C) name l) /\ Balanced (DetachTablesFromPublication (C := C) name l)) /\
  Balanced (GetReplicationMarkersEnabled (C := C)) /\ Balanced (GetPostgresVersion (C := C)) /\
  Balanced (GetTimescaleDBVersion (C := C)) /\
  (forall slot, Balanced (ReadReplicationSlot (C := C) ParseLSN slot)) /\
  Balanced (ReadVanillaTables onTable) /\ Balanced (ReadHypertables onHypertable) /\ Balanced (ReadChunks onChunk) /\
  (forall l, Balanced (ReadVanillaTableSchema resolve onTableSchema l)) /\
  (forall l, Balanced (ReadHypertableSchema resolve onHypertableSchema l)) /\
  (forall fuel cursorName c size, Balanced (SnapshotChunkTable factory decode fuel cursorName c size onRow)) /\
  (forall fuel cursorName table name size w, Balanced (FetchTableSnapshotBatch factory decode float_text time_text type_name
     visit fuel cursorName table name size onRow w)) /\
  (forall table name, Balanced (ReadSnapshotHighWatermark (C := C) factory decode table name)).
Proof.
  intros H1 H2 H3 H4 H5 H6 H7. split_and!; intros; split_and?;
    unfold ExistsPublication, DropPublication, ReadPublishedTables, AttachTablesToPublication, DetachTablesFromPublication,
      GetReplicationMarkersEnabled, GetPostgresVersion, GetTimescaleDBVersion, ReadReplicationSlot, ReadVanillaTables,
      ReadHypertables, ReadChunks, ReadVanillaTableSchema, readVanillaTableSchema0, ReadHypertableSchema,
      readHypertableSchema0, collect_column, SnapshotChunkTable, FetchTableSnapshotBatch, batch_clause,
      ReadSnapshotHighWatermark; balance.
Qed.
End Operations.

(** *** Errors *)

Section Errors.
Context {R D : Type} `{Server R D} {C : Type}.

(** Whatever goes wrong, the replication markers are reported as disabled. *)
Lemma markers_never_fail (w : world D C) e w' :
  newSession (queryRow queryReplicationMarkersEnabled) w = Fault e w' ->
  GetReplicationMarkersEnabled w = Val false w'.
Proof. intros He. unfold GetReplicationMarkersEnabled, caught, mbind, M_bind. by rewrite He. Qed.

(** The four outcomes of reading a replication slot that the database answers. *)
Lemma replication_slot_outcomes ParseLSN slotName (w : world D C) d1 d2 a :
  srv_connect (db w) = (None, d1) -> srv_query (queryReadReplicationSlot slotName) d1 = (inr a, d2) -> rows_Err a = None ->
  let w' := mkWorld (srv_close d2) (connections w + 1 - 1) (client w) in
  (rows a = [] -> ReadReplicationSlot ParseLSN slotName w = Val (""%string, ""%string, 0, 0) w') /\
  (forall plugin typ confirmed l, rows a = inr (plugin, typ, None, confirmed) :: l ->
     ReadReplicationSlot ParseLSN slotName w = Fault ErrNoRestartPointInReplicationSlot w') /\
  (forall plugin typ restart lsn l, rows a = inr (plugin, typ, Some restart, None) :: l -> ParseLSN restart = inr lsn ->
     ReadReplicationSlot ParseLSN slotName w = Panics PanicNilDereference) /\
  (forall plugin typ restart confirmed x y l, rows a = inr (plugin, typ, Some restart, Some confirmed) :: l ->
     ParseLSN restart = inr x -> ParseLSN confirmed = inr y ->
     ReadReplicationSlot ParseLSN slotName w = Val (plugin, typ, x, y) w').
Proof.
  intros Hc Hq He w'. unfold ReadReplicationSlot, default_row, caught, newSession, queryRow, ask, mbind, M_bind.
  rewrite Hc. cbn [db connections client]. rewrite Hq.
  split; [|split; [|split]].
  - intros Hr. by rewrite Hr, He.
  - intros plugin typ confirmed l Hr. by rewrite Hr.
  - intros plugin typ restart lsn l Hr Hp. rewrite Hr. cbn. by rewrite Hp.
  - intros plugin typ restart confirmed x y l Hr Hx Hy. rewrite Hr. cbn. rewrite Hx. cbn. by rewrite Hy.
Qed.
End Errors.

(** *** Concrete inputs *)

Lemma operations_close_connections_witness :
  connections (match @SnapshotChunkTable Z (list Z) sample_server unit (fun _ => inr tt) (fun _ r => inr (sample_values r))
      _ 3 "cursor" (Chnk.NewChunk 1 1 "_timescaledb_internal" "_hyper_1_1_chunk" false 0 None) 2 sample_callback (mkWorld [] 5 [])
    with Val _ w | Fault _ w => w | Panics _ => mkWorld [] 0 [] end) = 5.
Proof.
  destruct (@operations_close_connections Z (list Z) sample_server (list (Z * option value)) (fun _ => inr 0) unit (fun _ => inr tt)
    (fun _ r => inr (sample_values r)) (fun _ => ""%string) (fun _ => ""%string) (fun _ => ""%string) map_to_list
    (fun _ => mret tt) (fun _ => mret tt) (fun _ => mret tt) (fun _ => fault ErrNoRows) (fun _ _ => mret tt)
    (fun _ _ => mret tt) sample_callback) as (_ & _ & _ & _ & _ & _ & _ & _ & _ & _ & _ & Hchunk & _);
    [intros; by intros w..|].
  specialize (Hchunk 3%nat "cursor"%string (Chnk.NewChunk 1 1 "_timescaledb_internal" "_hyper_1_1_chunk" false 0 None) 2
    (mkWorld [] 5 [])).
  destruct (SnapshotChunkTable _ _ _ _ _ _ _ _) as [a w|e w|c] eqn:E; [exact Hchunk|exact Hchunk|].
  vm_compute in E. discriminate E.
Defined.

Definition id_column : Column :=
  Col.NewIndexColumn "id" 20 (-1) (mkPgType "pg_catalog" "int8" "b" 20 "N" false false 1016 0 0 (-1) [] "," "int64")
    false true (Some 1) None false (Some "t_pkey"%string) "ASC" "NULLS LAST" false false None None None.

Definition sample_table : baseTable := BaseTable.mkBaseTable (NewSystemEntity "public" "t") [id_column] "d" [id_column].

(** Rows up to 5, of which the first two were fetched before. *)
Definition sample_mark : Watermark :=
  mkWatermark false ∅ {[ "id"%string := VInt64 5 ]} {[ "id"%string := VInt64 2 ]}.

Definition batch_server : Server Z (list Z) := {|
  srv_connect d := (None, d);
  srv_close d := d;
  srv_exec sql d := (None, if String.prefix "DECLARE" sql then [3; 4; 5] else d);
  srv_query A q d :=
    match q in query _ A return (dberror + answer A) * list Z with
    | current_wal_lsn => (inr (mkAnswer [inr 77] None), d)
    | fetch_forward n _ => (inr (mkAnswer (inr <$> take (Z.to_nat n) d) None), drop (Z.to_nat n) d)
    | _ => (inl ErrNoRows, d)
    end;
|}.

Definition sample_index : Index := newIndex "t_pkey" [id_column] true false.
Definition sample_clause : string := "(id) > (2) AND (id) <= (5)".

Lemma fetch_batch_delivers_witness :
  exists d, @FetchTableSnapshotBatch Z (list Z) batch_server unit (fun _ => inr tt) (fun _ r => inr (sample_values r))
      (fun _ => ""%string) (fun _ => ""%string) (fun _ => ""%string) map_to_list _ 2 "cursor" sample_table "snap" 2
      sample_callback (Some sample_mark) (mkWorld [] 0 [])
    = Val (mkWatermark true ∅ {[ "id"%string := VInt64 5 ]} {[ "id"%string := VInt64 5 ]})
        (mkWorld d 0 [(77, Some (VInt64 3)); (77, Some (VInt64 4)); (77, Some (VInt64 5))]).
Proof.
  destruct (@fetch_batch_delivers Z (list Z) batch_server (list (Z * option value)) unit (fun _ => inr tt)
    (fun _ r => inr (sample_values r)) (fun _ => ""%string) (fun _ => ""%string) (fun _ => ""%string) map_to_list tt sample_values
    2 "cursor" sample_table "snap" 2 sample_callback (fun lsn v c => c ++ [(lsn, v !! "id"%string)])%list sample_mark
    sample_index sample_clause 77 [3; 4; 5] (fun d => d) (mkWorld [] 0 [])) as [d Hrun].
  - reflexivity.
  - reflexivity.
  - intros p v w _ _. split; reflexivity.
  - vm_compute. reflexivity.
  - vm_compute. reflexivity.
  - repeat constructor.
  - split.
    + intros d. by eexists.
    + intros sql d. by eexists.
    + intros d. by eexists.
    + intros d d' Hd. injection Hd as <-. vm_compute. reflexivity.
    + intros n d _. eexists. split; reflexivity.
  - lia.
  - vm_compute. lia.
  - exists d. exact Hrun.
Defined.

Lemma snapshot_batches_cover_witness :
  exists bs, batches Z.ltb 5 [1; 2; 3; 4; 5] None 5 2 = Some bs /\ concat bs = [1; 2; 3; 4; 5].
Proof.
  assert (Htrans : forall a b c, (a <? b) = true -> (b <? c) = true -> (a <? c) = true).
  { intros a b c Hab Hbc. apply Z.ltb_lt in Hab, Hbc. apply Z.ltb_lt. lia. }
  destruct (snapshot_batches_cover Z.ltb Z.ltb_irrefl Htrans [1; 2; 3; 4; 5] 5 2) as (bs & Hbs & Hc & _).
  - repeat constructor.
  - reflexivity.
  - lia.
  - exists bs. exact (conj Hbs Hc).
Defined.
