(* ===== verification/Queries.v ===== *)
(** * Queries: the texts of the catalog queries

    internal/sidechannel/queries.go, with the calls of sidechannel.go that use them:
    which text a query has, which arguments it is sent with, and which variables a
    row of its answer is scanned into.

    - [Lexer]: the words, literals and signs of an SQL text, the expressions that a
      statement selects, and its placeholders.
    - [Texts]: the constants of queries.go.  A verb for a text in them is a parameter.

    The driver refuses a statement that is sent with another number of arguments than
    it has placeholders, and a row that is scanned into another number of variables
    than it has columns. *)

From Stdlib Require Import ZArith Lia.
From Stdlib Require Import Strings.Ascii.
From stdpp Require Import base tactics option list numbers strings pretty gmap.
From S2P Require Import Prelude Encoding Entities Values Watermarks SqlIndex SideChannel.

Local Open Scope Z_scope.

Module Lexer.

Inductive token : Set := Word (s : list ascii) | Literal (s : list ascii) | Sign (c : ascii).

#[export] Instance token_eq_dec : EqDecision token.
Proof. solve_decision. Defined.

Definition is_space (c : ascii) : bool := bool_decide (nat_of_ascii c = 32 \/ nat_of_ascii c = 10 \/ nat_of_ascii c = 9)%nat.
Definition is_quote (c : ascii) : bool := bool_decide (nat_of_ascii c = 39)%nat.

(** Letters, digits, the underscore and the dollar sign of a placeholder. *)
Definition is_word (c : ascii) : bool :=
  let n := nat_of_ascii c in
  ((48 <=? n) && (n <=? 57) || (65 <=? n) && (n <=? 90) || (97 <=? n) && (n <=? 122) || (n =? 95) || (n =? 36))%nat.

Definition flush (word : list ascii) (l : list token) : list token :=
  match word with [] => l | _ => Word (reverse word) :: l end.

(** The word, or the literal, that was begun. *)
Fixpoint lex (s : list ascii) (quoted : bool) (begun : list ascii) : list token :=
  match s with
  | [] => if quoted then [Literal (reverse begun)] else flush begun []
  | c :: s' =>
      if quoted then if is_quote c then Literal (reverse begun) :: lex s' false [] else lex s' true (c :: begun)
      else if is_word c then lex s' false (c :: begun)
      else flush begun (if is_space c then lex s' false []
                        else if is_quote c then lex s' true []
                        else Sign c :: lex s' false [])
  end.

Definition tokens (s : string) : list token := lex (String.list_ascii_of_string s) false [].
Definition word (s : string) : token := Word (String.list_ascii_of_string s).
Definition sign (s : string) : token := match String.list_ascii_of_string s with c :: _ => Sign c | [] => Word [] end.

(** The expressions up to the FROM, separated by the commas outside of parentheses. *)
Fixpoint expressions (depth : nat) (begun : list token) (l : list token) : list (list token) :=
  match l with
  | [] => [reverse begun]
  | t :: l' =>
      if decide (t = sign "(") then expressions (S depth) (t :: begun) l'
      else if decide (t = sign ")") then expressions (pred depth) (t :: begun) l'
      else match depth with
           | O =>
               if decide (t = sign ",") then reverse begun :: expressions 0 [] l'
               else if decide (t = word "FROM") then [reverse begun]
               else expressions 0 (t :: begun) l'
           | S _ => expressions depth (t :: begun) l'
           end
  end.

(** The columns of an answer: SHOW gives one. *)
Definition selected (s : string) : list (list token) :=
  match tokens s with
  | t :: l => if decide (t = word "SELECT") then expressions 0 [] l else if decide (t = word "SHOW") then [l] else []
  | [] => []
  end.

(** The numbers of the placeholders, in the order of the text. *)
Definition digits (s : list ascii) : option nat :=
  foldl (fun n c => n ← n; let d := (nat_of_ascii c - 48)%nat in if (d <=? 9)%nat then Some (10 * n + d)%nat else None) (Some 0%nat) s.
Definition placeholder (t : token) : option nat :=
  match t with
  | Word (c :: s) => if decide (c = "$"%char) then digits s else None
  | _ => None
  end.
Definition placeholders (s : string) : list nat := omap placeholder (tokens s).

End Lexer.

Module Texts.

Definition queryReadSystemInformation : string := "
SELECT current_database(), pcs.system_identifier, pcc.timeline_id 
FROM pg_control_system() pcs, pg_control_checkpoint() pcc".

Definition queryTimescaleDbVersion : string := "
SELECT extversion
FROM pg_catalog.pg_extension
WHERE extname = 'timescaledb'".

Definition queryPostgreSqlVersion : string := "SHOW SERVER_VERSION".

Definition queryConfiguredWalLevel : string := "SHOW WAL_LEVEL".

Definition queryReplicationMarkersEnabled : string := "SHOW timescaledb.enable_decompression_logrep_markers".

Definition queryTemplateReadPostgreSqlTypes (condition : string) : string :=
  ("
SELECT DISTINCT ON (t.typname) sp.nspname, t.typname, t.typinput='array_in'::REGPROC,
                               t.typinput='record_in'::REGPROC,
                               t.typtype, t.oid, t.typarray, t.typelem,
                               t.typcategory, t.typbasetype, t.typtypmod,
                               e.enum_values, t.typdelim
FROM pg_catalog.pg_type t
LEFT JOIN (
    SELECT ns.oid AS nspoid, ns.nspname, r.rank
    FROM pg_catalog.pg_namespace ns
    JOIN (
        SELECT row_number() OVER () AS rank, s.s AS nspname
        FROM (
            SELECT r.r AS s FROM unnest(current_schemas(TRUE)) r
            UNION ALL
            SELECT '_timescaledb_internal' AS s
        ) s
    ) r ON ns.nspname = r.nspname
) sp ON sp.nspoid = t.typnamespace
LEFT JOIN (
    SELECT e.enumtypid AS id, array_agg(e.enumlabel) AS enum_values
    FROM pg_catalog.pg_enum e
    GROUP BY 1 
) e ON e.id = t.oid 
WHERE sp.rank IS NOT NULL
  AND t.typtype != 'p'
" ++ condition ++ "
ORDER BY t.typname DESC, sp.rank, t.oid;")%string.

Definition queryTemplateAddTableToPublication (publicationName tables : string) : string :=
  ("ALTER PUBLICATION " ++ publicationName ++ " ADD TABLE " ++ tables)%string.

Definition queryTemplateDropTableFromPublication (publicationName tables : string) : string :=
  ("ALTER PUBLICATION " ++ publicationName ++ " DROP TABLE " ++ tables)%string.

Definition queryCreatePublication : string := "SELECT create_timescaledb_catalog_publication($1, $2)".

Definition queryTemplateDropPublication (publicationName : string) : string :=
  ("DROP PUBLICATION IF EXISTS " ++ publicationName)%string.

Definition queryCheckPublicationExists : string := "SELECT true FROM pg_publication WHERE pubname = $1".

Definition queryReadExistingAlreadyPublishedTables : string := "
SELECT pt.schemaname, pt.tablename
FROM pg_catalog.pg_publication_tables pt
WHERE pt.pubname = $1".

Definition queryCheckTableExistsInPublication : string := "
SELECT true
FROM pg_catalog.pg_publication_tables pt
WHERE pt.pubname = $1
  AND pt.schemaname = $2
  AND pt.tablename = $3".

Definition queryReadReplicationSlot : string := "
SELECT plugin, slot_type, restart_lsn, confirmed_flush_lsn
FROM pg_catalog.pg_replication_slots prs
WHERE slot_name = $1".

Definition queryCheckReplicationSlotExists : string := "
SELECT true
FROM pg_catalog.pg_replication_slots prs
WHERE slot_name = $1".

Definition queryReadHypertables : string := "
SELECT h1.id, h1.schema_name, h1.table_name, h1.associated_schema_name, h1.associated_table_prefix,
	 h1.compression_state, h1.compressed_hypertable_id, ca.user_view_schema, ca.user_view_name, c.relreplident
FROM _timescaledb_catalog.hypertable h1
LEFT JOIN timescaledb_information.hypertables h2
	 ON h2.hypertable_schema = h1.schema_name
	AND h2.hypertable_name = h1.table_name
LEFT JOIN _timescaledb_catalog.continuous_agg ca
    ON h1.id = ca.mat_hypertable_id
LEFT JOIN pg_catalog.pg_namespace n
    ON n.nspname = h1.schema_name
LEFT JOIN pg_catalog.pg_class c
    ON c.relname = h1.table_name
   AND c.relnamespace = n.oid;
".

Definition queryReadChunks : string := "
SELECT c1.id, c1.hypertable_id, c1.schema_name, c1.table_name, c1.compressed_chunk_id, c1.dropped, c1.status
FROM _timescaledb_catalog.chunk c1
LEFT JOIN timescaledb_information.chunks c2
       ON c2.chunk_schema = c1.schema_name
      AND c2.chunk_name = c1.table_name
ORDER BY c1.hypertable_id, c1.compressed_chunk_id nulls first, c2.range_start".

Definition queryReadHypertableSchema : string := "
SELECT
   c.column_name,
   t.oid::int,
   a.atttypmod,
   CASE WHEN c.is_nullable = 'YES' THEN true ELSE false END AS nullable,
   coalesce(p.indisprimary, false) AS is_primary_key,
   p.key_seq,
   c.column_default,
   coalesce(p.indisreplident, false) AS is_replica_ident,
   p.index_name,
   CASE o.option & 1 WHEN 1 THEN 'DESC' ELSE 'ASC' END AS index_column_order,
   CASE o.option & 2 WHEN 2 THEN 'NULLS FIRST' ELSE 'NULLS LAST' END AS index_nulls_order,
   d.column_name IS NOT NULL AS is_dimension,
   coalesce(d.aligned, false) AS dim_aligned,
   CASE WHEN d.interval_length IS NULL THEN 'space' ELSE 'time' END AS dim_type,
   CASE WHEN d.column_name IS NOT NULL THEN rank() over (order by d.id) END,
   c.character_maximum_length
FROM information_schema.columns c
LEFT JOIN (
    SELECT
        cl.relname,
        n.nspname,
        a.attname,
        (information_schema._pg_expandarray(i.indkey)).n AS key_seq,
        (information_schema._pg_expandarray(i.indkey)) AS keys,
        a.attnum,
        i.indisreplident,
        i.indisprimary,
        cl2.relname AS index_name,
        i.indoption
    FROM pg_index i, pg_attribute a, pg_class cl, pg_namespace n, pg_class cl2
    WHERE cl.relnamespace = n.oid
      AND a.attrelid = cl.oid
      AND i.indrelid = cl.oid
      AND i.indexrelid = cl2.oid
      AND i.indisprimary
) p ON p.attname = c.column_name AND p.nspname = c.table_schema AND p.relname = c.table_name AND p.attnum = (p.keys).x
LEFT JOIN pg_catalog.pg_namespace nt ON nt.nspname = c.udt_schema
LEFT JOIN pg_catalog.pg_type t ON t.typnamespace = nt.oid AND t.typname = c.udt_name
LEFT JOIN pg_catalog.pg_namespace nc ON nc.nspname = c.table_schema
LEFT JOIN pg_catalog.pg_class cl ON cl.relname = c.table_name AND cl.relnamespace = nc.oid
LEFT JOIN pg_catalog.pg_attribute a ON a.attrelid = cl.oid AND a.attnum = c.ordinal_position
LEFT JOIN unnest (p.indoption) WITH ORDINALITY o (option, ordinality) ON p.attnum = o.ordinality
LEFT JOIN _timescaledb_catalog.hypertable h ON h.schema_name = c.table_schema AND h.table_name = c.table_name
LEFT JOIN _timescaledb_catalog.dimension d ON d.hypertable_id = h.id AND d.column_name = c.column_name
WHERE c.table_schema = $1
  AND c.table_name = $2
ORDER BY c.ordinal_position".

Definition queryReadContinuousAggregateInformation : string := "
SELECT ca.user_view_schema, ca.user_view_name
FROM _timescaledb_catalog.continuous_agg ca 
WHERE ca.mat_hypertable_id = $1".

Definition queryReadReplicaIdentity : string := "
SELECT c.relreplident::text
FROM pg_catalog.pg_class c
LEFT JOIN pg_catalog.pg_namespace n ON c.relnamespace = n.oid
WHERE n.nspname=$1 and c.relname=$2".

Definition queryTemplateSnapshotHighWatermark (tuple table orderBy : string) : string :=
  ("
SELECT " ++ tuple ++ "
FROM " ++ table ++ "
ORDER BY " ++ orderBy ++ "
LIMIT 1")%string.

Definition queryCheckUserTablePrivilege : string := "SELECT HAS_TABLE_PRIVILEGE($1, $2, $3)".

Definition queryReadCompositeTypeSchema : string := "
SELECT a.attname,
       a.atttypid,
       a.atttypmod,
       a.attnotnull
FROM pg_catalog.pg_attribute a
RIGHT JOIN pg_catalog.pg_class pc on pc.reltype = $1
WHERE a.attrelid = pc.oid AND a.attnum > 0 AND NOT a.attisdropped
ORDER BY a.attnum".

Definition queryReadVanillaTables : string := "
SELECT c.oid, t.schemaname, t.tablename, c.relreplident
FROM pg_catalog.pg_tables t
LEFT JOIN pg_catalog.pg_namespace n
    ON n.nspname = t.schemaname
LEFT JOIN pg_catalog.pg_class c
    ON c.relname = t.tablename
   AND c.relnamespace = n.oid
LEFT JOIN _timescaledb_catalog.hypertable h ON h.schema_name = t.schemaname AND h.table_name = t.tablename
WHERE t.schemaname NOT LIKE '_timescaledb_%'
  AND h.id IS NULL".

Definition queryReadVanillaTableSchema : string := "
SELECT
   c.column_name,
   t.oid::int,
   a.atttypmod,
   CASE WHEN c.is_nullable = 'YES' THEN true ELSE false END AS nullable,
   coalesce(p.indisprimary, false) AS is_primary_key,
   p.key_seq,
   c.column_default,
   coalesce(p.indisreplident, false) AS is_replica_ident,
   p.index_name,
   CASE o.option & 1 WHEN 1 THEN 'DESC' ELSE 'ASC' END AS index_column_order,
   CASE o.option & 2 WHEN 2 THEN 'NULLS FIRST' ELSE 'NULLS LAST' END AS index_nulls_order,
   c.character_maximum_length
FROM information_schema.columns c
LEFT JOIN (
    SELECT
        cl.relname,
        n.nspname,
        a.attname,
        (information_schema._pg_expandarray(i.indkey)).n AS key_seq,
        (information_schema._pg_expandarray(i.indkey)) AS keys,
        a.attnum,
        i.indisreplident,
        i.indisprimary,
        cl2.relname AS index_name,
        i.indoption
    FROM pg_index i, pg_attribute a, pg_class cl, pg_namespace n, pg_class cl2
    WHERE cl.relnamespace = n.oid
      AND a.attrelid = cl.oid
      AND i.indrelid = cl.oid
      AND i.indexrelid = cl2.oid
      AND i.indisprimary
) p ON p.attname = c.column_name AND p.nspname = c.table_schema AND p.relname = c.table_name AND p.attnum = (p.keys).x
LEFT JOIN pg_catalog.pg_namespace nt ON nt.nspname = c.udt_schema
LEFT JOIN pg_catalog.pg_type t ON t.typnamespace = nt.oid AND t.typname = c.udt_name
LEFT JOIN pg_catalog.pg_namespace nc ON nc.nspname = c.table_schema
LEFT JOIN pg_catalog.pg_class cl ON cl.relname = c.table_name AND cl.relnamespace = nc.oid
LEFT JOIN pg_catalog.pg_attribute a ON a.attrelid = cl.oid AND a.attnum = c.ordinal_position
LEFT JOIN unnest (p.indoption) WITH ORDINALITY o (option, ordinality) ON p.attnum = o.ordinality
WHERE c.table_schema = $1
  AND c.table_name = $2
ORDER BY c.ordinal_position".
End Texts.

(** ** The calls *)

Inductive argument : Set := ArgText (s : string) | ArgNumber (n : Z) | ArgNumbers (l : list Z).

(** A variable that a column is scanned into. *)
Inductive field : Set :=
| Text_ (s : string) | Number (n : Z) | Flag (b : bool) | OptText (o : option string) | OptNumber (o : option Z)
| TextList (l : list string).

Definition text {R A} (q : query R A) : string :=
  match q with
  | SideChannel.queryCheckUserTablePrivilege _ _ _ => Texts.queryCheckUserTablePrivilege
  | SideChannel.queryCreatePublication _ _ => Texts.queryCreatePublication
  | SideChannel.queryCheckPublicationExists _ => Texts.queryCheckPublicationExists
  | SideChannel.queryCheckTableExistsInPublication _ _ _ => Texts.queryCheckTableExistsInPublication
  | SideChannel.queryReadSystemInformation => Texts.queryReadSystemInformation
  | SideChannel.queryConfiguredWalLevel => Texts.queryConfiguredWalLevel
  | SideChannel.queryReplicationMarkersEnabled => Texts.queryReplicationMarkersEnabled
  | SideChannel.queryPostgreSqlVersion => Texts.queryPostgreSqlVersion
  | SideChannel.queryTimescaleDbVersion => Texts.queryTimescaleDbVersion
  | SideChannel.queryReadVanillaTables => Texts.queryReadVanillaTables
  | SideChannel.queryReadHypertables => Texts.queryReadHypertables
  | SideChannel.queryReadChunks => Texts.queryReadChunks
  | SideChannel.queryReadVanillaTableSchema _ _ => Texts.queryReadVanillaTableSchema
  | SideChannel.queryReadHypertableSchema _ _ => Texts.queryReadHypertableSchema
  | SideChannel.queryReadReplicaIdentity _ _ => Texts.queryReadReplicaIdentity
  | SideChannel.queryReadContinuousAggregateInformation _ => Texts.queryReadContinuousAggregateInformation
  | SideChannel.queryReadExistingAlreadyPublishedTables _ => Texts.queryReadExistingAlreadyPublishedTables
  | SideChannel.queryReadReplicationSlot _ => Texts.queryReadReplicationSlot
  | SideChannel.queryCheckReplicationSlotExists _ => Texts.queryCheckReplicationSlotExists
  | SideChannel.queryReadCompositeTypeSchema _ => Texts.queryReadCompositeTypeSchema
  | SideChannel.queryTemplateSnapshotHighWatermark tuple table orderBy =>
      Texts.queryTemplateSnapshotHighWatermark tuple table orderBy
  | current_wal_lsn => "SELECT pg_current_wal_lsn()"
  | fetch_forward count cursorName => ("FETCH FORWARD " ++ pretty count ++ " FROM " ++ cursorName)%string
  end.

Definition arguments {R A} (q : query R A) : list argument :=
  match q with
  | SideChannel.queryCheckUserTablePrivilege username table grant => [ArgText username; ArgText table; ArgText grant]
  | SideChannel.queryCreatePublication publicationName user => [ArgText publicationName; ArgText user]
  | SideChannel.queryCheckPublicationExists publicationName
  | SideChannel.queryReadExistingAlreadyPublishedTables publicationName => [ArgText publicationName]
  | SideChannel.queryCheckTableExistsInPublication publicationName schemaName tableName =>
      [ArgText publicationName; ArgText schemaName; ArgText tableName]
  | SideChannel.queryReadVanillaTableSchema schemaName tableName
  | SideChannel.queryReadHypertableSchema schemaName tableName
  | SideChannel.queryReadReplicaIdentity schemaName tableName => [ArgText schemaName; ArgText tableName]
  | SideChannel.queryReadContinuousAggregateInformation materializedHypertableId => [ArgNumber materializedHypertableId]
  | SideChannel.queryReadReplicationSlot slotName
  | SideChannel.queryCheckReplicationSlotExists slotName => [ArgText slotName]
  | SideChannel.queryReadCompositeTypeSchema oid => [ArgNumber oid]
  | _ => []
  end.

(** The variables of [Scan], column by column, with the values they get from a row;
    the rows of a table are decoded by name instead. *)
Definition column_fields (r : column_row) : list field :=
  [Text_ (lr_name r); Number (lr_oid r); Number (lr_modifiers r); Flag (lr_nullable r); Flag (lr_primaryKey r);
   OptNumber (lr_keySeq r); OptText (lr_defaultValue r); Flag (lr_isReplicaIdent r); OptText (lr_indexName r);
   Text_ (lr_sortOrder r); Text_ (lr_nullsOrder r)].

Definition dimension_fields (r : dimension_row) : list field :=
  [Flag (dr_dimension r); Flag (dr_dimAligned r); OptText (dr_dimType r); OptNumber (dr_dimSeq r)].

Definition scanned {R A} (q : query R A) : option (A -> list field) :=
  match q in query _ A return option (A -> list field) with
  | SideChannel.queryCheckUserTablePrivilege _ _ _ => Some (fun access => [Flag access])
  | SideChannel.queryCreatePublication _ _ => Some (fun success => [Flag success])
  | SideChannel.queryCheckPublicationExists _ => Some (fun found => [Flag found])
  | SideChannel.queryCheckTableExistsInPublication _ _ _ => Some (fun found => [Flag found])
  | SideChannel.queryReadSystemInformation =>
      Some (fun '(databaseName, systemId, timeline) => [Text_ databaseName; Text_ systemId; Number timeline])
  | SideChannel.queryConfiguredWalLevel => Some (fun walLevel => [Text_ walLevel])
  | SideChannel.queryReplicationMarkersEnabled => Some (fun value => [Text_ value])
  | SideChannel.queryPostgreSqlVersion => Some (fun v => [Text_ v])
  | SideChannel.queryTimescaleDbVersion => Some (fun v => [Text_ v])
  | SideChannel.queryReadVanillaTables =>
      Some (fun '(relId, schemaName, tableName, replicaIdentity) =>
        [Number relId; Text_ schemaName; Text_ tableName; Text_ replicaIdentity])
  | SideChannel.queryReadHypertables =>
      Some (fun r => [Number (hr_id r); Text_ (hr_schemaName r); Text_ (hr_hypertableName r); Text_ (hr_associatedSchemaName r);
        Text_ (hr_associatedTablePrefix r); Number (hr_compressionState r); OptNumber (hr_compressedHypertableId r);
        OptText (hr_viewSchema r); OptText (hr_viewName r); Text_ (hr_replicaIdentity r)])
  | SideChannel.queryReadChunks =>
      Some (fun r => [Number (cr_id r); Number (cr_hypertableId r); Text_ (cr_schemaName r); Text_ (cr_tableName r);
        OptNumber (cr_compressedChunkId r); Flag (cr_dropped r); Number (cr_status r)])
  | SideChannel.queryReadVanillaTableSchema _ _ =>
      Some (fun r => column_fields r ++ [OptNumber (lr_maxCharLength r)])%list
  | SideChannel.queryReadHypertableSchema _ _ =>
      Some (fun r => column_fields (fst r) ++ dimension_fields (snd r) ++ [OptNumber (lr_maxCharLength (fst r))])%list
  | SideChannel.queryReadReplicaIdentity _ _ => Some (fun val => [Text_ val])
  | SideChannel.queryReadContinuousAggregateInformation _ =>
      Some (fun '(viewSchema, viewName) => [Text_ viewSchema; Text_ viewName])
  | SideChannel.queryReadExistingAlreadyPublishedTables _ =>
      Some (fun '(schemaName, tableName) => [Text_ schemaName; Text_ tableName])
  | SideChannel.queryReadReplicationSlot _ =>
      Some (fun '(pluginName, slotType, restart, confirmed) =>
        [Text_ pluginName; Text_ slotType; OptText restart; OptText confirmed])
  | SideChannel.queryCheckReplicationSlotExists _ => Some (fun found => [Flag found])
  | SideChannel.queryReadCompositeTypeSchema _ =>
      Some (fun '(attname, atttypeid, atttypmod, attnotnull) =>
        [Text_ attname; Number atttypeid; Number atttypmod; Flag attnotnull])
  | SideChannel.queryTemplateSnapshotHighWatermark _ _ _ => None
  | current_wal_lsn => Some (fun currentLSN => [Number currentLSN])
  | fetch_forward _ _ => None
  end.

(** ReadPgTypes: its statement depends on the number of oids. *)
Definition types_statement (oids : list Z) : string * list argument :=
  match oids with
  | [] => (Texts.queryTemplateReadPostgreSqlTypes "", [])
  | [oid] => (Texts.queryTemplateReadPostgreSqlTypes "AND t.oid = $1", [ArgNumber oid])
  | _ => (Texts.queryTemplateReadPostgreSqlTypes "AND t.oid = ANY($1)", [ArgNumbers oids])
  end.

(** The row of a type, and the variables of scanPgType. *)
Record type_row : Type := mkTypeRow {
  yr_namespace : string; yr_name : string; yr_arrayType : bool; yr_recordType : bool; yr_kind : Z; yr_oid : Z;
  yr_oidArray : Z; yr_oidElement : Z; yr_category : Z; yr_baseOid : Z; yr_modifiers : Z; yr_enumValues : list string;
  yr_delimiter : Z;
}.

Definition type_fields (r : type_row) : list field :=
  [Text_ (yr_namespace r); Text_ (yr_name r); Flag (yr_arrayType r); Flag (yr_recordType r); Number (yr_kind r);
   Number (yr_oid r); Number (yr_oidArray r); Number (yr_oidElement r); Number (yr_category r); Number (yr_baseOid r);
   Number (yr_modifiers r); TextList (yr_enumValues r); Number (yr_delimiter r)].

(** ** Properties *)

(** C40. The statements and the calls fit: every query whose rows are scanned, that of
    ReadPgTypes for any number of oids included, is sent with an argument for each of its
    placeholders, which are numbered from 1 in the order of the text, and a row of its
    answer has as many columns as there are variables to scan it into.  (The two queries
    whose rows are decoded by the names of their columns, those of the high watermark and
    of a cursor, are not among them.) *)
Theorem statements_fit :
  (forall R A (q : query R A) f, scanned q = Some f ->
     Lexer.placeholders (text q) = seq 1 (length (arguments q)) /\
     forall row, length (f row) = length (Lexer.selected (text q))) /\
  (forall oids, Lexer.placeholders (fst (types_statement oids)) = seq 1 (length (snd (types_statement oids))) /\
     forall row, length (type_fields row) = length (Lexer.selected (fst (types_statement oids)))).
Proof.
  split.
  - intros R A q f. destruct q; intros [= <-]; (split; [vm_compute; reflexivity|]); intros row;
      repeat destruct row as [row ?]; vm_compute; reflexivity.
  - intros oids. destruct oids as [|o [|o' l]]; (split; [vm_compute; reflexivity|]); intros row; vm_compute; reflexivity.
Qed.

(** *** The high watermark *)

Section HighWatermark.
Import Lexer.

(** A text without parentheses and quotes, like a list of plain column names. *)
Definition plain (s : list ascii) : Prop :=
  Forall (fun c => is_quote c = false /\ c <> "("%char /\ c <> ")"%char) s.

(** The words in front of a sign do not depend on what follows it. *)
Lemma lex_sign s c rest begun :
  Forall (fun c => is_quote c = false) s -> is_word c = false -> is_space c = false -> is_quote c = false ->
  lex (s ++ c :: rest) false begun = lex s false begun ++ Sign c :: lex rest false [].
Proof.
  intros Hs Hw Hsp Hq. revert begun. induction Hs as [|x s Hx Hs IH]; intros begun; cbn.
  - rewrite Hw, Hsp, Hq. unfold flush. by destruct begun.
  - destruct (is_word x); [apply IH|]. destruct (is_space x); [|rewrite Hx]; unfold flush; destruct begun; cbn; rewrite ?IH; done.
Qed.

Definition is_paren (t : token) : Prop := t = sign "(" \/ t = sign ")".

Lemma plain_tokens s begun : plain s -> Forall (fun t => ~ is_paren t) (lex s false begun).
Proof.
  assert (Hflush : forall b l, Forall (fun t => ~ is_paren t) l -> Forall (fun t => ~ is_paren t) (flush b l)).
  { intros b l Hl. unfold flush. destruct b; [done|]. constructor; [|done]. by intros [?|?]. }
  intros Hs. revert begun. induction Hs as [|c s (Hq & Ho & Hc) Hs IH]; intros begun; cbn; [by apply Hflush|].
  destruct (is_word c); [apply IH|]. apply Hflush. destruct (is_space c); [apply IH|]. rewrite Hq.
  constructor; [|apply IH]. intros [[= ->]|[= ->]]; done.
Qed.

(** Inside of parentheses nothing is separated. *)
Lemma expressions_inside d l begun rest :
  Forall (fun t => ~ is_paren t) l ->
  expressions (S d) begun (l ++ sign ")" :: rest) = expressions d (sign ")" :: reverse l ++ begun) rest.
Proof.
  intros Hl. revert begun. induction Hl as [|t l Ht Hl IH]; intros begun.
  - cbn [app expressions]. rewrite decide_False by done. by rewrite decide_True.
  - cbn [app expressions]. rewrite !decide_False by (intros ->; apply Ht; unfold is_paren; tauto). rewrite IH.
    by rewrite reverse_cons, <- app_assoc.
Qed.

(** A tuple in parentheses is one column, however many names it has. *)
Lemma high_watermark_selects names table orderBy :
  plain (String.list_ascii_of_string names) ->
  length (selected (Texts.queryTemplateSnapshotHighWatermark ("(" ++ names ++ ")") table orderBy)) = 1%nat.
Proof.
  intros Hn. unfold selected, tokens.
  assert (String.list_ascii_of_string (Texts.queryTemplateSnapshotHighWatermark ("(" ++ names ++ ")") table orderBy) =
    String.list_ascii_of_string (String (ascii_of_nat 10) "SELECT ") ++ "("%char :: String.list_ascii_of_string names ++ ")"%char ::
    String.list_ascii_of_string (String (ascii_of_nat 10) "FROM ") ++
    String.list_ascii_of_string (table ++ "
ORDER BY " ++ orderBy ++ "
LIMIT 1")) as ->.
  { unfold Texts.queryTemplateSnapshotHighWatermark. rewrite !list_ascii_app. cbn [String.list_ascii_of_string app].
    rewrite <- !app_assoc. done. }
  rewrite lex_sign by first [done|repeat constructor].
  rewrite lex_sign by first [done|eapply Forall_impl; [exact Hn|]; by intros c [? _]].
  change (lex (String.list_ascii_of_string (String (ascii_of_nat 10) "SELECT ")) false []) with [word "SELECT"].
  cbn [app]. rewrite decide_True by done. cbn [expressions]. rewrite decide_True by done.
  change (Sign ")") with (sign ")"). rewrite expressions_inside by by apply plain_tokens.
  cbn [String.list_ascii_of_string app lex]. reflexivity.
Qed.
End HighWatermark.

(** *** A concrete input *)

Lemma statements_fit_witness :
  Lexer.placeholders (text (SideChannel.queryReadVanillaTableSchema (R := unit) "public" "t")) = [1; 2]%nat /\
  length (Lexer.selected (text (SideChannel.queryReadVanillaTableSchema (R := unit) "public" "t"))) = 12%nat /\
  length (Lexer.selected (fst (types_statement [23]))) = 13%nat.
Proof.
  destruct statements_fit as [Hquery Htypes].
  destruct (Hquery unit _ (SideChannel.queryReadVanillaTableSchema "public" "t") _ eq_refl) as [Hp Hs].
  split; [exact Hp|]. split; [symmetry; exact (Hs (mkColumnRow "" 0 0 false false None None false None "" "" None))|].
  symmetry. exact (proj2 (Htypes [23]) (mkTypeRow "" "" false false 0 0 0 0 0 0 0 [] 0)).
Defined.
