(* ===== verification/Initialize.v ===== *)
(** * Initialize: the first load of the catalog

    internal/systemcatalog/systemcatalog.go, initializeSystemCatalog: the
    hypertables, the chunks and the plain tables are read through the side channel
    and registered; what the filters exclude is left out, a table that cannot be
    read or that uses an index as its replica identity stops the start.

    The catalog is that of SystemCatalog.v, the operations are those of
    SideChannel.v, with the catalog as the state of their callbacks.  The filters
    are decisions on tables (TableFilter.v shows how they are made). *)

From Stdlib Require Import ZArith Lia.
From stdpp Require Import base tactics option list numbers strings gmap.
From S2P Require Import Prelude Entities SystemCatalog Versions SideChannel.

Local Open Scope Z_scope.

Section Initialize.
Context {R D : Type} `{Server R D}.
Context (username : string) (hypertableEnabled : Hypertable -> bool) (vanillaEnabled : PgTable -> bool).

Definition on_catalog {D} (f : Catalog.systemCatalog -> Catalog.systemCatalog) : M D Catalog.systemCatalog unit := fun w =>
  Val tt (mkWorld (db w) (connections w) (f (client w))).

Definition INDEX : string := ReplicaIdentities.code ReplicaIdentities.INDEX.

(** The callback of [ReadHypertables]. *)
Definition load_hypertable (h : Hypertable) : M D Catalog.systemCatalog unit :=
  if String.eqb (BaseTable.replicaIdentity (Hyper.table h)) INDEX then
    fault (DbError ("REPLICATE IDENTITY USING INDEX isn't fully supported yet, hypertable '" ++ Hyper.canonicalName h ++ "'"))
  else if negb (hypertableEnabled h) then mret tt
  else
    access ← HasTablePrivilege username (Hyper.entity h) "SELECT";
    if negb (access : bool) then fault (DbError ("Hypertable " ++ Hyper.canonicalName h ++ " not accessible"))
    else on_catalog (Catalog.RegisterHypertable h).

Definition load_chunk (c : Chunk) : M D Catalog.systemCatalog unit := on_catalog (Catalog.RegisterChunk c).

Definition load_vanilla (t : PgTable) : M D Catalog.systemCatalog unit :=
  if String.eqb (BaseTable.replicaIdentity (Vanilla.table t)) INDEX then
    fault (DbError ("REPLICATE IDENTITY USING INDEX isn't fully supported yet, table '" ++ Vanilla.canonicalName t ++ "'"))
  else if negb (vanillaEnabled t) then mret tt
  else
    access ← HasTablePrivilege username (BaseTable.entity (Vanilla.table t)) "SELECT";
    if negb (access : bool) then fault (DbError ("Table " ++ Vanilla.canonicalName t ++ " not accessible"))
    else on_catalog (Catalog.RegisterVanillaTable t).

(** [ApplySchemaUpdate] in the map of its table; the column types are registered by
    [registerColumnType]. *)
Context (resolve : Z -> M D Catalog.systemCatalog PgType) (registerColumnType : Column -> option string).

Definition register_types (columns : list Column) : M D Catalog.systemCatalog unit :=
  each_row (fun c => match registerColumnType c with Some e => fault (DbError e) | None => mret tt end) (inr <$> columns).

Definition apply_hypertable_schema (h : Hypertable) (columns : list Column) : M D Catalog.systemCatalog unit :=
  on_catalog (fun sc => Catalog.mkCatalog (Catalog.vanillaTables sc)
    (<[ Hyper.id h := fst (Hyper.ApplyTableSchema h columns) ]> (Catalog.hypertables sc)) (Catalog.chunks sc)
    (Catalog.vanillaTableNameIndex sc) (Catalog.hypertableNameIndex sc) (Catalog.chunkNameIndex sc)
    (Catalog.chunk2Hypertable sc) (Catalog.hypertable2chunks sc) (Catalog.hypertable2compressed sc)
    (Catalog.compressed2hypertable sc)) ;;
  register_types columns.

Definition apply_vanilla_schema (t : PgTable) (columns : list Column) : M D Catalog.systemCatalog unit :=
  on_catalog (fun sc => Catalog.mkCatalog
    (<[ Vanilla.relId t := fst (Vanilla.ApplyTableSchema t columns) ]>
       (Catalog.vanillaTables sc)) (Catalog.hypertables sc) (Catalog.chunks sc)
    (Catalog.vanillaTableNameIndex sc) (Catalog.hypertableNameIndex sc) (Catalog.chunkNameIndex sc)
    (Catalog.chunk2Hypertable sc) (Catalog.hypertable2chunks sc) (Catalog.hypertable2compressed sc)
    (Catalog.compressed2hypertable sc)) ;;
  register_types columns.

Definition get_catalog : M D Catalog.systemCatalog Catalog.systemCatalog := fun w => Val (client w) w.

(** [lo.Values] visits the maps in some order. *)
Context (hypertable_order : gmap Z Hypertable -> list Hypertable) (vanilla_order : gmap Z PgTable -> list PgTable).

(** [taskManager.RegisterReplicationEventHandler] with the snapshotting handler; the
    task manager has its own state (TaskManager.v). *)
Context (registerSnapshotting : M D Catalog.systemCatalog unit).

Definition load_catalog : M D Catalog.systemCatalog unit :=
  ReadHypertables load_hypertable ;;
  ReadChunks load_chunk ;;
  ReadVanillaTables load_vanilla.

Definition initializeSystemCatalog : M D Catalog.systemCatalog unit :=
  load_catalog ;;
  sc ← get_catalog;
  ReadHypertableSchema resolve apply_hypertable_schema (hypertable_order (Catalog.hypertables sc)) ;;
  ReadVanillaTableSchema resolve apply_vanilla_schema (vanilla_order (Catalog.vanillaTables sc)) ;;
  registerSnapshotting.
End Initialize.

(** ** Properties *)

(** *** Reading rows *)

(** A function whose effect on the caller's state is [f]. *)
Definition acts {D C A} (fn : A -> M D C unit) (f : A -> C -> C) (l : list A) : Prop :=
  forall a w, a ∈ l -> exists d, fn a w = Val tt (mkWorld d (connections w) (f a (client w))).

Definition fold_rows {A C} (f : A -> C -> C) (l : list A) (c : C) : C := fold_left (fun c a => f a c) l c.

Lemma each_row_acts {D C A} (fn : A -> M D C unit) f l w :
  acts fn f l -> exists d, each_row fn (inr <$> l) w = Val tt (mkWorld d (connections w) (fold_rows f l (client w))).
Proof.
  revert w. induction l as [|a l IH]; intros w Hact.
  - exists (db w). by destruct w.
  - destruct (Hact a w) as [d1 Ha]; [apply list_elem_of_here|].
    destruct (IH (mkWorld d1 (connections w) (f a (client w)))) as [d2 Hl].
    { intros x y Hx. apply Hact. by apply list_elem_of_further. }
    exists d2. cbn [fmap list_fmap each_row]. rewrite (bind_val _ _ _ _ _ Ha). exact Hl.
Qed.

Section Load.
Context {R D : Type} `{Server R D}.

(** The database answers the query with these rows, and connections succeed. *)
Definition answers {A} (q : query R A) (l : list A) : Prop :=
  forall d, exists d', srv_query q d = (inr (mkAnswer (inr <$> l) None), d').
Definition connects : Prop := forall d, exists d', srv_connect d = (None, d').

Lemma session_rows {C A} (fn : A -> M D C unit) f (q : query R A) l w :
  connects -> answers q l -> acts fn f l ->
  exists d, newSession (queryFunc fn q) w = Val tt (mkWorld d (connections w) (fold_rows f l (client w))).
Proof.
  intros Hc Hq Hact. unfold newSession. destruct (Hc (db w)) as [d0 ->]. destruct (Hq d0) as [d1 Hq1].
  destruct (each_row_acts fn f l (mkWorld d1 (connections w + 1) (client w)) Hact) as [d2 Hrows].
  exists (srv_close d2). unfold queryFunc. erewrite bind_val by (unfold ask; cbn [db]; rewrite Hq1; reflexivity).
  cbn [rows rows_Err connections client]. rewrite (bind_val _ _ _ _ _ Hrows). cbn. do 2 f_equal. lia.
Qed.

Lemma privilege_granted {C} username entity grant (w : world D C) :
  connects -> answers (queryCheckUserTablePrivilege username (CanonicalName entity) grant) [true] ->
  exists d, HasTablePrivilege username entity grant w = Val true (mkWorld d (connections w) (client w)).
Proof.
  intros Hc Hq. unfold HasTablePrivilege, newSession. destruct (Hc (db w)) as [d0 ->]. destruct (Hq d0) as [d1 Hq1].
  exists (srv_close d1). unfold queryRow. erewrite bind_val by (unfold ask; cbn [db]; rewrite Hq1; reflexivity).
  cbn. do 2 f_equal. lia.
Qed.
End Load.

(** *** What is registered *)

Definition when {A} (enabled : A -> bool) (f : A -> Catalog.systemCatalog -> Catalog.systemCatalog) (a : A)
    (sc : Catalog.systemCatalog) : Catalog.systemCatalog := if enabled a then f a sc else sc.

Section Loaded.
Context {R D : Type} `{Server R D}.
Context (username : string) (hypertableEnabled : Hypertable -> bool) (vanillaEnabled : PgTable -> bool).

(** A database whose tables can all be loaded. *)
Record loadable (hs : list hypertable_row) (cs : list chunk_row) (ts : list (Z * string * string * string)) : Prop := {
  ld_connects : connects;
  ld_hypertables : answers queryReadHypertables hs;
  ld_chunks : answers queryReadChunks cs;
  ld_vanilla : answers queryReadVanillaTables ts;
  ld_identity : Forall (fun r => hr_replicaIdentity r <> INDEX) hs;
  ld_vanilla_identity : Forall (fun r => BaseTable.replicaIdentity (Vanilla.table (vanilla_of r)) <> INDEX) ts;
  ld_access : Forall (fun r => hypertableEnabled (hypertable_of r) = true ->
    answers (queryCheckUserTablePrivilege username (Hyper.canonicalName (hypertable_of r)) "SELECT") [true]) hs;
  ld_vanilla_access : Forall (fun r => vanillaEnabled (vanilla_of r) = true ->
    answers (queryCheckUserTablePrivilege username (Vanilla.canonicalName (vanilla_of r)) "SELECT") [true]) ts;
}.

(** The catalog after the load. *)
Definition loaded (hs : list hypertable_row) (cs : list chunk_row) (ts : list (Z * string * string * string))
    (sc : Catalog.systemCatalog) : Catalog.systemCatalog :=
  fold_rows (when vanillaEnabled Catalog.RegisterVanillaTable) (vanilla_of <$> ts)
    (fold_rows Catalog.RegisterChunk (chunk_of <$> cs)
      (fold_rows (when hypertableEnabled Catalog.RegisterHypertable) (hypertable_of <$> hs) sc)).

Lemma fold_rows_fmap {A B C} (g : A -> B) (f : B -> C -> C) l c : fold_rows f (g <$> l) c = fold_rows (fun a => f (g a)) l c.
Proof. unfold fold_rows. revert c. induction l as [|a l IH]; intros c; [done|]. cbn. apply IH. Qed.

Lemma load_runs hs cs ts w :
  loadable hs cs ts ->
  exists d, load_catalog username hypertableEnabled vanillaEnabled w
    = Val tt (mkWorld d (connections w) (loaded hs cs ts (client w))).
Proof.
  intros [Hc Hhs Hcs Hts Hid Hvid Hacc Hvacc]. unfold load_catalog, ReadHypertables, ReadChunks, ReadVanillaTables.
  rewrite Forall_forall in Hid. rewrite Forall_forall in Hvid. rewrite Forall_forall in Hacc. rewrite Forall_forall in Hvacc.
  destruct (session_rows (fun r => load_hypertable username hypertableEnabled (hypertable_of r))
    (fun r => when hypertableEnabled Catalog.RegisterHypertable (hypertable_of r)) queryReadHypertables hs w Hc Hhs) as [d1 H1].
  { intros r x Hr. unfold load_hypertable, when. destruct (String.eqb_spec (BaseTable.replicaIdentity (Hyper.table (hypertable_of r))) INDEX)
      as [Hi|_]; [by destruct (Hid r Hr)|].
    destruct (hypertableEnabled (hypertable_of r)) eqn:He; cbn [negb]; [|exists (db x); by destruct x].
    destruct (privilege_granted username (Hyper.entity (hypertable_of r)) "SELECT" x Hc (Hacc r Hr He)) as [d Hp].
    exists d. rewrite (bind_val _ _ _ _ _ Hp). done. }
  erewrite bind_val by exact H1.
  destruct (session_rows (fun r => load_chunk (chunk_of r)) (fun r => Catalog.RegisterChunk (chunk_of r)) queryReadChunks cs
    (mkWorld d1 (connections w) (fold_rows (fun r => when hypertableEnabled Catalog.RegisterHypertable (hypertable_of r)) hs (client w)))
    Hc Hcs) as [d2 H2].
  { intros r x _. by exists (db x). }
  erewrite bind_val by exact H2. cbn [connections client].
  destruct (session_rows (fun r => load_vanilla username vanillaEnabled (vanilla_of r))
    (fun r => when vanillaEnabled Catalog.RegisterVanillaTable (vanilla_of r)) queryReadVanillaTables ts
    (mkWorld d2 (connections w) (fold_rows (fun r => Catalog.RegisterChunk (chunk_of r)) cs
      (fold_rows (fun r => when hypertableEnabled Catalog.RegisterHypertable (hypertable_of r)) hs (client w)))) Hc Hts) as [d3 H3].
  { intros r x Hr. unfold load_vanilla, when.
    destruct (String.eqb_spec (BaseTable.replicaIdentity (Vanilla.table (vanilla_of r))) INDEX) as [Hi|_]; [by destruct (Hvid r Hr)|].
    destruct (vanillaEnabled (vanilla_of r)) eqn:He; cbn [negb]; [|exists (db x); by destruct x].
    destruct (privilege_granted username (BaseTable.entity (Vanilla.table (vanilla_of r))) "SELECT" x Hc (Hvacc r Hr He)) as [d Hp].
    exists d. rewrite (bind_val _ _ _ _ _ Hp). done. }
  exists d3. unfold loaded. rewrite !fold_rows_fmap. exact H3.
Qed.

(** *** What the catalog holds *)

Lemma fold_insert {A} (k : A -> Z) (en : A -> bool) l (m : gmap Z A) i a :
  NoDup (k <$> l) -> (forall b, b ∈ l -> m !! k b = None) ->
  (fold_left (fun m a => if en a then <[ k a := a ]> m else m) l m !! i = Some a <->
   m !! i = Some a \/ (a ∈ l /\ en a = true /\ i = k a)).
Proof.
  revert m. induction l as [|b l IH]; intros m Hnd Hm; cbn [fold_left].
  - split; [by left|]. intros [?|[?%not_elem_of_nil _]]; done.
  - cbn in Hnd. apply NoDup_cons in Hnd as [Hb Hnd].
    assert (Hbl : forall c, c ∈ l -> k c <> k b).
    { intros c Hc Heq. apply Hb. rewrite <- Heq. by apply list_elem_of_fmap_2. }
    rewrite IH; [|done|].
    + destruct (en b) eqn:Hen.
      * destruct (decide (i = k b)) as [->|Hne].
        -- rewrite lookup_insert_eq. rewrite elem_of_cons. split.
           ++ intros [[= <-]|(Ha & He & Hk)]; right; [by auto|]. by auto.
           ++ intros [Hsome|([->|Ha] & He & Hk)]; [|by left|by right].
              rewrite (Hm b) in Hsome by apply list_elem_of_here. done.
        -- rewrite lookup_insert_ne by done. rewrite elem_of_cons. naive_solver.
      * rewrite elem_of_cons. split; [naive_solver|]. intros [?|([->|Ha] & He & Hk)]; [by left|congruence|by right].
    + intros c Hc. destruct (en b); [|by apply Hm, list_elem_of_further].
      rewrite lookup_insert_ne; [by apply Hm, list_elem_of_further|]. intros Heq. by apply (Hbl c Hc).
Qed.

Lemma hypertables_loaded en l sc :
  Catalog.hypertables (fold_rows (when en Catalog.RegisterHypertable) l sc)
  = fold_left (fun m h => if en h then <[ Hyper.id h := h ]> m else m) l (Catalog.hypertables sc) /\
  Catalog.chunks (fold_rows (when en Catalog.RegisterHypertable) l sc) = Catalog.chunks sc /\
  Catalog.vanillaTables (fold_rows (when en Catalog.RegisterHypertable) l sc) = Catalog.vanillaTables sc.
Proof.
  revert sc. induction l as [|h l IH]; intros sc; [done|]. cbn [fold_rows fold_left]. unfold fold_rows in IH.
  destruct (IH (when en Catalog.RegisterHypertable h sc)) as (-> & -> & ->). unfold when. by destruct (en h).
Qed.

Lemma vanilla_loaded en l sc :
  Catalog.vanillaTables (fold_rows (when en Catalog.RegisterVanillaTable) l sc)
  = fold_left (fun m t => if en t then <[ Vanilla.relId t := t ]> m else m) l (Catalog.vanillaTables sc) /\
  Catalog.chunks (fold_rows (when en Catalog.RegisterVanillaTable) l sc) = Catalog.chunks sc /\
  Catalog.hypertables (fold_rows (when en Catalog.RegisterVanillaTable) l sc) = Catalog.hypertables sc.
Proof.
  revert sc. induction l as [|t l IH]; intros sc; [done|]. cbn [fold_rows fold_left]. unfold fold_rows in IH.
  destruct (IH (when en Catalog.RegisterVanillaTable t sc)) as (-> & -> & ->). unfold when. by destruct (en t).
Qed.

Definition has_hypertable (hs : gmap Z Hypertable) (c : Chunk) : bool :=
  match hs !! Chnk.hypertableId c with Some _ => true | None => false end.

Lemma chunks_loaded l sc :
  Catalog.chunks (fold_rows Catalog.RegisterChunk l sc)
  = fold_left (fun m c => if has_hypertable (Catalog.hypertables sc) c then <[ Chnk.id c := c ]> m else m) l (Catalog.chunks sc) /\
  Catalog.hypertables (fold_rows Catalog.RegisterChunk l sc) = Catalog.hypertables sc /\
  Catalog.vanillaTables (fold_rows Catalog.RegisterChunk l sc) = Catalog.vanillaTables sc.
Proof.
  revert sc. induction l as [|c l IH]; intros sc; [done|]. cbn [fold_rows fold_left]. unfold fold_rows in IH.
  destruct (IH (Catalog.RegisterChunk c sc)) as (-> & -> & ->).
  unfold Catalog.RegisterChunk, Catalog.FindHypertableById, has_hypertable.
  by destruct (Catalog.hypertables sc !! Chnk.hypertableId c).
Qed.

(** The catalog after the first three reads. *)
Lemma catalog_loaded hs cs ts d n :
  loadable hs cs ts ->
  NoDup (Hyper.id <$> (hypertable_of <$> hs)) -> NoDup (Chnk.id <$> (chunk_of <$> cs)) ->
  NoDup (Vanilla.relId <$> (vanilla_of <$> ts)) ->
  exists d' sc, load_catalog username hypertableEnabled vanillaEnabled (mkWorld d n Catalog.NewSystemCatalog)
      = Val tt (mkWorld d' n sc) /\
    (forall i h, Catalog.FindHypertableById i sc = Some h <->
       h ∈ hypertable_of <$> hs /\ hypertableEnabled h = true /\ i = Hyper.id h) /\
    (forall i c, Catalog.FindChunkById i sc = Some c <->
       c ∈ chunk_of <$> cs /\ (exists h, h ∈ hypertable_of <$> hs /\ hypertableEnabled h = true /\ Hyper.id h = Chnk.hypertableId c) /\
       i = Chnk.id c) /\
    (forall i t, Catalog.FindVanillaTableById i sc = Some t <->
       t ∈ vanilla_of <$> ts /\ vanillaEnabled t = true /\ i = Vanilla.relId t).
Proof.
  intros Hl Hh Hc Ht. destruct (load_runs hs cs ts (mkWorld d n Catalog.NewSystemCatalog) Hl) as [d' Hrun].
  exists d', (loaded hs cs ts Catalog.NewSystemCatalog). split; [exact Hrun|]. unfold loaded.
  set (sc1 := fold_rows (when hypertableEnabled Catalog.RegisterHypertable) (hypertable_of <$> hs) Catalog.NewSystemCatalog).
  destruct (hypertables_loaded hypertableEnabled (hypertable_of <$> hs) Catalog.NewSystemCatalog) as (H1 & H2 & H3). fold sc1 in H1, H2, H3.
  change (Catalog.hypertables Catalog.NewSystemCatalog) with (∅ : gmap Z Hypertable) in H1.
  change (Catalog.chunks Catalog.NewSystemCatalog) with (∅ : gmap Z Chunk) in H2.
  change (Catalog.vanillaTables Catalog.NewSystemCatalog) with (∅ : gmap Z PgTable) in H3.
  destruct (chunks_loaded (chunk_of <$> cs) sc1) as (H4 & H5 & H6). set (sc2 := fold_rows Catalog.RegisterChunk _ sc1) in *.
  destruct (vanilla_loaded vanillaEnabled (vanilla_of <$> ts) sc2) as (H7 & H8 & H9).
  unfold Catalog.FindHypertableById, Catalog.FindChunkById, Catalog.FindVanillaTableById. rewrite H7, H8, H9.
  assert (Hhyper : forall i h, Catalog.hypertables sc1 !! i = Some h <->
    h ∈ hypertable_of <$> hs /\ hypertableEnabled h = true /\ i = Hyper.id h).
  { intros i h. rewrite H1, fold_insert by (done || (intros; apply lookup_empty)). rewrite lookup_empty. naive_solver. }
  split; [by rewrite H5|]. split.
  - intros i c. rewrite H4, H2, fold_insert by (done || (intros; apply lookup_empty)). rewrite lookup_empty.
    assert (Hhas : has_hypertable (Catalog.hypertables sc1) c = true <->
      exists h, h ∈ hypertable_of <$> hs /\ hypertableEnabled h = true /\ Hyper.id h = Chnk.hypertableId c).
    { unfold has_hypertable. destruct (Catalog.hypertables sc1 !! Chnk.hypertableId c) as [h|] eqn:E.
      - apply Hhyper in E as (Hin & He & Hi). split; [|done]. intros _. by exists h.
      - split; [done|]. intros (h & Hin & He & Hi).
        assert (Hx : Catalog.hypertables sc1 !! Chnk.hypertableId c = Some h) by (apply Hhyper; auto). congruence. }
    rewrite Hhas. naive_solver.
  - intros i t. rewrite H6, H3, fold_insert by (done || (intros; apply lookup_empty)). rewrite lookup_empty. naive_solver.
Qed.

(** A hypertable with an index as its replica identity stops the start, even if the
    filter excludes it. *)
Lemma excluded_index_stops r w :
  hr_replicaIdentity r = INDEX -> exists e, load_hypertable username hypertableEnabled (hypertable_of r) w = Fault e w.
Proof.
  intros Hi. unfold load_hypertable.
  change (BaseTable.replicaIdentity (Hyper.table (hypertable_of r))) with (hr_replicaIdentity r).
  rewrite (proj2 (String.eqb_eq _ _) Hi). by eexists.
Qed.
End Loaded.

(** *** The columns *)

Section Schemas.
Context {R D : Type} `{Server R D}.

Lemma session_each {C A} (fn : A -> M D C unit) f l w :
  connects -> acts fn f l ->
  exists d, newSession (each_row fn (inr <$> l)) w = Val tt (mkWorld d (connections w) (fold_rows f l (client w))).
Proof.
  intros Hc Hact. unfold newSession. destruct (Hc (db w)) as [d0 ->].
  destruct (each_row_acts fn f l (mkWorld d0 (connections w + 1) (client w)) Hact) as [d1 ->].
  exists (srv_close d1). cbn. do 2 f_equal. lia.
Qed.

Lemma query_acts {C A} (fn : A -> M D C unit) f (q : query R A) l w :
  answers q l -> acts fn f l ->
  exists d, queryFunc fn q w = Val tt (mkWorld d (connections w) (fold_rows f l (client w))).
Proof.
  intros Hq Hact. destruct (Hq (db w)) as [d1 Hq1].
  destruct (each_row_acts fn f l (mkWorld d1 (connections w) (client w)) Hact) as [d2 Hrows].
  exists d2. unfold queryFunc. erewrite bind_val by (unfold ask; rewrite Hq1; reflexivity).
  cbn [rows rows_Err]. rewrite (bind_val _ _ _ _ _ Hrows). done.
Qed.

(** Types are resolved and registered without an error. *)
Context (typ : Z -> PgType) (resolve : Z -> M D Catalog.systemCatalog PgType).
Definition resolves : Prop :=
  forall oid w, exists d, resolve oid w = Val (typ oid) (mkWorld d (connections w) (client w)).

Lemma collect_acts {A} (row : A -> column_row) (dim : A -> dimension_row) l :
  resolves ->
  acts (fun r => collect_column resolve (row r) (dim r))
    (fun r cl => (fst cl ++ [column_of (row r) (dim r) (typ (lr_oid (row r)))], snd cl)%list) l.
Proof.
  intros Hres r w _. destruct (Hres (lr_oid (row r)) (mkWorld (db w) (connections w) (snd (client w)))) as [d Hr].
  exists d. unfold collect_column. erewrite bind_val; [|unfold outer; rewrite Hr; reflexivity]. done.
Qed.

Lemma fold_collect {A B C} (g : A -> B) l (cl : list B * C) :
  fold_rows (fun r cl => (fst cl ++ [g r], snd cl)%list) l cl = ((fst cl ++ (g <$> l))%list, snd cl).
Proof.
  unfold fold_rows. revert cl. induction l as [|a l IH]; intros [x c]; cbn; [by rewrite app_nil_r|].
  rewrite IH. cbn. by rewrite <- app_assoc.
Qed.

Definition columns_of {A} (row : A -> column_row) (dim : A -> dimension_row) (l : list A) : list Column :=
  (fun r => column_of (row r) (dim r) (typ (lr_oid (row r)))) <$> l.

Lemma collected {A} (row : A -> column_row) (dim : A -> dimension_row) (q : query R A) l w :
  resolves -> answers q l ->
  exists d, local [] (queryFunc (fun r => collect_column resolve (row r) (dim r)) q) w
    = Val (tt, columns_of row dim l) (mkWorld d (connections w) (client w)).
Proof.
  intros Hres Hq.
  destruct (query_acts _ _ q l (mkWorld (db w) (connections w) ([], client w)) Hq (collect_acts row dim l Hres)) as [d Hd].
  exists d. unfold local. rewrite Hd. cbn. by rewrite fold_collect.
Qed.

Context (registerColumnType : Column -> option string).
Definition registers : Prop := forall c, registerColumnType c = None.

Lemma register_types_done l (w : world D Catalog.systemCatalog) :
  registers -> register_types registerColumnType l w = Val tt w.
Proof.
  intros Hr. unfold register_types. induction l as [|c l IH]; [done|].
  cbn [fmap list_fmap each_row]. rewrite Hr. erewrite bind_val by done. exact IH.
Qed.

(** A hypertable with the columns of the database. *)
Definition with_columns (hcols : Hypertable -> list (column_row * dimension_row)) (h : Hypertable) : Hypertable :=
  if has_schema h then fst (Hyper.ApplyTableSchema h (columns_of fst snd (hcols h))) else h.

Definition set_hypertable (h : Hypertable) (sc : Catalog.systemCatalog) : Catalog.systemCatalog :=
  Catalog.mkCatalog (Catalog.vanillaTables sc) (<[ Hyper.id h := h ]> (Catalog.hypertables sc)) (Catalog.chunks sc)
    (Catalog.vanillaTableNameIndex sc) (Catalog.hypertableNameIndex sc) (Catalog.chunkNameIndex sc)
    (Catalog.chunk2Hypertable sc) (Catalog.hypertable2chunks sc) (Catalog.hypertable2compressed sc)
    (Catalog.compressed2hypertable sc).

Definition set_vanilla (t : PgTable) (sc : Catalog.systemCatalog) : Catalog.systemCatalog :=
  Catalog.mkCatalog (<[ Vanilla.relId t := t ]> (Catalog.vanillaTables sc)) (Catalog.hypertables sc) (Catalog.chunks sc)
    (Catalog.vanillaTableNameIndex sc) (Catalog.hypertableNameIndex sc) (Catalog.chunkNameIndex sc)
    (Catalog.chunk2Hypertable sc) (Catalog.hypertable2chunks sc) (Catalog.hypertable2compressed sc)
    (Catalog.compressed2hypertable sc).

Lemma apply_id h cols : Hyper.id (fst (Hyper.ApplyTableSchema h cols)) = Hyper.id h.
Proof. unfold Hyper.ApplyTableSchema. by destruct (BaseTable.ApplyTableSchema _ _). Qed.
Lemma apply_relId t cols : Vanilla.relId (fst (Vanilla.ApplyTableSchema t cols)) = Vanilla.relId t.
Proof. unfold Vanilla.ApplyTableSchema. by destruct (BaseTable.ApplyTableSchema _ _). Qed.

Lemma hypertable_schemas_act hcols l :
  resolves -> registers ->
  (forall h, h ∈ l -> has_schema h = true ->
     answers (queryReadHypertableSchema (Hyper.schemaName h) (Hyper.tableName h)) (hcols h)) ->
  acts (fun h => if has_schema h then readHypertableSchema0 resolve (apply_hypertable_schema registerColumnType) h else mret tt)
    (fun h sc => if has_schema h then set_hypertable (with_columns hcols h) sc else sc) l.
Proof.
  intros Hres Hreg Hans h w Hin. unfold with_columns. destruct (has_schema h) eqn:Hs; [|exists (db w); by destruct w].
  destruct (collected fst snd _ (hcols h) w Hres (Hans h Hin Hs)) as [d Hd].
  exists d. unfold readHypertableSchema0. erewrite bind_val by exact Hd. cbn [snd]. unfold apply_hypertable_schema.
  erewrite bind_val by done. rewrite register_types_done by done. unfold set_hypertable. by rewrite apply_id.
Qed.

Lemma vanilla_schemas_act tcols l :
  resolves -> registers ->
  (forall t, t ∈ l ->
     answers (queryReadVanillaTableSchema (SchemaName (BaseTable.entity (Vanilla.table t)))
                (TableName (BaseTable.entity (Vanilla.table t)))) (tcols t)) ->
  acts (readVanillaTableSchema0 resolve (apply_vanilla_schema registerColumnType))
    (fun t => set_vanilla (fst (Vanilla.ApplyTableSchema t
       (columns_of (fun r => r) (fun _ => mkDimensionRow false false None None) (tcols t))))) l.
Proof.
  intros Hres Hreg Hans t w Hin.
  destruct (collected (fun r => r) (fun _ => mkDimensionRow false false None None) _ (tcols t) w Hres (Hans t Hin)) as [d Hd].
  exists d. unfold readVanillaTableSchema0. erewrite bind_val by exact Hd. cbn [snd]. unfold apply_vanilla_schema.
  erewrite bind_val by done. rewrite register_types_done by done. unfold set_vanilla. by rewrite apply_relId.
Qed.

(** *** The catalog after the start *)

Lemma fold_updates {A} (k : A -> Z) (changes : A -> bool) (g : A -> A) l (m : gmap Z A) i :
  NoDup (k <$> l) -> (forall a, k (g a) = k a) -> (forall a, changes a = false -> g a = a) ->
  (forall a, a ∈ l -> m !! k a = Some a) ->
  fold_left (fun m a => if changes a then <[ k (g a) := g a ]> m else m) l m !! i
    = if decide (i ∈ k <$> l) then g <$> m !! i else m !! i.
Proof.
  intros Hnd Hk Hch. revert m Hnd. induction l as [|a l IH]; intros m Hnd Hm; cbn [fold_left].
  - by rewrite decide_False by apply not_elem_of_nil.
  - rewrite fmap_cons in *. apply NoDup_cons in Hnd as [Ha Hnd].
    set (m1 := if changes a then <[ k (g a) := g a ]> m else m).
    assert (Hm1 : forall j, m1 !! j = if decide (j = k a) then Some (g a) else m !! j).
    { intros j. unfold m1. destruct (changes a) eqn:E; rewrite ?Hk.
      - destruct (decide (j = k a)) as [->|]; [by rewrite lookup_insert_eq|by rewrite lookup_insert_ne].
      - rewrite (Hch a E). destruct (decide (j = k a)) as [->|]; [|done]. apply Hm, list_elem_of_here. }
    rewrite IH; [|done|].
    + rewrite Hm1. destruct (decide (i = k a)) as [->|Hne].
      * rewrite decide_False by done. rewrite decide_True by apply list_elem_of_here.
        by rewrite (Hm a) by apply list_elem_of_here.
      * destruct (decide (i ∈ k <$> l)) as [Hi|Hi].
        -- by rewrite decide_True by (by apply list_elem_of_further).
        -- rewrite decide_False; [done|]. by intros [?|?]%elem_of_cons.
    + intros b Hb. rewrite Hm1, decide_False; [by apply Hm, list_elem_of_further|].
      intros E. apply Ha. rewrite <- E. by apply list_elem_of_fmap_2.
Qed.

(** When every value of the map is visited, all of them are replaced. *)
Lemma fold_updates_all {A} (k : A -> Z) (changes : A -> bool) (g : A -> A) (order : list A) (m : gmap Z A) i :
  order ≡ₚ (map_to_list m).*2 -> (forall j a, m !! j = Some a -> k a = j) ->
  (forall a, k (g a) = k a) -> (forall a, changes a = false -> g a = a) ->
  fold_left (fun m a => if changes a then <[ k (g a) := g a ]> m else m) order m !! i = g <$> m !! i.
Proof.
  intros Hord Hkeys Hk Hch.
  assert (Hkeys' : k <$> order ≡ₚ (map_to_list m).*1).
  { rewrite Hord, <- list_fmap_compose. apply reflexive_eq, list_fmap_ext. intros n [j a] Hn. cbn.
    apply Hkeys, elem_of_map_to_list, list_elem_of_lookup. by exists n. }
  assert (Hin : forall a, a ∈ order -> m !! k a = Some a).
  { intros a Ha. rewrite Hord in Ha. apply list_elem_of_fmap in Ha as ([j b] & -> & Hb).
    apply elem_of_map_to_list in Hb. cbn. by rewrite (Hkeys _ _ Hb). }
  rewrite fold_updates; [|rewrite Hkeys'; apply NoDup_fst_map_to_list|done|done|done].
  destruct (decide (i ∈ k <$> order)) as [_|Hni]; [done|].
  destruct (m !! i) as [a|] eqn:E; [|done]. destruct Hni. rewrite Hkeys'.
  change i with ((i, a).1). apply list_elem_of_fmap_2. by apply elem_of_map_to_list.
Qed.

Lemma set_hypertables_maps (changes : Hypertable -> bool) g l sc :
  let sc' := fold_rows (fun h sc => if changes h then set_hypertable (g h) sc else sc) l sc in
  Catalog.hypertables sc' = fold_left (fun m h => if changes h then <[ Hyper.id (g h) := g h ]> m else m) l (Catalog.hypertables sc) /\
  Catalog.chunks sc' = Catalog.chunks sc /\ Catalog.vanillaTables sc' = Catalog.vanillaTables sc.
Proof.
  cbv zeta. revert sc. induction l as [|h l IH]; intros sc; [done|]. unfold fold_rows in *. cbn [fold_left].
  destruct (IH (if changes h then set_hypertable (g h) sc else sc)) as (-> & -> & ->). by destruct (changes h).
Qed.

Lemma set_vanillas_maps (g : PgTable -> PgTable) l sc :
  let sc' := fold_rows (fun t => set_vanilla (g t)) l sc in
  Catalog.vanillaTables sc' = fold_left (fun m t => if true then <[ Vanilla.relId (g t) := g t ]> m else m) l (Catalog.vanillaTables sc) /\
  Catalog.chunks sc' = Catalog.chunks sc /\ Catalog.hypertables sc' = Catalog.hypertables sc.
Proof.
  cbv zeta. revert sc. induction l as [|t l IH]; intros sc; [done|]. unfold fold_rows in *. cbn [fold_left].
  by destruct (IH (set_vanilla (g t) sc)) as (-> & -> & ->).
Qed.

Definition vanilla_with_columns (tcols : PgTable -> list column_row) (t : PgTable) : PgTable :=
  fst (Vanilla.ApplyTableSchema t (columns_of (fun r => r) (fun _ => mkDimensionRow false false None None) (tcols t))).

Context (username : string) (hypertableEnabled : Hypertable -> bool) (vanillaEnabled : PgTable -> bool).
Context (hypertable_order : gmap Z Hypertable -> list Hypertable) (vanilla_order : gmap Z PgTable -> list PgTable).
Context (registerSnapshotting : M D Catalog.systemCatalog unit).

(** What the start asks of the database and of the other components: the tables can be
    loaded, types resolve, the columns of the selected tables can be read, and the maps
    are visited completely. *)
Record startable hs cs ts (hcols : Hypertable -> list (column_row * dimension_row)) (tcols : PgTable -> list column_row) : Prop := {
  sb_loadable : loadable username hypertableEnabled vanillaEnabled hs cs ts;
  sb_resolves : resolves;
  sb_registers : registers;
  sb_hypertable_schemas : forall h, h ∈ hypertable_of <$> hs -> hypertableEnabled h = true -> has_schema h = true ->
    answers (queryReadHypertableSchema (Hyper.schemaName h) (Hyper.tableName h)) (hcols h);
  sb_vanilla_schemas : forall t, t ∈ vanilla_of <$> ts -> vanillaEnabled t = true ->
    answers (queryReadVanillaTableSchema (SchemaName (BaseTable.entity (Vanilla.table t)))
               (TableName (BaseTable.entity (Vanilla.table t)))) (tcols t);
  sb_hypertable_order : forall m, hypertable_order m ≡ₚ (map_to_list m).*2;
  sb_vanilla_order : forall m, vanilla_order m ≡ₚ (map_to_list m).*2;
  sb_registered : forall w, exists d, registerSnapshotting w = Val tt (mkWorld d (connections w) (client w));
}.

(** C28. After the start the catalog holds exactly what it should: the hypertables
    and the plain tables that the filters select, with the columns that the database has
    for them (the columns of internal hypertables are not read), and the chunks of the
    selected hypertables, each under its id.  All connections are closed. *)
Theorem initial_catalog_exact hs cs ts hcols tcols d n :
  startable hs cs ts hcols tcols ->
  NoDup (Hyper.id <$> (hypertable_of <$> hs)) -> NoDup (Chnk.id <$> (chunk_of <$> cs)) ->
  NoDup (Vanilla.relId <$> (vanilla_of <$> ts)) ->
  exists d' sc, initializeSystemCatalog username hypertableEnabled vanillaEnabled resolve registerColumnType
      hypertable_order vanilla_order registerSnapshotting (mkWorld d n Catalog.NewSystemCatalog) = Val tt (mkWorld d' n sc) /\
    (forall i h', Catalog.FindHypertableById i sc = Some h' <->
       exists h, h ∈ hypertable_of <$> hs /\ hypertableEnabled h = true /\ i = Hyper.id h /\ h' = with_columns hcols h) /\
    (forall i c, Catalog.FindChunkById i sc = Some c <->
       c ∈ chunk_of <$> cs /\ (exists h, h ∈ hypertable_of <$> hs /\ hypertableEnabled h = true /\ Hyper.id h = Chnk.hypertableId c) /\
       i = Chnk.id c) /\
    (forall i t', Catalog.FindVanillaTableById i sc = Some t' <->
       exists t, t ∈ vanilla_of <$> ts /\ vanillaEnabled t = true /\ i = Vanilla.relId t /\ t' = vanilla_with_columns tcols t).
Proof.
  intros [Hload Hres Hreg Hhs Hts Hho Hvo Hsnap] Hh Hc Ht.
  destruct (catalog_loaded username hypertableEnabled vanillaEnabled hs cs ts d n Hload Hh Hc Ht)
    as (d1 & sc1 & Hrun & Hhyper & Hchunk & Hvan).
  unfold initializeSystemCatalog. erewrite bind_val by exact Hrun. erewrite bind_val by done. cbn [client].
  set (ho := hypertable_order (Catalog.hypertables sc1)). set (vo := vanilla_order (Catalog.vanillaTables sc1)).
  assert (Hinh : forall h, h ∈ ho -> exists i, Catalog.hypertables sc1 !! i = Some h).
  { intros h Hin. unfold ho in Hin. rewrite Hho in Hin. apply list_elem_of_fmap in Hin as ([i x] & -> & Hx).
    exists i. by apply elem_of_map_to_list. }
  assert (Hinv : forall t, t ∈ vo -> exists i, Catalog.vanillaTables sc1 !! i = Some t).
  { intros t Hin. unfold vo in Hin. rewrite Hvo in Hin. apply list_elem_of_fmap in Hin as ([i x] & -> & Hx).
    exists i. by apply elem_of_map_to_list. }
  destruct (session_each _ _ ho (mkWorld d1 n sc1) (ld_connects _ _ _ _ _ _ Hload)
    (hypertable_schemas_act hcols ho Hres Hreg
      ltac:(intros h Hin; destruct (Hinh h Hin) as [i Hi]; apply Hhyper in Hi as (? & ? & ?); by apply Hhs))) as [d2 H2].
  erewrite bind_val by exact H2. cbn [connections client].
  set (sc2 := fold_rows _ ho sc1).
  destruct (session_each _ _ vo (mkWorld d2 n sc2) (ld_connects _ _ _ _ _ _ Hload)
    (vanilla_schemas_act tcols vo Hres Hreg
      ltac:(intros t Hin; destruct (Hinv t Hin) as [i Hi]; apply Hvan in Hi as (? & ? & ?); by apply Hts))) as [d3 H3].
  erewrite bind_val by exact H3. cbn [connections client].
  set (sc3 := fold_rows _ vo sc2).
  destruct (Hsnap (mkWorld d3 n sc3)) as [d4 H4]. exists d4, sc3. split; [exact H4|].
  destruct (set_hypertables_maps has_schema (with_columns hcols) ho sc1) as (M1 & M2 & M3).
  destruct (set_vanillas_maps (vanilla_with_columns tcols) vo sc2) as (M4 & M5 & M6).
  fold sc2 in M1, M2, M3. change (fold_rows _ vo sc2) with sc3 in M4, M5, M6.
  unfold Catalog.FindHypertableById, Catalog.FindChunkById, Catalog.FindVanillaTableById.
  rewrite M6, M1, M5, M2, M4, M3. split; [|split].
  - intros i h'. rewrite fold_updates_all; [|apply Hho| | |].
    + rewrite fmap_Some. setoid_rewrite Hhyper. naive_solver.
    + intros j h Hj. by apply Hhyper in Hj as (_ & _ & ->).
    + intros h. unfold with_columns. destruct (has_schema h); [apply apply_id|done].
    + intros h Hs. unfold with_columns. by rewrite Hs.
  - exact Hchunk.
  - intros i t'. rewrite (fold_updates_all Vanilla.relId (fun _ => true)); [|apply Hvo| |intros t; apply apply_relId|done].
    + rewrite fmap_Some. setoid_rewrite Hvan. naive_solver.
    + intros j t Hj. by apply Hvan in Hj as (_ & _ & ->).
Qed.
End Schemas.

(** *** A concrete start *)

Definition metrics_row : hypertable_row := mkHypertableRow 1 "public" "metrics" "_timescaledb_internal" "_hyper_1" 0 None None None "d".
Definition logs_row : hypertable_row := mkHypertableRow 2 "public" "logs" "_timescaledb_internal" "_hyper_2" 0 None None None "d".
Definition chunk_rows : list chunk_row :=
  [mkChunkRow 10 1 "_timescaledb_internal" "_hyper_1_10_chunk" None false 0;
   mkChunkRow 11 2 "_timescaledb_internal" "_hyper_2_11_chunk" None false 0].
Definition ts_row : column_row := mkColumnRow "ts" 1184 (-1) false false None None false None "ASC" "NULLS LAST" None.
Definition ts_dimension : dimension_row := mkDimensionRow true true (Some "timestamptz"%string) (Some 1).
Definition some_type (oid : Z) : PgType := mkPgType "pg_catalog" "timestamptz" "b" oid "D" false false 1185 0 0 (-1) [] "," "string".
Definition is_metrics (h : Hypertable) : bool := String.eqb (Hyper.tableName h) "metrics".

Definition catalog_server : Server unit unit := {|
  srv_connect d := (None, d);
  srv_close d := d;
  srv_exec _ d := (None, d);
  srv_query A q d :=
    match q in query _ A return (dberror + answer A) * unit with
    | queryReadHypertables => (inr (mkAnswer [inr metrics_row; inr logs_row] None), d)
    | queryReadChunks => (inr (mkAnswer (inr <$> chunk_rows) None), d)
    | queryReadVanillaTables => (inr (mkAnswer [inr (30, "public", "users", "d")%string] None), d)
    | queryReadHypertableSchema _ _ => (inr (mkAnswer [inr (ts_row, ts_dimension)] None), d)
    | queryReadVanillaTableSchema _ _ => (inr (mkAnswer [inr ts_row] None), d)
    | queryCheckUserTablePrivilege _ _ _ => (inr (mkAnswer [inr true] None), d)
    | _ => (inl ErrNoRows, d)
    end;
|}.

Lemma initial_catalog_exact_witness :
  exists d' sc, @initializeSystemCatalog unit unit catalog_server "repl" is_metrics (fun _ => true)
      (fun oid => mret (some_type oid)) (fun _ => None) (fun m => (map_to_list m).*2) (fun m => (map_to_list m).*2) (mret tt)
      (mkWorld tt 0 Catalog.NewSystemCatalog) = Val tt (mkWorld d' 0 sc) /\
    Catalog.FindChunkById 10 sc = Some (chunk_of (mkChunkRow 10 1 "_timescaledb_internal" "_hyper_1_10_chunk" None false 0)).
Proof.
  destruct (@initial_catalog_exact unit unit catalog_server some_type (fun oid => mret (some_type oid)) (fun _ => None)
    "repl" is_metrics (fun _ => true) (fun m => (map_to_list m).*2) (fun m => (map_to_list m).*2) (mret tt)
    [metrics_row; logs_row] chunk_rows [(30, "public", "users", "d")%string] (fun _ => [(ts_row, ts_dimension)]) (fun _ => [ts_row]) tt 0)
    as (d' & sc & Hrun & _ & Hchunk & _).
  - split.
    + split; try (intros []; by exists tt); repeat constructor; try discriminate; intros _ []; by exists tt.
    + intros oid w. exists (db w). by destruct w.
    + done.
    + intros h _ _ _ []. by exists tt.
    + intros t _ _ []. by exists tt.
    + done.
    + done.
    + intros w. exists (db w). by destruct w.
  - apply (bool_decide_unpack _). vm_compute. exact I.
  - apply (bool_decide_unpack _). vm_compute. exact I.
  - apply (bool_decide_unpack _). vm_compute. exact I.
  - exists d', sc. split; [exact Hrun|]. apply Hchunk. split; [apply list_elem_of_here|]. split; [|reflexivity].
    exists (hypertable_of metrics_row). split; [apply list_elem_of_here|]. split; reflexivity.
Defined.
