(* ===== verification/ChunkSnapshots.v ===== *)
(** * ChunkSnapshots: the queues of the snapshotter

    internal/systemcatalog/snapshotting/snapshotter.go: how a snapshot request gets
    to a worker, and how the worker of a partition and the dispatcher of the task
    manager wait for each other while the chunks of a hypertable are snapshotted.

    - [Partitions]: the partition of a table, by the FNV-1a hash of its name.
    - [Queues]: the dispatcher with its unbounded queue of tasks, the partitions, each
      with its queue, which holds 128 requests, and its worker, and the requests and
      other tasks that arrive from elsewhere, as a step relation.
    - [Snapshotter]: what a worker does for one chunk, on the side channel. *)

From Stdlib Require Import ZArith Lia.
From Stdlib Require Import Strings.Byte.
From stdpp Require Import base tactics option list numbers strings relations gmap.
From S2P Require Import Prelude Encoding Entities Values Messages SideChannel Waiting.

Local Open Scope Z_scope.

Module Partitions.

(** hash/fnv, New64a: xor the byte, multiply by the prime, in 64 bits. *)
Definition offset64 : Z := 14695981039346656037.
Definition prime64 : Z := 1099511628211.

Definition fnv64a (d : bytes) : Z :=
  fold_left (fun h b => (Z.lxor h (Z_of_byte b) * prime64) mod 2 ^ 64) d offset64.

(** [hasher.Sum64() % s.partitionCount]; the division by zero is a panic. *)
Definition partition (canonicalName : string) (partitionCount : Z) : crash + Z :=
  if partitionCount =? 0 then inl PanicExplicit else inr (fnv64a (bytes_of canonicalName) mod partitionCount).

(** A request goes to a queue that exists. *)
Lemma partition_in_range canonicalName partitionCount :
  0 < partitionCount -> exists p, partition canonicalName partitionCount = inr p /\ 0 <= p < partitionCount.
Proof.
  intros Hp. unfold partition. destruct (Z.eqb_spec partitionCount 0); [lia|].
  eexists. split; [reflexivity|]. by apply Z.mod_pos_bound.
Qed.
End Partitions.

Module Queues.

(** The capacity of a partition's channel. *)
Definition capacity : nat := 128.

(** A request: of a chunk of a hypertable, which is read at once, or of a batch of a
    table, after which [more] others follow. *)
Inductive request : Type := ChunkRequest (hypertable : string) (chunk : Z) | TableRequest (name : string) (more : nat).

Definition table (r : request) : string := match r with ChunkRequest t _ | TableRequest t _ => t end.
Definition more (r : request) : nat := match r with ChunkRequest _ _ => 0 | TableRequest _ k => k end.

(** The tasks of the dispatcher: the request of a snapshot (of a chunk: notify, then
    put the chunk into the partition's queue; of a table: the event of its start),
    a row, the end of a snapshot, and any other. *)
Inductive task : Type :=
| EnqueueSnapshot (r : request) | ReadEvent (r : request) (row : Z) | SnapshotFinished (r : request) | OtherTask.

(** The worker of a partition: waiting for a request, sending the rows of a chunk or
    a batch (so many are left), or waiting in [EnqueueTaskAndWait] for the last task. *)
Inductive worker : Type := Idle | Snapshotting (r : request) (rows : nat) | Waiting (r : request).

#[export] Instance request_eq_dec : EqDecision request.
Proof. solve_decision. Defined.
#[export] Instance task_eq_dec : EqDecision task.
Proof. solve_decision. Defined.

(** A partition: its queue and its worker. *)
Record lane : Type := mkLane { snapshotQueue : list request; snapshotter : worker }.

(** [ran] and [asked] are history: the tasks that ran, the requests that were made. *)
Record system : Type := mkSystem {
  taskQueue : list task;
  lanes : list lane;
  ran : list task;
  asked : list request;
}.

Section Steps.
(** The number of partitions, and the rows of a chunk or a batch. *)
Context (partitionCount : nat) (rows_of : request -> nat).

(** The queue of a request. *)
Definition part (r : request) : nat :=
  match Partitions.partition (table r) (Z.of_nat partitionCount) with inr p => Z.to_nat p | inl _ => 0%nat end.

(** [None]: an error of a snapshot ends the process (Fatalf). *)
Inductive step : system -> option system -> Prop :=
(** The dispatcher: a request is put into the queue, if there is room. *)
| step_request r sq w q ls h a :
    ls !! part r = Some (mkLane sq w) -> (length sq < capacity)%nat ->
    step (mkSystem (EnqueueSnapshot r :: q) ls h a)
         (Some (mkSystem q (<[part r := mkLane (sq ++ [r]) w]> ls) (h ++ [EnqueueSnapshot r]) a))
| step_row r i q ls h a :
    step (mkSystem (ReadEvent r i :: q) ls h a) (Some (mkSystem q ls (h ++ [ReadEvent r i]) a))
| step_other q ls h a :
    step (mkSystem (OtherTask :: q) ls h a) (Some (mkSystem q ls (h ++ [OtherTask]) a))
(** The task of [EnqueueTaskAndWait] signals the worker that waits for it. *)
| step_finished r sq q ls h a :
    ls !! part r = Some (mkLane sq (Waiting r)) ->
    step (mkSystem (SnapshotFinished r :: q) ls h a)
         (Some (mkSystem q (<[part r := mkLane sq Idle]> ls) (h ++ [SnapshotFinished r]) a))
(** A worker. *)
| step_take p r sq q ls h a :
    ls !! p = Some (mkLane (r :: sq) Idle) ->
    step (mkSystem q ls h a) (Some (mkSystem q (<[p := mkLane sq (Snapshotting r (rows_of r))]> ls) h a))
| step_send p r n sq q ls h a :
    ls !! p = Some (mkLane sq (Snapshotting r (S n))) ->
    step (mkSystem q ls h a)
         (Some (mkSystem (q ++ [ReadEvent r (Z.of_nat n)]) (<[p := mkLane sq (Snapshotting r n)]> ls) h a))
| step_end p r sq q ls h a :
    ls !! p = Some (mkLane sq (Snapshotting r 0)) -> more r = 0%nat ->
    step (mkSystem q ls h a) (Some (mkSystem (q ++ [SnapshotFinished r]) (<[p := mkLane sq (Waiting r)]> ls) h a))
(** The worker puts the next batch of its table into its own queue, if there is room. *)
| step_again p r k sq q ls h a :
    ls !! p = Some (mkLane sq (Snapshotting r 0)) -> more r = S k -> (length sq < capacity)%nat ->
    step (mkSystem q ls h a) (Some (mkSystem q (<[p := mkLane (sq ++ [TableRequest (table r) k]) Idle]> ls) h a))
| step_fatal p sq w q ls h a :
    ls !! p = Some (mkLane sq w) -> w <> Idle -> step (mkSystem q ls h a) None.

(** A task from elsewhere, at any time: a request, or something else. *)
Inductive arrives : system -> system -> Prop :=
| arrives_request r q ls h a :
    arrives (mkSystem q ls h a) (mkSystem (q ++ [EnqueueSnapshot r]) ls h (a ++ [r]))
| arrives_other q ls h a : arrives (mkSystem q ls h a) (mkSystem (q ++ [OtherTask]) ls h a).

Definition runs (s s' : system) : Prop := step s (Some s') \/ arrives s s'.

Definition init : system := mkSystem [] (replicate partitionCount (mkLane [] Idle)) [] [].

(** *** Invariant *)

(** What a request is about: the table and the chunk. *)
Definition subject (r : request) : string * option Z :=
  match r with ChunkRequest t c => (t, Some c) | TableRequest t _ => (t, None) end.

Definition requested (l : list task) : list request :=
  omap (fun t => match t with EnqueueSnapshot r => Some r | _ => None end) l.
Definition finished (l : list task) : list request :=
  omap (fun t => match t with SnapshotFinished r => Some r | _ => None end) l.
Definition current (w : worker) : list request := match w with Idle => [] | Snapshotting r _ | Waiting r => [r] end.
Definition waits (w : worker) : list request := match w with Waiting r => [r] | _ => [] end.
(** The requests of a partition. *)
Definition of_part (p : nat) (l : list request) : list request := filter (fun r => part r = p) l.

(** Every request of a partition is done, in work, queued or not yet dispatched. *)
Definition entries (p : nat) (l : lane) (h q : list task) : list request :=
  (of_part p (finished h) ++ current (snapshotter l) ++ snapshotQueue l ++ of_part p (requested q))%list.

(** Only tables that need several batches change their place. *)
Record same_work (l l' : list request) : Prop := {
  sw_all : subject <$> l ≡ₚ subject <$> l';
  sw_chunks : filter (fun x => is_Some (snd x)) (subject <$> l) = filter (fun x => is_Some (snd x)) (subject <$> l');
}.

Record Inv (s : system) : Prop := {
  inv_count : length (lanes s) = partitionCount;
  inv_room : forall p l, lanes s !! p = Some l -> (length (snapshotQueue l) <= capacity)%nat;
  inv_place : forall p l r, lanes s !! p = Some l -> r ∈ (current (snapshotter l) ++ snapshotQueue l)%list -> part r = p;
  inv_waiting : forall p l, lanes s !! p = Some l -> of_part p (finished (taskQueue s)) = waits (snapshotter l);
  inv_work : forall p l, lanes s !! p = Some l -> same_work (entries p l (ran s) (taskQueue s)) (of_part p (asked s));
}.

Lemma part_in_range r : (0 < partitionCount)%nat -> (part r < partitionCount)%nat.
Proof.
  intros H. unfold part. destruct (Partitions.partition_in_range (table r) (Z.of_nat partitionCount)) as (p & -> & Hp); lia.
Qed.

Lemma of_part_app p l1 l2 : of_part p (l1 ++ l2) = (of_part p l1 ++ of_part p l2)%list.
Proof. apply filter_app. Qed.
Lemma of_part_cons p r l : of_part p (r :: l) = (of_part p [r] ++ of_part p l)%list.
Proof. apply (of_part_app p [r]). Qed.
Lemma of_part_nil p : of_part p [] = [].
Proof. done. Qed.
Lemma of_part_own r : of_part (part r) [r] = [r].
Proof. unfold of_part. by rewrite filter_cons_True. Qed.
Lemma of_part_other p r : p <> part r -> of_part p [r] = [].
Proof. intros H. unfold of_part. rewrite filter_cons_False; [done|congruence]. Qed.
Lemma requested_app l1 l2 : requested (l1 ++ l2) = (requested l1 ++ requested l2)%list.
Proof. apply omap_app. Qed.
Lemma finished_app l1 l2 : finished (l1 ++ l2) = (finished l1 ++ finished l2)%list.
Proof. apply omap_app. Qed.

Lemma requested_cons t l : requested (t :: l) = (requested [t] ++ requested l)%list.
Proof. apply (requested_app [t]). Qed.
Lemma finished_cons t l : finished (t :: l) = (finished [t] ++ finished l)%list.
Proof. apply (finished_app [t]). Qed.

(** The requests and ends of a list of tasks, as far as a partition sees them. *)
Ltac tasks_simpl :=
  rewrite ?requested_app, ?finished_app, ?of_part_app; cbn [requested finished omap list_omap];
  rewrite ?of_part_own, ?of_part_nil, ?app_nil_r; cbn [app].

Ltac sys_simpl := cbn [taskQueue lanes ran asked snapshotQueue snapshotter current waits] in *.

Lemma same_work_refl l : same_work l l.
Proof. by split. Qed.

Lemma same_work_app l l' k : same_work l l' -> same_work (l ++ k) (l' ++ k).
Proof. intros [H1 H2]. split; rewrite !fmap_app; [by rewrite H1|]. by rewrite !filter_app, H2. Qed.

(** The batch of a table that is put behind the queue. *)
Lemma same_work_again f r k sq rest l :
  more r = S k -> same_work (f ++ [r] ++ sq ++ rest) l ->
  same_work (f ++ [] ++ (sq ++ [TableRequest (table r) k]) ++ rest) l.
Proof.
  intros Hm [H1 H2]. destruct r as [|t k']; [done|]. cbn [table]. split.
  - rewrite <- H1, !fmap_app. cbn. by rewrite <- !app_assoc, Permutation_middle.
  - rewrite <- H2, !fmap_app, !filter_app. cbn [app subject fmap list_fmap].
    repeat (rewrite filter_cons_False; [|by intros []]). rewrite filter_nil, app_nil_r. done.
Qed.

(** What a step of one partition leaves to the others. *)
Definition same_elsewhere (p : nat) (q q' h h' : list task) (a a' : list request) : Prop :=
  forall p', p' <> p -> of_part p' (finished q') = of_part p' (finished q) /\
    of_part p' (requested q') = of_part p' (requested q) /\ of_part p' (finished h') = of_part p' (finished h) /\
    of_part p' a' = of_part p' a.

Lemma inv_update q q' ls h h' a p l l' :
  Inv (mkSystem q ls h a) -> ls !! p = Some l ->
  (length (snapshotQueue l') <= capacity)%nat ->
  (forall r, r ∈ (current (snapshotter l') ++ snapshotQueue l')%list -> part r = p) ->
  of_part p (finished q') = waits (snapshotter l') ->
  same_work (entries p l' h' q') (of_part p a) ->
  same_elsewhere p q q' h h' a a ->
  Inv (mkSystem q' (<[p := l']> ls) h' a).
Proof.
  intros [Hc Hr Hp Hw Hs] Hl Hr' Hp' Hw' Hs' Hsame. sys_simpl.
  pose proof (lookup_lt_Some _ _ _ Hl) as Hlt.
  split; sys_simpl; [by rewrite length_insert|..]; intros i x; [|intros r| |]; intros Hx;
    (destruct (decide (i = p)) as [->|Hne];
      [rewrite list_lookup_insert_eq in Hx by done; injection Hx as <-
      |rewrite list_lookup_insert_ne in Hx by done]); eauto.
  - destruct (Hsame i Hne) as (-> & _). eauto.
  - destruct (Hsame i Hne) as (_ & Heq1 & Heq2 & _). unfold entries. rewrite Heq1, Heq2. by apply (Hs i x Hx).
Qed.

Lemma inv_init : Inv init.
Proof.
  split; cbn; [apply length_replicate|..]; intros p l; [|intros r| |]; intros [-> _]%lookup_replicate; cbn.
  - lia.
  - by intros ?%not_elem_of_nil.
  - done.
  - apply same_work_refl.
Qed.

Lemma inv_arrives s s' : Inv s -> arrives s s' -> Inv s'.
Proof.
  intros [Hc Hr Hp Hw Hs] Ha. inversion Ha as [r q ls h a|q ls h a]; subst; split; sys_simpl; try done;
    intros p l Hl; tasks_simpl; try (by apply Hw).
  - specialize (Hs p l Hl). unfold entries in *. tasks_simpl. rewrite !app_assoc. apply same_work_app.
    by rewrite <- !app_assoc.
  - specialize (Hs p l Hl). unfold entries in *. tasks_simpl. exact Hs.
Qed.

(** A task without a request, or the end of one, is of no interest to a partition. *)
Lemma elsewhere_refl p q h a : same_elsewhere p q q h h a a.
Proof. by intros p' _. Qed.

Lemma queues_inv_step s s' : Inv s -> step s (Some s') -> Inv s'.
Proof.
  intros Hinv Hstep. pose proof Hinv as [Hc Hr Hp Hw Hs].
  inversion Hstep as [r sq w q ls h a Hl Hlt|r i q ls h a|q ls h a|r sq q ls h a Hl|p r sq q ls h a Hl|p r n sq q ls h a Hl
    |p r sq q ls h a Hl Hm|p r k sq q ls h a Hl Hm Hlt|]; subst; sys_simpl;
    try (pose proof (Hr _ _ Hl) as Hrl; pose proof (fun x => Hp _ _ x Hl) as Hpl;
         pose proof (Hw _ _ Hl) as Hwl; pose proof (Hs _ _ Hl) as Hsl; unfold entries in Hsl; sys_simpl).
  - rewrite finished_cons in Hwl. rewrite requested_cons, of_part_app in Hsl. cbn [requested finished omap list_omap app] in Hwl, Hsl.
    rewrite of_part_own in Hsl.
    eapply inv_update; [exact Hinv|exact Hl|..]; sys_simpl; [| |exact Hwl| |].
    + rewrite length_app. cbn. lia.
    + intros x. rewrite !elem_of_app, list_elem_of_singleton. intros [Hx|[Hx| ->]]; [| |done]; apply Hpl, elem_of_app; auto.
    + unfold entries. sys_simpl. tasks_simpl. by rewrite <- !app_assoc.
    + intros p' Hne. rewrite (finished_cons _ q), (requested_cons _ q). tasks_simpl.
      by rewrite (of_part_other p' r Hne), ?app_nil_r.
  - split; sys_simpl; try done. intros p l Hl. unfold entries. tasks_simpl. exact (Hs p l Hl).
  - split; sys_simpl; try done. intros p l Hl. unfold entries. tasks_simpl. exact (Hs p l Hl).
  - rewrite finished_cons, of_part_app in Hwl. rewrite requested_cons, of_part_app in Hsl.
    cbn [requested finished omap list_omap app] in Hwl, Hsl. rewrite of_part_own in Hwl. injection Hwl as Hwl.
    eapply inv_update; [exact Hinv|exact Hl|..]; sys_simpl; [done| |exact Hwl| |].
    + intros x Hx. apply Hpl. by apply elem_of_app; right.
    + unfold entries. sys_simpl. tasks_simpl. by rewrite <- !app_assoc.
    + intros p' Hne. rewrite (finished_cons _ q), (requested_cons _ q). tasks_simpl.
      by rewrite (of_part_other p' r Hne), ?app_nil_r.
  - eapply inv_update; [exact Hinv|exact Hl|..]; sys_simpl; [cbn in Hrl; lia|exact Hpl|exact Hwl|exact Hsl|apply elsewhere_refl].
  - eapply inv_update; [exact Hinv|exact Hl|..]; sys_simpl; [done|exact Hpl| | |].
    + tasks_simpl. exact Hwl.
    + unfold entries. sys_simpl. tasks_simpl. exact Hsl.
    + intros p' _. by tasks_simpl.
  - assert (part r = p) as <- by (apply Hpl; by left).
    eapply inv_update; [exact Hinv|exact Hl|..]; sys_simpl; [done|exact Hpl| | |].
    + tasks_simpl. by rewrite Hwl.
    + unfold entries. sys_simpl. tasks_simpl. exact Hsl.
    + intros p' Hne. tasks_simpl. by rewrite (of_part_other p' r Hne), app_nil_r.
  - assert (part r = p) as Hpr by (apply Hpl; by left).
    eapply inv_update; [exact Hinv|exact Hl|..]; sys_simpl; [| |exact Hwl| |apply elsewhere_refl].
    + rewrite length_app. cbn. lia.
    + intros x. cbn [app]. rewrite elem_of_app, list_elem_of_singleton. intros [Hx| ->]; [apply Hpl; by right|exact Hpr].
    + unfold entries. sys_simpl. by apply same_work_again.
Qed.

Lemma queues_inv_reachable s : rtc runs init s -> Inv s.
Proof.
  apply rtc_invariant; [apply inv_init|]. intros x y Hx [?|?]; [by eapply queues_inv_step|by eapply inv_arrives].
Qed.

(** *** Progress *)

(** The requests of a partition that are not finished. *)
Definition outstanding (p : nat) (s : system) : nat :=
  match lanes s !! p with
  | Some l => (length (current (snapshotter l)) + length (snapshotQueue l))%nat
  | None => 0%nat
  end + length (of_part p (requested (taskQueue s))).

(** How many a partition can take: one more than its queue holds, but not while its
    worker has to put a batch into the queue itself. *)
Definition limit (p : nat) (s : system) : nat :=
  match snapshotter <$> lanes s !! p with
  | Some (Snapshotting r _) => if (more r =? 0)%nat then S capacity else capacity
  | _ => S capacity
  end.

(** Nothing is left to do. *)
Definition idle (s : system) : Prop := taskQueue s = [] /\ forall p l, lanes s !! p = Some l -> l = mkLane [] Idle.

(** A worker that cannot go on is idle with nothing queued, waits for its last task,
    or has no room for its next batch. *)
Lemma stuck_lane s p l :
  (forall s', ~ step s (Some s')) -> lanes s !! p = Some l ->
  l = mkLane [] Idle \/ (exists r, snapshotter l = Waiting r) \/
  (exists r k, snapshotter l = Snapshotting r 0 /\ more r = S k /\ (capacity <= length (snapshotQueue l))%nat).
Proof.
  intros Hstuck Hl. destruct s as [q ls h a]. cbn in Hl. destruct l as [sq [|r [|n]|r]]; cbn; [| | |by eauto].
  - left. destruct sq as [|r sq]; [done|]. exfalso. by eapply Hstuck, step_take.
  - destruct (more r) as [|k] eqn:Hm; [exfalso; by eapply Hstuck, step_end|].
    destruct (decide (length sq < capacity)%nat) as [Hlt|Hge]; [exfalso; by eapply Hstuck, step_again|].
    right. right. exists r, k. split_and!; [done|done|lia].
  - exfalso. by eapply Hstuck, step_send.
Qed.

Lemma stuck_is_idle s :
  (0 < partitionCount)%nat -> Inv s -> (forall s', ~ step s (Some s')) ->
  (forall p, outstanding p s <= limit p s)%nat -> idle s.
Proof.
  intros Hn Hinv Hstuck Hlim.
  assert (Hlane : forall p l, lanes s !! p = Some l -> l = mkLane [] Idle \/ exists r, snapshotter l = Waiting r).
  { intros p l Hl. destruct (stuck_lane s p l Hstuck Hl) as [?|[?|(r & k & Hw & Hm & Hfull)]]; [auto..|]. exfalso.
    specialize (Hlim p). unfold outstanding, limit in Hlim. rewrite Hl in Hlim. cbn in Hlim.
    rewrite Hw, Hm in Hlim. cbn in Hlim. lia. }
  destruct s as [q ls h a]. destruct q as [|t q].
  - split; [done|]. intros p l Hl. destruct (Hlane p l Hl) as [?|[r Hr]]; [done|]. exfalso.
    pose proof (inv_waiting _ Hinv p l Hl) as Hw. by rewrite Hr in Hw.
  - exfalso. destruct t as [r|r i|r|].
    + destruct (lookup_lt_is_Some_2 ls (part r)) as [[sq w] Hl].
      { pose proof (inv_count _ Hinv) as Hc. cbn in Hc. rewrite Hc. by apply part_in_range. }
      destruct (decide (length sq < capacity)%nat) as [Hlt|Hge]; [by eapply Hstuck, step_request|].
      destruct (Hlane _ _ Hl) as [[= -> ->]|[r' [= ->]]]; [cbn in Hge; unfold capacity in Hge; lia|].
      specialize (Hlim (part r)). unfold outstanding, limit in Hlim. sys_simpl. rewrite Hl in Hlim. cbn [fmap option_fmap option_map snapshotter current snapshotQueue] in Hlim.
      rewrite requested_cons, of_part_app, length_app in Hlim. cbn [requested omap list_omap] in Hlim.
      rewrite of_part_own in Hlim. cbn [length] in Hlim. lia.
    + eapply Hstuck, step_row.
    + destruct (lookup_lt_is_Some_2 ls (part r)) as [[sq w] Hl].
      { pose proof (inv_count _ Hinv) as Hc. cbn in Hc. rewrite Hc. by apply part_in_range. }
      pose proof (inv_waiting _ Hinv _ _ Hl) as Hw. sys_simpl. rewrite finished_cons, of_part_app in Hw.
      cbn [finished omap list_omap] in Hw. rewrite of_part_own in Hw. destruct w; try done. injection Hw as <- _.
      by eapply Hstuck, step_finished.
    + eapply Hstuck, step_other.
Qed.

(** *** Termination *)

(** What is left to do for a queued request, with its further batches. *)
Fixpoint table_work (t : string) (k : nat) : nat :=
  2 * rows_of (TableRequest t k) + 4 + match k with O => 0 | S k' => S (table_work t k') end.
Definition request_work (r : request) : nat :=
  match r with ChunkRequest _ _ => 2 * rows_of r + 4 | TableRequest t k => table_work t k end.
Definition rest_work (r : request) : nat := match more r with O => 0 | S k => S (table_work (table r) k) end.

Definition task_work (t : task) : nat := match t with EnqueueSnapshot r => S (request_work r) | _ => 1 end.
Definition worker_work (w : worker) : nat :=
  match w with Idle => 0 | Snapshotting r n => 2 * n + 3 + rest_work r | Waiting _ => 1 end.
Definition lane_work (l : lane) : nat :=
  (Shutdown.total request_work (snapshotQueue l) + worker_work (snapshotter l))%nat.
Definition work (s : system) : nat :=
  (Shutdown.total task_work (taskQueue s) + Shutdown.total lane_work (lanes s))%nat.

Lemma total_app {A} (f : A -> nat) l1 l2 : Shutdown.total f (l1 ++ l2) = (Shutdown.total f l1 + Shutdown.total f l2)%nat.
Proof. induction l1 as [|x l IH]; cbn; [done|]. lia. Qed.

Lemma request_work_eq r : request_work r = (2 * rows_of r + 4 + rest_work r)%nat.
Proof. destruct r as [t c|t [|k]]; cbn; lia. Qed.

Lemma step_work s s' : step s (Some s') -> (work s' < work s)%nat.
Proof.
  intros Hstep. unfold work.
  inversion Hstep as [r sq w q ls h a Hl Hlt|r i q ls h a|q ls h a|r sq q ls h a Hl|p r sq q ls h a Hl|p r n sq q ls h a Hl
    |p r sq q ls h a Hl Hm|p r k sq q ls h a Hl Hm Hlt|]; subst; sys_simpl;
    try (match goal with |- context [<[?i := ?l']> _] => pose proof (Shutdown.total_insert lane_work ls i _ l' Hl) as Ht end;
         unfold lane_work in Ht at 2 4; sys_simpl; rewrite ?total_app in Ht);
    rewrite ?total_app; cbn [Shutdown.total task_work worker_work] in *; try lia.
  - rewrite request_work_eq in Ht. lia.
  - unfold rest_work in Ht. rewrite Hm in Ht. cbn [request_work] in Ht. lia.
Qed.


(** *** The deadlock *)

Lemma requests_arrive rs q ls h a :
  rtc runs (mkSystem q ls h a) (mkSystem (q ++ (EnqueueSnapshot <$> rs)) ls h (a ++ rs)).
Proof.
  revert q a. induction rs as [|r rs IH]; intros q a; [cbn; by rewrite !app_nil_r|].
  eapply rtc_l; [right; apply (arrives_request r)|]. specialize (IH (q ++ [EnqueueSnapshot r])%list (a ++ [r])%list).
  by rewrite <- !app_assoc in IH.
Qed.

(** The dispatcher moves requests into the queue of their partition. *)
Lemma dispatch_requests p rs q sq w ls h a :
  (p < length ls)%nat -> Forall (fun r => part r = p) rs -> (length sq + length rs <= capacity)%nat ->
  rtc runs (mkSystem ((EnqueueSnapshot <$> rs) ++ q) (<[p := mkLane sq w]> ls) h a)
           (mkSystem q (<[p := mkLane (sq ++ rs) w]> ls) (h ++ (EnqueueSnapshot <$> rs)) a).
Proof.
  intros Hp. revert sq h. induction rs as [|r rs IH]; intros sq h Hall Hlen; [cbn; by rewrite !app_nil_r|].
  apply Forall_cons in Hall as [Hr Hall]. cbn in Hlen. rewrite fmap_cons. eapply rtc_l.
  { left. apply (step_request r sq w); [rewrite Hr; by apply list_lookup_insert_eq|lia]. }
  rewrite Hr, list_insert_insert_eq. specialize (IH (sq ++ [r])%list (h ++ [EnqueueSnapshot r])%list Hall).
  rewrite <- !app_assoc in IH. apply IH. rewrite length_app. cbn. lia.
Qed.

(** The worker sends the rows of its chunk, and waits. *)
Lemma worker_waits p t c n q sq ls h a : (p < length ls)%nat ->
  exists q', rtc runs (mkSystem q (<[p := mkLane sq (Snapshotting (ChunkRequest t c) n)]> ls) h a)
                      (mkSystem (q ++ q') (<[p := mkLane sq (Waiting (ChunkRequest t c))]> ls) h a).
Proof.
  intros Hp. revert q. induction n as [|n IH]; intros q.
  - exists [SnapshotFinished (ChunkRequest t c)]. apply rtc_once. left.
    rewrite <- (list_insert_insert_eq ls p (mkLane sq (Waiting _)) (mkLane sq (Snapshotting (ChunkRequest t c) 0))).
    apply step_end; [by apply list_lookup_insert_eq|done].
  - destruct (IH (q ++ [ReadEvent (ChunkRequest t c) (Z.of_nat n)])%list) as [q' Hq].
    exists (ReadEvent (ChunkRequest t c) (Z.of_nat n) :: q'). eapply rtc_l.
    { left. by apply (step_send p (ChunkRequest t c) n sq); apply list_lookup_insert_eq. }
    rewrite list_insert_insert_eq, (cons_middle _ q q'), app_assoc. exact Hq.
Qed.

(** With one chunk more, the snapshotter and the dispatcher can wait for each
    other for ever: the dispatcher for room in the queue of the partition, the
    worker of the partition for the dispatcher to run its last task. *)
Theorem chunk_snapshots_deadlock t chunks :
  (0 < partitionCount)%nat -> (129 < length chunks)%nat ->
  exists s, rtc runs init s /\ asked s = (ChunkRequest t <$> chunks) /\ (forall s', ~ step s (Some s')) /\
    finished (ran s) = [] /\ exists p l r, lanes s !! p = Some l /\ snapshotter l = Waiting r.
Proof.
  intros Hn Hlen. assert (Hcap : capacity = 128%nat) by reflexivity.
  set (p := part (TableRequest t 0)). set (ls := replicate partitionCount (mkLane [] Idle)).
  assert (Hp : (p < length ls)%nat) by (unfold ls; rewrite length_replicate; by apply part_in_range).
  assert (Hall : forall l, Forall (fun r => part r = p) (ChunkRequest t <$> l)).
  { intros l. apply Forall_fmap, Forall_forall. by intros. }
  destruct chunks as [|c0 chunks]; [cbn in Hlen; lia|].
  set (queued := take capacity chunks).
  assert (Hq : length queued = capacity) by (unfold queued; rewrite length_take; cbn in Hlen; lia).
  destruct (drop capacity chunks) as [|c1 rest] eqn:Hrest.
  { apply (f_equal length) in Hrest. rewrite length_drop in Hrest. cbn in *. lia. }
  assert (Hchunks : chunks = (queued ++ c1 :: rest)%list) by (unfold queued; by rewrite <- Hrest, take_drop).
  set (later := EnqueueSnapshot <$> (ChunkRequest t <$> c1 :: rest)).
  set (reqs := ChunkRequest t <$> c0 :: chunks).
  assert (Hreqs : EnqueueSnapshot <$> reqs = EnqueueSnapshot (ChunkRequest t c0) ::
    ((EnqueueSnapshot <$> (ChunkRequest t <$> queued)) ++ later)%list)
    by (unfold reqs, later; by rewrite Hchunks, <- !fmap_app).
  destruct (worker_waits p t c0 (rows_of (ChunkRequest t c0)) later (ChunkRequest t <$> queued) ls
    ([EnqueueSnapshot (ChunkRequest t c0)] ++ (EnqueueSnapshot <$> (ChunkRequest t <$> queued)))%list
    reqs Hp) as [q' Hw].
  match type of Hw with rtc _ _ ?final => exists final end. split; [|split; [reflexivity|split; [|split]]].
  - etrans; [apply (requests_arrive reqs)|]. rewrite Hreqs. cbn [app]. eapply rtc_l.
    { left. apply (step_request _ [] Idle); [|cbn; lia]. apply lookup_replicate. split; [done|].
      by apply part_in_range. }
    change (part (ChunkRequest t c0)) with p. fold ls. cbn [app]. eapply rtc_l.
    { left. apply (step_take p (ChunkRequest t c0) []). by apply list_lookup_insert_eq. }
    rewrite list_insert_insert_eq. etrans; [|exact Hw].
    apply (dispatch_requests p _ later []); [done|apply Hall|]. rewrite length_fmap, Hq. apply le_n.
  - intros s' Hstep. clear Hw Hreqs Hchunks Hrest. clearbody reqs queued.
    assert (Hlane : forall i l, <[p := mkLane (ChunkRequest t <$> queued) (Waiting (ChunkRequest t c0))]> ls !! i = Some l ->
      l = mkLane [] Idle \/ (i = p /\ l = mkLane (ChunkRequest t <$> queued) (Waiting (ChunkRequest t c0)))).
    { intros i l. destruct (decide (i = p)) as [->|Hne].
      - rewrite list_lookup_insert_eq by done. intros [= <-]. auto.
      - rewrite list_lookup_insert_ne by done. intros [-> _]%lookup_replicate. auto. }
    inversion Hstep as [r sq w q l' h a Hlr Hlt Heq| | | |? ? ? ? ? ? ? Hl|? ? ? ? ? ? ? ? Hl|? ? ? ? ? ? ? Hl|? ? ? ? ? ? ? ? Hl|]; subst;
      try (apply Hlane in Hl as [[=]|[_ [=]]]).
    change (part (ChunkRequest t c1)) with p in Hlr. rewrite list_lookup_insert_eq in Hlr by done.
    injection Hlr as <- <-. rewrite length_fmap in Hlt. lia.
  - cbn [ran]. rewrite finished_app. cbn [finished omap list_omap app]. clear.
    induction queued as [|c l IH]; [done|]. exact IH.
  - exists p, (mkLane (ChunkRequest t <$> queued) (Waiting (ChunkRequest t c0))), (ChunkRequest t c0).
    split; [|done]. cbn [lanes]. by apply list_lookup_insert_eq.
Qed.
End Steps.
End Queues.


Lemma chunk_snapshots_deadlock_witness :
  exists s, rtc (Queues.runs 2 (fun _ => 1%nat)) (Queues.init 2) s /\
    (forall s', ~ Queues.step 2 (fun _ => 1%nat) s (Some s')) /\ Queues.finished (Queues.ran s) = [].
Proof.
  destruct (Queues.chunk_snapshots_deadlock 2 (fun _ => 1%nat) "public.metrics" (replicate 130 7)) as (s & Hrun & _ & Hstuck & Hfin & _).
  - lia.
  - rewrite length_replicate. lia.
  - exists s. exact (conj Hrun (conj Hstuck Hfin)).
Defined.

(** ** The snapshot of one chunk *)

Module Snapshotter.

(** The events that a chunk's snapshot puts into the task manager's queue; [xld] is
    the log entry of the chunk's creation, if that is known. *)
Inductive event : Type :=
| OnReadEvent (lsn : Z) (values : gmap string value)
| OnInsertEvent (xld : XLogData) (values : gmap string value)
| OnChunkSnapshotFinishedEvent (lsn : Z).

Section Snapshot.
Context {R D Dec : Type} `{Server R D}.
Context (rowDecoderFactory : R -> dberror + Dec) (decode : Dec -> R -> dberror + gmap string value).

(** EnqueueTask, before the shutdown. *)
Definition EnqueueTask (e : event) : M D (list event) unit := fun w =>
  Val tt (mkWorld (db w) (connections w) (client w ++ [e])%list).

(** The publication manager asks the side channel; a table is attached once. *)
Definition publish {C} (publicationName : string) (t : SystemEntity) : M D C unit :=
  alreadyPublished ← ExistsTableInPublication publicationName (SchemaName t) (TableName t);
  if (alreadyPublished : bool) then mret tt else AttachTablesToPublication publicationName [t].

Definition row_event (xld : option XLogData) (lsn : Z) (values : gmap string value) : event :=
  match xld with Some x => OnInsertEvent x values | None => OnReadEvent lsn values end.

Definition snapshotChunk (fuel : nat) (publicationName cursorName : string) (chunk : Chunk) (xld : option XLogData)
    (snapshotBatchSize : Z) : M D (list event) unit :=
  publish publicationName (Chnk.entity chunk) ;;
  lsn ← SnapshotChunkTable rowDecoderFactory decode fuel cursorName chunk snapshotBatchSize
          (fun lsn values => EnqueueTask (row_event xld lsn values));
  EnqueueTask (OnChunkSnapshotFinishedEvent lsn).

(** The cursor of a chunk: the events of the rows, and the position of the snapshot,
    or 0 if the chunk has no rows. *)
Lemma chunk_table_events dec values fuel cursorName chunk xld size lsn table_rows remaining (w : world D (list event)) :
  (forall r, rowDecoderFactory r = inr dec) -> (forall r, decode dec r = inr (values r)) ->
  serves ("DECLARE " ++ cursorName ++ " SCROLL CURSOR FOR SELECT * FROM " ++ Chnk.canonicalName chunk)%string cursorName
    lsn table_rows remaining ->
  0 < size -> (length table_rows < fuel * Z.to_nat size)%nat -> lsn <> 0 ->
  exists d, SnapshotChunkTable rowDecoderFactory decode fuel cursorName chunk size
      (fun lsn values => EnqueueTask (row_event xld lsn values)) w
    = Val (match table_rows with [] => 0 | _ => lsn end)
        (mkWorld d (connections w) (client w ++ ((fun r => row_event xld lsn (values r)) <$> table_rows))%list).
Proof.
  intros Hf Hd Hs Hsize Hfuel Hlsn. unfold SnapshotChunkTable.
  set (hook := fun p v => (currentLSN ← get_local; (if (currentLSN : Z) =? 0 then set_local p else mret tt) ;;
    outer (EnqueueTask (row_event xld p v))) : M D (Z * list event) unit).
  destruct (cursor_snapshot_complete rowDecoderFactory decode dec values
    ("DECLARE " ++ cursorName ++ " SCROLL CURSOR FOR SELECT * FROM " ++ Chnk.canonicalName chunk)%string cursorName None lsn table_rows remaining size fuel
    (fun _ => True) (fun _ => True) hook
    (fun p v x => (if fst x =? 0 then p else fst x, snd x ++ [row_event xld p v])%list)
    (mkWorld (db w) (connections w) (0, client w)) Hf Hd) as [d Hrun];
    [|by apply Forall_forall|done|exact Hs|exact Hsize|exact Hfuel|].
  - intros p v [dw n [k c]] _ _. split; [|done]. unfold hook, mbind, M_bind. cbn [client fst snd get_local].
    destruct (k =? 0); done.
  - exists d. unfold local, mbind, M_bind. fold hook. rewrite Hrun. cbn [client].
    assert (Hfold : forall l k c, fold_left (fun (x : Z * list event) r =>
        (if fst x =? 0 then lsn else fst x, snd x ++ [row_event xld lsn (values r)])%list) l (k, c)
      = (if k =? 0 then match l with [] => 0 | _ => lsn end else k,
         c ++ ((fun r => row_event xld lsn (values r)) <$> l))%list).
    { induction l as [|r l IH]; intros k c; cbn [fold_left fst snd].
      - rewrite app_nil_r. by destruct (Z.eqb_spec k 0) as [->|].
      - rewrite IH, <- app_assoc. cbn [app fmap list_fmap]. f_equal.
        destruct (Z.eqb_spec k 0) as [->|Hk]; [by rewrite (proj2 (Z.eqb_neq lsn 0) Hlsn)|].
        by rewrite (proj2 (Z.eqb_neq k 0) Hk). }
    rewrite Hfold. done.
Qed.

(** The snapshot of a chunk is complete and marked by its end: once the chunk is in
    the publication, its rows become events in the order of the cursor, all with
    the position of the snapshot, and the last event tells this position -- or 0 for
    a chunk without rows, as if the snapshot had been taken before the log began. *)
Theorem chunk_snapshot_events dec values fuel publicationName cursorName chunk xld size lsn table_rows remaining
    (w w1 : world D (list event)) :
  (forall r, rowDecoderFactory r = inr dec) -> (forall r, decode dec r = inr (values r)) ->
  serves ("DECLARE " ++ cursorName ++ " SCROLL CURSOR FOR SELECT * FROM " ++ Chnk.canonicalName chunk)%string cursorName
    lsn table_rows remaining ->
  0 < size -> (length table_rows < fuel * Z.to_nat size)%nat -> lsn <> 0 ->
  publish publicationName (Chnk.entity chunk) w = Val tt w1 ->
  exists d, snapshotChunk fuel publicationName cursorName chunk xld size w
    = Val tt (mkWorld d (connections w1)
        (client w1 ++ ((fun r => row_event xld lsn (values r)) <$> table_rows) ++
         [OnChunkSnapshotFinishedEvent (match table_rows with [] => 0 | _ => lsn end)])%list).
Proof.
  intros Hf Hd Hs Hsize Hfuel Hlsn Hpub. unfold snapshotChunk. rewrite (bind_val _ _ _ _ _ Hpub).
  destruct (chunk_table_events dec values fuel cursorName chunk xld size lsn table_rows remaining w1 Hf Hd Hs Hsize Hfuel Hlsn)
    as [d Hrun]. exists d. rewrite (bind_val _ _ _ _ _ Hrun). unfold EnqueueTask. cbn. by rewrite <- app_assoc.
Qed.
End Snapshot.
End Snapshotter.

Definition sample_chunk : Chunk := Chnk.NewChunk 1 1 "_timescaledb_internal" "_hyper_1_1_chunk" false 0 None.

Lemma chunk_snapshot_events_witness :
  exists d, @Snapshotter.snapshotChunk Z (list Z) unit batch_server (fun _ => inr tt) (fun _ r => inr (sample_values r))
      2 "pub" "cursor" sample_chunk None 2 (mkWorld [] 0 [])
    = Val tt (mkWorld d 0 [Snapshotter.OnReadEvent 77 (sample_values 3); Snapshotter.OnReadEvent 77 (sample_values 4);
                           Snapshotter.OnReadEvent 77 (sample_values 5); Snapshotter.OnChunkSnapshotFinishedEvent 77]).
Proof.
  destruct (@Snapshotter.chunk_snapshot_events Z (list Z) unit batch_server (fun _ => inr tt)
    (fun _ r => inr (sample_values r)) tt sample_values 2 "pub" "cursor" sample_chunk None 2 77 [3; 4; 5] (fun d => d)
    (mkWorld [] 0 []) (mkWorld [] 0 [])) as [d Hrun].
  - reflexivity.
  - reflexivity.
  - split.
    + intros d. by eexists.
    + intros sql d. by eexists.
    + intros d. by eexists.
    + intros d d' Hd. injection Hd as <-. vm_compute. reflexivity.
    + intros n d _. eexists. split; reflexivity.
  - lia.
  - vm_compute. lia.
  - discriminate.
  - vm_compute. reflexivity.
  - exists d. exact Hrun.
Defined.
