(* ===== verification/TableSnapshots.v ===== *)
(** * TableSnapshots: the snapshot of a whole table

    internal/systemcatalog/snapshotting/snapshotter.go: what the worker of a partition
    does for a table, on the side channel (SideChannel.v) and the watermarks
    (Watermarks.v), from the request to the last batch.  How the worker and the
    dispatcher share the stored context is in SnapshotProtocol.v; here nobody else
    changes it.  The requests of a table all go to the partition of the worker, whose
    queue holds 128 of them.  Statistics and log output are left out. *)

From Stdlib Require Import ZArith Lia Sorting.Sorted.
From stdpp Require Import base tactics option list numbers strings pretty gmap.
From S2P Require Import Prelude Encoding Entities Values Messages Watermarks Converters SqlIndex SideChannel.
From S2P Require Import Queries ChunkSnapshots SnapshotProtocol.

Local Open Scope Z_scope.

Module Worker.

(** SnapshotTask *)
Record SnapshotTask : Type := mkSnapshotTask {
  Table : table;
  TaskChunk : option Chunk;
  Xld : option XLogData;
  SnapshotName : option string;
  nextSnapshotFetch : bool;
}.

(** What is put into the queue of the task manager. *)
Inductive event : Type :=
| TableRead (lsn : Z) (t : table) (values : gmap string value)
| TableSnapshotFinished (snapshotName : string) (t : table)
| ChunkEvent (t : table) (c : Chunk) (e : Snapshotter.event).

(** The stored context, the queue of the task manager, and the requests that wait in
    the partition. *)
Record client : Type := mkClient {
  context : option SnapshotContext;
  tasks : list event;
  requests : list SnapshotTask;
}.

Definition set_context (c : option SnapshotContext) (s : client) : client := mkClient c (tasks s) (requests s).
Definition set_tasks (l : list event) (s : client) : client := mkClient (context s) l (requests s).
Definition set_requests (l : list SnapshotTask) (s : client) : client := mkClient (context s) (tasks s) l.

Section Snapshots.
Context {R D Dec : Type} `{Server R D}.
Context (rowDecoderFactory : R -> dberror + Dec) (decode : Dec -> R -> dberror + gmap string value).
Context (float_text : Z -> string) (time_text : Time -> string) (type_name : value -> string).
Context (visit : gmap string value -> list (string * value)).
(** The fuel of the fetch loop, the name of the publication, the random name of the
    cursor, and the configured batch size. *)
Context (fuel : nat) (publicationName cursorName : string) (snapshotBatchSize : Z).

Definition ask_client {A} (f : client -> A) : M D client A := fun w => Val (f (SideChannel.client w)) w.
Definition change (f : client -> client) : M D client unit := fun w =>
  Val tt (mkWorld (db w) (connections w) (f (SideChannel.client w))).

Definition EnqueueTask (e : event) : M D client unit := change (fun s => set_tasks (tasks s ++ [e])%list s).

(** The queue of the partition is a channel; the worker itself is the only one that
    takes from it. *)
Definition EnqueueSnapshot (t : SnapshotTask) : M D client unit :=
  l ← ask_client requests;
  if (length l <? Queues.capacity)%nat then change (set_requests (l ++ [t])%list) else panics Deadlock.

(** The state manager's SnapshotContextTransaction. *)
Definition SnapshotContextTransaction (snapshotName : string) (createIfNotExists : bool)
    (fn : SnapshotContext -> M D client SnapshotContext) : M D client unit :=
  stored ← ask_client context;
  match stored, createIfNotExists with
  | Some sc, _ => sc' ← fn sc; change (set_context (Some sc'))
  | None, true =>
      change (set_context (Some (NewSnapshotContext snapshotName))) ;;
      sc' ← fn (NewSnapshotContext snapshotName); change (set_context (Some sc'))
  | None, false => fault (DbError "No such snapshot context found")
  end.

Definition set_mark (table : baseTable) (w : Watermark) (sc : SnapshotContext) : SnapshotContext :=
  mkSnapshotContext (snapshotName sc) (sc_complete sc) (Some (<[ CanonicalName (BaseTable.entity table) := w ]> (marks sc))).

(** The first transaction: the watermark, and its high end. *)
Definition initialize_watermark (t : SnapshotTask) (name : string) (sc : SnapshotContext) : M D client SnapshotContext :=
  match GetOrCreateWatermark (base_of (Table t)) sc with
  | Ret (tableWatermark, created) sc' =>
      if created || nextSnapshotFetch t then
        highWatermark ← ReadSnapshotHighWatermark rowDecoderFactory decode (base_of (Table t)) name;
        mret (set_mark (base_of (Table t)) (SetHighWatermark (default ∅ highWatermark) tableWatermark) sc')
      else mret sc'
  | Err e _ => fault (DbError e)
  | Crash c => panics c
  end.

(** FetchTableSnapshotBatch runs in a transaction of its own. *)
Definition runSnapshotFetchBatch (t : SnapshotTask) (name : string) : M D client unit :=
  SnapshotContextTransaction name false (fun sc =>
    w ← FetchTableSnapshotBatch rowDecoderFactory decode float_text time_text type_name visit fuel cursorName
          (base_of (Table t)) name snapshotBatchSize (fun lsn values => EnqueueTask (TableRead lsn (Table t) values))
          (GetWatermark (base_of (Table t)) sc);
    mret (set_mark (base_of (Table t)) w sc)).

(** The last transaction: the end of the table, or another request. *)
Definition finish_or_continue (t : SnapshotTask) (name : string) (sc : SnapshotContext) : M D client SnapshotContext :=
  match GetWatermark (base_of (Table t)) sc with
  | None => fault (DbError ("illegal watermark state for hypertable '" ++ table_name (Table t) ++ "'"))
  | Some w =>
      (if Complete w then EnqueueTask (TableSnapshotFinished name (Table t))
       else EnqueueSnapshot (mkSnapshotTask (Table t) None None (SnapshotName t) true)) ;;
      mret sc
  end.

Definition snapshotBaseTable (t : SnapshotTask) : M D client unit :=
  match SnapshotName t with
  | None => panics PanicNilDereference
  | Some name =>
      SnapshotContextTransaction name true (initialize_watermark t name) ;;
      runSnapshotFetchBatch t name ;;
      SnapshotContextTransaction name false (finish_or_continue t name)
  end.

Definition snapshotHypertable (t : SnapshotTask) : M D client unit := snapshotBaseTable t.

Definition snapshotVanillaTable (t : SnapshotTask) : M D client unit :=
  Snapshotter.publish publicationName (BaseTable.entity (base_of (Table t))) ;;
  snapshotBaseTable t.

(** The snapshot of a chunk, with its own part of the queue. *)
Definition snapshotChunk (t : SnapshotTask) (c : Chunk) : M D client unit := fun w =>
  let back l := set_tasks (tasks (SideChannel.client w) ++ (ChunkEvent (Table t) c <$> l))%list (SideChannel.client w) in
  match Snapshotter.snapshotChunk rowDecoderFactory decode fuel publicationName cursorName c (Xld t) snapshotBatchSize
          (mkWorld (db w) (connections w) []) with
  | Val a w' => Val a (mkWorld (db w') (connections w') (back (SideChannel.client w')))
  | Fault e w' => Fault e (mkWorld (db w') (connections w') (back (SideChannel.client w')))
  | Panics c => Panics c
  end.

Definition snapshot (t : SnapshotTask) : M D client unit :=
  match TaskChunk t, Table t with
  | Some c, _ => snapshotChunk t c
  | None, TVanilla _ => snapshotVanillaTable t
  | None, THyper _ => snapshotHypertable t
  end.

(** A round of the worker: the next request; an error ends the process. *)
Definition work : M D client unit :=
  l ← ask_client requests;
  match l with
  | [] => mret tt
  | t :: rest =>
      change (set_requests rest) ;;
      r ← caught (snapshot t);
      match r with inl _ => panics FatalExit | inr _ => mret tt end
  end.

Fixpoint rounds (n : nat) : M D client unit :=
  match n with O => mret tt | S n => work ;; rounds n end.

(** ** The transactions *)

Lemma transaction_run name create fn sc (w w1 : world D client) sc' :
  context (SideChannel.client w) = Some sc -> fn sc w = Val sc' w1 ->
  SnapshotContextTransaction name create fn w =
    Val tt (mkWorld (db w1) (connections w1) (set_context (Some sc') (SideChannel.client w1))).
Proof.
  intros Hc Hfn. unfold SnapshotContextTransaction, ask_client, mbind, M_bind. rewrite Hc, Hfn. done.
Qed.

Lemma transaction_create name fn (w w1 : world D client) sc' :
  context (SideChannel.client w) = None ->
  fn (NewSnapshotContext name)
    (mkWorld (db w) (connections w) (set_context (Some (NewSnapshotContext name)) (SideChannel.client w))) = Val sc' w1 ->
  SnapshotContextTransaction name true fn w =
    Val tt (mkWorld (db w1) (connections w1) (set_context (Some sc') (SideChannel.client w1))).
Proof.
  intros Hc Hfn. unfold SnapshotContextTransaction, ask_client, change, mbind, M_bind. by rewrite Hc, Hfn.
Qed.

(** ** The high watermark *)

Definition high_query (table : baseTable) (index : Index) : query R R :=
  queryTemplateSnapshotHighWatermark (AsSqlTuple index) (CanonicalName (BaseTable.entity table)) (AsSqlOrderBy true index).

(** The last key of the table, if there is a row. *)
Lemma high_watermark_row dec values (table : baseTable) name index (o : option R) (w : world D client) :
  (forall r, rowDecoderFactory r = inr dec) -> (forall r, decode dec r = inr (values r)) ->
  Cols.SnapshotIndex (BaseTable.columns table) = inr (Some index) ->
  (forall d, exists d', srv_connect d = (None, d')) -> (forall sql d, exists d', srv_exec sql d = (None, d')) ->
  (forall d, exists d', srv_query (high_query table index) d =
     (inr (mkAnswer (match o with Some r => [inr r] | None => [] end) None), d')) ->
  exists d, ReadSnapshotHighWatermark rowDecoderFactory decode table name w =
    Val (values <$> o) (mkWorld d (connections w) (SideChannel.client w)).
Proof.
  intros Hfactory Hdecode Hindex Hconnect Hex Hhigh.
  unfold ReadSnapshotHighWatermark. erewrite bind_val by (rewrite Hindex; reflexivity). cbv iota.
  assert (forall C sql d n (c : C), exists d', exec sql (mkWorld d n c) = Val tt (mkWorld d' n c)) as Hexec.
  { intros C sql d n c. destruct (Hex sql d) as [d' Hx]. exists d'. unfold exec. cbn [db]. by rewrite Hx. }
  unfold local, newSession. cbn [db connections SideChannel.client].
  destruct (Hconnect (db w)) as [d0 Hc].
  destruct (Hexec _ "BEGIN TRANSACTION ISOLATION LEVEL REPEATABLE READ"%string d0 (connections w + 1)
    (@None (gmap string value), SideChannel.client w)) as [d1 H1].
  destruct (Hexec _ ("SET TRANSACTION SNAPSHOT '" ++ name ++ "'")%string d1 (connections w + 1)
    (@None (gmap string value), SideChannel.client w)) as [d2 H2].
  destruct (Hhigh d2) as (d3 & Hq). eexists. unfold mbind at 1, M_bind at 1. rewrite Hc.
  rewrite (bind_val _ _ _ _ _ H1), (bind_val _ _ _ _ _ H2). unfold queryFunc, ask, mbind, M_bind. cbn [db].
  fold (high_query table index). rewrite Hq. destruct o as [r|]; cbn; [|do 3 f_equal; lia].
  unfold mbind, M_bind, from_db. rewrite Hfactory. cbn. rewrite Hdecode. cbn. do 3 f_equal. lia.
Qed.

(** A watermark that was not there. *)
Definition new_types (index : Index) : gmap string Z :=
  fold_left (fun m c => <[ Col.name c := Col.dataType c ]> m) (idx_columns index) ∅.

Lemma watermark_created (table : baseTable) index sc m :
  Cols.SnapshotIndex (BaseTable.columns table) = inr (Some index) -> GetWatermark table sc = None -> watermarks sc = Some m ->
  GetOrCreateWatermark table sc = Ret (mkWatermark false (new_types index) ∅ ∅, true)
    (mkSnapshotContext (snapshotName sc) (sc_complete sc)
       (Some (<[ CanonicalName (BaseTable.entity table) := mkWatermark false (new_types index) ∅ ∅ ]> m))).
Proof.
  intros Hindex Hw Hm. unfold GetOrCreateWatermark. go_unfold. unfold GetWatermark in Hw. rewrite Hw. unfold newWatermark.
  by rewrite Hindex, Hm.
Qed.

Lemma GetWatermark_set_mark table w sc : GetWatermark table (set_mark table w sc) = Some w.
Proof. unfold GetWatermark, set_mark, marks. cbn. by rewrite lookup_insert_eq. Qed.

(** ** A server with the table *)

Section Table.
Context (dec : Dec) (values : R -> gmap string value).
Context (Hfactory : forall r, rowDecoderFactory r = inr dec) (Hdecode : forall r, decode dec r = inr (values r)).
Context (t : table) (name : string) (index : Index) (lsn : Z) (init : list R) (last_row : R).
Context (Hindex : Cols.SnapshotIndex (BaseTable.columns (base_of t)) = inr (Some index)).

Abbreviation base := (base_of t).
Abbreviation rows := (init ++ [last_row])%list.
Definition key (r : R) : gmap string value := pick index (values r).
Definition limit : nat := Z.to_nat (i64 (snapshotBatchSize * 10)).

(** The rows behind a low watermark, in the order of the index. *)
Inductive remaining_rows : gmap string value -> list R -> Prop :=
| from_the_start : remaining_rows ∅ rows
| behind_row a r b : rows = (a ++ r :: b)%list -> remaining_rows (key r) b.

(** The exported snapshot holds the rows in the order of the index, which has a key
    for each of them; a query with a watermark gives the rows behind it. *)
Record table_server : Prop := {
  ts_connect : forall d, exists d', srv_connect d = (None, d');
  ts_exec : forall sql d, exists d', srv_exec sql d = (None, d');
  ts_published : forall d, exists d' b, srv_query (queryCheckTableExistsInPublication publicationName
      (SchemaName (BaseTable.entity base)) (TableName (BaseTable.entity base))) d = (inr (mkAnswer [inr b] None), d');
  ts_high : exists r, values r = key last_row /\ forall d, exists d',
      srv_query (high_query base index) d = (inr (mkAnswer [inr r] None), d');
  ts_batch : forall types lo rest, remaining_rows lo rest ->
    exists clause remaining, (forall C (w : world D C),
      batch_clause float_text time_text type_name index (mkWatermark false types (key last_row) lo) w = Val clause w) /\
      serves (cursor_query cursorName (BaseTable.entity base) clause index (i64 (snapshotBatchSize * 10))) cursorName lsn
        (take limit rest) remaining;
  ts_last : all_reached (key last_row) (visit (key last_row)) = inr true;
  ts_others : Forall (fun r => all_reached (key r) (visit (key last_row)) = inr false) init;
}.

Context (Hserver : table_server) (Hsize : 0 < snapshotBatchSize) (Hwidth : snapshotBatchSize * 10 < 2 ^ 63) (Hfuel : (limit < fuel * Z.to_nat snapshotBatchSize)%nat).

Definition request (next : bool) : SnapshotTask := mkSnapshotTask t None None (Some name) next.
Definition read_event (r : R) : event := TableRead lsn t (values r).

(** The state between two batches: [lo] is the key of the last row that was sent. *)
Definition at_mark (types : gmap string Z) (hi lo : gmap string value) (s : client) : Prop :=
  exists sc, context s = Some sc /\ GetWatermark base sc = Some (mkWatermark false types hi lo) /\ is_Some (watermarks sc).

Lemma limit_positive : (0 < limit)%nat.
Proof. unfold limit. rewrite wraps_small by (unfold in_s; lia). lia. Qed.

Lemma remaining_suffix lo rest : remaining_rows lo rest -> exists a, rows = (a ++ rest)%list.
Proof. intros [|a r b ->]; [by exists []|]. exists (a ++ [r])%list. by rewrite <- app_assoc. Qed.

Lemma high_read (w : world D client) :
  exists d, ReadSnapshotHighWatermark rowDecoderFactory decode base name w =
    Val (Some (key last_row)) (mkWorld d (connections w) (SideChannel.client w)).
Proof.
  destruct (ts_high Hserver) as (r & Hv & Hq). rewrite <- Hv.
  eapply (high_watermark_row dec values base name index (Some r)); eauto using ts_connect, ts_exec.
Qed.

(** A table that is no hypertable is published first. *)
Lemma table_published (w : world D client) :
  exists d, Snapshotter.publish publicationName (BaseTable.entity base) w = Val tt (mkWorld d (connections w) (SideChannel.client w)).
Proof.
  unfold Snapshotter.publish, ExistsTableInPublication, default_row, caught, AttachTablesToPublication, newSession, queryRow, ask, exec,
    mbind, M_bind.
  destruct (ts_connect Hserver (db w)) as [d1 ->]. cbn [db connections SideChannel.client].
  destruct (ts_published Hserver d1) as (d2 & b & ->). cbn. destruct b; [eexists; do 2 f_equal; lia|]. cbn.
  destruct (ts_connect Hserver (srv_close d2)) as [d3 ->]. cbn.
  match goal with |- context [srv_exec ?sql ?d] => destruct (ts_exec Hserver sql d) as [d4 ->] end.
  cbn. eexists. do 2 f_equal. lia.
Qed.

Lemma snapshot_base next (w : world D client) :
  exists d, snapshot (request next) w = snapshotBaseTable (request next) (mkWorld d (connections w) (SideChannel.client w)).
Proof.
  unfold snapshot, snapshotVanillaTable, snapshotHypertable. cbn [TaskChunk Table request]. destruct t as [h|v] eqn:Et.
  - exists (db w). by destruct w.
  - rewrite <- Et. destruct (table_published w) as [d Hd]. exists d. by rewrite (bind_val _ _ _ _ _ Hd).
Qed.

(** ** The beginning *)

(** [s'] is [s] with another context. *)
Definition recontext (s : client) (c : SnapshotContext) : client := mkClient (Some c) (tasks s) (requests s).

(** A watermark that was there. *)
Lemma begin_again types hi lo (w : world D client) :
  at_mark types hi lo (SideChannel.client w) ->
  exists d sc, SnapshotContextTransaction name true (initialize_watermark (request true) name) w =
      Val tt (mkWorld d (connections w) (recontext (SideChannel.client w) sc)) /\
    GetWatermark base sc = Some (mkWatermark false types (key last_row) lo) /\ is_Some (watermarks sc).
Proof.
  intros (sc & Hc & Hw & Hsc). destruct (high_read w) as [d Hhigh].
  assert (initialize_watermark (request true) name sc w =
    Val (set_mark base (SetHighWatermark (key last_row) (mkWatermark false types hi lo)) sc)
      (mkWorld d (connections w) (SideChannel.client w))) as Hrun.
  { unfold initialize_watermark. cbn [Table request].
    assert (GetOrCreateWatermark base sc = Ret (mkWatermark false types hi lo, false) sc) as ->.
    { unfold GetOrCreateWatermark. go_unfold. unfold GetWatermark in Hw. by rewrite Hw. }
    cbn [orb nextSnapshotFetch request]. by rewrite (bind_val _ _ _ _ _ Hhigh). }
  exists d. eexists. split; [by rewrite (transaction_run _ _ _ _ _ _ _ Hc Hrun)|]. split; [apply GetWatermark_set_mark|].
  by eexists.
Qed.

(** A new watermark. *)
Definition untouched (s : client) : Prop :=
  match context s with None => True | Some sc => GetWatermark base sc = None /\ is_Some (watermarks sc) end.

Lemma begin_new sc next (w : world D client) :
  GetWatermark base sc = None -> is_Some (watermarks sc) ->
  exists d sc', initialize_watermark (request next) name sc w = Val sc' (mkWorld d (connections w) (SideChannel.client w)) /\
    GetWatermark base sc' = Some (mkWatermark false (new_types index) (key last_row) ∅) /\ is_Some (watermarks sc').
Proof.
  intros Hw [m Hm]. destruct (high_read w) as [d Hhigh]. exists d. unfold initialize_watermark. cbn [Table request].
  rewrite (watermark_created _ _ _ _ Hindex Hw Hm).
  cbn [orb]. eexists. split; [by rewrite (bind_val _ _ _ _ _ Hhigh)|]. split; [apply GetWatermark_set_mark|by eexists].
Qed.

Lemma begin_first (w : world D client) :
  untouched (SideChannel.client w) ->
  exists d sc, SnapshotContextTransaction name true (initialize_watermark (request false) name) w =
      Val tt (mkWorld d (connections w) (recontext (SideChannel.client w) sc)) /\
    GetWatermark base sc = Some (mkWatermark false (new_types index) (key last_row) ∅) /\ is_Some (watermarks sc).
Proof.
  unfold untouched. destruct (context (SideChannel.client w)) as [sc|] eqn:Hc; intros Hu.
  - destruct Hu as [Hw Hm]. destruct (begin_new sc false w Hw Hm) as (d & sc' & Hrun & Hw' & Hm').
    exists d, sc'. by rewrite (transaction_run _ _ _ _ _ _ _ Hc Hrun).
  - set (w1 := mkWorld (db w) (connections w) (set_context (Some (NewSnapshotContext name)) (SideChannel.client w))).
    destruct (begin_new (NewSnapshotContext name) false w1) as (d & sc' & Hrun & Hw' & Hm');
      [unfold GetWatermark, marks; cbn; apply lookup_empty|by eexists|].
    exists d, sc'. split; [|done]. by rewrite (transaction_create _ _ _ _ _ Hc Hrun).
Qed.

(** ** A batch *)

Lemma fold_tasks (f : R -> event) l (s : client) :
  fold_left (fun s r => set_tasks (tasks s ++ [f r])%list s) l s = set_tasks (tasks s ++ (f <$> l))%list s.
Proof.
  revert s. induction l as [|r l IH]; intros s; cbn [fold_left].
  - cbn. rewrite app_nil_r. by destruct s.
  - rewrite IH. unfold set_tasks. cbn. by rewrite <- app_assoc.
Qed.

Lemma keys_compared l : l ⊆ rows -> Forall (fun r => is_inr (all_reached (pick index (values r)) (visit (key last_row))) = true) l.
Proof.
  intros Hl. apply Forall_forall. intros r Hr. apply Hl, elem_of_app in Hr as [Hr|Hr].
  - pose proof (ts_others Hserver) as Ho. rewrite Forall_forall in Ho. specialize (Ho r Hr). fold (key r). by rewrite Ho.
  - apply list_elem_of_singleton in Hr as ->. fold (key last_row). by rewrite (ts_last Hserver).
Qed.

(** The watermark after a batch. *)
Definition advanced (l : list R) (w : Watermark) : Watermark :=
  match last l with None => w | Some r => moved visit index (values r) w end.

Lemma batch_sent next types lo rest (w : world D client) sc :
  context (SideChannel.client w) = Some sc -> remaining_rows lo rest ->
  GetWatermark base sc = Some (mkWatermark false types (key last_row) lo) ->
  exists d, runSnapshotFetchBatch (request next) name w =
    Val tt (mkWorld d (connections w)
      (mkClient (Some (set_mark base (advanced (take limit rest) (mkWatermark false types (key last_row) lo)) sc))
         (tasks (SideChannel.client w) ++ (read_event <$> take limit rest))%list (requests (SideChannel.client w)))).
Proof.
  intros Hc Hrest Hw. destruct (ts_batch Hserver types lo rest Hrest) as (clause & remaining & Hclause & Hserves).
  destruct (remaining_suffix lo rest Hrest) as [a Ha].
  destruct (fetch_batch_delivers rowDecoderFactory decode float_text time_text type_name visit dec values fuel cursorName base name
    snapshotBatchSize (fun lsn values => EnqueueTask (TableRead lsn t values))
    (fun lsn values s => set_tasks (tasks s ++ [TableRead lsn t values])%list s)
    (mkWatermark false types (key last_row) lo) index clause lsn (take limit rest) remaining w) as [d Hrun]; try done.
  - apply keys_compared. rewrite Ha. intros r Hr. apply elem_of_app. right. by eapply subseteq_take.
  - rewrite length_take. lia.
  - exists d. unfold runSnapshotFetchBatch. cbn [Table request].
    erewrite transaction_run; [|exact Hc|rewrite Hw; by rewrite (bind_val _ _ _ _ _ Hrun)]. cbn [db connections SideChannel.client].
    rewrite (fold_tasks (fun r => TableRead lsn t (values r))). done.
Qed.

Lemma batch_split a rest :
  rows = (a ++ rest)%list -> rest <> [] ->
  ((length rest <= limit)%nat /\ last (take limit rest) = Some last_row) \/
  ((limit < length rest)%nat /\ exists r, last (take limit rest) = Some r /\ r ∈ init /\ remaining_rows (key r) (drop limit rest)).
Proof.
  intros Ha Hrest. destruct (decide (length rest <= limit)%nat) as [Hle|Hgt]; [left|right]; (split; [lia|]).
  - rewrite take_ge by done. assert (last rows = Some last_row) as Hl by apply last_snoc.
    rewrite Ha, last_app in Hl. destruct (last rest) eqn:E; [done|]. by apply last_None in E.
  - pose proof limit_positive as Hpos. destruct (last (take limit rest)) as [r|] eqn:E.
    2:{ apply last_None, (f_equal length) in E. rewrite length_take in E. cbn in E. lia. }
    exists r. split; [done|]. apply last_Some in E as [b Hb].
    assert (rows = ((a ++ b) ++ r :: drop limit rest)%list) as Hsplit.
    { rewrite Ha, <- (take_drop limit rest) at 1. rewrite Hb, <- !app_assoc. done. }
    split; [|by apply (behind_row (a ++ b))].
    assert (exists c, drop limit rest = (c ++ [last_row])%list) as [c Hc].
    { destruct (@exists_last _ (drop limit rest)) as (c & x & Hd).
      - intros Hd. apply (f_equal length) in Hd. rewrite length_drop in Hd. cbn in Hd. lia.
      - exists c. rewrite Hd in Hsplit |- *. rewrite app_comm_cons, app_assoc in Hsplit. by apply app_inj_tail in Hsplit as [_ <-]. }
    rewrite Hc, app_comm_cons, app_assoc in Hsplit. apply app_inj_tail in Hsplit as [-> _]. set_solver.
Qed.

(** ** Rounds *)

(** The request of the table waits alone, and [rest] is what is left to send. *)
Inductive ready : list R -> client -> Prop :=
| ready_first s : untouched s -> requests s = [request false] -> ready rows s
| ready_next types hi lo rest s :
    at_mark types hi lo s -> remaining_rows lo rest -> rest <> [] -> requests s = [request true] -> ready rest s.

(** Nothing waits, and the table's watermark is complete at the last row. *)
Definition finished (s : client) : Prop :=
  requests s = [] /\ exists sc types, context s = Some sc /\
    GetWatermark base sc = Some (mkWatermark true types (key last_row) (key last_row)).

Lemma begin_ready rest s :
  ready rest s ->
  exists next types lo, requests s = [request next] /\ remaining_rows lo rest /\ rest <> [] /\
    forall d0 n, exists d sc,
      SnapshotContextTransaction name true (initialize_watermark (request next) name) (mkWorld d0 n (set_requests [] s)) =
        Val tt (mkWorld d n (mkClient (Some sc) (tasks s) [])) /\
      GetWatermark base sc = Some (mkWatermark false types (key last_row) lo).
Proof.
  intros [s' Hu Hq|types hi lo rest' s' Hm Hrem Hne Hq].
  - exists false, (new_types index), ∅. split; [done|]. split; [constructor|]. split; [by destruct init|]. intros d0 n.
    destruct (begin_first (mkWorld d0 n (set_requests [] s'))) as (d & sc & Hrun & Hw & _); [exact Hu|]. by exists d, sc.
  - exists true, types, lo. repeat (split; [done|]). intros d0 n.
    destruct (begin_again types hi lo (mkWorld d0 n (set_requests [] s')) Hm) as (d & sc & Hrun & Hw & _). by exists d, sc.
Qed.

Lemma finish_run next sc wm (w : world D client) :
  context (SideChannel.client w) = Some sc -> requests (SideChannel.client w) = [] -> GetWatermark base sc = Some wm ->
  SnapshotContextTransaction name false (finish_or_continue (request next) name) w =
    Val tt (mkWorld (db w) (connections w) (if Complete wm
      then mkClient (Some sc) (tasks (SideChannel.client w) ++ [TableSnapshotFinished name t])%list []
      else mkClient (Some sc) (tasks (SideChannel.client w)) [request true])).
Proof.
  intros Hc Hq Hw. destruct w as [d n [c ts q]]. cbn in *. subst.
  unfold SnapshotContextTransaction, finish_or_continue, ask_client, mbind, M_bind. cbn [SideChannel.client context Table request].
  rewrite Hw. by destruct (Complete wm).
Qed.

Lemma advanced_last types lo l r :
  last l = Some r -> advanced l (mkWatermark false types (key last_row) lo) =
    mkWatermark (match all_reached (key r) (visit (key last_row)) with inr b => b | inl _ => false end) types (key last_row) (key r).
Proof. intros Hl. unfold advanced. by rewrite Hl. Qed.

(** A round sends a batch, and the table is finished or ready for what is left. *)
Lemma round_ready rest (w : world D client) :
  ready rest (SideChannel.client w) ->
  exists d s, work w = Val tt (mkWorld d (connections w) s) /\
    if decide (length rest <= limit)%nat
    then tasks s = (tasks (SideChannel.client w) ++ (read_event <$> rest) ++ [TableSnapshotFinished name t])%list /\ finished s
    else tasks s = (tasks (SideChannel.client w) ++ (read_event <$> take limit rest))%list /\ ready (drop limit rest) s.
Proof.
  intros Hr. destruct (begin_ready rest _ Hr) as (next & types & lo & Hq & Hrem & Hne & Hbegin).
  destruct (snapshot_base next (mkWorld (db w) (connections w) (set_requests [] (SideChannel.client w)))) as [d0 H0].
  cbn [connections SideChannel.client] in H0. destruct (Hbegin d0 (connections w)) as (d1 & sc & H1 & Hw).
  destruct (remaining_suffix lo rest Hrem) as [a Ha].
  set (w1 := mkWorld d1 (connections w) (mkClient (Some sc) (tasks (SideChannel.client w)) [])) in H1.
  destruct (batch_sent next types lo rest w1 sc eq_refl Hrem Hw) as [d2 H2].
  set (wm := advanced (take limit rest) (mkWatermark false types (key last_row) lo)) in H2.
  match type of H2 with _ = Val tt ?x => set (w2 := x) in H2 end.
  pose proof (finish_run next (set_mark base wm sc) wm w2 eq_refl eq_refl (GetWatermark_set_mark base wm sc)) as H3.
  exists d2. eexists. split.
  { unfold work. erewrite bind_val by reflexivity. rewrite Hq. erewrite bind_val by reflexivity.
    erewrite bind_val; [|unfold caught; rewrite H0; unfold snapshotBaseTable; cbn [SnapshotName request]; rewrite (bind_val _ _ _ _ _ H1), (bind_val _ _ _ _ _ H2), H3; reflexivity].
    reflexivity. }
  destruct (batch_split a rest Ha Hne) as [[Hle Hlast]|[Hgt (r & Hlast & Hin & Hrem')]];
    pose proof (advanced_last types lo _ _ Hlast) as Hwm; fold wm in Hwm; rewrite Hwm.
  - rewrite decide_True by done. rewrite (ts_last Hserver). cbn. rewrite take_ge by done. rewrite <- app_assoc.
    split; [done|]. split; [done|]. do 2 eexists. split; [done|]. apply GetWatermark_set_mark.
  - rewrite decide_False by lia. pose proof (ts_others Hserver) as Ho. rewrite Forall_forall in Ho. rewrite (Ho r Hin). cbn.
    split; [done|]. eapply (ready_next types (key last_row) (key r)); [|done| |done].
    + eexists. split; [done|]. split; [apply GetWatermark_set_mark|by eexists].
    + intros Hd. apply (f_equal length) in Hd. rewrite length_drop in Hd. cbn in Hd. lia.
Qed.

Lemma rounds_finished n (w : world D client) : finished (SideChannel.client w) -> rounds n w = Val tt w.
Proof.
  intros Hf. induction n as [|n IH]; [done|]. cbn [rounds]. erewrite bind_val; [exact IH|].
  unfold work. erewrite bind_val by reflexivity. destruct Hf as [-> _]. done.
Qed.

Lemma rounds_ready n rest (w : world D client) :
  ready rest (SideChannel.client w) -> (length rest <= n * limit)%nat ->
  exists d s, rounds n w = Val tt (mkWorld d (connections w) s) /\
    tasks s = (tasks (SideChannel.client w) ++ (read_event <$> rest) ++ [TableSnapshotFinished name t])%list /\ finished s.
Proof.
  revert rest w. induction n as [|n IH]; intros rest w Hr Hn.
  - destruct (begin_ready rest _ Hr) as (? & ? & ? & _ & _ & Hne & _). destruct rest; [done|cbn in Hn; lia].
  - destruct (round_ready rest w Hr) as (d & s & Hrun & Hs). cbn [rounds]. rewrite (bind_val _ _ _ _ _ Hrun).
    case_decide as Hle.
    + destruct Hs as [Ht Hf]. exists d, s. by rewrite rounds_finished.
    + destruct Hs as [Ht Hf]. destruct (IH (drop limit rest) (mkWorld d (connections w) s) Hf) as (d' & s' & Hrun' & Ht' & Hf').
      { rewrite length_drop. lia. }
      exists d', s'. split; [done|]. split; [|done]. rewrite Ht'. cbn [SideChannel.client]. rewrite Ht, <- app_assoc. f_equal.
      rewrite app_assoc, <- fmap_app, take_drop. done.
Qed.

Lemma rows_sent n (w : world D client) :
  untouched (SideChannel.client w) -> requests (SideChannel.client w) = [request false] -> (length rows <= n * limit)%nat ->
  exists d s, rounds n w = Val tt (mkWorld d (connections w) s) /\
    tasks s = (tasks (SideChannel.client w) ++ (read_event <$> rows) ++ [TableSnapshotFinished name t])%list /\ finished s.
Proof. intros Hu Hq. apply rounds_ready. by constructor. Qed.
End Table.

(** ** A server that understands the statements *)

Lemma filter_keep {A} (P : A -> Prop) `{forall x, Decision (P x)} l : Forall P l -> filter P l = l.
Proof. induction 1 as [|x l Hx _ IH]; [done|]. rewrite filter_cons_True by done. by rewrite IH. Qed.

Lemma filter_drop {A} (P : A -> Prop) `{forall x, Decision (P x)} l : Forall (fun x => ~ P x) l -> filter P l = [].
Proof. induction 1 as [|x l Hx _ IH]; [done|]. by rewrite filter_cons_False. Qed.

(** A comparison of PostgreSQL. *)
Inductive operator : Type := GT | GE | LT | LE.

Definition operator_text (o : operator) : string :=
  match o with GT => ">" | GE => ">=" | LT => "<" | LE => "<=" end.

Definition operator_holds (o : operator) (a b : Z) : Prop :=
  match o with GT => b < a | GE => b <= a | LT => a < b | LE => a <= b end.

#[local] Instance operator_holds_dec o a b : Decision (operator_holds o a b).
Proof. destruct o; cbn; apply _. Defined.

Definition direction (desc : bool) : string := if desc then "DESC" else "ASC".

Section Sql.
Context (dec : Dec) (values : R -> gmap string value).
Context (Hfactory : forall r, rowDecoderFactory r = inr dec) (Hdecode : forall r, decode dec r = inr (values r)).
Context (t : table) (name : string) (index : Index) (lsn : Z) (init : list R) (last_row : R).
Context (Hindex : Cols.SnapshotIndex (BaseTable.columns (base_of t)) = inr (Some index)).
(** The index has one column.  [value_of] is the key of a row and [literal_of] how it is written; [rank] is
    the place of the key in the order of the column's type. *)
Context (column : Column) (Hcolumn : idx_columns index = [column]).
Context (value_of : R -> value) (literal_of : R -> string) (rank : R -> Z).

Abbreviation base := (base_of t).
Abbreviation rows := (init ++ [last_row])%list.

(** The rows in the order of an ORDER BY. *)
Definition ordered (desc : bool) : list R := if desc then reverse rows else rows.

(** A bound of the WHERE clause: a comparison with the key of a row. *)
Definition bound_text (b : operator * R) : string :=
  (("(" ++ Col.name column ++ ")") ++ " " ++ operator_text (fst b) ++ " (" ++ literal_of (snd b) ++ ")")%string.
Definition within (b : operator * R) (r : R) : Prop := operator_holds (fst b) (rank r) (rank (snd b)).

#[local] Instance within_dec b r : Decision (within b r).
Proof. apply operator_holds_dec. Defined.

Definition condition_text (lower : option (operator * R)) (upper : operator * R) : string :=
  match lower with
  | Some b => (bound_text b ++ " AND " ++ bound_text upper)%string
  | None => bound_text upper
  end.

Definition satisfies (lower : option (operator * R)) (upper : operator * R) (r : R) : Prop :=
  (match lower with Some b => within b r | None => True end) /\ within upper r.

#[local] Instance satisfies_dec lower upper r : Decision (satisfies lower upper r).
Proof. unfold satisfies. destruct lower; apply _. Defined.

(** A cursor over the rows within bounds, in the order of the key, ten times the batch
    size of them. *)
Definition cursor_text (lower : option (operator * R)) (upper : operator * R) (desc : bool) : string :=
  ("DECLARE " ++ cursorName ++ " SCROLL CURSOR FOR SELECT * FROM " ++ CanonicalName (BaseTable.entity base) ++
   " WHERE " ++ condition_text lower upper ++ " ORDER BY " ++ (Col.name column ++ " " ++ direction desc) ++
   " LIMIT " ++ pretty (snapshotBatchSize * 10))%string.

(** PostgreSQL on the statements of a snapshot, whatever operators and directions they
    have: a cursor gives the rows that satisfy the condition, in order; the first key in
    an order is that of the first row in this order. *)
Record sql_server : Prop := {
  sq_connect : forall d, exists d', srv_connect d = (None, d');
  sq_exec : forall sql d, exists d', srv_exec sql d = (None, d');
  sq_published : forall d, exists d' b, srv_query (queryCheckTableExistsInPublication publicationName
      (SchemaName (BaseTable.entity base)) (TableName (BaseTable.entity base))) d = (inr (mkAnswer [inr b] None), d');
  sq_first : forall desc r, head (ordered desc) = Some r ->
    exists row, values row = {[ Col.name column := value_of r ]} /\ forall d, exists d',
      srv_query (queryTemplateSnapshotHighWatermark ("(" ++ Col.name column ++ ")") (CanonicalName (BaseTable.entity base))
        (Col.name column ++ " " ++ direction desc)) d = (inr (mkAnswer [inr row] None), d');
  sq_cursor : forall lower upper desc,
    match lower with Some b => snd b ∈ rows | None => True end -> snd upper ∈ rows ->
    exists remaining, serves (cursor_text lower upper desc) cursorName lsn
      (take (Z.to_nat (snapshotBatchSize * 10)) (filter (satisfies lower upper) (ordered desc))) remaining;
}.

(** The rows: sorted by their keys, which are all different, can be written into a
    statement, and can be compared in Go. *)
Record keyed_rows : Prop := {
  kr_value : forall r, r ∈ rows -> values r !! Col.name column = Some (value_of r);
  kr_literal : forall r, r ∈ rows -> param2value float_text time_text type_name (value_of r) column = inr (literal_of r);
  kr_sorted : StronglySorted (fun a b => rank a < rank b) rows;
  kr_compared : forall r, r ∈ rows -> any_eqb (value_of last_row) (value_of r) = inr (rank last_row =? rank r);
  kr_visit : forall m, visit m ≡ₚ map_to_list m;
}.

Context (Hserver : sql_server) (Hrows : keyed_rows) (Hsize : 0 < snapshotBatchSize) (Hwidth : snapshotBatchSize * 10 < 2 ^ 63).

Lemma batch_limit : i64 (snapshotBatchSize * 10) = snapshotBatchSize * 10.
Proof. apply wraps_small; unfold in_s; lia. Qed.

Lemma key_single r : r ∈ rows -> key values index r = {[ Col.name column := value_of r ]}.
Proof.
  intros Hr. apply map_eq. intros k. unfold key, pick. rewrite map_lookup_filter, Hcolumn. cbn.
  destruct (decide (k = Col.name column)) as [->|Hne].
  - rewrite (kr_value Hrows r Hr), lookup_singleton_eq. cbn. rewrite option_guard_True by set_solver. done.
  - rewrite lookup_singleton_ne by done. destruct (values r !! k); [|done]. cbn. by rewrite option_guard_False by set_solver.
Qed.

Lemma last_in : last_row ∈ rows.
Proof. apply elem_of_app. right. by left. Qed.

(** A key as the parameter of a clause. *)
Lemma clause_text comparison r :
  r ∈ rows ->
  whereClause float_text time_text type_name comparison {[ Col.name column := value_of r ]} index =
    inr (Some (("(" ++ Col.name column ++ ")") ++ " " ++ comparison ++ " (" ++ literal_of r ++ ")")%string).
Proof.
  intros Hr. unfold whereClause, AsSqlTuple. rewrite Hcolumn. cbn [comparisonList]. rewrite lookup_singleton_eq, (kr_literal Hrows r Hr).
  done.
Qed.

Lemma sorted_split a r b :
  rows = (a ++ r :: b)%list ->
  Forall (fun x => rank x < rank r) a /\ Forall (fun x => rank r < rank x) b.
Proof.
  intros He. pose proof (kr_sorted Hrows) as Hs. rewrite He in Hs. clear He. induction a as [|x a IH]; cbn in Hs.
  - split; [constructor|]. by apply StronglySorted_inv in Hs as [_ Hs].
  - apply StronglySorted_inv in Hs as [Hs Hx]. destruct (IH Hs) as [H1' H2']. split; [|done]. constructor; [|done].
    apply Forall_app in Hx as [_ Hx]. by apply Forall_cons in Hx as [Hx _].
Qed.

Lemma all_below r : r ∈ rows -> rank r <= rank last_row.
Proof.
  intros Hr. destruct (sorted_split init last_row [] eq_refl) as [Hi _]. rewrite Forall_forall in Hi.
  apply elem_of_app in Hr as [Hr|Hr]; [specialize (Hi r Hr); lia|]. apply list_elem_of_singleton in Hr as ->. lia.
Qed.

(** From the start: every row is within the bound. *)
Lemma start_rows : filter (satisfies None (LE, last_row)) rows = rows.
Proof.
  apply filter_keep. apply Forall_forall. intros r Hr. split; [done|]. cbn. by apply all_below.
Qed.

(** Behind a row: the rows after it. *)
Lemma next_rows a r b : rows = (a ++ r :: b)%list -> filter (satisfies (Some (GT, r)) (LE, last_row)) rows = b.
Proof.
  intros He. destruct (sorted_split a r b He) as [Ha Hb]. rewrite Forall_forall in Ha, Hb. rewrite He, filter_app.
  assert (forall x, x ∈ a -> ~ satisfies (Some (GT, r)) (LE, last_row) x) as Hout.
  { intros x Hx [Hs _]. cbn in Hs. specialize (Ha x Hx). lia. }
  rewrite (filter_drop _ a) by (apply Forall_forall; exact Hout). cbn [app].
  rewrite filter_cons_False by (intros [Hs _]; cbn in Hs; lia). apply filter_keep. apply Forall_forall. intros x Hx.
  split; cbn; [by apply Hb|]. apply all_below. rewrite He. apply elem_of_app. right. by right.
Qed.

Lemma reached r : r ∈ rows -> all_reached (key values index r) (visit (key values index last_row)) = inr (rank last_row =? rank r).
Proof.
  intros Hr. rewrite !key_single by (done || apply last_in).
  assert (visit {[ Col.name column := value_of last_row ]} = [(Col.name column, value_of last_row)]) as ->.
  { pose proof (kr_visit Hrows {[ Col.name column := value_of last_row ]}) as Hv. rewrite map_to_list_singleton in Hv.
    by apply Permutation_singleton_r in Hv. }
  cbn. rewrite lookup_singleton_eq, (kr_compared Hrows r Hr). by destruct (_ =? _).
Qed.

Lemma sql_table_server : table_server values t index lsn init last_row.
Proof.
  split; [apply (sq_connect Hserver)|apply (sq_exec Hserver)|apply (sq_published Hserver)| | | |].
  - destruct (sq_first Hserver true last_row) as (row & Hv & Hq); [unfold ordered; by rewrite reverse_snoc|].
    exists row. split; [by rewrite Hv, key_single by apply last_in|]. intros d. destruct (Hq d) as [d' Hd]. exists d'.
    unfold high_query, AsSqlTuple, AsSqlOrderBy. rewrite Hcolumn. exact Hd.
  - intros types lo rest Hrest.
    assert (forall lower upper, cursor_query cursorName (BaseTable.entity base) (condition_text lower upper) index
      (i64 (snapshotBatchSize * 10)) = cursor_text lower upper false) as Htext.
    { intros lower upper. unfold cursor_query, cursor_text, AsSqlOrderBy. by rewrite batch_limit, Hcolumn. }
    unfold limit. rewrite (key_single last_row last_in). destruct Hrest as [|a r b Hr].
    + destruct (sq_cursor Hserver None (LE, last_row) false I last_in) as [remaining Hs]. cbn [ordered] in Hs. rewrite start_rows in Hs.
      eexists (bound_text (LE, last_row)), remaining. split.
      * intros C w. unfold batch_clause, where_LE, WhereTupleLE, mbind, M_bind. cbn [high].
        rewrite clause_text by apply last_in. done.
      * rewrite <- (Htext None (LE, last_row)) in Hs. rewrite batch_limit in Hs |- *. exact Hs.
    + assert (r ∈ rows) as Hin by (rewrite Hr; apply elem_of_app; right; by left). rewrite (key_single r Hin).
      destruct (sq_cursor Hserver (Some (GT, r)) (LE, last_row) false Hin last_in) as [remaining Hs]. cbn [ordered] in Hs.
      rewrite (next_rows a r b Hr) in Hs.
      eexists (bound_text (GT, r) ++ " AND " ++ bound_text (LE, last_row))%string, remaining. split.
      * intros C w. unfold batch_clause, where_LE, where_GT, WhereTupleLE, WhereTupleGT, mbind, M_bind, HasValidLowWatermark. cbn [high low].
        rewrite map_size_singleton. rewrite !clause_text by (done || apply last_in). done.
      * rewrite <- (Htext (Some (GT, r)) (LE, last_row)) in Hs. rewrite batch_limit in Hs |- *. exact Hs.
  - rewrite reached by apply last_in. by rewrite Z.eqb_refl.
  - apply Forall_forall. intros r Hr. rewrite reached by (apply elem_of_app; by left).
    destruct (sorted_split init last_row [] eq_refl) as [Hi _]. rewrite Forall_forall in Hi. specialize (Hi r Hr).
    f_equal. apply Z.eqb_neq. lia.
Qed.

End Sql.

(** ** Where the worker ends the process *)

Lemma bind_fault {A B} (m : M D client A) (k : A -> M D client B) w e w' : m w = Fault e w' -> (m ≫= k) w = Fault e w'.
Proof. unfold mbind, M_bind. by intros ->. Qed.

Lemma work_fault t rest (w : world D client) e w' :
  requests (SideChannel.client w) = t :: rest ->
  snapshot t (mkWorld (db w) (connections w) (set_requests rest (SideChannel.client w))) = Fault e w' ->
  work w = Panics FatalExit.
Proof.
  intros Hq Hs. unfold work. erewrite bind_val by reflexivity. rewrite Hq. erewrite bind_val by reflexivity.
  unfold mbind at 1, M_bind at 1, caught. by rewrite Hs.
Qed.

Lemma work_panic t rest (w : world D client) c :
  requests (SideChannel.client w) = t :: rest ->
  snapshot t (mkWorld (db w) (connections w) (set_requests rest (SideChannel.client w))) = Panics c ->
  work w = Panics c.
Proof.
  intros Hq Hs. unfold work. erewrite bind_val by reflexivity. rewrite Hq. erewrite bind_val by reflexivity.
  unfold mbind at 1, M_bind at 1, caught. by rewrite Hs.
Qed.

Lemma bind_panic {A B} (m : M D client A) (k : A -> M D client B) w c : m w = Panics c -> (m ≫= k) w = Panics c.
Proof. unfold mbind, M_bind. by intros ->. Qed.

(** If the statement of the first batch cannot be built from the high watermark, the
    process ends. *)
Lemma first_batch_unbuildable dec values (h : Hypertable) name index (o : option R) (w : world D client) :
  (forall r, rowDecoderFactory r = inr dec) -> (forall r, decode dec r = inr (values r)) ->
  Cols.SnapshotIndex (BaseTable.columns (Hyper.table h)) = inr (Some index) ->
  (forall d, exists d', srv_connect d = (None, d')) -> (forall sql d, exists d', srv_exec sql d = (None, d')) ->
  (forall d, exists d', srv_query (high_query (Hyper.table h) index) d =
     (inr (mkAnswer (match o with Some r => [inr r] | None => [] end) None), d')) ->
  (forall s, where_LE float_text time_text type_name (default ∅ (values <$> o)) index <> inr (Some s)) ->
  context (SideChannel.client w) = None ->
  requests (SideChannel.client w) = [mkSnapshotTask (THyper h) None None (Some name) false] ->
  work w = Panics (match where_LE float_text time_text type_name (default ∅ (values <$> o)) index with
    inl c => c | inr _ => FatalExit end).
Proof.
  intros Hf Hd Hi Hc He Hq Hno Hctx Hreq. set (t := mkSnapshotTask (THyper h) None None (Some name) false) in *.
  destruct w as [d n [c l q]]. cbn in Hctx, Hreq. subst c q.
  set (w0 := mkWorld d n (mkClient (Some (NewSnapshotContext name)) l [])).
  destruct (high_watermark_row dec values (Hyper.table h) name index o w0 Hf Hd Hi Hc He Hq) as [d1 Hhigh].
  assert (exists mark sc, high mark = default ∅ (values <$> o) /\ GetWatermark (Hyper.table h) sc = Some mark /\
    initialize_watermark t name (NewSnapshotContext name) w0 = Val sc (mkWorld d1 n (SideChannel.client w0))) as (mark & sc & Hm & Hw & Hrun).
  { unfold initialize_watermark. cbn [t Table base_of].
    rewrite (watermark_created (Hyper.table h) index (NewSnapshotContext name) ∅ Hi (lookup_empty _) eq_refl). cbn [orb]. do 2 eexists.
    split; [|split; [|by rewrite (bind_val _ _ _ _ _ Hhigh)]]; [|apply GetWatermark_set_mark]. done. }
  assert (forall w1, context (SideChannel.client w1) = Some sc -> runSnapshotFetchBatch t name w1 =
    match where_LE float_text time_text type_name (default ∅ (values <$> o)) index with
    | inl c => Panics c
    | inr _ => Fault (DbError "failed encoding watermark") w1
    end) as Hbatch.
  { intros w1 Hw1. unfold runSnapshotFetchBatch, SnapshotContextTransaction, ask_client, mbind, M_bind. rewrite Hw1.
    cbn [t Table base_of]. rewrite Hw. unfold FetchTableSnapshotBatch, batch_clause, mbind, M_bind. rewrite Hi. cbn. rewrite Hm.
    destruct (where_LE _ _ _ _ _) as [c|[s|]]; [done| |done]. by destruct (Hno s). }
  match goal with |- work ?w = _ => assert (exists w1, SnapshotContextTransaction name true (initialize_watermark t name)
    (mkWorld (db w) (connections w) (set_requests [] (SideChannel.client w))) = Val tt w1 /\ context (SideChannel.client w1) = Some sc)
    as (w1 & H1 & Hc1) by (eexists; split; [eapply transaction_create; [reflexivity|exact Hrun]|done]) end.
  specialize (Hbatch w1 Hc1).
  destruct (where_LE _ _ _ _ _) as [c|s]; [apply (work_panic t []); [done|]|eapply (work_fault t []); [done|]];
    unfold snapshot, snapshotHypertable, snapshotBaseTable; cbn [t TaskChunk Table SnapshotName];
    rewrite (bind_val _ _ _ _ _ H1); [by apply bind_panic|by apply bind_fault].
Qed.

Lemma no_comparison (params : gmap string value) (columns : list Column) x ok :
  comparisonList float_text time_text type_name params columns = inr (x, ok) -> ok = true ->
  Forall (fun c => is_Some (params !! Col.name c)) columns.
Proof.
  revert x ok. induction columns as [|c l IH]; intros x ok; [constructor|]. cbn.
  destruct (params !! Col.name c) eqn:E; [destruct (param2value _ _ _ _ _)|]; try done;
    (destruct (comparisonList _ _ _ _ _) as [|[y ok']]; [done|]); cbn; intros [= _ <-]; [|done].
  intros ->. constructor; [by rewrite E|by eapply IH].
Qed.

(** A table without rows has no high watermark, so that the statement of its first
    batch cannot be built: the snapshot of an empty table ends the process. *)
Lemma empty_table_is_fatal dec values (h : Hypertable) name index (w : world D client) :
  (forall r, rowDecoderFactory r = inr dec) -> (forall r, decode dec r = inr (values r)) ->
  Cols.SnapshotIndex (BaseTable.columns (Hyper.table h)) = inr (Some index) -> idx_columns index <> [] ->
  (forall d, exists d', srv_connect d = (None, d')) -> (forall sql d, exists d', srv_exec sql d = (None, d')) ->
  (forall d, exists d', srv_query (high_query (Hyper.table h) index) d = (inr (mkAnswer [] None), d')) ->
  context (SideChannel.client w) = None ->
  requests (SideChannel.client w) = [mkSnapshotTask (THyper h) None None (Some name) false] ->
  exists c, work w = Panics c.
Proof.
  intros Hf Hd Hi Hcols Hc He Hq Hctx Hreq. eexists. eapply (first_batch_unbuildable dec values h name index None); eauto.
  intros s Hs. unfold where_LE, WhereTupleLE, whereClause in Hs.
  destruct (comparisonList _ _ _ _ _) as [c|[x ok]] eqn:E; [done|]. destruct ok; [|done].
  apply no_comparison in E; [|done]. destruct (idx_columns index); [done|]. by apply Forall_inv in E as [? ?].
Qed.


(** The worker itself waits for room in its queue, and nobody else makes it: with 128
    waiting requests it never goes on. *)
Lemma requeue_deadlocks t name sc wm (w : world D client) :
  GetWatermark (base_of (Table t)) sc = Some wm -> Complete wm = false ->
  (Queues.capacity <= length (requests (SideChannel.client w)))%nat ->
  finish_or_continue t name sc w = Panics Deadlock.
Proof.
  intros Hw Hc Hl. unfold finish_or_continue, EnqueueSnapshot, ask_client, mbind, M_bind. rewrite Hw, Hc.
  destruct (Nat.ltb_spec (length (requests (SideChannel.client w))) Queues.capacity) as [Hlt|_]; [lia|done].
Qed.
End Snapshots.
End Worker.

(** ** A concrete input *)

(** Twelve rows, fetched ten at a time. *)
Definition sample_rows : list Z := [1; 2; 3; 4; 5; 6; 7; 8; 9; 10; 11; 12].
Definition sample_pgtable : table := TVanilla (Vanilla.mkPgTable SideChannel.sample_table 7).

(** Reading a statement: what is behind a prefix, an operator, a number, a bound. *)
Definition behind (prefix s : string) : option string :=
  if String.prefix prefix s then Some (String.substring (String.length prefix) (String.length s - String.length prefix) s) else None.

Definition read_operator (s : string) : option (Worker.operator * string) :=
  match behind ">=" s, behind ">" s, behind "<=" s, behind "<" s with
  | Some rest, _, _, _ => Some (Worker.GE, rest)
  | _, Some rest, _, _ => Some (Worker.GT, rest)
  | _, _, Some rest, _ => Some (Worker.LE, rest)
  | _, _, _, Some rest => Some (Worker.LT, rest)
  | _, _, _, _ => None
  end.

Fixpoint read_number (n : Z) (s : string) : Z * string :=
  match s with
  | String c rest =>
      let d := Z.of_nat (Ascii.nat_of_ascii c) - 48 in
      if (0 <=? d) && (d <? 10) then read_number (10 * n + d) rest else (n, s)
  | EmptyString => (n, s)
  end.

Definition read_bound (s : string) : option (Worker.operator * Z * string) :=
  s ← behind "(id) " s; r ← read_operator s; s ← behind " (" (snd r);
  let n := read_number 0 s in s ← behind ")" (snd n); Some (fst r, fst n, s).

Definition read_statement (s : string) : option (option (Worker.operator * Z) * (Worker.operator * Z) * bool) :=
  s ← behind ("DECLARE cursor SCROLL CURSOR FOR SELECT * FROM " ++ CanonicalName (BaseTable.entity (base_of sample_pgtable)) ++ " WHERE ") s;
  first ← read_bound s;
  both ← match behind " AND " (snd first) with
         | Some s => second ← read_bound s; Some (Some (fst first), fst second, snd second)
         | None => Some (None, fst first, snd first)
         end;
  s ← behind " ORDER BY id " (snd both);
  if String.eqb s "ASC LIMIT 10" then Some (fst both, false)
  else if String.eqb s "DESC LIMIT 10" then Some (fst both, true) else None.

Definition within (b : Worker.operator * Z) (r : Z) : bool :=
  match fst b with Worker.GT => snd b <? r | Worker.GE => snd b <=? r | Worker.LT => r <? snd b | Worker.LE => r <=? snd b end.

Definition selected_rows (x : option (Worker.operator * Z) * (Worker.operator * Z) * bool) : list Z :=
  let '(lower, upper, desc) := x in
  take 10 (List.filter (fun r => match lower with Some b => within b r | None => true end && within upper r)
    (if desc then reverse sample_rows else sample_rows)).

Definition table_rows_server : Server Z (list Z) := {|
  srv_connect d := (None, d);
  srv_close d := d;
  srv_exec sql d := (None, match read_statement sql with Some x => selected_rows x | None => d end);
  srv_query A q d :=
    match q in query _ A return (dberror + answer A) * list Z with
    | current_wal_lsn => (inr (mkAnswer [inr 77] None), d)
    | fetch_forward n _ => (inr (mkAnswer (inr <$> take (Z.to_nat n) d) None), drop (Z.to_nat n) d)
    | queryCheckTableExistsInPublication _ _ _ => (inr (mkAnswer [inr false] None), d)
    | queryTemplateSnapshotHighWatermark _ _ order =>
        (inr (mkAnswer [inr (if String.eqb order "id DESC" then 12 else 1)] None), d)
    | _ => (inl ErrNoRows, d)
    end;
|}.

(** All statements with bounds among the keys. *)
Definition sample_bounds : list (Worker.operator * Z) := list_prod [Worker.GT; Worker.GE; Worker.LT; Worker.LE] sample_rows.

Abbreviation sample_text := (Worker.cursor_text "cursor" 1 sample_pgtable SideChannel.id_column (fun r : Z => pretty r)).
Abbreviation sample_answer lower upper desc :=
  (take (Z.to_nat (1 * 10)) (filter (Worker.satisfies id lower upper) (Worker.ordered (removelast sample_rows) 12 desc))).

#[local] Instance sample_satisfies lower upper r : Decision (Worker.satisfies id lower upper r) :=
  Worker.satisfies_dec id lower upper r.

Definition statement_read (lower : option (Worker.operator * Z)) (upper : Worker.operator * Z) (desc : bool) : bool :=
  match read_statement (sample_text lower upper desc) with
  | Some x => bool_decide (selected_rows x = sample_answer lower upper desc)
  | None => false
  end.

Lemma statements_read :
  forallb (fun lower => forallb (fun upper => forallb (statement_read lower upper) [true; false]) sample_bounds)
    (None :: (Some <$> sample_bounds)) = true.
Proof. vm_compute. reflexivity. Qed.

Lemma statement_answered lower upper desc :
  match lower with Some b => snd b ∈ sample_rows | None => True end -> snd upper ∈ sample_rows ->
  exists x, read_statement (sample_text lower upper desc) = Some x /\ selected_rows x = sample_answer lower upper desc.
Proof.
  assert (forall b, snd b ∈ sample_rows -> In b sample_bounds) as Hin.
  { intros [o r] Hr. apply in_prod; [destruct o; cbn; tauto|by apply list_elem_of_In]. }
  intros Hl Hu. pose proof statements_read as Hall. rewrite forallb_forall in Hall.
  specialize (Hall lower). rewrite forallb_forall in Hall. specialize (fun H => Hall H upper (Hin _ Hu)).
  rewrite forallb_forall in Hall. assert (statement_read lower upper desc = true) as Hr.
  { apply Hall; [|destruct desc; cbn; tauto]. destruct lower as [b|]; [right|by left]. by apply in_map, Hin. }
  unfold statement_read in Hr. destruct (read_statement _) as [x|]; [|done]. exists x. split; [done|]. by apply bool_decide_eq_true in Hr.
Qed.

Lemma sample_sql_server : @Worker.sql_server Z (list Z) table_rows_server "pub" "cursor" 1 sample_values sample_pgtable 77
  (removelast sample_rows) 12 SideChannel.id_column (fun r => VInt64 r) (fun r => pretty r) id.
Proof.
  split.
  - intros d. by eexists.
  - intros sql d. by eexists.
  - intros d. eexists _, false. reflexivity.
  - intros desc r Hr. exists r. split; [reflexivity|]. intros d. eexists. destruct desc; vm_compute in Hr; injection Hr as <-; reflexivity.
  - intros lower upper desc Hl Hu. exists id. destruct (statement_answered lower upper desc Hl Hu) as (x & Hx & Hs). split.
    + intros d. by eexists.
    + intros sql d. by eexists.
    + intros d. by eexists.
    + intros d d' Hd. cbn [srv_exec table_rows_server] in Hd. rewrite Hx in Hd. injection Hd as <-. exact Hs.
    + intros n d _. eexists. split; reflexivity.
Qed.

Lemma sample_keyed_rows : Worker.keyed_rows (fun _ => ""%string) (fun _ => ""%string) (fun _ => ""%string) map_to_list
  sample_values (removelast sample_rows) 12 SideChannel.id_column (fun r => VInt64 r) (fun r => pretty r) id.
Proof.
  split.
  - intros r _. reflexivity.
  - intros r _. reflexivity.
  - cbn. repeat constructor.
  - intros r _. reflexivity.
  - done.
Qed.


(** A key of two columns, of which the server sends the tuple. *)
Definition key_column (name : string) (position : Z) : Column :=
  Col.NewIndexColumn name 20 (-1) (Col.pgType SideChannel.id_column) false true (Some position) None false (Some "t_pkey"%string)
    "ASC" "NULLS LAST" false false None None None.
Definition composite_columns : list Column := [key_column "time" 1; key_column "device" 2].
Definition composite_table : Hypertable :=
  Hyper.mkHypertable (BaseTable.mkBaseTable (NewSystemEntity "public" "t") composite_columns "d" composite_columns)
    1 "_timescaledb_internal" "_hyper_1" None 0 false None None.
Definition tuple_values (r : Z) : gmap string value := {[ "row"%string := VInt64 r ]}.

