(* ===== verification/Configuration.v ===== *)
(** * Configuration: the lookups of the configuration

    spi/config/configuration.go and spi/config/constants.go: the configuration
    structures with the names of their fields in the file, the names of the
    properties, and GetOrDefault, which finds a property by its name -- first in the
    environment, then, by reflection, in the structures, and takes a default where
    both have nothing.

    The reflection works on types and values that are data here: [gotype] is a type
    as package reflect sees it, [goval] a value.  The structures are written out with
    the Go names and the toml tags of their fields, the call sites as tables of the
    property, the type and the default, one table per source file. *)

From Stdlib Require Import ZArith Lia Ascii.
From stdpp Require Import base tactics option list numbers strings.
From S2P Require Import Prelude Encoding ChunkSnapshots.

Local Open Scope Z_scope.

(** ** Types and values (package reflect) *)

(** The kinds of integers that occur; [Int] and [Uint] have 64 bits. *)
Inductive intkind : Type := Int | Int64 | Uint | Uint8.

(** A map has string keys.  The fields of a structure: name, toml tag, type. *)
Inductive gotype : Type :=
| TBool
| TInt (k : intkind)
| TString
| TNamed (name : string) (t : gotype)
| TPtr (t : gotype)
| TSlice (t : gotype)
| TMap (t : gotype)
| TStruct (name : string) (fields : list (string * string * gotype)).

(** Slices and maps can be nil. *)
Inductive goval : Type :=
| VBool (b : bool)
| VInt (z : Z)
| VString (s : string)
| VPtr (p : option goval)
| VSlice (l : option (list goval))
| VMap (m : option (list (string * goval)))
| VStruct (l : list goval).

Definition wrap_int (k : intkind) (z : Z) : Z :=
  match k with Int | Int64 => i64 z | Uint => u64 z | Uint8 => u8 z end.

Definition in_kind (k : intkind) (z : Z) : bool := wrap_int k z =? z.

Fixpoint has_type (t : gotype) (v : goval) : bool :=
  match t, v with
  | TBool, VBool _ => true
  | TInt k, VInt z => in_kind k z
  | TString, VString _ => true
  | TNamed _ t, _ => has_type t v
  | TPtr _, VPtr None => true
  | TPtr t, VPtr (Some v) => has_type t v
  | TSlice _, VSlice None => true
  | TSlice t, VSlice (Some l) => forallb (has_type t) l
  | TMap _, VMap None => true
  | TMap t, VMap (Some l) => forallb (fun e => has_type t (snd e)) l
  | TStruct _ fs, VStruct vs =>
      (fix all (fs : list (string * string * gotype)) (vs : list goval) : bool :=
         match fs, vs with
         | [], [] => true
         | f :: fs, v :: vs => has_type (snd f) v && all fs vs
         | _, _ => false
         end) fs vs
  | _, _ => false
  end.

(** [Value.IsZero] *)
Fixpoint IsZero (v : goval) : bool :=
  match v with
  | VBool b => negb b
  | VInt z => z =? 0
  | VString s => String.eqb s ""
  | VPtr p => match p with None => true | Some _ => false end
  | VSlice l => match l with None => true | Some _ => false end
  | VMap m => match m with None => true | Some _ => false end
  | VStruct l => forallb IsZero l
  end.

Fixpoint underlying (t : gotype) : gotype := match t with TNamed _ t => underlying t | _ => t end.

(** Types that are the same type; a structure is known by its name. *)
Fixpoint identical (t1 t2 : gotype) : bool :=
  match t1, t2 with
  | TBool, TBool | TString, TString => true
  | TInt Int, TInt Int | TInt Int64, TInt Int64 | TInt Uint, TInt Uint | TInt Uint8, TInt Uint8 => true
  | TNamed n1 _, TNamed n2 _ => String.eqb n1 n2
  | TPtr t1, TPtr t2 | TSlice t1, TSlice t2 | TMap t1, TMap t2 => identical t1 t2
  | TStruct n1 _, TStruct n2 _ => String.eqb n1 n2
  | _, _ => false
  end.

Definition is_ptr (t : gotype) : bool := match underlying t with TPtr _ => true | _ => false end.

Definition unnamed (t : gotype) : bool := match t with TPtr _ | TSlice _ | TMap _ => true | _ => false end.

(** [haveIdenticalUnderlyingType]; structures may differ in their tags only. *)
Definition same_underlying (t1 t2 : gotype) : bool :=
  match underlying t1, underlying t2 with
  | TStruct _ f1, TStruct _ f2 =>
      Nat.eqb (length f1) (length f2) &&
      forallb (fun p : (string * string * gotype) * (string * string * gotype) =>
        String.eqb (fst (fst (fst p))) (fst (fst (snd p))) && identical (snd (fst p)) (snd (snd p))) (zip f1 f2)
  | u1, u2 => identical u1 u2
  end.

(** [Value.Set] asks for this. *)
Definition assignable (from to : gotype) : bool :=
  identical from to || ((unnamed from || unnamed to) && same_underlying from to).

Section Lookup.
(** The conversion of a code point to a string, which no lookup of the program uses. *)
Context (rune_string : Z -> string).

(** [Value.Convert], which panics for types that do not convert. *)
Definition convert (from to : gotype) (v : goval) : crash + goval :=
  match underlying from, underlying to, v with
  | TInt _, TInt k, VInt z => inr (VInt (wrap_int k z))
  | TInt _, TString, VInt z => inr (VString (rune_string z))
  | TString, TSlice (TInt Uint8), VString s =>
      inr (VSlice (Some ((fun b => VInt (Z_of_byte b)) <$> bytes_of s)))
  | TPtr t1, TPtr t2, _ => if same_underlying t1 t2 then inr v else inl PanicExplicit
  | _, _, _ => if same_underlying from to then inr v else inl PanicExplicit
  end.

(** ** Names *)

(** [strings.ToUpper], on the ASCII letters, which the names of properties consist of. *)
Definition upper (c : ascii) : ascii :=
  let n := Z.of_N (N_of_ascii c) in
  if (97 <=? n) && (n <=? 122) then ascii_of_N (Z.to_N (n - 32)) else c.

Fixpoint ToUpper (s : string) : string :=
  match s with EmptyString => EmptyString | String c s => String (upper c) (ToUpper s) end.

(** [strings.ReplaceAll] of a character. *)
Fixpoint ReplaceAll (old : ascii) (new s : string) : string :=
  match s with
  | EmptyString => EmptyString
  | String c s => if Ascii.eqb c old then (new ++ ReplaceAll old new s)%string else String c (ReplaceAll old new s)
  end.

Definition envVarName (canonicalProperty : string) : string :=
  ReplaceAll "." "_" (ReplaceAll "_" "__" (ToUpper canonicalProperty)).

(** [strings.Split] at the dots. *)
Fixpoint split_at (sep : ascii) (s : string) : list string :=
  match s with
  | EmptyString => [""%string]
  | String c s =>
      if Ascii.eqb c sep then ""%string :: split_at sep s
      else match split_at sep s with
           | [] => [String c ""]
           | t :: ts => String c t :: ts
           end
  end.

(** ** The lookup *)

(** The environment: [os.LookupEnv]. *)
Definition environment : Type := string -> option string.

Definition findEnvProperty (env : environment) (canonicalProperty : string) (t : gotype) : crash + option goval :=
  match env (envVarName canonicalProperty) with
  | Some val =>
      match convert TString t (VString val) with
      | inl c => inl c
      | inr cv => if IsZero cv then inr None else inr (Some cv)
      end
  | None => inr None
  end.

(** The fields are visited in order; all of them are exported. *)
Fixpoint find_field (property : string) (fields : list (string * string * gotype)) (vs : list goval) :
    option (gotype * goval) :=
  match fields, vs with
  | (_, tag, t) :: fields, v :: vs => if String.eqb tag property then Some (t, v) else find_field property fields vs
  | _, _ => None
  end.

(** [Type.NumField] panics for a type that is no structure. *)
Definition findProperty (element : gotype * goval) (property : string) : crash + option (gotype * goval) :=
  match underlying (fst element), snd element with
  | TStruct _ fields, VStruct vs => inr (find_field property fields vs)
  | _, _ => inl PanicExplicit
  end.

Fixpoint find_path (element : gotype * goval) (properties : list string) : crash + option (gotype * goval) :=
  match properties with
  | [] => inr (Some element)
  | property :: properties =>
      match findProperty element property with
      | inl c => inl c
      | inr None => inr None
      | inr (Some e) => find_path e properties
      end
  end.

(** The element, not a pointer any more, as a value of the wanted type. *)
Definition as_wanted (V : gotype) (t : gotype) (v : goval) : crash + goval :=
  match underlying V with
  | TPtr b => if assignable t b then convert (TPtr b) V (VPtr (Some v)) else inl PanicExplicit
  | _ => convert t V v
  end.

Definition element_value (V : gotype) (defaultValue : goval) (element : gotype * goval) : crash + goval :=
  let '(t, v) := element in
  if IsZero v then inr defaultValue
  else
    match underlying t, v with
    | TPtr _, VPtr None => inr defaultValue
    | TPtr t', VPtr (Some x) => if is_ptr V then convert t V v else as_wanted V t' x
    | _, _ => as_wanted V t v
    end.

Definition GetOrDefault (env : environment) (configType : gotype) (config : goval) (canonicalProperty : string)
    (V : gotype) (defaultValue : goval) : crash + goval :=
  match findEnvProperty env canonicalProperty V with
  | inl c => inl c
  | inr (Some e) => inr e
  | inr None =>
      match find_path (configType, config) (split_at "." canonicalProperty) with
      | inl c => inl c
      | inr None => inr defaultValue
      | inr (Some element) => element_value V defaultValue element
      end
  end.
End Lookup.

(** ** The structures *)

Definition StateStorageType : gotype := TNamed "StateStorageType" TString.
Definition SinkType : gotype := TNamed "SinkType" TString.
Definition NamingStrategyType : gotype := TNamed "NamingStrategyType" TString.
Definition NatsAuthorizationType : gotype := TNamed "NatsAuthorizationType" TString.
Definition InitialSnapshotMode : gotype := TNamed "InitialSnapshotMode" TString.
Definition HttpAuthenticationType : gotype := TNamed "HttpAuthenticationType" TString.
(** sarama.SASLMechanism, tls.ClientAuthType and time.Duration *)
Definition SASLMechanism : gotype := TNamed "SASLMechanism" TString.
Definition ClientAuthType : gotype := TNamed "ClientAuthType" (TInt Int).
Definition Duration : gotype := TNamed "Duration" (TInt Int64).

Definition PublicationConfig : gotype := TStruct "PublicationConfig" [
  ("Name", "name", TString);
  ("Create", "create", TPtr TBool);
  ("AutoDrop", "autodrop", TPtr TBool)].

Definition ReplicationSlotConfig : gotype := TStruct "ReplicationSlotConfig" [
  ("Name", "name", TString);
  ("Create", "create", TPtr TBool);
  ("AutoDrop", "autodrop", TPtr TBool)].

Definition TransactionWindowConfig : gotype := TStruct "TransactionWindowConfig" [
  ("Enabled", "enabled", TPtr TBool);
  ("Timeout", "timeout", TInt Int);
  ("MaxSize", "maxsize", TInt Uint)].

Definition TransactionConfig : gotype := TStruct "TransactionConfig" [
  ("Window", "window", TransactionWindowConfig)].

Definition SnapshotConfig : gotype := TStruct "SnapshotConfig" [
  ("BatchSize", "batchsize", TInt Uint);
  ("Initial", "initial", TPtr InitialSnapshotMode)].

Definition IncludedTablesConfig : gotype := TStruct "IncludedTablesConfig" [
  ("Excludes", "excludes", TSlice TString);
  ("Includes", "includes", TSlice TString)].

Definition PostgresqlEventsConfig : gotype := TStruct "PostgresqlEventsConfig" [
  ("Read", "read", TPtr TBool);
  ("Insert", "insert", TPtr TBool);
  ("Update", "update", TPtr TBool);
  ("Delete", "delete", TPtr TBool);
  ("Truncate", "truncate", TPtr TBool);
  ("Message", "message", TPtr TBool)].

Definition PostgreSQLConfig : gotype := TStruct "PostgreSQLConfig" [
  ("Connection", "connection", TString);
  ("Password", "password", TString);
  ("Publication", "publication", PublicationConfig);
  ("ReplicationSlot", "replicationslot", ReplicationSlotConfig);
  ("Transaction", "transaction", TransactionConfig);
  ("Snapshot", "snapshot", SnapshotConfig);
  ("Tables", "tables", IncludedTablesConfig);
  ("Events", "events", PostgresqlEventsConfig)].

Definition DispatcherConfig : gotype := TStruct "DispatcherConfig" [
  ("InitialQueueCapacity", "initialqueuecapacity", TInt Uint)].

Definition SnapshotterConfig : gotype := TStruct "SnapshotterConfig" [
  ("Parallelism", "parallelism", TInt Uint8)].

Definition EncodingConfig : gotype := TStruct "EncodingConfig" [
  ("CustomReflection", "customreflection", TPtr TBool)].

Definition InternalConfig : gotype := TStruct "InternalConfig" [
  ("Dispatcher", "dispatcher", DispatcherConfig);
  ("Snapshotter", "snapshotter", SnapshotterConfig);
  ("Encoding", "encoding", EncodingConfig)].

Definition RuntimeStatsConfig : gotype := TStruct "RuntimeStatsConfig" [
  ("Enabled", "enabled", TPtr TBool)].

Definition StatsConfig : gotype := TStruct "StatsConfig" [
  ("Enabled", "enabled", TPtr TBool);
  ("Port", "port", TPtr (TInt Int));
  ("Runtime", "runtime", RuntimeStatsConfig)].

Definition EventFilterConfig : gotype := TStruct "EventFilterConfig" [
  ("Tables", "tables", TPtr IncludedTablesConfig);
  ("DefaultValue", "default", TPtr TBool);
  ("Condition", "condition", TString)].

Definition NatsUserInfoConfig : gotype := TStruct "NatsUserInfoConfig" [
  ("Username", "username", TString);
  ("Password", "password", TString)].

Definition NatsCredentialsConfig : gotype := TStruct "NatsCredentialsConfig" [
  ("Certificate", "certificate", TString);
  ("Seeds", "seeds", TSlice TString)].

Definition NatsJWTConfig : gotype := TStruct "NatsJWTConfig" [
  ("JWT", "jwt", TString);
  ("Seed", "seed", TString)].

Definition NatsConfig : gotype := TStruct "NatsConfig" [
  ("Address", "address", TString);
  ("Authorization", "authorization", NatsAuthorizationType);
  ("UserInfo", "userinfo", NatsUserInfoConfig);
  ("Credentials", "credentials", NatsCredentialsConfig);
  ("JWT", "jwt", NatsJWTConfig);
  ("Timeout", "timeout", TInt Uint8)].

Definition KafkaSaslConfig : gotype := TStruct "KafkaSaslConfig" [
  ("Enabled", "enabled", TPtr TBool);
  ("User", "user", TString);
  ("Password", "password", TString);
  ("Mechanism", "mechanism", SASLMechanism)].

Definition TLSConfig : gotype := TStruct "TLSConfig" [
  ("Enabled", "enabled", TBool);
  ("SkipVerify", "skipverify", TPtr TBool);
  ("ClientAuth", "clientauth", ClientAuthType)].

Definition KafkaConfig : gotype := TStruct "KafkaConfig" [
  ("Brokers", "brokers", TSlice TString);
  ("Idempotent", "idempotent", TPtr TBool);
  ("Sasl", "sasl", KafkaSaslConfig);
  ("TLS", "tls", TLSConfig)].

Definition RedisRetryBackoffConfig : gotype := TStruct "RedisRetryBackoffConfig" [
  ("Min", "min", TInt Int);
  ("Max", "max", TInt Int)].

Definition RedisRetryConfig : gotype := TStruct "RedisRetryConfig" [
  ("MaxAttempts", "maxattempts", TInt Int);
  ("Backoff", "backoff", RedisRetryBackoffConfig)].

Definition RedisTimeoutConfig : gotype := TStruct "RedisTimeoutConfig" [
  ("Dial", "dial", TInt Int);
  ("Read", "read", TInt Int);
  ("Write", "write", TInt Int);
  ("Pool", "pool", TInt Int);
  ("Idle", "idle", TInt Int)].

Definition RedisConfig : gotype := TStruct "RedisConfig" [
  ("Network", "network", TString);
  ("Address", "address", TString);
  ("Password", "password", TString);
  ("Database", "database", TInt Int);
  ("Retries", "retries", RedisRetryConfig);
  ("Timeouts", "timeouts", RedisTimeoutConfig);
  ("PoolSize", "poolsize", TInt Int);
  ("TLS", "tls", TLSConfig)].

Definition AwsKinesisStreamConfig : gotype := TStruct "AwsKinesisStreamConfig" [
  ("Name", "name", TPtr TString);
  ("Create", "create", TPtr TBool);
  ("ShardCount", "shardcount", TPtr (TInt Int64));
  ("Mode", "mode", TPtr TString)].

Definition AwsConnectionConfig : gotype := TStruct "AwsConnectionConfig" [
  ("Region", "region", TPtr TString);
  ("Endpoint", "endpoint", TString);
  ("AccessKeyId", "accesskeyid", TString);
  ("SecretAccessKey", "secretaccesskey", TString);
  ("SessionToken", "sessiontoken", TString)].

Definition AwsKinesisConfig : gotype := TStruct "AwsKinesisConfig" [
  ("Stream", "stream", AwsKinesisStreamConfig);
  ("Aws", "aws", AwsConnectionConfig)].

Definition AwsSqsQueueConfig : gotype := TStruct "AwsSqsQueueConfig" [
  ("Url", "url", TPtr TString)].

Definition AwsSqsConfig : gotype := TStruct "AwsSqsConfig" [
  ("Queue", "queue", AwsSqsQueueConfig);
  ("Aws", "aws", AwsConnectionConfig)].

Definition HttpBasicAuthenticationConfig : gotype := TStruct "HttpBasicAuthenticationConfig" [
  ("Username", "username", TString);
  ("Password", "password", TString)].

Definition HttpHeaderAuthenticationConfig : gotype := TStruct "HttpHeaderAuthenticationConfig" [
  ("Name", "name", TString);
  ("Value", "value", TString)].

Definition HttpAuthenticationConfig : gotype := TStruct "HttpAuthenticationConfig" [
  ("Type", "type", HttpAuthenticationType);
  ("Basic", "basic", HttpBasicAuthenticationConfig);
  ("Header", "header", HttpHeaderAuthenticationConfig)].

Definition HttpConfig : gotype := TStruct "HttpConfig" [
  ("Url", "url", TString);
  ("Authentication", "authentication", HttpAuthenticationConfig);
  ("TLS", "tls", TLSConfig)].

Definition SinkConfig : gotype := TStruct "SinkConfig" [
  ("Type", "type", SinkType);
  ("Tombstone", "tombstone", TPtr TBool);
  ("Filters", "filters", TMap EventFilterConfig);
  ("Nats", "nats", NatsConfig);
  ("Kafka", "kafka", KafkaConfig);
  ("Redis", "redis", RedisConfig);
  ("AwsKinesis", "kinesis", AwsKinesisConfig);
  ("AwsSqs", "sqs", AwsSqsConfig);
  ("Http", "http", HttpConfig)].

Definition TopicNamingStrategyConfig : gotype := TStruct "TopicNamingStrategyConfig" [
  ("Type", "type", NamingStrategyType)].

Definition TopicConfig : gotype := TStruct "TopicConfig" [
  ("NamingStrategy", "namingstrategy", TopicNamingStrategyConfig);
  ("Prefix", "prefix", TString)].

Definition TimescaleEventsConfig : gotype := TStruct "TimescaleEventsConfig" [
  ("Read", "read", TPtr TBool);
  ("Insert", "insert", TPtr TBool);
  ("Update", "update", TPtr TBool);
  ("Delete", "delete", TPtr TBool);
  ("Truncate", "truncate", TPtr TBool);
  ("Message", "message", TPtr TBool);
  ("Compression", "compression", TPtr TBool);
  ("Decompression", "decompression", TPtr TBool)].

Definition TimescaleDBConfig : gotype := TStruct "TimescaleDBConfig" [
  ("Hypertables", "hypertables", IncludedTablesConfig);
  ("Events", "events", TimescaleEventsConfig)].

Definition LoggerConsoleConfig : gotype := TStruct "LoggerConsoleConfig" [
  ("Enabled", "enabled", TPtr TBool)].

Definition LoggerFileConfig : gotype := TStruct "LoggerFileConfig" [
  ("Enabled", "enabled", TPtr TBool);
  ("Path", "path", TString);
  ("Rotate", "rotate", TPtr TBool);
  ("MaxSize", "maxsize", TPtr TString);
  ("MaxDuration", "maxduration", TPtr (TInt Int));
  ("Compress", "compress", TBool)].

Definition LoggerOutputConfig : gotype := TStruct "LoggerOutputConfig" [
  ("Console", "console", LoggerConsoleConfig);
  ("File", "file", LoggerFileConfig)].

Definition SubLoggerConfig : gotype := TStruct "SubLoggerConfig" [
  ("Level", "level", TPtr TString);
  ("Outputs", "outputs", LoggerOutputConfig)].

Definition LoggerConfig : gotype := TStruct "LoggerConfig" [
  ("Level", "level", TString);
  ("Outputs", "outputs", LoggerOutputConfig);
  ("Loggers", "loggers", TMap SubLoggerConfig)].

Definition FileStorageConfig : gotype := TStruct "FileStorageConfig" [
  ("Path", "path", TString)].

Definition StateStorageConfig : gotype := TStruct "StateStorageConfig" [
  ("Type", "type", StateStorageType);
  ("FileStorage", "file", FileStorageConfig)].

Definition Config : gotype := TStruct "Config" [
  ("PostgreSQL", "postgresql", PostgreSQLConfig);
  ("Sink", "sink", SinkConfig);
  ("Topic", "topic", TopicConfig);
  ("TimescaleDB", "timescaledb", TimescaleDBConfig);
  ("Logging", "logging", LoggerConfig);
  ("StateStorage", "statestorage", StateStorageConfig);
  ("Internal", "internal", InternalConfig);
  ("Plugins", "plugins", TSlice TString);
  ("Stats", "stats", StatsConfig)].

(** ** The names of the properties *)

Definition PropertyPostgresqlConnection : string := "postgresql.connection".
Definition PropertyPostgresqlPassword : string := "postgresql.password".
Definition PropertyPostgresqlPublicationName : string := "postgresql.publication.name".
Definition PropertyPostgresqlPublicationCreate : string := "postgresql.publication.create".
Definition PropertyPostgresqlPublicationAutoDrop : string := "postgresql.publication.autodrop".
Definition PropertyPostgresqlSnapshotInitialMode : string := "postgresql.snapshot.initial".
Definition PropertyPostgresqlSnapshotBatchsize : string := "postgresql.snapshot.batchsize".
Definition PropertyPostgresqlReplicationSlotName : string := "postgresql.replicationslot.name".
Definition PropertyPostgresqlReplicationSlotCreate : string := "postgresql.replicationslot.create".
Definition PropertyPostgresqlReplicationSlotAutoDrop : string := "postgresql.replicationslot.autodrop".
Definition PropertyPostgresqlTxwindowEnabled : string := "postgresql.transaction.window.enabled".
Definition PropertyPostgresqlTxwindowTimeout : string := "postgresql.transaction.window.timeout".
Definition PropertyPostgresqlTxwindowMaxsize : string := "postgresql.transaction.window.maxsize".
Definition PropertySink : string := "sink.type".
Definition PropertySinkTombstone : string := "sink.tombstone".
Definition PropertyStatsEnabled : string := "stats.enabled".
Definition PropertyStatsPort : string := "stats.port".
Definition PropertyRuntimeStatsEnabled : string := "stats.runtime.enabled".
Definition PropertyStateStorageType : string := "statestorage.type".
Definition PropertyFileStateStoragePath : string := "statestorage.file.path".
Definition PropertyDispatcherInitialQueueCapacity : string := "internal.dispatcher.initialqueuecapacity".
Definition PropertySnapshotterParallelism : string := "internal.snapshotter.parallelism".
Definition PropertyEncodingCustomReflection : string := "internal.encoding.customreflection".
Definition PropertyHypertableEventsRead : string := "timescaledb.events.read".
Definition PropertyHypertableEventsInsert : string := "timescaledb.events.insert".
Definition PropertyHypertableEventsUpdate : string := "timescaledb.events.update".
Definition PropertyHypertableEventsDelete : string := "timescaledb.events.delete".
Definition PropertyHypertableEventsTruncate : string := "timescaledb.events.truncate".
Definition PropertyHypertableEventsCompression : string := "timescaledb.events.compression".
Definition PropertyHypertableEventsDecompression : string := "timescaledb.events.decompression".
Definition PropertyHypertableEventsMessage : string := "timescaledb.events.message".
Definition PropertyPostgresqlEventsRead : string := "postgresql.events.read".
Definition PropertyPostgresqlEventsInsert : string := "postgresql.events.insert".
Definition PropertyPostgresqlEventsUpdate : string := "postgresql.events.update".
Definition PropertyPostgresqlEventsDelete : string := "postgresql.events.delete".
Definition PropertyPostgresqlEventsTruncate : string := "postgresql.events.truncate".
Definition PropertyPostgresqlEventsMessage : string := "postgresql.events.message".
Definition PropertyNamingStrategy : string := "topic.namingstrategy.type".
Definition PropertyKafkaBrokers : string := "sink.kafka.brokers".
Definition PropertyKafkaSaslEnabled : string := "sink.kafka.sasl.enabled".
Definition PropertyKafkaSaslUser : string := "sink.kafka.sasl.user".
Definition PropertyKafkaSaslPassword : string := "sink.kafka.sasl.password".
Definition PropertyKafkaSaslMechanism : string := "sink.kafka.sasl.mechanism".
Definition PropertyKafkaTlsEnabled : string := "sink.kafka.tls.enabled".
Definition PropertyKafkaTlsSkipVerify : string := "sink.kafka.tls.skipverify".
Definition PropertyKafkaTlsClientAuth : string := "sink.kafka.tls.clientauth".
Definition PropertyNatsAddress : string := "sink.nats.address".
Definition PropertyNatsAuthorization : string := "sink.nats.authorization".
Definition PropertyNatsUserinfoUsername : string := "sink.nats.userinfo.username".
Definition PropertyNatsUserinfoPassword : string := "sink.nats.userinfo.password".
Definition PropertyNatsCredentialsCertificate : string := "sink.nats.credentials.certificate".
Definition PropertyNatsCredentialsSeeds : string := "sink.nats.credentials.seeds".
Definition PropertyNatsJwt : string := "sink.nats.jwt.jwt".
Definition PropertyNatsJwtSeed : string := "sink.nats.jwt.seed".
Definition PropertyRedisNetwork : string := "sink.redis.network".
Definition PropertyRedisAddress : string := "sink.redis.address".
Definition PropertyRedisPassword : string := "sink.redis.password".
Definition PropertyRedisDatabase : string := "sink.redis.database".
Definition PropertyRedisPoolsize : string := "sink.redis.poolsize".
Definition PropertyRedisRetriesMax : string := "sink.redis.retries.maxattempts".
Definition PropertyRedisRetriesBackoffMin : string := "sink.redis.retries.backoff.min".
Definition PropertyRedisRetriesBackoffMax : string := "sink.redis.retries.backoff.max".
Definition PropertyRedisTimeoutDial : string := "sink.redis.timeouts.dial".
Definition PropertyRedisTimeoutRead : string := "sink.redis.timeouts.read".
Definition PropertyRedisTimeoutWrite : string := "sink.redis.timeouts.write".
Definition PropertyRedisTimeoutPool : string := "sink.redis.timeouts.pool".
Definition PropertyRedisTimeoutIdle : string := "sink.redis.timeouts.idle".
Definition PropertyRedisTlsSkipVerify : string := "sink.redis.tls.skipverify".
Definition PropertyRedisTlsClientAuth : string := "sink.redis.tls.clientauth".
Definition PropertyKinesisStreamName : string := "sink.kinesis.stream.name".
Definition PropertyKinesisStreamCreate : string := "sink.kinesis.stream.create".
Definition PropertyKinesisStreamShardCount : string := "sink.kinesis.stream.shardcount".
Definition PropertyKinesisStreamMode : string := "sink.kinesis.stream.mode".
Definition PropertyKinesisRegion : string := "sink.kinesis.aws.region".
Definition PropertyKinesisAwsEndpoint : string := "sink.kinesis.aws.endpoint".
Definition PropertyKinesisAwsAccessKeyId : string := "sink.kinesis.aws.accesskeyid".
Definition PropertyKinesisAwsSecretAccessKey : string := "sink.kinesis.aws.secretaccesskey".
Definition PropertyKinesisAwsSessionToken : string := "sink.kinesis.aws.sessiontoken".
Definition PropertySqsQueueUrl : string := "sink.sqs.queue.url".
Definition PropertySqsAwsRegion : string := "sink.sqs.aws.region".
Definition PropertySqsAwsEndpoint : string := "sink.sqs.aws.endpoint".
Definition PropertySqsAwsAccessKeyId : string := "sink.sqs.aws.accesskeyid".
Definition PropertySqsAwsSecretAccessKey : string := "sink.sqs.aws.secretaccesskey".
Definition PropertySqsAwsSessionToken : string := "sink.sqs.aws.sessiontoken".
Definition PropertyHttpUrl : string := "sink.http.url".
Definition PropertyHttpAuthenticationType : string := "sink.http.authentication.type".
Definition PropertyHttpBasicAuthenticationUsername : string := "sink.http.authentication.basic.username".
Definition PropertyHttpBasicAuthenticationPassword : string := "sink.http.authentication.basic.password".
Definition PropertyHttpHeaderAuthenticationHeaderName : string := "sink.http.authentication.header.name".
Definition PropertyHttpHeaderAuthenticationHeaderValue : string := "sink.http.authentication.header.value".
Definition PropertyHttpTlsSkipVerify : string := "sink.http.tls.skipverify".
Definition PropertyHttpTlsClientAuth : string := "sink.http.tls.clientauth".

(** ** The call sites *)

(** A call of [GetOrDefault]: the property, the type and the default value. *)
Record call_site : Type := mkSite { l_property : string; l_type : gotype; l_default : goval }.

Definition bool_property (p : string) (b : bool) : call_site := mkSite p TBool (VBool b).
Definition string_property (p d : string) : call_site := mkSite p TString (VString d).
Definition int_property (p : string) (d : Z) : call_site := mkSite p (TInt Int) (VInt d).
Definition optional_string (p : string) : call_site := mkSite p (TPtr TString) (VPtr None).
Definition duration (p : string) (d : Z) : call_site := mkSite p Duration (VInt d).

Definition snapshotter_lookups : list call_site :=
  [mkSite PropertySnapshotterParallelism (TInt Uint8) (VInt 5); int_property PropertyPostgresqlSnapshotBatchsize 1000].

Definition stats_lookups : list call_site :=
  [bool_property PropertyStatsEnabled true; int_property PropertyStatsPort 8081; bool_property PropertyRuntimeStatsEnabled true].

Definition kinesis_lookups : list call_site :=
  [optional_string PropertyKinesisStreamName; mkSite PropertyKinesisStreamShardCount (TPtr (TInt Int64)) (VPtr None);
   optional_string PropertyKinesisStreamMode; bool_property PropertyKinesisStreamCreate true;
   optional_string PropertyKinesisRegion; string_property PropertyKinesisAwsEndpoint "";
   optional_string PropertyKinesisAwsAccessKeyId; optional_string PropertyKinesisAwsSecretAccessKey;
   optional_string PropertyKinesisAwsSessionToken].

Definition redis_lookups : list call_site :=
  [string_property PropertyRedisNetwork "tcp"; string_property PropertyRedisAddress "localhost:6379";
   string_property PropertyRedisPassword ""; int_property PropertyRedisDatabase 0; int_property PropertyRedisRetriesMax 0;
   duration PropertyRedisRetriesBackoffMin 8; duration PropertyRedisRetriesBackoffMax 512;
   duration PropertyRedisTimeoutDial 0; duration PropertyRedisTimeoutRead 0; duration PropertyRedisTimeoutWrite 0;
   int_property PropertyRedisPoolsize 0; duration PropertyRedisTimeoutPool 0; duration PropertyRedisTimeoutIdle 0;
   bool_property PropertyRedisTlsSkipVerify false; mkSite PropertyRedisTlsClientAuth ClientAuthType (VInt 0)].

Definition sqs_lookups : list call_site :=
  [optional_string PropertySqsQueueUrl; optional_string PropertySqsAwsRegion; string_property PropertySqsAwsEndpoint "";
   optional_string PropertySqsAwsAccessKeyId; optional_string PropertySqsAwsSecretAccessKey;
   optional_string PropertySqsAwsSessionToken].

Definition http_lookups : list call_site :=
  [string_property PropertyHttpUrl "http://localhost:80"; bool_property PropertyHttpTlsSkipVerify false;
   mkSite PropertyHttpTlsClientAuth ClientAuthType (VInt 0); string_property PropertyHttpAuthenticationType "none";
   string_property PropertyHttpBasicAuthenticationUsername ""; string_property PropertyHttpBasicAuthenticationPassword "";
   string_property PropertyHttpHeaderAuthenticationHeaderName ""; string_property PropertyHttpHeaderAuthenticationHeaderValue ""].

Definition nats_lookups : list call_site :=
  [string_property PropertyNatsAddress "nats://localhost:4222"; string_property PropertyNatsAuthorization "userinfo";
   string_property PropertyNatsUserinfoUsername ""; string_property PropertyNatsUserinfoPassword "";
   string_property PropertyNatsCredentialsCertificate "";
   mkSite PropertyNatsCredentialsSeeds (TSlice TString) (VSlice (Some []));
   string_property PropertyNatsJwt ""; string_property PropertyNatsJwtSeed ""].

Definition kafka_lookups : list call_site :=
  [bool_property "sink.kafka.idempotent" false; bool_property PropertyKafkaSaslEnabled false;
   string_property PropertyKafkaSaslUser ""; string_property PropertyKafkaSaslPassword "";
   mkSite PropertyKafkaSaslMechanism SASLMechanism (VString "PLAIN"); bool_property PropertyKafkaTlsEnabled false;
   bool_property PropertyKafkaTlsSkipVerify false; mkSite PropertyKafkaTlsClientAuth ClientAuthType (VInt 0);
   mkSite PropertyKafkaBrokers (TSlice TString) (VSlice (Some [VString "localhost:9092"]))].

(** The default of the slot's name is a random string. *)
Definition context_lookups (random : string) : list call_site :=
  [mkSite PropertyPostgresqlSnapshotInitialMode InitialSnapshotMode (VString "never");
   string_property PropertyPostgresqlReplicationSlotName random; bool_property PropertyPostgresqlReplicationSlotCreate true;
   bool_property PropertyPostgresqlReplicationSlotAutoDrop true].

Definition window_lookups : list call_site :=
  [bool_property PropertyPostgresqlTxwindowEnabled true; int_property PropertyPostgresqlTxwindowTimeout 60;
   mkSite PropertyPostgresqlTxwindowMaxsize (TInt Uint) (VInt 10000)].

Definition resolver_lookups : list call_site :=
  [bool_property PropertyHypertableEventsMessage true; bool_property PropertyPostgresqlEventsMessage true;
   bool_property PropertySinkTombstone false;
   bool_property PropertyHypertableEventsRead true; bool_property PropertyHypertableEventsInsert true;
   bool_property PropertyHypertableEventsUpdate true; bool_property PropertyHypertableEventsDelete true;
   bool_property PropertyHypertableEventsTruncate true; bool_property PropertyHypertableEventsCompression false;
   bool_property PropertyHypertableEventsDecompression false;
   bool_property PropertyPostgresqlEventsRead true; bool_property PropertyPostgresqlEventsInsert true;
   bool_property PropertyPostgresqlEventsUpdate true; bool_property PropertyPostgresqlEventsDelete true;
   bool_property PropertyPostgresqlEventsTruncate true].

Definition wiring_lookups : list call_site :=
  [mkSite PropertyStateStorageType StateStorageType (VString "none");
   mkSite PropertyNamingStrategy NamingStrategyType (VString "debezium"); mkSite PropertySink SinkType (VString "stdout")].

Definition dispatcher_lookups : list call_site := [int_property PropertyDispatcherInitialQueueCapacity 16384].

Definition publication_lookups : list call_site :=
  [string_property PropertyPostgresqlPublicationName ""; bool_property PropertyPostgresqlPublicationCreate true;
   bool_property PropertyPostgresqlPublicationAutoDrop true].

Definition streamer_lookups : list call_site :=
  [string_property PropertyPostgresqlConnection "host=localhost user=repl_user"; string_property PropertyPostgresqlPassword "";
   string_property PropertyPostgresqlPublicationName ""].

Definition storage_lookups : list call_site := [string_property PropertyFileStateStoragePath ""].
Definition encoder_lookups : list call_site := [bool_property PropertyEncodingCustomReflection false].
Definition decoder_lookups : list call_site := [bool_property PropertyEncodingCustomReflection true].
Definition main_lookups : list call_site := [string_property PropertyPostgresqlConnection ""].

(** All calls of the program. *)
Definition lookups (random : string) : list call_site :=
  snapshotter_lookups ++ stats_lookups ++ kinesis_lookups ++ redis_lookups ++ sqs_lookups ++ http_lookups ++ nats_lookups ++
  kafka_lookups ++ context_lookups random ++ window_lookups ++ resolver_lookups ++ wiring_lookups ++ dispatcher_lookups ++
  publication_lookups ++ streamer_lookups ++ storage_lookups ++ encoder_lookups ++ decoder_lookups ++ main_lookups.

Definition get_site (rune_string : Z -> string) (env : environment) (config : goval) (l : call_site) : crash + goval :=
  GetOrDefault rune_string env Config config (l_property l) (l_type l) (l_default l).

(** The lookups of the basic types. *)
Section Getters.
Context (rune_string : Z -> string) (env : environment) (cfg : goval).

Definition lookup_ (l : call_site) : crash + goval := get_site rune_string env cfg l.

Definition get_string (name d : string) : crash + string :=
  v ← lookup_ (string_property name d);
  match v with VString s => mret s | _ => inl PanicTypeAssertion end.
Definition get_bool (name : string) (d : bool) : crash + bool :=
  v ← lookup_ (bool_property name d);
  match v with VBool b => mret b | _ => inl PanicTypeAssertion end.
Definition get_int (name : string) (d : Z) : crash + Z :=
  v ← lookup_ (int_property name d);
  match v with VInt z => mret z | _ => inl PanicTypeAssertion end.
Definition get_duration (name : string) (d : Z) : crash + Z :=
  v ← lookup_ (duration name d);
  match v with VInt z => mret z | _ => inl PanicTypeAssertion end.
Definition get_optional (name : string) : crash + option string :=
  v ← lookup_ (optional_string name);
  match v with VPtr None => mret None | VPtr (Some (VString s)) => mret (Some s) | _ => inl PanicTypeAssertion end.
Definition get_strings (name : string) (d : list string) : crash + list string :=
  v ← lookup_ (mkSite name (TSlice TString) (VSlice (Some (VString <$> d))));
  match v with
  | VSlice None => mret []
  | VSlice (Some l) => mret (omap (fun x => match x with VString s => Some s | _ => None end) l)
  | _ => inl PanicTypeAssertion
  end.
End Getters.

(** ** Properties *)

(** *** Conversions *)

Lemma wraps64_in z : in_s 64 (i64 z).
Proof.
  unfold in_s, wraps. pose proof (Z.mod_pos_bound z (2 ^ 64) ltac:(lia)). destruct (Z.ltb_spec (z mod 2 ^ 64) (2 ^ (64 - 1))); lia.
Qed.

Lemma wrap_int_in k z : in_kind k (wrap_int k z) = true.
Proof.
  apply Z.eqb_eq. destruct k; cbn; first [apply wrapu_small, wrapu_in; lia | apply wraps_small; [lia|apply wraps64_in]].
Qed.

Lemma underlying_not_named t n t' : underlying t <> TNamed n t'.
Proof. by induction t. Qed.

Lemma has_type_underlying t v : has_type t v = has_type (underlying t) v.
Proof. induction t; cbn; auto. Qed.

Fixpoint fields_typed (fs : list (string * string * gotype)) (vs : list goval) : bool :=
  match fs, vs with
  | [], [] => true
  | f :: fs, v :: vs => has_type (snd f) v && fields_typed fs vs
  | _, _ => false
  end.

Lemma struct_typed n fs v : has_type (TStruct n fs) v = true -> exists vs, v = VStruct vs /\ fields_typed fs vs = true.
Proof.
  destruct v as [| | | | | |vs]; try discriminate. intros H. exists vs. split; [done|].
  revert vs H. by induction fs as [|f fs IH]; intros [|v vs] H.
Qed.

(** *** Paths *)

Fixpoint find_type (property : string) (fields : list (string * string * gotype)) : option gotype :=
  match fields with
  | [] => None
  | (_, tag, t) :: fields => if String.eqb tag property then Some t else find_type property fields
  end.

(** The type of the element that a property names. *)
Fixpoint type_at (t : gotype) (properties : list string) : option gotype :=
  match properties with
  | [] => Some t
  | property :: properties =>
      match underlying t with
      | TStruct _ fields => match find_type property fields with Some t => type_at t properties | None => None end
      | _ => None
      end
  end.

Lemma find_field_typed p fs vs t :
  fields_typed fs vs = true -> find_type p fs = Some t -> exists v, find_field p fs vs = Some (t, v) /\ has_type t v = true.
Proof.
  revert vs. induction fs as [|[[g tag] t'] fs IH]; intros [|v vs] Hty Hf; try done.
  cbn in *. apply andb_prop in Hty as [Hv Hty]. destruct (String.eqb tag p); [|by apply IH].
  injection Hf as ->. by exists v.
Qed.

Lemma find_path_typed ps t v t' :
  has_type t v = true -> type_at t ps = Some t' -> exists v', find_path (t, v) ps = inr (Some (t', v')) /\ has_type t' v' = true.
Proof.
  revert t v. induction ps as [|p ps IH]; intros t v Hty Hat; cbn in *.
  - injection Hat as ->. by exists v.
  - unfold findProperty. cbn [fst snd]. rewrite has_type_underlying in Hty. destruct (underlying t) as [| | | | | | |n fs]; try done.
    apply struct_typed in Hty as (vs & -> & Hvs). destruct (find_type p fs) as [t1|] eqn:Hf; [|done].
    destruct (find_field_typed p fs vs t1 Hvs Hf) as (v1 & -> & Hv1). by apply IH.
Qed.

(** *** The value of an element *)

Definition scalar_accepts (t V : gotype) : bool :=
  match underlying t, underlying V with
  | TInt _, TInt _ | TBool, TBool | TString, TString | TSlice TString, TSlice TString => true
  | _, _ => false
  end.

Definition basic (t : gotype) : bool := match t with TBool | TString | TInt _ => true | _ => false end.

(** An element of type [t] can be read as a [V]. *)
Definition accepts (t V : gotype) : bool :=
  match V with
  | TPtr b => match t with TPtr a => basic a && identical a b | _ => basic t && identical t b end
  | _ => match underlying t with TPtr a => scalar_accepts a V | _ => scalar_accepts t V end
  end.

Definition deref (v : goval) : goval := match v with VPtr (Some x) => x | _ => v end.

(** What the property gives: the element, without its pointer, at the width of [V]. *)
Definition at_width (V : gotype) (v : goval) : goval :=
  match underlying V, v with TInt k, VInt z => VInt (wrap_int k z) | _, _ => v end.

Definition wanted (V : gotype) (v : goval) : goval :=
  match underlying V with TPtr _ => VPtr (Some (deref v)) | _ => at_width V (deref v) end.

Lemma basic_identical t b : basic t = true -> identical t b = true -> b = t.
Proof. by destruct t as [|[]| | | | | |], b as [|[]| | | | | |]. Qed.

Section Elements.
Context (rune_string : Z -> string).

Lemma convert_scalar t V v :
  scalar_accepts t V = true -> has_type t v = true -> is_ptr V = false /\
  convert rune_string t V v = inr (at_width V v).
Proof.
  rewrite has_type_underlying. unfold scalar_accepts, convert, is_ptr, same_underlying, at_width.
  destruct (underlying t) as [| | | | |[]| |] eqn:Et, (underlying V) as [|[]| | | |[]| |] eqn:EV; try discriminate; destruct v; try discriminate; done.
Qed.

Lemma scalar_typed t V v :
  scalar_accepts t V = true -> has_type t v = true ->
  has_type V (at_width V v) = true.
Proof.
  rewrite (has_type_underlying t), (has_type_underlying V). unfold scalar_accepts, at_width.
  destruct (underlying t) as [| | | | |[]| |], (underlying V) as [|w| | | |[]| |]; try discriminate; destruct v; try discriminate; intros _ Hv;
    first [exact Hv | apply wrap_int_in].
Qed.

Lemma as_wanted_scalar t V v :
  scalar_accepts t V = true -> has_type t v = true ->
  as_wanted rune_string V t v = inr (at_width V v).
Proof.
  intros Ha Hv. destruct (convert_scalar t V v Ha Hv) as [Hp Hc]. unfold as_wanted. rewrite Hc. unfold is_ptr in Hp.
  by destruct (underlying V).
Qed.

Lemma basic_same b : basic b = true -> same_underlying b b = true /\ assignable b b = true.
Proof. by destruct b as [|[]| | | | | |]. Qed.

Lemma convert_pointer b v : basic b = true -> convert rune_string (TPtr b) (TPtr b) v = inr v.
Proof. intros Hb. change (convert rune_string (TPtr b) (TPtr b) v) with (if same_underlying b b then inr v else inl PanicExplicit : crash + goval).
  by rewrite (proj1 (basic_same b Hb)). Qed.

Lemma basic_element b v d :
  basic b = true -> has_type b v = true ->
  element_value rune_string (TPtr b) d (b, v) = inr (if IsZero v then d else VPtr (Some v)) /\ deref v = v.
Proof.
  intros Hb Hv. assert (Hw : as_wanted rune_string (TPtr b) b v = inr (VPtr (Some v))).
  { unfold as_wanted. cbn [underlying]. by rewrite (proj2 (basic_same b Hb)), convert_pointer. }
  unfold element_value. destruct b; try discriminate Hb; destruct v as [| | |[]| | |]; try discriminate Hv; cbn [underlying];
    rewrite Hw; by destruct (IsZero _).
Qed.

Lemma pointer_element b t v d :
  accepts t (TPtr b) = true -> has_type t v = true ->
  element_value rune_string (TPtr b) d (t, v) = inr (if IsZero v then d else wanted (TPtr b) v) /\
  (IsZero v = false -> has_type (TPtr b) (wanted (TPtr b) v) = true).
Proof.
  intros Ha Hv. change (wanted (TPtr b) v) with (VPtr (Some (deref v))).
  assert ((exists a, t = TPtr a /\ basic a = true /\ b = a) \/ (basic t = true /\ b = t)) as [(a & -> & Hb & ->)|[Hb ->]].
  { destruct t; cbn [accepts] in Ha; apply andb_prop in Ha as [Hb Ha]; apply basic_identical in Ha; eauto. }
  - destruct v as [| | |[x|]| | |]; try discriminate; [|done].
    cbn [element_value IsZero underlying is_ptr]. by rewrite (convert_pointer _ _ Hb).
  - destruct (basic_element t v d Hb Hv) as [-> ->]. done.
Qed.

(** An element that is set is read as it is. *)
Lemma element_value_accepts t V v d :
  accepts t V = true -> has_type t v = true ->
  element_value rune_string V d (t, v) = inr (if IsZero v then d else wanted V v) /\
  (IsZero v = false -> has_type V (wanted V v) = true).
Proof.
  intros Ha Hv.
  assert ((exists b, V = TPtr b) \/ match underlying t with TPtr a => scalar_accepts a V | _ => scalar_accepts t V end = true)
    as [[b ->]|Ha'] by (destruct V; eauto); [by apply pointer_element|]. clear Ha.
  assert (Hsc : forall a x, scalar_accepts a V = true -> has_type a x = true -> deref v = x ->
    as_wanted rune_string V a x = inr (wanted V v) /\ has_type V (wanted V v) = true /\ is_ptr V = false).
  { intros a x Hs Hx Hd. rewrite (as_wanted_scalar a V x Hs Hx). pose proof (scalar_typed a V x Hs Hx) as Hty.
    destruct (convert_scalar a V x Hs Hx) as [Hp _]. revert Hty Hp. unfold wanted, is_ptr. rewrite Hd. by destruct (underlying V). }
  unfold element_value. destruct (underlying t) as [| | | |a| | |] eqn:Et.
  5: { rewrite has_type_underlying, Et in Hv. destruct v as [| | |[x|]| | |]; try discriminate; cbn [IsZero]; [|done].
       destruct (Hsc a x Ha' Hv eq_refl) as (Hw & Hty & Hp). by rewrite Hp. }
  all: try (by destruct (underlying_not_named _ _ _ Et)); (destruct (IsZero v); [done|]); assert (Hd : deref v = v) by
    (rewrite has_type_underlying, Et in Hv; destruct v as [| | |[]| | |]; done);
    destruct (Hsc t v Ha' Hv Hd) as (Hw & Hty & _); destruct v; done.
Qed.
End Elements.

(** *** All lookups of the program *)

(** The property of a lookup names an element that can be read as the lookup's type. *)
Definition site_ok (l : call_site) : bool :=
  match type_at Config (split_at "." (l_property l)) with
  | Some t => accepts t (l_type l) && has_type (l_type l) (l_default l)
  | None => false
  end.

Lemma lookups_ok random : forallb site_ok (lookups random) = true.
Proof. vm_compute. reflexivity. Qed.

Lemma lookup_ok random l : l ∈ lookups random ->
  exists t, type_at Config (split_at "." (l_property l)) = Some t /\ accepts t (l_type l) = true /\
            has_type (l_type l) (l_default l) = true.
Proof.
  intros Hl. pose proof (lookups_ok random) as Hok. rewrite forallb_forall in Hok.
  specialize (Hok l (proj1 (list_elem_of_In _ _) Hl)). unfold site_ok in Hok.
  destruct (type_at Config (split_at "." (l_property l))) as [t|]; [|done]. apply andb_prop in Hok as [Ha Hd]. by exists t.
Qed.

(** Without the environment a lookup of the table reads the element of its property. *)
Lemma get_from_file rune_string random env cfg l :
  l ∈ lookups random -> has_type Config cfg = true -> findEnvProperty rune_string env (l_property l) (l_type l) = inr None ->
  exists t v, find_path (Config, cfg) (split_at "." (l_property l)) = inr (Some (t, v)) /\ has_type t v = true /\
    get_site rune_string env cfg l = inr (if IsZero v then l_default l else wanted (l_type l) v) /\
    has_type (l_type l) (if IsZero v then l_default l else wanted (l_type l) v) = true.
Proof.
  intros Hl Hcfg Henv. destruct (lookup_ok random l Hl) as (t & Ht & Hacc & Hd).
  destruct (find_path_typed _ _ _ _ Hcfg Ht) as (v & Hpath & Hv). exists t, v. split; [done|]. split; [done|].
  destruct (element_value_accepts rune_string t (l_type l) v (l_default l) Hacc Hv) as [He Hty].
  unfold get_site, GetOrDefault. rewrite Henv, Hpath. split; [exact He|]. destruct (IsZero v); auto.
Qed.

(** C30. Every lookup that the program makes is well-typed: its property names an element of
    the configuration, and if the environment does not define the property the lookup
    does not panic and gives a value of the type that is asked for -- the element itself,
    without its pointer and at the width of that type, if the element is not the zero
    value, and the default otherwise. *)
Theorem lookups_read_configuration rune_string random env cfg l :
  l ∈ lookups random -> has_type Config cfg = true -> env (envVarName (l_property l)) = None ->
  exists t v, find_path (Config, cfg) (split_at "." (l_property l)) = inr (Some (t, v)) /\ has_type t v = true /\
    get_site rune_string env cfg l = inr (if IsZero v then l_default l else wanted (l_type l) v) /\
    has_type (l_type l) (if IsZero v then l_default l else wanted (l_type l) v) = true.
Proof. intros Hl Hcfg Henv. apply (get_from_file _ random); [done|done|]. unfold findEnvProperty. by rewrite Henv. Qed.

(** *** The environment *)

Definition string_kind (t : gotype) : bool := match underlying t with TString => true | _ => false end.
Definition bytes_kind (t : gotype) : bool := match underlying t with TSlice (TInt Uint8) => true | _ => false end.

Lemma lookups_not_bytes random : forallb (fun l => negb (bytes_kind (l_type l))) (lookups random) = true.
Proof. vm_compute. reflexivity. Qed.

Lemma convert_string rune_string V val :
  bytes_kind V = false ->
  convert rune_string TString V (VString val) = if string_kind V then inr (VString val) else inl PanicExplicit.
Proof.
  unfold bytes_kind, string_kind, convert, same_underlying. cbn [underlying].
  by destruct (underlying V) as [| | | | |[|[]| | | | | |]| |].
Qed.

(** C38. The environment can only define properties that are strings: for these a value that
    is not empty wins over the file and the default, and an empty one counts as not
    defined; for every other lookup of the program -- numbers, switches, lists and
    optional strings -- a variable of that name, whatever its value, makes the program
    panic. *)
Theorem environment_only_strings rune_string random env cfg l val :
  l ∈ lookups random -> has_type Config cfg = true -> env (envVarName (l_property l)) = Some val ->
  (string_kind (l_type l) = true -> val <> ""%string -> get_site rune_string env cfg l = inr (VString val)) /\
  (string_kind (l_type l) = true -> val = ""%string ->
     get_site rune_string env cfg l = get_site rune_string (fun _ => None) cfg l) /\
  (string_kind (l_type l) = false -> get_site rune_string env cfg l = inl PanicExplicit).
Proof.
  intros Hl Hcfg Henv. pose proof (lookups_not_bytes random) as Hb. rewrite forallb_forall in Hb.
  specialize (Hb l (proj1 (list_elem_of_In _ _) Hl)). apply negb_true_iff in Hb.
  unfold get_site, GetOrDefault, findEnvProperty. rewrite Henv, (convert_string _ _ _ Hb).
  split; [|split]; intros Hk; rewrite Hk; [|by intros ->|done].
  intros Hval. cbn [IsZero]. by rewrite (proj2 (String.eqb_neq _ _) Hval).
Qed.

(** The names of the variables, as the documentation gives them. *)
Example env_name_examples :
  envVarName PropertyPostgresqlConnection = "POSTGRESQL_CONNECTION"%string /\
  envVarName "test.some_value" = "TEST_SOME__VALUE"%string.
Proof. split; reflexivity. Qed.

(** No two properties of the program share a variable. *)
Lemma env_names_distinct random l1 l2 :
  l1 ∈ lookups random -> l2 ∈ lookups random ->
  envVarName (l_property l1) = envVarName (l_property l2) -> l_property l1 = l_property l2.
Proof.
  intros H1 H2 He.
  assert (Hall : forallb (fun l1 => forallb (fun l2 => implb (String.eqb (envVarName (l_property l1)) (envVarName (l_property l2)))
    (String.eqb (l_property l1) (l_property l2))) (lookups random)) (lookups random) = true) by (vm_compute; reflexivity).
  rewrite forallb_forall in Hall. specialize (Hall l1 (proj1 (list_elem_of_In _ _) H1)).
  rewrite forallb_forall in Hall. specialize (Hall l2 (proj1 (list_elem_of_In _ _) H2)).
  rewrite (proj2 (String.eqb_eq _ _) He) in Hall. by apply String.eqb_eq in Hall.
Qed.

(** *** Consequences *)

(** An explicit parallelism of 0 counts as not set, so the partition of a table exists. *)
Lemma configured_partition rune_string env cfg canonicalName :
  has_type Config cfg = true -> env (envVarName PropertySnapshotterParallelism) = None ->
  exists n p, get_site rune_string env cfg (mkSite PropertySnapshotterParallelism (TInt Uint8) (VInt 5)) = inr (VInt n) /\
    0 < n <= 255 /\ Partitions.partition canonicalName n = inr p /\ 0 <= p < n.
Proof.
  intros Hcfg Henv.
  destruct (get_from_file rune_string "" env cfg (mkSite PropertySnapshotterParallelism (TInt Uint8) (VInt 5)))
    as (t & v & Hpath & Hv & Hget & Hty); [by left|done|unfold findEnvProperty; cbn [l_property]; by rewrite Henv|].
  assert (Hn : exists n, get_site rune_string env cfg (mkSite PropertySnapshotterParallelism (TInt Uint8) (VInt 5)) = inr (VInt n)
                 /\ 0 < n <= 255).
  { rewrite Hget. cbn [l_default l_type] in *. destruct (IsZero v) eqn:Hz; [by exists 5|].
    destruct (find_path_typed _ _ _ _ Hcfg (eq_refl : type_at Config (split_at "." PropertySnapshotterParallelism) = Some (TInt Uint8)))
      as (v' & Hpath' & Hv'). cbn [l_property] in Hpath. rewrite Hpath in Hpath'. injection Hpath' as -> ->.
    destruct v' as [|z| | | | |]; try discriminate. exists (u8 z). split; [reflexivity|].
    cbn in Hv', Hz. apply Z.eqb_eq in Hv'. apply Z.eqb_neq in Hz. cbn [wrap_int] in Hv'.
    pose proof (wrapu_in 8 z ltac:(lia)) as Hin. rewrite Hv' in *. unfold in_u in Hin. lia. }
  destruct Hn as (n & Hn & Hb). destruct (Partitions.partition_in_range canonicalName n) as (p & Hp & Hr); [lia|].
  by exists n, p.
Qed.

(** The zero value of a type: [&spiconfig.Config{}] before a file is read. *)
Fixpoint zero_value (t : gotype) : goval :=
  match t with
  | TBool => VBool false
  | TInt _ => VInt 0
  | TString => VString ""
  | TNamed _ t => zero_value t
  | TPtr _ => VPtr None
  | TSlice _ => VSlice None
  | TMap _ => VMap None
  | TStruct _ fs => VStruct ((fun f => zero_value (snd f)) <$> fs)
  end.

(** Messages are passed on unless both properties say no: [genMessageEvent] of the resolver. *)
Definition genMessageEvent (rune_string : Z -> string) (env : environment) (cfg : goval) : crash + bool :=
  match get_site rune_string env cfg (bool_property PropertyHypertableEventsMessage true),
        get_site rune_string env cfg (bool_property PropertyPostgresqlEventsMessage true) with
  | inr (VBool genHypertableMessageEvent), inr (VBool genPostgresqlMessageEvent) =>
      inr (genHypertableMessageEvent || genPostgresqlMessageEvent)
  | inl c, _ => inl c
  | _, inl c => inl c
  | _, _ => inl PanicTypeAssertion
  end.

(** Where neither property is set messages are generated. *)
Lemma messages_by_default rune_string : genMessageEvent rune_string (fun _ => None) (zero_value Config) = inr true.
Proof. vm_compute. reflexivity. Qed.

(** *** Concrete inputs *)

Definition create_lookup : call_site := bool_property PropertyPostgresqlPublicationCreate true.

Lemma create_listed : create_lookup ∈ lookups "".
Proof. apply (list_elem_of_lookup_2 _ 87). vm_compute. reflexivity. Qed.

Lemma lookups_read_configuration_witness :
  get_site (fun _ => ""%string) (fun _ => None) (zero_value Config) create_lookup = inr (VBool true).
Proof.
  destruct (lookups_read_configuration (fun _ => ""%string) "" (fun _ => None) (zero_value Config) create_lookup)
    as (t & v & Hpath & _ & Hget & _).
  - exact create_listed.
  - vm_compute. reflexivity.
  - reflexivity.
  - vm_compute in Hpath. injection Hpath as <- <-. exact Hget.
Defined.

Definition create_env : environment := fun n => if String.eqb n "POSTGRESQL_PUBLICATION_CREATE" then Some "false"%string else None.

Lemma environment_only_strings_witness :
  get_site (fun _ => ""%string) create_env (zero_value Config) create_lookup = inl PanicExplicit.
Proof.
  destruct (environment_only_strings (fun _ => ""%string) "" create_env (zero_value Config) create_lookup "false") as (_ & _ & Hpanic).
  - exact create_listed.
  - vm_compute. reflexivity.
  - reflexivity.
  - apply Hpanic. reflexivity.
Defined.
