(* ===== verification/Logging.v ===== *)
(** * Logging: levels, loggers and their outputs

    internal/logging/logging.go: which messages a logger writes, which outputs it
    has, and when a fatal message ends the process, on which the rest of the program
    relies.

    The library that writes (gookit/slog) is an interface: the class [Slog] has its
    levels, what makes a log file, and which levels end the process after the message
    is written.  The state of the package is a record of its variables. *)

From Stdlib Require Import ZArith Lia Ascii.
From stdpp Require Import base tactics option list numbers strings gmap.
From S2P Require Import Prelude.

Local Open Scope Z_scope.

(** ** The configuration (LoggerConfig and its parts) *)

Record LoggerFileConfig : Type := mkFileConfig {
  fc_Enabled : option bool;
  fc_Path : string;
  fc_Rotate : option bool;
  fc_MaxSize : option string;
  fc_MaxDuration : option Z;
  fc_Compress : bool;
}.

Record LoggerOutputConfig : Type := mkOutputConfig { oc_Console : option bool; oc_File : LoggerFileConfig }.
Record SubLoggerConfig : Type := mkSubLoggerConfig { sc_Level : option string; sc_Outputs : LoggerOutputConfig }.
Record LoggerConfig : Type := mkLoggerConfig {
  lc_Level : string;
  lc_Outputs : LoggerOutputConfig;
  lc_Loggers : gmap string SubLoggerConfig;
}.

(** ** The library *)

(** The three kinds of log files. *)
Inductive fileKind : Type := Buffered (size : Z) | TimeRotated (time : Z) | SizeRotated (size : Z).

Class Slog (H : Type) : Type := {
  PanicLevel : Z; FatalLevel : Z; ErrorLevel : Z; WarnLevel : Z; NoticeLevel : Z; InfoLevel : Z; DebugLevel : Z; TraceLevel : Z;
  (** A handler for a file, or an error. *)
  new_file_handler : fileKind -> string -> bool -> string + H;
  (** [bytesize.Parse], and [rotatefile.RotateTime] of the seconds of a duration. *)
  parse_size : string -> string + Z;
  rotate_time : Z -> Z;
  (** After a message of this level the process ends. *)
  ends_process : Z -> bool;
}.

Definition VerboseLevel : Z := 650.
Definition fiveMegabyte : Z := 5242880.

(** The levels are in this order, and of the levels that the program logs at only the
    fatal one ends the process. *)
Class SlogLaws (H : Type) `{Slog H} : Prop := {
  levels_ordered : PanicLevel < FatalLevel /\ FatalLevel < ErrorLevel /\ ErrorLevel < WarnLevel /\ WarnLevel < NoticeLevel /\
    NoticeLevel < InfoLevel /\ InfoLevel < VerboseLevel /\ VerboseLevel < DebugLevel /\ DebugLevel < TraceLevel;
  fatal_ends : ends_process FatalLevel = true;
  others_go_on : forall level, FatalLevel < level -> ends_process level = false;
}.

(** ** The package *)

Section Logging.
Context {H : Type} `{Slog H}.

(** The outputs of a logger: the console or a file. *)
Inductive output : Type := ConsoleHandler | FileHandler (h : H).

Record Logger : Type := mkLogger { handlers : list output; level : Z; name : string }.

(** The variables of the package and what was written. *)
Record package : Type := mkPackage {
  WithVerbose : bool;
  loggingConfig : LoggerConfig;
  defaultLevel : Z;
  defaultFileHandler : option H;
  fileHandlers : gmap string H;
  defaultConsoleHandlerEnabled : bool;
  written : list (list output * Z * string * list string);
}.

Definition lower (c : ascii) : ascii :=
  let n := Z.of_N (N_of_ascii c) in
  if (65 <=? n) && (n <=? 90) then ascii_of_N (Z.to_N (n + 32)) else c.
Fixpoint ToLower (s : string) : string :=
  match s with EmptyString => EmptyString | String c s => String (lower c) (ToLower s) end.

Definition Name2Level (ln : string) : Z :=
  let s := ToLower ln in
  if String.eqb s "panic" then PanicLevel
  else if String.eqb s "fatal" then FatalLevel
  else if String.eqb s "err" || String.eqb s "error" then ErrorLevel
  else if String.eqb s "warn" || String.eqb s "warning" then WarnLevel
  else if String.eqb s "notice" then NoticeLevel
  else if String.eqb s "verbose" then VerboseLevel
  else if String.eqb s "debug" then DebugLevel
  else if String.eqb s "trace" then TraceLevel
  else InfoLevel.

(** *** Log files *)

Definition cache_handler (path : string) (h : H) : G package unit :=
  modify (fun p => mkPackage (WithVerbose p) (loggingConfig p) (defaultLevel p) (defaultFileHandler p)
    (<[ path := h ]> (fileHandlers p)) (defaultConsoleHandlerEnabled p) (written p)).

Definition open_handler (kind : fileKind) (config : LoggerFileConfig) : G package H :=
  match new_file_handler kind (fc_Path config) (fc_Compress config) with
  | inl e => fail ("Failed to initialize logfile handler => " ++ e)
  | inr h => mret h
  end.

(** The pair of [newFileHandler]: whether the file was open already, and the handler. *)
Definition newFileHandler (config : LoggerFileConfig) : G package (bool * option H) :=
  if negb (default false (fc_Enabled config)) then mret (false, None)
  else
    p ← get;
    match fileHandlers p !! fc_Path config with
    | Some h => mret (true, Some h)
    | None =>
        h ← (if negb (default false (fc_Rotate config)) then open_handler (Buffered 1024) config
             else
               match fc_MaxDuration config with
               | Some duration => open_handler (TimeRotated (rotate_time (i64 (1000000000 * duration)))) config
               | None =>
                   match fc_MaxSize config with
                   | None => open_handler (SizeRotated fiveMegabyte) config
                   | Some maxSize =>
                       match parse_size maxSize with
                       | inl e => fail ("Failed to parse max size property '" ++ maxSize ++ "' => " ++ e)
                       | inr size => open_handler (SizeRotated size) config
                       end
                   end
               end);
        cache_handler (fc_Path config) h ;;
        mret (false, Some h)
    end.

(** *** Loggers *)

Definition InitializeLogging (config : LoggerConfig) : G package unit :=
  modify (fun p => mkPackage (WithVerbose p) config (Name2Level (lc_Level config)) (defaultFileHandler p) (fileHandlers p)
    (default true (oc_Console (lc_Outputs config))) (written p)) ;;
  r ← newFileHandler (oc_File (lc_Outputs config));
  modify (fun p => mkPackage (WithVerbose p) (loggingConfig p) (defaultLevel p) (snd r) (fileHandlers p)
    (defaultConsoleHandlerEnabled p) (written p)).

Definition file_output (o : option H) : list output := match o with Some h => [FileHandler h] | None => [] end.

Definition NewLogger (name : string) : G package Logger :=
  p ← get;
  match lc_Loggers (loggingConfig p) !! name with
  | Some config =>
      let console := if negb (default true (oc_Console (sc_Outputs config))) then [ConsoleHandler] else [] in
      r ← newFileHandler (oc_File (sc_Outputs config));
      let file := if fst r : bool then file_output (snd r) else file_output (defaultFileHandler p) in
      let level := match sc_Level config with Some l => Name2Level l | None => defaultLevel p end in
      mret (mkLogger (console ++ file)%list level name)
  | None =>
      mret (mkLogger ((if defaultConsoleHandlerEnabled p then [ConsoleHandler] else []) ++ file_output (defaultFileHandler p))%list
              (defaultLevel p) name)
  end.

(** *** Messages *)

Definition levelEnabled (l : Logger) (lvl : Z) (p : package) : bool :=
  (lvl <=? level l) || ((lvl =? VerboseLevel) && WithVerbose p).

(** [slogger.Logf]: the message goes to all outputs, then the process may end. *)
Definition slog_log (l : Logger) (lvl : Z) (format : string) (args : list string) : G package unit :=
  if ends_process lvl then panic FatalExit
  else modify (fun p => mkPackage (WithVerbose p) (loggingConfig p) (defaultLevel p) (defaultFileHandler p) (fileHandlers p)
         (defaultConsoleHandlerEnabled p) (written p ++ [(handlers l, lvl, format, args)])%list).

Definition newline : ascii := ascii_of_N 10.
Fixpoint trim_newline (s : string) : string :=
  match s with
  | EmptyString => EmptyString
  | String c EmptyString => if Ascii.eqb c newline then EmptyString else s
  | String c s => String c (trim_newline s)
  end.

Definition logf (l : Logger) (lvl : Z) (format : string) (args : list string) : G package unit :=
  p ← get;
  if levelEnabled l lvl p then slog_log l lvl ("[" ++ name l ++ "] " ++ trim_newline format)%string args else mret tt.

(** [log] has no format; its arguments follow the name. *)
Definition log (l : Logger) (lvl : Z) (args : list string) : G package unit :=
  p ← get;
  if levelEnabled l lvl p then slog_log l lvl "" (("[" ++ name l ++ "]")%string :: args) else mret tt.

Definition TraceEnabled (l : Logger) (p : package) : bool := levelEnabled l TraceLevel p.
Definition DebugEnabled (l : Logger) (p : package) : bool := levelEnabled l DebugLevel p.
Definition VerboseEnabled (l : Logger) (p : package) : bool := levelEnabled l VerboseLevel p.
Definition InfoEnabled (l : Logger) (p : package) : bool := levelEnabled l InfoLevel p.
Definition WarnEnabled (l : Logger) (p : package) : bool := levelEnabled l WarnLevel p.
Definition ErrorEnabled (l : Logger) (p : package) : bool := levelEnabled l ErrorLevel p.
Definition FatalEnabled (l : Logger) (p : package) : bool := levelEnabled l FatalLevel p.

Definition Tracef (l : Logger) := logf l TraceLevel.
Definition Traceln (l : Logger) := log l TraceLevel.
Definition Debugf (l : Logger) := logf l DebugLevel.
Definition Debugln (l : Logger) := log l DebugLevel.
Definition Verbosef (l : Logger) := logf l VerboseLevel.
Definition Verboseln (l : Logger) := log l VerboseLevel.
Definition Printf (l : Logger) := logf l InfoLevel.
Definition Println (l : Logger) := log l InfoLevel.
Definition Infof (l : Logger) := logf l InfoLevel.
Definition Infoln (l : Logger) := log l InfoLevel.
Definition Warnf (l : Logger) := logf l WarnLevel.
Definition Warnln (l : Logger) := log l WarnLevel.
Definition Errorf (l : Logger) := logf l ErrorLevel.
Definition Errorln (l : Logger) := log l ErrorLevel.
Definition Fatalf (l : Logger) := logf l FatalLevel.
Definition Fatalln (l : Logger) := log l FatalLevel.
End Logging.

(** ** Properties *)

Section Properties.
Context {H : Type} `{SlogLaws H}.

Lemma level_enabled_iff l lvl (p : package (H := H)) :
  lvl <> VerboseLevel -> levelEnabled l lvl p = true <-> lvl <= level l.
Proof.
  intros Hv. unfold levelEnabled. rewrite (proj2 (Z.eqb_neq _ _) Hv), orb_false_r. apply Z.leb_le.
Qed.

(** A logger writes its level and everything more severe. *)
Lemma more_severe_included l a b (p : package (H := H)) :
  a <> VerboseLevel -> b <> VerboseLevel -> b <= a -> levelEnabled l a p = true -> levelEnabled l b p = true.
Proof. intros Ha Hb Hle. rewrite !level_enabled_iff by done. lia. Qed.

(** Only the name "panic" gives a level below the fatal one. *)
Lemma name2level_fatal ln : FatalLevel <= Name2Level ln <-> ToLower ln <> "panic"%string.
Proof.
  destruct levels_ordered as (L1 & L2 & L3 & L4 & L5 & L6 & L7 & L8). unfold Name2Level.
  destruct (String.eqb_spec (ToLower ln) "panic") as [E|E]; [split; [lia|by intros []]|].
  split; [done|]. intros _. repeat case_match; lia.
Qed.

Lemma fatal_message l format args (p : package (H := H)) :
  Fatalf l format args p = if FatalLevel <=? level l then Crash FatalExit else Ret tt p.
Proof.
  destruct levels_ordered as (L1 & L2 & L3 & L4 & L5 & L6 & L7 & L8).
  unfold Fatalf, logf, mbind, G_bind, get. cbn beta iota. unfold levelEnabled.
  rewrite (proj2 (Z.eqb_neq FatalLevel VerboseLevel)) by lia. rewrite orb_false_r.
  destruct (FatalLevel <=? level l); [|done]. unfold slog_log. by rewrite fatal_ends.
Qed.

(** Opening a log file changes nothing but the cache of open files. *)
Lemma newFileHandler_keeps config (p p' : package (H := H)) r :
  newFileHandler config p = Ret r p' ->
  loggingConfig p' = loggingConfig p /\ defaultLevel p' = defaultLevel p /\ defaultFileHandler p' = defaultFileHandler p /\
  (default false (fc_Enabled config) = true ->
   match fileHandlers p !! fc_Path config with
   | Some h => r = (true, Some h) /\ p' = p
   | None => exists h, r = (false, Some h) /\ fileHandlers p' = <[ fc_Path config := h ]> (fileHandlers p)
   end).
Proof.
  unfold newFileHandler. destruct (default false (fc_Enabled config)) eqn:En; cbn [negb].
  2: { intros [= <- <-]. by repeat split. }
  unfold mbind at 1, G_bind at 1. unfold get at 1. cbn beta iota.
  destruct (fileHandlers p !! fc_Path config) as [h|]; [intros [= <- <-]; by repeat split|].
  intros Hrun. apply bind_ret_inv in Hrun as (h & q & Hopen & Hrest).
  assert (q = p) as ->.
  { revert Hopen. unfold open_handler, fail. repeat case_match; by intros [=]. }
  cbn in Hrest. injection Hrest as <- <-. repeat split. intros _. by exists h.
Qed.

Definition effective_level (cfg : LoggerConfig) (n : string) : string :=
  match lc_Loggers cfg !! n with
  | Some c => default (lc_Level cfg) (sc_Level c)
  | None => lc_Level cfg
  end.

Lemma initialized cfg (p0 p : package (H := H)) :
  InitializeLogging cfg p0 = Ret tt p -> loggingConfig p = cfg /\ defaultLevel p = Name2Level (lc_Level cfg).
Proof.
  unfold InitializeLogging. intros Hrun. apply bind_ret_inv in Hrun as (? & q & Hq & Hrun). injection Hq as _ <-.
  apply bind_ret_inv in Hrun as (r & q' & Hfile & Hrun). apply newFileHandler_keeps in Hfile as (Hc & Hl & _).
  injection Hrun as <-. cbn in *. by rewrite Hc, Hl.
Qed.

Lemma logger_level cfg (p p' : package (H := H)) n l :
  loggingConfig p = cfg -> defaultLevel p = Name2Level (lc_Level cfg) -> NewLogger n p = Ret l p' ->
  level l = Name2Level (effective_level cfg n).
Proof.
  intros <- Hd Hl. unfold NewLogger, effective_level in *. unfold mbind at 1, G_bind at 1, get at 1 in Hl. cbn beta iota in Hl.
  destruct (lc_Loggers (loggingConfig p) !! n) as [c|].
  - apply bind_ret_inv in Hl as (r & q & _ & Hl). injection Hl as <- _. cbn. by destruct (sc_Level c).
  - by injection Hl as <- _.
Qed.

(** A fatal message ends the process -- as the callers of [Fatalf] rely on -- for every
    logger of the program whose level, its own or the general one, is not "panic" in any
    spelling; with the level "panic" the message is dropped and [Fatalf] returns to code
    that does not expect it. *)
Theorem fatal_needs_level cfg (p0 p p' : package (H := H)) n l :
  InitializeLogging cfg p0 = Ret tt p -> NewLogger n p = Ret l p' ->
  (ToLower (effective_level cfg n) <> "panic"%string -> forall format args q, Fatalf l format args q = Crash FatalExit) /\
  (ToLower (effective_level cfg n) = "panic"%string -> forall format args q, Fatalf l format args q = Ret tt q).
Proof.
  intros Hinit Hnew. apply initialized in Hinit as [Hc Hd]. pose proof (logger_level cfg p p' n l Hc Hd Hnew) as Hl.
  pose proof (name2level_fatal (effective_level cfg n)) as Hn. rewrite <- Hl in Hn.
  split; intros Hname format args q; rewrite fatal_message.
  - by rewrite (proj2 (Z.leb_le _ _) (proj2 Hn Hname)).
  - destruct (Z.leb_spec FatalLevel (level l)) as [Hle|]; [|done]. by destruct (proj1 Hn Hle).
Qed.

(** The outputs of a logger with a configuration of its own are not the configured
    ones: the console is added exactly if it is switched off, and the file of the first
    logger that names it is opened but not used -- later loggers with the same file use
    it. *)
Theorem own_outputs_swapped (p p' : package (H := H)) n c l :
  lc_Loggers (loggingConfig p) !! n = Some c -> default false (fc_Enabled (oc_File (sc_Outputs c))) = true ->
  fileHandlers p !! fc_Path (oc_File (sc_Outputs c)) = None -> NewLogger n p = Ret l p' ->
  handlers l = ((if default true (oc_Console (sc_Outputs c)) then [] else [ConsoleHandler]) ++ file_output (defaultFileHandler p))%list /\
  exists h, fileHandlers p' !! fc_Path (oc_File (sc_Outputs c)) = Some h /\
    forall m c', lc_Loggers (loggingConfig p) !! m = Some c' -> default false (fc_Enabled (oc_File (sc_Outputs c'))) = true ->
      fc_Path (oc_File (sc_Outputs c')) = fc_Path (oc_File (sc_Outputs c)) ->
      exists l', NewLogger m p' = Ret l' p' /\
        handlers l' = ((if default true (oc_Console (sc_Outputs c')) then [] else [ConsoleHandler]) ++ [FileHandler h])%list.
Proof.
  intros Hc He Hnew Hl. unfold NewLogger in Hl. unfold mbind at 1, G_bind at 1, get at 1 in Hl. cbn beta iota in Hl.
  rewrite Hc in Hl. apply bind_ret_inv in Hl as (r & q & Hfile & Hl). injection Hl as <- <-.
  apply newFileHandler_keeps in Hfile as (Hlc & _ & _ & Hf). specialize (Hf He). rewrite Hnew in Hf. destruct Hf as (h & -> & Hfh).
  split; [cbn [handlers fst]; by destruct (default true _)|]. exists h. rewrite Hfh, lookup_insert_eq. split; [done|].
  intros m c' Hm He' Hpath. unfold NewLogger. unfold mbind at 1, G_bind at 1, get at 1. cbn beta iota. rewrite Hlc, Hm.
  unfold newFileHandler. rewrite He'. cbn [negb]. unfold mbind, G_bind, get. cbn beta iota. rewrite Hfh, Hpath, lookup_insert_eq.
  cbn. eexists. split; [reflexivity|]. cbn [handlers]. by destruct (default true _).
Qed.
End Properties.

(** *** Concrete inputs *)

#[export] Instance gookit : Slog string := {|
  PanicLevel := 100; FatalLevel := 200; ErrorLevel := 300; WarnLevel := 400; NoticeLevel := 500; InfoLevel := 600;
  DebugLevel := 700; TraceLevel := 800;
  new_file_handler _ path _ := inr path;
  parse_size _ := inr 1024;
  rotate_time d := d / 1000000000;
  ends_process lvl := lvl <=? 200;
|}.

#[export] Instance gookit_laws : SlogLaws string.
Proof.
  split; [cbn; unfold VerboseLevel; lia|reflexivity|]. intros lvl Hl. apply Z.leb_gt. exact Hl.
Qed.

Definition no_file : LoggerFileConfig := mkFileConfig None "" None None None false.
Definition no_outputs : LoggerOutputConfig := mkOutputConfig None no_file.
Definition quiet_config : LoggerConfig :=
  mkLoggerConfig "info" no_outputs {[ "Snapshotter"%string := mkSubLoggerConfig (Some "Panic"%string) no_outputs ]}.
Definition fresh_package : package (H := string) := mkPackage false quiet_config 0 None ∅ false [].

(** The snapshotter's logger goes on after a fatal message, another one does not. *)
Lemma fatal_needs_level_witness :
  exists l1 l2 p, (forall format args q, Fatalf (H := string) l1 format args q = Ret tt q) /\
    (forall format args q, Fatalf (H := string) l2 format args q = Crash FatalExit) /\
    NewLogger "Snapshotter" p = Ret l1 p /\ NewLogger "Replicator" p = Ret l2 p.
Proof.
  destruct (InitializeLogging quiet_config fresh_package) as [[] p|e p|c] eqn:Hinit; [|discriminate Hinit..].
  destruct (NewLogger "Snapshotter" p) as [l1 p1|e p1|c] eqn:H1; [|injection Hinit as <-; discriminate H1..].
  destruct (NewLogger "Replicator" p) as [l2 p2|e p2|c] eqn:H2; [|injection Hinit as <-; discriminate H2..].
  destruct (fatal_needs_level quiet_config fresh_package p p1 "Snapshotter" l1 Hinit H1) as [_ Hq].
  destruct (fatal_needs_level quiet_config fresh_package p p2 "Replicator" l2 Hinit H2) as [Hx _].
  exists l1, l2, p. split; [apply Hq; vm_compute; reflexivity|]. split; [apply Hx; vm_compute; discriminate|].
  injection Hinit as <-. rewrite H1, H2. vm_compute in H1, H2. injection H1 as <- <-. injection H2 as <- <-. by split.
Defined.
