(* ===== verification/Wiring.v ===== *)
(** * Wiring: modules, the container, and the services of the program

    spi/wiring/module.go and spi/wiring/container.go: a module collects bindings, the
    container registers the constructors of all modules, then runs what has to run at
    once.  internal/replication/wiremodules.go with the types of
    internal/sysconfig/providers.go: which constructors the program registers.

    A function value is what reflection shows of it (the types of its parameters and
    results) with its body.  The injector (samber/do) is an interface, the class
    [Injector]; a value is of type [V], the world that constructors act on is [W]. *)

From Stdlib Require Import ZArith Lia.
From stdpp Require Import base tactics option list numbers strings gmap.
From S2P Require Import Prelude.

(** ** Functions and bindings *)

Section Modules.
Context {V W : Type}.

(** A function: the names of the parameter types, the result types with whether they
    convert to [error], and the body: a value and an error. *)
Record gofunc : Type := mkFunc {
  f_name : string;
  f_in : list string;
  f_out : list (string * bool);
  f_call : list V -> G W (V * option string);
}.

(** What is handed to a module: nothing, a function that may be nil, another value that
    may be nil, or a value of a kind that cannot be nil. *)
Inductive any : Type := Nil | Func (f : option gofunc) | Nillable (isNil : bool) | Other.

Record bindingInfo : Type := mkBinding {
  b_inputs : list string;
  b_output : option string;
  b_mayReturnError : bool;
  b_call : list V -> G W (V * option string);
  b_forceInit : bool;
  b_invoker : bool;
}.

Definition module : Type := list bindingInfo.

(** [module.Provide]; [forceInit] stands for the only option there is.  A function
    without results has no first result, so [t.Out(0)] panics. *)
Definition Provide (constructor : any) (forceInit : bool) (m : module) : crash + module :=
  match constructor with
  | Func (Some f) =>
      let binding (out : string * bool) (mayReturnError : bool) :=
        inr (m ++ [mkBinding (f_in f) (Some (fst out)) mayReturnError (f_call f) forceInit false])%list in
      match f_out f with
      | [] => inl PanicIndexOutOfRange
      | [out] => binding out false
      | [out; (_, true)] => binding out true
      | [_; (_, false)] => inl PanicExplicit
      | _ => inl PanicExplicit
      end
  | Nil => inl PanicNilDereference
  | _ => inl PanicExplicit
  end.

(** [module.MayProvide]: nothing happens for nil; [IsNil] panics for kinds without nil. *)
Definition MayProvide (constructor : any) (forceInit : bool) (m : module) : crash + module :=
  match constructor with
  | Nil | Func None | Nillable true => inr m
  | Other => inl PanicExplicit
  | _ => Provide constructor forceInit m
  end.

(** [module.Invoke] *)
Definition Invoke (call : any) (m : module) : crash + module :=
  match call with
  | Func (Some f) =>
      let binding (mayReturnError : bool) := inr (m ++ [mkBinding (f_in f) None mayReturnError (f_call f) false true])%list in
      match f_out f with
      | [] => binding false
      | [(_, true)] => binding true
      | _ => inl PanicExplicit
      end
  | Nil => inl PanicNilDereference
  | _ => inl PanicExplicit
  end.

(** ** The injector *)

Class Injector (I : Type) : Type := {
  do_New : I;
  ListProvidedServices : I -> list string;
  provider_of : I -> string -> option bindingInfo;
  ProvideNamed : string -> bindingInfo -> I -> crash + I;
  OverrideNamed : string -> bindingInfo -> I -> crash + I;
  (** Builds a service, or returns the one that was built before. *)
  InvokeNamed : string -> G (I * W) V;
}.

(** What the library documents: a new injector is empty, providing a name twice
    panics, overriding replaces, and building services registers none. *)
Class InjectorLaws (I : Type) `{Injector I} : Prop := {
  new_empty : forall n, provider_of do_New n = None;
  listed : forall i n, n ∈ ListProvidedServices i <-> is_Some (provider_of i n);
  provided : forall i n b, provider_of i n = None ->
    exists i', ProvideNamed n b i = inr i' /\ forall m, provider_of i' m = if decide (m = n) then Some b else provider_of i m;
  provided_twice : forall i n b, is_Some (provider_of i n) -> exists c, ProvideNamed n b i = inl c;
  overridden : forall i n b,
    exists i', OverrideNamed n b i = inr i' /\ forall m, provider_of i' m = if decide (m = n) then Some b else provider_of i m;
  invoke_keeps : forall i w n v i' w', InvokeNamed n (i, w) = Ret v (i', w') -> forall m, provider_of i' m = provider_of i m;
}.

(** ** The container *)

Section Container.
Context {I : Type} `{Injector I}.

(** [stage1]: a binding that is no invoker has an output. *)
Definition register (b : bindingInfo) (i : I) : crash + I :=
  if b_invoker b then inr i
  else
    match b_output b with
    | None => inl PanicNilDereference
    | Some n => if decide (n ∈ ListProvidedServices i) then OverrideNamed n b i else ProvideNamed n b i
    end.

Fixpoint stage1 (bs : list bindingInfo) (i : I) : crash + I :=
  match bs with
  | [] => inr i
  | b :: bs => match register b i with inl c => inl c | inr i => stage1 bs i end
  end.

(** The parameters of a call, in order. *)
Fixpoint parameters (inputs : list string) : G (I * W) (list V) :=
  match inputs with
  | [] => mret []
  | n :: inputs => v ← InvokeNamed n; vs ← parameters inputs; mret (v :: vs)
  end.

Definition on_world {A} (m : G W A) : G (I * W) A := zoom snd (fun w s => (fst s, w)) m.

(** A function that declares no error returns none. *)
Definition call_error (b : bindingInfo) (r : V * option string) : option string :=
  if b_mayReturnError b then snd r else None.

(** [binding.invoker] *)
Definition invoker (b : bindingInfo) : G (I * W) unit :=
  params ← parameters (b_inputs b);
  r ← on_world (b_call b params);
  match call_error b r with Some e => fail e | None => mret tt end.

(** [binding.provider], which the injector runs; a value may have a [PostConstruct]. *)
Definition provider (PostConstruct : V -> option (G W (option string))) (b : bindingInfo) : G (I * W) V :=
  params ← parameters (b_inputs b);
  r ← on_world (b_call b params);
  match call_error b r with
  | Some e => fail e
  | None =>
      match PostConstruct (fst r) with
      | None => mret (fst r)
      | Some post => e ← on_world post; match (e : option string) with Some e => fail e | None => mret (fst r) end
      end
  end.

Definition stage2_binding (b : bindingInfo) : G (I * W) unit :=
  (if b_invoker b then invoker b else mret tt) ;;
  if b_forceInit b
  then match b_output b with Some n => InvokeNamed n ;; mret tt | None => panic PanicNilDereference end
  else mret tt.

Fixpoint stage2 (bs : list bindingInfo) : G (I * W) unit :=
  match bs with
  | [] => mret tt
  | b :: bs => stage2_binding b ;; stage2 bs
  end.

Definition NewContainer (modules : list module) (w : W) : outcome (I * W) unit :=
  match stage1 (concat modules) do_New with
  | inl c => Crash c
  | inr i => stage2 (concat modules) (i, w)
  end.

(** [container.Service], by the name of the service's type. *)
Definition Service (n : string) : G (I * W) V := InvokeNamed n.
End Container.
End Modules.

Arguments gofunc : clear implicits.
Arguments any : clear implicits.
Arguments bindingInfo : clear implicits.
Arguments module : clear implicits.
Arguments Injector : clear implicits.

(** ** The modules of the program *)

Section Program.
Context {V W : Type}.

(** [DefineModule]: the definer calls the module's methods in order. *)
Fixpoint define (calls : list (module V W -> crash + module V W)) (m : module V W) : crash + module V W :=
  match calls with
  | [] => inr m
  | call :: calls => match call m with inl c => inl c | inr m => define calls m end
  end.

Definition body : Type := list V -> G W (V * option string).

Definition err : string * bool := ("error"%string, true).
Definition function (name : string) (ins : list string) (out : string) (error : bool) (b : body) : gofunc V W :=
  mkFunc name ins ((out, false) :: if error then [err] else []) b.

(** The functions that construct the services; their bodies are given by name. *)
Context (bodies : string -> body).
Definition constructor (name : string) (ins : list string) (out : string) (error : bool) : any V W :=
  Func (Some (function name ins out error (bodies name))).

Definition StaticModule : crash + module V W := define [
  Provide (constructor "NewEventEmitterFromConfig"
    ["*config.Config"; "replicationcontext.ReplicationContext"; "stream.Manager"; "pgtypes.TypeManager"; "task.TaskManager"; "*stats.Service"]
    "*eventemitting.EventEmitter" true) false;
  Provide (constructor "NewStateStorageManager" ["statestorage.Storage"] "statestorage.Manager" false) false;
  Provide (constructor "NewSideChannel" ["statestorage.Manager"; "*pgx.ConnConfig"] "sidechannel.SideChannel" true) false;
  Provide (constructor "NewReplicationContext"
    ["*config.Config"; "*pgx.ConnConfig"; "statestorage.Manager"; "sidechannel.SideChannel"]
    "replicationcontext.ReplicationContext" true) false;
  Provide (constructor "NewResolver"
    ["*config.Config"; "replicationcontext.ReplicationContext"; "systemcatalog.SystemCatalog"; "pgtypes.TypeManager"; "task.TaskManager"]
    "eventhandlers.BaseReplicationEventHandler" true) true;
  Provide (constructor "NewNameGeneratorFromConfig" ["*config.Config"; "namingstrategy.NamingStrategy"] "schema.NameGenerator" false) false;
  Provide (constructor "NewReplicationChannel"
    ["replicationcontext.ReplicationContext"; "pgtypes.TypeManager"; "task.TaskManager"; "publication.PublicationManager"; "*stats.Service"]
    "*replicationchannel.ReplicationChannel" true) false;
  Provide (constructor "NewSinkManager" ["statestorage.Manager"; "sink.Sink"] "sink.Manager" false) false;
  Provide (constructor "NewStreamManager" ["schema.NameGenerator"; "pgtypes.TypeManager"; "sink.Manager"] "stream.Manager" true) false;
  Provide (constructor "NewSnapshotterFromConfig"
    ["*config.Config"; "statestorage.Manager"; "sidechannel.SideChannel"; "task.TaskManager"; "publication.PublicationManager";
     "pgtypes.TypeManager"; "*stats.Service"] "*snapshotting.Snapshotter" true) false;
  Provide (constructor "NewTaskManager" ["*config.Config"] "task.TaskManager" true) false;
  Provide (constructor "NewPublicationManager" ["*config.Config"; "sidechannel.SideChannel"] "publication.PublicationManager" false) false;
  Provide (constructor "NewSystemCatalog"
    ["*config.Config"; "*pgx.ConnConfig"; "sidechannel.SideChannel"; "pgtypes.TypeManager"; "*snapshotting.Snapshotter";
     "task.TaskManager"; "publication.PublicationManager"; "statestorage.Manager"] "systemcatalog.SystemCatalog" true) false;
  Provide (constructor "NewTypeManager" ["sidechannel.SideChannel"] "pgtypes.TypeManager" true) false;
  Provide (constructor "NewStatsService" ["*config.Config"] "*stats.Service" false) false] [].

Definition DynamicModule : crash + module V W := define [
  Provide (constructor "NewStateStorage" ["*config.Config"] "statestorage.Storage" true) false;
  Provide (constructor "NewNamingStrategy" ["*config.Config"] "namingstrategy.NamingStrategy" true) false;
  Provide (constructor "NewSink" ["*config.Config"] "sink.Sink" true) false] [].

(** The module that StartReplication defines. *)
Definition ConfigModule : crash + module V W := define [
  Provide (constructor "Config" [] "*config.Config" false) false;
  Provide (constructor "PgxConfig" [] "*pgx.ConnConfig" false) false;
  Invoke (Func (Some (mkFunc "containerInitializer" ["replicationcontext.ReplicationContext"; "pgtypes.TypeManager"] [err]
    (bodies "containerInitializer"))))] [].

(** The constructors that a SystemConfig may replace, each by its field. *)
Definition overrides : Type := string -> option body.

Definition replaced (o : overrides) (field : string) (ins : list string) (out : string) (error : bool) : any V W :=
  Func (function field ins out error <$> o field).

Definition OverridesModule (o : overrides) : crash + module V W := define [
  MayProvide (replaced o "EventEmitterProvider"
    ["*config.Config"; "replicationcontext.ReplicationContext"; "stream.Manager"; "pgtypes.TypeManager"; "task.TaskManager"; "*stats.Service"]
    "*eventemitting.EventEmitter" true) false;
  MayProvide (replaced o "LogicalReplicationResolverProvider"
    ["*config.Config"; "replicationcontext.ReplicationContext"; "systemcatalog.SystemCatalog"; "pgtypes.TypeManager"; "task.TaskManager"]
    "eventhandlers.BaseReplicationEventHandler" true) false;
  MayProvide (replaced o "NameGeneratorProvider" ["*config.Config"; "namingstrategy.NamingStrategy"] "schema.NameGenerator" false) false;
  MayProvide (replaced o "NamingStrategyProvider" ["*config.Config"] "namingstrategy.NamingStrategy" true) false;
  MayProvide (replaced o "ReplicationChannelProvider"
    ["replicationcontext.ReplicationContext"; "pgtypes.TypeManager"; "task.TaskManager"; "publication.PublicationManager"; "*stats.Service"]
    "*replicationchannel.ReplicationChannel" true) false;
  MayProvide (replaced o "ReplicationContextProvider"
    ["*config.Config"; "*pgx.ConnConfig"; "statestorage.Manager"; "sidechannel.SideChannel"]
    "replicationcontext.ReplicationContext" true) false;
  MayProvide (replaced o "SideChannelProvider" ["statestorage.Manager"; "*pgx.ConnConfig"] "sidechannel.SideChannel" true) false;
  MayProvide (replaced o "SinkManagerProvider" ["statestorage.Manager"; "sink.Sink"] "sink.Manager" false) false;
  MayProvide (replaced o "SnapshotterProvider"
    ["*config.Config"; "statestorage.Manager"; "sidechannel.SideChannel"; "task.TaskManager"; "publication.PublicationManager";
     "pgtypes.TypeManager"; "*stats.Service"] "*snapshotting.Snapshotter" true) false;
  MayProvide (replaced o "StateStorageManagerProvider" ["statestorage.Storage"] "statestorage.Manager" false) false;
  MayProvide (replaced o "StateStorageProvider" ["*config.Config"] "statestorage.Storage" true) false;
  MayProvide (replaced o "StreamManagerProvider" ["schema.NameGenerator"; "pgtypes.TypeManager"; "sink.Manager"] "stream.Manager" true) false;
  MayProvide (replaced o "SystemCatalogProvider"
    ["*config.Config"; "*pgx.ConnConfig"; "sidechannel.SideChannel"; "pgtypes.TypeManager"; "*snapshotting.Snapshotter";
     "task.TaskManager"; "publication.PublicationManager"; "statestorage.Manager"] "systemcatalog.SystemCatalog" true) false;
  MayProvide (replaced o "TypeManagerProvider" ["sidechannel.SideChannel"] "pgtypes.TypeManager" true) false;
  MayProvide (replaced o "TaskManagerProvider" ["*config.Config"] "task.TaskManager" true) false;
  MayProvide (replaced o "PublicationManagerProvider" ["*config.Config"; "sidechannel.SideChannel"] "publication.PublicationManager" false)
    false] [].

(** The modules that StartReplication hands to the container, in this order. *)
Definition program_modules (o : overrides) : crash + list (module V W) :=
  static ← StaticModule;
  dynamic ← DynamicModule;
  conf ← ConfigModule;
  over ← OverridesModule o;
  mret [static; dynamic; conf; over].
End Program.

(** ** Properties *)

(** *** Registration: the last one wins *)

Definition provides {V W} (n : string) (b : bindingInfo V W) : bool :=
  negb (b_invoker b) && bool_decide (b_output b = Some n).

(** The binding that the container uses for a service. *)
Fixpoint last_provider {V W} (n : string) (bs : list (bindingInfo V W)) : option (bindingInfo V W) :=
  match bs with
  | [] => None
  | b :: bs => match last_provider n bs with Some b' => Some b' | None => if provides n b then Some b else None end
  end.

Definition well_formed {V W} (b : bindingInfo V W) : Prop := b_invoker b = true \/ is_Some (b_output b).

Section Registration.
Context {V W I : Type} `{InjectorLaws V W I}.

Lemma register_spec b (i : I) :
  well_formed b -> exists i', register b i = inr i' /\ forall m, provider_of i' m = if provides m b then Some b else provider_of i m.
Proof.
  intros Hwf. unfold register, provides. destruct (b_invoker b) eqn:Hi; [by exists i|]. cbn [negb andb].
  destruct Hwf as [?|[n Hn]]; [congruence|]. rewrite Hn.
  assert (Hdec : forall m, bool_decide (Some n = Some m) = bool_decide (m = n)).
  { intros m. apply bool_decide_ext. naive_solver. }
  destruct (decide (n ∈ ListProvidedServices i)) as [Hin|Hin].
  - destruct (overridden i n b) as (i' & -> & Hp). exists i'. split; [done|]. intros m. rewrite Hp, Hdec.
    by destruct (decide (m = n)) as [?|?]; [rewrite bool_decide_true|rewrite bool_decide_false].
  - rewrite listed in Hin. destruct (provided i n b) as (i' & -> & Hp); [by apply eq_None_not_Some|].
    exists i'. split; [done|]. intros m. rewrite Hp, Hdec.
    by destruct (decide (m = n)) as [?|?]; [rewrite bool_decide_true|rewrite bool_decide_false].
Qed.

Lemma stage1_spec bs (i : I) :
  Forall well_formed bs -> exists i', stage1 bs i = inr i' /\
    forall m, provider_of i' m = match last_provider m bs with Some b => Some b | None => provider_of i m end.
Proof.
  revert i. induction bs as [|b bs IH]; intros i Hwf; cbn; [by exists i|].
  apply Forall_cons in Hwf as [Hb Hwf]. destruct (register_spec b i Hb) as (i1 & -> & H1).
  destruct (IH i1 Hwf) as (i2 & -> & H2). exists i2. split; [done|]. intros m. rewrite H2, H1.
  destruct (last_provider m bs); [done|]. by destruct (provides m b).
Qed.
End Registration.

Lemma last_provider_app {V W} n (l1 l2 : list (bindingInfo V W)) :
  last_provider n (l1 ++ l2) = match last_provider n l2 with Some b => Some b | None => last_provider n l1 end.
Proof.
  induction l1 as [|b l1 IH]; cbn; [by destruct (last_provider n l2)|]. rewrite IH. by destruct (last_provider n l2).
Qed.

Lemma last_provider_in {V W} n (bs : list (bindingInfo V W)) b :
  last_provider n bs = Some b -> b ∈ bs /\ b_output b = Some n.
Proof.
  induction bs as [|b' bs IH]; cbn; [done|]. destruct (last_provider n bs) as [b1|] eqn:E.
  - intros [= ->]. destruct IH as [Hin Ho]; [done|]. split; [by apply list_elem_of_further|done].
  - destruct (provides n b') eqn:Hp; [|done]. intros [= ->]. split; [apply list_elem_of_here|].
    unfold provides in Hp. apply andb_prop in Hp as [_ Hp]. by apply bool_decide_eq_true in Hp.
Qed.

(** *** The services of the program *)

(** The services in an order in which they can be built, with what they need. *)
Definition services : list (string * list string) := [
  ("*config.Config", []);
  ("*pgx.ConnConfig", []);
  ("statestorage.Storage", ["*config.Config"]);
  ("namingstrategy.NamingStrategy", ["*config.Config"]);
  ("sink.Sink", ["*config.Config"]);
  ("*stats.Service", ["*config.Config"]);
  ("statestorage.Manager", ["statestorage.Storage"]);
  ("sidechannel.SideChannel", ["statestorage.Manager"; "*pgx.ConnConfig"]);
  ("pgtypes.TypeManager", ["sidechannel.SideChannel"]);
  ("task.TaskManager", ["*config.Config"]);
  ("publication.PublicationManager", ["*config.Config"; "sidechannel.SideChannel"]);
  ("replicationcontext.ReplicationContext", ["*config.Config"; "*pgx.ConnConfig"; "statestorage.Manager"; "sidechannel.SideChannel"]);
  ("schema.NameGenerator", ["*config.Config"; "namingstrategy.NamingStrategy"]);
  ("sink.Manager", ["statestorage.Manager"; "sink.Sink"]);
  ("stream.Manager", ["schema.NameGenerator"; "pgtypes.TypeManager"; "sink.Manager"]);
  ("*snapshotting.Snapshotter", ["*config.Config"; "statestorage.Manager"; "sidechannel.SideChannel"; "task.TaskManager";
    "publication.PublicationManager"; "pgtypes.TypeManager"; "*stats.Service"]);
  ("systemcatalog.SystemCatalog", ["*config.Config"; "*pgx.ConnConfig"; "sidechannel.SideChannel"; "pgtypes.TypeManager";
    "*snapshotting.Snapshotter"; "task.TaskManager"; "publication.PublicationManager"; "statestorage.Manager"]);
  ("eventhandlers.BaseReplicationEventHandler", ["*config.Config"; "replicationcontext.ReplicationContext";
    "systemcatalog.SystemCatalog"; "pgtypes.TypeManager"; "task.TaskManager"]);
  ("*replicationchannel.ReplicationChannel", ["replicationcontext.ReplicationContext"; "pgtypes.TypeManager"; "task.TaskManager";
    "publication.PublicationManager"; "*stats.Service"]);
  ("*eventemitting.EventEmitter", ["*config.Config"; "replicationcontext.ReplicationContext"; "stream.Manager";
    "pgtypes.TypeManager"; "task.TaskManager"; "*stats.Service"])]%string.

Definition needs (n : string) : option (list string) := snd <$> List.find (fun s => String.eqb (fst s) n) services.

(** The position of a service in that order. *)
Fixpoint index_in (n : string) (l : list (string * list string)) : nat :=
  match l with [] => 0 | s :: l => if String.eqb (fst s) n then 0 else S (index_in n l) end.
Definition position (n : string) : nat := index_in n services.

(** Every service needs services before it only. *)
Lemma services_ordered n l m : needs n = Some l -> m ∈ l -> is_Some (needs m) /\ position m < position n.
Proof.
  intros Hn Hm.
  assert (Hall : forallb (fun s => forallb (fun m => match needs m with Some _ => Nat.ltb (position m) (position (fst s)) | None => false end)
    (snd s)) services = true) by (vm_compute; reflexivity).
  unfold needs in Hn. destruct (List.find _ services) as [s|] eqn:Hf; [|done]. injection Hn as <-.
  apply List.find_some in Hf as [Hin He]. apply String.eqb_eq in He. subst n.
  rewrite forallb_forall in Hall. specialize (Hall s Hin). rewrite forallb_forall in Hall.
  specialize (Hall m (proj1 (list_elem_of_In _ _) Hm)). destruct (needs m); [|done]. split; [done|]. by apply Nat.ltb_lt.
Qed.

Definition shape_ok {V W} (b : bindingInfo V W) : Prop :=
  well_formed b /\ forall n, b_output b = Some n -> needs n = Some (b_inputs b).

Section Wired.
Context {V W : Type} (bodies : string -> body (V := V) (W := W)).

(** What the modules hold, whatever is overridden. *)
Lemma fixed_modules :
  exists static dynamic conf, StaticModule bodies = inr static /\ DynamicModule bodies = inr dynamic /\ ConfigModule bodies = inr conf /\
    Forall shape_ok (static ++ dynamic ++ conf)%list /\
    (forall n, is_Some (needs n) -> is_Some (last_provider n (static ++ dynamic ++ conf)%list)).
Proof.
  do 3 eexists. do 3 (split; [reflexivity|]). split.
  - cbn. repeat (apply List.Forall_cons; [split; [first [by left|right; by eexists]|intros n Hn; first [discriminate Hn|by injection Hn as <-]]|]).
    constructor.
  - intros n Hn. unfold needs in Hn. destruct (List.find _ services) as [s|] eqn:Hf; [|by destruct Hn].
    apply List.find_some in Hf as [Hin He]. apply String.eqb_eq in He. subst n.
    cbn in Hin. repeat (destruct Hin as [<-|Hin]; [by eexists|]). destruct Hin.
Qed.

(** The fields of a SystemConfig with the service that each replaces. *)
Definition replaceable : list (string * string) := [
  ("EventEmitterProvider", "*eventemitting.EventEmitter");
  ("LogicalReplicationResolverProvider", "eventhandlers.BaseReplicationEventHandler");
  ("NameGeneratorProvider", "schema.NameGenerator");
  ("NamingStrategyProvider", "namingstrategy.NamingStrategy");
  ("ReplicationChannelProvider", "*replicationchannel.ReplicationChannel");
  ("ReplicationContextProvider", "replicationcontext.ReplicationContext");
  ("SideChannelProvider", "sidechannel.SideChannel");
  ("SinkManagerProvider", "sink.Manager");
  ("SnapshotterProvider", "*snapshotting.Snapshotter");
  ("StateStorageManagerProvider", "statestorage.Manager");
  ("StateStorageProvider", "statestorage.Storage");
  ("StreamManagerProvider", "stream.Manager");
  ("SystemCatalogProvider", "systemcatalog.SystemCatalog");
  ("TypeManagerProvider", "pgtypes.TypeManager");
  ("TaskManagerProvider", "task.TaskManager");
  ("PublicationManagerProvider", "publication.PublicationManager")]%string.

Definition override_binding (o : overrides (V := V) (W := W)) (r : string * string) (error : bool) : option (bindingInfo V W) :=
  (fun b => mkBinding (default [] (needs (snd r))) (Some (snd r)) error b false false) <$> o (fst r).

(** Which of the constructors return an error. *)
Definition may_fail : list bool :=
  [true; true; false; true; true; true; true; false; true; false; true; true; true; true; true; false].

Definition override_call (o : overrides (V := V) (W := W)) (r : (string * string) * bool) : module V W -> crash + module V W :=
  MayProvide (replaced o (fst (fst r)) (default [] (needs (snd (fst r)))) (snd (fst r)) (snd r)) false.

Lemma overrides_calls o : OverridesModule o = define (override_call o <$> zip replaceable may_fail) [].
Proof. reflexivity. Qed.

Lemma define_overrides o l m :
  define (override_call o <$> l) m = inr (m ++ omap (fun r => override_binding o (fst r) (snd r)) l)%list.
Proof.
  revert m. induction l as [|[[field out] e] l IH]; intros m; cbn [define fmap list_fmap omap list_omap]; [by rewrite app_nil_r|].
  unfold override_call at 1, replaced, override_binding at 1. cbn [fst snd].
  destruct (o field) as [b|]; cbn [MayProvide Provide fmap option_fmap option_map].
  - destruct e; cbn; rewrite IH, <- app_assoc; done.
  - apply IH.
Qed.

Lemma overrides_module o : OverridesModule o = inr (omap (fun r => override_binding o (fst r) (snd r)) (zip replaceable may_fail)).
Proof. rewrite overrides_calls. apply define_overrides. Qed.

Lemma replaceable_needed : forallb (fun r => match needs (snd r) with Some _ => true | None => false end) replaceable = true.
Proof. reflexivity. Qed.

Lemma overrides_shape o : Forall shape_ok (omap (fun r => override_binding o (fst r) (snd r)) (zip replaceable may_fail)).
Proof.
  apply Forall_forall. intros b Hb. apply list_elem_of_omap in Hb as ([[field n] e] & Hin & Hb).
  unfold override_binding in Hb. cbn [fst snd] in Hb. destruct (o field) as [bd|]; [|done]. injection Hb as <-.
  apply elem_of_zip_l in Hin. pose proof replaceable_needed as Hall. rewrite forallb_forall in Hall.
  specialize (Hall _ (proj1 (list_elem_of_In _ _) Hin)). cbn [snd] in Hall.
  split; [right; by eexists|]. intros n' Hn. injection Hn as <-.
  change (needs n = Some (default [] (needs n))). revert Hall. by destruct (needs n).
Qed.

Lemma last_provider_some n (bs : list (bindingInfo V W)) b :
  b ∈ bs -> b_invoker b = false -> b_output b = Some n -> is_Some (last_provider n bs).
Proof.
  intros Hin Hi Ho. induction bs as [|b' bs IH]; [by apply not_elem_of_nil in Hin|]. cbn.
  destruct (last_provider n bs); [done|]. apply elem_of_cons in Hin as [->|Hin]; [|by apply IH in Hin; destruct Hin].
  unfold provides. rewrite Hi, bool_decide_true by done. done.
Qed.

(** The override of a service is the one that counts. *)
Lemma override_wins o field n e bd :
  ((field, n), e) ∈ zip replaceable may_fail -> o field = Some bd ->
  exists b, last_provider n (omap (fun r => override_binding o (fst r) (snd r)) (zip replaceable may_fail)) = Some b /\ b_call b = bd.
Proof.
  intros Hin Ho. set (l := omap _ _).
  assert (Hb : mkBinding (default [] (needs n)) (Some n) e bd false false ∈ l).
  { apply list_elem_of_omap. exists ((field, n), e). split; [done|]. unfold override_binding. cbn [fst snd]. by rewrite Ho. }
  destruct (last_provider_some n l _ Hb eq_refl eq_refl) as [b Hl]. exists b. split; [done|].
  apply last_provider_in in Hl as [Hinb Hout]. unfold l in Hinb. apply list_elem_of_omap in Hinb as ([[field' n'] e'] & Hin' & Hb').
  unfold override_binding in Hb'. cbn [fst snd] in Hb'. destruct (o field') as [bd'|] eqn:Ho'; [|done]. injection Hb' as <-.
  cbn in Hout. injection Hout as ->. cbn. apply elem_of_zip_l in Hin, Hin'.
  assert (Hsame : forallb (fun r => forallb (fun r' => implb (String.eqb (snd r) (snd r')) (String.eqb (fst r) (fst r'))) replaceable)
    replaceable = true) by reflexivity.
  rewrite forallb_forall in Hsame. specialize (Hsame _ (proj1 (list_elem_of_In _ _) Hin)). rewrite forallb_forall in Hsame.
  specialize (Hsame _ (proj1 (list_elem_of_In _ _) Hin')). cbn [fst snd] in Hsame. rewrite String.eqb_refl in Hsame.
  apply String.eqb_eq in Hsame. subst field'. congruence.
Qed.

Lemma concat_four {A} (a b c d : list A) : concat [a; b; c; d] = ((a ++ b ++ c) ++ d)%list.
Proof. cbn. by rewrite app_nil_r, <- !app_assoc. Qed.

Context {I : Type} `{InjectorLaws V W I}.

(** C31. The wiring of the program is complete for every choice of replaced constructors: no
    module and no registration panics; every service that a constructor needs is
    registered, and the needs have no cycle, since they go down in a fixed order of the
    services; and where the system configuration replaces a constructor the container
    uses the replacement. *)
Theorem wiring_complete (o : overrides (V := V) (W := W)) :
  exists ms i, program_modules bodies o = inr ms /\ stage1 (concat ms) do_New = inr i /\
    (forall n, is_Some (provider_of i n) <-> is_Some (needs n)) /\
    (forall n b m, provider_of i n = Some b -> m ∈ b_inputs b -> is_Some (provider_of i m) /\ position m < position n) /\
    (forall field n bd, (field, n) ∈ replaceable -> o field = Some bd -> exists b, provider_of i n = Some b /\ b_call b = bd).
Proof.
  destruct fixed_modules as (static & dynamic & conf & Hs & Hd & Hc & Hshape & Hcomplete).
  set (over := omap (fun r => override_binding o (fst r) (snd r)) (zip replaceable may_fail)).
  assert (Hms : program_modules bodies o = inr [static; dynamic; conf; over]).
  { unfold program_modules. rewrite Hs, Hd, Hc, overrides_module. reflexivity. }
  pose proof (concat_four static dynamic conf over) as Hcat.
  assert (Hall : Forall shape_ok ((static ++ dynamic ++ conf) ++ over)%list) by (apply Forall_app; split; [done|apply overrides_shape]).
  destruct (stage1_spec ((static ++ dynamic ++ conf) ++ over)%list do_New) as (i & Hi & Hp).
  { eapply Forall_impl; [exact Hall|]. by intros b [? _]. }
  assert (Hprov : forall n b, provider_of i n = Some b -> needs n = Some (b_inputs b)).
  { intros n b. rewrite Hp. destruct (last_provider n _) as [b'|] eqn:El; [|by rewrite new_empty]. intros [= ->].
    apply last_provider_in in El as [Hin Hout]. rewrite Forall_forall in Hall. by apply Hall. }
  assert (Hneeds : forall n, is_Some (needs n) -> is_Some (provider_of i n)).
  { intros n Hn. rewrite Hp, last_provider_app. destruct (last_provider n over); [done|].
    destruct (Hcomplete n Hn) as [b Hb]. rewrite Hb. done. }
  exists [static; dynamic; conf; over], i. split; [exact Hms|].
  split; [etransitivity; [apply (f_equal (fun l => stage1 l do_New)); exact Hcat|exact Hi]|]. split; [|split].
  - intros n. split; [|apply Hneeds]. intros [b Hb]. rewrite (Hprov n b Hb). done.
  - intros n b m Hb Hm. destruct (services_ordered n _ m (Hprov n b Hb) Hm) as [Hn Hlt]. split; [by apply Hneeds|done].
  - intros field n bd Hin Ho. assert (Hz : exists e, ((field, n), e) ∈ zip replaceable may_fail).
    { apply list_elem_of_lookup in Hin as [k Hk]. destruct (lookup_lt_is_Some_2 may_fail k) as [e He].
      { apply lookup_lt_Some in Hk. exact Hk. }
      exists e. apply list_elem_of_lookup. exists k. by apply lookup_zip_Some. }
    destruct Hz as [e Hz]. destruct (override_wins o field n e bd Hz Ho) as (b & Hb & Hcall).
    exists b. rewrite Hp, last_provider_app. fold over in Hb. by rewrite Hb.
Qed.

(** What runs when the container starts, in this order: the resolver is built (with the
    catalog that it needs), and then the versions of the server are checked. *)
Lemma start_order o :
  exists ms, program_modules bodies o = inr ms /\
    (fun b => (b_output b, b_inputs b)) <$> List.filter (fun b => b_forceInit b || b_invoker b) (concat ms)
    = [(Some "eventhandlers.BaseReplicationEventHandler"%string,
        ["*config.Config"; "replicationcontext.ReplicationContext"; "systemcatalog.SystemCatalog"; "pgtypes.TypeManager";
         "task.TaskManager"]%string);
       (None, ["replicationcontext.ReplicationContext"; "pgtypes.TypeManager"]%string)].
Proof.
  eexists. split; [unfold program_modules; rewrite overrides_module; reflexivity|].
  assert (Hno : forall l, List.filter (fun b => b_forceInit b || b_invoker b)
    (omap (fun r => override_binding o (fst r) (snd r)) l) = []).
  { induction l as [|[[field n] e] l IH]; [done|]. cbn. unfold override_binding at 1. cbn. by destruct (o field). }
  cbn -[omap]. rewrite app_nil_r, Hno. done.
Qed.
End Wired.

(** *** A concrete injector *)

#[export] Instance map_injector : Injector unit unit (gmap string (bindingInfo unit unit)) := {|
  do_New := ∅;
  ListProvidedServices i := (map_to_list i).*1;
  provider_of i n := i !! n;
  ProvideNamed n b i := match i !! n with Some _ => inl PanicExplicit | None => inr (<[ n := b ]> i) end;
  OverrideNamed n b i := inr (<[ n := b ]> i);
  InvokeNamed n := fun s => match fst s !! n with
    | Some _ => Ret tt s
    | None => Err ("could not find service `" ++ n ++ "`") s
    end;
|}.

#[export] Instance map_injector_laws : InjectorLaws (gmap string (bindingInfo unit unit)).
Proof.
  split; cbn.
  - intros n. apply lookup_empty.
  - intros i n. rewrite list_elem_of_fmap. split.
    + intros ([k b] & -> & Hin). apply elem_of_map_to_list in Hin. by eexists.
    + intros [b Hb]. exists (n, b). split; [done|]. by apply elem_of_map_to_list.
  - intros i n b Hn. rewrite Hn. eexists. split; [done|]. intros m. destruct (decide (m = n)) as [->|];
      [apply lookup_insert_eq|by apply lookup_insert_ne].
  - intros i n b [b' Hb]. rewrite Hb. by eexists.
  - intros i n b. eexists. split; [done|]. intros m. destruct (decide (m = n)) as [->|];
      [apply lookup_insert_eq|by apply lookup_insert_ne].
  - intros i w n v i' w' Hinv m. by destruct (i !! n); simplify_eq.
Qed.

(** A task manager of the tests replaces the built-in one. *)
Lemma wiring_complete_witness :
  exists ms i b, program_modules (V := unit) (W := unit) (fun _ _ => mret (tt, None)) (fun f =>
      if String.eqb f "TaskManagerProvider" then Some (fun _ => mret (tt, Some "replaced"%string)) else None) = inr ms /\
    stage1 (I := gmap string (bindingInfo unit unit)) (concat ms) do_New = inr i /\
    provider_of i "task.TaskManager"%string = Some b /\ b_call b [] tt = Ret (tt, Some "replaced"%string) tt.
Proof.
  destruct (wiring_complete (V := unit) (W := unit) (I := gmap string (bindingInfo unit unit)) (fun _ _ => mret (tt, None))
    (fun f => if String.eqb f "TaskManagerProvider" then Some (fun _ => mret (tt, Some "replaced"%string)) else None))
    as (ms & i & Hms & Hi & _ & _ & Hover).
  destruct (Hover "TaskManagerProvider"%string "task.TaskManager"%string (fun _ => mret (tt, Some "replaced"%string))) as (b & Hb & Hcall).
  - apply (list_elem_of_lookup_2 _ 14). reflexivity.
  - reflexivity.
  - exists ms, i, b. split; [exact Hms|]. split; [exact Hi|]. split; [exact Hb|]. rewrite Hcall. reflexivity.
Defined.
