(* ===== verification/Startup.v ===== *)
(** * Startup: from the command line to a running streamer

    cmd/timescaledb-event-streamer/main.go (start), internal/streamer.go
    (NewStreamer) and spi/plugins/plugins.go: reading the configuration file,
    completing the configuration, loading plugins, with the exit code of every failure;
    then the two goroutines that start the streamer and stop it on a signal, as a step
    relation.

    The configuration is the value of Configuration.v and is read by its lookups.
    What the operating system, the decoders of TOML and YAML, the parser of
    connection strings, the plugins and the services answer is an argument, the
    record [system]. *)

From Stdlib Require Import ZArith Lia Ascii.
From stdpp Require Import base tactics option list numbers strings relations.
From S2P Require Import Prelude Lifecycle Logging Configuration.

Local Open Scope Z_scope.

(** ** Assignments to fields of the configuration *)

Fixpoint set_field (property : string) (new : goval -> goval) (fields : list (string * string * gotype)) (vs : list goval) :
    list goval :=
  match fields, vs with
  | (_, tag, _) :: fields, v :: vs =>
      if String.eqb tag property then new v :: vs else v :: set_field property new fields vs
  | _, _ => vs
  end.

(** The field of a structure within structures, by the tags on the way. *)
Fixpoint set_path (t : gotype) (properties : list string) (new : goval) (v : goval) : goval :=
  match properties with
  | [] => new
  | property :: properties =>
      match underlying t, v with
      | TStruct _ fields, VStruct vs =>
          match find_type property fields with
          | Some t' => VStruct (set_field property (set_path t' properties new) fields vs)
          | None => v
          end
      | _, _ => v
      end
  end.

(** ** The surroundings *)

(** What [plugin.Lookup] gives: a function as a value of its function type, a variable
    as a pointer to it. *)
Inductive symbol : Type := FunctionSymbol (initialize : option string) | VariableSymbol.

Record system : Type := mkSystem {
  env : environment;
  open_file : string -> string + unit;
  read_file : string -> string + list Byte.byte;
  (** The decoders of package config: TOML or YAML. *)
  fromToml : list Byte.byte -> string + goval;
  fromYaml : list Byte.byte -> string + goval;
  InitializeLogging : goval -> option goerror;
  (** Connection strings and random names. *)
  ParseConfig : string -> option string;
  random_prefix : string;
  plugin_Open : string -> option string;
  plugin_Lookup : string -> string + symbol;
  NewReplicator : goval -> option goerror;
}.

Section Startup.
Context (s : system) (rune_string : Z -> string).

Definition string_of (r : crash + goval) : crash + string :=
  match r with inl c => inl c | inr (VString v) => inr v | inr _ => inl PanicTypeAssertion end.

(** [GetOrDefault] for a string. *)
Definition property (cfg : goval) (name default : string) : crash + string :=
  string_of (get_site rune_string (env s) cfg (string_property name default)).

(** ** Plugins *)

(** The assertion [s.(PluginInitialize)]: neither a function's own type nor a pointer is
    the defined type PluginInitialize. *)
Definition as_PluginInitialize (sym : symbol) : crash + option string :=
  match sym with FunctionSymbol _ | VariableSymbol => inl PanicTypeAssertion end.

Fixpoint LoadPlugins (paths : list string) : crash + option string :=
  match paths with
  | [] => inr None
  | path :: paths =>
      match plugin_Open s path with
      | Some e => inr (Some e)
      | None =>
          match plugin_Lookup s path with
          | inl e => inr (Some e)
          | inr sym =>
              match as_PluginInitialize sym with
              | inl c => inl c
              | inr (Some e) => inr (Some e)
              | inr None => LoadPlugins paths
              end
          end
      end
  end.

Definition plugin_paths (cfg : goval) : list string :=
  match find_path (Config, cfg) ["plugins"%string] with
  | inr (Some (_, VSlice (Some l))) => omap (fun v => match v with VString p => Some p | _ => None end) l
  | _ => []
  end.

(** ** The streamer *)

Definition publicationName : string := "pg_ts_streamer".

(** [config.PostgreSQL.Publication.Name] and [config.Topic.Prefix] *)
Definition complete_publication (cfg : goval) : crash + goval :=
  pgPublication ← property cfg PropertyPostgresqlPublicationName "";
  mret (if String.eqb pgPublication "" then set_path Config ["postgresql"; "publication"; "name"]%string (VString publicationName) cfg
        else cfg).

Definition complete_prefix (cfg : goval) : goval :=
  match find_path (Config, cfg) ["topic"; "prefix"]%string with
  | inr (Some (_, VString "")) => set_path Config ["topic"; "prefix"]%string (VString (random_prefix s)) cfg
  | _ => cfg
  end.

(** [NewStreamer] without a PgxConfig of the caller: the completed configuration, or an
    exit. *)
Definition NewStreamer (cfg : goval) : crash + (ExitError + goval) :=
  connection ← property cfg PropertyPostgresqlConnection "host=localhost user=repl_user";
  match ParseConfig s connection with
  | Some e => mret (inl (NewExitError ("PostgreSQL connection string failed to parse: " ++ e)%string 6))
  | None =>
      _ ← property cfg PropertyPostgresqlPassword "";
      cfg ← complete_publication cfg;
      let cfg := complete_prefix cfg in
      plugins ← LoadPlugins (plugin_paths cfg);
      match (plugins : option string) with
      | Some e => mret (inl (AdaptError (plain_error e) 50))
      | None =>
          match NewReplicator s cfg with
          | Some e => mret (inl (AdaptError e 21))
          | None => mret (inr cfg)
          end
      end
  end.

(** ** The command *)

(** [filepath.Ext]: what follows the last dot of the last element of a path. *)
Fixpoint has_slash (p : string) : bool :=
  match p with EmptyString => false | String c p => Ascii.eqb c "/" || has_slash p end.
Fixpoint Ext (p : string) : string :=
  match p with
  | EmptyString => EmptyString
  | String c rest =>
      let e := Ext rest in
      if negb (String.eqb e "") then e
      else if Ascii.eqb c "." && negb (has_slash rest) then p else EmptyString
  end.

Definition Unmarshall (content : list Byte.byte) (toml : bool) : string + goval :=
  if toml then fromToml s content else fromYaml s content.

(** The configuration: from the file of the flag or of the environment, or empty. *)
Definition configuration (flag : string) : ExitError + goval :=
  let configurationFile :=
    if String.eqb flag "" then default ""%string (env s "TIMESCALEDB_EVENT_STREAMER_CONFIG"%string) else flag in
  if String.eqb configurationFile "" then inr (zero_value Config)
  else
    match open_file s configurationFile with
    | inl e => inl (NewExitError ("Configuration file couldn't be opened: " ++ e ++ String Logging.newline "")%string 3)
    | inr _ =>
        match read_file s configurationFile with
        | inl e => inl (NewExitError ("Configuration file couldn't be read: " ++ e ++ String Logging.newline "")%string 4)
        | inr b =>
            match Unmarshall b (String.eqb (Ext (Logging.ToLower configurationFile)) ".toml") with
            | inl e => inl (NewExitError ("Configuration file couldn't be decoded: " ++ e ++ String Logging.newline "")%string 5)
            | inr cfg => inr cfg
            end
        end
    end.

(** The command up to the streamer: it ends, or it has a streamer with this
    configuration. *)
Inductive prepared : Type := Ends (result : option ExitError) | Streams (cfg : goval).

Definition start (versionOnly : bool) (flag : string) : crash + prepared :=
  if versionOnly then mret (Ends None)
  else
    match configuration flag with
    | inl e => mret (Ends (Some e))
    | inr cfg =>
        match InitializeLogging s cfg with
        | Some e => mret (Ends (Some (AdaptError e 1)))
        | None =>
            connection ← property cfg PropertyPostgresqlConnection "";
            if String.eqb connection "" then mret (Ends (Some (NewExitError "PostgreSQL connection string required" 6)))
            else
              streamer ← NewStreamer cfg;
              match (streamer : ExitError + goval) with
              | inl e => mret (Ends (Some e))
              | inr cfg => mret (Streams cfg)
              end
        end
    end.
End Startup.

(** ** The streamer and the signals *)

(** The goroutine of the command: in [streamer.Start], about to stop a streamer that did
    not start, in [streamer.Stop] because of that, waiting for [done], and returned. *)
Inductive main_goroutine : Type :=
| Starting | StartFailed (e : ExitError) | EarlyShutdown (e : ExitError) | Awaiting | Returned (r : option ExitError).

(** The goroutine of the signals: waiting for one, in [streamer.Stop], about to signal
    [done], and at its end. *)
Inductive signal_goroutine : Type := Listening | Stopping | Stopped | SignalledDone.

(** The channel of the signals holds one, and so does that of the waiter [done].  [stops]
    counts the calls of [streamer.Stop]; what [streamer.Start] returned, and what
    [streamer.Stop] returned to the goroutine of the signals, are history.  The process
    has ended when [exit] says how. *)
Record process : Type := mkProcess {
  main : main_goroutine;
  handler : signal_goroutine;
  pending : bool;
  done : bool;
  stops : nat;
  start_result : option (option ExitError);
  stop_result : option (option ExitError);
  exit : option (option ExitError);
}.

Definition launched : process := mkProcess Starting Listening false false 0 None None None.

(** The calls of the streamer return what they like, and may not return at all. *)
Inductive step : process -> process -> Prop :=
| step_signal m h d n a b :
    step (mkProcess m h false d n a b None) (mkProcess m h true d n a b None)
| step_started h p d n a b :
    step (mkProcess Starting h p d n a b None) (mkProcess Awaiting h p d n (Some None) b None)
| step_start_failed e h p d n a b :
    step (mkProcess Starting h p d n a b None) (mkProcess (StartFailed e) h p d n (Some (Some e)) b None)
| step_early_shutdown e h p d n a b :
    step (mkProcess (StartFailed e) h p d n a b None) (mkProcess (EarlyShutdown e) h p d (S n) a b None)
(** An error of the early shutdown is only printed. *)
| step_early_return e h p d n a b :
    step (mkProcess (EarlyShutdown e) h p d n a b None) (mkProcess (Returned (Some e)) h p d n a b (Some (Some e)))
| step_take m d n a b :
    step (mkProcess m Listening true d n a b None) (mkProcess m Stopping false d (S n) a b None)
| step_stopped m p d n a b :
    step (mkProcess m Stopping p d n a b None) (mkProcess m Stopped p d n a (Some None) None)
(** [os.Exit(1)] *)
| step_hard_error e m p d n a b :
    step (mkProcess m Stopping p d n a b None)
         (mkProcess m Stopped p d n a (Some (Some e)) (Some (Some (NewExitError (message e) 1))))
| step_signal_done m p n a b :
    step (mkProcess m Stopped p false n a b None) (mkProcess m SignalledDone p true n a b None)
(** The waiter of the command has no timeout, so its wait has no error. *)
| step_await h p n a b :
    step (mkProcess Awaiting h p true n a b None) (mkProcess (Returned None) h p false n a b (Some None)).

(** ** Properties *)

(** *** Plugins *)

(** No plugin can be loaded: a configuration with a plugin stops the start with an error or
    a panic. *)
Lemma plugins_never_load s path paths : LoadPlugins s (path :: paths) <> inr None.
Proof.
  cbn. destruct (plugin_Open s path); [done|]. destruct (plugin_Lookup s path) as [e|sym]; [done|]. by destruct sym.
Qed.

(** *** Assigned fields *)

Lemma set_field_typed p new fs vs t :
  fields_typed fs vs = true -> find_type p fs = Some t ->
  (forall v, has_type t v = true -> has_type t (new v) = true) ->
  fields_typed fs (set_field p new fs vs) = true /\
  exists v, find_field p fs vs = Some (t, v) /\ find_field p fs (set_field p new fs vs) = Some (t, new v) /\ has_type t v = true.
Proof.
  revert vs. induction fs as [|[[g tag] t'] fs IH]; intros [|v vs] Hty Hf Hnew; try done.
  cbn in *. apply andb_prop in Hty as [Hv Hty]. destruct (String.eqb tag p) eqn:E; cbn; rewrite ?E.
  - injection Hf as ->. rewrite (Hnew v Hv), Hty. split; [done|]. by exists v.
  - rewrite Hv. cbn. by apply IH.
Qed.

Lemma fields_struct n fs vs : fields_typed fs vs = true -> has_type (TStruct n fs) (VStruct vs) = true.
Proof. intros H. revert vs H. by induction fs as [|f fs IH]; intros [|v vs] H. Qed.

(** An assigned field is read back, and the configuration keeps its type. *)
Lemma set_path_spec ps t v t' new :
  has_type t v = true -> type_at t ps = Some t' -> has_type t' new = true ->
  has_type t (set_path t ps new v) = true /\ find_path (t, set_path t ps new v) ps = inr (Some (t', new)).
Proof.
  revert t v. induction ps as [|p ps IH]; intros t v Hv Hat Hnew; cbn [set_path find_path type_at] in *.
  - injection Hat as ->. done.
  - rewrite has_type_underlying in Hv. rewrite has_type_underlying. unfold findProperty. cbn [fst snd].
    destruct (underlying t) as [| | | | | | |n fs]; try done. apply struct_typed in Hv as (vs & -> & Hvs).
    destruct (find_type p fs) as [t1|] eqn:Hf; [|done].
    destruct (set_field_typed p (set_path t1 ps new) fs vs t1 Hvs Hf) as (Hty & v1 & Hv1 & Hv1' & Hty1).
    { intros x Hx. by apply IH. }
    rewrite Hv1'. split; [by apply fields_struct|]. by apply IH.
Qed.

Lemma set_field_other p q new fs vs : p <> q -> find_field q fs (set_field p new fs vs) = find_field q fs vs.
Proof.
  intros Hne. revert vs. induction fs as [|[[g tag] t] fs IH]; intros [|v vs]; try done. cbn.
  destruct (String.eqb_spec tag p) as [->|Hp]; cbn; [by rewrite (proj2 (String.eqb_neq p q) Hne)|].
  destruct (String.eqb tag q); [done|apply IH].
Qed.

(** Assigning one field leaves the others. *)
Lemma set_path_other p ps q qs t new v :
  p <> q -> find_path (t, set_path t (p :: ps) new v) (q :: qs) = find_path (t, v) (q :: qs).
Proof.
  intros Hne. cbn [find_path set_path]. unfold findProperty. cbn [fst snd].
  destruct (underlying t) as [| | | | | | |n fs] eqn:E; try by destruct v.
  destruct v as [| | | | | |vs]; try done. destruct (find_type p fs); [|done]. by rewrite set_field_other.
Qed.

(** *** Strings of the configuration *)

(** The value of a string property in the file. *)
Definition in_file (cfg : goval) (name : string) : string :=
  match find_path (Config, cfg) (split_at "." name) with inr (Some (_, VString v)) => v | _ => ""%string end.

Fixpoint first_set (l : list string) : string :=
  match l with [] => ""%string | v :: l => if String.eqb v "" then first_set l else v end.

Lemma first_set_nonempty l : (exists v, v ∈ l /\ v <> ""%string) -> first_set l <> ""%string.
Proof.
  induction l as [|x l IH]; intros (v & Hin & Hv); [by apply not_elem_of_nil in Hin|]. cbn.
  destruct (String.eqb_spec x "") as [->|Hx]; [|done]. apply elem_of_cons in Hin as [->|Hin]; [done|]. apply IH. by exists v.
Qed.

Section Strings.
Context (s : system) (rune_string : Z -> string).

(** The environment first, then the file, then the default. *)
Lemma property_value cfg name d :
  has_type Config cfg = true -> type_at Config (split_at "." name) = Some TString ->
  property s rune_string cfg name d = inr (first_set [default ""%string (env s (envVarName name)); in_file cfg name; d]).
Proof.
  intros Hcfg Hat. destruct (find_path_typed _ _ _ _ Hcfg Hat) as (v & Hpath & Hv). destruct v as [| |v| | | |]; try discriminate.
  assert (Hfile : element_value rune_string TString (VString d) (TString, VString v) = inr (VString (first_set [v; d]))).
  { destruct (element_value_accepts rune_string TString TString (VString v) (VString d) eq_refl Hv) as [-> _]. cbn.
    destruct (String.eqb v ""); [|done]. by destruct (String.eqb_spec d "") as [->|]. }
  unfold property, get_site, GetOrDefault, in_file. cbn [l_property l_type l_default string_property]. rewrite Hpath.
  unfold findEnvProperty. destruct (env s (envVarName name)) as [e|]; [|by rewrite Hfile].
  cbn [convert underlying]. cbn. destruct (String.eqb e ""); [|done]. cbn in Hfile. by rewrite Hfile.
Qed.

Lemma complete_publication_spec cfg :
  has_type Config cfg = true ->
  exists cfg', complete_publication s rune_string cfg = inr cfg' /\ has_type Config cfg' = true /\
    (exists v, property s rune_string cfg' PropertyPostgresqlPublicationName "" = inr v /\ v <> ""%string) /\
    forall q qs, q <> "postgresql"%string -> find_path (Config, cfg') (q :: qs) = find_path (Config, cfg) (q :: qs).
Proof.
  intros Hcfg. unfold complete_publication.
  rewrite (property_value cfg PropertyPostgresqlPublicationName "" Hcfg eq_refl). cbn [mbind pure_bind mret pure_ret].
  destruct (String.eqb_spec (first_set [default ""%string (env s (envVarName PropertyPostgresqlPublicationName));
    in_file cfg PropertyPostgresqlPublicationName; ""%string]) "") as [He|He].
  - destruct (set_path_spec ["postgresql"; "publication"; "name"]%string Config cfg TString (VString publicationName) Hcfg eq_refl eq_refl)
      as [Hty Hget]. eexists. split; [reflexivity|]. split; [done|]. split.
    + eexists. split; [apply (property_value _ PropertyPostgresqlPublicationName "" Hty eq_refl)|]. apply first_set_nonempty.
      exists publicationName. split; [|done]. apply list_elem_of_further. unfold in_file.
      change (split_at "." PropertyPostgresqlPublicationName) with ["postgresql"; "publication"; "name"]%string. rewrite Hget.
      apply list_elem_of_here.
    + intros q qs Hq. by apply set_path_other.
  - exists cfg. split; [reflexivity|]. split; [done|]. split; [|done].
    eexists. split; [apply (property_value _ PropertyPostgresqlPublicationName "" Hcfg eq_refl)|done].
Qed.
End Strings.

(** *** The whole start *)

Section Run.
Context (s : system) (rune_string : Z -> string).

(** The decoders fill a value of the configuration type. *)
Definition decodes : Prop := forall b cfg, fromToml s b = inr cfg \/ fromYaml s b = inr cfg -> has_type Config cfg = true.

Lemma configuration_typed flag cfg : decodes -> configuration s flag = inr cfg -> has_type Config cfg = true.
Proof.
  intros Hd. unfold configuration, Unmarshall. repeat case_match; try done; intros [= <-]; first [reflexivity|eapply Hd; eauto].
Qed.

Lemma complete_prefix_spec cfg :
  has_type Config cfg = true -> random_prefix s <> ""%string ->
  has_type Config (complete_prefix s cfg) = true /\ in_file (complete_prefix s cfg) "topic.prefix" <> ""%string /\
  forall q qs, q <> "topic"%string -> find_path (Config, complete_prefix s cfg) (q :: qs) = find_path (Config, cfg) (q :: qs).
Proof.
  intros Hcfg Hr. unfold complete_prefix, in_file.
  change (split_at "." "topic.prefix") with ["topic"; "prefix"]%string.
  destruct (find_path_typed ["topic"; "prefix"]%string Config cfg TString Hcfg eq_refl) as (v & Hpath & Hv).
  destruct v as [| |v| | | |]; try discriminate. rewrite Hpath. destruct v as [|a v]; [|by rewrite Hpath].
  destruct (set_path_spec ["topic"; "prefix"]%string Config cfg TString (VString (random_prefix s)) Hcfg eq_refl eq_refl) as [Hty Hget].
  rewrite Hget. split; [done|]. split; [done|]. intros q qs Hq. by apply set_path_other.
Qed.

Lemma in_file_other cfg cfg' q qs name :
  split_at "." name = q :: qs -> find_path (Config, cfg') (q :: qs) = find_path (Config, cfg) (q :: qs) ->
  in_file cfg' name = in_file cfg name.
Proof. intros Hs Hf. unfold in_file. by rewrite Hs, Hf. Qed.

(** A streamer that is made has a publication and a prefix for its topics. *)
Lemma new_streamer_complete cfg cfg' :
  has_type Config cfg = true -> random_prefix s <> ""%string -> NewStreamer s rune_string cfg = inr (inr cfg') ->
  has_type Config cfg' = true /\
  (exists v, property s rune_string cfg' PropertyPostgresqlPublicationName "" = inr v /\ v <> ""%string) /\
  in_file cfg' "topic.prefix" <> ""%string /\ plugin_paths cfg' = [].
Proof.
  intros Hcfg Hr. unfold NewStreamer.
  rewrite (property_value s rune_string cfg PropertyPostgresqlConnection _ Hcfg eq_refl). cbn [mbind pure_bind].
  destruct (ParseConfig s _); [done|].
  rewrite (property_value s rune_string cfg PropertyPostgresqlPassword _ Hcfg eq_refl). cbn [mbind pure_bind].
  destruct (complete_publication_spec s rune_string cfg Hcfg) as (c1 & -> & Hty1 & (v & Hv & Hne) & _). cbn [mbind pure_bind].
  destruct (complete_prefix_spec c1 Hty1 Hr) as (Hty2 & Hpre & Hother).
  destruct (plugin_paths (complete_prefix s c1)) as [|path paths] eqn:Hpl.
  - cbn [LoadPlugins mbind pure_bind]. destruct (NewReplicator s _); [done|]. intros [= <-].
    split; [done|]. split; [|done]. exists v. split; [|done].
    rewrite (property_value s rune_string _ PropertyPostgresqlPublicationName _ Hty2 eq_refl).
    rewrite (property_value s rune_string _ PropertyPostgresqlPublicationName _ Hty1 eq_refl) in Hv.
    rewrite <- Hv. do 4 f_equal. eapply in_file_other; [reflexivity|]. by apply Hother.
  - pose proof (plugins_never_load s path paths) as Hno. destruct (LoadPlugins s (path :: paths)) as [c|[e|]]; [done|done|].
    by destruct Hno.
Qed.

(** A streamer that the command has is configured. *)
Lemma start_configured flag cfg' :
  decodes -> random_prefix s <> ""%string -> start s rune_string false flag = inr (Streams cfg') ->
  exists cfg, configuration s flag = inr cfg /\
    (exists c, property s rune_string cfg PropertyPostgresqlConnection "" = inr c /\ c <> ""%string) /\
    (exists v, property s rune_string cfg' PropertyPostgresqlPublicationName "" = inr v /\ v <> ""%string) /\
    in_file cfg' "topic.prefix" <> ""%string /\ plugin_paths cfg' = [].
Proof.
  intros Hd Hr. unfold start, mret, pure_ret.
  destruct (configuration s flag) as [e|cfg] eqn:Hc; [done|].
  pose proof (configuration_typed flag cfg Hd Hc) as Hcfg. destruct (InitializeLogging s cfg); [done|].
  rewrite (property_value s rune_string cfg PropertyPostgresqlConnection _ Hcfg eq_refl). cbn [mbind pure_bind].
  set (conn := first_set _). destruct (String.eqb_spec conn "") as [|Hconn]; [done|].
  destruct (NewStreamer s rune_string cfg) as [c|[e|c2]] eqn:Hn; [done|done|]. cbn [mbind pure_bind].
  intros [= <-]. destruct (new_streamer_complete cfg c2 Hcfg Hr Hn) as (_ & Hpub & Hpre & Hpl).
  exists cfg. split; [done|]. split; [exists conn; split; [by apply property_value|done]|]. done.
Qed.
End Run.

(** *** The two goroutines *)

Definition main_stops (m : main_goroutine) : nat := match m with EarlyShutdown _ | Returned (Some _) => 1 | _ => 0 end.
Definition handler_stops (h : signal_goroutine) : nat := match h with Listening => 0 | _ => 1 end.
Definition main_result (m : main_goroutine) : option (option ExitError) :=
  match m with
  | Starting => None
  | StartFailed e | EarlyShutdown e | Returned (Some e) => Some (Some e)
  | Awaiting | Returned None => Some None
  end.

Record process_inv (p : process) : Prop := {
  pi_stops : stops p = (main_stops (main p) + handler_stops (handler p))%nat;
  pi_start : start_result p = main_result (main p);
  pi_done : done p = true -> handler p = SignalledDone;
  pi_returned : main p = Returned None -> handler p = SignalledDone;
  pi_stop : match handler p with
            | Listening | Stopping => stop_result p = None
            | Stopped => is_Some (stop_result p)
            | SignalledDone => stop_result p = Some None
            end;
  pi_exit : match exit p with
            | None => forall r, main p <> Returned r /\ (forall e, stop_result p <> Some (Some e))
            | Some r => main p = Returned r \/
                exists e, stop_result p = Some (Some e) /\ r = Some (NewExitError (message e) 1)
            end;
}.

Lemma process_inv_step p p' : process_inv p -> step p p' -> process_inv p'.
Proof.
  intros [Hn Hs Hd Hr Ht He] Hstep.
  destruct Hstep; cbn in *; try destruct (He None) as [_ Hne]; split; cbn; try done; try lia; eauto 6;
    try (by intros H; first [apply Hd in H | apply Hr in H]).
  - intros r. split; [apply He|done].
  - destruct Ht as [[e|] ->]; [by destruct (Hne e)|done].
Qed.

Lemma process_inv_reachable p : rtc step launched p -> process_inv p.
Proof. apply rtc_invariant; [by split|]. intros x y. apply process_inv_step. Qed.


(** *** A concrete start *)

Definition sample_system : system := {|
  env n := if String.eqb n "POSTGRESQL_CONNECTION" then Some "host=db"%string else None;
  open_file _ := inl "no such file"%string;
  read_file _ := inl "no such file"%string;
  fromToml _ := inl "no decoder"%string;
  fromYaml _ := inl "no decoder"%string;
  InitializeLogging _ := None;
  ParseConfig _ := None;
  random_prefix := "abcdefghij";
  plugin_Open _ := None;
  plugin_Lookup _ := inr VariableSymbol;
  NewReplicator _ := None;
|}.

(** A signal comes while the streamer starts, and the start fails: Stop is called twice. *)
Definition failed_start : ExitError := NewExitError "no connection" 22.
Definition stopped_twice : process :=
  mkProcess (Returned (Some failed_start)) Stopping false false 2 (Some (Some failed_start)) None (Some (Some failed_start)).

