(* ===== verification/SinkClients.v ===== *)
(** * SinkClients: the sinks

    internal/eventing/sink/{stdout,nats,kafka,redis,http,awskinesis,awssqs}: how a
    sink is set up from the configuration and what it sends for an event.

    The client libraries are arguments: what a call of them is given is a [request],
    its answer comes from the surroundings.  The JSON encoder is an argument as well;
    it may fail.  Keys and envelopes are the structs of Emitter.v, the settings are
    read by the lookups of Configuration.v. *)

From Stdlib Require Import ZArith Lia.
From Stdlib Require Import Strings.Byte.
From stdpp Require Import base tactics option list numbers strings gmap pretty.
From S2P Require Import Prelude Encoding Emitter Versions Configuration.

Local Open Scope Z_scope.

(** ** Settings *)

Section Settings.
Context (rune_string : Z -> string) (env : Configuration.environment) (cfg : goval).
Local Abbreviation lookup_ := (Configuration.lookup_ rune_string env cfg).
Local Abbreviation get_string := (Configuration.get_string rune_string env cfg).
Local Abbreviation get_bool := (Configuration.get_bool rune_string env cfg).
Local Abbreviation get_int := (Configuration.get_int rune_string env cfg).
Local Abbreviation get_duration := (Configuration.get_duration rune_string env cfg).
Local Abbreviation get_optional := (Configuration.get_optional rune_string env cfg).
Local Abbreviation get_strings := (Configuration.get_strings rune_string env cfg).

(** Which of the two encoders is used; both are the argument [Marshal] below. *)
Definition NewJsonEncoderWithConfig : crash + bool := get_bool PropertyEncodingCustomReflection false.

(** TLS of a client: whether certificates are checked, and tls.ClientAuthType. *)
Record tlsConfig : Type := mkTls { InsecureSkipVerify : bool; ClientAuth : Z }.

Definition get_tls (skipVerify clientAuth : string) : crash + tlsConfig :=
  skip ← get_bool skipVerify false;
  v ← lookup_ (mkSite clientAuth ClientAuthType (VInt 0));
  match v with VInt auth => mret (mkTls skip auth) | _ => inl PanicTypeAssertion end.

(** A field that is read directly: [c.Sink.Nats.Timeout], [c.Sink.Redis.TLS.Enabled]. *)
Definition field (path : list string) : option goval :=
  match find_path (Config, cfg) path with inr (Some (_, v)) => Some v | _ => None end.

(** *** NATS *)

Inductive natsAuth : Type :=
| UserInfo (user password : string)
| UserCredentials (userOrChainedFile : string) (seedFiles : list string)
| UserJWTAndSeed (jwt seed : string).

Record natsSink : Type := mkNatsSink { n_timeout : Z }.

Definition second : Z := 1000000000.

(** The timeout in nanoseconds; the product wraps around. *)
Definition nats_timeout : Z :=
  match field ["sink"; "nats"; "timeout"]%string with
  | Some (VInt t) => if t =? 0 then second * 5 else i64 (second * t)
  | _ => second * 5
  end.

(** [nats_connect] connects and opens the stream, or fails. *)
Definition newNatsSink (nats_connect : string -> natsAuth -> option string) : crash + (string + natsSink) :=
  address ← get_string PropertyNatsAddress "nats://localhost:4222";
  authorization ← get_string PropertyNatsAuthorization "userinfo";
  let connect auth : crash + (string + natsSink) :=
    match nats_connect address auth with
    | Some e => mret (inl e)
    | None => _ ← NewJsonEncoderWithConfig; mret (inr (mkNatsSink nats_timeout))
    end in
  if String.eqb authorization "userinfo" then
    username ← get_string PropertyNatsUserinfoUsername "";
    password ← get_string PropertyNatsUserinfoPassword "";
    connect (UserInfo username password)
  else if String.eqb authorization "credentials" then
    certificate ← get_string PropertyNatsCredentialsCertificate "";
    seeds ← get_strings PropertyNatsCredentialsSeeds [];
    connect (UserCredentials certificate seeds)
  else if String.eqb authorization "jwt" then
    jwt ← get_string PropertyNatsJwt "";
    seed ← get_string PropertyNatsJwtSeed "";
    connect (UserJWTAndSeed jwt seed)
  else mret (inl ("NATS AuthorizationType '" ++ authorization ++ "' doesn't exist")%string).

(** *** Kafka *)

Record saslConfig : Type := mkSasl { User : string; Password : string; Mechanism : string }.
Record kafkaConfig : Type := mkKafka {
  Idempotent : bool;
  RetryMax : Z;
  SASL : option saslConfig;
  kafka_TLS : option tlsConfig;
  brokers : list string;
}.

Definition get_sasl : crash + option saslConfig :=
  enabled ← get_bool PropertyKafkaSaslEnabled false;
  if (enabled : bool) then
    user ← get_string PropertyKafkaSaslUser "";
    password ← get_string PropertyKafkaSaslPassword "";
    v ← lookup_ (mkSite PropertyKafkaSaslMechanism SASLMechanism (VString "PLAIN"));
    match v with VString mechanism => mret (Some (mkSasl user password mechanism)) | _ => inl PanicTypeAssertion end
  else mret None.

Definition newKafkaConfig : crash + kafkaConfig :=
  idempotent ← get_bool "sink.kafka.idempotent" false;
  sasl ← get_sasl;
  tlsEnabled ← get_bool PropertyKafkaTlsEnabled false;
  tls ← (if tlsEnabled : bool then t ← get_tls PropertyKafkaTlsSkipVerify PropertyKafkaTlsClientAuth; mret (Some t) else mret None);
  b ← get_strings PropertyKafkaBrokers ["localhost:9092"%string];
  mret (mkKafka idempotent 10 sasl tls b).

Definition newKafkaSink (NewSyncProducer : kafkaConfig -> option string) : crash + (string + kafkaConfig) :=
  config ← newKafkaConfig;
  match NewSyncProducer config with
  | Some e => mret (inl e)
  | None => _ ← NewJsonEncoderWithConfig; mret (inr config)
  end.

(** *** Redis *)

Definition microsecond : Z := 1000.
Definition minute : Z := 60 * second.

Record redisOptions : Type := mkRedis {
  Network : string; Addr : string; redis_Password : string; DB : Z; MaxRetries : Z;
  MinRetryBackoff : Z; MaxRetryBackoff : Z; DialTimeout : Z; ReadTimeout : Z; WriteTimeout : Z;
  PoolSize : Z; PoolTimeout : Z; IdleTimeout : Z; redis_TLS : option tlsConfig;
}.

(** Durations are 64-bit numbers of nanoseconds, so the products wrap around. *)
Definition newRedisSink : crash + redisOptions :=
  network ← get_string PropertyRedisNetwork "tcp";
  addr ← get_string PropertyRedisAddress "localhost:6379";
  password ← get_string PropertyRedisPassword "";
  db ← get_int PropertyRedisDatabase 0;
  maxRetries ← get_int PropertyRedisRetriesMax 0;
  backoffMin ← get_duration PropertyRedisRetriesBackoffMin 8;
  backoffMax ← get_duration PropertyRedisRetriesBackoffMax 512;
  dial ← get_duration PropertyRedisTimeoutDial 0;
  read ← get_duration PropertyRedisTimeoutRead 0;
  write ← get_duration PropertyRedisTimeoutWrite 0;
  poolSize ← get_int PropertyRedisPoolsize 0;
  pool ← get_duration PropertyRedisTimeoutPool 0;
  idle ← get_duration PropertyRedisTimeoutIdle 0;
  tls ← (match field ["sink"; "redis"; "tls"; "enabled"]%string with
         | Some (VBool true) => t ← get_tls PropertyRedisTlsSkipVerify PropertyRedisTlsClientAuth; mret (Some t)
         | _ => mret None
         end);
  _ ← NewJsonEncoderWithConfig;
  mret (mkRedis network addr password db maxRetries (i64 (backoffMin * microsecond)) (i64 (backoffMax * microsecond)) dial
    (i64 (read * second)) (i64 (write * second)) poolSize (i64 (pool * second)) (i64 (idle * minute)) tls).

(** *** HTTP *)

Record httpSink : Type := mkHttpSink {
  h_address : string;
  h_headers : list (string * string);
  h_tls : option tlsConfig;
}.

Definition basicAuth (username password : string) : string := EncodeToString (bytes_of (username ++ ":" ++ password)).

Definition newHttpSink : crash + (string + httpSink) :=
  address ← get_string PropertyHttpUrl "http://localhost:80";
  tls ← (if String.prefix "https://" address
         then t ← get_tls PropertyHttpTlsSkipVerify PropertyHttpTlsClientAuth; mret (Some t) else mret None);
  let sink headers : crash + (string + httpSink) :=
    _ ← NewJsonEncoderWithConfig;
    mret (inr (mkHttpSink address (("Content-Type", "application/json")%string :: headers) tls)) in
  authenticationType ← get_string PropertyHttpAuthenticationType "none";
  if String.eqb authenticationType "basic" then
    username ← get_string PropertyHttpBasicAuthenticationUsername "";
    password ← get_string PropertyHttpBasicAuthenticationPassword "";
    sink [("Authorization", "Basic " ++ basicAuth username password)%string]
  else if String.eqb authenticationType "header" then
    name ← get_string PropertyHttpHeaderAuthenticationHeaderName "";
    value ← get_string PropertyHttpHeaderAuthenticationHeaderValue "";
    sink [(name, value)]
  else if String.eqb authenticationType "none" then sink []
  else mret (inl ("http AuthenticationType '" ++ authenticationType ++ "' doesn't exist")%string).

(** *** AWS *)

Record awsConfig : Type := mkAws { Endpoint : string; Credentials : option (string * string * string); Region : option string }.

(** Static credentials need all three parts. *)
Definition get_aws (region endpoint accessKeyId secretAccessKey sessionToken : string) : crash + awsConfig :=
  r ← get_optional region;
  e ← get_string endpoint "";
  a ← get_optional accessKeyId;
  k ← get_optional secretAccessKey;
  t ← get_optional sessionToken;
  mret (mkAws e (match a, k, t with Some a, Some k, Some t => Some (a, k, t) | _, _, _ => None end) r).

(** What CreateStream is asked for. *)
Record createStream : Type := mkCreateStream { ShardCount : option Z; StreamMode : option string; StreamName : string }.

Inductive described : Type := StreamExists | StreamMissing (e : string) | DescribeFailed (e : string).

Record kinesis : Type := mkKinesis {
  kinesis_session : awsConfig -> option string;
  DescribeStream : string -> described;
  CreateStream : createStream -> option string;
  WaitUntilStreamExists : string -> option string;
}.

Record kinesisSink : Type := mkKinesisSink { k_streamName : string; k_created : option createStream }.

Definition get_shards : crash + option Z :=
  v ← lookup_ (mkSite PropertyKinesisStreamShardCount (TPtr (TInt Int64)) (VPtr None));
  match v with VPtr None => mret None | VPtr (Some (VInt z)) => mret (Some z) | _ => inl PanicTypeAssertion end.

(** The details of the stream's mode hold the stream's name. *)
Definition newAwsKinesisSink (k : kinesis) : crash + (string + kinesisSink) :=
  name ← get_optional PropertyKinesisStreamName;
  match (name : option string) with
  | None => mret (inl "AWS Kinesis sink needs the stream name to be configured"%string)
  | Some streamName =>
      shardCount ← get_shards;
      streamMode ← get_optional PropertyKinesisStreamMode;
      streamCreate ← get_bool PropertyKinesisStreamCreate true;
      aws ← get_aws PropertyKinesisRegion PropertyKinesisAwsEndpoint PropertyKinesisAwsAccessKeyId
              PropertyKinesisAwsSecretAccessKey PropertyKinesisAwsSessionToken;
      let streamModeDetails := match (streamMode : option string) with Some _ => Some streamName | None => None end in
      match kinesis_session k aws with
      | Some e => mret (inl e)
      | None =>
          match DescribeStream k streamName with
          | StreamExists => _ ← NewJsonEncoderWithConfig; mret (inr (mkKinesisSink streamName None))
          | DescribeFailed e => mret (inl e)
          | StreamMissing e =>
              if negb (streamCreate : bool) then mret (inl e)
              else
                let request := mkCreateStream shardCount streamModeDetails streamName in
                match CreateStream k request with
                | Some e => mret (inl e)
                | None =>
                    match WaitUntilStreamExists k streamName with
                    | Some _ => inl PanicExplicit
                    | None => _ ← NewJsonEncoderWithConfig; mret (inr (mkKinesisSink streamName (Some request)))
                    end
                end
          end
      end
  end.

Record sqsSink : Type := mkSqsSink { q_url : string }.

Definition newAwsSqsSink (sqs_session : awsConfig -> option string) : crash + (string + sqsSink) :=
  url ← get_optional PropertySqsQueueUrl;
  match (url : option string) with
  | None => mret (inl "AWS SQS sink needs the queue url to be configured"%string)
  | Some queueUrl =>
      aws ← get_aws PropertySqsAwsRegion PropertySqsAwsEndpoint PropertySqsAwsAccessKeyId PropertySqsAwsSecretAccessKey
              PropertySqsAwsSessionToken;
      match sqs_session aws with
      | Some e => mret (inl e)
      | None => _ ← NewJsonEncoderWithConfig; mret (inr (mkSqsSink queueUrl))
      end
  end.

(** *** The sink of the configuration *)

(** The sinks by their type. *)
Inductive sink : Type :=
| Stdout
| Nats (s : natsSink)
| Kafka
| Redis
| Http (s : httpSink)
| AwsKinesis (s : kinesisSink)
| AwsSqs (s : sqsSink).

(** What the client libraries answer to being set up. *)
Record connectors : Type := mkConnectors {
  nats_connect : string -> natsAuth -> option string;
  NewSyncProducer : kafkaConfig -> option string;
  kinesis_api : kinesis;
  sqs_session : awsConfig -> option string;
}.

Section Registered.
Context (k : connectors).

Definition made {A} (f : A -> sink) (x : crash + (string + A)) : crash + (string + sink) :=
  r ← x; match r with inl e => mret (inl e) | inr a => mret (inr (f a)) end.

(** What the packages of the sinks register when they are loaded. *)
Definition factories : list (string * (crash + (string + sink))) :=
  [("stdout", _ ← NewJsonEncoderWithConfig; mret (inr Stdout));
   ("nats", made Nats (newNatsSink (nats_connect k)));
   ("kafka", made (fun _ => Kafka) (newKafkaSink (NewSyncProducer k)));
   ("redis", _ ← newRedisSink; mret (inr Redis));
   ("kinesis", made AwsKinesis (newAwsKinesisSink (kinesis_api k)));
   ("sqs", made AwsSqs (newAwsSqsSink (sqs_session k)));
   ("http", made Http newHttpSink)]%string.

Definition NewSink (name : string) : crash + (string + sink) :=
  match Registries.New (fun f (_ : unit) => inr f) "SinkType" name tt (Registries.register_all factories ∅) with
  | inl e => mret (inl e)
  | inr r => r
  end.

(** The provider of the wiring. *)
Definition provide_sink : crash + (string + sink) :=
  v ← lookup_ (mkSite PropertySink SinkType (VString "stdout"));
  match v with VString name => NewSink name | _ => inl PanicTypeAssertion end.
End Registered.
End Settings.

(** ** Events *)

(** What a client is asked to send. *)
Inductive request : Type :=
| Print_ (text : bytes)
| PublishMsg (subject : string) (keyHeader data : bytes) (timeout : Z)
| SendMessage (topic : string) (key value : bytes) (timestamp : Z)
| XAdd (stream : string) (key envelope : bytes)
| Post (address : string) (headers : list (string * string)) (body : bytes)
| PutRecord (streamName partitionKey : string) (data : bytes)
| SendSqs (queueUrl messageGroupId deduplicationId : string) (body : bytes)
| Close_.

(** The answer: an error of the client, or a status (of HTTP, 200 elsewhere). *)
Record clients : Type := mkClients {
  Marshal : Emitter.Struct -> string + bytes;
  answer : nat -> request -> string + Z;
  (** [http.NewRequest] refuses an address that is no URL. *)
  invalid_url : string -> option string;
  sha256 : bytes -> bytes;
}.

(** What was asked, and how many response bodies of HTTP are open. *)
Record traffic : Type := mkTraffic { requests : list request; openBodies : Z }.

Section Emit.
Context (c : clients).

Definition encode (v : Emitter.Struct) : G traffic bytes :=
  match Marshal c v with inl e => fail e | inr d => mret d end.

Definition ask (r : request) : G traffic Z := fun t =>
  let t' := mkTraffic (requests t ++ [r]) (openBodies t) in
  match answer c (length (requests t)) r with inl e => Err e t' | inr status => Ret status t' end.

Definition newline : bytes := [byte_of_Z 10].

(** The stdout sink deletes the schema from the envelope that it is given.  The map is
    the caller's, which keeps it for further attempts: they delete and encode the same
    ([stdout_retry]). *)
Definition without_schema (envelope : Emitter.Struct) : Emitter.Struct := delete "schema"%string envelope.

Definition as_struct (o : option any) : G traffic Emitter.Struct :=
  match o with
  | Some (AStruct m) => mret m
  | Some ANilStruct => mret ∅
  | _ => panic PanicTypeAssertion
  end.

Definition as_text (o : option any) : G traffic string :=
  match o with Some (AString s) => mret s | _ => panic PanicTypeAssertion end.

(** The content of the deduplication id: a nil transaction id is dereferenced. *)
Definition deduplication (envelope : Emitter.Struct) (data : bytes) : G traffic bytes :=
  payload ← as_struct (envelope !! "payload"%string);
  source ← as_struct (payload !! "source"%string);
  lsn ← as_text (source !! "lsn"%string);
  match source !! "txId"%string with
  | None => mret (bytes_of (lsn ++ "-") ++ data)%list
  | Some (AUint32Ptr (Some txId)) => mret (bytes_of (lsn ++ "-" ++ pretty txId ++ "-") ++ data)%list
  | Some (AUint32Ptr None) => panic PanicNilDereference
  | Some _ => panic PanicTypeAssertion
  end.

(** [%X] of bytes. *)
Definition hex_upper (z : Z) : byte := byte_of_Z (if z <? 10 then z + 48 else z + 55).
Definition hex_text (d : bytes) : string :=
  string_of (concat ((fun b => [hex_upper (Z_of_byte b / 16); hex_upper (Z_of_byte b mod 16)]) <$> d)).

Definition EmitStdout (envelope : Emitter.Struct) : G traffic unit :=
  data ← encode (without_schema envelope);
  ask (Print_ (data ++ newline)%list) ;; mret tt.

Definition EmitNats (s : natsSink) (topicName : string) (key envelope : Emitter.Struct) : G traffic unit :=
  keyData ← encode key;
  envelopeData ← encode envelope;
  ask (PublishMsg topicName keyData envelopeData (n_timeout s)) ;; mret tt.

Definition EmitKafka (timestamp : Z) (topicName : string) (key envelope : Emitter.Struct) : G traffic unit :=
  keyData ← encode key;
  envelopeData ← encode envelope;
  ask (SendMessage topicName keyData envelopeData timestamp) ;; mret tt.

Definition EmitRedis (topicName : string) (key envelope : Emitter.Struct) : G traffic unit :=
  keyData ← encode key;
  envelopeData ← encode envelope;
  ask (XAdd topicName keyData envelopeData) ;; mret tt.

(** The body of the response is never closed. *)
Definition EmitHttp (s : httpSink) (envelope : Emitter.Struct) : G traffic unit :=
  payload ← encode envelope;
  match invalid_url c (h_address s) with Some e => fail e | None => mret tt end ;;
  status ← ask (Post (h_address s) (h_headers s) payload);
  modify (fun t => mkTraffic (requests t) (openBodies t + 1)) ;;
  if (status <? 200) || (300 <=? status)
  then fail ("http: non-2xx response status code: " ++ pretty status)%string
  else mret tt.

Definition EmitKinesis (s : kinesisSink) (topicName : string) (envelope : Emitter.Struct) : G traffic unit :=
  envelopeData ← encode envelope;
  ask (PutRecord (k_streamName s) topicName envelopeData) ;; mret tt.

Definition EmitSqs (s : sqsSink) (topicName : string) (envelope : Emitter.Struct) : G traffic unit :=
  envelopeData ← encode envelope;
  content ← deduplication envelope envelopeData;
  ask (SendSqs (q_url s) topicName (hex_text (sha256 c content)) envelopeData) ;; mret tt.

Definition Emit (s : sink) (timestamp : Z) (topicName : string) (key envelope : Emitter.Struct) : G traffic unit :=
  match s with
  | Stdout => EmitStdout envelope
  | Nats s => EmitNats s topicName key envelope
  | Kafka => EmitKafka timestamp topicName key envelope
  | Redis => EmitRedis topicName key envelope
  | Http s => EmitHttp s envelope
  | AwsKinesis s => EmitKinesis s topicName envelope
  | AwsSqs s => EmitSqs s topicName envelope
  end.

(** The errors of Kafka and Redis are reported; NATS and HTTP have none. *)
Definition Stop (s : sink) : G traffic unit :=
  match s with
  | Stdout | AwsKinesis _ | AwsSqs _ => mret tt
  | Nats _ | Http _ => _ ← catch (ask Close_); mret tt
  | Kafka | Redis => ask Close_ ;; mret tt
  end.
End Emit.

(** ** Properties *)

Definition body (r : request) : bytes :=
  match r with
  | Print_ d | PublishMsg _ _ d _ | SendMessage _ _ d _ | XAdd _ _ d | Post _ _ d | PutRecord _ _ d | SendSqs _ _ _ d => d
  | Close_ => []
  end.

(** The topic is the subject, topic, stream, partition key or message group. *)
Definition topic_of (r : request) : option string :=
  match r with
  | PublishMsg t _ _ _ | SendMessage t _ _ _ | XAdd t _ _ | PutRecord _ t _ | SendSqs _ t _ _ => Some t
  | Print_ _ | Post _ _ _ | Close_ => None
  end.

Definition key_of (r : request) : option bytes :=
  match r with PublishMsg _ k _ _ | SendMessage _ k _ _ | XAdd _ k _ => Some k | _ => None end.

(** What is sent for an event, by the sink. *)
Record represents (c : clients) (s : sink) (topic : string) (key envelope : Emitter.Struct) (r : request) : Prop := {
  rp_body : match s with
            | Stdout => exists d, Marshal c (without_schema envelope) = inr d /\ body r = (d ++ newline)%list
            | _ => Marshal c envelope = inr (body r)
            end;
  rp_topic : topic_of r = match s with Stdout | Http _ => None | _ => Some topic end;
  rp_key : match s with
           | Nats _ | Kafka | Redis => exists k, Marshal c key = inr k /\ key_of r = Some k
           | _ => key_of r = None
           end;
}.

(** An answer that is no error: a status between 200 and 299 for HTTP. *)
Definition accepts_ (s : sink) (a : string + Z) : Prop :=
  match a with
  | inl _ => False
  | inr status => match s with Http _ => 200 <= status < 300 | _ => True end
  end.

Section Sent.
Context (c : clients).

Lemma encode_spec v t : encode c v t = match Marshal c v with inl e => Err e t | inr d => Ret d t end.
Proof. unfold encode. by destruct (Marshal c v). Qed.

(** One request, or none because of an error before it. *)
Definition emitted (s : sink) (topic : string) (key envelope : Emitter.Struct) (t : traffic) (o : outcome traffic unit) : Prop :=
  match o with
  | Ret _ t' => exists r, requests t' = (requests t ++ [r])%list /\ represents c s topic key envelope r /\
                  accepts_ s (answer c (length (requests t)) r)
  | Err e t' => t' = t \/ exists r, requests t' = (requests t ++ [r])%list /\ represents c s topic key envelope r /\
                  ~ accepts_ s (answer c (length (requests t)) r)
  | Crash _ => match s with AwsSqs _ => True | _ => False end
  end.

Lemma asked s topic key envelope t r :
  represents c s topic key envelope r -> match s with Http _ => False | _ => True end ->
  emitted s topic key envelope t ((ask c r ;; mret tt) t).
Proof.
  intros Hr Hs. unfold emitted, ask, mbind, G_bind, mret, G_ret. destruct (answer c (length (requests t)) r) as [e|st] eqn:Ha.
  - right. exists r. split; [done|]. split; [exact Hr|]. rewrite Ha. by intros [].
  - exists r. split; [done|]. split; [exact Hr|]. rewrite Ha. by destruct s.
Qed.

Lemma posted s topic key envelope d t :
  Marshal c envelope = inr d ->
  emitted (Http s) topic key envelope t (EmitHttp c s envelope t).
Proof.
  intros Hd. unfold EmitHttp, mbind, G_bind. rewrite encode_spec, Hd.
  assert (Hr : represents c (Http s) topic key envelope (Post (h_address s) (h_headers s) d)) by done.
  destruct (invalid_url c (h_address s)) as [e|]; [by left|].
  unfold mret at 1, G_ret, ask, modify.
  destruct (answer c (length (requests t)) (Post (h_address s) (h_headers s) d)) as [e|status] eqn:Ha; cbn.
  { right. eexists. split; [done|]. split; [exact Hr|]. rewrite Ha. by intros []. }
  destruct ((status <? 200) || (300 <=? status)) eqn:Hs; cbn.
  - right. eexists. split; [done|]. split; [exact Hr|]. rewrite Ha. cbn. lia.
  - eexists. split; [done|]. split; [exact Hr|]. rewrite Ha. cbn. lia.
Qed.

(** The lookups of the deduplication id ask nothing. *)
Lemma deduplication_quiet envelope d t :
  match deduplication envelope d t with Ret _ t' => t' = t | Err _ _ => False | Crash _ => True end.
Proof.
  unfold deduplication, as_struct, as_text, mbind, G_bind, mret, G_ret, panic.
  by repeat (case_match; simplify_eq).
Qed.

Lemma encoded s topic key envelope t v k :
  (forall d, Marshal c v = inr d -> emitted s topic key envelope t (k d t)) ->
  emitted s topic key envelope t ((encode c v ≫= k) t).
Proof.
  intros Hk. unfold mbind, G_bind. rewrite encode_spec.
  destruct (Marshal c v) as [e|d]; [by left | by apply Hk].
Qed.

(** C33. Whatever its type, a sink sends an event at most once and with what was
    asked: when Emit succeeds, exactly one request was made of the client and it was
    accepted (for HTTP with a status of 2xx); it carries the JSON text of the envelope
    (for stdout without the schema and with a line feed), the topic as subject, topic,
    stream, partition key or message group, and for NATS, Kafka and Redis the JSON
    text of the key.  When it fails, either nothing was asked and nothing changed, or
    one such request was and the client did not accept it.  Only the SQS sink can
    crash. *)
Theorem sink_delivers_once s timestamp topic key envelope t :
  emitted s topic key envelope t (Emit c s timestamp topic key envelope t).
Proof.
  destruct s as [|s| | |s|s|s]; cbn [Emit]; unfold EmitStdout, EmitNats, EmitKafka, EmitRedis, EmitKinesis.
  - apply encoded. intros d Hd. apply asked; [|done]. split; [by exists d|done|done].
  - apply encoded. intros k Hk. apply encoded. intros d Hd. apply asked; [|done]. split; [done|done|by exists k].
  - apply encoded. intros k Hk. apply encoded. intros d Hd. apply asked; [|done]. split; [done|done|by exists k].
  - apply encoded. intros k Hk. apply encoded. intros d Hd. apply asked; [|done]. split; [done|done|by exists k].
  - destruct (Marshal c envelope) as [e|d] eqn:Hd; [|by eapply posted].
    unfold EmitHttp, mbind, G_bind. rewrite encode_spec, Hd. by left.
  - apply encoded. intros d Hd. apply asked; [|done]. by split.
  - unfold EmitSqs. apply encoded. intros d Hd. unfold mbind at 1, G_bind at 1.
    pose proof (deduplication_quiet envelope d t) as Hq.
    destruct (deduplication envelope d t) as [content t'|e t'|cr]; [subst t'|done|done].
    apply asked; [|done]. by split.
Qed.

(** A further attempt of the emitter with the envelope that the stdout sink has changed
    does what an attempt with the envelope does. *)
Lemma stdout_retry timestamp topic key envelope t :
  Emit c Stdout timestamp topic key (without_schema envelope) t = Emit c Stdout timestamp topic key envelope t.
Proof. cbn [Emit]. unfold EmitStdout, without_schema. by rewrite delete_delete_eq. Qed.

(** Every answered request of the HTTP sink leaves a response body open. *)
Lemma bodies_stay_open s timestamp topic key envelope t t' :
  Emit c (Http s) timestamp topic key envelope t = Ret tt t' -> openBodies t' = openBodies t + 1.
Proof.
  cbn [Emit]. unfold EmitHttp, mbind, G_bind, mret, G_ret, modify. rewrite encode_spec.
  destruct (Marshal c envelope) as [e|d]; [done|].
  destruct (invalid_url c (h_address s)) as [e|]; [done|]. unfold ask.
  destruct (answer c (length (requests t)) _) as [e|status]; [done|]. cbn.
  destruct ((status <? 200) || (300 <=? status)); [done|]. cbn. intros [= <-]. done.
Qed.

(** The envelope of an event as the emitter builds it. *)
Definition sent_envelope (schema : option Emitter.Struct) (op : string) (now : Z) (rest : Emitter.Struct)
    (lsn_text : Z -> string) (lsn timestamp : Z) (snapshot : bool) (db sch table : string) (txId : option Z) : Emitter.Struct :=
  Events.Envelope schema
    (Some (Events.event op now (Some (Events.Source lsn_text lsn timestamp snapshot db sch table txId)) rest)).

Lemma sent_deduplication schema op now rest lsn_text lsn timestamp snapshot db sch table txId d t :
  deduplication (sent_envelope schema op now rest lsn_text lsn timestamp snapshot db sch table txId) d t =
  match txId with
  | None => Crash PanicNilDereference
  | Some x => Ret (bytes_of (lsn_text lsn ++ "-" ++ pretty x ++ "-") ++ d)%list t
  end.
Proof.
  unfold deduplication, sent_envelope, mbind, G_bind, Events.Envelope, Events.event, put_present, of_struct.
  simplify_map_eq. cbn. simplify_map_eq. cbn. unfold Events.Source. simplify_map_eq. cbn. by destruct txId.
Qed.

(** An event as the emitter builds it crashes the SQS sink exactly when it has no
    transaction id (as the messages written outside of a transaction have) and its
    envelope could be encoded: the id is always present in the source of the event,
    so the test for its presence passes and the nil pointer is dereferenced.  With a
    transaction id the message is sent with the SHA-256 of the LSN, the transaction id
    and the body as its deduplication id. *)
Theorem sqs_needs_transaction s timestamp topic key schema op now rest lsn_text lsn sourceTime snapshot db sch table txId d t :
  let envelope := sent_envelope schema op now rest lsn_text lsn sourceTime snapshot db sch table txId in
  Marshal c envelope = inr d ->
  match txId with
  | None => Emit c (AwsSqs s) timestamp topic key envelope t = Crash PanicNilDereference
  | Some x =>
      let r := SendSqs (q_url s) topic (hex_text (sha256 c (bytes_of (lsn_text lsn ++ "-" ++ pretty x ++ "-") ++ d)%list)) d in
      let t' := mkTraffic (requests t ++ [r]) (openBodies t) in
      Emit c (AwsSqs s) timestamp topic key envelope t =
      match answer c (length (requests t)) r with inl e => Err e t' | inr _ => Ret tt t' end
  end.
Proof.
  intros envelope Hd. subst envelope. cbn [Emit]. unfold EmitSqs, mbind, G_bind. rewrite encode_spec, Hd, sent_deduplication.
  destruct txId as [x|]; [|done]. unfold ask, mret, G_ret. by destruct (answer _ _ _).
Qed.
End Sent.

(** ** Set-up *)

Section Setup.
Context (rune_string : Z -> string) (env : Configuration.environment) (cfg : goval).

(** The type selects the sink; an unknown one is an error that names it. *)
Lemma NewSink_spec k name :
  NewSink rune_string env cfg k name =
  match list_find (fun x => fst x = name) (factories rune_string env cfg k) with
  | Some (_, x) => snd x
  | None => inr (inl ("SinkType" ++ " '" ++ name ++ "' doesn't exist")%string)
  end.
Proof.
  unfold NewSink. rewrite Registries.first_registration_wins. unfold Registries.registry. rewrite lookup_empty. by destruct (list_find _ _) as [[? ?]|].
Qed.

(** Without a session token an access key is ignored. *)
Lemma credentials_need_token region endpoint keyId secret token a :
  get_aws rune_string env cfg region endpoint keyId secret token = inr a ->
  get_optional rune_string env cfg token = inr None -> Credentials a = None.
Proof.
  intros H Ht. unfold get_aws in H.
  destruct (get_optional _ _ _ region) as [|r]; [done|]. cbn in H.
  destruct (get_string _ _ _ endpoint _) as [|e]; [done|]. cbn in H.
  destruct (get_optional _ _ _ keyId) as [|i]; [done|]. cbn in H.
  destruct (get_optional _ _ _ secret) as [|k]; [done|]. cbn in H.
  rewrite Ht in H. cbn in H. injection H as <-. by destruct i, k.
Qed.

(** A Kinesis stream that is created with a mode is asked for its own name as mode. *)
Lemma created_mode_is_name k s r :
  newAwsKinesisSink rune_string env cfg k = inr (inr s) -> k_created s = Some r ->
  StreamName r = k_streamName s /\ (StreamMode r = None \/ StreamMode r = Some (k_streamName s)).
Proof.
  unfold newAwsKinesisSink. intros H Hr.
  destruct (get_optional _ _ _ PropertyKinesisStreamName) as [|[name|]]; [done| |done]. cbn in H.
  destruct (get_shards _ _ _) as [|shards]; [done|]. cbn in H.
  destruct (get_optional _ _ _ PropertyKinesisStreamMode) as [|mode]; [done|]. cbn in H.
  destruct (get_bool _ _ _ _ _) as [|create]; [done|]. cbn in H.
  destruct (get_aws _ _ _ _ _ _ _ _) as [|aws]; [done|]. cbn in H.
  destruct (kinesis_session k aws); [done|].
  destruct (NewJsonEncoderWithConfig _ _ _) as [|encoder]; cbn in H.
  { destruct (DescribeStream k name); [done| |done]. destruct create; [|done].
    cbn in H. destruct (CreateStream k _); [done|]. by destruct (WaitUntilStreamExists k name). }
  destruct (DescribeStream k name); [by injection H as <-| |done].
  destruct create; [|done]. cbn in H.
  destruct (CreateStream k _); [done|]. destruct (WaitUntilStreamExists k name); [done|].
  injection H as <-. injection Hr as <-. split; [done|]. cbn. destruct mode; [by right | by left].
Qed.
End Setup.

(** ** Examples *)

Module Demo.
Definition marshal (m : Emitter.Struct) : string + bytes := inr (bytes_of "{}").
Definition c : clients := mkClients marshal (fun _ _ => inr 200) (fun _ => None) (fun d => d).
Definition t0 : traffic := mkTraffic [] 0.

Lemma sqs_needs_transaction_witness :
  Emit c (AwsSqs (mkSqsSink "queue")) 0 "topic" ∅
    (sent_envelope None "m" 0 ∅ (fun _ => "0/1")%string 1 0 false "db" "s" "t" None) t0 = Crash PanicNilDereference.
Proof.
  apply (sqs_needs_transaction c (mkSqsSink "queue") 0 "topic" ∅ None "m" 0 ∅ (fun _ => "0/1")%string 1 0 false "db" "s" "t" None
           (bytes_of "{}") t0). reflexivity.
Defined.
End Demo.
