(* ===== verification/EventFilters.v ===== *)
(** * EventFilters: the filters of the configuration

    internal/eventing/eventfiltering/eventfilter.go, NewEventFilter, and
    NewEventEmitterFromConfig of eventemitter.go: the definitions of sink.filters
    become the composite filter that the emitter asks (Emitter.v), each with a table
    filter (TableFilter.v).  The compiler of expr-lang is an argument.

    The definitions are a map, so they are visited in any order: they are a list here,
    and the theorem holds for each of them. *)

From Stdlib Require Import ZArith Lia.
From stdpp Require Import base tactics option list numbers strings gmap.
From S2P Require Import Prelude Encoding Entities TableFilter Emitter.

Local Open Scope Z_scope.

(** Excludes and includes, the value for a true condition, the condition. *)
Record EventFilterConfig : Type := mkFilterConfig {
  Tables : option (list (list Z) * list (list Z));
  DefaultValue : option bool;
  Condition : string;
}.

Section Filters.
Context (U : Unicode) (Compile : string -> string + (Emitter.Struct -> string + any)).

Section Build.
Context {W : Type}.

Definition table_filter (def : EventFilterConfig) : G W (option TableFilter) :=
  match Tables def with
  | Some (excludes, includes) => tf ← NewTableFilter U excludes includes true; mret (Some tf)
  | None => mret None
  end.

Definition compiled (condition : string) : G W (Emitter.Struct -> string + any) :=
  match Compile condition with inl e => fail e | inr prog => mret prog end.

Fixpoint new_filters (definitions : list EventFilterConfig) : G W composite :=
  match definitions with
  | [] => mret []
  | def :: definitions' =>
      tf ← table_filter def;
      prog ← compiled (Condition def);
      filters ← new_filters definitions';
      mret ((tf, mkEventFilter (default true (DefaultValue def)) (Condition def) prog) :: filters)
  end.

(** Without definitions every event is accepted. *)
Definition NewEventFilter (filterDefinitions : option (list (string * EventFilterConfig))) : G W composite :=
  match filterDefinitions with
  | None => mret []
  | Some l => new_filters (snd <$> l)
  end.
End Build.

(** ** What the filters decide *)

(** A definition with readable terms. *)
Record definition : Type := mkDefinition {
  d_tables : option (list (list Z * list Z) * list (list Z * list Z));
  d_default : option bool;
  d_condition : string;
}.

Definition config_of (d : definition) : EventFilterConfig :=
  mkFilterConfig (match d_tables d with Some (e, i) => Some (term <$> e, term <$> i) | None => None end)
    (d_default d) (d_condition d).

Definition readable (d : definition) : Prop :=
  match d_tables d with
  | Some (excludes, includes) => Forall is_term excludes /\ Forall is_term includes
  | None => True
  end.

(** The tables a definition is applied to. *)
Definition applies (d : definition) (t : Table) : Prop :=
  match d_tables d with
  | Some (excludes, _) => ~ selected excludes t
  | None => True
  end.

(** An event: the table, and schema and payload of key and value. *)
Record event : Type := mkEvent { ev_table : Table; ev_key : option Emitter.Struct * option Emitter.Struct;
                                 ev_value : option Emitter.Struct * option Emitter.Struct }.

Definition envelope (x : option Emitter.Struct * option Emitter.Struct) : Emitter.Struct := Events.Envelope (fst x) (snd x).

Definition condition_env (ev : event) : Emitter.Struct :=
  {[ "key" := of_struct (snd (ev_key ev)); "keySchema" := of_struct (fst (ev_key ev));
     "value" := of_struct (snd (ev_value ev)); "valueSchema" := of_struct (fst (ev_value ev)) ]}%string.

(** What the condition of a definition says of an event. *)
Definition says (d : definition) (ev : event) : option bool :=
  match Compile (d_condition d) with
  | inr prog => match prog (condition_env ev) with inr (ABool b) => Some b | _ => None end
  | inl _ => None
  end.

(** An event passes if every definition that is applied to its table lets it. *)
Definition passes (ds : list definition) (ev : event) : Prop :=
  forall d, d ∈ ds -> applies d (ev_table ev) -> says d ev = Some (default true (d_default d)).

(** The filter is asked for one event after the other. *)
Fixpoint ask_all (evs : list event) : G composite (list bool) :=
  match evs with
  | [] => mret []
  | ev :: evs' =>
      b ← Evaluate (Some (ev_table ev)) (envelope (ev_key ev)) (envelope (ev_value ev));
      bs ← ask_all evs';
      mret (b :: bs)
  end.

(** *** The filter of a definition *)

Record filters_for (all : list Table) (d : definition) (x : option TableFilter * eventFilter) : Prop := {
  ff_run : Compile (d_condition d) = inr (run (snd x));
  ff_default : defaultValue (snd x) = default true (d_default d);
  ff_tables : match fst x with
              | None => forall t, applies d t
              | Some rf => cache_ok all rf /\ forall t, rule rf t = true <-> applies d t
              end;
}.

Lemma table_filter_readable {W} (w : W) all d :
  readable d -> exists tf, table_filter (config_of d) w = Ret tf w /\
    match tf with None => forall t, applies d t | Some rf => cache_ok all rf /\ forall t, rule rf t = true <-> applies d t end.
Proof.
  unfold readable, applies, table_filter. destruct d as [[[e i]|] dv c]; cbn; [|by exists None].
  intros [He Hi]. destruct (new_table_filter_rule U w e i true He Hi) as (rf & Hrf & Hcache & Hrule).
  exists (Some rf). split; [by rewrite (bind_run _ _ _ _ _ Hrf)|]. split; [apply Hcache|]. intros t. rewrite Hrule. tauto.
Qed.

Lemma new_filters_readable {W} (w : W) all ds :
  Forall readable ds -> (forall d, d ∈ ds -> exists prog, Compile (d_condition d) = inr prog) ->
  exists fs, new_filters (config_of <$> ds) w = Ret fs w /\ Forall2 (filters_for all) ds fs.
Proof.
  induction 1 as [|d ds Hd _ IH]; intros Hc; [by exists []|].
  destruct (table_filter_readable w all d Hd) as (tf & Htf & Hok).
  destruct (Hc d) as [prog Hprog]; [by left|].
  destruct IH as (fs & Hfs & Hall); [intros d' Hd'; apply Hc; by right|].
  eexists. split; [|constructor; [|exact Hall]].
  - cbn [fmap list_fmap new_filters]. rewrite (bind_run _ _ _ _ _ Htf). cbn [config_of Condition].
    assert (compiled (d_condition d) w = Ret prog w) as Hcomp by (unfold compiled; by rewrite Hprog).
    by rewrite (bind_run _ _ _ _ _ Hcomp), (bind_run _ _ _ _ _ Hfs).
  - by split.
Qed.

Lemma enabled_for all d x t :
  names_agree all -> t ∈ all -> filters_for all d x ->
  exists b tf', enabled_by (Some t) (fst x) = Ret b tf' /\ (b = true <-> applies d t) /\ filters_for all d (tf', snd x).
Proof.
  intros Hagree Ht [Hrun Hdef Htab]. destruct x as [[rf|] f]; cbn [fst snd enabled_by] in *.
  - destruct Htab as [Hcache Hrule]. destruct (Enabled_rule all t rf Hagree Ht Hcache) as (rf' & -> & Hc' & Hr').
    exists (rule rf t), (Some rf'). split; [done|]. split; [done|]. split; [done|done|]. cbn. split; [done|].
    intros u. rewrite Hr'. apply Hrule.
  - exists true, None. split; [done|]. split; [|done]. split; [by intros _|done].
Qed.

Lemma evaluate_says all d x ev b :
  filters_for all d x -> says d ev = Some b ->
  evaluate (snd x) (envelope (ev_key ev)) (envelope (ev_value ev)) = inr (inr (Bool.eqb b (default true (d_default d)))).
Proof.
  intros [Hrun Hdef _] Hs. unfold says in Hs. rewrite Hrun in Hs. unfold evaluate, envelope.
  assert (forall s p, Events.Envelope s p !! "payload"%string = Some (of_struct p)) as Hp by reflexivity.
  assert (forall s p, Events.Envelope s p !! "schema"%string = Some (of_struct s)) as Hsch by reflexivity.
  rewrite !Hp, !Hsch. do 4 rewrite (pure_run _ _ _ (assert_envelope _)).
  fold (condition_env ev). destruct (run (snd x) (condition_env ev)) as [|[]]; try done.
  injection Hs as ->. rewrite Hdef. by destruct b, (default true (d_default d)).
Qed.

(** One event: the verdict is the specification's, and the filters stay those of the definitions. *)
Lemma Evaluate_decides all ds fs ev :
  names_agree all -> ev_table ev ∈ all -> Forall2 (filters_for all) ds fs ->
  (forall d, d ∈ ds -> is_Some (says d ev)) ->
  exists b fs', Evaluate (Some (ev_table ev)) (envelope (ev_key ev)) (envelope (ev_value ev)) fs = Ret b fs' /\
    Forall2 (filters_for all) ds fs' /\ (b = true <-> passes ds ev).
Proof.
  intros Hagree Ht. induction 1 as [|d x ds fs Hd Hds IH]; intros Hs.
  { exists true, []. split; [done|]. split; [constructor|]. split; [|done]. intros _ d Hin. by apply elem_of_nil in Hin. }
  destruct IH as (b & fs' & Hrun & Hall & Hb); [intros d' Hd'; apply Hs; by right|].
  destruct (enabled_for all d x _ Hagree Ht Hd) as (e & tf' & He & Hape & Hd').
  destruct (Hs d) as [s Hsd]; [by left|].
  assert (Hpass : passes (d :: ds) ev <-> (applies d (ev_table ev) -> s = default true (d_default d)) /\ passes ds ev).
  { unfold passes. setoid_rewrite elem_of_cons. rewrite <- (inj_iff Some). rewrite <- Hsd. naive_solver. }
  destruct x as [tf f]. cbn [Evaluate fst snd] in *. rewrite He. destruct e.
  - pose proof (evaluate_says all d (tf, f) ev s Hd Hsd) as Hev. cbn [snd] in Hev. rewrite Hev.
    destruct (Bool.eqb_spec s (default true (d_default d))) as [Heq|Hne].
    + exists b, ((tf', f) :: fs'). rewrite Hrun. split; [done|]. split; [by constructor|]. rewrite Hpass, Hb. tauto.
    + exists false, ((tf', f) :: fs). split; [done|]. split; [by constructor|]. rewrite Hpass. split; [done|].
      intros [H _]. destruct Hne. apply H. by apply Hape.
  - exists b, ((tf', f) :: fs'). rewrite Hrun. split; [done|]. split; [by constructor|]. rewrite Hpass, Hb.
    assert (~ applies d (ev_table ev)) by (by rewrite <- Hape). tauto.
Qed.

(** C34. The filters of the configuration decide as their definitions say, in whatever
    order the map of definitions is visited: for definitions with readable terms whose
    conditions compile, the filter is built, and asked for any series of events for
    which the conditions give booleans, it lets an event pass exactly if for every
    definition that is applied to the event's table the condition has the
    definition's value.  A definition is applied to every table that its excludes do
    not select: its includes do not matter, since tables are accepted by default. *)
Theorem configured_filters_decide {W} (w : W) (defs : list (string * definition)) (evs : list event) :
  Forall readable (snd <$> defs) ->
  (forall d, d ∈ snd <$> defs -> exists prog, Compile (d_condition d) = inr prog) ->
  names_agree (ev_table <$> evs) ->
  (forall d ev, d ∈ snd <$> defs -> ev ∈ evs -> is_Some (says d ev)) ->
  exists fs, NewEventFilter (Some (prod_map id config_of <$> defs)) w = Ret fs w /\
  exists answers fs', ask_all evs fs = Ret answers fs' /\
    Forall2 (fun ev answer => answer = true <-> passes (snd <$> defs) ev) evs answers.
Proof.
  intros Hr Hc Hagree Hs. destruct (new_filters_readable w (ev_table <$> evs) _ Hr Hc) as (fs & Hfs & Hall).
  exists fs. split.
  { rewrite <- Hfs. cbn [NewEventFilter]. by rewrite <- !list_fmap_compose. }
  clear Hfs Hr Hc w. revert fs Hall.
  assert (Hin : forall ev, ev ∈ evs -> ev_table ev ∈ ev_table <$> evs) by (intros; by apply list_elem_of_fmap_2).
  revert Hagree Hin. generalize (ev_table <$> evs) as all. intros all Hagree Hin.
  induction evs as [|ev evs IH]; intros fs Hall; [by exists [], fs|].
  destruct (Evaluate_decides all (snd <$> defs) fs ev) as (b & fs1 & Hrun & Hall1 & Hb);
    [done|apply Hin; by left|done|intros d Hd; apply Hs; [done|by left]|].
  destruct (IH) with (fs := fs1) as (bs & fs2 & Hrun2 & Hbs);
    [intros d ev' Hd Hev; apply Hs; [done|by right]|intros ev' Hev; apply Hin; by right|done|].
  exists (b :: bs), fs2. split; [|by constructor].
  cbn [ask_all]. by rewrite (bind_run _ _ _ _ _ Hrun), (bind_run _ _ _ _ _ Hrun2).
Qed.
End Filters.

(** ** Example *)

(** A filter that is meant for the table test of the schema public. *)
Definition only_test : definition := mkDefinition (Some ([], [(codes "public", codes "test")])) None "false".

Definition never (condition : string) : string + (Emitter.Struct -> string + any) := inr (fun _ => inr (ABool false)).

Definition other_event : event := mkEvent (AnEntity (NewSystemEntity "public" "other")) (None, None) (None, None).

(** It rejects the event of another table. *)
Lemma configured_filters_decide_witness :
  exists fs answers fs', NewEventFilter ascii_only never (Some [("f"%string, config_of only_test)]) tt = Ret fs tt /\
    ask_all [other_event] fs = Ret answers fs' /\
    Forall2 (fun ev answer => answer = true <-> passes never [only_test] ev) [other_event] answers /\
    ~ passes never [only_test] other_event.
Proof.
  destruct (configured_filters_decide ascii_only never tt [("f"%string, only_test)] [other_event]) as
    (fs & Hfs & answers & fs' & Hask & Hans).
  - constructor; [|constructor]. split; [constructor|]. constructor; [|constructor].
    split; apply is_pattern_check; vm_compute; reflexivity.
  - intros d _. by eexists.
  - intros a b Ha Hb _. apply list_elem_of_singleton in Ha, Hb. by subst.
  - intros d ev _ _. by eexists.
  - exists fs, answers, fs'. split; [exact Hfs|]. split; [exact Hask|]. split; [exact Hans|].
    intros Hp. assert (says never only_test other_event = Some true) as E; [|discriminate E].
    apply Hp; [by left|]. intros (p & q & n & e & Hin & _). by apply elem_of_nil in Hin.
Defined.
