(* ===== verification/ServerSession.v ===== *)
(** * ServerSession: what is read from the server at the start, and the connections

    - NewReplicationContext of internal/replication/replicationcontext: the settings
      of the slot and what the side channel (SideChannel.v) reports of the server,
      in the order in which the container makes it, then the other services with the
      load of the catalog (Initialize.v), and runs the checks of the replicator
      (Lifecycle.v);
    - internal/publicationmanager: the publication of the configuration;
    - the connections of internal/replication/replicationconnection: connecting,
      starting the replication with a second attempt, closing.

    The database is any [Server] for the first two; for the third its answers to the
    calls of pglogrepl and pgconn are an [endpoint]. *)

From Stdlib Require Import ZArith Lia.
From stdpp Require Import base tactics option list numbers strings gmap.
From S2P Require Import Prelude Encoding Entities Versions SystemCatalog Lifecycle Configuration SideChannel Initialize.

Local Open Scope Z_scope.

(** ** The replication context *)

Record replicationContext : Type := mkReplicationContext {
  snapshotInitialMode : string;
  replicationSlotName : string;
  replicationSlotCreate : bool;
  replicationSlotAutoDrop : bool;
  pgVersion : Z;
  tsdbVersion : Z;
  databaseName : string;
  systemId : string;
  timeline : Z;
  walLevel : string;
  decompressionMarkingEnabled : bool;
}.

(** The settings of the context. *)
Record slot_settings : Type := mkSlotSettings { mode : string; slot : string; create : bool; autoDrop : bool }.

Section Context_.
Context {R D : Type} `{Server R D} {C : Type}.
Context (rune_string : Z -> string) (env : Configuration.environment) (cfg : goval).

Definition slot_config (random : string) : crash + slot_settings :=
  m ← Configuration.lookup_ rune_string env cfg
        (mkSite PropertyPostgresqlSnapshotInitialMode InitialSnapshotMode (VString "never"));
  m ← (match m with VString m => mret m | _ => inl PanicTypeAssertion end : crash + string);
  s ← get_string rune_string env cfg PropertyPostgresqlReplicationSlotName random;
  c ← get_bool rune_string env cfg PropertyPostgresqlReplicationSlotCreate true;
  a ← get_bool rune_string env cfg PropertyPostgresqlReplicationSlotAutoDrop true;
  mret (mkSlotSettings m s c a).

(** [random] is the name that is made up for the slot, [logger] the error of
    logging.NewLogger.  A missing extension is an error with an exit code. *)
Definition NewReplicationContext (random : string) (logger : option dberror) : M D C (ExitError + replicationContext) :=
  s ← from_crash (slot_config random);
  match logger with Some e => fault e | None => mret tt end ;;
  pg ← GetPostgresVersion;
  ts ← GetTimescaleDBVersion;
  if negb (snd ts) then mret (inl (NewExitError "TimescaleDB extension not found" 17))
  else
    info ← GetSystemInformation;
    wal ← GetWalLevel;
    marking ← (if Versions.IsTSDB212GE (fst ts) then GetReplicationMarkersEnabled else mret false);
    mret (inr (mkReplicationContext (mode s) (slot s) (create s) (autoDrop s) pg (fst ts)
                 (fst (fst info)) (snd (fst info)) (snd info) wal marking)).

End Context_.

(** ** The container *)

Section Container.
Context {R D : Type} `{Server R D}.
Context (rune_string : Z -> string) (env : Configuration.environment) (cfg : goval).
(** The constructors that the replication context needs (the storage, its manager and
    the side channel); those that the catalog needs (the type manager, which reads the
    types, the snapshotter and the managers of tasks and publications) with the table
    filters; and, after the catalog, the resolver. *)
Context (dependencies services resolver : M D Catalog.systemCatalog unit).
(** What the load of the catalog uses. *)
Context (username : string) (hypertableEnabled : Hypertable -> bool) (vanillaEnabled : PgTable -> bool).
Context (resolve : Z -> M D Catalog.systemCatalog PgType) (registerColumnType : Column -> option string).
Context (hypertable_order : gmap Z Hypertable -> list Hypertable) (vanilla_order : gmap Z PgTable -> list PgTable).
Context (registerSnapshotting : M D Catalog.systemCatalog unit).
Context (error_string : dberror -> string).

(** An error of a constructor ends the container, and the replicator adapts it. *)
Definition constructed {A B} (m : M D Catalog.systemCatalog A) (k : A -> M D Catalog.systemCatalog (ExitError + B)) :
    M D Catalog.systemCatalog (ExitError + B) :=
  r ← caught m;
  match r with
  | inl e => mret (inl (AdaptError (plain_error (error_string e)) 1))
  | inr a => k a
  end.

(** wiring.NewContainer: the resolver's initialization is forced, so its parameters are
    made first: the replication context, then the catalog, which is loaded; then
    containerInitializer is invoked. *)
Definition check_server (random : string) (logger : option dberror) :
    M D Catalog.systemCatalog (ExitError + replicationContext) :=
  constructed dependencies (fun _ =>
  constructed (NewReplicationContext rune_string env cfg random logger) (fun r =>
  match r with
  | inl e => mret (inl e)
  | inr rc =>
      constructed services (fun _ =>
      constructed (initializeSystemCatalog username hypertableEnabled vanillaEnabled resolve registerColumnType
        hypertable_order vanilla_order registerSnapshotting) (fun _ =>
      constructed resolver (fun _ =>
      match containerInitializer (mkServer (pgVersion rc) (tsdbVersion rc) (walLevel rc)) with
      | Some e => mret (inl e)
      | None => mret (inr rc)
      end)))
  end)).
End Container.

(** ** The publication *)

Record publicationManager : Type := mkPublicationManager {
  PublicationName : string;
  PublicationCreate : bool;
  PublicationAutoDrop : bool;
}.

Definition NewPublicationManager (rune_string : Z -> string) (env : Configuration.environment) (cfg : goval) :
  crash + publicationManager :=
  n ← get_string rune_string env cfg PropertyPostgresqlPublicationName "";
  c ← get_bool rune_string env cfg PropertyPostgresqlPublicationCreate true;
  a ← get_bool rune_string env cfg PropertyPostgresqlPublicationAutoDrop true;
  mret (mkPublicationManager n c a).

Module Publication.
Section Manager.
Context {R D : Type} `{Server R D} {C : Type} (user : string) (pm : publicationManager).

Definition ExistsTableInPublication (e : SystemEntity) : M D C bool :=
  SideChannel.ExistsTableInPublication (PublicationName pm) (SchemaName e) (TableName e).
Definition AttachTablesToPublication (entities : list SystemEntity) : M D C unit :=
  SideChannel.AttachTablesToPublication (PublicationName pm) entities.
Definition DetachTablesFromPublication (entities : list SystemEntity) : M D C unit :=
  SideChannel.DetachTablesFromPublication (PublicationName pm) entities.
Definition ReadPublishedTables : M D C (list SystemEntity) := SideChannel.ReadPublishedTables (PublicationName pm).
Definition CreatePublication : M D C bool := SideChannel.CreatePublication user (PublicationName pm).
Definition ExistsPublication : M D C bool := SideChannel.ExistsPublication (PublicationName pm).
Definition DropPublication : M D C unit := SideChannel.DropPublication (PublicationName pm).
End Manager.
End Publication.

(** ** The connections of the replication *)

(** pgconn.Config, as far as it is looked at. *)
Record pgConfig : Type := mkPgConfig { User : string; RuntimeParams : option (gmap string string) }.

(** The configuration of a replication connection: a changed copy. *)
Definition replication_config (c : pgConfig) : pgConfig :=
  mkPgConfig (User c) (Some (<[ "replication" := "database" ]>%string (default ∅ (RuntimeParams c)))).

(** The connections by number: those that are open, the next number, and the one in
    use. *)
Record sessions : Type := mkSessions { opened : list nat; next : nat; conn : nat; xLogPos : Z }.

Record endpoint : Type := mkEndpoint {
  ConnectConfig : pgConfig -> nat -> option string;
  IdentifySystem : nat -> string + Z;
  pg_StartReplication : nat -> Z -> option string;
  (** An error with its code, if it is one of the database. *)
  SendStandbyCopyDone : nat -> option (option string * string);
  IsClosed : nat -> bool;
}.

(** What ReceiveMessage of the connection answers before the deadline. *)
Inductive received (Msg : Type) : Type := Received (m : Msg) | TimedOut | ReceiveFailed (e : string).
Arguments Received {Msg}.
Arguments TimedOut {Msg}.
Arguments ReceiveFailed {Msg}.

Section Connection.
Context (p : endpoint) (config : pgConfig).

Definition reconnect : G sessions unit := fun s =>
  match ConnectConfig p (replication_config config) (next s) with
  | Some e => Err e s
  | None => Ret tt (mkSessions (next s :: opened s) (S (next s)) (next s) (xLogPos s))
  end.

Definition identifySystem : G sessions Z := fun s =>
  match IdentifySystem p (conn s) with inl e => Err e s | inr x => Ret x s end.

Definition NewReplicationConnection : G sessions unit :=
  reconnect ;;
  x ← identifySystem;
  modify (fun s => mkSessions (opened s) (next s) (conn s) x).

(** The restart position is that of locateRestartLSN. *)
Definition start_on (lsn : Z) : G sessions unit := fun s =>
  match pg_StartReplication p (conn s) lsn with Some e => Err e s | None => Ret tt s end.

Definition StartReplication (restartLSN : Z) : G sessions Z :=
  r ← catch (start_on restartLSN);
  match r with
  | inr _ => mret restartLSN
  | inl _ => reconnect ;; start_on restartLSN ;; mret restartLSN
  end.

Definition InternalError : string := "XX000".

Definition StopReplication : G sessions unit := fun s =>
  if IsClosed p (conn s) then Ret tt s
  else
    match SendStandbyCopyDone p (conn s) with
    | None => Ret tt s
    | Some (Some code, e) => if String.eqb code InternalError then Ret tt s else Err e s
    | Some (None, e) => Err e s
    end.

Definition Close : G sessions unit :=
  modify (fun s => mkSessions (List.filter (fun n => negb (Nat.eqb n (conn s))) (opened s)) (next s) (conn s) (xLogPos s)).

Definition ReceiveMessage {Msg} (r : received Msg) : string + option Msg :=
  match r with
  | Received m => inr (Some m)
  | TimedOut => inr None
  | ReceiveFailed e => inl ("ReceiveMessage failed: " ++ e)%string
  end.

(** A connection from its set-up to its end. *)
Definition whole_life (restartLSN : Z) : G sessions (string + Z) :=
  NewReplicationConnection ;;
  r ← catch (StartReplication restartLSN);
  Close ;;
  mret r.
End Connection.

(** ** A server that answers *)

(** What the server is: its version, that of the extension, identity, log level and
    the setting of the replication markers. *)
Record description : Type := mkDescription {
  s_version : string;
  s_tsdb : option string;
  s_system : string * string * Z;
  s_wal : string;
  s_markers : string;
}.

Section Served.
Context {R D : Type} `{Server R D} {C : Type} (ok : D -> Prop).

(** The query has these rows, and the server goes on. *)
Definition has_rows {A} (q : query R A) (l : list A) : Prop :=
  forall d, ok d -> exists d', srv_query q d = (inr (mkAnswer (inr <$> l) None), d') /\ ok d'.

Record describes (s : description) : Prop := {
  ds_connect : forall d, ok d -> exists d', srv_connect d = (None, d') /\ ok d';
  ds_close : forall d, ok d -> ok (srv_close d);
  ds_version : has_rows queryPostgreSqlVersion [s_version s];
  ds_tsdb : has_rows queryTimescaleDbVersion (match s_tsdb s with Some v => [v] | None => [] end);
  ds_system : has_rows queryReadSystemInformation [s_system s];
  ds_wal : has_rows queryConfiguredWalLevel [s_wal s];
  ds_markers : has_rows queryReplicationMarkersEnabled [s_markers s];
}.

(** A call ends in a value with the server and the connections as they were. *)
Definition gives {A} (m : M D C A) (a : A) : Prop :=
  forall w, ok (db w) -> exists w', m w = Val a w' /\ ok (db w') /\ connections w' = connections w /\ client w' = client w.

Lemma gives_ret {A} (a : A) : gives (mret a) a.
Proof. intros w Hw. by exists w. Qed.

Lemma gives_bind {A B} (m : M D C A) (f : A -> M D C B) a b : gives m a -> gives (f a) b -> gives (m ≫= f) b.
Proof.
  intros Hm Hf w Hw. destruct (Hm w Hw) as (w1 & E1 & Hw1 & Hc1 & Hl1). destruct (Hf w1 Hw1) as (w2 & E2 & Hw2 & Hc2 & Hl2).
  exists w2. unfold mbind, M_bind. rewrite E1. split_and!; [done|done|congruence|congruence].
Qed.

Lemma gives_caught {A} (m : M D C A) a : gives m a -> gives (caught m) (inr a).
Proof. intros Hm w Hw. destruct (Hm w Hw) as (w' & E & Hrest). exists w'. unfold caught. by rewrite E. Qed.

Context (s : description) (Hs : describes s).

Lemma gives_session {A} (fn : M D C A) a : gives fn a -> gives (newSession fn) a.
Proof.
  intros Hf w Hw. destruct (ds_connect s Hs _ Hw) as (d & Ed & Hd).
  destruct (Hf (mkWorld d (connections w + 1) (client w)) Hd) as (w' & E & Hw' & Hc & Hl).
  exists (mkWorld (srv_close (db w')) (connections w' - 1) (client w')). unfold newSession. rewrite Ed, E.
  split_and!; [done|by apply (ds_close s Hs)|cbn in *; lia|done].
Qed.

Lemma gives_row {A} (q : query R A) a l : has_rows q (a :: l) -> gives (queryRow q) a.
Proof.
  intros Hq w Hw. destruct (Hq _ Hw) as (d & E & Hd). exists (mkWorld d (connections w) (client w)).
  unfold queryRow, ask, mbind, M_bind. by rewrite E.
Qed.

Lemma gives_pg v : Versions.ParsePostgresVersion (s_version s) = inr v -> gives GetPostgresVersion v.
Proof.
  intros Hv. apply gives_session. eapply gives_bind; [eapply gives_row, (ds_version s Hs)|]. rewrite Hv. apply gives_ret.
Qed.

Lemma gives_tsdb text v :
  s_tsdb s = Some text -> Versions.ParseTimescaleVersion text = inr v -> gives GetTimescaleDBVersion (v, true).
Proof.
  intros Ht Hv. pose proof (ds_tsdb s Hs) as Hq. rewrite Ht in Hq. eapply gives_bind.
  - apply gives_caught, gives_session. eapply gives_bind; [by eapply gives_row|]. rewrite Hv.
    eapply gives_bind; apply gives_ret.
  - apply gives_ret.
Qed.

Lemma gives_no_tsdb : s_tsdb s = None -> gives GetTimescaleDBVersion (0, false).
Proof.
  intros Ht w Hw. pose proof (ds_tsdb s Hs) as Hq. rewrite Ht in Hq.
  destruct (ds_connect s Hs _ Hw) as (d1 & E1 & Hd1). destruct (Hq _ Hd1) as (d2 & E2 & Hd2).
  exists (mkWorld (srv_close d2) (connections w + 1 - 1) (client w)).
  unfold GetTimescaleDBVersion, default_row, caught, newSession, queryRow, ask, mbind, M_bind.
  rewrite E1. cbn [db connections client]. rewrite E2. split_and!; [done|by apply (ds_close s Hs)|cbn; lia|done].
Qed.

Lemma gives_markers : gives GetReplicationMarkersEnabled (String.eqb (ToLower (s_markers s)) "on").
Proof.
  eapply gives_bind; [apply gives_caught, gives_session; eapply gives_row, (ds_markers s Hs)|]. apply gives_ret.
Qed.

(** The version of the extension, if there is one. *)
Definition extension (ts : option Z) : Prop :=
  match s_tsdb s, ts with
  | None, None => True
  | Some text, Some v => Versions.ParseTimescaleVersion text = inr v
  | _, _ => False
  end.

Definition context_of (settings : slot_settings) (pg ts : Z) : replicationContext :=
  mkReplicationContext (mode settings) (slot settings) (create settings) (autoDrop settings) pg ts
    (fst (fst (s_system s))) (snd (fst (s_system s))) (snd (s_system s)) (s_wal s)
    (Versions.IsTSDB212GE ts && String.eqb (ToLower (s_markers s)) "on").

Context (rune_string : Z -> string) (env : Configuration.environment) (cfg : goval) (random : string).
Context (settings : slot_settings) (Hsettings : slot_config rune_string env cfg random = inr settings).

Lemma gives_settings : gives (from_crash (slot_config rune_string env cfg random)) settings.
Proof. rewrite Hsettings. apply gives_ret. Qed.

Lemma gives_context pg ts :
  Versions.ParsePostgresVersion (s_version s) = inr pg -> extension ts ->
  gives (NewReplicationContext rune_string env cfg random None)
    (match ts with
     | None => inl (NewExitError "TimescaleDB extension not found" 17)
     | Some v => inr (context_of settings pg v)
     end).
Proof.
  intros Hpg Hts. unfold NewReplicationContext.
  eapply gives_bind; [apply gives_settings|]. eapply gives_bind; [apply gives_ret|].
  eapply gives_bind; [by apply gives_pg|]. unfold extension in Hts.
  destruct (s_tsdb s) as [text|] eqn:Ht, ts as [v|]; try done.
  - eapply gives_bind; [by eapply gives_tsdb|]. cbn [snd negb fst].
    eapply gives_bind; [eapply gives_session, gives_row, (ds_system s Hs)|].
    eapply gives_bind; [eapply gives_session, gives_row, (ds_wal s Hs)|].
    unfold context_of. destruct (Versions.IsTSDB212GE v); cbn [andb].
    + eapply gives_bind; [apply gives_markers|]. apply gives_ret.
    + eapply gives_bind; apply gives_ret.
  - eapply gives_bind; [by apply gives_no_tsdb|]. apply gives_ret.
Qed.

(** The settings are those of the configuration. *)
Lemma settings_configured :
  Configuration.lookup_ rune_string env cfg
    (mkSite PropertyPostgresqlSnapshotInitialMode InitialSnapshotMode (VString "never")) = inr (VString (mode settings)) /\
  get_string rune_string env cfg PropertyPostgresqlReplicationSlotName random = inr (slot settings) /\
  get_bool rune_string env cfg PropertyPostgresqlReplicationSlotCreate true = inr (create settings) /\
  get_bool rune_string env cfg PropertyPostgresqlReplicationSlotAutoDrop true = inr (autoDrop settings).
Proof.
  revert Hsettings. unfold slot_config.
  destruct (Configuration.lookup_ _ _ _ _) as [c|m] eqn:Hm; [done|]. cbn [mbind pure_bind].
  destruct m as [| |m| | | |]; try done. cbn [mbind pure_bind mret pure_ret].
  destruct (get_string _ _ _ _ _) as [c|n] eqn:Hn; [done|]. cbn [mbind pure_bind].
  destruct (get_bool _ _ _ PropertyPostgresqlReplicationSlotCreate _) as [c|b] eqn:Hb; [done|]. cbn [mbind pure_bind].
  destruct (get_bool _ _ _ PropertyPostgresqlReplicationSlotAutoDrop _) as [c|a] eqn:Ha; [done|]. cbn [mbind pure_bind].
  by intros [= <-].
Qed.
End Served.

Section Started.
Context {R D : Type} `{Server R D} (ok : D -> Prop).
Context (s : description) (Hs : describes ok s).
Context (rune_string : Z -> string) (env : Configuration.environment) (cfg : goval) (random : string).
Context (settings : slot_settings) (Hsettings : slot_config rune_string env cfg random = inr settings).

(** A call ends in a value with the server answering and the connections closed. *)
Definition ends {A} (m : M D Catalog.systemCatalog A) (a : A) : Prop :=
  forall w, ok (db w) -> exists w', m w = Val a w' /\ ok (db w') /\ connections w' = connections w.

(** A constructor succeeds, or reports this error. *)
Definition outcome_is (m : M D Catalog.systemCatalog unit) (e : option dberror) : Prop :=
  ends (caught m) (match e with Some e => inl e | None => inr tt end).

Lemma gives_ends {A} (m : M D Catalog.systemCatalog A) a : gives ok m a -> ends m a.
Proof. intros Hm w Hw. destruct (Hm w Hw) as (w' & E & Hw' & Hc & _). by exists w'. Qed.

Lemma ends_ret {A} (a : A) : ends (mret a) a.
Proof. apply gives_ends, gives_ret. Qed.

Lemma ends_bind {A B} (m : M D Catalog.systemCatalog A) (f : A -> M D Catalog.systemCatalog B) a b :
  ends m a -> ends (f a) b -> ends (m ≫= f) b.
Proof.
  intros Hm Hf w Hw. destruct (Hm w Hw) as (w1 & E1 & Hw1 & Hc1). destruct (Hf w1 Hw1) as (w2 & E2 & Hw2 & Hc2).
  exists w2. unfold mbind, M_bind. rewrite E1. split_and!; [done|done|congruence].
Qed.

Context (dependencies services resolver : M D Catalog.systemCatalog unit).
Context (username : string) (hypertableEnabled : Hypertable -> bool) (vanillaEnabled : PgTable -> bool).
Context (resolve : Z -> M D Catalog.systemCatalog PgType) (registerColumnType : Column -> option string).
Context (hypertable_order : gmap Z Hypertable -> list Hypertable) (vanilla_order : gmap Z PgTable -> list PgTable).
Context (registerSnapshotting : M D Catalog.systemCatalog unit).
Context (error_string : dberror -> string).

(** What the constructors and the load of the catalog come to. *)
Context (Edependencies Eservices Eload Eresolver : option dberror).
Context (Hdependencies : outcome_is dependencies Edependencies) (Hservices : outcome_is services Eservices).
Context (Hload : outcome_is (initializeSystemCatalog username hypertableEnabled vanillaEnabled resolve registerColumnType
  hypertable_order vanilla_order registerSnapshotting) Eload).
Context (Hresolver : outcome_is resolver Eresolver).

Definition adapted {B} (e : dberror) : ExitError + B := inl (AdaptError (plain_error (error_string e)) 1).

Lemma constructed_ends {B} m (k : unit -> M D Catalog.systemCatalog (ExitError + B)) e r :
  outcome_is m e -> ends (k tt) r ->
  ends (constructed error_string m k) (match e with Some e => adapted e | None => r end).
Proof.
  intros Hm Hk. unfold constructed. eapply ends_bind; [exact Hm|]. destruct e as [e|]; [apply ends_ret|exact Hk].
Qed.

(** The checks of containerInitializer. *)
Definition checked (rc : replicationContext) : ExitError + replicationContext :=
  match containerInitializer (mkServer (pgVersion rc) (tsdbVersion rc) (walLevel rc)) with Some e => inl e | None => inr rc end.

Lemma check_server_ends pg ts :
  Versions.ParsePostgresVersion (s_version s) = inr pg -> extension s ts ->
  ends (check_server rune_string env cfg dependencies services resolver username hypertableEnabled vanillaEnabled resolve
    registerColumnType hypertable_order vanilla_order registerSnapshotting error_string random None)
    (match Edependencies with
     | Some e => adapted e
     | None =>
         match ts with
         | None => inl (NewExitError "TimescaleDB extension not found" 17)
         | Some v =>
             match Eservices, Eload, Eresolver with
             | Some e, _, _ | None, Some e, _ | None, None, Some e => adapted e
             | None, None, None => checked (context_of s settings pg v)
             end
         end
     end).
Proof.
  intros Hpg Hts. unfold check_server. apply constructed_ends; [exact Hdependencies|].
  unfold constructed at 1. eapply ends_bind.
  { apply gives_ends, gives_caught. by eapply (gives_context ok s Hs rune_string env cfg random settings Hsettings pg ts). }
  cbv beta iota. destruct ts as [v|]; [|apply ends_ret].
  assert (Hinner : ends (constructed error_string services (fun _ => constructed error_string
      (initializeSystemCatalog username hypertableEnabled vanillaEnabled resolve registerColumnType
         hypertable_order vanilla_order registerSnapshotting) (fun _ => constructed error_string resolver (fun _ =>
      match containerInitializer (mkServer pg v (s_wal s)) with
      | Some e => mret (inl e)
      | None => mret (inr (context_of s settings pg v))
      end))))
    (match Eservices with Some e => adapted e | None => match Eload with Some e => adapted e | None =>
       match Eresolver with Some e => adapted e | None => checked (context_of s settings pg v) end end end)).
  { apply constructed_ends; [exact Hservices|]. apply constructed_ends; [exact Hload|].
    apply constructed_ends; [exact Hresolver|]. unfold checked. cbn. destruct (containerInitializer _); apply ends_ret. }
  destruct Eservices, Eload, Eresolver; exact Hinner.
Qed.

End Started.

(** ** Connections that stay open *)

Lemma close_others (l : list nat) n :
  Forall (fun m => m < n)%nat l -> List.filter (fun m => negb (Nat.eqb m n)) l = l.
Proof.
  induction 1 as [|m l Hm _ IH]; [done|]. cbn. destruct (Nat.eqb_spec m n); [lia|]. cbn. by rewrite IH.
Qed.

(** A replication connection is not closed in two cases: when the server cannot be
    identified after connecting, and when the first attempt to start the replication
    fails, since the second one replaces the connection without closing it.  In every
    other case, errors included, its end leaves the connections that were open
    before. *)
Theorem replication_connection_leaks p config restartLSN s :
  Forall (fun n => n < next s)%nat (opened s) ->
  let connect := ConnectConfig p (replication_config config) in
  match whole_life p config restartLSN s with
  | Err e s' => connect (next s) = Some e /\ s' = s \/
                IdentifySystem p (next s) = inl e /\ opened s' = next s :: opened s
  | Ret r s' =>
      opened s' = (if bool_decide (is_Some (pg_StartReplication p (next s) restartLSN) /\ connect (S (next s)) = None)
                   then next s :: opened s else opened s)
  | Crash _ => False
  end.
Proof.
  intros Hs connect. unfold whole_life, NewReplicationConnection, mbind, G_bind, reconnect at 1, identifySystem. fold connect.
  destruct (connect (next s)) as [e|] eqn:H1; [by left|].
  cbn [conn opened next xLogPos]. destruct (IdentifySystem p (next s)) as [e|x]; [by right|].
  unfold modify, catch, StartReplication, start_on, reconnect, catch, mbind, G_bind, mret, G_ret, Close, modify.
  fold connect. cbn [conn opened next xLogPos].
  assert (Hone : forall x, List.filter (fun n => negb (Nat.eqb n (next s))) (next s :: opened s) = x -> opened s = x).
  { cbn. rewrite Nat.eqb_refl. cbn. by rewrite close_others. }
  destruct (pg_StartReplication p (next s) restartLSN) as [e|] eqn:H2; cbn [conn opened next xLogPos].
  - destruct (connect (S (next s))) as [e'|] eqn:H3; cbn [conn opened next xLogPos].
    + rewrite bool_decide_eq_false_2 by naive_solver. symmetry. by apply Hone.
    + rewrite bool_decide_eq_true_2 by naive_solver.
      assert (Hclose : List.filter (fun n => negb (Nat.eqb n (S (next s)))) (S (next s) :: next s :: opened s) = next s :: opened s).
      { rewrite <- (close_others (next s :: opened s) (S (next s))) at 2; [cbn; by rewrite Nat.eqb_refl|].
        constructor; [lia|]. eapply Forall_impl; [exact Hs|]. cbn. lia. }
      destruct (pg_StartReplication p (S (next s)) restartLSN); exact Hclose.
  - rewrite bool_decide_eq_false_2 by (intros [[? ?] _]; done). symmetry. by apply Hone.
Qed.

(** ** Examples *)

(** The server of the examples: PostgreSQL 15.2, TimescaleDB 2.12.1, log level logical. *)
Definition sample_query A (q : query unit A) : list A :=
  match q in query _ A return list A with
  | queryPostgreSqlVersion => ["15.2"%string]
  | queryTimescaleDbVersion => ["2.12.1"%string]
  | queryReadSystemInformation => [("tsdb"%string, "7"%string, 1)]
  | queryConfiguredWalLevel => ["logical"%string]
  | queryReplicationMarkersEnabled => ["ON"%string]
  | _ => []
  end.

#[local] Instance sample_server : Server unit unit := {|
  srv_connect _ := (None, tt);
  srv_close _ := tt;
  srv_exec _ _ := (None, tt);
  srv_query A q _ := (inr (mkAnswer (inr <$> sample_query A q) None), tt);
|}.

Definition sample_description : description := mkDescription "15.2" (Some "2.12.1"%string) ("tsdb"%string, "7"%string, 1) "logical" "ON".
Definition sample_settings : slot_settings := mkSlotSettings "never" "abc" true true.


(** The first start of the replication fails. *)
Definition stubborn : endpoint :=
  mkEndpoint (fun _ _ => None) (fun _ => inr 1) (fun n _ => if Nat.eqb n 0 then Some "in use"%string else None)
    (fun _ => None) (fun _ => false).

Lemma replication_connection_leaks_witness :
  match whole_life stubborn (mkPgConfig "u" None) 5 (mkSessions [] 0 0 0) with
  | Ret r s' => r = inr 5 /\ opened s' = [0%nat]
  | _ => False
  end.
Proof.
  pose proof (replication_connection_leaks stubborn (mkPgConfig "u" None) 5 (mkSessions [] 0 0 0)) as H.
  cbv zeta in H. specialize (H ltac:(constructor)).
  destruct (whole_life stubborn _ 5 _) as [r s'|e s'|c] eqn:E; [|vm_compute in E; discriminate E|exact H].
  split; [vm_compute in E; injection E as <- _; reflexivity|]. rewrite H. vm_compute. reflexivity.
Defined.
