(* ===== verification/Pipeline.v ===== *)
(** * Pipeline: from the log to the sink

    The replication handler, the resolver and the emitter share the queue of the task
    manager (internal/taskmanager/taskmanager.go): a message of the log is enqueued as
    a task for the resolver; what the resolver makes of it is enqueued again, behind
    whatever has arrived meanwhile, as tasks for the emitter; the dispatcher takes one
    task after the other.  Here the components of Resolver.v and Emitter.v run on one
    queue, and messages arrive while the dispatcher works, in any interleaving.

    The resolver is the handler of the log's messages, as it is without the transaction
    window; WindowedPipeline.v has the window in front of it. *)

From Stdlib Require Import ZArith Lia.
From stdpp Require Import base tactics option list numbers strings gmap.
From S2P Require Import Prelude Encoding Entities Values Messages SystemCatalog StateStorage ReplicationContext.
From S2P Require Import Resolver Emitter.

Local Open Scope Z_scope.

Section Pipeline.
Context {S : Type} `{StorageLaws S}.
Context (cfg : Resolver.config) (GetOrPlanTupleDecoder : RelationMessage -> option string).
Context `{Database} (enabled : Hypertable -> bool) (env : Emitter.environment).

(** The task queue is that of the resolver's world.  [trace] is the history of the calls
    of the emitter's methods. *)
Record pipeline : Type := mkPipeline {
  resolver : Resolver.world;
  emitter : Emitter.world (S := S);
  trace : list (moment * Emitter.event);
}.

Definition set_resolver (r : Resolver.world) (p : pipeline) : pipeline := mkPipeline r (emitter p) (trace p).
Definition set_emitter (e : Emitter.world) (p : pipeline) : pipeline := mkPipeline (resolver p) e (trace p).
Definition record_call (ce : moment * Emitter.event) (p : pipeline) : pipeline :=
  mkPipeline (resolver p) (emitter p) (trace p ++ [ce]).

(** The emitter's method for a call of the record and compression handlers. *)
Definition event_of (e : record_event) : Emitter.event :=
  match e with
  | OnRead lsn t _ newValues => Read lsn t (Some newValues)
  | OnInsert xld t _ newValues => Insert xld t (Some newValues)
  | OnUpdate xld t _ oldValues newValues => Update xld t (Some oldValues) (Some newValues)
  | OnDelete xld t _ oldValues tombstone => Delete_ xld t (Some oldValues) tombstone
  | OnTruncate xld t => Truncate xld t
  | OnMessage xld m => LogicalMessage xld m
  | OnTransactionFinished xld m => TransactionFinished xld m
  end.

Definition compression_of (e : compression_event) : Emitter.event :=
  match e with
  | ChunkCompressed xld h _ => Compressed xld h
  | ChunkDecompressed xld h _ => Decompressed xld h
  end.

Definition emit_event (c : moment) (e : Emitter.event) : G pipeline unit :=
  modify (record_call (c, e)) ;;
  zoom emitter set_emitter (Emitter.handle env c e).

(** The tasks that the resolver runs itself reach the emitter as well. *)
Definition emit_ran (c : moment) (t : task) : G pipeline unit :=
  match t with
  | NotifyCompression e => catch (emit_event c (compression_of e)) ;; mret tt
  | _ => mret tt
  end.

Definition logical (c : moment) (xld : XLogData) (m : Message) : G pipeline unit :=
  p ← get;
  r ← catch (zoom resolver set_resolver (Resolver.onMessage cfg GetOrPlanTupleDecoder enabled xld m));
  p' ← get;
  forM (drop (length (ran (resolver p))) (ran (resolver p'))) (emit_ran c) ;;
  match r with inl e => fail e | inr _ => mret tt end.

(** A relation: all handlers are notified, those of the catalog, the resolver and the
    emitter, which does nothing; the error of one does not keep the others from it. *)
Definition on_relation (m : RelationMessage) : G pipeline unit :=
  catch (zoom resolver set_resolver (zoom catalog set_catalog (CatalogEvents.OnRelationEvent m))) ;;
  zoom resolver set_resolver (Resolver.OnRelationEvent GetOrPlanTupleDecoder m).

(** A task: the handlers of its kind are notified. *)
Definition on_task (c : moment) (t : task) : G pipeline unit :=
  match t with
  | NotifyBase _ m => on_relation m
  | NotifyLogical xld m => logical c xld m
  | NotifyRecord e => emit_event c (event_of e)
  | NotifyCatalog e => zoom resolver set_resolver (zoom catalog set_catalog (CatalogEvents.handle enabled e))
  | NotifyCompression e => emit_event c (compression_of e)
  end.

(** A round of the dispatcher; it waits on an empty queue.  Errors are logged. *)
Definition work (c : moment) : G pipeline unit :=
  p ← get;
  match taskQueue (resolver p) with
  | [] => mret tt
  | t :: q => put (set_resolver (set_taskQueue q (resolver p)) p) ;; catch (on_task c t) ;; mret tt
  end.

(** The task of the replication handler for a message. *)
Definition arrival (xld : XLogData) (m : Message) : task :=
  match m with MRelation r => NotifyBase xld r | _ => NotifyLogical xld m end.

Definition arrive (xld : XLogData) (m : Message) : G pipeline unit :=
  zoom resolver set_resolver (Resolver.EnqueueTask (arrival xld m)).

Inductive action : Type := Arrives (xld : XLogData) (m : Message) | Works (c : moment).

Definition perform (a : action) : G pipeline unit :=
  match a with Arrives xld m => arrive xld m | Works c => work c end.

Definition run (acts : list action) : G pipeline unit := forM acts perform.

Definition arrivals (acts : list action) : list (XLogData * Message) :=
  omap (fun a => match a with Arrives xld m => Some (xld, m) | Works _ => None end) acts.

(** ** What a message should become *)

Section Stream.
Context (rels : gmap Z RelationMessage) (sc : Catalog.systemCatalog).

Definition target_of (genPostgresql genHypertable : bool) (relId : Z) : option (table * option Chunk) :=
  rel ← rels !! relId; target genPostgresql genHypertable rel sc.

Definition truncates (relIds : list Z) : list table :=
  uniqBy table_name [] (omap (fun relId => rel ← rels !! relId; truncated cfg rel sc) relIds).

Definition record_events (xm : XLogData * Message) : list record_event :=
  let '(xld, m) := xm in
  match m with
  | MInsert relId newValues =>
      match target_of (genPostgresqlInsertEvent cfg) (genHypertableInsertEvent cfg) relId with
      | Some (t, c) => [OnInsert xld t c newValues]
      | None => []
      end
  | MUpdate relId oldValues newValues =>
      match target_of (genPostgresqlUpdateEvent cfg) (genHypertableUpdateEvent cfg) relId with
      | Some (t, c) => [OnUpdate xld t c oldValues newValues]
      | None => []
      end
  | MDelete relId oldValues =>
      match target_of (genPostgresqlDeleteEvent cfg) (genHypertableDeleteEvent cfg) relId with
      | Some (t, c) => OnDelete xld t c oldValues false ::
                       (if genDeleteTombstone cfg then [OnDelete xld t c oldValues true] else [])
      | None => []
      end
  | MTruncate _ relIds => OnTruncate xld <$> truncates relIds
  | MCommit m => [OnTransactionFinished xld m]
  | MLogical m => [OnMessage xld m]
  | _ => []
  end.

(** The catalog's handler leaves the catalog as it is: the relation is no hypertable of
    the internal schema and no continuous aggregate, whose columns are read again, or
    they are read as they are known, or not at all. *)
Definition leaves_catalog (rel : RelationMessage) : Prop :=
  forall s, CatalogEvents.catalog s = sc -> exists r, catch (CatalogEvents.OnRelationEvent rel) s = Ret r s.

(** Messages of a stream without changes of relations or of the catalog. *)
Definition plain (m : Message) : Prop :=
  match m with
  | MInsert r _ | MUpdate r _ _ | MDelete r _ =>
      exists rel, rels !! r = Some rel /\ RelationID rel = r /\ IsHypertableEvent rel = false /\ IsChunkEvent rel = false
  | MRelation rel => rels !! RelationID rel = Some rel /\ GetOrPlanTupleDecoder rel = None /\ leaves_catalog rel
  | MTruncate n relIds =>
      n = Z.of_nat (length relIds) /\ Forall (fun r => exists rel, rels !! r = Some rel /\ RelationID rel = r) relIds
  | _ => True
  end.

(** The relations that a message refers to, and those known after it. *)
Definition needs (m : Message) : list Z :=
  match m with
  | MInsert r _ | MUpdate r _ _ | MDelete r _ => [r]
  | MTruncate _ relIds => relIds
  | _ => []
  end.
Definition learn (m : Message) (R : gmap Z RelationMessage) : gmap Z RelationMessage :=
  match m with MRelation rel => <[ RelationID rel := rel ]> R | _ => R end.

(** Every relation is announced before it is used, as the server does it. *)
Fixpoint announced (R : gmap Z RelationMessage) (l : list Message) : Prop :=
  match l with
  | [] => True
  | m :: l => Forall (fun r => is_Some (R !! r)) (needs m) /\ announced (learn m R) l
  end.

(** The events that the emitter should handle for the messages, in order. *)
Definition stream_events (l : list (XLogData * Message)) : list Emitter.event :=
  event_of <$> concat (record_events <$> l).

(** The resolver knows the catalog and some of the relations, and no snapshot is
    running. *)
Record steady (w : Resolver.world) : Prop := {
  sd_relations : relations w ⊆ rels;
  sd_cached : dom (chunkIdLookup w) ⊆ dom (relations w);
  sd_catalog : sysCatalog w = sc;
  sd_queues : eventQueues w = ∅;
  sd_up : shutdownActive w = false;
  sd_cache : Resolver.cache_ok w;
  sd_inv : Catalog.Inv sc;
}.

Lemma steady_queue w q : steady w -> steady (set_taskQueue q w).
Proof. by intros []. Qed.

Lemma steady_positions w a b x : steady w -> steady (set_positions a b x w).
Proof. by intros []. Qed.

Lemma steady_cache w w' :
  steady w -> same_but_cache w w' ->
  steady w' /\ relations w' = relations w /\ taskQueue w' = taskQueue w /\ ran w' = ran w.
Proof.
  intros [? Hd] [(m & -> & Hm) Hc]. split; [|done]. split; try done. cbn. etrans; [exact Hm|]. by apply union_least.
Qed.

(** A relation that is new, or told again. *)
Lemma steady_learn w rel :
  steady w -> rels !! RelationID rel = Some rel ->
  steady (Resolver.set_relations (<[ RelationID rel := rel ]> (relations w)) w).
Proof.
  intros [Hr Hd ? ? ? Hc ?] Hrel. split; try done; cbn.
  - by apply insert_subseteq_l.
  - rewrite dom_insert. etrans; [exact Hd|]. apply union_subseteq_r.
  - intros oid id r Hoid Hl. cbn in Hoid, Hl. apply (Hc oid id r Hoid).
    apply elem_of_dom_2, Hd, elem_of_dom in Hoid as [r' Hr']. rewrite Hr'. f_equal.
    apply lookup_insert_Some in Hl as [[<- <-]|[_ Hl]]; [|congruence].
    eapply lookup_weaken in Hr'; [|exact Hr]. congruence.
Qed.

(** What a call of the resolver that knows [R] should do: enqueue the tasks of these
    events. *)
Definition enqueues (R : gmap Z RelationMessage) (m : G Resolver.world unit) (es : list record_event) : Prop :=
  forall w, steady w -> relations w = R -> exists w', m w = Ret tt w' /\ steady w' /\ relations w' = R /\ ran w' = ran w /\
    taskQueue w' = (taskQueue w ++ (NotifyRecord <$> es))%list.

Section Enqueues.
Context (R : gmap Z RelationMessage).

Lemma enqueues_none : enqueues R (mret tt) [].
Proof. intros w Hw HR. exists w. split_and!; [done|done|done|done|]. by rewrite app_nil_r. Qed.

Lemma enqueues_task e : enqueues R (Resolver.EnqueueTask (NotifyRecord e)) [e].
Proof.
  intros w Hw HR. exists (set_taskQueue (taskQueue w ++ [NotifyRecord e]) w)%list.
  split_and!; [by apply EnqueueTask_run, Hw|by apply steady_queue|done|done|done].
Qed.

Lemma enqueues_app m1 m2 es1 es2 : enqueues R m1 es1 -> enqueues R m2 es2 -> enqueues R (m1 ;; m2) (es1 ++ es2).
Proof.
  intros Hm1 Hm2 w Hw HR. destruct (Hm1 w Hw HR) as (w1 & Hr1 & Hw1 & HR1 & Hn1 & Hq1).
  destruct (Hm2 w1 Hw1 HR1) as (w2 & Hr2 & Hw2 & HR2 & Hn2 & Hq2).
  exists w2. rewrite (bind_run _ _ _ _ _ Hr1). split_and!; [done|done|done|congruence|].
  by rewrite Hq2, Hq1, fmap_app, app_assoc.
Qed.

Lemma enqueues_submit chunk xld e : enqueues R (enqueueOrExecute chunk xld (NotifyRecord e)) [e].
Proof.
  intros w Hw HR. unfold enqueueOrExecute. rewrite (bind_run get _ _ _ _ eq_refl).
  destruct chunk as [c|]; [|by apply enqueues_task]. unfold isSnapshotting. rewrite (sd_queues w Hw), lookup_empty.
  rewrite bool_decide_eq_false_2 by (by intros []). by apply enqueues_task.
Qed.

(** The common part of the row events: the relation is known, and its table is found. *)
Lemma enqueues_row relId genP genH rel (k : option (table * option Chunk) -> G Resolver.world unit) es onHypertable onChunk :
  is_Some (R !! relId) ->
  rels !! relId = Some rel -> RelationID rel = relId -> IsHypertableEvent rel = false -> IsChunkEvent rel = false ->
  (enqueues R (k (target_of genP genH relId)) es) ->
  enqueues R (rel' ← relation relId;
              if IsHypertableEvent rel' then onHypertable
              else if IsChunkEvent rel' then onChunk
              else r ← resolveTable genP genH rel'; k r) es.
Proof.
  intros [rel0 Hrel0] Hrel Hid Hh Hc Hk w Hw HR.
  assert (relations w !! relId = Some rel) as Hknown.
  { rewrite HR, Hrel0. rewrite <- HR in Hrel0. pose proof (lookup_weaken _ _ _ _ Hrel0 (sd_relations w Hw)). congruence. }
  assert (relation relId w = Ret rel w) as Hget.
  { unfold relation. go_unfold. by rewrite Hknown. }
  rewrite (bind_run _ _ _ _ _ Hget), Hh, Hc.
  destruct (resolve_table genP genH rel w) as (w1 & Hsame & Hrun).
  - rewrite (sd_catalog w Hw). apply Hw.
  - apply Hw.
  - by rewrite Hid.
  - rewrite (bind_run _ _ _ _ _ Hrun), (sd_catalog w Hw). destruct (steady_cache w w1 Hw Hsame) as (Hw1 & HR1 & Hq & Hn).
    unfold target_of in Hk. rewrite Hrel in Hk. destruct (Hk w1 Hw1) as (w2 & Hr & Hw2 & HR2 & Hn2 & Hq2); [congruence|].
    exists w2. split_and!; [done|done|done|congruence|congruence].
Qed.

Lemma enqueues_truncate xld relIds :
  Forall (fun r => is_Some (R !! r)) relIds -> Forall (fun r => exists rel, rels !! r = Some rel /\ RelationID rel = r) relIds ->
  enqueues R (Resolver.OnTruncateEvent cfg xld (Z.of_nat (length relIds)) relIds) (OnTruncate xld <$> truncates relIds).
Proof.
  intros Hk Hrels w Hw HR.
  assert (forall r rel, R !! r = Some rel -> rels !! r = Some rel) as Hsub.
  { intros r rel Hr. rewrite <- HR in Hr. by eapply lookup_weaken, Hw. }
  destruct (truncate_enqueues cfg xld relIds w) as (w0 & Hsame & Hrun).
  - rewrite Forall_forall in Hk, Hrels. apply Forall_forall. intros r Hr. destruct (Hk r Hr) as [rel Hrel].
    destruct (Hrels r Hr) as (rel' & Hrel' & Hid). exists rel'. rewrite HR. split; [|done]. rewrite Hrel.
    apply Hsub in Hrel. congruence.
  - rewrite (sd_catalog w Hw). apply Hw.
  - apply Hw.
  - apply Hw.
  - destruct (steady_cache w w0 Hw Hsame) as (Hw0 & HR0 & Hq & Hn).
    eexists. split; [exact Hrun|]. split; [by apply steady_queue|]. split; [by rewrite <- HR|]. split; [done|].
    cbn. f_equal. rewrite <- list_fmap_compose. unfold truncates, truncated_tables, truncated_of.
    enough (omap (fun r => rel ← relations w !! r; truncated cfg rel (sysCatalog w)) relIds =
            omap (fun r => rel ← rels !! r; truncated cfg rel sc) relIds) as -> by done.
    rewrite (sd_catalog w Hw), HR. clear Hrun Hrels. induction Hk as [|r ids [rel Hr] _ IH]; [done|]. cbn.
    rewrite Hr, (Hsub _ _ Hr). cbn. by rewrite IH.
Qed.

Lemma enqueues_bind_none m k es : enqueues R m [] -> enqueues R k es -> enqueues R (m ;; k) es.
Proof. apply enqueues_app. Qed.

Lemma enqueues_positions f :
  (forall w, exists a b x, f w = set_positions a b x w) -> enqueues R (modify f) [].
Proof.
  intros Hf w Hw HR. destruct (Hf w) as (a & b & x & Hx). exists (f w). rewrite Hx.
  split_and!; [unfold modify; by rewrite Hx|by apply steady_positions|done|done|]. by rewrite app_nil_r.
Qed.

Lemma message_enqueues xld m :
  match m with MRelation _ => False | _ => True end -> plain m -> Forall (fun r => is_Some (R !! r)) (needs m) ->
  enqueues R (Resolver.onMessage cfg GetOrPlanTupleDecoder enabled xld m) (record_events (xld, m)).
Proof.
  intros Hno Hm Hk. destruct m as [rel|b|cm|r new|r old new|r old|n l| | |lm]; cbn [Resolver.onMessage record_events].
  - done.
  - apply enqueues_positions. intros w. by eexists _, _, _.
  - apply enqueues_bind_none; [|apply enqueues_task]. apply enqueues_positions. intros w. by eexists _, _, _.
  - destruct Hm as (rel & Hrel & Hid & Hh & Hc). unfold Resolver.OnInsertEvent. apply Forall_cons in Hk as [Hk _].
    eapply enqueues_row; [done..|].
    destruct (target_of _ _ _) as [[t c]|]; [apply enqueues_submit|apply enqueues_none].
  - destruct Hm as (rel & Hrel & Hid & Hh & Hc). unfold Resolver.OnUpdateEvent. apply Forall_cons in Hk as [Hk _].
    eapply enqueues_row; [done..|].
    destruct (target_of _ _ _) as [[t c]|]; [apply enqueues_submit|apply enqueues_none].
  - destruct Hm as (rel & Hrel & Hid & Hh & Hc). unfold Resolver.OnDeleteEvent. apply Forall_cons in Hk as [Hk _].
    eapply enqueues_row; [done..|].
    destruct (target_of _ _ _) as [[t c]|]; [|apply enqueues_none].
    apply (enqueues_app _ _ [_] (if genDeleteTombstone cfg then [_] else [])); [apply enqueues_submit|].
    destruct (genDeleteTombstone cfg); [apply enqueues_submit|apply enqueues_none].
  - destruct Hm as [-> Hm]. by apply enqueues_truncate.
  - apply enqueues_none.
  - apply enqueues_none.
  - apply enqueues_task.
Qed.
End Enqueues.

(** ** The queue *)

(** The events that are still to be handled: those in the queue, then those of the
    messages in the queue. *)
Definition records (q : list task) : list record_event :=
  omap (fun t => match t with NotifyRecord e => Some e | _ => None end) q.
Definition logicals (q : list task) : list (XLogData * Message) :=
  omap (fun t => match t with NotifyLogical xld m => Some (xld, m) | _ => None end) q.
Definition pending (q : list task) : list record_event := (records q ++ concat (record_events <$> logicals q))%list.

(** The messages in the queue. *)
Definition queued (q : list task) : list Message :=
  omap (fun t => match t with NotifyBase _ m => Some (MRelation m) | NotifyLogical _ m => Some m | _ => None end) q.

(** A message whose events the emitter can put on streams. *)
Definition message_ok (xm : XLogData * Message) : Prop :=
  plain (snd xm) /\ Forall (fun e => Emitter.event_ok (event_of e)) (record_events xm).

Definition expected_task (t : task) : Prop :=
  match t with
  | NotifyBase _ m => plain (MRelation m)
  | NotifyLogical xld m => match m with MRelation _ => False | _ => message_ok (xld, m) end
  | NotifyRecord e => Emitter.event_ok (event_of e)
  | NotifyCatalog _ | NotifyCompression _ => False
  end.

(** How many rounds the tasks take: one each, and those of the events of a message. *)
Definition rounds (q : list task) : nat :=
  list_sum ((fun t => match t with NotifyLogical xld m => (1 + length (record_events (xld, m)))%nat | _ => 1%nat end) <$> q).

Lemma records_app q q' : records (q ++ q') = (records q ++ records q')%list.
Proof. apply omap_app. Qed.
Lemma logicals_app q q' : logicals (q ++ q') = (logicals q ++ logicals q')%list.
Proof. apply omap_app. Qed.
Lemma queued_app q q' : queued (q ++ q') = (queued q ++ queued q')%list.
Proof. apply omap_app. Qed.
Lemma rounds_app q q' : rounds (q ++ q') = (rounds q + rounds q')%nat.
Proof. unfold rounds. by rewrite fmap_app, list_sum_app. Qed.

Lemma records_tasks es : records (NotifyRecord <$> es) = es.
Proof. induction es as [|e es IH]; [done|]. cbn. by f_equal. Qed.
Lemma logicals_tasks es : logicals (NotifyRecord <$> es) = [].
Proof. by induction es. Qed.
Lemma queued_tasks es : queued (NotifyRecord <$> es) = [].
Proof. by induction es. Qed.
Lemma rounds_tasks es : rounds (NotifyRecord <$> es) = length es.
Proof. induction es as [|e es IH]; [done|]. cbn. by f_equal. Qed.

Lemma queued_arrival xld m : queued [arrival xld m] = [m].
Proof. by destruct m. Qed.
Lemma rounds_arrival xld m : rounds [arrival xld m] = (1 + length (record_events (xld, m)))%nat.
Proof. destruct m; cbn [arrival rounds fmap list_fmap list_sum foldr]; cbn; lia. Qed.

Lemma pending_message xld m q :
  pending (q ++ (NotifyRecord <$> record_events (xld, m))) = pending (NotifyLogical xld m :: q).
Proof.
  unfold pending. rewrite records_app, logicals_app, records_tasks, logicals_tasks, app_nil_r. cbn. by rewrite <- app_assoc.
Qed.

Lemma pending_arrival xld m q : pending (q ++ [arrival xld m]) = (pending q ++ record_events (xld, m))%list.
Proof.
  unfold pending. rewrite records_app, logicals_app. destruct m; cbn [arrival records logicals omap list_omap];
    rewrite ?app_nil_r, ?fmap_app, ?concat_app; cbn [fmap list_fmap concat]; by rewrite ?app_nil_r, ?app_assoc.
Qed.

(** ** Progress *)

(** The events end as they have to; what was delivered and how far it is acknowledged. *)
Definition accounted (es : list (moment * Emitter.event)) (w w' : Emitter.world (S := S)) (fates : list fate) : Prop :=
  settled env es w w' fates /\
  delivered w' = (delivered w ++ concat (map sent fates))%list /\
  lastProcessedLSN (rc w') =
    foldr Z.max (lastProcessedLSN (rc w)) (map ack_position (concat (zip_with acknowledged es fates))).

Lemma settled_accounted es w w' fates : settled env es w w' fates -> accounted es w w' fates.
Proof. intros Hs. split_and!; [done|by apply (settled_delivers env es)|by apply (settled_position env es)]. Qed.

Lemma foldr_max_ge base l : base <= foldr Z.max base l.
Proof. induction l; cbn; lia. Qed.

(** [arrived] has arrived since [p0], the events [es] are handled, and the messages
    [future] are still to arrive. *)
Record progress (p0 p : pipeline) (arrived : list (XLogData * Message)) (future : list Message)
    (es : list (moment * Emitter.event)) : Prop := {
  pg_steady : steady (resolver p);
  pg_known : announced (relations (resolver p)) (queued (taskQueue (resolver p)) ++ future);
  pg_tasks : Forall expected_task (taskQueue (resolver p));
  pg_streams : streams_ok env (emitter p);
  pg_order : exists handled, concat (record_events <$> arrived) = (handled ++ pending (taskQueue (resolver p)))%list /\
               snd <$> es = event_of <$> handled;
  pg_settled : exists fates, settled env es (emitter p0) (emitter p) fates;
  pg_trace : trace p = (trace p0 ++ es)%list;
  pg_offset : offset_behind (rc (emitter p));
}.

Lemma progress_start p future :
  steady (resolver p) -> taskQueue (resolver p) = [] -> streams (emitter p) = ∅ -> offset_behind (rc (emitter p)) ->
  announced (relations (resolver p)) future -> progress p p [] future [].
Proof.
  intros Hs Hq Hst Ho Hk.
  split; [done|by rewrite Hq|by rewrite Hq|by apply no_streams_ok|exists []; by rewrite Hq| |by rewrite app_nil_r|done].
  exists []. constructor. apply same_emitter_refl.
Qed.

Lemma arrive_progress p0 p arrived future es xld m :
  progress p0 p arrived (m :: future) es -> message_ok (xld, m) ->
  exists p', arrive xld m p = Ret tt p' /\ progress p0 p' (arrived ++ [(xld, m)]) future es /\
    rounds (taskQueue (resolver p')) = (rounds (taskQueue (resolver p)) + (1 + length (record_events (xld, m)))%nat)%nat /\
    p' = set_resolver (set_taskQueue (taskQueue (resolver p) ++ [arrival xld m]) (resolver p))%list p.
Proof.
  intros [Hs Hk Ht Hst (handled & Ho & He) Hset Htr Hoff] Hm. set (q := taskQueue (resolver p)) in *.
  eexists. split; [|split; [|split; [|done]]].
  - unfold arrive, zoom. rewrite EnqueueTask_run by apply Hs. done.
  - split; [by apply steady_queue| | |done| |done|done|done]; cbn [resolver set_resolver]; cbn [taskQueue set_taskQueue relations].
    + rewrite queued_app, queued_arrival, <- app_assoc. exact Hk.
    + apply Forall_app. split; [done|]. constructor; [|constructor]. destruct m; cbn; try apply Hm; done.
    + exists handled. split; [|done]. rewrite pending_arrival, fmap_app, concat_app, Ho. cbn. by rewrite app_nil_r, app_assoc.
  - cbn [resolver set_resolver]. cbn [taskQueue set_taskQueue]. by rewrite rounds_app, rounds_arrival.
Qed.

(** The emitter on one event. *)
Lemma emit_progress c e p :
  Emitter.event_ok e -> streams_ok env (emitter p) ->
  exists w' f r, catch (emit_event c e) p = Ret r (set_emitter w' (record_call (c, e) p)) /\ streams_ok env w' /\
    settled env [(c, e)] (emitter p) w' [f] /\ rc w' = acknowledge_all (acknowledged (c, e) f) (rc (emitter p)).
Proof.
  intros He Hs. destruct (handle_caught env c e (emitter p) He Hs) as (r & w' & f & Hrun & Hw' & Hset & Hrc).
  exists w', f, r. split; [|done]. unfold catch, emit_event, zoom, modify, mbind, G_bind in *. cbn [emitter record_call].
  destruct (Emitter.handle env c e (emitter p)); [..|done]; by injection Hrun as <- <-.
Qed.

(** A relation that leaves the catalog as it is. *)
Lemma catalog_call m p :
  steady (resolver p) -> leaves_catalog m ->
  exists r, catch (zoom resolver set_resolver (zoom catalog set_catalog (CatalogEvents.OnRelationEvent m))) p = Ret r p.
Proof.
  intros Hw Hm. destruct (Hm (catalog (resolver p)) (sd_catalog _ Hw)) as [r Hr]. unfold catch, zoom in *.
  destruct (CatalogEvents.OnRelationEvent m (catalog (resolver p))) as [a st|err st|]; [..|done];
    (assert (st = catalog (resolver p)) as -> by congruence); destruct p as [[] ? ?]; by eexists.
Qed.

(** A relation message for the resolver. *)
Lemma base_progress c p0 p arrived future es x m q :
  progress p0 p arrived future es -> taskQueue (resolver p) = NotifyBase x m :: q ->
  let w' := Resolver.set_relations (<[ RelationID m := m ]> (relations (resolver p))) (set_taskQueue q (resolver p)) in
  on_task c (NotifyBase x m) (set_resolver (set_taskQueue q (resolver p)) p) = Ret tt (set_resolver w' p) /\
  progress p0 (set_resolver w' p) arrived future es.
Proof.
  intros [Hs Hk Ht Hst (handled & Ho & He) Hset Htr Hoff] Hq w'. rewrite Hq in Hk, Ht, Ho.
  apply Forall_cons in Ht as [(Hrel & Hplan & Hcat) Hts]. split.
  - cbn [on_task]. unfold on_relation.
    destruct (catalog_call m (set_resolver (set_taskQueue q (resolver p)) p) (steady_queue _ q Hs) Hcat) as [r Hr].
    rewrite (bind_run _ _ _ _ _ Hr).
    unfold zoom, Resolver.OnRelationEvent, modify, mbind, G_bind. cbn [resolver set_resolver]. by rewrite Hplan.
  - split; [by apply (steady_learn (set_taskQueue q (resolver p))); [apply steady_queue|]|apply Hk|done|done|by exists handled|done|done|done].
Qed.

(** A message for the resolver. *)
Lemma logical_progress c p0 p arrived future es x m q :
  progress p0 p arrived future es -> taskQueue (resolver p) = NotifyLogical x m :: q ->
  exists w', on_task c (NotifyLogical x m) (set_resolver (set_taskQueue q (resolver p)) p) = Ret tt (set_resolver w' p) /\
    progress p0 (set_resolver w' p) arrived future es /\
    taskQueue w' = (q ++ (NotifyRecord <$> record_events (x, m)))%list.
Proof.
  intros [Hs Hk Ht Hst (handled & Ho & He) Hset Htr Hoff] Hq. rewrite Hq in Hk, Ht, Ho.
  apply Forall_cons in Ht as [Ht Hts].
  assert (match m with MRelation _ => False | _ => True end /\ message_ok (x, m)) as [Hno [Hplain Hok]] by by destruct m.
  change (queued (NotifyLogical x m :: q)) with (m :: queued q) in Hk. destruct Hk as [Hn Hk].
  assert (learn m (relations (resolver p)) = relations (resolver p)) as Hl by by destruct m. rewrite Hl in Hk.
  destruct (message_enqueues (relations (resolver p)) x m Hno Hplain Hn (set_taskQueue q (resolver p)) (steady_queue _ _ Hs) eq_refl)
    as (w' & Hrun & Hw' & HR & Hran & Hq').
  cbn [taskQueue set_taskQueue] in Hq'. exists w'. split; [|split; [|done]].
  - cbn [on_task]. unfold logical, zoom, mbind, G_bind, catch, get. cbn [resolver set_resolver].
    rewrite Hrun. cbn [resolver set_resolver]. rewrite Hran. cbn [ran set_taskQueue]. by rewrite drop_all.
  - split; [done| | |done| |done|done|done]; cbn [resolver set_resolver]; rewrite Hq'.
    + rewrite queued_app, queued_tasks, app_nil_r, HR. exact Hk.
    + apply Forall_app. split; [done|]. by apply Forall_fmap.
    + exists handled. by rewrite pending_message.
Qed.

(** An event for the emitter. *)
Lemma record_progress c p0 p arrived future es e q :
  progress p0 p arrived future es -> taskQueue (resolver p) = NotifyRecord e :: q ->
  exists r p', catch (on_task c (NotifyRecord e)) (set_resolver (set_taskQueue q (resolver p)) p) = Ret r p' /\
    progress p0 p' arrived future (es ++ [(c, event_of e)])%list /\ taskQueue (resolver p') = q /\
    lastProcessedLSN (rc (emitter p)) <= lastProcessedLSN (rc (emitter p')).
Proof.
  intros [Hs Hk Ht Hst (handled & Ho & He) [fates Hset] Htr Hoff] Hq. rewrite Hq in Hk, Ht, Ho.
  apply Forall_cons in Ht as [Ht Hts]. set (p1 := set_resolver (set_taskQueue q (resolver p)) p).
  destruct (emit_progress c (event_of e) p1 Ht Hst) as (w' & f & r & Hrun & Hw' & Hset2 & Hrc).
  eexists r, _. split; [exact Hrun|]. cbn [emitter set_emitter].
  split; [|split; [done|rewrite Hrc, acknowledge_all_max; apply foldr_max_ge]].
  split; [by apply steady_queue|exact Hk|done|done| | | |].
  - exists (handled ++ [e])%list. rewrite !fmap_app, He. split; [|done]. by rewrite <- app_assoc.
  - exists (fates ++ [f])%list. by eapply settled_app.
  - cbn. by rewrite Htr, <- app_assoc.
  - cbn [emitter set_emitter]. rewrite Hrc. by apply acknowledge_all_behind.
Qed.

Lemma work_progress c p0 p arrived future es :
  progress p0 p arrived future es ->
  exists p' es', work c p = Ret tt p' /\ progress p0 p' arrived future es' /\
    (rounds (taskQueue (resolver p')) <= rounds (taskQueue (resolver p)) - 1)%nat /\
    lastProcessedLSN (rc (emitter p)) <= lastProcessedLSN (rc (emitter p')).
Proof.
  intros Hp. unfold work. rewrite (bind_run get _ _ _ _ eq_refl).
  destruct (taskQueue (resolver p)) as [|t q] eqn:Hq.
  { exists p, es. split; [done|]. split; [done|]. rewrite Hq. split; [cbn; lia|done]. }
  set (p1 := set_resolver (set_taskQueue q (resolver p)) p). rewrite (bind_run (put p1) _ _ tt p1 eq_refl).
  pose proof (pg_tasks _ _ _ _ _ Hp) as Ht. rewrite Hq in Ht. apply Forall_cons in Ht as [Ht _].
  destruct t as [x m|x m|e|e|e]; [| | |done|done].
  - destruct (base_progress c p0 p arrived future es x m q Hp Hq) as [Hr Hp'].
    eexists _, es. split; [|split; [exact Hp'|split; [cbn; lia|done]]]. unfold mbind, G_bind, catch. fold p1 in Hr. by rewrite Hr.
  - destruct (logical_progress c p0 p arrived future es x m q Hp Hq) as (w' & Hr & Hp' & Hq').
    eexists _, es. split; [|split; [exact Hp'|]].
    + unfold mbind, G_bind, catch. fold p1 in Hr. by rewrite Hr.
    + split; [|done]. cbn [resolver set_resolver]. rewrite Hq', rounds_app, rounds_tasks.
      change (rounds (NotifyLogical x m :: q)) with ((1 + length (record_events (x, m)))%nat + rounds q)%nat. lia.
  - destruct (record_progress c p0 p arrived future es e q Hp Hq) as (r & p' & Hr & Hp' & Hq' & Hle).
    exists p'. eexists. split; [|split; [exact Hp'|split; [|exact Hle]]].
    2: { rewrite Hq'. change (rounds (NotifyRecord e :: q)) with (1 + rounds q)%nat. lia. }
    fold p1 in Hr. by rewrite (bind_run _ _ _ _ _ Hr).
Qed.

Lemma run_progress p0 acts p arrived future es :
  progress p0 p arrived ((snd <$> arrivals acts) ++ future) es -> Forall message_ok (arrivals acts) ->
  exists p' es', run acts p = Ret tt p' /\ progress p0 p' (arrived ++ arrivals acts) future es' /\
    (rounds (taskQueue (resolver p')) <=
       rounds (taskQueue (resolver p)) + (length (arrivals acts) + length (stream_events (arrivals acts))))%nat.
Proof.
  unfold run. revert p arrived es. induction acts as [|[xld m|c] acts IH]; intros p arrived es Hp Hok; cbn [forM perform].
  - exists p, es. cbn. rewrite app_nil_r. split; [done|]. split; [done|lia].
  - change (arrivals (Arrives xld m :: acts)) with ((xld, m) :: arrivals acts) in *.
    apply Forall_cons in Hok as [Hm Hok].
    destruct (arrive_progress p0 p arrived _ es xld m Hp Hm) as (p1 & Hr1 & Hp1 & Hn1 & _).
    destruct (IH p1 _ _ Hp1 Hok) as (p2 & es2 & Hr2 & Hp2 & Hn2).
    exists p2, es2. rewrite (bind_run _ _ _ _ _ Hr1). split; [done|]. rewrite <- app_assoc in Hp2. split; [exact Hp2|].
    unfold stream_events in *. cbn [fmap list_fmap concat length]. rewrite fmap_app, length_app, length_fmap.
    cbn [fmap list_fmap] in Hn2. lia.
  - destruct (work_progress c p0 p arrived _ es Hp) as (p1 & es1 & Hr1 & Hp1 & Hn1 & _).
    destruct (IH p1 _ _ Hp1 Hok) as (p2 & es2 & Hr2 & Hp2 & Hn2).
    exists p2, es2. rewrite (bind_run _ _ _ _ _ Hr1). split; [done|]. split; [done|].
    change (arrivals (Works c :: acts)) with (arrivals acts). lia.
Qed.

Lemma rounds_empty q : (rounds q <= 0)%nat -> q = [].
Proof. destruct q as [|[] q]; [done|..]; unfold rounds; cbn; lia. Qed.

Lemma drain_progress p0 cs p arrived future es :
  progress p0 p arrived future es -> (rounds (taskQueue (resolver p)) <= length cs)%nat ->
  exists p' es', run (Works <$> cs) p = Ret tt p' /\ progress p0 p' arrived future es' /\ taskQueue (resolver p') = [].
Proof.
  unfold run. revert p es. induction cs as [|c cs IH]; intros p es Hp Hn; cbn [fmap list_fmap forM perform].
  - exists p, es. split; [done|]. split; [done|]. by apply rounds_empty.
  - destruct (work_progress c p0 p arrived _ es Hp) as (p1 & es1 & Hr1 & Hp1 & Hn1 & _). cbn in Hn.
    destruct (IH p1 es1 Hp1) as (p2 & es2 & Hr2 & Hp2 & Hq); [lia|].
    exists p2, es2. by rewrite (bind_run _ _ _ _ _ Hr1).
Qed.

End Stream.
End Pipeline.

(** ** Example *)

#[local] Existing Instance CatalogEvents.quiet_database.

(** The resolver knows the catalog and no relation yet. *)
Definition sample_resolver : Resolver.world := Resolver.set_relations ∅ Resolver.sample_world.
Definition sample_pipeline : pipeline (S := DummyStorage.dummyStateStorage) := mkPipeline sample_resolver idle [].
Definition sample_relations : gmap Z RelationMessage := relations Resolver.sample_world.

Definition chunk_relation : RelationMessage := mkRelationMessage 5 "_timescaledb_internal" "_hyper_1_10_chunk" [].

(** The relation of a chunk, two inserts into it, a truncate and a commit; the dispatcher
    works in between. *)
Definition sample_actions : list action :=
  [Arrives (Resolver.entry 0) (MRelation chunk_relation);
   Arrives (Resolver.entry 10) (MInsert 5 ∅); Works calm; Works calm; Arrives (Resolver.entry 20) (MInsert 5 ∅);
   Works calm; Arrives (Resolver.entry 25) (MTruncate 2 [5; 5]); Arrives (Resolver.entry 30) (MCommit (mkCommit 30 31 0))].

Definition plans_all (m : RelationMessage) : option string := None.

Lemma sample_steady : steady sample_relations (sysCatalog sample_resolver) sample_resolver.
Proof.
  split; [apply map_empty_subseteq|done|done|done|done| |apply sample_catalog_inv].
  intros oid id rel Hid. cbn in Hid. by rewrite lookup_empty in Hid.
Qed.

(** An event on the hypertable of the chunk, by computation. *)
Ltac sample_table :=
  vm_compute; constructor; [|constructor]; intros t [= <-];
  (split; [split; cbn; repeat (apply not_elem_of_cons; split; [done|]); apply not_elem_of_nil|by eexists]).

(** A chunk is no hypertable: its relation message does not concern the catalog. *)
Lemma sample_leaves_catalog : leaves_catalog (sysCatalog sample_resolver) chunk_relation.
Proof.
  intros s Hs. eexists. unfold catch, CatalogEvents.OnRelationEvent. cbn [Namespace RelationName chunk_relation].
  change (String.eqb "_timescaledb_internal" "_timescaledb_catalog") with false. cbv iota.
  rewrite (bind_run get _ _ _ _ eq_refl), Hs.
  replace (Catalog.FindHypertableByName "_timescaledb_internal" "_hyper_1_10_chunk" (sysCatalog sample_resolver))
    with (@None Hypertable) by (vm_compute; reflexivity).
  reflexivity.
Qed.

Lemma sample_messages_ok :
  Forall (message_ok Resolver.all_events plans_all sample_relations (sysCatalog sample_resolver)) (arrivals sample_actions).
Proof.
  assert (Hrow : forall lsn, message_ok Resolver.all_events plans_all sample_relations (sysCatalog sample_resolver)
                   (Resolver.entry lsn, MInsert 5 ∅)).
  { intros lsn. split; [eexists; split_and!; vm_compute; reflexivity|]. sample_table. }
  constructor; [|constructor; [apply Hrow|constructor; [apply Hrow|constructor; [|constructor; [|constructor]]]]].
  - split; [split; [done|split; [done|exact sample_leaves_catalog]]|constructor].
  - split; [|sample_table]. split; [done|]. repeat constructor; eexists; split; vm_compute; reflexivity.
  - split; [done|]. constructor; [|constructor]. intros t Ht. discriminate Ht.
Qed.

Lemma sample_announced : announced (relations sample_resolver) (snd <$> arrivals sample_actions).
Proof. cbn. repeat split; repeat constructor; by eexists. Qed.

