(* ===== verification/WindowedPipeline.v ===== *)
(** * WindowedPipeline: the pipeline with the transaction window

    When a transaction window is configured, the transaction tracker
    (TransactionTracker.v) stands between the task manager and the resolver: it holds
    the changes of a transaction back until its commit, or until its deadline has
    passed.  Here it runs on the queue of the task manager, like the resolver alone in
    Pipeline.v, whose notions of a message's events are those here. *)

From Stdlib Require Import ZArith Lia.
From stdpp Require Import base tactics option list numbers strings gmap.
From S2P Require Import Prelude Containers Encoding Entities Values Messages SystemCatalog StateStorage ReplicationContext.
From S2P Require Import Resolver Emitter Pipeline TransactionTracker.

Local Open Scope Z_scope.

Section Windowed.
Context {S : Type} `{StorageLaws S}.
Context (cfg : Resolver.config) (GetOrPlanTupleDecoder : RelationMessage -> option string).
Context `{Database} (enabled : Hypertable -> bool) (env : Emitter.environment).

(** [calls_made] is the history of the calls of the emitter's methods. *)
Record windowed : Type := mkWindowed {
  tracked : tracker;
  sending : Emitter.world (S := S);
  calls_made : list (moment * Emitter.event);
}.

Definition set_tracked (t : tracker) (p : windowed) : windowed := mkWindowed t (sending p) (calls_made p).
Definition set_sending (e : Emitter.world) (p : windowed) : windowed := mkWindowed (tracked p) e (calls_made p).
Definition note_call (ce : moment * Emitter.event) (p : windowed) : windowed :=
  mkWindowed (tracked p) (sending p) (calls_made p ++ [ce]).

Abbreviation resolving p := (TransactionTracker.resolver (tracked p)).

Definition with_resolver (w : Resolver.world) (tr : tracker) : tracker :=
  mkTracker (tt_relations tr) (activeTransaction tr) w.

Definition send_event (c : moment) (e : Emitter.event) : G windowed unit :=
  modify (note_call (c, e)) ;;
  zoom sending set_sending (Emitter.handle env c e).

Definition send_ran (c : moment) (t : task) : G windowed unit :=
  match t with
  | NotifyCompression e => catch (send_event c (compression_of e)) ;; mret tt
  | _ => mret tt
  end.

(** The tracker on a message; what the resolver runs at once reaches the emitter. *)
Definition track_message (late : bool) (c : moment) (xld : XLogData) (m : Message) : G windowed unit :=
  p ← get;
  r ← catch (zoom tracked set_tracked (track cfg GetOrPlanTupleDecoder enabled late xld m));
  p' ← get;
  forM (drop (length (ran (resolving p))) (ran (resolving p'))) (send_ran c) ;;
  match r with inl e => fail e | inr _ => mret tt end.

Definition on_windowed_task (late : bool) (c : moment) (t : task) : G windowed unit :=
  match t with
  | NotifyBase xld m =>
      catch (zoom tracked set_tracked (on_resolver (zoom catalog set_catalog (CatalogEvents.OnRelationEvent m)))) ;;
      track_message late c xld (MRelation m)
  | NotifyLogical xld m => track_message late c xld m
  | NotifyRecord e => send_event c (event_of e)
  | NotifyCatalog e =>
      zoom tracked set_tracked (on_resolver (zoom catalog set_catalog (CatalogEvents.handle enabled e)))
  | NotifyCompression e => send_event c (compression_of e)
  end.

(** A round of the dispatcher; [late]: the deadline of the transaction has passed. *)
Definition windowed_work (late : bool) (c : moment) : G windowed unit :=
  p ← get;
  match taskQueue (resolving p) with
  | [] => mret tt
  | t :: q =>
      put (set_tracked (with_resolver (set_taskQueue q (resolving p)) (tracked p)) p) ;;
      catch (on_windowed_task late c t) ;; mret tt
  end.

Definition windowed_arrive (xld : XLogData) (m : Message) : G windowed unit :=
  zoom tracked set_tracked (on_resolver (Resolver.EnqueueTask (arrival xld m))).

Inductive windowed_action : Type := WArrives (xld : XLogData) (m : Message) | WWorks (late : bool) (c : moment).

Definition windowed_perform (a : windowed_action) : G windowed unit :=
  match a with WArrives xld m => windowed_arrive xld m | WWorks late c => windowed_work late c end.

Definition windowed_run (acts : list windowed_action) : G windowed unit := forM acts windowed_perform.

Definition windowed_arrivals (acts : list windowed_action) : list (XLogData * Message) :=
  omap (fun a => match a with WArrives xld m => Some (xld, m) | WWorks _ _ => None end) acts.

(** ** Transactions that fit *)

Section Stream.
Context (rels : gmap Z RelationMessage) (sc : Catalog.systemCatalog).
Context (Hmarkers : decompressionMarkingEnabled cfg = false) (Hall : all_enabled cfg).
Context (cap : nat) (Hcap : Z.of_nat cap < 2 ^ 64).

(** The changes of the running transaction so far, if one runs. *)
Definition after_message (m : Message) (st : option nat) : option nat :=
  match m with
  | MBegin _ => Some 0%nat
  | MCommit _ => None
  | MRelation _ | MType | MOrigin => st
  | _ => match st with Some n => Some (1 + n)%nat | None => None end
  end.

Definition fits_message (m : Message) (st : option nat) : Prop :=
  match m with
  | MBegin _ => st = None
  | MCommit _ | MRelation _ | MType | MOrigin => True
  | MLogical lm => IsTransactional lm = true /\ match st with Some n => (n < cap)%nat | None => True end
  | _ => match st with Some n => (n < cap)%nat | None => True end
  end.

(** Transactions do not nest and have at most [cap] changes, and messages belong to
    their transaction. *)
Fixpoint transactions (st : option nat) (l : list Message) : Prop :=
  match l with
  | [] => True
  | m :: l => fits_message m st /\ transactions (after_message m st) l
  end.

(** The tracker holds [l] back; [st] changes of the transaction have come so far. *)
Record holds (tr : tracker) (st : option nat) (l : list (XLogData * Message)) : Prop := {
  h_queue : queue (activeTransaction tr) = window l cap;
  h_max : maxSize (activeTransaction tr) = 0;
  h_state : match st with
    | None => active (activeTransaction tr) = false /\ l = []
    | Some n => active (activeTransaction tr) = true /\ (length l <= n)%nat
    end;
  h_none : active (activeTransaction tr) = true ->
    compressionUpdate (activeTransaction tr) = None /\ decompressionUpdate (activeTransaction tr) = None /\
    ongoingDecompression (activeTransaction tr) = false /\ overflowed (activeTransaction tr) = false /\
    (timedOut (activeTransaction tr) = false -> queueLength (activeTransaction tr) = Z.of_nat (length l)) /\
    (timedOut (activeTransaction tr) = true -> l = []);
}.

Lemma holds_resolver tr st l w : holds tr st l -> holds (with_resolver w tr) st l.
Proof. by intros []. Qed.

Abbreviation resolve_all l := (forM l (resolve_entry cfg GetOrPlanTupleDecoder enabled)).
Abbreviation all_events l := (concat (record_events cfg rels sc <$> l)).

Lemma all_events_app l l' : all_events (l ++ l') = (all_events l ++ all_events l')%list.
Proof. by rewrite fmap_app, concat_app. Qed.

(** What the tracker does with a message: the resolver resolves what is released,
    [l'] is held back, and no event changes its place. *)
Definition releases (late : bool) xld m tr st l : Prop :=
  exists released l', all_events (l ++ [(xld, m)]) = (all_events released ++ all_events l')%list /\
    released ⊆ (l ++ [(xld, m)])%list /\ l' ⊆ (l ++ [(xld, m)])%list /\
    forall w', resolve_all released (TransactionTracker.resolver tr) = Ret tt w' ->
      exists tr', track cfg GetOrPlanTupleDecoder enabled late xld m tr = Ret tt tr' /\
        TransactionTracker.resolver tr' = w' /\ tt_relations tr' = learn m (tt_relations tr) /\
        holds tr' (after_message m st) l'.

(** A change in a transaction. *)
Lemma change_releases late xld m tr n l :
  holds tr (Some n) l -> TransactionTracker.plain (tt_relations tr) m -> (n < cap)%nat ->
  after_message m (Some n) = Some (1 + n)%nat -> learn m (tt_relations tr) = tt_relations tr ->
  releases late xld m tr (Some n) l.
Proof.
  intros [Hq Hmax [Hact Hlen] Hnone] Hplain Hn Hafter Hlearn.
  destruct (Hnone Hact) as (Hc & Hd & Hong & Hover & Hql & Hlate).
  unfold releases. rewrite Hafter, Hlearn, track_plain by done. unfold collect_or_resolve.
  destruct (timedOut (activeTransaction tr)) eqn:Htimed.
  - specialize (Hlate eq_refl) as ->. exists [(xld, m)], []. split; [by rewrite app_nil_r|]. split; [done|]. split; [apply list_subseteq_nil|]. intros w' Hrun.
    assert (collect cfg GetOrPlanTupleDecoder enabled late (xld, m) tr = Ret false tr) as Hcol.
    { unfold collect, pushTransactionEntry. go_unfold. by rewrite Hact, Htimed. }
    cbn [forM] in Hrun. apply bind_ret_inv in Hrun as ([] & w1 & Hw1 & [= <-]).
    exists (with_resolver w1 tr). rewrite (bind_run _ _ _ _ _ Hcol). unfold on_resolver, zoom.
    unfold resolve_entry in Hw1. rewrite Hw1. split; [done|]. split; [done|]. split; [done|].
    split; [done|done|split; [done|cbn; lia]|]. intros _. cbn. rewrite Htimed. by split_and!.
  - set (tr1 := set_txn (set_limits false late (set_queueLength (Z.of_nat (length l) + 1)
      (set_queue (window (l ++ [(xld, m)])%list cap) (activeTransaction tr)))) tr).
    assert (collect cfg GetOrPlanTupleDecoder enabled late (xld, m) tr =
      (if late then drain cfg GetOrPlanTupleDecoder enabled ;; mret true else mret true) tr1) as Hcol.
    { unfold collect. rewrite (bind_run get _ _ _ _ eq_refl), Hact. apply push_window; auto; lia. }
    destruct late.
    + exists (l ++ [(xld, m)])%list, []. split; [by rewrite app_nil_r|]. split; [done|]. split; [apply list_subseteq_nil|]. intros w' Hrun.
      rewrite (bind_run (drain _ _ _) _ _ _ _ (drain_run _ _ _ (l ++ [(xld, m)])%list cap tr1 w' eq_refl Hrun)) in Hcol.
      rewrite (bind_run _ _ _ _ _ Hcol). eexists. split; [done|]. split; [done|]. split; [done|].
      split; [done|done|split; [done|cbn; lia]|]. intros _. by split_and!.
    + exists [], (l ++ [(xld, m)])%list. split; [done|]. split; [apply list_subseteq_nil|]. split; [done|]. intros w' [= <-]. rewrite (bind_run _ _ _ _ _ Hcol).
      exists tr1. split; [done|]. split; [done|]. split; [done|].
      split; [done|done|split; [done|rewrite length_app; cbn; lia]|]. intros _. split_and!; try done.
      intros _. cbn. rewrite length_app. cbn. lia.
Qed.

(** Outside of a transaction everything is resolved at once. *)
Lemma outside_releases late xld m tr :
  holds tr None [] -> TransactionTracker.plain (tt_relations tr) m -> learn m (tt_relations tr) = tt_relations tr ->
  after_message m None = None -> releases late xld m tr None [].
Proof.
  intros Hh Hplain Hlearn Hafter. pose proof Hh as [_ _ [Hact _] _]. exists [(xld, m)], []. split; [by rewrite app_nil_r|].
  split; [done|]. split; [apply list_subseteq_nil|]. intros w' Hrun.
  cbn [forM] in Hrun. apply bind_ret_inv in Hrun as ([] & w1 & Hw1 & [= <-]). unfold resolve_entry in Hw1. cbn [fst snd] in Hw1.
  exists (with_resolver w1 tr). rewrite Hlearn, Hafter. split; [|split; [done|split; [done|by apply holds_resolver]]].
  assert (on_resolver (onMessage cfg GetOrPlanTupleDecoder enabled xld m) tr = Ret tt (with_resolver w1 tr)) as Hres.
  { unfold on_resolver, zoom. by rewrite Hw1. }
  assert (collect_or_resolve cfg GetOrPlanTupleDecoder enabled late (xld, m) tr = Ret tt (with_resolver w1 tr)) as Hcol.
  { unfold collect_or_resolve, collect. go_unfold. rewrite Hact. exact Hres. }
  destruct Hall as (Hi & Hu & Hd & Ht & Hm). destruct m as [| | |r v|r o v|r o|n ids| | |lm]; try done; cbn [track].
  - unfold OnInsertEvent. rewrite (bind_run get _ _ _ _ eq_refl), Hi, Hact. exact Hres.
  - unfold OnUpdateEvent. rewrite Hmarkers, (bind_run get _ _ _ _ eq_refl).
    destruct (tt_relations tr !! r) as [rel|] eqn:Hrel; [|exact Hcol]. rewrite (Hplain rel Hrel), Hu. exact Hcol.
  - unfold OnDeleteEvent. rewrite Hmarkers, (bind_run get _ _ _ _ eq_refl), Hd. exact Hcol.
  - unfold OnTruncateEvent. rewrite Ht, Hmarkers. exact Hcol.
  - unfold OnMessageEvent. rewrite (bind_run get _ _ _ _ eq_refl). cbn in Hplain. rewrite Hplain, Hmarkers, Hm. exact Hcol.
Qed.

Lemma begin_releases late xld b tr : holds tr None [] -> releases late xld (MBegin b) tr None [].
Proof.
  intros [Hq Hmax _ _]. exists [], []. split; [done|]. split; [apply list_subseteq_nil|]. split; [apply list_subseteq_nil|].
  intros w' [= <-]. destruct (begin_collecting cfg GetOrPlanTupleDecoder enabled Hmarkers cap xld b [] tr Hq Hmax)
    as (tr' & Hrun & [Hact Hq' Hmax' [Hc Hd] Hong Hover Hlen Hlate _] & Hrel & Hres).
  exists tr'. split; [done|]. split; [done|]. split; [done|]. split; [done|done|split; [done|cbn; lia]|]. intros _. by split_and!.
Qed.

Lemma commit_releases late xld cm tr st l : holds tr st l -> releases late xld (MCommit cm) tr st l.
Proof.
  intros [Hq Hmax Hstate Hnone]. exists (l ++ [(xld, MCommit cm)])%list, []. split; [by rewrite app_nil_r|].
  split; [done|]. split; [apply list_subseteq_nil|]. intros w' Hrun. rewrite forM_app in Hrun.
  apply bind_ret_inv in Hrun as ([] & w1 & Hl & Hc). cbn [forM] in Hc. apply bind_ret_inv in Hc as ([] & w2 & Hc & [= <-]).
  unfold resolve_entry in Hc. cbn [fst snd] in Hc. cbn [track after_message learn]. unfold OnCommitEvent.
  rewrite (bind_run get _ _ _ _ eq_refl). destruct st as [n|].
  - destruct Hstate as [Hact Hlen]. destruct (Hnone Hact) as (Hcu & Hdu & _). rewrite Hact, Hcu, Hdu, Hmarkers. cbn [negb].
    rewrite (bind_run (on_txn _) _ _ _ _ eq_refl). set (tr1 := set_txn (set_active false (activeTransaction tr)) tr).
    rewrite (bind_run (drain _ _ _) _ _ _ _ (drain_run _ _ _ l cap tr1 w1 Hq Hl)).
    unfold on_resolver, zoom. cbn [TransactionTracker.resolver drained]. rewrite Hc.
    eexists. split; [done|]. split; [done|]. split; [done|]. by split.
  - destruct Hstate as [Hact ->]. rewrite Hact. cbn [negb]. injection Hl as <-. unfold on_resolver, zoom. rewrite Hc.
    exists (with_resolver w2 tr). split; [done|]. split; [done|]. split; [done|].
    split; [done|done|done|]. intros Hact'. cbn in Hact'. congruence.
Qed.

(** Messages that the tracker hands on at once, whatever it holds back. *)
Lemma forward_releases late xld m tr st l :
  holds tr st l -> m = MType \/ m = MOrigin \/ (exists rm, m = MRelation rm) -> releases late xld m tr st l.
Proof.
  intros Hh Hm. exists [(xld, m)], l.
  assert (record_events cfg rels sc (xld, m) = []) as Hnil by (by destruct Hm as [->|[->|[rm ->]]]).
  split; [|split; [|split]].
  - rewrite all_events_app. cbn [fmap list_fmap concat]. by rewrite Hnil, !app_nil_r.
  - intros x Hx. apply elem_of_app. by right.
  - intros x Hx. apply elem_of_app. by left.
  - intros w' Hrun. cbn [forM] in Hrun. apply bind_ret_inv in Hrun as ([] & w1 & Hw & [= <-]).
    unfold resolve_entry in Hw. cbn [fst snd] in Hw. destruct Hm as [->|[->|[rm ->]]].
    1-2: exists (with_resolver w1 tr); unfold track, on_resolver, zoom; rewrite Hw;
      split; [done|]; split; [done|]; split; [done|]; by apply holds_resolver.
    exists (mkTracker (<[ RelationID rm := rm ]> (tt_relations tr)) (activeTransaction tr) w1).
    unfold track, OnRelationEvent, on_resolver, zoom, modify, mbind, G_bind. cbn [TransactionTracker.resolver]. rewrite Hw.
    split; [done|]. split; [done|]. split; [done|]. by destruct Hh.
Qed.

Lemma track_releases late xld m tr st l :
  holds tr st l -> fits_message m st -> Pipeline.plain GetOrPlanTupleDecoder rels sc m -> tt_relations tr ⊆ rels ->
  releases late xld m tr st l.
Proof.
  intros Hh Hfit Hplain Hsub.
  assert (TransactionTracker.plain (tt_relations tr) m -> learn m (tt_relations tr) = tt_relations tr ->
    (forall st', after_message m st' = match st' with Some n => Some (1 + n)%nat | None => None end) ->
    match st with Some n => (n < cap)%nat | None => True end -> releases late xld m tr st l) as Hchange.
  { intros Hp Hl Ha Hn. destruct st as [n|].
    - apply change_releases; [done|done|done|apply (Ha (Some n))|done].
    - pose proof (h_state _ _ _ Hh) as [_ ->]. apply outside_releases; [done|done|done|apply (Ha None)]. }
  destruct m as [rm|b|cm|r v|r o v|r o|n ids| | |lm].
  - apply forward_releases; eauto.
  - cbn in Hfit. subst st. pose proof (h_state _ _ _ Hh) as [_ ->]. by apply begin_releases.
  - by apply commit_releases.
  - by apply Hchange.
  - apply Hchange; try done. intros rel Hrel. destruct Hplain as (rel' & Hrel' & _ & _ & Hc).
    pose proof (lookup_weaken _ _ _ _ Hrel Hsub). congruence.
  - by apply Hchange.
  - by apply Hchange.
  - apply forward_releases; eauto.
  - apply forward_releases; eauto.
  - destruct Hfit as [Htr Hn]. by apply Hchange.
Qed.

(** ** Progress *)

(** A message that can be held back: the resolver knows what it needs. *)
Definition holdable (R : gmap Z RelationMessage) (xm : XLogData * Message) : Prop :=
  match snd xm with MRelation _ => False | _ => True end /\
  message_ok cfg GetOrPlanTupleDecoder rels sc xm /\ Forall (fun r => is_Some (R !! r)) (needs (snd xm)).

Lemma resolve_released R l :
  Forall (holdable R) l -> enqueues rels sc R (resolve_all l) (all_events l).
Proof.
  induction 1 as [|[xld m] l (Hno & [Hplain _] & Hk) _ IH]; [apply enqueues_none|].
  cbn [forM]. apply (enqueues_app rels sc R _ _ (record_events cfg rels sc (xld, m))); [|exact IH]. by apply message_enqueues.
Qed.

Definition ends (st : option nat) (l : list Message) : option nat := fold_left (fun st m => after_message m st) l st.

Record wprogress (p0 p : windowed) (arrived : list (XLogData * Message)) (future : list Message)
    (es : list (moment * Emitter.event)) (st : option nat) (l : list (XLogData * Message)) : Prop := {
  wp_relations : tt_relations (tracked p) ⊆ rels;
  wp_steady : steady rels sc (resolving p);
  wp_known : announced (relations (resolving p)) (queued (taskQueue (resolving p)) ++ future);
  wp_window : holds (tracked p) st l;
  wp_held : Forall (holdable (relations (resolving p))) l;
  wp_fits : transactions st (queued (taskQueue (resolving p)) ++ future);
  wp_ends : ends st (queued (taskQueue (resolving p)) ++ future) = None;
  wp_tasks : Forall (expected_task cfg GetOrPlanTupleDecoder rels sc) (taskQueue (resolving p));
  wp_streams : streams_ok env (sending p);
  wp_order : exists handled, all_events arrived =
      (handled ++ records (taskQueue (resolving p)) ++ all_events l ++ all_events (logicals (taskQueue (resolving p))))%list /\
    snd <$> es = event_of <$> handled;
  wp_settled : exists fates, settled env es (sending p0) (sending p) fates;
  wp_calls : calls_made p = (calls_made p0 ++ es)%list;
}.

(** Rounds of the dispatcher that are enough. *)
Definition wrounds (p : windowed) (l : list (XLogData * Message)) : nat :=
  (rounds cfg rels sc (taskQueue (resolving p)) + length (all_events l))%nat.

Lemma warrive_progress p0 p arrived future es st l xld m :
  wprogress p0 p arrived (m :: future) es st l -> message_ok cfg GetOrPlanTupleDecoder rels sc (xld, m) ->
  exists p', windowed_arrive xld m p = Ret tt p' /\ wprogress p0 p' (arrived ++ [(xld, m)]) future es st l /\
    wrounds p' l = (wrounds p l + (1 + length (record_events cfg rels sc (xld, m))))%nat.
Proof.
  intros [Hrel Hs Hk Hw Hheld Hfit Hend Ht Hst (handled & Ho & He) Hset Hcalls] Hm. set (q := taskQueue (resolving p)) in *.
  set (w' := set_taskQueue (q ++ [arrival xld m]) (resolving p)%list).
  exists (set_tracked (with_resolver w' (tracked p)) p). split; [|split].
  - unfold windowed_arrive, on_resolver, zoom. rewrite EnqueueTask_run by apply Hs. done.
  - assert (queued (q ++ [arrival xld m]) ++ future = queued q ++ m :: future)%list as Hqq
      by (by rewrite queued_app, queued_arrival, <- app_assoc).
    split; cbn [tracked set_tracked with_resolver TransactionTracker.resolver sending tt_relations w' taskQueue set_taskQueue relations].
    + exact Hrel.
    + by apply steady_queue.
    + by rewrite Hqq.
    + by apply holds_resolver.
    + exact Hheld.
    + by rewrite Hqq.
    + by rewrite Hqq.
    + apply Forall_app. split; [done|]. constructor; [|constructor]. destruct m; cbn; try apply Hm; done.
    + done.
    + exists handled. split; [|done]. rewrite all_events_app, Ho, records_app, logicals_app, all_events_app, !app_assoc. cbn.
      destruct m; cbn; rewrite ?app_nil_r; done.
    + done.
    + done.
  - unfold wrounds. cbn [tracked set_tracked with_resolver TransactionTracker.resolver w' taskQueue set_taskQueue].
    rewrite rounds_app, rounds_arrival. fold q. lia.
Qed.

(** A message: what is released is enqueued for the emitter. *)
Lemma wlogical_progress late c p0 p arrived future es st l x m q :
  wprogress p0 p arrived future es st l -> taskQueue (resolving p) = NotifyLogical x m :: q ->
  exists tr' st' l', on_windowed_task late c (NotifyLogical x m)
      (set_tracked (with_resolver (set_taskQueue q (resolving p)) (tracked p)) p) = Ret tt (set_tracked tr' p) /\
    wprogress p0 (set_tracked tr' p) arrived future es st' l' /\
    (wrounds (set_tracked tr' p) l' < wrounds p l)%nat.
Proof.
  intros [Hrel Hs Hk Hw Hheld Hfit Hend Ht Hst (handled & Ho & He) Hset Hcalls] Hq. rewrite Hq in Hk, Hfit, Hend, Ht, Ho.
  apply Forall_cons in Ht as [Ht Hts]. change (queued (NotifyLogical x m :: q)) with (m :: queued q) in Hk, Hfit, Hend.
  assert (match m with MRelation _ => False | _ => True end /\ message_ok cfg GetOrPlanTupleDecoder rels sc (x, m))
    as [Hno Hok] by by destruct m.
  assert (forall R, learn m R = R) as Hlearn by (by destruct m). destruct Hk as [Hneed Hk]. destruct Hfit as [Hfit Hfits].
  rewrite Hlearn in Hk. set (w1 := set_taskQueue q (resolving p)). set (tr1 := with_resolver w1 (tracked p)).
  destruct (track_releases late x m tr1 st l) as (released & l' & Hev & Hsub1 & Hsub2 & Hrun);
    [by apply holds_resolver|done|apply Hok|done|].
  assert (Forall (holdable (relations (resolving p))) (l ++ [(x, m)])) as Hall'.
  { apply Forall_app. split; [done|]. constructor; [|constructor]. done. }
  rewrite Forall_forall in Hall'.
  destruct (resolve_released (relations (resolving p)) released) with (w := w1) as (w2 & Hr2 & Hs2 & HR2 & Hran & Hq2);
    [by apply Forall_forall; auto|by apply steady_queue|done|].
  destruct (Hrun w2 Hr2) as (tr' & Htr & Hw2 & Hrel' & Hh'). rewrite Hlearn in Hrel'.
  assert (taskQueue (TransactionTracker.resolver tr') = (q ++ (NotifyRecord <$> all_events released))%list) as Hq' by (by rewrite Hw2).
  exists tr', (after_message m st), l'. split; [|split].
  - cbn [on_windowed_task]. unfold track_message, zoom, mbind, G_bind, catch, get. cbn [tracked set_tracked].
    fold w1 tr1. rewrite Htr. cbn [tracked set_tracked]. rewrite Hw2, Hran. change (TransactionTracker.resolver tr1) with w1.
    by rewrite drop_ge by done.
  - split; cbn [tracked set_tracked sending]; rewrite ?Hq', ?Hw2, ?HR2; try done.
    + by rewrite Hrel'.
    + by rewrite queued_app, queued_tasks, app_nil_r.
    + apply Forall_forall. auto.
    + by rewrite queued_app, queued_tasks, app_nil_r.
    + by rewrite queued_app, queued_tasks, app_nil_r.
    + apply Forall_app. split; [done|]. apply Forall_fmap, Forall_forall. intros e Hin. cbn.
      apply list_elem_of_In, in_concat in Hin as (rs & Hrs%list_elem_of_In & Hin%list_elem_of_In).
      apply list_elem_of_fmap in Hrs as (xm & -> & Hxm). destruct (Hall' xm (Hsub1 xm Hxm)) as (_ & [_ Hok'] & _).
      by eapply Forall_forall in Hok'.
    + exists handled. split; [|done]. rewrite Ho, records_app, records_tasks, logicals_app, logicals_tasks, app_nil_r.
      change (records (NotifyLogical x m :: q)) with (records q).
      change (logicals (NotifyLogical x m :: q)) with ((x, m) :: logicals q). f_equal. rewrite <- !app_assoc. f_equal.
      rewrite app_assoc, <- Hev, all_events_app. cbn [fmap list_fmap concat]. by rewrite app_nil_r, <- app_assoc.
  - unfold wrounds. cbn [tracked set_tracked]. rewrite Hq', Hq, rounds_app, rounds_tasks.
    apply (f_equal length) in Hev. rewrite all_events_app, !length_app in Hev. cbn [fmap list_fmap concat] in Hev.
    rewrite app_nil_r in Hev.
    change (rounds cfg rels sc (NotifyLogical x m :: q)) with (1 + length (record_events cfg rels sc (x, m)) + rounds cfg rels sc q)%nat.
    lia.
Qed.

Lemma windowed_catalog_call m p :
  steady rels sc (resolving p) -> leaves_catalog sc m ->
  exists r, catch (zoom tracked set_tracked (on_resolver (zoom catalog set_catalog (CatalogEvents.OnRelationEvent m)))) p = Ret r p.
Proof.
  intros Hw Hm. destruct (Hm (catalog (resolving p)) (sd_catalog _ _ _ Hw)) as [r Hr]. unfold catch, on_resolver, zoom in *.
  destruct (CatalogEvents.OnRelationEvent m (catalog (resolving p))) as [a st|err st|]; [..|done];
    (assert (st = catalog (resolving p)) as -> by congruence); destruct p as [[? ? []] ? ?]; by eexists.
Qed.

(** A relation: the tracker and the resolver learn it. *)
Lemma wbase_progress late c p0 p arrived future es st l x m q :
  wprogress p0 p arrived future es st l -> taskQueue (resolving p) = NotifyBase x m :: q ->
  exists tr', on_windowed_task late c (NotifyBase x m)
      (set_tracked (with_resolver (set_taskQueue q (resolving p)) (tracked p)) p) = Ret tt (set_tracked tr' p) /\
    wprogress p0 (set_tracked tr' p) arrived future es st l /\
    (wrounds (set_tracked tr' p) l < wrounds p l)%nat.
Proof.
  intros [Hrel Hs Hk Hw Hheld Hfit Hend Ht Hst (handled & Ho & He) Hset Hcalls] Hq. rewrite Hq in Hk, Hfit, Hend, Ht, Ho.
  apply Forall_cons in Ht as [(Hm & Hplan & Hcat) Hts].
  change (queued (NotifyBase x m :: q)) with (MRelation m :: queued q) in Hk, Hfit, Hend.
  set (w1 := set_taskQueue q (resolving p)). set (tr1 := with_resolver w1 (tracked p)).
  set (w2 := Resolver.set_relations (<[ RelationID m := m ]> (relations w1)) w1).
  exists (mkTracker (<[ RelationID m := m ]> (tt_relations (tracked p))) (activeTransaction (tracked p)) w2). split; [|split].
  - cbn [on_windowed_task].
    destruct (windowed_catalog_call m (set_tracked tr1 p)) as [r Hr]; [by apply (steady_queue rels sc)|done|].
    rewrite (bind_run _ _ _ _ _ Hr). clear Hr r.
    unfold track_message, zoom, mbind, G_bind, catch, get. cbn [tracked set_tracked].
    unfold track, TransactionTracker.OnRelationEvent, on_resolver, zoom, modify, mbind, G_bind.
    cbn [Resolver.onMessage]. unfold Resolver.OnRelationEvent, modify, mbind, G_bind.
    cbn [with_resolver TransactionTracker.resolver tt_relations activeTransaction]. rewrite Hplan. cbn. by rewrite drop_ge by done.
  - split; cbn [tracked set_tracked sending TransactionTracker.resolver tt_relations]; try done.
    + by apply insert_subseteq_l.
    + by apply (steady_learn rels sc w1); [apply steady_queue|].
    + apply Hk.
    + by destruct Hw.
    + eapply Forall_impl; [exact Hheld|]. intros xm (Hno & Hok & Hn). split; [done|]. split; [done|].
      eapply Forall_impl; [exact Hn|]. intros r Hr. cbn. apply lookup_insert_is_Some'. by right.
    + apply Hfit.
    + by exists handled.
  - unfold wrounds. cbn [tracked set_tracked TransactionTracker.resolver]. change (taskQueue w2) with q. rewrite Hq.
    change (rounds cfg rels sc (NotifyBase x m :: q)) with (1 + rounds cfg rels sc q)%nat. lia.
Qed.

(** An event for the emitter. *)
Lemma wrecord_progress late c p0 p arrived future es st l e q :
  wprogress p0 p arrived future es st l -> taskQueue (resolving p) = NotifyRecord e :: q ->
  exists r p', catch (on_windowed_task late c (NotifyRecord e))
      (set_tracked (with_resolver (set_taskQueue q (resolving p)) (tracked p)) p) = Ret r p' /\
    wprogress p0 p' arrived future (es ++ [(c, event_of e)])%list st l /\ (wrounds p' l < wrounds p l)%nat.
Proof.
  intros [Hrel Hs Hk Hw Hheld Hfit Hend Ht Hst (handled & Ho & He) [fates Hset] Htr] Hq. rewrite Hq in Hk, Hfit, Hend, Ht, Ho.
  apply Forall_cons in Ht as [Ht Hts]. set (p1 := set_tracked _ p).
  destruct (handle_caught env c (event_of e) (sending p) Ht Hst) as (r & w' & f & Hrun & Hw' & Hset2 & _).
  exists r, (set_sending w' (note_call (c, event_of e) p1)). split; [|split].
  - cbn [on_windowed_task]. unfold send_event, catch, zoom, modify, mbind, G_bind in Hrun |- *. cbn [sending p1 set_tracked note_call].
    destruct (Emitter.handle env c (event_of e) (sending p)); [..|done]; by injection Hrun as <- <-.
  - split; cbn [tracked set_tracked set_sending note_call p1 with_resolver TransactionTracker.resolver sending tt_relations taskQueue set_taskQueue relations];
      try done.
    + by apply steady_queue.
    + by apply holds_resolver.
    + exists (handled ++ [e])%list. rewrite !fmap_app, He. split; [|done]. rewrite <- app_assoc. exact Ho.
    + exists (fates ++ [f])%list. by eapply settled_app.
    + cbn. by rewrite Htr, <- app_assoc.
  - unfold wrounds. cbn [tracked set_sending note_call p1 set_tracked with_resolver TransactionTracker.resolver taskQueue set_taskQueue].
    rewrite Hq. change (rounds cfg rels sc (NotifyRecord e :: q)) with (1 + rounds cfg rels sc q)%nat. lia.
Qed.

Lemma wwork_progress late c p0 p arrived future es st l :
  wprogress p0 p arrived future es st l ->
  exists p' es' st' l', windowed_work late c p = Ret tt p' /\ wprogress p0 p' arrived future es' st' l' /\
    (wrounds p' l' <= wrounds p l)%nat /\ (taskQueue (resolving p) <> [] -> (wrounds p' l' < wrounds p l)%nat).
Proof.
  intros Hp. unfold windowed_work. rewrite (bind_run get _ _ _ _ eq_refl).
  destruct (taskQueue (resolving p)) as [|t q] eqn:Hq; [by exists p, es, st, l|].
  set (p1 := set_tracked _ p). rewrite (bind_run (put p1) _ _ tt p1 eq_refl).
  pose proof (wp_tasks _ _ _ _ _ _ _ Hp) as Ht. rewrite Hq in Ht. apply Forall_cons in Ht as [Ht _].
  destruct t as [x m|x m|e|e|e]; [| | |done|done].
  - destruct (wbase_progress late c _ _ _ _ _ _ _ _ _ _ Hp Hq) as (tr' & Hr & Hp' & Hn).
    eexists _, es, st, l. split; [|split; [exact Hp'|split; [lia|done]]]. unfold mbind, G_bind, catch. fold p1 in Hr. by rewrite Hr.
  - destruct (wlogical_progress late c _ _ _ _ _ _ _ _ _ _ Hp Hq) as (tr' & st' & l' & Hr & Hp' & Hn).
    eexists _, es, st', l'. split; [|split; [exact Hp'|split; [lia|done]]]. unfold mbind, G_bind, catch. fold p1 in Hr. by rewrite Hr.
  - destruct (wrecord_progress late c _ _ _ _ _ _ _ _ _ Hp Hq) as (r & p' & Hr & Hp' & Hn).
    exists p'. eexists _, st, l. split; [|split; [exact Hp'|split; [lia|done]]]. fold p1 in Hr. by rewrite (bind_run _ _ _ _ _ Hr).
Qed.

Lemma wrun_progress p0 acts p arrived future es st l :
  wprogress p0 p arrived ((snd <$> windowed_arrivals acts) ++ future) es st l ->
  Forall (message_ok cfg GetOrPlanTupleDecoder rels sc) (windowed_arrivals acts) ->
  exists p' es' st' l', windowed_run acts p = Ret tt p' /\
    wprogress p0 p' (arrived ++ windowed_arrivals acts) future es' st' l' /\
    (wrounds p' l' <= wrounds p l + (length (windowed_arrivals acts) + length (all_events (windowed_arrivals acts))))%nat.
Proof.
  unfold windowed_run. revert p arrived es st l.
  induction acts as [|[xld m|late c] acts IH]; intros p arrived es st l Hp Hok; cbn [forM windowed_perform].
  - exists p, es, st, l. cbn. rewrite app_nil_r. split; [done|]. split; [done|lia].
  - change (windowed_arrivals (WArrives xld m :: acts)) with ((xld, m) :: windowed_arrivals acts) in *.
    apply Forall_cons in Hok as [Hm Hok].
    destruct (warrive_progress p0 p arrived _ es st l xld m Hp Hm) as (p1 & Hr1 & Hp1 & Hn1).
    destruct (IH p1 _ _ _ _ Hp1 Hok) as (p2 & es2 & st2 & l2 & Hr2 & Hp2 & Hn2).
    exists p2, es2, st2, l2. rewrite (bind_run _ _ _ _ _ Hr1). split; [done|]. rewrite <- app_assoc in Hp2. split; [exact Hp2|].
    cbn [fmap list_fmap concat length]. rewrite length_app. cbn [fmap list_fmap] in Hn2. lia.
  - destruct (wwork_progress late c p0 p arrived _ es st l Hp) as (p1 & es1 & st1 & l1 & Hr1 & Hp1 & Hn1 & _).
    destruct (IH p1 _ _ _ _ Hp1 Hok) as (p2 & es2 & st2 & l2 & Hr2 & Hp2 & Hn2).
    exists p2, es2, st2, l2. rewrite (bind_run _ _ _ _ _ Hr1). split; [done|]. split; [done|].
    change (windowed_arrivals (WWorks late c :: acts)) with (windowed_arrivals acts). lia.
Qed.

Lemma wdrain_progress p0 cs p arrived es st l :
  wprogress p0 p arrived [] es st l -> (wrounds p l <= length cs)%nat ->
  exists p' es' st' l', windowed_run ((fun x => WWorks (fst x) (snd x)) <$> cs) p = Ret tt p' /\
    wprogress p0 p' arrived [] es' st' l' /\ taskQueue (resolving p') = [].
Proof.
  unfold windowed_run. revert p es st l. induction cs as [|[late c] cs IH]; intros p es st l Hp Hn;
    cbn [fmap list_fmap forM windowed_perform fst snd].
  - exists p, es, st, l. split; [done|]. split; [done|]. apply (rounds_empty cfg rels sc). unfold wrounds in Hn. cbn [length] in Hn. lia.
  - destruct (wwork_progress late c p0 p arrived _ es st l Hp) as (p1 & es1 & st1 & l1 & Hr1 & Hp1 & Hle & Hlt).
    destruct (taskQueue (resolving p)) as [|t q] eqn:Hq.
    + assert (windowed_work late c p = Ret tt p) as Hidle.
      { unfold windowed_work. rewrite (bind_run get _ _ _ _ eq_refl), Hq. done. }
      rewrite (bind_run _ _ _ _ _ Hidle). clear Hr1 Hp1 Hle Hlt p1 es1 st1 l1.
      assert (forall cs, forM ((fun x => WWorks (fst x) (snd x)) <$> cs) windowed_perform p = Ret tt p) as Hall'.
      { clear - Hq. induction cs as [|[late c] cs IH]; [done|]. cbn [fmap list_fmap forM windowed_perform fst snd].
        erewrite bind_run; [exact IH|]. unfold windowed_work. rewrite (bind_run get _ _ _ _ eq_refl), Hq. done. }
      exists p, es, st, l. split; [apply Hall'|]. done.
    + destruct (IH p1 es1 st1 l1 Hp1) as (p2 & es2 & st2 & l2 & Hr2 & Hp2 & Hq2); [specialize (Hlt ltac:(done)); cbn [length] in Hn; lia|].
      exists p2, es2, st2, l2. by rewrite (bind_run _ _ _ _ _ Hr1).
Qed.

End Stream.
End Windowed.

(** *** Concrete inputs *)

#[local] Existing Instance CatalogEvents.quiet_database.

Definition sample_windowed : windowed (S := DummyStorage.dummyStateStorage) :=
  mkWindowed (newTransactionTracker 3 sample_resolver) idle [].

(** The relation of a chunk and a transaction with two inserts and a truncate, whose
    deadline passes at its second insert. *)
Definition sample_transaction : list windowed_action :=
  [WArrives (Resolver.entry 0) (MRelation chunk_relation);
   WArrives (Resolver.entry 5) (MBegin (mkBegin 30 0 7)); WWorks false calm; WWorks false calm;
   WArrives (Resolver.entry 10) (MInsert 5 ∅); WWorks false calm;
   WArrives (Resolver.entry 20) (MInsert 5 ∅); WWorks true calm;
   WArrives (Resolver.entry 25) (MTruncate 2 [5; 5]); WWorks false calm;
   WArrives (Resolver.entry 30) (MCommit (mkCommit 30 31 0))].

Lemma sample_transaction_ok :
  Forall (message_ok Resolver.all_events plans_all sample_relations (sysCatalog sample_resolver)) (windowed_arrivals sample_transaction).
Proof.
  pose proof sample_messages_ok as Hok. unfold arrivals, sample_actions in Hok. cbn [omap list_omap] in Hok.
  repeat match goal with Hf : Forall _ (_ :: _) |- _ => apply Forall_cons in Hf as [? Hf] end.
  unfold windowed_arrivals, sample_transaction. cbn [omap list_omap].
  do 6 (apply Forall_cons; split; [first [assumption|by split; [|constructor]]|]). constructor.
Qed.

