(* ===== verification/Delivery.v ===== *)
(** * Delivery: from the replication connection to the sink, across a restart

    The replication handler (ReplicationHandler.v) in front of the pipeline
    (Pipeline.v): they share the queue of the task manager and the replication
    context.  A run is an interleaving of rounds of the receive loop and of the
    dispatcher, and it may be cut off anywhere.  The next run starts at the position
    that internal/replication/replicationconnection finds (ReplicationChannel.v): the
    stored offset or the position that the server was told. *)

From Stdlib Require Import ZArith Lia.
From Stdlib Require Import Strings.Byte.
From stdpp Require Import base tactics option list numbers strings gmap.
From S2P Require Import Prelude Encoding Entities Values Messages SystemCatalog StateStorage ReplicationChannel.
From S2P Require Import ReplicationHandler Resolver ReplicationContext Emitter Pipeline.

Local Open Scope Z_scope.

(** ** Entries without their context *)

(** An entry as the log has it: without the times and positions of the session. *)
Definition position (start : Z) (data : bytes) : XLogData := mkXLogData start 0 0 data "" 0 0 0.
Definition strip (xld : XLogData) : XLogData := position (WALStart xld) (WALData xld).

Definition strip_event (e : Emitter.event) : Emitter.event :=
  match e with
  | Read lsn t vs => Read lsn t vs
  | Insert xld t vs => Insert (strip xld) t vs
  | Update xld t old new => Update (strip xld) t old new
  | Delete_ xld t old tombstone => Delete_ (strip xld) t old tombstone
  | Truncate xld t => Truncate (strip xld) t
  | LogicalMessage xld m => LogicalMessage (strip xld) m
  | Compressed xld h => Compressed (strip xld) h
  | Decompressed xld h => Decompressed (strip xld) h
  | TransactionFinished xld m => TransactionFinished (strip xld) m
  end.

Definition strip_message (xm : XLogData * Message) : XLogData * Message := (strip (fst xm), snd xm).

(** The position that the emitter acknowledges for an event of the stream. *)
Definition event_position (e : Emitter.event) : Z :=
  match e with
  | Read lsn _ _ => lsn
  | Insert xld _ _ | Update xld _ _ _ | Delete_ xld _ _ _ | Truncate xld _ | LogicalMessage xld _
  | Compressed xld _ | Decompressed xld _ => entry_end xld
  | TransactionFinished _ msg => TransactionEndLSN msg
  end.

(** Where the entry of a message ends for the emitter. *)
Definition extent (xm : XLogData * Message) : Z :=
  match snd xm with MCommit m => TransactionEndLSN m | _ => entry_end (fst xm) end.

(** Changes in the order of the log, behind [base]. *)
Fixpoint in_order (base : Z) (log : list (XLogData * Message)) : Prop :=
  match log with
  | [] => True
  | xm :: log => base < WALStart (fst xm) <= extent xm /\ in_order (extent xm) log
  end.

(** ** The log and its events *)

Section Log.
Context (cfg : Resolver.config) (rels : gmap Z RelationMessage) (sc : Catalog.systemCatalog).

Abbreviation events_of := (stream_events cfg rels sc).

Lemma events_app l l' : events_of (l ++ l') = (events_of l ++ events_of l')%list.
Proof. unfold stream_events. by rewrite fmap_app, concat_app, fmap_app. Qed.

Lemma events_cons xm l : events_of (xm :: l) = (events_of [xm] ++ events_of l)%list.
Proof. apply (events_app [xm]). Qed.

Lemma strip_events l : events_of (strip_message <$> l) = strip_event <$> events_of l.
Proof.
  induction l as [|[xld m] l IH]; [done|]. rewrite fmap_cons, events_cons, (events_cons (xld, m)), fmap_app, IH. f_equal.
  unfold stream_events. cbn [fmap list_fmap concat]. rewrite !app_nil_r.
  destruct m as [| | |r ?|r ? ?|r ?|n rs| | |]; try done; cbn; try (destruct (target_of _ _ _ _ _) as [[? ?]|]; try done).
  - by destruct (genDeleteTombstone cfg).
  - rewrite <- !list_fmap_compose. done.
Qed.

Lemma events_position xm e : e ∈ events_of [xm] -> event_position e = extent xm.
Proof.
  destruct xm as [xld m]. unfold stream_events. cbn [fmap list_fmap concat]. rewrite app_nil_r.
  intros (x & -> & Hx)%list_elem_of_fmap.
  destruct m as [| |cm|r ?|r ? ?|r ?|n rs| | |]; cbn in Hx; try (destruct (target_of _ _ _ _ _) as [[? ?]|]);
    try (destruct (genDeleteTombstone cfg));
    repeat match goal with
    | Hx : _ ∈ [] |- _ => by apply not_elem_of_nil in Hx
    | Hx : _ ∈ _ :: _ |- _ => apply elem_of_cons in Hx as [->|Hx]; [done|]
    | Hx : _ ∈ _ <$> _ |- _ => apply list_elem_of_fmap in Hx as (? & -> & _); done
    end.
Qed.

(** ** What the second run repeats *)

(** [first] and [second] are what the two runs handle of the events of the log: the
    second starts at or before the end of the first; or the first was cut off between
    the events of one entry, and the second starts behind that entry. *)
Definition resumed (log : list (XLogData * Message)) (first second : list Emitter.event) : Prop :=
  (exists n, (n <= length first)%nat /\ second = drop n (events_of log)) \/
  (exists before xm after done lost, log = (before ++ xm :: after)%list /\ events_of [xm] = (done ++ lost)%list /\
     done <> [] /\ lost <> [] /\ first = (events_of before ++ done)%list /\ second = events_of after).

(** The changes behind the restart position. *)
Definition behind (restartLSN : Z) (log : list (XLogData * Message)) : list (XLogData * Message) :=
  filter (fun xm => restartLSN <= WALStart (fst xm)) log.

Lemma behind_all restartLSN base log : in_order base log -> restartLSN <= base + 1 -> behind restartLSN log = log.
Proof.
  revert base. induction log as [|xm log IH]; intros base Ho Hr; [done|]. destruct Ho as [Hs Ho]. unfold behind.
  rewrite filter_cons_True by lia. f_equal. apply (IH (extent xm)); [done|lia].
Qed.

Lemma foldr_max_le base l b : base <= b -> Forall (fun z => z <= b) l -> foldr Z.max base l <= b.
Proof. intros Hb. induction 1; cbn; lia. Qed.

Lemma foldr_max_mono base base' l : base <= base' -> foldr Z.max base l <= foldr Z.max base' l.
Proof. intros Hb. induction l; cbn; lia. Qed.

Lemma message_positions xm l :
  l ⊆ events_of [xm] -> Forall (fun z => z <= extent xm) (event_position <$> l).
Proof. intros Hl. apply Forall_fmap, Forall_forall. intros e He. cbn. by rewrite (events_position xm e (Hl e He)). Qed.

Lemma prefix_app_cases {A} (l a b : list A) :
  l `prefix_of` a ++ b -> l `prefix_of` a \/ exists l', l = (a ++ l')%list /\ l' `prefix_of` b.
Proof.
  intros Hl. destruct (prefix_weak_total l a (a ++ b)) as [Ha|[l' ->]]; [done|by apply prefix_app_r|by left|].
  right. exists l'. split; [done|]. by eapply prefix_app_inv.
Qed.

Lemma restart_resumes log base restartLSN first :
  in_order base log -> first `prefix_of` events_of log ->
  restartLSN <= 1 + foldr Z.max base (event_position <$> first) ->
  resumed log first (events_of (behind restartLSN log)).
Proof.
  revert base first. induction log as [|xm log IH]; intros base first Ho Hpre Hr.
  { left. exists 0%nat. split; [lia|done]. }
  pose proof Ho as [Hs Ho']. destruct (Z.le_gt_cases restartLSN (WALStart (fst xm))) as [Hkeep|Hskip].
  { left. exists 0%nat. split; [lia|]. unfold behind. rewrite filter_cons_True by done.
    fold (behind restartLSN log). by rewrite (behind_all _ (extent xm)) by (done || lia). }
  unfold behind. rewrite filter_cons_False by lia. fold (behind restartLSN log). rewrite events_cons in Hpre.
  apply prefix_app_cases in Hpre as [Hpre|(first' & -> & Hpre)].
  - destruct Hpre as [lost Hev]. destruct first as [|e first]; [cbn in Hr; lia|].
    assert (restartLSN <= extent xm + 1).
    { assert (foldr Z.max base (event_position <$> e :: first) <= extent xm); [|lia].
      apply foldr_max_le; [lia|]. apply message_positions. rewrite Hev. intros x Hx. apply elem_of_app. by left. }
    rewrite (behind_all _ (extent xm)) by done. destruct lost as [|e' lost].
    + left. exists (length (e :: first)). split; [done|]. rewrite events_cons, Hev, app_nil_r. by rewrite drop_app_length.
    + right. by exists [], xm, log, (e :: first), (e' :: lost).
  - destruct (IH (extent xm) first') as [(n & Hn & ->)|(before & xm' & after & dn & lost & -> & Hev & Hd & Hl & -> & ->)].
    + done.
    + done.
    + etrans; [exact Hr|]. rewrite fmap_app, foldr_app.
      enough (foldr Z.max (foldr Z.max base (event_position <$> first')) (event_position <$> events_of [xm]) <=
              foldr Z.max (extent xm) (event_position <$> first')) by lia.
      apply foldr_max_le; [apply foldr_max_mono; lia|].
      eapply Forall_impl; [by apply message_positions|]. intros z Hz. cbn in Hz. pose proof (foldr_max_ge (extent xm) (event_position <$> first')). lia.
    + left. exists (length (events_of [xm]) + n)%nat. split; [rewrite length_app; lia|].
      rewrite (events_cons xm log). by rewrite drop_app_add.
    + right. exists (xm :: before), xm', after, dn, lost. split; [done|]. split; [done|]. split; [done|]. split; [done|].
      split; [|done]. by rewrite (events_cons xm before), app_assoc.
Qed.
End Log.

(** ** The whole stream: receiving and dispatching *)

Section System.
Context {S : Type} `{StorageLaws S} {Tuple : Type}.
Context (parse : bytes -> string + raw_message Tuple).
Context (DecodeTuples : RelationMessage -> Tuple -> string + values) (spare : bytes).
Context (cfg : Resolver.config) (GetOrPlanTupleDecoder : RelationMessage -> option string).
Context `{Database} (enabled : Hypertable -> bool) (env : Emitter.environment).

Record system : Type := mkSystem {
  sys_handler : handler S;
  sys_pipeline : pipeline (S := S);
}.

Abbreviation context s := (Emitter.rc (emitter (sys_pipeline s))).

(** The handler with what it shares: the replication context, whose positions of the
    transactions the resolver sets, and the task manager. *)
Definition view (s : system) : handler S :=
  let h := sys_handler s in
  let w := resolver (sys_pipeline s) in
  let c := context s in
  mkHandler
    (mkContext (replicationSlotName c) (databaseName c) (Resolver.lastBeginLSN w) (Resolver.lastCommitLSN w)
       (lastReceivedLSN c) (lastProcessedLSN c) (Resolver.lastTransactionId w) (stateStorage c))
    (ReplicationHandler.relations h) (clientXLogPos h) (ReplicationHandler.lastTransactionId h) (loopDead h)
    (replyRequested h) (statusUpdates h) (Resolver.taskQueue w) (Resolver.shutdownActive w).

Definition restore (h : handler S) (s : system) : system :=
  let c := ReplicationHandler.rc h in
  let p := sys_pipeline s in
  mkSystem h (mkPipeline
    (Resolver.set_taskQueue (ReplicationHandler.taskQueue h)
       (Resolver.set_positions (lastBeginLSN c) (lastCommitLSN c) (lastTransactionId c) (resolver p)))
    (Emitter.set_rc c (emitter p)) (trace p)).

(** A round of the receive loop. *)
Definition receive (restartLSN : Z) (r : round) : G system unit :=
  zoom view restore (startReplicationHandler parse DecodeTuples spare restartLSN [r]) ;; mret tt.

Inductive step : Type := Receives (r : round) | Dispatches (c : moment).

Definition take_step (restartLSN : Z) (a : step) : G system unit :=
  match a with
  | Receives r => receive restartLSN r
  | Dispatches c =>
      zoom sys_pipeline (fun p s => mkSystem (sys_handler s) p) (work cfg GetOrPlanTupleDecoder enabled env c)
  end.

Definition stream (restartLSN : Z) (acts : list step) : G system unit := forM acts (take_step restartLSN).

(** The entries that are received. *)
Definition received_entries (acts : list step) : list xlog :=
  omap (fun a => match a with Receives r => entry_of r | Dispatches _ => None end) acts.

(** ** What an entry says *)

Section Reading.
Context (rels : gmap Z RelationMessage) (sc : Catalog.systemCatalog).

(** The message of an entry that does not belong to a transaction's messages. *)
Definition decode_entry (x : xlog) : option (raw_message Tuple) :=
  match ParseXlogData RLogical parse (x_WALData x) spare None with inr (inr raw) => Some raw | _ => None end.

Definition decoded (rel : RelationMessage) (t : Tuple) : option values :=
  match DecodeTuples rel t with inr vs => Some vs | inl _ => None end.

Definition message_of (raw : raw_message Tuple) : option Message :=
  match raw with
  | RRelation m => Some (MRelation m)
  | RBegin m => Some (MBegin m)
  | RCommit m => Some (MCommit m)
  | RInsert r t => rel ← rels !! r; vs ← decoded rel t; Some (MInsert r vs)
  | RUpdate r old new => rel ← rels !! r; o ← decoded rel old; n ← decoded rel new; Some (MUpdate r o n)
  | RDelete r old => rel ← rels !! r; o ← decoded rel old; Some (MDelete r o)
  | RTruncate n ids => Some (MTruncate n ids)
  | RType => Some MType
  | ROrigin => Some MOrigin
  | RLogical m => Some (MLogical m)
  | ROther => None
  end.

Definition entry_message (x : xlog) : option Message := raw ← decode_entry x; message_of raw.

Definition entry_position (x : xlog) : XLogData := position (x_WALStart x) (x_WALData x).

(** What the entries tell. *)
Definition told (xs : list xlog) : list (XLogData * Message) :=
  omap (fun x => m ← entry_message x; Some (entry_position x, m)) xs.

(** The entries that are not skipped, and those that are changes. *)
Definition kept (restartLSN : Z) (xs : list xlog) : list xlog :=
  filter (fun x => is_row x = false \/ restartLSN <= x_WALStart x) xs.
Definition changes (xs : list xlog) : list (XLogData * Message) := told (filter (fun x => is_row x = true) xs).

(** Entries that start with R are relation messages, and no others are. *)
Definition entry_ok (x : xlog) : Prop :=
  exists m, entry_message x = Some m /\ message_ok cfg GetOrPlanTupleDecoder rels sc (entry_position x, m) /\
    is_row x = match m with MRelation _ => false | _ => true end.

(** A round in which nothing goes wrong: the status is accepted when it is due. *)
Definition round_ok (r : round) : Prop :=
  r_shutdown r = false /\ r_statusSent r = true /\
  match r_received r with
  | NoMessage | UnexpectedMessage | OtherCopyData | Keepalive (Some _) => True
  | XLog (Some x) => entry_ok x
  | _ => False
  end.

Definition step_ok (a : step) : Prop := match a with Receives r => round_ok r | Dispatches _ => True end.

Lemma parse_any_transaction x raw xid :
  decode_entry x = Some raw -> ParseXlogData RLogical parse (x_WALData x) spare xid = inr (inr raw).
Proof.
  unfold decode_entry, ParseXlogData. destruct (index (x_WALData x) 0) as [|b]; cbn; [done|].
  destruct (bool_decide _); cbn; [|by destruct (parse _); intros [= ->]].
  destruct (from _ _); cbn; [done|]. destruct (Decode _ _) as [|[]]; cbn; [done|done|].
  destruct (IsTransactional _); [done|]. cbn. by intros [= ->].
Qed.

(** [c'] is [c] but for the positions of the stream. *)
Definition same_progress (c c' : replicationContext S) : Prop :=
  lastProcessedLSN c' = lastProcessedLSN c /\ stateStorage c' = stateStorage c /\
  replicationSlotName c' = replicationSlotName c.

(** What the handler makes of an entry that it does not skip. *)
Definition takes (xld : XLogData) (m : Message) (h h' : handler S) : Prop :=
  ReplicationHandler.taskQueue h' = (ReplicationHandler.taskQueue h ++ [arrival xld m])%list /\
  ReplicationHandler.relations h' = learn m (ReplicationHandler.relations h) /\
  ReplicationHandler.shutdownActive h' = ReplicationHandler.shutdownActive h /\
  statusUpdates h' = statusUpdates h /\ same_progress (ReplicationHandler.rc h) (ReplicationHandler.rc h').

Lemma enqueue_takes xld m (h : handler S) :
  ReplicationHandler.shutdownActive h = false ->
  match m with MRelation _ => False | _ => True end ->
  exists h', ReplicationHandler.EnqueueTask (NotifyLogical xld m) h = Ret tt h' /\ takes xld m h h'.
Proof.
  intros Hup Hm. unfold ReplicationHandler.EnqueueTask. rewrite (bind_run get _ _ _ _ eq_refl), Hup.
  eexists. split; [done|]. split; [by destruct m|]. split; [by destruct m|]. done.
Qed.

Lemma relation_run r rel (h : handler S) :
  ReplicationHandler.relations h ⊆ rels -> is_Some (ReplicationHandler.relations h !! r) -> rels !! r = Some rel ->
  ReplicationHandler.relation r h = Ret rel h.
Proof.
  intros Hsub [rel' Hr] Hrel. pose proof (lookup_weaken _ _ _ _ Hr Hsub) as Hr'.
  assert (rel' = rel) as -> by congruence. unfold ReplicationHandler.relation. go_unfold. by rewrite Hr.
Qed.

Lemma decode_run rel t vs (h : handler S) : decoded rel t = Some vs -> decode DecodeTuples rel t h = Ret vs h.
Proof. unfold decoded, decode. destruct (DecodeTuples rel t); [done|]. by intros [= ->]. Qed.

Lemma events_taken xld raw m (h : handler S) :
  message_of raw = Some m -> ReplicationHandler.relations h ⊆ rels -> ReplicationHandler.shutdownActive h = false ->
  Forall (fun r => is_Some (ReplicationHandler.relations h !! r)) (needs m) ->
  exists xld' h', handleReplicationEvents DecodeTuples xld raw h = Ret tt h' /\ strip xld' = strip xld /\ takes xld' m h h'.
Proof.
  intros Hm Hsub Hup Hk.
  destruct raw as [rm|bm|cm|r t|r o n|r o|n ids| | |lm|]; cbn in Hm; unfold handleReplicationEvents;
    try discriminate Hm; try (injection Hm as <-).
  - exists xld. eexists. split; [unfold ReplicationHandler.EnqueueTask, modify, mbind, G_bind, get; cbn; by rewrite Hup|].
    split; [done|]. by split.
  - exists (with_xid (BeginXid bm) xld). eexists.
    split; [unfold ReplicationHandler.EnqueueTask, modify, mbind, G_bind, get; cbn; by rewrite Hup|]. split; [done|]. by split.
  - exists xld. eexists. split; [unfold ReplicationHandler.EnqueueTask, modify, mbind, G_bind, get; cbn; by rewrite Hup|].
    split; [done|]. by split.
  - destruct (rels !! r) as [rel|] eqn:Hrel; [|done]. cbn in Hm.
    destruct (decoded rel t) as [vs|] eqn:Hd; [|done]. injection Hm as <-. apply Forall_cons in Hk as [Hk _].
    destruct (enqueue_takes xld (MInsert r vs) h Hup I) as (h' & Hrun & Ht). exists xld, h'. split; [|done].
    unfold handleInsertMessage. rewrite (bind_run _ _ _ _ _ (relation_run r rel h Hsub Hk Hrel)).
    by rewrite (bind_run _ _ _ _ _ (decode_run rel t vs h Hd)).
  - destruct (rels !! r) as [rel|] eqn:Hrel; [|done]. cbn in Hm.
    destruct (decoded rel o) as [ov|] eqn:Ho; [|done]. cbn in Hm.
    destruct (decoded rel n) as [nv|] eqn:Hn; [|done]. injection Hm as <-. apply Forall_cons in Hk as [Hk _].
    destruct (enqueue_takes xld (MUpdate r ov nv) h Hup I) as (h' & Hrun & Ht). exists xld, h'. split; [|done].
    unfold handleUpdateMessage. rewrite (bind_run _ _ _ _ _ (relation_run r rel h Hsub Hk Hrel)).
    rewrite (bind_run _ _ _ _ _ (decode_run rel o ov h Ho)). by rewrite (bind_run _ _ _ _ _ (decode_run rel n nv h Hn)).
  - destruct (rels !! r) as [rel|] eqn:Hrel; [|done]. cbn in Hm.
    destruct (decoded rel o) as [vs|] eqn:Hd; [|done]. injection Hm as <-. apply Forall_cons in Hk as [Hk _].
    destruct (enqueue_takes xld (MDelete r vs) h Hup I) as (h' & Hrun & Ht). exists xld, h'. split; [|done].
    unfold handleDeleteMessage. rewrite (bind_run _ _ _ _ _ (relation_run r rel h Hsub Hk Hrel)).
    by rewrite (bind_run _ _ _ _ _ (decode_run rel o vs h Hd)).
  - destruct (enqueue_takes xld (MTruncate n ids) h Hup I) as (h' & Hrun & Ht). by exists xld, h'.
  - destruct (enqueue_takes xld MType h Hup I) as (h' & Hrun & Ht). by exists xld, h'.
  - destruct (enqueue_takes xld MOrigin h Hup I) as (h' & Hrun & Ht). by exists xld, h'.
  - destruct (enqueue_takes xld (MLogical lm) h Hup I) as (h' & Hrun & Ht). by exists xld, h'.
Qed.

(** An entry is skipped, or taken. *)
Lemma entry_taken restartLSN x m (h : handler S) :
  entry_message x = Some m -> is_row x = false \/ restartLSN <= x_WALStart x ->
  ReplicationHandler.relations h ⊆ rels -> ReplicationHandler.shutdownActive h = false ->
  Forall (fun r => is_Some (ReplicationHandler.relations h !! r)) (needs m) ->
  exists xld h', onXLog parse DecodeTuples spare restartLSN x h = Ret tt h' /\ strip xld = entry_position x /\ takes xld m h h'.
Proof.
  intros Hm Hkeep Hsub Hup Hk. unfold entry_message in Hm.
  destruct (decode_entry x) as [raw|] eqn:Hdec; [|done]. cbn in Hm.
  destruct (events_taken (extend x h) raw m h Hm Hsub Hup Hk) as (xld & h' & Hrun & Hs & Ht1 & Ht2 & Ht3 & Ht4 & Ht5).
  exists xld. unfold onXLog. rewrite (bind_run get _ _ _ _ eq_refl).
  assert (exists b d, x_WALData x = b :: d) as (b & d & Hdata).
  { unfold decode_entry, ParseXlogData in Hdec. destruct (x_WALData x) as [|b d]; [done|eauto]. }
  assert (lift (S := handler S) (index (x_WALData x) 0) h = Ret b h) as Hidx by (by rewrite Hdata).
  rewrite (bind_run _ _ _ _ _ Hidx).
  assert (negb (bool_decide (b = MessageTypeRelation)) && (x_WALStart x <? restartLSN) = false) as ->.
  { unfold is_row in Hkeep. rewrite Hdata in Hkeep. destruct Hkeep as [->|Hle]; [done|].
    apply andb_false_iff. right. apply Z.ltb_ge. lia. }
  eexists. split.
  - erewrite bind_run; [done|]. unfold or_dead, handleXLogData. rewrite (bind_run get _ _ _ _ eq_refl).
    erewrite bind_run; [|cbn [WALData extend]; unfold lift; by rewrite (parse_any_transaction _ _ _ Hdec)].
    unfold mbind, G_bind, catch. rewrite Hrun. done.
  - split; [by rewrite Hs|]. by split.
Qed.

(** ** Progress of the system *)

Lemma message_ok_strip xm :
  message_ok cfg GetOrPlanTupleDecoder rels sc (strip_message xm) -> message_ok cfg GetOrPlanTupleDecoder rels sc xm.
Proof.
  intros [Hp He]. split; [done|].
  assert (forall ym, Forall (fun e => Emitter.event_ok (event_of e)) (record_events cfg rels sc ym) <->
    Forall Emitter.event_ok (stream_events cfg rels sc [ym])) as Heq.
  { intros ym. unfold stream_events. cbn [fmap list_fmap concat]. rewrite app_nil_r. by rewrite Forall_fmap. }
  rewrite Heq in He |- *. change [strip_message xm] with (strip_message <$> [xm]) in He. rewrite strip_events, Forall_fmap in He.
  eapply Forall_impl; [exact He|]. intros e. by destruct e.
Qed.

Lemma progress_context p0 p arrived future es a b x c :
  progress cfg GetOrPlanTupleDecoder env rels sc p0 p arrived future es ->
  same_progress (Emitter.rc (emitter p)) c ->
  progress cfg GetOrPlanTupleDecoder env rels sc p0
    (mkPipeline (Resolver.set_positions a b x (resolver p)) (Emitter.set_rc c (emitter p)) (trace p)) arrived future es.
Proof.
  intros [Hs Hk Ht Hst Ho [fates Hset] Htr Hoff] (E1 & E2 & E3). split; try done.
  - by apply steady_positions.
  - exists fates. eapply settled_to; [done|]. by split_and!.
  - intros o Hoo. unfold Offset_ in Hoo. cbn in Hoo. rewrite E2, E3 in Hoo. cbn. rewrite E1. by apply Hoff.
Qed.

(** The entries [seen] have been received since [s0], [future] are to come, and the
    events [es] are handled. *)
Record sys_progress (restartLSN : Z) (s0 s : system) (seen future : list xlog) (es : list (moment * Emitter.event)) : Prop := {
  sp_pipeline : exists arrived, strip_message <$> arrived = told (kept restartLSN seen) /\
    progress cfg GetOrPlanTupleDecoder env rels sc (sys_pipeline s0) (sys_pipeline s) arrived
      (snd <$> told (kept restartLSN future)) es;
  sp_relations : ReplicationHandler.relations (sys_handler s) ⊆ rels;
  sp_announced : announced (ReplicationHandler.relations (sys_handler s)) (snd <$> told (kept restartLSN future));
  sp_status : Forall (fun z => z <= lastProcessedLSN (context s) + 1) (statusUpdates (sys_handler s));
  sp_position : 0 <= lastProcessedLSN (context s);
}.

(** A handler that has taken nothing, but may have sent its status. *)
Definition idles (h h' : handler S) : Prop :=
  ReplicationHandler.taskQueue h' = ReplicationHandler.taskQueue h /\
  ReplicationHandler.relations h' = ReplicationHandler.relations h /\
  ReplicationHandler.shutdownActive h' = ReplicationHandler.shutdownActive h /\
  ReplicationHandler.rc h' = ReplicationHandler.rc h /\
  (statusUpdates h' = statusUpdates h \/
   statusUpdates h' = (statusUpdates h ++ [u64 (lastProcessedLSN (ReplicationHandler.rc h) + 1)])%list).

Lemma status_idles r (h : handler S) :
  r_statusSent r = true ->
  exists h', (if r_deadline r || replyRequested h
              then SendStatusUpdate (r_statusSent r) ;; modify (set_replyRequested false) else mret tt) h = Ret tt h' /\ idles h h'.
Proof.
  intros ->. destruct (_ || _).
  - eexists. split; [done|]. unfold idles. cbn. auto 10.
  - exists h. unfold idles. auto 10.
Qed.

Lemma told_cons x xs m : entry_message x = Some m -> told (x :: xs) = (entry_position x, m) :: told xs.
Proof. intros Hm. unfold told. cbn. by rewrite Hm. Qed.

Lemma told_app xs ys : told (xs ++ ys) = (told xs ++ told ys)%list.
Proof. apply omap_app. Qed.

Lemma kept_app restartLSN xs ys : kept restartLSN (xs ++ ys) = (kept restartLSN xs ++ kept restartLSN ys)%list.
Proof. apply filter_app. Qed.

Lemma kept_cons restartLSN x xs :
  is_row x = false \/ restartLSN <= x_WALStart x -> kept restartLSN (x :: xs) = x :: kept restartLSN xs.
Proof. intros Hx. by apply filter_cons_True. Qed.

(** The shared state after a round without an entry. *)
Lemma idle_progress restartLSN s0 s seen future es h' :
  sys_progress restartLSN s0 s seen future es -> idles (view s) h' ->
  sys_progress restartLSN s0 (restore h' s) seen future es /\
  Resolver.taskQueue (resolver (sys_pipeline (restore h' s))) = Resolver.taskQueue (resolver (sys_pipeline s)).
Proof.
  intros [(arrived & Ha & Hp) Hr Hann Hst Hpos] (Hq & HR & Hup & Hc & Hsu). cbn in Hq, HR, Hc, Hsu. split; [|by cbn].
  split; cbn [sys_handler sys_pipeline restore].
  - exists arrived. split; [done|]. rewrite Hq, Hc. destruct (sys_pipeline s) as [w e calls] eqn:Hps.
    apply (progress_context _ (mkPipeline (Resolver.set_taskQueue (Resolver.taskQueue w) w) e calls)); [|done].
    by destruct w.
  - by rewrite HR.
  - by rewrite HR.
  - cbn. rewrite Hc. cbn. destruct Hsu as [->| ->]; [done|]. apply Forall_app. split; [done|]. constructor; [|constructor].
    unfold u64, wrapu. apply Z.mod_le; lia.
  - cbn. by rewrite Hc.
Qed.

(** The shared state after an entry has been taken. *)
Lemma taken_progress restartLSN s0 s seen future es x m xld h1 h' :
  sys_progress restartLSN s0 s seen (x :: future) es -> entry_ok x -> entry_message x = Some m ->
  is_row x = false \/ restartLSN <= x_WALStart x ->
  idles (view s) h1 -> strip xld = entry_position x -> takes xld m h1 h' ->
  sys_progress restartLSN s0 (restore h' s) (seen ++ [x]) future es /\
  rounds cfg rels sc (Resolver.taskQueue (resolver (sys_pipeline (restore h' s)))) =
    (rounds cfg rels sc (Resolver.taskQueue (resolver (sys_pipeline s))) +
     (1 + length (stream_events cfg rels sc [(entry_position x, m)])))%nat.
Proof.
  intros [(arrived & Ha & Hp) Hr Hann Hst Hpos] (m' & Hm' & Hok & Hrow) Hm Hkeep (Hq & HR & Hup & Hc & Hsu) Hxld
    (Hq' & HR' & Hup' & Hsu' & Hc1 & Hc2 & Hc3).
  rewrite Hm in Hm'. injection Hm' as <-. cbn in Hq, HR, Hc, Hsu.
  assert (kept restartLSN (x :: future) = x :: kept restartLSN future) as Hkf by (by apply kept_cons).
  rewrite Hkf, (told_cons _ _ _ Hm) in Hp, Hann. cbn [fmap list_fmap snd] in Hp, Hann. destruct Hann as [Hneed Hann].
  assert (message_ok cfg GetOrPlanTupleDecoder rels sc (xld, m)) as Hmok.
  { apply message_ok_strip. unfold strip_message. cbn. by rewrite Hxld. }
  destruct (arrive_progress cfg GetOrPlanTupleDecoder env rels sc _ _ _ _ _ _ _ Hp Hmok) as (p' & _ & Hp' & Hn & Hpe).
  rewrite Hq in Hq'. rewrite Hc in Hc1, Hc2, Hc3. cbn in Hc1, Hc2, Hc3.
  assert (length (record_events cfg rels sc (xld, m)) = length (stream_events cfg rels sc [(entry_position x, m)])) as Hlen.
  { rewrite <- Hxld. change [(strip xld, m)] with (strip_message <$> [(xld, m)]). rewrite strip_events, length_fmap.
    unfold stream_events. cbn [fmap list_fmap concat]. by rewrite app_nil_r, length_fmap. }
  rewrite Hlen in Hn. split; [|by rewrite <- Hn, Hpe; cbn; rewrite Hq'].
  split; cbn [sys_handler sys_pipeline restore].
  - exists (arrived ++ [(xld, m)])%list. split.
    { rewrite fmap_app, Ha, kept_app, told_app. f_equal. rewrite kept_cons by done.
      rewrite (told_cons _ _ _ Hm). cbn. unfold strip_message. cbn. by rewrite Hxld. }
    rewrite Hq'. rewrite Hpe in Hp'. by apply (progress_context _ _ _ _ _ _ _ _ (ReplicationHandler.rc h') Hp').
  - rewrite HR', HR. destruct m; try done. cbn. apply insert_subseteq_l; [|done]. apply (proj1 Hok).
  - by rewrite HR', HR.
  - cbn. rewrite Hc1, Hsu'. destruct Hsu as [->| ->]; [done|]. apply Forall_app. split; [done|]. constructor; [|constructor].
    unfold u64, wrapu. apply Z.mod_le; cbn; lia.
  - cbn. by rewrite Hc1.
Qed.

Lemma round_run restartLSN r (h h1 h' : handler S) :
  r_shutdown r = false ->
  (if r_deadline r || replyRequested h
   then SendStatusUpdate (r_statusSent r) ;; modify (set_replyRequested false) else mret tt) h = Ret tt h1 ->
  onReceived parse DecodeTuples spare restartLSN (r_received r) h1 = Ret tt h' ->
  startReplicationHandler parse DecodeTuples spare restartLSN [r] h = Ret Running h'.
Proof.
  intros Hs H1' H2'. cbn [startReplicationHandler]. rewrite Hs, (bind_run get _ _ _ _ eq_refl).
  by rewrite (bind_run _ _ _ _ _ H1'), (bind_run _ _ _ _ _ H2').
Qed.

Lemma receive_run restartLSN r s h1 h' :
  r_shutdown r = false ->
  (if r_deadline r || replyRequested (view s)
   then SendStatusUpdate (r_statusSent r) ;; modify (set_replyRequested false) else mret tt) (view s) = Ret tt h1 ->
  onReceived parse DecodeTuples spare restartLSN (r_received r) h1 = Ret tt h' ->
  receive restartLSN r s = Ret tt (restore h' s).
Proof.
  intros Hs H1' H2'. unfold receive, zoom, mbind, G_bind. by rewrite (round_run restartLSN r (view s) h1 h' Hs H1' H2').
Qed.

(** How many rounds of the dispatcher an entry costs. *)
Definition cost (restartLSN : Z) (xs : list xlog) : nat :=
  (length xs + length (stream_events cfg rels sc (told (kept restartLSN xs))))%nat.

Lemma cost_app restartLSN xs ys : cost restartLSN (xs ++ ys) = (cost restartLSN xs + cost restartLSN ys)%nat.
Proof. unfold cost. rewrite kept_app, told_app, events_app, !length_app. lia. Qed.

Lemma receive_progress restartLSN r s0 s seen future es :
  round_ok r -> sys_progress restartLSN s0 s seen (option_list (entry_of r) ++ future) es ->
  exists s', receive restartLSN r s = Ret tt s' /\
    sys_progress restartLSN s0 s' (seen ++ option_list (entry_of r)) future es /\
    (rounds cfg rels sc (Resolver.taskQueue (resolver (sys_pipeline s'))) <=
     rounds cfg rels sc (Resolver.taskQueue (resolver (sys_pipeline s))) + cost restartLSN (option_list (entry_of r)))%nat.
Proof.
  intros (Hsh & Hst & Hrec) Hp. destruct (status_idles r (view s) Hst) as (h1 & Hh1 & Hidle).
  assert (forall h', onReceived parse DecodeTuples spare restartLSN (r_received r) h1 = Ret tt h' -> entry_of r = None ->
    idles (view s) h' -> exists s', receive restartLSN r s = Ret tt s' /\
      sys_progress restartLSN s0 s' (seen ++ option_list (entry_of r)) future es /\
      (rounds cfg rels sc (Resolver.taskQueue (resolver (sys_pipeline s'))) <=
       rounds cfg rels sc (Resolver.taskQueue (resolver (sys_pipeline s))) + cost restartLSN (option_list (entry_of r)))%nat) as Hnone.
  { intros h' Hrun Hx Hi. rewrite Hx in *. exists (restore h' s). split; [by apply (receive_run restartLSN r s h1)|].
    change (option_list (@None xlog)) with (@nil xlog) in *. cbn [app] in Hp. destruct (idle_progress _ _ _ _ _ _ h' Hp Hi) as [Hp' Hq].
    rewrite app_nil_r. split; [done|]. rewrite Hq. lia. }
  unfold entry_of in *. revert Hrec Hp Hnone.
  destruct (r_received r) as [| | | | |[b|]|[x|]|] eqn:Hr; intros Hrec Hp Hnone; try done; try (by apply (Hnone h1)).
  - cbn [onReceived] in Hnone. destruct b; [|by apply (Hnone h1)]. by apply (Hnone (set_replyRequested true h1)).
  - clear Hnone. change (option_list (Some x)) with [x] in *. cbn [app] in Hp. destruct Hrec as (m & Hm & Hok & Hrow).
    destruct (decide (is_row x = false \/ restartLSN <= x_WALStart x)) as [Hkeep|Hskip].
    + pose proof (sp_announced _ _ _ _ _ _ Hp) as Hann. rewrite kept_cons in Hann by done.
      rewrite (told_cons _ _ _ Hm) in Hann. destruct Hann as [Hneed _].
      destruct Hp as [(arrived & Ha & Hpp) Hrel Hann' Hst' Hpos] eqn:E. pose proof Hidle as (Hq & HR & Hup & Hc & _).
      destruct (entry_taken restartLSN x m h1 Hm Hkeep) as (xld & h' & Hrun & Hxld & Ht).
      * by rewrite HR.
      * rewrite Hup. apply (pg_steady _ _ _ _ _ _ _ _ _ _ Hpp).
      * by rewrite HR.
      * destruct (taken_progress restartLSN s0 s seen future es x m xld h1 h') as [Hp' Hn]; try done; [by exists m|].
        exists (restore h' s). split; [apply (receive_run restartLSN r s h1); [done|done|by rewrite Hr]|].
        split; [done|]. rewrite Hn. unfold cost. rewrite kept_cons by done. rewrite (told_cons _ _ _ Hm).
        change (told (kept restartLSN [])) with (@nil (XLogData * Message)). cbn [length]. lia.
    + assert (kept restartLSN [x] = []) as Hnil by (unfold kept; by rewrite filter_cons_False).
      assert (is_row x = true /\ x_WALStart x < restartLSN) as [Hrow' Hlt].
      { destruct (is_row x); [|tauto]. split; [done|]. apply Z.nle_gt. tauto. }
      assert (sys_progress restartLSN s0 s (seen ++ [x]) future es) as Hp'.
      { destruct Hp as [(arrived & Ha & Hpp) Hrel Hann Hst' Hpos]. change (x :: future) with ([x] ++ future)%list in Hpp, Hann.
        rewrite kept_app, Hnil in Hpp, Hann. split; try done. exists arrived. rewrite kept_app, Hnil, app_nil_r. done. }
      destruct (idle_progress _ _ _ _ _ _ h1 Hp' Hidle) as [Hp'' Hq]. exists (restore h1 s).
      split; [|split; [done|rewrite Hq; lia]]. apply (receive_run restartLSN r s h1); [done|done|]. rewrite Hr. cbn [onReceived].
      by apply onXLog_skip.
Qed.

Lemma dispatch_progress restartLSN c s0 s seen future es :
  sys_progress restartLSN s0 s seen future es ->
  exists s' es', take_step restartLSN (Dispatches c) s = Ret tt s' /\ sys_progress restartLSN s0 s' seen future es' /\
    (rounds cfg rels sc (Resolver.taskQueue (resolver (sys_pipeline s'))) <=
     rounds cfg rels sc (Resolver.taskQueue (resolver (sys_pipeline s))) - 1)%nat /\
    lastProcessedLSN (context s) <= lastProcessedLSN (context s').
Proof.
  intros [(arrived & Ha & Hp) Hr Hann Hst Hpos].
  destruct (work_progress cfg GetOrPlanTupleDecoder enabled env rels sc c _ _ _ _ _ Hp) as (p' & es' & Hrun & Hp' & Hn & Hle).
  exists (mkSystem (sys_handler s) p'), es'. split; [unfold take_step, zoom; by rewrite Hrun|].
  split; [|split; [done|done]]. split; [by exists arrived|done|done| |]; cbn [sys_handler sys_pipeline].
  - eapply Forall_impl; [exact Hst|]. intros z Hz. cbn in Hz. lia.
  - lia.
Qed.

Lemma received_receives r acts :
  received_entries (Receives r :: acts) = (option_list (entry_of r) ++ received_entries acts)%list.
Proof. unfold received_entries. cbn. by destruct (entry_of r). Qed.

Lemma received_app acts acts' :
  received_entries (acts ++ acts') = (received_entries acts ++ received_entries acts')%list.
Proof. apply omap_app. Qed.

Lemma received_ok acts : Forall step_ok acts -> Forall entry_ok (received_entries acts).
Proof.
  induction 1 as [|[r|c] acts Ha _ IH]; [constructor| |done]. rewrite received_receives. apply Forall_app. split; [|done].
  destruct Ha as (_ & _ & Ha). unfold entry_of. destruct (r_received r) as [| | | | | |[x|]|]; repeat constructor. exact Ha.
Qed.

Lemma stream_progress restartLSN acts s0 s seen future es :
  Forall step_ok acts -> sys_progress restartLSN s0 s seen (received_entries acts ++ future) es ->
  exists s' es', stream restartLSN acts s = Ret tt s' /\
    sys_progress restartLSN s0 s' (seen ++ received_entries acts) future es' /\
    (rounds cfg rels sc (Resolver.taskQueue (resolver (sys_pipeline s'))) <=
     rounds cfg rels sc (Resolver.taskQueue (resolver (sys_pipeline s))) + cost restartLSN (received_entries acts))%nat.
Proof.
  unfold stream. intros Hok. revert s seen es. induction Hok as [|a acts Ha _ IH]; intros s seen es Hp; cbn [forM].
  - exists s, es. split; [done|]. cbn. rewrite app_nil_r. split; [done|lia].
  - destruct a as [r|c].
    + rewrite received_receives, <- app_assoc in Hp.
      destruct (receive_progress restartLSN r s0 s seen _ es Ha Hp) as (s1 & Hr1 & Hp1 & Hn1).
      destruct (IH s1 _ _ Hp1) as (s2 & es2 & Hr2 & Hp2 & Hn2). exists s2, es2.
      rewrite (bind_run _ _ _ _ _ Hr1). split; [done|]. rewrite received_receives, app_assoc, cost_app. split; [done|lia].
    + destruct (dispatch_progress restartLSN c s0 s seen _ es Hp) as (s1 & es1 & Hr1 & Hp1 & Hn1 & _).
      destruct (IH s1 _ _ Hp1) as (s2 & es2 & Hr2 & Hp2 & Hn2). exists s2, es2.
      rewrite (bind_run _ _ _ _ _ Hr1). split; [done|]. split; [done|].
      change (received_entries (Dispatches c :: acts)) with (received_entries acts). lia.
Qed.

Lemma stream_drains restartLSN cs s0 s seen future es :
  sys_progress restartLSN s0 s seen future es ->
  (rounds cfg rels sc (Resolver.taskQueue (resolver (sys_pipeline s))) <= length cs)%nat ->
  exists s' es', stream restartLSN (Dispatches <$> cs) s = Ret tt s' /\ sys_progress restartLSN s0 s' seen future es' /\
    Resolver.taskQueue (resolver (sys_pipeline s')) = [].
Proof.
  unfold stream. revert s es. induction cs as [|c cs IH]; intros s es Hp Hn; cbn [fmap list_fmap forM].
  - exists s, es. split; [done|]. split; [done|]. by eapply rounds_empty.
  - destruct (dispatch_progress restartLSN c s0 s seen _ es Hp) as (s1 & es1 & Hr1 & Hp1 & Hn1 & _). cbn in Hn.
    destruct (IH s1 es1 Hp1) as (s2 & es2 & Hr2 & Hp2 & Hq); [lia|]. exists s2, es2. by rewrite (bind_run _ _ _ _ _ Hr1).
Qed.

(** ** From entries to changes *)

Lemma events_changes xs : Forall entry_ok xs -> stream_events cfg rels sc (told xs) = stream_events cfg rels sc (changes xs).
Proof.
  induction 1 as [|x xs (m & Hm & _ & Hrow) _ IH]; [done|]. rewrite (told_cons _ _ _ Hm), events_cons, IH. unfold changes.
  destruct (is_row x) eqn:E.
  - rewrite filter_cons_True by done. rewrite (told_cons _ _ _ Hm). symmetry. apply events_cons.
  - rewrite filter_cons_False by congruence. by destruct m.
Qed.

Lemma changes_kept restartLSN xs : changes (kept restartLSN xs) = behind restartLSN (changes xs).
Proof.
  unfold changes, kept, behind. induction xs as [|x xs IH]; [done|]. destruct (is_row x) eqn:E.
  - rewrite (filter_cons_True (fun x => is_row x = true)) by done. unfold told at 2. cbn [omap list_omap].
    destruct (decide (restartLSN <= x_WALStart x)) as [Hle|Hgt].
    + rewrite (filter_cons_True (fun x => is_row x = false \/ _)) by tauto. rewrite filter_cons_True by done.
      unfold told at 1. cbn [omap list_omap]. destruct (entry_message x) as [m|]; cbn [mbind option_bind]; [|exact IH].
      rewrite filter_cons_True by done. f_equal. exact IH.
    + rewrite (filter_cons_False (fun x => is_row x = false \/ _)) by (intros [?|?]; [congruence|done]).
      destruct (entry_message x) as [m|]; cbn [mbind option_bind]; [|exact IH]. rewrite filter_cons_False by done. exact IH.
  - rewrite (filter_cons_False (fun x => is_row x = true)) by congruence.
    rewrite (filter_cons_True (fun x => is_row x = false \/ _)) by tauto. rewrite filter_cons_False by congruence. exact IH.
Qed.

Lemma behind_old restartLSN old l :
  Forall (fun xm => WALStart (fst xm) < restartLSN) old -> behind restartLSN (old ++ l) = behind restartLSN l.
Proof.
  induction 1 as [|xm old Hxm _ IH]; [done|]. cbn [app]. unfold behind. rewrite filter_cons_False by lia. exact IH.
Qed.

(** The acknowledged position is that of an event that was handled. *)
Lemma accounted_position es (w w' : Emitter.world (S := S)) fates l :
  accounted env es w w' fates -> strip_event <$> (snd <$> es) `prefix_of` stream_events cfg rels sc l ->
  lastProcessedLSN (Emitter.rc w') <= foldr Z.max (lastProcessedLSN (Emitter.rc w)) (event_position <$> (strip_event <$> (snd <$> es))).
Proof.
  intros (HF & _ & ->) Hpre.
  assert (Forall (fun ce => ack_position (acknowledges (fst ce) (snd ce)) = event_position (strip_event (snd ce))) es) as Hpos.
  { apply Forall_forall. intros [c e] He.
    assert (strip_event e ∈ stream_events cfg rels sc l) as Hin.
    { destruct Hpre as [k ->]. apply elem_of_app. left. apply list_elem_of_fmap. exists e. split; [done|].
      apply list_elem_of_fmap. by exists (c, e). }
    unfold stream_events in Hin. apply list_elem_of_fmap in Hin as (r & Hr & Hin).
    apply list_elem_of_In, in_concat in Hin as (rs & Hrs%list_elem_of_In & Hr'%list_elem_of_In). apply list_elem_of_fmap in Hrs as ([xld m] & -> & _).
    destruct e; try done. exfalso. destruct r; try done.
    destruct m as [| | |i ?|i ? ?|i ?|n ids| | |]; cbn in Hr'; try (destruct (target_of _ _ _ _ _) as [[? ?]|]);
      try (destruct (genDeleteTombstone cfg));
      repeat match goal with
      | Hx : _ ∈ [] |- _ => by apply not_elem_of_nil in Hx
      | Hx : _ ∈ _ :: _ |- _ => apply elem_of_cons in Hx as [Hx|Hx]; [discriminate Hx|]
      | Hx : _ ∈ _ <$> _ |- _ => apply list_elem_of_fmap in Hx as (? & Hx & _); discriminate Hx
      end. }
  clear Hpre. apply settled_length in HF. revert fates HF.
  induction Hpos as [|[c e] es Hce _ IH]; intros [|f fates] HF; try done. injection HF as HF. specialize (IH fates HF). cbn in Hce |- *. destruct f; cbn; rewrite ?Hce; lia.
Qed.

(** ** At least once *)

(** A system at the start of a run that will receive [xs]: nothing is queued, no
    stream is open, and the relations of the entries are announced. *)
Record fresh (restartLSN : Z) (xs : list xlog) (s : system) : Prop := {
  fr_resolver : steady rels sc (resolver (sys_pipeline s));
  fr_queue : Resolver.taskQueue (resolver (sys_pipeline s)) = [];
  fr_streams : streams (emitter (sys_pipeline s)) = ∅;
  fr_offset : offset_behind (context s);
  fr_position : 0 <= lastProcessedLSN (context s);
  fr_status : statusUpdates (sys_handler s) = [];
  fr_relations : ReplicationHandler.relations (sys_handler s) ⊆ rels;
  fr_announced : announced (ReplicationHandler.relations (sys_handler s)) (snd <$> told (kept restartLSN xs));
  fr_resolved : announced (Resolver.relations (resolver (sys_pipeline s))) (snd <$> told (kept restartLSN xs));
}.

Lemma fresh_progress restartLSN xs s : fresh restartLSN xs s -> sys_progress restartLSN s s [] xs [].
Proof.
  intros []. split; [|done|done|by rewrite fr_status0; constructor|done]. exists []. split; [done|]. by apply progress_start.
Qed.

(** What a run has handled, from its progress. *)
Lemma handled_prefix restartLSN s0 s seen future es :
  Forall entry_ok seen -> sys_progress restartLSN s0 s seen future es ->
  strip_event <$> (snd <$> es) `prefix_of` stream_events cfg rels sc (changes (kept restartLSN seen)) /\
  (Resolver.taskQueue (resolver (sys_pipeline s)) = [] ->
   strip_event <$> (snd <$> es) = stream_events cfg rels sc (changes (kept restartLSN seen))).
Proof.
  intros Hok [(arrived & Ha & Hp) _ _ _ _]. destruct (pg_order _ _ _ _ _ _ _ _ _ _ Hp) as (handled & Ho & He).
  assert (Forall entry_ok (kept restartLSN seen)) as Hok'.
  { apply Forall_forall. intros x [_ Hx]%list_elem_of_filter. by eapply Forall_forall in Hok. }
  rewrite <- events_changes, <- Ha, strip_events by done. unfold stream_events. rewrite Ho, He, !fmap_app. split.
  - by apply prefix_app_r.
  - intros Hq. rewrite Hq. cbn. by rewrite app_nil_r.
Qed.

Lemma restart_bound (conn : ReplicationChannel.environment) (c : replicationContext S) row restartLSN :
  offset conn = inr (Offset_ c) -> readReplicationSlot conn = inr row -> offset_behind c ->
  0 < confirmedFlushLSN row <= lastProcessedLSN c + 1 -> Connection.locateRestartLSN conn = inr restartLSN ->
  restartLSN <= 1 + lastProcessedLSN c.
Proof.
  intros Ho Hrow Hb Hc. unfold Connection.locateRestartLSN. rewrite Ho, Hrow.
  destruct (_ && _); [done|]. destruct (_ && _); [done|]. intros [= <-].
  destruct (Offset_ c) as [o|] eqn:Hoff.
  - specialize (Hb o Hoff). destruct (Z.ltb_spec (confirmedFlushLSN row) (Offs.LSN o));
      destruct (_ =? 0) eqn:Hz; try (apply Z.eqb_eq in Hz); lia.
  - destruct (_ =? 0) eqn:Hz; try (apply Z.eqb_eq in Hz); lia.
Qed.

End Reading.

(** ** Messages of a transaction after a restart *)

(** After a restart inside a transaction its begin is skipped, so that the running
    transaction is not known; the next message that belongs to the transaction
    dereferences it, in this run and in every later one. *)
Lemma restarted_message_crashes restartLSN (skipped : list round) (r : round) (m : LogicalReplicationMessage) (x : xlog)
    (rest : list round) (h : handler S) :
  Forall (fun r => r_shutdown r = false /\ r_deadline r = false /\
    exists y, r_received r = XLog (Some y) /\ is_row y = true /\ x_WALStart y < restartLSN) skipped ->
  r_shutdown r = false -> r_deadline r = false -> r_received r = XLog (Some x) -> restartLSN <= x_WALStart x ->
  x_WALData x = encode_logical m -> IsTransactional m = true ->
  in_u 8 (Flags m) -> in_u 64 (MessageLSN m) -> Byte.x00 ∉ bytes_of (Prefix m) -> encodable (length (Content m)) ->
  ReplicationHandler.lastTransactionId h = None -> replyRequested h = false ->
  startReplicationHandler parse DecodeTuples spare restartLSN (skipped ++ r :: rest) h = Crash PanicNilDereference.
Proof.
  intros Hsk Hs Hd Hr Hle Hdata Htr Hf Hl Hp Hc Hxid Hreply.
  induction Hsk as [|r0 skipped (Hs0 & Hd0 & y & Hr0 & Hrow & Hlt) _ IH]; cbn [app startReplicationHandler].
  - rewrite Hs, (bind_run get _ _ _ _ eq_refl), Hd, Hreply. cbn [orb]. rewrite (bind_run (mret tt) _ _ _ _ eq_refl).
    apply bind_crash. rewrite Hr. cbn [onReceived]. unfold onXLog. rewrite (bind_run get _ _ _ _ eq_refl).
    erewrite bind_run; [|rewrite Hdata; done]. cbn [bool_decide]. rewrite bool_decide_eq_false_2 by done.
    replace (x_WALStart x <? restartLSN) with false by (symmetry; apply Z.ltb_ge; lia). cbn [negb andb].
    apply bind_crash. unfold or_dead, handleXLogData. rewrite (bind_run get _ _ _ _ eq_refl).
    rewrite bind_crash with (c := PanicNilDereference); [done|]. unfold lift. cbn [WALData extend].
    by rewrite Hdata, (parse_logical_message RLogical parse m spare _ Hf Hl Hp Hc), Htr, Hxid.
  - rewrite Hs0, (bind_run get _ _ _ _ eq_refl), Hd0, Hreply. cbn [orb]. rewrite (bind_run (mret tt) _ _ _ _ eq_refl).
    erewrite bind_run; [exact IH|]. rewrite Hr0. by apply onXLog_skip.
Qed.
End System.

(** *** Concrete inputs *)

#[local] Existing Instance CatalogEvents.quiet_database.

(** A parser of relation, insert and delete messages without payload, all of one
    chunk. *)
Definition chunk_parse (d : bytes) : string + raw_message unit :=
  match d with
  | b :: _ =>
      if bool_decide (b = MessageTypeRelation)
      then inr (RRelation chunk_relation)
      else if bool_decide (b = Byte.x49) then inr (RInsert 5 tt)
      else inr (RDelete 5 tt)
  | [] => inl "empty"%string
  end.

(** A sink that accepts everything. *)
Definition open_sink : Emitter.environment :=
  mkEnv TableName TableName "messages" (fun _ => inr None) (fun _ => "string"%string) (fun _ _ => ∅) (fun _ => ∅)
    (fun _ => EmptyString) (fun z => z) (fun _ => 0) (fun _ => None).

Definition sample_system : system (S := DummyStorage.dummyStateStorage) := mkSystem sample_handler sample_pipeline.

(** The first run gets the relation, an insert and a delete with its tombstone, and is
    cut off when the delete is handled and its tombstone is not. *)
Definition first_steps : list step :=
  [Receives (quiet (plain_entry 0 MessageTypeRelation)); Receives (quiet (plain_entry 10 Byte.x49));
   Receives (quiet (plain_entry 20 Byte.x44));
   Dispatches calm; Dispatches calm; Dispatches calm; Dispatches calm; Dispatches calm].

(** The server sends everything again, and an insert. *)
Definition second_steps : list step :=
  [Receives (quiet (plain_entry 0 MessageTypeRelation)); Receives (quiet (plain_entry 10 Byte.x49));
   Receives (quiet (plain_entry 20 Byte.x44)); Receives (quiet (plain_entry 30 Byte.x49))].

Abbreviation sample_changes := (changes chunk_parse sample_decode [] sample_relations).

Definition sample_log : list (XLogData * Message) := sample_changes (received_entries second_steps).

Definition sample_connection : ReplicationChannel.environment :=
  mkEnvironment "slot" true false true false Never None 0 (inr (Some (Offs.mkOffset 0 false false None 0 None 22)))
    (inr true) (true, None) (inr true) (inr "") None (inr (mkSlotRow "pgoutput" "logical" 1 1)) (None, None, None).

Lemma sample_entries_ok acts :
  acts = first_steps \/ acts = second_steps ->
  Forall (step_ok chunk_parse sample_decode [] Resolver.all_events plans_all sample_relations (sysCatalog sample_resolver)) acts.
Proof.
  assert (forall r lsn m b, entry_message chunk_parse sample_decode [] sample_relations (plain_entry lsn b) = Some m ->
    message_ok Resolver.all_events plans_all sample_relations (sysCatalog sample_resolver) (entry_position (plain_entry lsn b), m) ->
    is_row (plain_entry lsn b) = match m with MRelation _ => false | _ => true end -> r = quiet (plain_entry lsn b) ->
    step_ok chunk_parse sample_decode [] Resolver.all_events plans_all sample_relations (sysCatalog sample_resolver) (Receives r)) as Hok.
  { intros r lsn m b H1 H2 H3 ->. split; [done|]. split; [done|]. by exists m. }
  assert (Hrow : forall lsn b, b = Byte.x49 \/ b = Byte.x44 ->
    step_ok chunk_parse sample_decode [] Resolver.all_events plans_all sample_relations (sysCatalog sample_resolver)
      (Receives (quiet (plain_entry lsn b)))).
  { intros lsn b [-> | ->].
    - apply (Hok _ lsn (MInsert 5 ∅) Byte.x49); [reflexivity| |reflexivity|reflexivity].
      split; [eexists; split_and!; vm_compute; reflexivity|]. sample_table.
    - apply (Hok _ lsn (MDelete 5 ∅) Byte.x44); [reflexivity| |reflexivity|reflexivity].
      split; [eexists; split_and!; vm_compute; reflexivity|]. vm_compute.
      constructor; [|constructor; [|constructor]]; intros t [= <-];
      (split; [split; cbn; repeat (apply not_elem_of_cons; split; [done|]); apply not_elem_of_nil|by eexists]). }
  intros [-> | ->]; unfold first_steps, second_steps.
  - constructor; [|constructor; [by apply Hrow; left|constructor; [by apply Hrow; right|repeat constructor]]].
    apply (Hok _ 0 (MRelation chunk_relation) MessageTypeRelation);
      [reflexivity| |reflexivity|reflexivity]. split; [split; [done|split; [done|exact sample_leaves_catalog]]|constructor].
  - constructor; [|constructor; [by apply Hrow; left|constructor; [by apply Hrow; right|constructor; [by apply Hrow; left|constructor]]]].
    apply (Hok _ 0 (MRelation chunk_relation) MessageTypeRelation);
      [reflexivity| |reflexivity|reflexivity]. split; [split; [done|split; [done|exact sample_leaves_catalog]]|constructor].
Qed.

Lemma sample_fresh restartLSN acts :
  acts = first_steps \/ acts = second_steps -> restartLSN = 0 \/ restartLSN = 22 ->
  fresh chunk_parse sample_decode [] sample_relations (sysCatalog sample_resolver) restartLSN (received_entries acts) sample_system.
Proof.
  intros Ha Hr. split.
  - exact sample_steady.
  - reflexivity.
  - reflexivity.
  - intros o Ho. vm_compute in Ho. discriminate Ho.
  - vm_compute. discriminate.
  - reflexivity.
  - apply map_empty_subseteq.
  - destruct Ha as [-> | ->], Hr as [-> | ->]; vm_compute; repeat split; repeat constructor; by eexists.
  - destruct Ha as [-> | ->], Hr as [-> | ->]; vm_compute; repeat split; repeat constructor; by eexists.
Qed.

(** The offset after the first run. *)
Lemma first_run_offset :
  match @stream _ _ _ chunk_parse sample_decode [] Resolver.all_events plans_all CatalogEvents.quiet_database
      (fun _ => true) open_sink 0 first_steps sample_system with
  | Ret _ s => Offset_ (Emitter.rc (emitter (sys_pipeline s))) = Some (Offs.mkOffset 0 false false None 0 None 22)
  | _ => False
  end.
Proof. vm_compute. reflexivity. Qed.

