(* ===== verification/EventSettings.v ===== *)
(** * EventSettings: from the configuration to the events of the stream

    newLogicalReplicationResolver of
    internal/replication/logicalreplicationresolver/replicationresolver.go and the
    choice between the resolver and the transaction tracker in factory.go: the settings
    are looked up in the configuration (Configuration.v) and become the flags of the
    resolver (Resolver.v), which decide which events a log becomes (Pipeline.v). *)

From Stdlib Require Import ZArith Lia.
From Stdlib Require Import Strings.Ascii.
From stdpp Require Import base tactics option list numbers strings gmap.
From S2P Require Import Prelude Encoding Entities Values Messages SystemCatalog Resolver Configuration Emitter Pipeline.

Local Open Scope Z_scope.

(** ** The constructors *)

(** The resolver has two more flags, which no method reads. *)
Record resolver_settings : Type := mkSettings {
  flags : Resolver.config;
  genHypertableReadEvent : bool;
  genPostgresqlReadEvent : bool;
}.

Section Settings.
Context (rune_string : Z -> string) (env : Configuration.environment) (cfg : goval).

Definition newLogicalReplicationResolver (isDecompressionMarkingEnabled : bool) : crash + resolver_settings :=
  genHypertableMessageEvent ← get_bool rune_string env cfg PropertyHypertableEventsMessage true;
  genPostgresqlMessageEvent ← get_bool rune_string env cfg PropertyPostgresqlEventsMessage true;
  tombstone ← get_bool rune_string env cfg PropertySinkTombstone false;
  hypertableRead ← get_bool rune_string env cfg PropertyHypertableEventsRead true;
  hypertableInsert ← get_bool rune_string env cfg PropertyHypertableEventsInsert true;
  hypertableUpdate ← get_bool rune_string env cfg PropertyHypertableEventsUpdate true;
  hypertableDelete ← get_bool rune_string env cfg PropertyHypertableEventsDelete true;
  hypertableTruncate ← get_bool rune_string env cfg PropertyHypertableEventsTruncate true;
  hypertableCompression ← get_bool rune_string env cfg PropertyHypertableEventsCompression false;
  hypertableDecompression ← get_bool rune_string env cfg PropertyHypertableEventsDecompression false;
  postgresqlRead ← get_bool rune_string env cfg PropertyPostgresqlEventsRead true;
  postgresqlInsert ← get_bool rune_string env cfg PropertyPostgresqlEventsInsert true;
  postgresqlUpdate ← get_bool rune_string env cfg PropertyPostgresqlEventsUpdate true;
  postgresqlDelete ← get_bool rune_string env cfg PropertyPostgresqlEventsDelete true;
  postgresqlTruncate ← get_bool rune_string env cfg PropertyPostgresqlEventsTruncate true;
  mret (mkSettings
    (Resolver.mkConfig tombstone hypertableInsert hypertableUpdate hypertableDelete hypertableTruncate hypertableCompression
       hypertableDecompression postgresqlInsert postgresqlUpdate postgresqlDelete postgresqlTruncate
       (genHypertableMessageEvent || genPostgresqlMessageEvent) isDecompressionMarkingEnabled)
    hypertableRead postgresqlRead).

(** The handler of the log's messages: the resolver, or the tracker in front of it, with
    the timeout of its window in nanoseconds and the size of the window. *)
Inductive handler : Type :=
| TheResolver (s : resolver_settings)
| TheTracker (timeout maxSize : Z) (s : resolver_settings).

Definition NewResolver (isDecompressionMarkingEnabled : bool) : crash + handler :=
  enabled ← get_bool rune_string env cfg PropertyPostgresqlTxwindowEnabled true;
  timeout ← get_int rune_string env cfg PropertyPostgresqlTxwindowTimeout 60;
  maxSize ← get_site rune_string env cfg (mkSite PropertyPostgresqlTxwindowMaxsize (TInt Uint) (VInt 10000));
  resolver ← newLogicalReplicationResolver isDecompressionMarkingEnabled;
  match maxSize with
  | VInt maxSize =>
      mret (if enabled && (0 <? maxSize) then TheTracker (i64 (timeout * 1000000000)) maxSize resolver else TheResolver resolver)
  | _ => inl PanicTypeAssertion
  end.

(** ** What the file says *)

(** A switch of the file, which may be missing. *)
Definition setting (property : string) (default_value : bool) : bool :=
  match find_path (Config, cfg) (split_at "."%char property) with
  | inr (Some (_, VPtr (Some (VBool b)))) => b
  | _ => default_value
  end.

Context (Hcfg : has_type Config cfg = true).

Lemma get_bool_setting random p d :
  bool_property p d ∈ lookups random -> type_at Config (split_at "."%char p) = Some (TPtr TBool) -> env (envVarName p) = None ->
  get_bool rune_string env cfg p d = inr (setting p d).
Proof.
  intros Hl Ht Henv.
  destruct (get_from_file rune_string random env cfg (bool_property p d) Hl Hcfg) as (t & v & Hpath & Hv & Hget & _).
  { unfold findEnvProperty. cbn [l_property bool_property]. by rewrite Henv. }
  cbn [l_property bool_property] in Hpath.
  destruct (find_path_typed _ _ _ _ Hcfg Ht) as (v' & Hpath' & Hv'). rewrite Hpath in Hpath'. injection Hpath' as -> ->.
  unfold get_bool, lookup_. rewrite Hget. unfold setting. rewrite Hpath.
  destruct v' as [| | |[x|]| | |]; try discriminate Hv'; [|done]. destruct x; try discriminate Hv'. done.
Qed.
End Settings.

(** ** The events of a stream *)

(** Every event of the stream is on, and so are tombstones. *)
Definition everything (marking : bool) : Resolver.config :=
  Resolver.mkConfig true true true true true true true true true true true true marking.

(** The setting for the kind of a table. *)
Definition by_kind (t : table) (hypertables plain_tables : bool) : bool :=
  match t with THyper _ => hypertables | TVanilla _ => plain_tables end.

(** What the settings of the file allow; nothing is set for messages and for the end of a
    transaction. *)
Definition allowed (cfg : goval) (e : record_event) : bool :=
  match e with
  | OnInsert _ t _ _ =>
      by_kind t (setting cfg PropertyHypertableEventsInsert true) (setting cfg PropertyPostgresqlEventsInsert true)
  | OnUpdate _ t _ _ _ =>
      by_kind t (setting cfg PropertyHypertableEventsUpdate true) (setting cfg PropertyPostgresqlEventsUpdate true)
  | OnDelete _ t _ _ tombstone =>
      by_kind t (setting cfg PropertyHypertableEventsDelete true) (setting cfg PropertyPostgresqlEventsDelete true) &&
      (negb tombstone || setting cfg PropertySinkTombstone false)
  | OnTruncate _ t =>
      by_kind t (setting cfg PropertyHypertableEventsTruncate true) (setting cfg PropertyPostgresqlEventsTruncate true)
  | OnRead _ _ _ _ | OnMessage _ _ | OnTransactionFinished _ _ => true
  end.

(** The flags that the settings become. *)
Definition configured (cfg : goval) (marking : bool) : Resolver.config :=
  Resolver.mkConfig (setting cfg PropertySinkTombstone false)
    (setting cfg PropertyHypertableEventsInsert true) (setting cfg PropertyHypertableEventsUpdate true)
    (setting cfg PropertyHypertableEventsDelete true) (setting cfg PropertyHypertableEventsTruncate true)
    (setting cfg PropertyHypertableEventsCompression false) (setting cfg PropertyHypertableEventsDecompression false)
    (setting cfg PropertyPostgresqlEventsInsert true) (setting cfg PropertyPostgresqlEventsUpdate true)
    (setting cfg PropertyPostgresqlEventsDelete true) (setting cfg PropertyPostgresqlEventsTruncate true)
    (setting cfg PropertyHypertableEventsMessage true || setting cfg PropertyPostgresqlEventsMessage true) marking.

Lemma bind_inr {A B} (a : A) (k : A -> crash + B) : (inr a ≫= k) = k a.
Proof. done. Qed.

Lemma resolver_configured rune_string env cfg marking :
  has_type Config cfg = true -> Forall (fun l => env (envVarName (l_property l)) = None) resolver_lookups ->
  newLogicalReplicationResolver rune_string env cfg marking =
    inr (mkSettings (configured cfg marking) (setting cfg PropertyHypertableEventsRead true) (setting cfg PropertyPostgresqlEventsRead true)).
Proof.
  intros Hcfg Henv. rewrite Forall_forall in Henv.
  assert (Hget : forall p d, bool_property p d ∈ resolver_lookups -> type_at Config (split_at "."%char p) = Some (TPtr TBool) ->
    get_bool rune_string env cfg p d = inr (setting cfg p d)).
  { intros p d Hl Ht. apply (get_bool_setting _ _ _ Hcfg ""%string); [|done|exact (Henv _ Hl)].
    unfold lookups. rewrite !elem_of_app. tauto. }
  unfold newLogicalReplicationResolver.
  repeat match goal with
  | |- (get_bool _ _ _ ?p ?d ≫= _) = _ =>
      rewrite (Hget p d); [rewrite bind_inr|apply list_elem_of_In; cbn; tauto|vm_compute; reflexivity]
  end.
  reflexivity.
Qed.

(** *** Filtering *)

Lemma target_by_kind p h rel sc :
  target p h rel sc = (tc ← target true true rel sc; if by_kind (fst tc) h p then Some tc else None).
Proof.
  unfold target. destruct (IsVanillaTable rel).
  - destruct (Catalog.FindVanillaTableById _ _); [|by destruct p]. cbn. by destruct p.
  - destruct (Catalog.FindChunkByName _ _ _) as [c|]; [|by destruct h]. cbn.
    destruct (Catalog.FindHypertableById _ _); [|by destruct h]. cbn. by destruct h.
Qed.

Lemma truncated_by_kind cfg marking rel sc :
  truncated (configured cfg marking) rel sc =
  (t ← truncated (everything marking) rel sc;
   if by_kind t (setting cfg PropertyHypertableEventsTruncate true) (setting cfg PropertyPostgresqlEventsTruncate true)
   then Some t else None).
Proof.
  unfold truncated. destruct (_ || _); [done|]. cbn [configured everything genPostgresqlTruncateEvent genHypertableTruncateEvent].
  rewrite target_by_kind. destruct (target true true rel sc) as [[t c]|]; [|done]. cbn. by destruct (by_kind _ _ _).
Qed.

(** Taking the first of each name and filtering commute, if the filter respects names. *)
Lemma uniqBy_filter {A} (key : A -> string) (P : A -> bool) (l : list A) seen1 seen2 :
  (forall x y, x ∈ l -> y ∈ l -> key x = key y -> P x = P y) ->
  (forall x, x ∈ l -> P x = true -> (key x ∈ seen1 <-> key x ∈ seen2)) ->
  uniqBy key seen1 (List.filter P l) = List.filter P (uniqBy key seen2 l).
Proof.
  revert seen1 seen2. induction l as [|x l IH]; intros seen1 seen2 HP Hseen; [done|].
  assert (forall a b, a ∈ l -> b ∈ l -> key a = key b -> P a = P b) as HP' by (intros; apply HP; [by right|by right|done]).
  cbn [List.filter uniqBy]. destruct (P x) eqn:Hx.
  - cbn [uniqBy]. rewrite (bool_decide_ext (key x ∈ seen1) (key x ∈ seen2)) by (apply Hseen; [by left|done]). case_bool_decide.
    + apply IH; [done|]. intros y Hy. apply Hseen. by right.
    + cbn [List.filter]. rewrite Hx. f_equal. apply IH; [done|]. intros y Hy Hp. rewrite !elem_of_cons.
      rewrite (Hseen y ltac:(by right) Hp). done.
  - case_bool_decide.
    + apply IH; [done|]. intros y Hy. apply Hseen. by right.
    + cbn [List.filter]. rewrite Hx. apply IH; [done|]. intros y Hy Hp. rewrite elem_of_cons.
      rewrite (Hseen y ltac:(by right) Hp). split; [by right|]. intros [He|?]; [|done].
      rewrite (HP x y) in Hx by (by left || by right || done). congruence.
Qed.

Lemma omap_filter {A B} (f g : A -> option B) (P : B -> bool) l :
  (forall a, g a = (b ← f a; if P b then Some b else None)) -> omap g l = List.filter P (omap f l).
Proof.
  intros Hg. induction l as [|a l IH]; [done|]. cbn. rewrite Hg. destruct (f a) as [b|]; cbn; [|done].
  destruct (P b); [by f_equal|done].
Qed.

Lemma filter_map {A B} (f : A -> B) (P : B -> bool) (Q : A -> bool) l :
  (forall a, P (f a) = Q a) -> List.filter P (f <$> l) = f <$> List.filter Q l.
Proof.
  intros H. induction l as [|a l IH]; [done|]. rewrite fmap_cons. cbn [List.filter]. rewrite H.
  destruct (Q a); [rewrite fmap_cons; by f_equal|done].
Qed.

Lemma filter_concat {A} (P : A -> bool) (l : list (list A)) : List.filter P (concat l) = concat (List.filter P <$> l).
Proof. induction l as [|x l IH]; [done|]. cbn. by rewrite List.filter_app, IH. Qed.

Section Events.
Context (rels : gmap Z RelationMessage) (sc : Catalog.systemCatalog).

(** No hypertable has the name of a plain table. *)
Definition kinds_apart : Prop :=
  forall r1 r2 rel1 rel2 t1 t2 c1 c2, rels !! r1 = Some rel1 -> rels !! r2 = Some rel2 ->
    target true true rel1 sc = Some (t1, c1) -> target true true rel2 sc = Some (t2, c2) ->
    table_name t1 = table_name t2 -> forall h p, by_kind t1 h p = by_kind t2 h p.

Lemma truncates_by_kind cfg marking relIds :
  kinds_apart ->
  truncates (configured cfg marking) rels sc relIds =
  List.filter (fun t => by_kind t (setting cfg PropertyHypertableEventsTruncate true) (setting cfg PropertyPostgresqlEventsTruncate true))
    (truncates (everything marking) rels sc relIds).
Proof.
  intros Hk. unfold truncates.
  rewrite (omap_filter (fun r => rel ← rels !! r; truncated (everything marking) rel sc) _
    (fun t => by_kind t (setting cfg PropertyHypertableEventsTruncate true) (setting cfg PropertyPostgresqlEventsTruncate true)) relIds).
  - apply uniqBy_filter; [|done].
    assert (forall x, x ∈ omap (fun r => rel ← rels !! r; truncated (everything marking) rel sc) relIds ->
      exists r rel c, rels !! r = Some rel /\ target true true rel sc = Some (x, c)) as Hin.
    { intros x Hx. apply list_elem_of_omap in Hx as (r & _ & Hr). apply bind_Some in Hr as (rel & Hrel & Ht).
      unfold truncated in Ht. destruct (_ || _); [done|]. apply fmap_Some in Ht as ([t c] & Ht & ->). by exists r, rel, c. }
    intros x y Hx Hy He. destruct (Hin x Hx) as (r1 & rel1 & c1 & H1 & Ht1). destruct (Hin y Hy) as (r2 & rel2 & c2 & H2 & Ht2).
    by apply (Hk r1 r2 rel1 rel2 x y c1 c2).
  - intros r. destruct (rels !! r) as [rel|]; [|done]. cbn. apply truncated_by_kind.
Qed.

Lemma target_of_by_kind p h relId :
  target_of rels sc p h relId = (tc ← target_of rels sc true true relId; if by_kind (fst tc) h p then Some tc else None).
Proof. unfold target_of. destruct (rels !! relId) as [rel|]; [|done]. cbn. apply target_by_kind. Qed.

(** The events of a message are those of a resolver that passes on everything, less
    those that the settings do not allow. *)
Lemma record_events_allowed cfg marking xm :
  kinds_apart ->
  record_events (configured cfg marking) rels sc xm = List.filter (allowed cfg) (record_events (everything marking) rels sc xm).
Proof.
  intros Hk. destruct xm as [xld m]. unfold record_events. destruct m; try done.
  all: cbn [configured everything genPostgresqlInsertEvent genHypertableInsertEvent genPostgresqlUpdateEvent genHypertableUpdateEvent
    genPostgresqlDeleteEvent genHypertableDeleteEvent genDeleteTombstone].
  4: { rewrite truncates_by_kind by done. symmetry. by apply filter_map. }
  all: rewrite target_of_by_kind; destruct (target_of rels sc true true _) as [[t c]|]; [|done]; cbn;
    by destruct (by_kind t _ _).
Qed.
End Events.

(** *** The resolver *)

Section Resolving.
Context (GetOrPlanTupleDecoder : RelationMessage -> option string) `{Database} (enabled : Hypertable -> bool).
Context (rels : gmap Z RelationMessage) (sc : Catalog.systemCatalog).

(** The resolver's methods are called for the messages of the log, one by one. *)
Definition resolve (c : Resolver.config) (log : list (XLogData * Message)) : G Resolver.world unit :=
  forM log (fun xm => Resolver.onMessage c GetOrPlanTupleDecoder enabled (fst xm) (snd xm)).

(** A message that changes neither the relations nor the catalog, about relations that
    the resolver knows. *)
Definition ordinary (R : gmap Z RelationMessage) (m : Message) : Prop :=
  match m with MRelation _ => False | _ => True end /\ plain GetOrPlanTupleDecoder rels sc m /\
  Forall (fun r => is_Some (R !! r)) (needs m).

Lemma resolve_enqueues c R log :
  Forall (fun xm => ordinary R (snd xm)) log ->
  enqueues rels sc R (resolve c log) (concat (record_events c rels sc <$> log)).
Proof.
  induction log as [|[xld m] log IH]; intros Hlog; [apply enqueues_none|].
  apply Forall_cons in Hlog as [(Hno & Hp & Hn) Hlog]. cbn. apply enqueues_app; [|by apply IH]. by apply message_enqueues.
Qed.

Lemma resolve_allowed cfg marking R log :
  kinds_apart rels sc -> Forall (fun xm => ordinary R (snd xm)) log ->
  enqueues rels sc R (resolve (configured cfg marking) log)
    (List.filter (allowed cfg) (concat (record_events (everything marking) rels sc <$> log))).
Proof.
  intros Hk Hlog. rewrite filter_concat, <- list_fmap_compose.
  rewrite <- (list_fmap_ext (record_events (configured cfg marking) rels sc)); [by apply resolve_enqueues|].
  intros i xm _. by apply record_events_allowed.
Qed.
End Resolving.

(** C19. The settings of the configuration decide which changes become events: from a
    configuration that is well-typed and not overridden by the environment the resolver
    is created; and when its methods are called for the messages of any log, the tasks it
    enqueues are exactly those that a resolver with all switches on enqueues for the log,
    less the inserts, updates, deletes and truncates that the file switches off for the
    kind of the table, and less the tombstones unless the file switches them on; a switch
    that is missing is on (a tombstone's is off).  Messages are passed on whatever the
    file says about them.  The messages change neither the relations nor the catalog and
    are about relations that were announced, no snapshot and no shutdown is under way, and
    no hypertable has the name of a plain table. *)
Theorem settings_decide_events rune_string env cfg marking :
  has_type Config cfg = true -> Forall (fun l => env (envVarName (l_property l)) = None) resolver_lookups ->
  exists s, newLogicalReplicationResolver rune_string env cfg marking = inr s /\
    forall GetOrPlanTupleDecoder (db : Database) enabled rels sc (w : Resolver.world) log,
      kinds_apart rels sc -> steady rels sc w ->
      Forall (fun xm => ordinary GetOrPlanTupleDecoder rels sc (relations w) (snd xm)) log ->
      let all := concat (record_events (everything marking) rels sc <$> log) in
      (exists w', resolve GetOrPlanTupleDecoder enabled (everything marking) log w = Ret tt w' /\
         taskQueue w' = (taskQueue w ++ (NotifyRecord <$> all))%list) /\
      (exists w', resolve GetOrPlanTupleDecoder enabled (flags s) log w = Ret tt w' /\
         taskQueue w' = (taskQueue w ++ (NotifyRecord <$> List.filter (allowed cfg) all))%list).
Proof.
  intros Hcfg Henv. eexists. split; [by apply resolver_configured|].
  intros dec db enabled rels sc w log Hk Hw Hlog all. cbn [flags]. split.
  - destruct (resolve_enqueues dec enabled rels sc (everything marking) (relations w) log Hlog w Hw eq_refl)
      as (w' & Hrun & _ & _ & _ & Hq). by exists w'.
  - destruct (resolve_allowed dec enabled rels sc cfg marking (relations w) log Hk Hlog w Hw eq_refl)
      as (w' & Hrun & _ & _ & _ & Hq). by exists w'.
Qed.

(** ** The window *)

(** The size of the window is never 0: a 0 in the file is read as the default. *)
Lemma window_size_positive rune_string env cfg :
  has_type Config cfg = true -> env (envVarName PropertyPostgresqlTxwindowMaxsize) = None ->
  exists maxSize, 0 < maxSize /\
    get_site rune_string env cfg (mkSite PropertyPostgresqlTxwindowMaxsize (TInt Uint) (VInt 10000)) = inr (VInt maxSize).
Proof.
  intros Hcfg Henv.
  destruct (get_from_file rune_string ""%string env cfg (mkSite PropertyPostgresqlTxwindowMaxsize (TInt Uint) (VInt 10000)))
    as (t & v & Hpath & Hv & -> & Hty); [|done| |].
  { unfold lookups, window_lookups. rewrite !elem_of_app. do 9 right. left. by do 2 right; left. }
  { unfold findEnvProperty. cbn [l_property]. by rewrite Henv. }
  assert (type_at Config (split_at "."%char PropertyPostgresqlTxwindowMaxsize) = Some (TInt Uint)) as Ht by (vm_compute; reflexivity).
  destruct (find_path_typed _ _ _ _ Hcfg Ht) as (v' & Hpath' & Hv'). cbn [l_property] in Hpath. rewrite Hpath in Hpath'.
  injection Hpath' as -> ->. destruct v' as [|z| | | | |]; try discriminate Hv'. cbn in Hv'. apply Z.eqb_eq in Hv'.
  cbn [IsZero l_default l_type]. destruct (Z.eqb_spec z 0) as [->|Hz]; [by exists 10000|]. exists z. split.
  - rewrite <- Hv'. pose proof (Z.mod_pos_bound z (2 ^ 64)). unfold wrap_int, u64 in *. lia.
  - change (inr (VInt (wrap_int Uint z)) = (inr (VInt z) : crash + goval)). by rewrite Hv'.
Qed.

(** So only the switch decides whether there is a window. *)
Lemma window_unless_disabled rune_string env cfg marking timeout :
  has_type Config cfg = true ->
  Forall (fun l => env (envVarName (l_property l)) = None) (window_lookups ++ resolver_lookups) ->
  get_int rune_string env cfg PropertyPostgresqlTxwindowTimeout 60 = inr timeout ->
  exists maxSize s, 0 < maxSize /\ newLogicalReplicationResolver rune_string env cfg marking = inr s /\
    NewResolver rune_string env cfg marking =
      inr (if setting cfg PropertyPostgresqlTxwindowEnabled true then TheTracker (i64 (timeout * 1000000000)) maxSize s else TheResolver s).
Proof.
  intros Hcfg Henv Ht. apply Forall_app in Henv as [Hw Hr]. unfold window_lookups in Hw. rewrite !Forall_cons in Hw.
  destruct Hw as (He & _ & Hm & _). destruct (window_size_positive rune_string env cfg Hcfg Hm) as (maxSize & Hpos & Hsize).
  assert (get_bool rune_string env cfg PropertyPostgresqlTxwindowEnabled true = inr (setting cfg PropertyPostgresqlTxwindowEnabled true)) as Hon.
  { apply (get_bool_setting _ _ _ Hcfg ""%string); [|vm_compute; reflexivity|exact He].
    unfold lookups, window_lookups. rewrite !elem_of_app. do 9 right. left. apply list_elem_of_here. }
  pose proof (resolver_configured rune_string env cfg marking Hcfg Hr) as Hres.
  exists maxSize. eexists. split; [exact Hpos|]. split; [exact Hres|].
  unfold NewResolver. rewrite Hon, bind_inr, Ht, bind_inr, Hsize, bind_inr, Hres, bind_inr.
  apply Z.ltb_lt in Hpos. rewrite Hpos, andb_true_r. reflexivity.
Qed.

(** *** A concrete input *)

(** A file that switches off the inserts of hypertables, and nothing else. *)
Definition without_inserts : goval :=
  VStruct [zero_value PostgreSQLConfig; zero_value SinkConfig; zero_value TopicConfig;
    VStruct [zero_value IncludedTablesConfig;
      VStruct [VPtr None; VPtr (Some (VBool false)); VPtr None; VPtr None; VPtr None; VPtr None; VPtr None; VPtr None]];
    zero_value LoggerConfig; zero_value StateStorageConfig; zero_value InternalConfig; VSlice None; zero_value StatsConfig].

Definition sample_log : list (XLogData * Message) :=
  [(entry 1, MInsert 5 ∅); (entry 2, MDelete 5 ∅); (entry 3, MTruncate 1 [5])].

#[local] Existing Instance CatalogEvents.quiet_database.

Lemma sample_world_steady : steady (relations sample_world) (sysCatalog sample_world) sample_world.
Proof. split; try done; first [apply sample_cache_ok | apply sample_catalog_inv]. Qed.

(** The insert is not enqueued, the delete (without a tombstone) and the truncate are. *)
Lemma settings_decide_events_witness :
  exists s, newLogicalReplicationResolver (fun _ => ""%string) (fun _ => None) without_inserts false = inr s /\
    exists w', resolve (fun _ => None) (fun _ => true) (flags s) sample_log sample_world = Ret tt w' /\
      (length (taskQueue w') = length (taskQueue sample_world) + 2)%nat.
Proof.
  destruct (settings_decide_events (fun _ => ""%string) (fun _ => None) without_inserts false) as (s & Hs & Hevents).
  - vm_compute. reflexivity.
  - repeat constructor.
  - exists s. split; [exact Hs|].
    assert (Hk : kinds_apart (relations sample_world) (sysCatalog sample_world)).
    { intros r1 r2 rel1 rel2 t1 t2 c1 c2 H1 H2 Ht1 Ht2 _ h p. cbn in H1, H2.
      apply lookup_singleton_Some in H1 as [_ <-], H2 as [_ <-]. rewrite Ht1 in Ht2. injection Ht2 as <- _. reflexivity. }
    destruct (Hevents (fun _ => None) CatalogEvents.quiet_database (fun _ => true) (relations sample_world)
      (sysCatalog sample_world) sample_world sample_log Hk) as [_ (w' & Hrun & Hq)].
    + exact sample_world_steady.
    + assert (Hin : exists rel, relations sample_world !! 5 = Some rel /\ RelationID rel = 5 /\
        IsHypertableEvent rel = false /\ IsChunkEvent rel = false) by (eexists; split_and!; reflexivity).
      assert (Hknown : Forall (fun r => is_Some (relations sample_world !! r)) [5]) by (constructor; [by eexists|constructor]).
      constructor; [exact (conj I (conj Hin Hknown))|]. constructor; [exact (conj I (conj Hin Hknown))|].
      constructor; [|constructor]. split; [exact I|]. split; [|exact Hknown]. split; [reflexivity|].
      constructor; [eexists; split; reflexivity|constructor].
    + exists w'. split; [exact Hrun|]. rewrite Hq, length_app. vm_compute. reflexivity.
Defined.
