(* ===== verification/CatalogLock.v ===== *)
(** * CatalogLock: the lock of the system catalog

    internal/systemcatalog/systemcatalog.go guards its maps with a sync.RWMutex, and
    several goroutines use it: the dispatcher, which also writes, and at the shutdown
    the goroutine that collects the known tables.  Every method is here the sequence of
    its lock operations and accesses; goroutines are sequences of calls, which
    interleave.

    The mutex is that of Go: a writer that waits keeps new readers out, also one that
    holds the lock for reading already. *)

From Stdlib Require Import ZArith Lia.
From stdpp Require Import base tactics option list numbers relations.
From S2P Require Import Prelude.

(** ** sync.RWMutex *)

(** [Wait] is the second half of [Lock]: the writer has announced itself. *)
Inductive op : Set := RLock | RUnlock | Lock | Wait | Unlock | Access | Change.

(** How many readers hold it, whether a writer is announced, whether one holds it. *)
Record mutex : Set := mkMutex { holders : nat; pending : bool; writing : bool }.

Definition unlocked : mutex := mkMutex 0 false false.

(** An operation: the mutex after it and what remains of it, or nothing if it blocks. *)
Definition advance (m : mutex) (o : op) : option (mutex * list op) :=
  match o with
  | RLock => if pending m then None else Some (mkMutex (S (holders m)) (pending m) (writing m), [])
  | RUnlock => Some (mkMutex (holders m - 1) (pending m) (writing m), [])
  | Lock => if pending m then None else Some (mkMutex (holders m) true (writing m), [Wait])
  | Wait => if Nat.eqb (holders m) 0 then Some (mkMutex (holders m) (pending m) true, []) else None
  | Unlock => Some (mkMutex (holders m) false false, [])
  | Access | Change => Some (m, [])
  end.

(** The mutex, and what the goroutines have still to do. *)
Abbreviation state := (mutex * list (list op))%type.

Definition run_thread (i : nat) (s : state) : option state :=
  match snd s !! i with
  | Some (o :: rest) =>
      match advance (fst s) o with
      | Some (m, r) => Some (m, <[ i := (r ++ rest)%list ]> (snd s))
      | None => None
      end
  | _ => None
  end.

Definition step (s s' : state) : Prop := exists i, run_thread i s = Some s'.

Definition final (s : state) : Prop := Forall (fun t => t = []) (snd s).
Definition stuck (s : state) : Prop := forall s', ~ step s s'.

(** ** The methods *)

(** A lookup by name, by chunk or by compressed hypertable looks into an index, and if
    that has an entry, calls the lookup by id while it holds the lock. *)
Inductive call : Set :=
| FindVanillaTableById | FindHypertableById | FindChunkById
| FindVanillaTableByName (found : bool) | FindHypertableByName (found : bool) | FindChunkByName (found : bool)
| FindHypertableByChunkId (found : bool)
| FindHypertableByCompressedHypertableId (found : bool) | FindCompressedHypertableByHypertableId (found : bool)
| ResolveUncompressedHypertable (known compressed found : bool)
| RegisterVanillaTable | RegisterHypertable | UnregisterHypertable
| RegisterChunk (known : bool) | UnregisterChunk (found : bool)
| nextSnapshotTable
| GetAllVanillaTables | GetAllHypertables
| GetAllChunks (chunks : list (bool * bool * bool)).

Definition find_by_id : list op := [RLock; Access; RUnlock].

Definition find_by_index (found : bool) : list op :=
  ([RLock; Access] ++ (if found then find_by_id else []) ++ [RUnlock])%list.

Definition resolve_uncompressed (known compressed found : bool) : list op :=
  (find_by_id ++ if known && compressed then find_by_index found else [])%list.

Definition change : list op := [Lock; Change; Unlock].

(** The three last methods read the maps without the lock; GetAllChunks resolves the
    hypertable of every chunk in between. *)
Definition ops (c : call) : list op :=
  match c with
  | FindVanillaTableById | FindHypertableById | FindChunkById => find_by_id
  | FindVanillaTableByName found | FindHypertableByName found | FindChunkByName found
  | FindHypertableByChunkId found | FindHypertableByCompressedHypertableId found
  | FindCompressedHypertableByHypertableId found => find_by_index found
  | ResolveUncompressedHypertable known compressed found => resolve_uncompressed known compressed found
  | RegisterVanillaTable | RegisterHypertable | UnregisterHypertable => change
  | RegisterChunk known => (find_by_id ++ if known then change else [])%list
  | UnregisterChunk found => (find_by_index found ++ change)%list
  | nextSnapshotTable => find_by_id
  | GetAllVanillaTables | GetAllHypertables => [Access]
  | GetAllChunks chunks =>
      (Access :: concat ((fun '(known, compressed, found) => resolve_uncompressed known compressed found ++ [Access]) <$> chunks))%list
  end.

Definition goroutine (calls : list call) : list op := concat (ops <$> calls).

(** Calls that hold the lock for reading and ask for it again. *)
Definition nested (c : call) : bool :=
  match c with
  | FindVanillaTableByName found | FindHypertableByName found | FindChunkByName found
  | FindHypertableByChunkId found | FindHypertableByCompressedHypertableId found
  | FindCompressedHypertableByHypertableId found | UnregisterChunk found => found
  | ResolveUncompressedHypertable known compressed found => known && compressed && found
  | GetAllChunks chunks => existsb (fun '(known, compressed, found) => known && compressed && found) chunks
  | _ => false
  end.

(** Calls that read a map without the lock. *)
Definition unguarded (c : call) : bool :=
  match c with GetAllVanillaTables | GetAllHypertables | GetAllChunks _ => true | _ => false end.

(** Calls that change the catalog. *)
Definition changes (c : call) : bool :=
  match c with
  | RegisterVanillaTable | RegisterHypertable | UnregisterHypertable | UnregisterChunk _ => true
  | RegisterChunk known => known
  | _ => false
  end.

(** ** Goroutines without nested sections *)

Inductive phase : Set := Out | Reading | Waiting | Writing.

(** What a goroutine in a phase has still to do. *)
Fixpoint fits (ph : phase) (l : list op) : bool :=
  match ph, l with
  | Out, [] => true
  | Out, RLock :: l => fits Reading l
  | Out, Lock :: l => fits Writing l
  | Reading, Access :: l => fits Reading l
  | Reading, RUnlock :: l => fits Out l
  | Waiting, Wait :: l => fits Writing l
  | Writing, Change :: l | Writing, Access :: l => fits Writing l
  | Writing, Unlock :: l => fits Out l
  | _, _ => false
  end.

Lemma fits_out_app l l' : fits Out l' = true -> forall ph, fits ph l = true -> fits ph (l ++ l') = true.
Proof.
  intros Hl'. induction l as [|o l IH]; intros [] Hf; try done; destruct o; cbn in *; try done; by apply IH.
Qed.

Lemma goroutine_fits calls :
  Forall (fun c => nested c = false /\ unguarded c = false) calls -> fits Out (goroutine calls) = true.
Proof.
  induction 1 as [|c calls [Hn Hu] _ IH]; [done|]. unfold goroutine. cbn [fmap list_fmap concat].
  apply fits_out_app; [exact IH|]. destruct c as [| | |[]|[]|[]|[]|[]|[]|[] [] []| | | |[]|[]| | | |]; done.
Qed.

(** *** The invariant *)

Definition one (a b : phase) : nat :=
  match a, b with
  | Out, Out | Reading, Reading | Waiting, Waiting | Writing, Writing => 1
  | _, _ => 0
  end.

Fixpoint count (ph : phase) (phs : list phase) : nat :=
  match phs with [] => 0 | p :: phs' => one p ph + count ph phs' end.

Lemma phase_count_insert ph phs i a b :
  phs !! i = Some a -> (count ph (<[ i := b ]> phs) + one a ph = count ph phs + one b ph)%nat.
Proof.
  revert i. induction phs as [|p phs IH]; intros [|i] Hi; try done; cbn in Hi.
  - injection Hi as ->. change (one b ph + count ph phs + one a ph = one a ph + count ph phs + one b ph)%nat. lia.
  - specialize (IH i Hi). change (one p ph + count ph (<[ i := b ]> phs) + one a ph = one p ph + count ph phs + one b ph)%nat. lia.
Qed.

Lemma count_pos ph phs i : phs !! i = Some ph -> (0 < count ph phs)%nat.
Proof.
  revert i. induction phs as [|p phs IH]; intros [|i] Hi; try done; cbn in Hi; cbn [count].
  - injection Hi as ->. destruct ph; cbn; lia.
  - specialize (IH i Hi). lia.
Qed.

Lemma count_some ph phs : (0 < count ph phs)%nat -> exists i, phs !! i = Some ph.
Proof.
  induction phs as [|p phs IH]; cbn [count]; [lia|]. intros Hc.
  destruct (decide (one p ph = 0)) as [Hp|Hp].
  - destruct IH as [i Hi]; [lia|]. by exists (S i).
  - exists 0. destruct p, ph; done.
Qed.

Record exclusive (s : state) (phs : list phase) : Prop := {
  ex_fits : Forall2 (fun ph t => fits ph t = true) phs (snd s);
  ex_holders : holders (fst s) = count Reading phs;
  ex_pending : (count Waiting phs + count Writing phs)%nat = if pending (fst s) then 1 else 0;
  ex_writing : count Writing phs = if writing (fst s) then 1 else 0;
  ex_alone : writing (fst s) = true -> holders (fst s) = 0;
}.

(** The phase of a goroutine after its next operation. *)
Definition next_phase (ph : phase) (o : op) : phase :=
  match o with RLock => Reading | Lock => Waiting | Wait => Writing | RUnlock | Unlock => Out | Access | Change => ph end.

Lemma exclusive_step s phs s' : exclusive s phs -> step s s' -> exists phs', exclusive s' phs'.
Proof.
  intros [Hf Hh Hp Hw Ha] [i Hstep]. destruct s as [m ts]. unfold run_thread in Hstep. cbn [fst snd] in *.
  destruct (ts !! i) as [[|o rest]|] eqn:Ht; [done| |done].
  destruct (Forall2_lookup_r _ _ _ _ _ Hf Ht) as (ph & Hph & Hfit).
  destruct (advance m o) as [[m' r]|] eqn:Hadv; [|done]. injection Hstep as <-.
  exists (<[ i := next_phase ph o ]> phs).
  pose proof (phase_count_insert Reading phs i ph (next_phase ph o) Hph) as HR.
  pose proof (phase_count_insert Waiting phs i ph (next_phase ph o) Hph) as HW.
  pose proof (phase_count_insert Writing phs i ph (next_phase ph o) Hph) as HX.
  pose proof (count_pos ph phs i Hph) as Hpos.
  destruct m as [h p w]. cbn [fst snd holders pending writing] in *.
  destruct ph, o; try done; cbn in Hadv, Hfit; cbn [next_phase one] in *;
    destruct p, w; try discriminate; try (destruct h as [|h]; cbn in Hadv); try discriminate; injection Hadv as <- <-;
    (split; cbn [fst snd holders pending writing]; [by apply Forall2_insert|lia|lia|lia|lia]).
Qed.

Lemma exclusive_start ts :
  Forall (fun t => fits Out t = true) ts -> exclusive (unlocked, ts) (replicate (length ts) Out).
Proof.
  intros Hts. assert (forall ph, ph <> Out -> count ph (replicate (length ts) Out) = 0) as Hz.
  { intros ph Hne. clear Hts. induction ts as [|t ts IH]; [done|]. cbn [length replicate count]. rewrite IH. by destruct ph. }
  split; cbn [fst snd unlocked holders pending writing]; rewrite ?Hz by done; try done.
  clear Hz. induction Hts as [|t ts Ht _ IH]; cbn; by constructor.
Qed.

Lemma exclusive_reachable s phs s' : exclusive s phs -> rtc step s s' -> exists phs', exclusive s' phs'.
Proof.
  intros Hex Hr. revert phs Hex. induction Hr as [s|s s1 s' Hs _ IH]; intros phs Hex; [by exists phs|].
  destruct (exclusive_step s phs s1 Hex Hs) as [phs1 H1]. by apply (IH phs1).
Qed.

(** A goroutine that is not blocked can be run. *)
Lemma can_run s i o rest m r :
  snd s !! i = Some (o :: rest) -> advance (fst s) o = Some (m, r) -> exists s', step s s'.
Proof. intros Hi Ha. eexists. exists i. unfold run_thread. by rewrite Hi, Ha. Qed.

Lemma exclusive_progress s phs : exclusive s phs -> stuck s -> final s.
Proof.
  intros [Hf Hh Hp Hw Ha] Hstuck. destruct s as [m ts]. cbn [fst snd] in *.
  assert (Hblocked : forall i ph o rest, phs !! i = Some ph -> ts !! i = Some (o :: rest) -> advance m o = None).
  { intros i ph o rest _ Ht. destruct (advance m o) as [[m' r]|] eqn:E; [|done].
    destruct (can_run (m, ts) i o rest m' r Ht E) as [s' Hs']. by destruct (Hstuck s'). }
  assert (Hfit : forall i ph, phs !! i = Some ph -> exists t, ts !! i = Some t /\ fits ph t = true).
  { intros i ph Hi. destruct (Forall2_lookup_l _ _ _ _ _ Hf Hi) as (t & Ht & Hft). by exists t. }
  assert (HR : count Reading phs = 0).
  { destruct (count Reading phs) eqn:E; [done|]. destruct (count_some Reading phs) as [i Hi]; [lia|].
    destruct (Hfit i _ Hi) as (t & Ht & Hft). destruct t as [|[] t]; try done; by specialize (Hblocked i _ _ _ Hi Ht). }
  assert (HX : count Writing phs = 0).
  { destruct (count Writing phs) eqn:E; [done|]. destruct (count_some Writing phs) as [i Hi]; [lia|].
    destruct (Hfit i _ Hi) as (t & Ht & Hft). destruct t as [|[] t]; try done; by specialize (Hblocked i _ _ _ Hi Ht). }
  assert (HW : count Waiting phs = 0).
  { destruct (count Waiting phs) eqn:E; [done|]. destruct (count_some Waiting phs) as [i Hi]; [lia|].
    destruct (Hfit i _ Hi) as (t & Ht & Hft). destruct t as [|[] t]; try done.
    specialize (Hblocked i _ _ _ Hi Ht). cbn in Hblocked. by rewrite Hh, HR in Hblocked. }
  assert (pending m = false) as Hpend by (destruct (pending m); [lia|done]).
  apply Forall_lookup. intros i t Ht. destruct (Forall2_lookup_r _ _ _ _ _ Hf Ht) as (ph & Hi & Hft).
  destruct t as [|o t]; [done|]. exfalso. specialize (Hblocked i _ _ _ Hi Ht).
  pose proof (count_pos ph phs i Hi) as Hpos.
  destruct ph; [|lia..]. destruct o; cbn in Hft, Hblocked; try done; by rewrite Hpend in Hblocked.
Qed.

(** *** Every run ends *)

Definition op_weight (o : op) : nat := match o with Lock => 2 | _ => 1 end.
Definition thread_weight (t : list op) : nat := list_sum (op_weight <$> t).
Definition weight (s : state) : nat := list_sum (thread_weight <$> snd s).

Lemma list_sum_insert (ts : list (list op)) i t t' :
  ts !! i = Some t ->
  (list_sum (thread_weight <$> <[ i := t' ]> ts) + thread_weight t = list_sum (thread_weight <$> ts) + thread_weight t')%nat.
Proof.
  revert i. induction ts as [|u ts IH]; intros [|i] Hi; try done; cbn in Hi.
  - injection Hi as ->. cbn. lia.
  - specialize (IH i Hi). change (thread_weight u + list_sum (thread_weight <$> <[ i := t' ]> ts) + thread_weight t =
      thread_weight u + list_sum (thread_weight <$> ts) + thread_weight t')%nat. lia.
Qed.

Lemma step_weight s s' : step s s' -> weight s = S (weight s').
Proof.
  intros [i Hstep]. destruct s as [m ts]. unfold run_thread in Hstep. cbn [fst snd] in Hstep.
  destruct (ts !! i) as [[|o rest]|] eqn:Ht; [done| |done].
  destruct (advance m o) as [[m' r]|] eqn:Hadv; [|done]. injection Hstep as <-. unfold weight. cbn [snd].
  pose proof (list_sum_insert ts i (o :: rest) (r ++ rest)%list Ht) as Hsum.
  assert (thread_weight (o :: rest) = S (thread_weight (r ++ rest)))%nat as Hr; [|lia].
  destruct m as [h p w]. destruct o; cbn in Hadv; repeat case_match; simplify_eq; done.
Qed.

Lemma nsteps_weight n s s' : nsteps step n s s' -> weight s = (n + weight s')%nat.
Proof. induction 1 as [|n s s1 s' Hs _ IH]; [done|]. rewrite (step_weight _ _ Hs), IH. done. Qed.

Lemma count_two ph phs i j : i <> j -> phs !! i = Some ph -> phs !! j = Some ph -> (2 <= count ph phs)%nat.
Proof.
  intros Hij Hi Hj. set (other := match ph with Out => Reading | _ => Out end).
  pose proof (phase_count_insert ph phs i ph other Hi) as Hc. pose proof (count_pos ph (<[ i := other ]> phs) j) as Hp.
  rewrite list_lookup_insert_ne in Hp by done. specialize (Hp Hj).
  assert (one ph ph = 1 /\ one other ph = 0)%nat as [E1 E2] by (by destruct ph). lia.
Qed.

(** No goroutine looks at the maps, or changes them, while another one changes them. *)
Definition race_free (s : state) : Prop :=
  forall i j o rest rest', i <> j -> snd s !! i = Some (Change :: rest) -> snd s !! j = Some (o :: rest') ->
    o <> Access /\ o <> Change.

Lemma exclusive_race_free s phs : exclusive s phs -> race_free s.
Proof.
  intros [Hf Hh Hp Hw Ha] i j o rest rest' Hij Hi Hj.
  destruct (Forall2_lookup_r _ _ _ _ _ Hf Hi) as (pi & Hpi & Hfi). destruct (Forall2_lookup_r _ _ _ _ _ Hf Hj) as (pj & Hpj & Hfj).
  assert (pi = Writing) as -> by (by destruct pi). pose proof (count_pos _ _ _ Hpi) as HX.
  assert (writing (fst s) = true) as Hwr by (destruct (writing (fst s)); [done|lia]). specialize (Ha Hwr).
  assert (pj <> Writing) as HnX.
  { intros ->. pose proof (count_two _ _ _ _ Hij Hpi Hpj). rewrite Hwr in Hw. lia. }
  assert (pj <> Reading) as HnR by (intros ->; pose proof (count_pos _ _ _ Hpj); lia).
  destruct pj, o; done.
Qed.

(** C37. As long as no goroutine nests the lock or reads the maps without it, the
    catalog is safe for any number of goroutines: every run of their calls is finite,
    it only stops when all of them have finished, and at no time does one goroutine
    look at the maps or change them while another one changes them. *)
Theorem guarded_calls_finish (threads : list (list call)) n s :
  Forall (Forall (fun c => nested c = false /\ unguarded c = false)) threads ->
  let s0 := (unlocked, goroutine <$> threads) in
  nsteps step n s0 s -> (n <= weight s0)%nat /\ (stuck s -> final s) /\ race_free s.
Proof.
  intros Hcalls s0 Hn. split; [rewrite (nsteps_weight n s0 s Hn); lia|].
  destruct (exclusive_reachable s0 (replicate (length (snd s0)) Out) s) as [phs Hex].
  - apply exclusive_start. cbn [s0 snd]. apply Forall_fmap. eapply Forall_impl; [exact Hcalls|]. apply goroutine_fits.
  - by eapply rtc_nsteps_2.
  - split; [by eapply exclusive_progress|by eapply exclusive_race_free].
Qed.

(** ** Goroutines with nested sections *)

(** The operations of one goroutine, run without a pause; [Lock] is not among them. *)
Fixpoint alone (m : mutex) (l : list op) : option mutex :=
  match l with
  | [] => Some m
  | o :: l' => match advance m o with Some (m', []) => alone m' l' | _ => None end
  end.

Lemma alone_app m l l' : alone m (l ++ l') = (m' ← alone m l; alone m' l').
Proof.
  revert m. induction l as [|o l IH]; intros m; [done|]. cbn. by destruct (advance m o) as [[m' [|]]|].
Qed.

Lemma alone_steps m l m' ts i rest :
  alone m l = Some m' -> ts !! i = Some (l ++ rest)%list -> rtc step (m, ts) (m', <[ i := rest ]> ts).
Proof.
  revert m ts. induction l as [|o l IH]; intros m ts Ha Hi; cbn in Ha.
  - injection Ha as ->. rewrite list_insert_id by done. apply rtc_refl.
  - destruct (advance m o) as [[m1 [|]]|] eqn:E; [|done|done]. eapply rtc_l.
    + exists i. unfold run_thread. cbn [fst snd]. rewrite Hi. cbn [app]. by rewrite E.
    + cbn [app]. rewrite <- (list_insert_insert_eq ts i rest (l ++ rest)%list) at 1. apply IH; [done|].
      apply list_lookup_insert_eq. by eapply lookup_lt_Some.
Qed.

(** Where a nested call asks for the lock again, and where a change asks for it. *)
Definition reads_twice (l : list op) : Prop :=
  exists pre post, l = (pre ++ [RLock; Access] ++ RLock :: post)%list /\ alone unlocked pre = Some unlocked.
Definition locks (l : list op) : Prop :=
  exists pre post, l = (pre ++ Lock :: Change :: post)%list /\ alone unlocked pre = Some unlocked.

Lemma reads_twice_app l l' : alone unlocked l = Some unlocked -> reads_twice l' -> reads_twice (l ++ l').
Proof.
  intros Hl (pre & post & -> & Hpre). exists (l ++ pre)%list, post. rewrite <- app_assoc. split; [done|].
  by rewrite alone_app, Hl.
Qed.

Lemma reads_twice_after l l' : reads_twice l -> reads_twice (l ++ l').
Proof. intros (pre & post & -> & Hpre). exists pre, (post ++ l')%list. split; [|done]. by rewrite <- !app_assoc. Qed.

Lemma resolve_alone a b c : alone unlocked (resolve_uncompressed a b c) = Some unlocked.
Proof. by destruct a, b, c. Qed.

Lemma find_reads_twice : reads_twice (find_by_index true).
Proof. by exists [], [Access; RUnlock; RUnlock]. Qed.

Lemma nested_reads_twice c : nested c = true -> reads_twice (ops c).
Proof.
  destruct c as [| | |[]|[]|[]|[]|[]|[]|[] [] []| | | |[]|[]| | | |chunks]; cbn [nested]; try done; intros Hn;
    try exact find_reads_twice.
  - apply (reads_twice_app find_by_id); [done|apply find_reads_twice].
  - cbn [ops]. apply reads_twice_after, find_reads_twice.
  - cbn [ops]. apply (reads_twice_app [Access]); [done|].
    induction chunks as [|[[a b] c] chunks IH]; [done|]. cbn [fmap list_fmap concat existsb] in *.
    destruct (a && b && c) eqn:E.
    + apply reads_twice_after, reads_twice_after. destruct a, b, c; try done.
      apply (reads_twice_app find_by_id); [done|apply find_reads_twice].
    + apply reads_twice_app; [|by apply IH]. by rewrite alone_app, resolve_alone.
Qed.

Lemma changes_lock d : changes d = true -> locks (ops d).
Proof.
  destruct d as [| | |[]|[]|[]|[]|[]|[]|[] [] []| | | |[]|[]| | | |]; cbn [changes]; try done; intros _;
    first [by exists [], [Unlock] | by exists find_by_id, [Unlock] | by exists (find_by_index true), [Unlock]
          | by exists (find_by_index false), [Unlock]].
Qed.

(** C36. Nested lookups and changes block each other: whenever one goroutine is in a
    call that holds the lock for reading and asks for it again -- a successful lookup
    by name, by chunk or by compressed hypertable, or the list of all chunks if one of
    them is compressed -- and another one changes the catalog, the two can reach a
    state in which neither ever goes on: the writer waits for the reader, and keeps
    it from the lock it asks for. *)
Theorem nested_lookup_deadlock (c d : call) :
  nested c = true -> changes d = true ->
  exists s, rtc step (unlocked, [ops c; ops d]) s /\ stuck s /\ ~ final s.
Proof.
  intros Hc Hd. destruct (nested_reads_twice c Hc) as (pre & post & Ec & Hpre).
  destruct (changes_lock d Hd) as (pre' & post' & Ed & Hpre').
  exists (mkMutex 1 true false, [RLock :: post; Wait :: Change :: post']). split; [|split].
  - etrans; [eapply (alone_steps unlocked pre' unlocked _ 1 (Lock :: Change :: post')); [done|by rewrite Ed]|].
    cbn [insert list_insert]. rewrite Ec, app_assoc.
    eapply rtc_r; [eapply (alone_steps unlocked (pre ++ [RLock; Access]) (mkMutex 1 false false) _ 0 (RLock :: post));
                   [by rewrite alone_app, Hpre|done]|].
    by exists 1.
  - intros s' [[|[|i]] Hi]; done.
  - intros Hf. apply Forall_cons in Hf as [Hf _]. done.
Qed.

(** A list of all tables or chunks is read while the catalog is being changed. *)
Lemma unguarded_race (c d : call) :
  unguarded c = true -> changes d = true ->
  exists s, rtc step (unlocked, [ops c; ops d]) s /\ ~ race_free s.
Proof.
  intros Hc Hd. destruct (changes_lock d Hd) as (pre & post & Ed & Hpre).
  assert (exists l, ops c = Access :: l) as [l El] by (destruct c; try done; by eexists).
  exists (mkMutex 0 true true, [ops c; Change :: post]). split.
  - etrans; [eapply (alone_steps unlocked pre unlocked _ 1 (Lock :: Change :: post)); [done|by rewrite Ed]|].
    eapply rtc_l; [by exists 1|]. eapply rtc_l; [by exists 1|]. apply rtc_refl.
  - intros Hrace. rewrite El in Hrace. by destruct (Hrace 1 0 Access post l) as [Hne _].
Qed.

(** The shutdown collects the known tables while the dispatcher registers a chunk. *)
Lemma nested_lookup_deadlock_witness :
  exists s, rtc step (unlocked, [ops (GetAllChunks [(true, true, true)]); ops (RegisterChunk true)]) s /\ stuck s /\ ~ final s.
Proof. apply (nested_lookup_deadlock (GetAllChunks [(true, true, true)]) (RegisterChunk true)); reflexivity. Defined.

(** The resolver's lookup by id beside the registration of a hypertable. *)
Lemma guarded_calls_finish_witness :
  let s0 := (unlocked, goroutine <$> [[FindChunkById; FindHypertableById]; [RegisterHypertable]]) in
  exists s, nsteps step 2 s0 s /\ race_free s.
Proof.
  cbv zeta. eexists. split.
  - eapply nsteps_l; [exists 0; reflexivity|]. eapply nsteps_l; [exists 1; reflexivity|]. apply nsteps_O.
  - eapply (guarded_calls_finish [[FindChunkById; FindHypertableById]; [RegisterHypertable]] 2).
    + repeat constructor.
    + eapply nsteps_l; [exists 0; reflexivity|]. eapply nsteps_l; [exists 1; reflexivity|]. apply nsteps_O.
Defined.
