(* ===== verification/Services.v ===== *)
(** * Services: the state file and the statistics

    - newFileStateStorage of spi/statestorage/filestatestorage.go: when the storage of
      StateStorage.v is created for a path;
    - internal/stats/stats.go and reporter.go: the statistics service, its HTTP server
      and the collector of runtime metrics. *)

From Stdlib Require Import ZArith Lia.
From stdpp Require Import base tactics option list numbers strings relations.
From S2P Require Import Prelude Configuration.

Local Open Scope Z_scope.

(** ** The state file *)

Module StateFile.

(** What os.Stat says of a path. *)
Inductive stat : Type := IsDirectory | IsFile | NotExist | StatError (e : string).

(** The answers of the file system, in the order of the calls: for the directory, to
    creating it, for the directory again, and for the path. *)
Record files : Type := mkFiles {
  directory : stat;
  MkdirAll : option string;
  directory_again : stat;
  file : stat;
}.

(** The checks behind the first: [fi] is nil if the second call fails. *)
Definition check_directory (path dir : string) (fi : option stat) (f : files) : crash + (string + string) :=
  match fi with
  | None => inl PanicNilDereference
  | Some IsDirectory =>
      match file f with
      | StatError e => inr (inl e)
      | IsDirectory => inr (inl ("path '" ++ path ++ "' exists already but is not a file")%string)
      | IsFile | NotExist => inr (inr path)
      end
  | Some _ =>
      inr (inl ("path '" ++ path ++ "' cannot be created since the parent-path '" ++ dir ++ "' is no directory")%string)
  end.

(** The result is the path of the storage. *)
Definition NewFileStateStorage (logger : option string) (Dir : string -> string) (path : string) (f : files) :
  crash + (string + string) :=
  match logger with
  | Some e => inr (inl e)
  | None =>
      match directory f with
      | NotExist =>
          match MkdirAll f with
          | Some e => inr (inl e)
          | None =>
              match directory_again f with
              | NotExist => inr (inl "file does not exist"%string)
              | StatError _ => check_directory path (Dir path) None f
              | fi => check_directory path (Dir path) (Some fi) f
              end
          end
      | StatError e => inr (inl e)
      | fi => check_directory path (Dir path) (Some fi) f
      end
  end.

Definition newFileStateStorage (rune_string : Z -> string) (env : Configuration.environment) (cfg : goval)
    (logger : option string) (Dir : string -> string) (files_of : string -> files) : crash + (string + string) :=
  path ← get_string rune_string env cfg PropertyFileStateStoragePath "";
  if String.eqb path "" then mret (inl "FileStateStorage needs a path to be configured"%string)
  else NewFileStateStorage logger Dir path (files_of path).

(** The directory is there, or it could be created. *)
Definition directory_ready (f : files) : Prop :=
  directory f = IsDirectory \/ directory f = NotExist /\ MkdirAll f = None /\ directory_again f = IsDirectory.

(** *** When it is created *)

(** The storage is created exactly if the directory is ready and the path names a file
    or nothing; and the one way to crash is a directory that was created and cannot be
    examined then. *)
Theorem storage_created_exactly Dir path f :
  (NewFileStateStorage None Dir path f = inr (inr path) <->
   directory_ready f /\ (file f = IsFile \/ file f = NotExist)) /\
  ((exists c, NewFileStateStorage None Dir path f = inl c) <->
   directory f = NotExist /\ MkdirAll f = None /\ exists e, directory_again f = StatError e).
Proof.
  destruct f as [[| | |e1] [m|] [| | |e2] [| | |e3]]; unfold NewFileStateStorage, check_directory, directory_ready; cbn; naive_solver.
Qed.
End StateFile.

(** ** Statistics *)

Module Statistics.

Record Service : Type := mkService {
  statsEnabled : bool;
  statsPort : Z;
  runtimeMetrics : bool;
}.

(** What runs: the collector, and the server with its goroutine. *)
Inductive server : Type := NotStarted | Starting | Listening | ShutDown.

Record running : Type := mkRunning { collector : bool; http : server; reported : list string }.

(** The collector is started with the service. *)
Definition NewStatsService (rune_string : Z -> string) (env : Configuration.environment) (cfg : goval) :
  crash + (Service * running) :=
  enabled ← get_bool rune_string env cfg PropertyStatsEnabled true;
  port ← get_int rune_string env cfg PropertyStatsPort 8081;
  runtime ← get_bool rune_string env cfg PropertyRuntimeStatsEnabled true;
  mret (mkService enabled port runtime, mkRunning runtime NotStarted []).

Definition Start (s : Service) (r : running) : running :=
  if statsEnabled s then mkRunning (collector r) Starting (reported r) else r.

Definition Stop (s : Service) (r : running) : running :=
  if negb (statsEnabled s) then r
  else mkRunning (if runtimeMetrics s then false else collector r) ShutDown (reported r).

Definition Report (s : Service) (metrics : string) (r : running) : running :=
  if negb (statsEnabled s) then r else mkRunning (collector r) (http r) (reported r ++ [metrics]).

(** The goroutine of the server: listening fails with a panic; a server that was shut
    down ends it without one. *)
Definition serve (listen : Z -> option string) (s : Service) (r : running) : crash + running :=
  match http r with
  | Starting =>
      match listen (statsPort s) with
      | Some _ => inl PanicExplicit
      | None => inr (mkRunning (collector r) Listening (reported r))
      end
  | _ => inr r
  end.

(** A life of the service: reports before and after the server comes up, then the stop. *)
Definition life (listen : Z -> option string) (s : Service) (early late : list string) (r : running) : crash + running :=
  let r := fold_left (fun r m => Report s m r) early (Start s r) in
  r ← serve listen s r;
  mret (Stop s (fold_left (fun r m => Report s m r) late r)).

Lemma report_all s l r :
  fold_left (fun r m => Report s m r) l r =
  if statsEnabled s then mkRunning (collector r) (http r) (reported r ++ l) else r.
Proof.
  revert r. induction l as [|m l IH]; intros r; cbn [fold_left].
  - rewrite app_nil_r. by destruct (statsEnabled s), r.
  - rewrite IH. unfold Report. destruct (statsEnabled s); [|done]. cbn. by rewrite <- app_assoc.
Qed.

(** With statistics every report arrives, and a port that is taken ends the process;
    without them nothing is reported and no server is started, but the collector of
    runtime metrics is started all the same, and never stopped. *)
Theorem statistics_life rune_string env cfg listen s r early late :
  NewStatsService rune_string env cfg = inr (s, r) ->
  life listen s early late r =
  if statsEnabled s then
    match listen (statsPort s) with
    | Some _ => inl PanicExplicit
    | None => inr (mkRunning false ShutDown (early ++ late))
    end
  else inr (mkRunning (runtimeMetrics s) NotStarted []).
Proof.
  unfold NewStatsService. intros H.
  destruct (get_bool _ _ _ PropertyStatsEnabled true) as [|enabled]; [done|]. cbn in H.
  destruct (get_int _ _ _ _ _) as [|port]; [done|]. cbn in H.
  destruct (get_bool _ _ _ PropertyRuntimeStatsEnabled true) as [|runtime]; [done|]. cbn in H. injection H as <- <-.
  unfold life. rewrite report_all. destruct enabled; cbn -[Report fold_left Stop].
  - destruct (listen port); [done|]. cbn -[Report fold_left Stop]. rewrite report_all. unfold Stop. cbn. by destruct runtime.
  - by rewrite report_all.
Qed.
End Statistics.
