(* ===== verification/Selection.v ===== *)
(** * Selection: from the patterns of the configuration to the catalog

    NewSystemCatalog and PostConstruct of internal/systemcatalog/systemcatalog.go: the
    include and exclude patterns of the configuration become the two filters of the
    catalog (TableFilter.v), which decide what the first load registers
    (Initialize.v). *)

From Stdlib Require Import ZArith Lia.
From stdpp Require Import base tactics option list numbers strings gmap.
From S2P Require Import Prelude Encoding Entities SystemCatalog TableFilter SideChannel Initialize.

Local Open Scope Z_scope.

(** IncludedTablesConfig *)
Record IncludedTables : Type := mkIncluded { Excludes : list (list Z); Includes : list (list Z) }.

Section Selection.
Context (U : Unicode).

(** The filters of NewSystemCatalog: of hypertables and of plain tables.  Without an
    include pattern nothing is selected. *)
Definition NewSystemCatalog {W} (hypertables vanilla : IncludedTables) : G W (TableFilter * TableFilter) :=
  hypertableReplicationFilter ← NewTableFilter U (Excludes hypertables) (Includes hypertables) false;
  vanillaReplicationFilter ← NewTableFilter U (Excludes vanilla) (Includes vanilla) false;
  mret (hypertableReplicationFilter, vanillaReplicationFilter).

(** The catalog asks the filters for the hypertable, and for the entity of a table. *)
Definition hypertable_selected (filters : TableFilter * TableFilter) (h : Hypertable) : bool := rule (fst filters) (AHypertable h).
Definition vanilla_selected (filters : TableFilter * TableFilter) (t : PgTable) : bool :=
  rule (snd filters) (AnEntity (BaseTable.entity (Vanilla.table t))).

(** The lists of tables, in the order in which the maps are visited. *)
Definition GetAllVanillaTables (order : gmap Z PgTable -> list PgTable) (sc : Catalog.systemCatalog) : list SystemEntity :=
  (fun t => BaseTable.entity (Vanilla.table t)) <$> order (Catalog.vanillaTables sc).

Definition GetAllHypertables (order : gmap Z Hypertable -> list Hypertable) (sc : Catalog.systemCatalog) : list SystemEntity :=
  (fun h => Hyper.entity h) <$> order (Catalog.hypertables sc).

(** ** Terms *)

(** Patterns that can be read, as pairs of a schema and a table. *)
Record terms : Type := mkTerms { excluded : list (list Z * list Z); included : list (list Z * list Z) }.

Definition readable_terms (ts : terms) : Prop := Forall is_term (excluded ts) /\ Forall is_term (included ts).
Definition tables_of (ts : terms) : IncludedTables := mkIncluded (term <$> excluded ts) (term <$> included ts).

(** What the configuration chooses. *)
Definition chosen (ts : terms) (t : Table) : Prop := selected (included ts) t /\ ~ selected (excluded ts) t.

Lemma filters_choose {W} (w : W) hts vts :
  readable_terms hts -> readable_terms vts ->
  exists filters, NewSystemCatalog (tables_of hts) (tables_of vts) w = Ret filters w /\
    (forall h, hypertable_selected filters h = true <-> chosen hts (AHypertable h)) /\
    (forall t, vanilla_selected filters t = true <-> chosen vts (AnEntity (BaseTable.entity (Vanilla.table t)))).
Proof.
  intros [He Hi] [Hve Hvi]. destruct (new_table_filter_rule U w _ _ false He Hi) as (rf & Hrf & _ & Hrule).
  destruct (new_table_filter_rule U w _ _ false Hve Hvi) as (vf & Hvf & _ & Hvrule).
  exists (rf, vf). split; [|split].
  - unfold NewSystemCatalog, tables_of. cbn [Excludes Includes].
    by rewrite (bind_run _ _ _ _ _ Hrf), (bind_run _ _ _ _ _ Hvf).
  - intros h. unfold hypertable_selected, chosen. cbn [fst]. rewrite Hrule. intuition congruence.
  - intros t. unfold vanilla_selected, chosen. cbn [snd]. rewrite Hvrule. intuition congruence.
Qed.

Section Loaded.
Context {R D : Type} `{Server R D}.

(** C39. The configuration decides what is replicated: for patterns that can be read,
    the catalog is created, and after the first load of a database whose tables can be
    read it holds exactly the hypertables that an include pattern describes and no
    exclude pattern does (a continuous aggregate by the name of its view), with their
    chunks, and exactly the plain tables chosen in the same way, each under its id;
    the connections are closed. *)
Theorem configuration_selects_tables username hts vts hs cs ts d n :
  readable_terms hts -> readable_terms vts ->
  (forall filters, NewSystemCatalog (tables_of hts) (tables_of vts) tt = Ret filters tt ->
     loadable username (hypertable_selected filters) (vanilla_selected filters) hs cs ts) ->
  NoDup (Hyper.id <$> (hypertable_of <$> hs)) -> NoDup (Chnk.id <$> (chunk_of <$> cs)) ->
  NoDup (Vanilla.relId <$> (vanilla_of <$> ts)) ->
  exists filters d' sc, NewSystemCatalog (tables_of hts) (tables_of vts) tt = Ret filters tt /\
    load_catalog username (hypertable_selected filters) (vanilla_selected filters) (mkWorld d n Catalog.NewSystemCatalog)
      = Val tt (mkWorld d' n sc) /\
    (forall i h, Catalog.FindHypertableById i sc = Some h <->
       h ∈ hypertable_of <$> hs /\ chosen hts (AHypertable h) /\ i = Hyper.id h) /\
    (forall i c, Catalog.FindChunkById i sc = Some c <->
       c ∈ chunk_of <$> cs /\ i = Chnk.id c /\
       exists h, h ∈ hypertable_of <$> hs /\ chosen hts (AHypertable h) /\ Hyper.id h = Chnk.hypertableId c) /\
    (forall i t, Catalog.FindVanillaTableById i sc = Some t <->
       t ∈ vanilla_of <$> ts /\ chosen vts (AnEntity (BaseTable.entity (Vanilla.table t))) /\ i = Vanilla.relId t).
Proof.
  intros Hh Hv Hload Hnh Hnc Hnt. destruct (filters_choose tt hts vts Hh Hv) as (filters & Hf & Hch & Hcv).
  destruct (catalog_loaded username (hypertable_selected filters) (vanilla_selected filters) hs cs ts d n (Hload filters Hf) Hnh Hnc Hnt)
    as (d' & sc & Hrun & H1 & H2 & H3).
  exists filters, d', sc. split_and!; [done|done| | |].
  - intros i h. rewrite H1, Hch. done.
  - intros i c. rewrite H2. setoid_rewrite Hch. tauto.
  - intros i t. rewrite H3, Hcv. done.
Qed.
End Loaded.
End Selection.

(** ** Example *)

(** Hypertables of public that begin with m; no plain tables. *)
Definition metrics_only : terms := mkTerms [] [(codes "public", codes "m*")].

Lemma configuration_selects_tables_witness :
  exists filters d' sc, NewSystemCatalog ascii_only (tables_of metrics_only) (tables_of (mkTerms [] [])) tt = Ret filters tt /\
    @load_catalog unit unit catalog_server "repl" (hypertable_selected filters) (vanilla_selected filters)
      (mkWorld tt 0 Catalog.NewSystemCatalog) = Val tt (mkWorld d' 0 sc) /\
    Catalog.FindVanillaTableById 30 sc = None.
Proof.
  destruct (@configuration_selects_tables ascii_only unit unit catalog_server "repl" metrics_only (mkTerms [] []) [metrics_row; logs_row]
    chunk_rows [(30, "public", "users", "d")%string] tt 0) as (filters & d' & sc & Hf & Hrun & _ & _ & Ht).
  - split; [constructor|]. constructor; [|constructor]. split; apply is_pattern_check; vm_compute; reflexivity.
  - split; constructor.
  - intros filters _. split; try (intros []; by exists tt); repeat constructor; try discriminate; intros _ []; by exists tt.
  - apply (bool_decide_unpack _). vm_compute. exact I.
  - apply (bool_decide_unpack _). vm_compute. exact I.
  - apply (bool_decide_unpack _). vm_compute. exact I.
  - exists filters, d', sc. split; [exact Hf|]. split; [exact Hrun|].
    destruct (Catalog.FindVanillaTableById 30 sc) as [t|] eqn:E; [|reflexivity].
    apply Ht in E as (_ & [(p & q & s & e & Hin & _) _] & _). by apply not_elem_of_nil in Hin.
Defined.
