(* ===== verification/TestHarness.v ===== *)
(** * TestHarness: the support of the integration tests

    testsupport (sinks.go, model.go, testing.go), testsupport/testrunner/runner.go and
    tests/integration/support.go: what the tests rely on when they say that the streamer
    works.

    - [Collector]: the sink that keeps what it is sent, with its filter and hooks.
    - [Tables]: the statements that create the tables of a test.
    - [Runner]: the life of a test: setup, streamer, test, tear-down.
    - [KafkaConsumer]: the consumer of the Kafka test.

    The database, the streamer and the containers are arguments; the containers
    themselves (testsupport/containers) are calls of a library and left out. *)

From Stdlib Require Import ZArith Lia.
From stdpp Require Import base tactics option list numbers strings pretty gmap.
From S2P Require Import Prelude Encoding Entities Converters Versions.

Local Open Scope Z_scope.

Module Collector.
Section Collector.
(** Structs, decoded envelopes (with the struct they come from), times, and what the
    hooks of a test change. *)
Context {Struct Env Time H : Type}.
(** The encoder and the decoder of JSON, and the field Raw. *)
Context (Marshal : Struct -> string + bytes) (Unmarshal : bytes -> string + Env) (with_raw : Struct -> Env -> Env).

Record CollectedEvent : Type := mkCollected { Timestamp : Time; TopicName : string; Envelope : Env }.

Record collected : Type := mkState {
  keys : list Struct;
  events : list CollectedEvent;
  hooked : H;
}.

Record EventCollectorSink : Type := mkSink {
  filter_ : option (Time -> string -> Env -> bool);
  preHook : option (collected -> collected);
  postHook : option (Env -> collected -> collected);
}.

Inductive option_ : Type :=
| WithFilter (f : Time -> string -> Env -> bool)
| WithPreHook (f : collected -> collected)
| WithPostHook (f : Env -> collected -> collected).

Definition apply_option (s : EventCollectorSink) (o : option_) : EventCollectorSink :=
  match o with
  | WithFilter f => mkSink (Some f) (preHook s) (postHook s)
  | WithPreHook f => mkSink (filter_ s) (Some f) (postHook s)
  | WithPostHook f => mkSink (filter_ s) (preHook s) (Some f)
  end.

Definition NewEventCollectorSink (options : list option_) (h : H) : EventCollectorSink * collected :=
  (fold_left apply_option options (mkSink None None None), mkState [] [] h).

Definition Events (s : collected) : list CollectedEvent := events s.
Definition Clear (s : collected) : collected := mkState [] [] (hooked s).
Definition NumOfEvents (s : collected) : Z := Z.of_nat (length (events s)).

Definition Emit (sink : EventCollectorSink) (timestamp : Time) (topicName : string) (key envelope : Struct) : G collected unit :=
  modify (default (fun s => s) (preHook sink)) ;;
  match Marshal envelope with
  | inl e => fail e
  | inr d =>
      match Unmarshal d with
      | inl e => fail e
      | inr eventEnvelope =>
          if match filter_ sink with Some f => f timestamp topicName eventEnvelope | None => true end then
            let eventEnvelope := with_raw envelope eventEnvelope in
            modify (fun s => mkState (keys s ++ [key]) (events s ++ [mkCollected timestamp topicName eventEnvelope]) (hooked s)) ;;
            modify (match postHook sink with Some f => f eventEnvelope | None => fun s => s end)
          else mret tt
      end
  end.

(** ** Properties *)

Record emission : Type := mkEmission { e_time : Time; e_topic : string; e_key : Struct; e_envelope : Struct }.

(** What should be kept of an emission. *)
Definition kept (sink : EventCollectorSink) (e : emission) : option (Struct * CollectedEvent) :=
  match Marshal (e_envelope e) with
  | inl _ => None
  | inr d =>
      match Unmarshal d with
      | inl _ => None
      | inr env =>
          if match filter_ sink with Some f => f (e_time e) (e_topic e) env | None => true end
          then Some (e_key e, mkCollected (e_time e) (e_topic e) (with_raw (e_envelope e) env)) else None
      end
  end.

(** A hook that leaves the sink alone. *)
Definition keeps (f : collected -> collected) : Prop := forall s, keys (f s) = keys s /\ events (f s) = events s.
Definition quiet (sink : EventCollectorSink) : Prop :=
  (forall f, preHook sink = Some f -> keeps f) /\ (forall f env, postHook sink = Some f -> keeps (f env)).

Definition emit_all (sink : EventCollectorSink) (l : list emission) : G collected unit :=
  forM l (fun e => catch (Emit sink (e_time e) (e_topic e) (e_key e) (e_envelope e)) ;; mret tt).

Lemma emit_keeps sink e s :
  quiet sink ->
  exists s', (catch (Emit sink (e_time e) (e_topic e) (e_key e) (e_envelope e)) ;; mret tt) s = Ret tt s' /\
    keys s' = keys s ++ (fst <$> option_list (kept sink e)) /\ events s' = events s ++ (snd <$> option_list (kept sink e)).
Proof.
  intros [Hpre Hpost]. set (s1 := default (fun s => s) (preHook sink) s).
  assert (keys s1 = keys s /\ events s1 = events s) as [Hk He].
  { unfold s1. destruct (preHook sink) as [f|]; [by apply Hpre|done]. }
  unfold Emit, kept. go_unfold. fold s1.
  destruct (Marshal (e_envelope e)) as [x|d]; [exists s1; cbn; by rewrite !app_nil_r|].
  destruct (Unmarshal d) as [x|env]; [exists s1; cbn; by rewrite !app_nil_r|].
  destruct (match filter_ sink with Some f => _ | None => true end); [|exists s1; cbn; by rewrite !app_nil_r].
  eexists. split; [reflexivity|]. destruct (postHook sink) as [f|] eqn:Hf.
  - destruct (Hpost f (with_raw (e_envelope e) env) eq_refl (mkState (keys s1 ++ [e_key e])
      (events s1 ++ [mkCollected (e_time e) (e_topic e) (with_raw (e_envelope e) env)]) (hooked s1))) as [-> ->].
    cbn. by rewrite Hk, He.
  - cbn. by rewrite Hk, He.
Qed.

(** The sink keeps what it should, in the order of the emissions, each event with its
    key. *)
Lemma collected_exactly sink l s :
  quiet sink ->
  exists s', emit_all sink l s = Ret tt s' /\
    keys s' = keys s ++ (fst <$> omap (kept sink) l) /\ events s' = events s ++ (snd <$> omap (kept sink) l).
Proof.
  intros Hq. revert s. induction l as [|e l IH]; intros s.
  - exists s. cbn. by rewrite !app_nil_r.
  - destruct (emit_keeps sink e s Hq) as (s1 & Hrun & Hk & He). destruct (IH s1) as (s' & Hrun' & Hk' & He').
    exists s'. unfold emit_all in *. cbn [forM]. rewrite (bind_run _ _ _ _ _ Hrun). split; [done|].
    rewrite Hk', He', Hk, He, <- !app_assoc. cbn [omap list_omap]. by destruct (kept sink e).
Qed.
End Collector.
End Collector.

Module Tables.

Definition DatabaseSchema : string := "tsdb".

Record Column : Type := NewColumn {
  name : string; pgType : string; nullable : bool; primaryKey : bool; defaultValue : option string;
}.

(** GetField: the first field of the name. *)
Definition GetField {F} (field : F -> string) (name : string) (fields : list F) : option F :=
  List.find (fun f => String.eqb (field f) name) fields.

Definition toDefinition (column : Column) (compositePrimaryKey : bool) : string :=
  (name column ++ " " ++ pgType column ++ (if nullable column then "" else " NOT NULL") ++
   match defaultValue column with Some d => " DEFAULT '" ++ d ++ "'" | None => "" end ++
   (if primaryKey column && negb compositePrimaryKey then " PRIMARY KEY" else ""))%string.

Definition quoted (s : string) : string := String (Ascii.ascii_of_nat 34) (s ++ String (Ascii.ascii_of_nat 34) "").

(** Both functions build the same statement, one with lo.Map and one with a loop. *)
Definition key_columns (columns : list Column) : list Column := List.filter primaryKey columns.
Definition primaryKeyConstraint (columns : list Column) : string :=
  let compositePrimaryKey := key_columns columns in
  if (1 <? length compositePrimaryKey)%nat
  then (", PRIMARY KEY (" ++ Converters.join "," (name <$> compositePrimaryKey) ++ ")")%string else ""%string.

Definition create_table (tableName : string) (columns : list Column) : string :=
  ("CREATE TABLE " ++ quoted DatabaseSchema ++ "." ++ quoted tableName ++ " (" ++
   Converters.join ", " ((fun column => toDefinition column (1 <? length (key_columns columns))%nat) <$> columns) ++
   primaryKeyConstraint columns ++ ")")%string.

Definition create_hypertable (tableName timeDimension : string) (chunkSize_seconds : Z) : string :=
  ("SELECT create_hypertable('" ++ DatabaseSchema ++ "." ++ tableName ++ "', '" ++ timeDimension ++
   "', chunk_time_interval := interval '" ++ pretty chunkSize_seconds ++ " seconds')")%string.

(** The pool of connections: the statements of a transaction that was committed. *)
Record database : Type := mkDatabase { committed : list string; pending : option (list string) }.

Section Database.
(** Whether a transaction can be begun, and whether a statement succeeds. *)
Context (begins : database -> option string) (succeeds : string -> database -> option string).

Definition Begin : G database unit := fun d =>
  match begins d with Some e => Err e d | None => Ret tt (mkDatabase (committed d) (Some [])) end.
Definition Exec (sql : string) : G database unit := fun d =>
  match succeeds sql d with
  | Some e => Err e d
  | None => Ret tt (mkDatabase (committed d) ((fun l => l ++ [sql]) <$> pending d))
  end.
Definition Rollback : G database unit := modify (fun d => mkDatabase (committed d) None).
Definition Commit : G database unit := modify (fun d => mkDatabase (committed d ++ default [] (pending d)) None).

(** A transaction that could not be begun is nil, and is rolled back all the same. *)
Definition in_transaction (statements : list string) (result : string * string) : G database (string * string) :=
  r ← catch Begin;
  match r with
  | inl _ => panic PanicNilDereference
  | inr _ =>
      r ← catch (forM statements Exec);
      match r with
      | inl e => Rollback ;; fail e
      | inr _ => Commit ;; mret result
      end
  end.

Definition CreateHypertable (tableName timeDimension : string) (chunkSize_seconds : Z) (columns : list Column) :
    G database (string * string) :=
  in_transaction [create_table tableName columns; create_hypertable tableName timeDimension chunkSize_seconds]
    (DatabaseSchema, tableName).

Definition CreateVanillaTable (tableName : string) (columns : list Column) : G database (string * string) :=
  in_transaction [create_table tableName columns] (DatabaseSchema, tableName).

Lemma exec_all l d p :
  pending d = Some p -> (exists d', forM l Exec d = Ret tt d' /\ committed d' = committed d /\ pending d' = Some (p ++ l)) \/
  (exists e d', forM l Exec d = Err e d' /\ committed d' = committed d).
Proof.
  revert d p. induction l as [|sql l IH]; intros d p Hp; cbn [forM].
  - left. exists d. by rewrite app_nil_r.
  - unfold mbind, G_bind.
    destruct (succeeds sql d) as [e|] eqn:E; [right; exists e, d; unfold Exec; by rewrite E|].
    assert (Exec sql d = Ret tt (mkDatabase (committed d) ((fun l => l ++ [sql]) <$> pending d))) as -> by (unfold Exec; by rewrite E).
    destruct (IH (mkDatabase (committed d) ((fun l => l ++ [sql]) <$> pending d)) (p ++ [sql])) as [(d' & Hr & Hc & Hpd)|(e & d' & Hr & Hc)].
    + by rewrite Hp.
    + left. exists d'. rewrite Hpd, <- app_assoc. done.
    + right. by exists e, d'.
Qed.

(** A table is created completely, or not at all with an error; if no transaction can be
    begun the test panics. *)
Lemma table_created_or_not statements result d :
  (begins d = None ->
    (in_transaction statements result d = Ret result (mkDatabase (committed d ++ statements) None)) \/
    (exists e d', in_transaction statements result d = Err e d' /\ committed d' = committed d /\ pending d' = None)) /\
  (forall e, begins d = Some e -> in_transaction statements result d = Crash PanicNilDereference).
Proof.
  split.
  - intros Hb. unfold in_transaction, Begin, catch, mbind, G_bind. rewrite Hb.
    destruct (exec_all statements (mkDatabase (committed d) (Some [])) [] eq_refl) as [(d' & -> & Hc & Hp)|(e & d' & -> & Hc)].
    + left. unfold Commit, modify. cbn in *. by rewrite Hc, Hp.
    + right. exists e. eexists. split; [reflexivity|]. cbn in *. by rewrite Hc.
  - intros e Hb. unfold in_transaction, Begin, catch, mbind, G_bind. by rewrite Hb.
Qed.
End Database.

(** A table gets one primary key: none without key columns, at the column if there is
    one, and in a constraint of its own if there are several. *)
Lemma one_primary_key columns :
  let inline := List.filter (fun c => primaryKey c && negb (1 <? length (key_columns columns))%nat) columns in
  (length inline + (if String.eqb (primaryKeyConstraint columns) "" then 0 else 1) =
   if (length (key_columns columns) =? 0)%nat then 0 else 1)%nat.
Proof.
  intros inline. unfold inline, primaryKeyConstraint. destruct (Nat.ltb_spec 1 (length (key_columns columns))) as [Hlt|Hle].
  - rewrite (List.filter_ext _ (fun _ => false)), List.filter_false by (intros c; apply andb_false_r).
    destruct (Nat.eqb_spec (length (key_columns columns)) 0); [lia|done].
  - rewrite (List.filter_ext _ primaryKey) by (intros c; apply andb_true_r). cbn. fold (key_columns columns).
    destruct (Nat.eqb_spec (length (key_columns columns)) 0); lia.
Qed.
End Tables.

Module Runner.

(** An error of a setup function: one that skips the test, or any other. *)
Inductive setup_error : Type := SkipTest (msg : string) | OtherError (msg : string).

Inductive verdict : Type := Passed | SkippedTest (msg : string) | FailedTest (msgs : list string).

Section Runner.
(** What the streamer and the tests change; the system configuration. *)
Context {W SC : Type}.

(** The context of a test.  [active] counts the starts of the streamer that were not
    followed by a stop, [pools] the pools of connections that are open. *)
Record testContext : Type := mkContext {
  streamerRunning : bool;
  hypertables : list string;
  vanillaTables : list string;
  attributes : gmap string string;
  systemConfigConfigurators : list (SC -> SC);
  active : Z;
  pools : Z;
  outside : W;
}.

Definition set_running (b : bool) (s : testContext) : testContext :=
  mkContext b (hypertables s) (vanillaTables s) (attributes s) (systemConfigConfigurators s) (active s) (pools s) (outside s).
Definition set_active (n : Z) (w : W) (s : testContext) : testContext :=
  mkContext (streamerRunning s) (hypertables s) (vanillaTables s) (attributes s) (systemConfigConfigurators s) n (pools s) w.
Definition set_pools (n : Z) (w : W) (s : testContext) : testContext :=
  mkContext (streamerRunning s) (hypertables s) (vanillaTables s) (attributes s) (systemConfigConfigurators s) (active s) n w.
Definition set_tables (h v : list string) (s : testContext) : testContext :=
  mkContext (streamerRunning s) h v (attributes s) (systemConfigConfigurators s) (active s) (pools s) (outside s).
Definition set_attributes (m : gmap string string) (s : testContext) : testContext :=
  mkContext (streamerRunning s) (hypertables s) (vanillaTables s) m (systemConfigConfigurators s) (active s) (pools s) (outside s).
Definition set_configurators (l : list (SC -> SC)) (s : testContext) : testContext :=
  mkContext (streamerRunning s) (hypertables s) (vanillaTables s) (attributes s) l (active s) (pools s) (outside s).

(** The streamer, the pools, the tables and the version of the server. *)
Context (Start Stop NewWithConfig : W -> option string * W) (NewStreamer : SC -> W -> option string * W).
Context (create_table : bool -> W -> (string + (string * string)) * W).
Context (SERVER_VERSION extversion : W -> string + string).
Context (NewSystemConfig : list string -> list string -> SC).

(** ** The context *)

Definition streamer_Start : G testContext unit := fun s =>
  let '(e, w) := Start (outside s) in
  match e with Some e => Err e (set_active (active s + 1) w s) | None => Ret tt (set_active (active s + 1) w s) end.

Definition streamer_Stop : G testContext unit := fun s =>
  let '(e, w) := Stop (outside s) in
  match e with Some e => Err e (set_active (active s) w s) | None => Ret tt (set_active (active s - 1) w s) end.

Definition PauseReplicator : G testContext unit :=
  s ← get;
  if negb (streamerRunning s) then mret tt
  else streamer_Stop ;; modify (set_running false).

(** An error of the stop after a failed start is logged. *)
Definition ResumeReplicator : G testContext unit :=
  s ← get;
  if streamerRunning s then mret tt
  else
    r ← catch streamer_Start;
    match r with
    | inl e => catch streamer_Stop ;; fail e
    | inr _ => modify (set_running true)
    end.

Definition PostgresqlVersion : G testContext Z :=
  s ← get;
  match SERVER_VERSION (outside s) with
  | inl _ => panic PanicExplicit
  | inr v => match Versions.ParsePostgresVersion v with inl _ => panic PanicExplicit | inr pv => mret pv end
  end.

Definition TimescaleVersion : G testContext Z :=
  s ← get;
  match extversion (outside s) with
  | inl _ => panic PanicExplicit
  | inr v => match Versions.ParseTimescaleVersion v with inl _ => panic PanicExplicit | inr tsv => mret tsv end
  end.

Definition new_pool : G testContext unit := fun s =>
  let '(e, w) := NewWithConfig (outside s) in
  match e with Some e => Err e (set_pools (pools s) w s) | None => Ret tt (set_pools (pools s + 1) w s) end.

Definition pool_Close : G testContext unit := modify (fun s => set_pools (pools s - 1) (outside s) s).

(** Nothing closes the pool. *)
Definition PrivilegedContext (fn : G testContext unit) : G testContext unit := new_pool ;; fn.

Definition create (hyper : bool) : G testContext (string * string) := fun s =>
  let '(r, w) := create_table hyper (outside s) in
  let s := set_pools (pools s) w s in
  match r with
  | inl e => Err e s
  | inr (schemaName, tableName) =>
      let key := MakeRelationKey schemaName tableName in
      Ret (schemaName, tableName)
        (if hyper then set_tables (hypertables s ++ [key]) (vanillaTables s) s else set_tables (hypertables s) (vanillaTables s ++ [key]) s)
  end.

Definition CreateHypertable : G testContext (string * string) := create true.
Definition CreateVanillaTable : G testContext (string * string) := create false.

Definition AddSystemConfigConfigurator (fn : SC -> SC) : G testContext unit :=
  modify (fun s => set_configurators (systemConfigConfigurators s ++ [fn]) s).

Definition attribute (key value : string) : G testContext unit := modify (fun s => set_attributes (<[ key := value ]> (attributes s)) s).
Definition getAttribute (key : string) : G testContext (option string) := gets (fun s => attributes s !! key).

(** ** The configuration of a test *)

Inductive testConfigurator : Type :=
| WithPostgresVersionCheck (version : Z)
| WithTimescaleVersionCheck (version : Z)
| WithSetup (fn : G testContext (option setup_error))
| WithTearDown (fn : G testContext unit).

(** The setup functions; both checks have the same message. *)
Definition check_version (read : G testContext Z) (show : Z -> string) (version : Z) : G testContext (option setup_error) :=
  v ← read;
  mret (if v <? version
        then Some (SkipTest ("Skipped test, because of PostgreSQL version <" ++ show version ++ " (" ++ show v ++ ")")%string)
        else None).

Definition setup_of (c : testConfigurator) : list (G testContext (option setup_error)) :=
  match c with
  | WithPostgresVersionCheck version => [check_version PostgresqlVersion Versions.PgString version]
  | WithTimescaleVersionCheck version => [check_version TimescaleVersion Versions.TsString version]
  | WithSetup fn => [fn]
  | WithTearDown _ => []
  end.

Definition tearDown_of (c : testConfigurator) : list (G testContext unit) :=
  match c with WithTearDown fn => [fn] | _ => [] end.

(** ** A test *)

Fixpoint run_setup (l : list (G testContext (option setup_error))) : G testContext (option setup_error) :=
  match l with
  | [] => mret None
  | fn :: l => r ← fn; match r with Some e => mret (Some e) | None => run_setup l end
  end.

(** The deferred function: an error of a tear-down function ends it. *)
Fixpoint tear_down (l : list (G testContext unit)) : G testContext (option string) :=
  match l with
  | [] =>
      r ← catch PauseReplicator;
      mret (match r with inl e => Some ("failed to stop streamer: " ++ e)%string | inr _ => None end)
  | fn :: l =>
      r ← catch fn;
      match r with inl e => mret (Some ("failed to tear down test: " ++ e)%string) | inr _ => tear_down l end
  end.

Definition verdict_of (msgs : list (option string)) : verdict :=
  match omap (fun m => m) msgs with [] => Passed | l => FailedTest l end.

Definition with_streamer (testFn : G testContext unit) (tearDowns : list (G testContext unit)) : G testContext verdict :=
  s ← get;
  let systemConfig := fold_left (fun c f => f c) (systemConfigConfigurators s) (NewSystemConfig (vanillaTables s) (hypertables s)) in
  let '(e, w) := NewStreamer systemConfig (outside s) in
  put (set_active (active s) w s) ;;
  match e with
  | Some e => mret (FailedTest [("failed to create streamer: " ++ e)%string])
  | None =>
      r ← catch ResumeReplicator;
      match r with
      | inl e => mret (FailedTest [("failed to start streamer: " ++ e)%string])
      | inr _ =>
          r ← catch testFn;
          d ← tear_down tearDowns;
          mret (verdict_of [match r with inl e => Some ("failure in test: " ++ e)%string | inr _ => None end; d])
      end
  end.

(** The context of a new test. *)
Definition fresh (s : testContext) : testContext := mkContext false [] [] ∅ [] (active s) (pools s) (outside s).

Definition RunTest (testFn : G testContext unit) (configurators : list testConfigurator) : G testContext verdict :=
  r ← catch new_pool;
  match r with
  | inl e => mret (FailedTest [("failed to create connection pool: " ++ e)%string])
  | inr _ =>
      modify fresh ;;
      r ← run_setup (concat (setup_of <$> configurators));
      v ← match r with
          | Some (SkipTest msg) => mret (SkippedTest msg)
          | Some (OtherError msg) => mret (FailedTest [("failed to setup test: " ++ msg)%string])
          | None => with_streamer testFn (concat (tearDown_of <$> configurators))
          end;
      pool_Close ;;
      mret v
  end.

(** ** Properties *)

(** The streamer runs exactly if the context says so. *)
Definition consistent (s : testContext) : Prop := active s = if streamerRunning s then 1 else 0.

(** A function of a test that does not panic, keeps the context consistent and leaves no
    pool open. *)
Class Behaved {A} (m : G testContext A) : Prop :=
  behaved : forall s, consistent s ->
    match m s with Ret _ s' | Err _ s' => consistent s' /\ pools s' = pools s | Crash _ => False end.

#[export] Instance behaved_ret A (a : A) : Behaved (mret a).
Proof. intros s Hs. by split. Qed.
#[export] Instance behaved_fail A e : Behaved (A := A) (fail e).
Proof. intros s Hs. by split. Qed.
#[export] Instance behaved_bind A B (m : G testContext A) (k : A -> G testContext B) :
  Behaved m -> (forall a, Behaved (k a)) -> Behaved (m ≫= k).
Proof.
  intros Hm Hk s Hs. unfold mbind, G_bind. pose proof (Hm s Hs) as H. destruct (m s) as [a s1|e s1|c]; [|done|done].
  destruct H as [H1 Hp]. pose proof (Hk a s1 H1) as H2. destruct (k a s1); [| |done]; destruct H2; split; [done|congruence|done|congruence].
Qed.
#[export] Instance behaved_catch A (m : G testContext A) : Behaved m -> Behaved (catch m).
Proof. intros Hm s Hs. unfold catch. pose proof (Hm s Hs) as H. by destruct (m s). Qed.
#[export] Instance behaved_get : Behaved get.
Proof. intros s Hs. by split. Qed.
#[export] Instance behaved_add fn : Behaved (AddSystemConfigConfigurator fn).
Proof. intros s Hs. by split. Qed.
#[export] Instance behaved_attribute k v : Behaved (attribute k v).
Proof. intros s Hs. by split. Qed.
#[export] Instance behaved_create h : Behaved (create h).
Proof.
  intros s Hs. unfold create. destruct (create_table h (outside s)) as [[e|[sn tn]] w]; [by split|]. by destruct h.
Qed.

(** The pool of a privileged context is never closed. *)
Lemma privileged_context_leaks fn s :
  Behaved fn -> consistent s -> (forall w, fst (NewWithConfig w) = None) ->
  match PrivilegedContext fn s with Ret _ s' | Err _ s' => pools s' = pools s + 1 | Crash _ => False end.
Proof.
  intros Hfn Hs Hnew. unfold PrivilegedContext, new_pool, mbind, G_bind. pose proof (Hnew (outside s)) as Hn.
  destruct (NewWithConfig (outside s)) as [e w]. cbn in Hn. subst e.
  pose proof (Hfn (set_pools (pools s + 1) w s) Hs) as H. by destruct (fn _); destruct H.
Qed.

(** Pausing and resuming are safe if the streamer can always be stopped. *)
Context (Hstop : forall w, fst (Stop w) = None).

Lemma streamer_stop_runs s : exists w, streamer_Stop s = Ret tt (set_active (active s - 1) w s).
Proof.
  unfold streamer_Stop. pose proof (Hstop (outside s)) as H. destruct (Stop (outside s)) as [e w]. cbn in H. subst e. by exists w.
Qed.

#[export] Instance behaved_pause : Behaved PauseReplicator.
Proof.
  intros s Hs. unfold PauseReplicator. rewrite (bind_run get _ _ _ _ eq_refl). unfold consistent in *.
  destruct (streamerRunning s) eqn:Hr; cbn [negb].
  - destruct (streamer_stop_runs s) as [w Hw]. rewrite (bind_run _ _ _ _ _ Hw). cbn. lia.
  - cbn. rewrite Hr. lia.
Qed.

#[export] Instance behaved_resume : Behaved ResumeReplicator.
Proof.
  intros s Hs. unfold ResumeReplicator. rewrite (bind_run get _ _ _ _ eq_refl). unfold consistent in *.
  destruct (streamerRunning s) eqn:Hr; [cbn; rewrite Hr; lia|].
  unfold mbind at 1, G_bind at 1, catch at 1, streamer_Start. destruct (Start (outside s)) as [[e|] w].
  - destruct (streamer_stop_runs (set_active (active s + 1) w s)) as [w' Hw]. unfold mbind, G_bind, catch. rewrite Hw. cbn. rewrite Hr. lia.
  - cbn. lia.
Qed.

(** After a start that failed nothing runs; after one that did not, the streamer does. *)
Lemma resume_outcome s : consistent s ->
  match ResumeReplicator s with Ret _ s' => streamerRunning s' = true | Err _ s' => streamerRunning s' = false | Crash _ => False end.
Proof.
  intros Hs. unfold ResumeReplicator. rewrite (bind_run get _ _ _ _ eq_refl). destruct (streamerRunning s) eqn:Hr; [done|].
  unfold mbind at 1, G_bind at 1, catch at 1, streamer_Start. destruct (Start (outside s)) as [[e|] w]; [|done].
  destruct (streamer_stop_runs (set_active (active s + 1) w s)) as [w' Hw]. unfold mbind, G_bind, catch. by rewrite Hw.
Qed.

Lemma pause_stops s : consistent s -> exists s', PauseReplicator s = Ret tt s' /\ streamerRunning s' = false /\ consistent s' /\ pools s' = pools s.
Proof.
  intros Hs. unfold PauseReplicator. rewrite (bind_run get _ _ _ _ eq_refl). unfold consistent in *.
  destruct (streamerRunning s) eqn:Hr; cbn [negb].
  - destruct (streamer_stop_runs s) as [w Hw]. rewrite (bind_run _ _ _ _ _ Hw). eexists. split; [reflexivity|]. cbn. lia.
  - exists s. rewrite Hr. done.
Qed.

(** Nothing runs yet, and a setup function keeps it so: the streamer is created after
    the setup. *)
Definition before_start (s : testContext) : Prop := consistent s /\ streamerRunning s = false.
Definition prepares (m : G testContext (option setup_error)) : Prop :=
  forall s, before_start s -> exists r s', m s = Ret r s' /\ before_start s' /\ pools s' = pools s.

Lemma setups_prepare l : Forall prepares l -> prepares (run_setup l).
Proof.
  induction 1 as [|m l Hm Hl IH]; intros s Hs; cbn [run_setup]; [by exists None, s|].
  destruct (Hm s Hs) as (r & s1 & Hr & H1 & Hp). rewrite (bind_run _ _ _ _ _ Hr). destruct r as [e|]; [by exists (Some e), s1|].
  destruct (IH s1 H1) as (r & s2 & Hr2 & H2 & Hp2). exists r, s2. repeat split; [exact Hr2|apply H2|apply H2|congruence].
Qed.

Lemma check_prepares read show version : (forall s, exists v, read s = Ret v s) -> prepares (check_version read show version).
Proof.
  intros Hread s Hs. destruct (Hread s) as [v Hv]. unfold check_version. rewrite (bind_run _ _ _ _ _ Hv). by eexists _, s.
Qed.

Lemma tear_down_stops l s :
  Forall (fun m => Behaved m /\ forall s e s', m s <> Err e s') l -> consistent s ->
  exists s', tear_down l s = Ret None s' /\ streamerRunning s' = false /\ consistent s' /\ pools s' = pools s.
Proof.
  intros Hl. revert s. induction Hl as [|m l [Hm Hne] Hl IH]; intros s Hs; cbn [tear_down].
  - destruct (pause_stops s Hs) as (s' & Hp & H). exists s'. unfold mbind, G_bind, catch. by rewrite Hp.
  - pose proof (Hm s Hs) as H. unfold mbind, G_bind, catch. destruct (m s) as [[] s1|e s1|c] eqn:E; [|by destruct (Hne s e s1)|done].
    destruct H as [H1 Hp]. destruct (IH s1 H1) as (s' & Hr & Hrun & Hc & Hp'). exists s'. repeat split; [exact Hr|done|done|congruence].
Qed.

Lemma streamer_stopped testFn l s :
  Behaved testFn -> Forall (fun m => Behaved m /\ forall s e s', m s <> Err e s') l -> before_start s ->
  exists v s', with_streamer testFn l s = Ret v s' /\ before_start s' /\ pools s' = pools s.
Proof.
  intros Htest Hl [Hs Hr]. unfold with_streamer. rewrite (bind_run get _ _ _ _ eq_refl). cbv zeta.
  destruct (NewStreamer _ (outside s)) as [e w]. rewrite (bind_run (put _) _ _ _ _ eq_refl).
  set (s1 := set_active (active s) w s). assert (consistent s1) as H1 by exact Hs.
  destruct e as [e|]; [do 2 eexists; split; [reflexivity|]; done|].
  pose proof (behaved_resume s1 H1) as Hres. pose proof (resume_outcome s1 H1) as Hout.
  unfold mbind at 1, G_bind at 1, catch at 1. destruct (ResumeReplicator s1) as [[] s2|e s2|c]; [| |done]; destruct Hres as [H2 Hp2].
  - pose proof (Htest s2 H2) as Ht. unfold mbind at 1, G_bind at 1, catch at 1. destruct (testFn s2) as [[] s3|e s3|c]; [| |done];
      destruct Ht as [H3 Hp3]; destruct (tear_down_stops l s3 Hl H3) as (s4 & Hd & Hrun & H4 & Hp4);
      rewrite (bind_run _ _ _ _ _ Hd); do 2 eexists; (split; [reflexivity|]); (split; [done|]); change (pools s) with (pools s1); congruence.
  - do 2 eexists. split; [reflexivity|]. done.
Qed.

(** A test cleans up: if the streamer can be stopped and the tear-down functions do not
    fail, then however the test ends -- skipped, failed in the setup, without a streamer,
    with one that does not start, failed or passed -- its tear-down functions have run if
    it came that far, the streamer does not run, and its pool is closed. *)
Lemma run_test_cleans_up testFn configurators s :
  Behaved testFn -> Forall prepares (concat (setup_of <$> configurators)) ->
  Forall (fun m => Behaved m /\ forall s e s', m s <> Err e s') (concat (tearDown_of <$> configurators)) ->
  before_start s ->
  exists v s', RunTest testFn configurators s = Ret v s' /\ streamerRunning s' = false /\ active s' = 0 /\ pools s' = pools s.
Proof.
  intros Htest Hsetup Htear Hs. unfold RunTest. unfold mbind at 1, G_bind at 1, catch at 1, new_pool.
  destruct (NewWithConfig (outside s)) as [[e|] w].
  { destruct Hs as [Hc Hr]. do 2 eexists. split; [reflexivity|]. unfold consistent in Hc. cbn. rewrite Hr in *. done. }
  rewrite (bind_run (modify _) _ _ _ _ eq_refl). set (s1 := fresh (set_pools (pools s + 1) w s)).
  assert (before_start s1) as H1 by (destruct Hs as [Hc Hr]; unfold consistent in Hc; rewrite Hr in Hc; done).
  destruct (setups_prepare _ Hsetup s1 H1) as (r & s2 & Hr & H2 & Hp2). rewrite (bind_run _ _ _ _ _ Hr).
  match goal with |- context [mbind _ ?m] => assert (exists v s3, m s2 = Ret v s3 /\ before_start s3 /\ pools s3 = pools s2)
    as (v & s3 & Hv & [Hc3 Hr3] & Hp3) end.
  { destruct r as [[msg|msg]|]; [by eexists _, s2|by eexists _, s2|by apply streamer_stopped]. }
  rewrite (bind_run _ _ _ _ _ Hv). do 2 eexists. split; [reflexivity|]. unfold consistent in Hc3. rewrite Hr3 in Hc3. cbn.
  split; [done|]. split; [done|]. rewrite Hp3, Hp2. cbn. lia.
Qed.

(** A tear-down function that fails keeps the streamer running for the rest of the
    process. *)
Lemma failed_tear_down_leaks (fn : G testContext unit) l s e s1 :
  fn s = Err e s1 -> consistent s1 -> streamerRunning s1 = true ->
  exists s', tear_down (fn :: l) s = Ret (Some ("failed to tear down test: " ++ e)%string) s' /\ active s' = 1.
Proof.
  intros Hfn Hc Hr. exists s1. cbn [tear_down]. unfold mbind, G_bind, catch. rewrite Hfn. unfold consistent in Hc.
  by rewrite Hr in Hc.
Qed.
End Runner.
End Runner.

Module Suite.

(** The runner of a suite, the variable logging.WithCaller, the containers that run, and
    the errors that were reported to the suite. *)
Record suite : Type := mkSuite {
  container : option Z;
  withCaller : bool;
  logging_WithCaller : bool;
  containers : list Z;
  reported : list string;
}.

Section Suite.
(** The answers of the logging, of the containers and of the connection settings. *)
Context (InitializeLogging NewLogger : option string) (SetupTimescaleContainer : list Z -> string + Z).
Context (UserConnConfig ReplicationConnConfig : option string).

Definition report (r : option string) : G suite unit :=
  match r with
  | Some e => modify (fun s => mkSuite (container s) (withCaller s) (logging_WithCaller s) (containers s) (reported s ++ [e]))
  | None => mret tt
  end.

(** Without a logger the process ends with a nil pointer when it should log. *)
Definition fatal (r : option string) : G suite unit :=
  match r with Some _ => panic (match NewLogger with Some _ => PanicNilDereference | None => FatalExit end) | None => mret tt end.

Definition SetupSuite : G suite unit :=
  modify (fun s => mkSuite (container s) (logging_WithCaller s) true (containers s) (reported s)) ;;
  report InitializeLogging ;;
  report NewLogger ;;
  s ← get;
  match SetupTimescaleContainer (containers s) with
  | inl e => fatal (Some e)
  | inr c =>
      put (mkSuite (Some c) (withCaller s) (logging_WithCaller s) (c :: containers s) (reported s)) ;;
      fatal UserConnConfig ;;
      fatal ReplicationConnConfig
  end.

(** Terminate ends the container; its error is dropped. *)
Definition terminate (c : Z) (s : suite) : suite :=
  mkSuite (container s) (withCaller s) (logging_WithCaller s) (List.filter (fun c' => negb (c' =? c)) (containers s)) (reported s).

Definition TearDownSuite : G suite unit :=
  s ← get;
  match container s with Some c => modify (terminate c) | None => mret tt end ;;
  modify (fun s => mkSuite (container s) (withCaller s) (withCaller s) (containers s) (reported s)).

(** It waits, a second at a time, until there is no state of the container; [seconds] is
    how long that takes. *)
Definition StopContainer (seconds fuel : nat) : G suite unit :=
  s ← get;
  match container s with
  | Some c =>
      modify (terminate c) ;;
      (if (seconds <? fuel)%nat then mret tt else panic OutOfFuel) ;;
      modify (fun s => mkSuite None (withCaller s) (logging_WithCaller s) (containers s) (reported s))
  | None => mret tt
  end.

(** A suite that is set up and torn down leaves no container and the logging as it was,
    also if its container was stopped in between. *)
Lemma suite_restores s s1 :
  (forall l c, SetupTimescaleContainer l = inr c -> c ∉ l) -> SetupSuite s = Ret tt s1 ->
  exists s2, TearDownSuite s1 = Ret tt s2 /\ containers s2 = containers s /\ logging_WithCaller s2 = logging_WithCaller s /\
  forall seconds fuel, (seconds < fuel)%nat ->
    exists s3 s4, StopContainer seconds fuel s1 = Ret tt s3 /\ TearDownSuite s3 = Ret tt s4 /\
      containers s4 = containers s /\ logging_WithCaller s4 = logging_WithCaller s.
Proof.
  intros Hfresh Hsetup. unfold SetupSuite in Hsetup.
  assert (forall r s, exists l, report r s = Ret tt (mkSuite (container s) (withCaller s) (logging_WithCaller s) (containers s) l)) as Hrep.
  { intros r s0. destruct r; [by eexists|]. exists (reported s0). by destruct s0. }
  rewrite (bind_run (modify _) _ _ _ _ eq_refl) in Hsetup.
  edestruct (Hrep InitializeLogging) as [l1 H1]. rewrite (bind_run _ _ _ _ _ H1) in Hsetup.
  edestruct (Hrep NewLogger) as [l2 H2]. rewrite (bind_run _ _ _ _ _ H2), (bind_run get _ _ _ _ eq_refl) in Hsetup. cbn in Hsetup.
  destruct (SetupTimescaleContainer (containers s)) as [e|c] eqn:Hc; [done|]. apply Hfresh in Hc.
  assert (exists l, s1 = mkSuite (Some c) (logging_WithCaller s) true (c :: containers s) l) as [l ->].
  { unfold fatal in Hsetup. destruct UserConnConfig, ReplicationConnConfig; try done. injection Hsetup as <-. by eexists. }
  assert (List.filter (fun c' => negb (c' =? c)) (c :: containers s) = containers s) as Hf.
  { cbn. rewrite Z.eqb_refl. cbn. clear -Hc. induction (containers s) as [|x t IH]; [done|]. apply not_elem_of_cons in Hc as [Hx Ht].
    cbn. destruct (Z.eqb_spec x c); [congruence|]. cbn. f_equal. by apply IH. }
  eexists. split; [reflexivity|]. split; [exact Hf|]. split; [done|]. intros seconds fuel Hs.
  eexists. eexists. split.
  { unfold StopContainer. rewrite (bind_run get _ _ _ _ eq_refl). cbn [container]. rewrite (bind_run (modify _) _ _ _ _ eq_refl).
    rewrite (proj2 (Nat.ltb_lt _ _) Hs). reflexivity. }
  split; [reflexivity|]. split; [exact Hf|done].
Qed.
End Suite.
End Suite.

Module KafkaConsumer.

(** The envelopes, whether the test was told that it has them, and the channel [collected]
    with its one place. *)
Record kafkaConsumer {E : Type} : Type := mkConsumer { envelopes : list E; collected : nat; marked : nat }.
Arguments kafkaConsumer : clear implicits.
Arguments mkConsumer {E}.

Section Consumer.
Context {M E : Type} (decode : M -> E).

(** One message, while nobody takes from the channel: sending to a full one blocks. *)
Definition on_message (message : M) : G (kafkaConsumer E) unit :=
  k ← get;
  let envelopes := envelopes k ++ [decode message] in
  (if (10 <=? length envelopes)%nat then
     if (collected k <? 1)%nat then put (mkConsumer envelopes (collected k + 1) (marked k)) else panic Deadlock
   else put (mkConsumer envelopes (collected k) (marked k))) ;;
  modify (fun k => mkConsumer (KafkaConsumer.envelopes k) (collected k) (marked k + 1)).

Definition ConsumeClaim (messages : list M) : G (kafkaConsumer E) unit := forM messages on_message.

Lemma few_messages l k :
  collected k = 0%nat -> (length (envelopes k) + length l < 10)%nat ->
  ConsumeClaim l k = Ret tt (mkConsumer (envelopes k ++ (decode <$> l)) 0 (marked k + length l)).
Proof.
  unfold ConsumeClaim. revert k. induction l as [|m l IH]; intros k Hc Hl.
  - destruct k. cbn in *. subst. by rewrite app_nil_r, Nat.add_0_r.
  - cbn [forM length] in *. erewrite bind_run.
    2:{ unfold on_message. rewrite (bind_run get _ _ _ _ eq_refl). cbv zeta.
        rewrite (proj2 (Nat.leb_gt 10 _)) by (rewrite length_app; cbn; lia). reflexivity. }
    rewrite IH by (cbn; rewrite ?length_app; cbn; lia || done). cbn. rewrite <- app_assoc. do 2 f_equal. lia.
Qed.

(** The tenth message is told; the eleventh blocks until somebody listens. *)
Lemma eleventh_message_blocks l m m' :
  length l = 9%nat -> ConsumeClaim (l ++ [m; m']) (mkConsumer [] 0 0) = Crash Deadlock.
Proof.
  intros Hl. unfold ConsumeClaim. rewrite forM_app. erewrite bind_run by (apply few_messages; cbn; lia || done).
  cbn [forM]. erewrite bind_run.
  2:{ unfold on_message. rewrite (bind_run get _ _ _ _ eq_refl). cbv zeta. cbn [envelopes app].
      rewrite (proj2 (Nat.leb_le 10 _)) by (rewrite length_app, length_fmap, Hl; cbn; lia). reflexivity. }
  unfold on_message. unfold mbind at 1 2, G_bind at 1 2, get. cbn [envelopes].
  rewrite (proj2 (Nat.leb_le 10 _)) by (rewrite !length_app, length_fmap, Hl; cbn; lia). reflexivity.
Qed.
End Consumer.
End KafkaConsumer.
